(* ===== verification/_CoqProject ===== *)
-Q . S2P
Prelude.v
Bytes.v
Sha2.v
Utf8.v
Wire.v
Json.v
ChainLink.v
Floats.v
Filter.v
Guard.v
Crypto.v
Pow.v
Trip.v
Window.v
HistoryScan.v
HistoryStore.v
ChainService.v
History.v
Votes.v
Clock.v
TripChains.v
Behavior.v
Abuse.v
Engine.v
Attack.v
Gate.v
Screener.v
LinkedLog.v
ClientView.v
Outbox.v
ClientChain.v
ClientTrack.v
ClientRefill.v
ClientPump.v
ClientSync.v
Admit.v
Passkeys.v
Pair.v
Auth.v
Hub.v
ReadPump.v
EnvMerge.v
EnvRender.v
FloatWait.v
ClientGate.v
GateSession.v
Notices.v
NetIP.v
TrustList.v
ProxyTrust.v
Groups.v
UrlQuery.v
TripApi.v
Console.v
Replies.v
Burn.v
InChat.v
Pretty.v
Vault.v
