(* ===== verification/Prelude.v ===== *)
(** * V2V: a verification library of the chat server and its protocol library

    V2V is a terminal and browser chat: a Go server keeps a hash-chained message
    log, trip-key signature chains, abuse control and a tiered history on disk;
    clients verify the chain, filter notices and page through history.  This
    library translates that core from the Go sources and proves what it promises.

    ** How the program is modelled

    - A Go string or byte slice is a [str], a list of bytes ([ascii]).  Integers
      are [Z]; where the source computes in a fixed width the wrap-around is
      written out ([u8], [u32], [u64], [i8], [i64]).  [float64] is IEEE binary64 by
      the Standard Library's [SpecFloat] (file Floats).
    - A mutex-protected method is one atomic function from the state record to
      the result and the new state; concurrent callers are sequences of such
      steps, in any order.  The clock and random bytes are read once per call, as
      arguments; a [time] is nanoseconds since year 1 (the zero [time.Time]).
    - A Go map is a [gmap]; where the code depends on the map's iteration order
      the order is an argument.  Errors are values ([res], [option], or the
      function's own outcome type).  Log output is left out.
    - Third-party primitives are interfaces: Argon2id and Ed25519 (Crypto), the
      zstd codec (HistoryStore), the Unicode tables outside ASCII (Utf8),
      [math.Pow] (Behavior).  SHA-256, SHA-512 and HMAC are executable (Sha2) and
      their collision resistance is never assumed: theorems that need it end in
      "or here is a collision".
    - Loops over lists are structural.  The bounded searches use fuel: the solver
      runs over the nonces below its bound, [NextTier] over [maxTier] steps, the
      chunked backward reader over the bytes of the file, the decoder of a varint
      over its ten bytes; each file proves that its fuel is enough.

    ** Files

    - Prelude, Bytes, Sha2, Utf8, Floats, Clock, Crypto: the language and its
      standard library as far as the program uses it.
    - Wire, Json: [lib/wire], with [encoding/json] for its structs.
    - ChainLink: [lib/chain].  Filter: [lib/filter].  Guard: [lib/guard].
      Pow: [lib/pow].  Trip: [lib/trip], [lib/tripcolor], [lib/strutil].
    - Window, HistoryScan, HistoryStore: [server/history_store.go] and the ring of
      [server/history.go], from one generation's bytes to the merged window.
    - ChainService, History, Votes: [server/chain.go] and [server/history.go]: the
      log in memory and on disk, its pages and replay, the vote totals.
    - TripChains: trip tips and exposed keys across [server/auth.go],
      [server/history.go], [server/trip_reveal.go], [server/clientHandler.go].
    - Behavior, Abuse, Engine: [internal/behavior], [internal/serverconfig/abuse.go]
      and [server/behavior_engine.go].
    - Attack, Gate, Screener: [server/underattack.go], [server/admit.go],
      [server/gate.go], [server/powscreen.go].
    - Admit, Passkeys, Pair, Auth: the way in ([server/main.go] [ServeWS],
      [server/blocklist.go], [server/webauthn_store.go], [server/webauthn_http.go],
      [server/passkey_lib.go], [server/pair.go] with its endpoints,
      [server/auth.go]): the door's checks and counters, the passkey file, the
      pairing tickets and the handshake.
    - Hub: presence, send queues, fanout and the arrival and departure handlers
      ([server/clientHandler.go], [server/history.go], [server/powscreen.go]).
    - ReadPump: the read loop of a session ([server/clientHandler.go] [ReadPump],
      [server/vote.go], [server/observe.go]) over all of the above.
    - LinkedLog: what any reader of the log may rely on, as one list of linked
      messages, with the proof that the server's log is one.
    - ClientView, Outbox, ClientChain, ClientPump: the client's buffers and indexes
      ([client/entry.go], [tabs.go], [history.go], [collapse.go]), its sending
      side ([client/send.go], the echo queue of [client/chainmeta.go]), its chain
      tracker ([client/chainmeta.go], [lib/clientcore/verify.go]) and its receive
      loop ([client/pump.go], [vote.go], the paging of [dispatch.go]).
    - ClientTrack, ClientRefill, ClientSync: the theorems of the tracker, of its
      refills and of a refill served by [History].
    - EnvMerge, EnvRender: the overlay of a new [.env] template on an operator's
      file and the renderer ([internal/configmerge/merge.go]).
    - FloatWait, ClientGate, GateSession: the client's side of the join gate and its
      dial ([lib/clientcore/gate.go], [lib/clientcore/dial.go]) against the HTTP face
      of [server/gate.go], and the theorems of the two together.
    - Notices: which notices a client shows ([lib/clientcore/notices.go],
      [client/notify.go], the gates of [lib/config/config.go]).
    - NetIP, TrustList, ProxyTrust, Groups: addresses as Go's [net] has them; address
      lists and their upgrade ([internal/trustedproxy/list.go],
      [server/blocklist.go], [internal/configmerge/merge.go]); the proxy chain and
      the dial of a request ([internal/trustedproxy], [server/proxyguard.go],
      [internal/serverconfig]); subnet keys ([internal/behavior/group.go]).
    - UrlQuery, TripApi: query strings as Go's [net/url] has them; the verify
      endpoint and the cross-origin rule ([server/trip_api.go], [server/cors.go])
      with the badge and link of [client/render.go].
    - Console, Replies, Burn: the client's input loop and its commands
      ([client/client.go], [client/dispatch.go], [client/vote.go],
      [client/burn.go]); what a typed line sends; a published seed from the command
      to the endpoint.
    - InChat: the client's answers to in-chat challenges ([client/powclient.go],
      [client/argon2_other.go]) and their conversation with Screener.
    - Pretty, Vault: [json.MarshalIndent]; the secrets on disk ([lib/identity],
      [lib/clientcore/identity.go], [client/identity.go], [client/tripcode.go],
      [client/tripchain.go], [server/server_identity.go]).
    ** How the parts interact

    A dial enters through [Admit], which asks [Gate] for a pass (proof of work,
    bound to the address) and holds a slot; [Auth] spends a nonce and a key, an
    assertion over [Passkeys] or a ticket of [Pair], names the session, and [Hub]
    registers it, feeds its queue and fans out what [ChainService] links.  It is
    scored by [Engine] over [Behavior], screened by [Screener] while it chats, and
    [Attack] raises the pressure that [Gate] and [Screener] read.  [ReadPump]
    takes every frame of a session: an accepted line goes through [Filter] and, when signed, through [TripChains] (over
    [Trip]); [ChainService] links it (over [ChainLink]), numbers it, keeps it in
    memory and queues it for [HistoryStore].  [History] serves pages from both,
    [Votes] keeps totals by chain height, and a restart rebuilds the chain tip,
    the trip tips, the exposed keys and the totals from the stored lines.

    A client reads those lines through [ClientPump]: each is verified by
    [ClientChain] against the running tip, held during the initial load, drawn,
    and its echo settled in [Outbox], which numbers and signs what the user sends
    exactly as [TripChains] expects it.  A gap is filed as a refill, whose ranges
    [History] answers.

    ** What the theorems show

    - The log: a link binds every field of its message; storing continues the
      chain; the memory is a bounded suffix of the log; a restart over any suffix
      resumes height, tip and numbering.
    - The disk: seeking answers like a full scan, a page is exactly the lines
      asked for, joins disk and memory without a seam, and a reported write loads.
    - Paging and replay: every line once, in order, with exact accounting.
    - Trip keys: no forks, tips survive restarts, only signed lines verify, a key
      is flagged only on public proof.
    - Votes: totals agree with a ledger of each address's last vote.
    - Abuse control: passes are earned, submissions spend their challenge, the
      screener refines a three-state machine per connection, the attack flag has
      a cause and ends, tiers settle, suspicion stays in the unit interval, and
      pruning is exact across the indexes.
    - The way in: a refused dial holds nothing, slots and handshakes are counted
      exactly, a role needs a fresh nonce and one of three proofs, tickets and
      counters are spent once, live names are distinct.
    - Delivery: every session sees the chain in its order, with each missing line
      counted; arrival and departure are runs of the hub's steps.
    - The read loop: a frame has exactly one effect on the room, the chain moves
      only by published lines, each of which passed every check, at the pace of
      the cooldown; a session that says nothing valid is cut off.
    - Protocol library: JSON round trips, the filter's exact acceptance, safety of
      what reaches a terminal, limits and spacing of the guards.
    - The client: it never accuses an honest server and, silent, agrees with every
      other silent client; a gap is closed by one honest exchange, a refill draws
      only lines that continue a held hash and always settles; a load finishes; a
      saved tip loads and exposes a rewritten log; signing stays in step with the
      server's tip, each echo confirms one message, scores follow the ledger, and
      buffers and indexes stay within their bounds.
    - Upgrading a configuration: the rendered file, parsed again, says the merge,
      the operator's values first, and a template merged with itself is unchanged.
    - The gate from end to end: against an honest server, with bounded delays and
      clocks apart, a gated dial gets in; a solver only ever sees an offer that the
      pinned key signed, inside the platform's envelope and the local budget.
    - Screening in chat: however the goroutines of a client interleave, one search
      runs at a time, every offer is settled in five turns and answered at most once;
      an issued challenge is read, verified, and answered as a pass or a refusal.
    - Notices: the gates of a configuration do not depend on the order of a map, and
      the notice of the gate follows the switches of the session.
    - Who a peer is: headers of a peer off the edge change nothing of its dial, a
      header's address is backed by a well-kept file and canonical, the order of the
      chain is irrelevant, keys are subnets, and an upgraded list trusts exactly what
      the two lists did.
    - Badges: the link behind the badge of an accepted line is answered with the same
      badge and a valid signature; a valid answer is backed by a signature under this
      server and an unpublished seed.
    - Typing: the lines of a session and their reply targets are exactly those asked
      for, a slash line is never sent, and a burned key is never called valid.
    - Secrets: a sealed file opens under its passphrase and is never written back in
      the open, no file can make the key derivation exceed its bounds, a stored
      tripcode derives one key on every server, and a server keeps its key.
    ** Not modelled

    Sockets, HTTP plumbing, the operating system, log output and process start-up;
    the WebAuthn ceremony itself and markdown rendering, which are third-party libraries; the terminal
    UI, the wording of local lines and the browser glue; the administration tool; configuration loading (the notice gates and the proxy chain apart), and the JSON
    merge, whose numbers go through binary floating point and back to text.  Of
    the modelled files: the profile store's file format, the attack
    sampler's ticker and the compactor's own goroutine. *)

From Stdlib Require Export ZArith Lia ZifyBool String Ascii.
From stdpp Require Export base gmap strings numbers list.

#[export] Set Default Goal Selector "!".

(** * Tactics *)

(** Split every conjunction and existential in the context. *)
Ltac split_hyps :=
  repeat match goal with
  | H : _ /\ _ |- _ => destruct H
  | H : exists _, _ |- _ => destruct H
  end.

(** Case analysis on the innermost test of the goal (or of a hypothesis),
    keeping the equation. *)
Ltac step_if :=
  match goal with
  | |- context [if ?b then _ else _] => destruct b eqn:?
  | |- context [match ?x with _ => _ end] => destruct x eqn:?
  end.

Ltac step_if_in H :=
  match type of H with
  | context [if ?b then _ else _] => destruct b eqn:?
  | context [match ?x with _ => _ end] => destruct x eqn:?
  end.

(** Close a goal about the boolean tests of the code. *)
Ltac bool_lia := repeat (rewrite ?andb_true_iff, ?andb_false_iff, ?orb_true_iff,
  ?orb_false_iff, ?negb_true_iff, ?negb_false_iff in *); try lia.

Create HintDb v2v discriminated.
Create Rewrite HintDb v2v.

(** * Machine integers

    An integer of the source is a [Z]; arithmetic that can leave its width
    goes through one of these wrap-around functions. *)

Definition u64 (z : Z) : Z := (z mod 2 ^ 64)%Z.
Definition u32 (z : Z) : Z := (z mod 2 ^ 32)%Z.
Definition is_u64 (z : Z) : Prop := (0 <= z < 2 ^ 64)%Z.
Definition is_u32 (z : Z) : Prop := (0 <= z < 2 ^ 32)%Z.

(** Go's [int] and [int64] are 64 bits wide. *)
Definition is_i64 (z : Z) : Prop := (- 2 ^ 63 <= z < 2 ^ 63)%Z.
Definition i64 (z : Z) : Z := ((z + 2 ^ 63) mod 2 ^ 64 - 2 ^ 63)%Z.

Lemma u64_range z : is_u64 (u64 z).
Proof. unfold is_u64, u64. apply Z.mod_pos_bound. lia. Qed.

Lemma u64_small z : is_u64 z -> u64 z = z.
Proof. intros H. apply Z.mod_small. exact H. Qed.

Lemma u32_range z : is_u32 (u32 z).
Proof. unfold is_u32, u32. apply Z.mod_pos_bound. lia. Qed.

Lemma u32_small z : is_u32 z -> u32 z = z.
Proof. intros H. apply Z.mod_small. exact H. Qed.

Lemma i64_range z : is_i64 (i64 z).
Proof.
  unfold is_i64, i64.
  pose proof (Z.mod_pos_bound (z + 2 ^ 63) (2 ^ 64) ltac:(lia)). lia.
Qed.

Lemma i64_small z : is_i64 z -> i64 z = z.
Proof. unfold is_i64, i64. intros H. rewrite Z.mod_small; lia. Qed.

#[export] Hint Resolve u64_range u32_range i64_range : v2v.

(** * Time

    [time.Time] is the number of nanoseconds since Go's zero time, so the
    zero value is [0] and [IsZero] tests for it.  A [time.Duration] is a
    64-bit count of nanoseconds; [Sub] saturates at its bounds, as the
    standard library's does.  The clock is an argument of every operation
    that reads it. *)

Abbreviation time := Z (only parsing).
Abbreviation duration := Z (only parsing).

Definition min_duration : duration := (- 2 ^ 63)%Z.
Definition max_duration : duration := (2 ^ 63 - 1)%Z.

Definition IsZero (t : time) : bool := (t =? 0)%Z.
Definition Before (t u : time) : bool := (t <? u)%Z.
Definition After (t u : time) : bool := (u <? t)%Z.
Definition Add (t : time) (d : duration) : time := (t + d)%Z.
Definition Sub (t u : time) : duration :=
  Z.max min_duration (Z.min max_duration (t - u)).

Definition Millisecond : duration := 1000000%Z.
Definition Second : duration := 1000000000%Z.
Definition Minute : duration := 60000000000%Z.
Definition Hour : duration := 3600000000000%Z.

Lemma Sub_gt_iff t u d :
  (min_duration <= d < max_duration)%Z -> (d < Sub t u <-> d < t - u)%Z.
Proof. unfold Sub, min_duration, max_duration. lia. Qed.

Lemma Sub_lt_iff t u d :
  (min_duration < d <= max_duration)%Z -> (Sub t u < d <-> t - u < d)%Z.
Proof. unfold Sub, min_duration, max_duration. lia. Qed.

(** * Results of fallible code *)

Inductive res (E A : Type) : Type :=
| Ok (a : A)
| Err (e : E).
Arguments Ok {E A} a.
Arguments Err {E A} e.

Definition is_ok {E A} (r : res E A) : bool :=
  match r with Ok _ => true | Err _ => false end.

(** * Lists *)

(** The last [n] elements of a list. *)
Definition lastn {A} (n : nat) (l : list A) : list A := drop (length l - n) l.

Section lists.
Context {A : Type}.
Implicit Types l : list A.

Lemma length_lastn n l : length (lastn n l) = Nat.min n (length l).
Proof. unfold lastn. rewrite length_drop. lia. Qed.

Lemma lastn_all n l : (length l <= n)%nat -> lastn n l = l.
Proof. intros H. unfold lastn. by replace (length l - n)%nat with 0%nat by lia. Qed.

Lemma lastn_suffix n l : lastn n l `suffix_of` l.
Proof. exists (take (length l - n) l). symmetry. apply take_drop. Qed.

Lemma lastn_snoc n l x :
  lastn (S n) (l ++ [x]) = lastn n l ++ [x].
Proof.
  unfold lastn. rewrite length_app. simpl.
  replace (length l + 1 - S n)%nat with (length l - n)%nat by lia.
  apply drop_app_le. lia.
Qed.

Lemma lastn_cons_lt n x l : (n <= length l)%nat -> lastn n (x :: l) = lastn n l.
Proof.
  intros H. unfold lastn. simpl.
  rewrite (Nat.sub_succ_l n (length l)) by done. reflexivity.
Qed.

Lemma lastn_app_le n l1 l2 : (n <= length l2)%nat -> lastn n (l1 ++ l2) = lastn n l2.
Proof.
  intros H. unfold lastn. rewrite length_app.
  rewrite drop_app_ge by lia. f_equal. lia.
Qed.

Lemma lastn_app_ge n l1 l2 :
  (length l2 <= n)%nat -> lastn n (l1 ++ l2) = lastn (n - length l2) l1 ++ l2.
Proof.
  intros H. unfold lastn. rewrite length_app.
  rewrite drop_app_le by lia. do 2 f_equal. lia.
Qed.

Lemma lastn_app_lastn_l n l1 l2 : lastn n (lastn n l1 ++ l2) = lastn n (l1 ++ l2).
Proof.
  destruct (decide (n <= length l2)%nat).
  - by rewrite !lastn_app_le.
  - rewrite !lastn_app_ge by lia. f_equal. unfold lastn. rewrite drop_drop, length_drop. f_equal. lia.
Qed.

Lemma lastn_app_lastn_r n l1 l2 : lastn n (l1 ++ lastn n l2) = lastn n (l1 ++ l2).
Proof.
  destruct (decide (n <= length l2)%nat).
  - rewrite !(lastn_app_le n l1) by (rewrite ?length_lastn; lia).
    apply lastn_all. rewrite length_lastn. lia.
  - by rewrite (lastn_all n l2) by lia.
Qed.

Lemma elem_of_lastn n l x : x ∈ lastn n l -> x ∈ l.
Proof. unfold lastn. intros H. rewrite <- (take_drop (length l - n) l). apply elem_of_app. by right. Qed.

Lemma reverse_lastn n l : reverse (lastn n l) = take n (reverse l).
Proof.
  destruct (decide (n <= length l)%nat) as [Hn|Hn].
  - rewrite <- (take_drop (length l - n) l) at 2. fold (lastn n l).
    rewrite reverse_app, take_app_length'; [done|].
    rewrite length_reverse, length_lastn. lia.
  - rewrite lastn_all, take_ge by (rewrite ?length_reverse; lia). done.
Qed.
End lists.
