(* ===== verification/Bytes.v ===== *)
(** Go strings and byte slices as lists of bytes: numeric byte values,
    hexadecimal, decimal, unsigned varints and little-endian words, with the
    round-trip and injectivity lemmas the encodings of the program rely on. *)

From S2P Require Import Prelude.
Local Open Scope Z_scope.

(** A Go [string] and a [\[\]byte] are the same data: a finite sequence of
    bytes. *)
Abbreviation str := (list ascii).

(** A string constant of the source; its UTF-8 bytes. *)
Definition lit (s : string) : str := String.list_ascii_of_string s.
Arguments lit _%_string.

(** * Byte values *)

Definition byte_val (c : ascii) : Z := Z.of_N (N_of_ascii c).
Definition byte_of (z : Z) : ascii := ascii_of_N (Z.to_N (z mod 256)).

Lemma byte_val_range c : 0 <= byte_val c < 256.
Proof. unfold byte_val. pose proof (N_ascii_bounded c). lia. Qed.

Lemma byte_of_val c : byte_of (byte_val c) = c.
Proof.
  unfold byte_of. rewrite Z.mod_small by apply byte_val_range.
  unfold byte_val. rewrite N2Z.id. apply ascii_N_embedding.
Qed.

Lemma byte_val_of_mod z : byte_val (byte_of z) = z mod 256.
Proof.
  unfold byte_val, byte_of. pose proof (Z.mod_pos_bound z 256 ltac:(lia)).
  rewrite N_ascii_embedding; lia.
Qed.

Lemma byte_val_of z : 0 <= z < 256 -> byte_val (byte_of z) = z.
Proof. intros H. rewrite byte_val_of_mod. by apply Z.mod_small. Qed.

Lemma byte_val_inj c d : byte_val c = byte_val d -> c = d.
Proof. intros H. rewrite <- (byte_of_val c), H. apply byte_of_val. Qed.

Lemma byte_of_inj x y : 0 <= x < 256 -> 0 <= y < 256 -> byte_of x = byte_of y -> x = y.
Proof. intros Hx Hy H. rewrite <- (byte_val_of x), H by done. by apply byte_val_of. Qed.

#[export] Hint Rewrite byte_of_val : v2v.

(** [b == c] on bytes. *)
Definition byte_eqb (c d : ascii) : bool := bool_decide (c = d).
Definition str_eqb (s t : str) : bool := bool_decide (s = t).

Lemma byte_eqb_neq c d : c <> d -> byte_eqb c d = false.
Proof. intros H. by apply bool_decide_eq_false. Qed.
Lemma byte_eqb_eq c d : byte_eqb c d = true <-> c = d.
Proof. apply bool_decide_eq_true. Qed.
Lemma byte_eqb_refl c : byte_eqb c c = true.
Proof. by apply byte_eqb_eq. Qed.
Lemma str_eqb_eq s t : str_eqb s t = true <-> s = t.
Proof. apply bool_decide_eq_true. Qed.
Lemma str_eqb_neq s t : str_eqb s t = false <-> s <> t.
Proof. apply bool_decide_eq_false. Qed.
Lemma str_eqb_refl s : str_eqb s s = true.
Proof. by apply str_eqb_eq. Qed.

(** The longest prefix whose bytes all satisfy [p], and the rest. *)
Fixpoint span (p : ascii -> bool) (s : str) : str * str :=
  match s with
  | c :: s' => if p c then let '(a, b) := span p s' in (c :: a, b) else ([], s)
  | [] => ([], [])
  end.

Lemma span_app p s : (span p s).1 ++ (span p s).2 = s.
Proof. induction s as [|c s IH]; [done|]. simpl. destruct (p c); [|done]. destruct (span p s). simpl in *. by rewrite IH. Qed.

Lemma span_all p s : forallb p (span p s).1 = true.
Proof.
  induction s as [|c s IH]; [done|]. simpl. destruct (p c) eqn:E; [|done].
  destruct (span p s). simpl in *. by rewrite E, IH.
Qed.

Lemma span_stop p s c t : (span p s).2 = c :: t -> p c = false.
Proof.
  induction s as [|d s IH]; [done|]. simpl. destruct (p d) eqn:E; [|by intros [= <- <-]].
  destruct (span p s). simpl in *. done.
Qed.

Lemma span_prefix p a c t : forallb p a = true -> p c = false -> span p (a ++ c :: t) = (a, c :: t).
Proof.
  intros Ha Hc. induction a as [|d a IH]; simpl; [by rewrite Hc|].
  simpl in Ha. apply andb_true_iff in Ha as [-> Ha]. by rewrite IH.
Qed.

(** [len(s)] as a Go [int]. *)
Definition slen (s : str) : Z := Z.of_nat (length s).

(** * Searching *)

Fixpoint has_prefix (s p : str) {struct p} : bool :=
  match p, s with
  | [], _ => true
  | c :: p', d :: s' => byte_eqb c d && has_prefix s' p'
  | _ :: _, [] => false
  end.

Lemma has_prefix_spec s p : has_prefix s p = true <-> exists t, s = p ++ t.
Proof.
  revert s. induction p as [|c p IH]; intros s; simpl.
  { split; [intros _; by exists s|done]. }
  destruct s as [|d s]; [split; [done|by intros [? ?]]|].
  unfold byte_eqb. rewrite andb_true_iff, bool_decide_eq_true, IH. split.
  - intros [-> [t ->]]. by exists t.
  - intros [t [= -> ->]]. split; [done|]. by exists t.
Qed.

(** [strings.IndexByte]: the bytes before the first [c] and those after it. *)
Fixpoint cut_byte (c : ascii) (s : str) : option (str * str) :=
  match s with
  | [] => None
  | d :: s' =>
      if byte_eqb d c then Some ([], s')
      else match cut_byte c s' with
           | Some (a, b) => Some (d :: a, b)
           | None => None
           end
  end.

(** [strings.LastIndexByte]: likewise around the last [c]. *)
Fixpoint cut_last_byte (c : ascii) (s : str) : option (str * str) :=
  match s with
  | [] => None
  | d :: s' =>
      match cut_last_byte c s' with
      | Some (a, b) => Some (d :: a, b)
      | None => if byte_eqb d c then Some ([], s') else None
      end
  end.

Lemma cut_last_byte_Some c s a b :
  cut_last_byte c s = Some (a, b) -> s = a ++ c :: b /\ c ∉ b.
Proof.
  revert a b. induction s as [|d s IH]; intros a b; simpl; [done|].
  destruct (cut_last_byte c s) as [[a' b']|] eqn:E.
  - intros [= <- <-]. destruct (IH a' b' eq_refl) as [-> ?]. done.
  - unfold byte_eqb. case_bool_decide; [|done]. intros [= <- <-]. subst d.
    split; [done|]. clear IH. induction s as [|e s IH]; [set_solver|].
    simpl in E. destruct (cut_last_byte c s) as [[??]|]; [done|].
    unfold byte_eqb in E. case_bool_decide; [done|]. set_solver.
Qed.

Lemma cut_last_byte_None c s : cut_last_byte c s = None <-> c ∉ s.
Proof.
  induction s as [|d s IH]; simpl; [set_solver|].
  destruct (cut_last_byte c s) as [[a b]|] eqn:E.
  - split; [done|]. apply cut_last_byte_Some in E as [-> _]. set_solver.
  - unfold byte_eqb. case_bool_decide; set_solver.
Qed.

Lemma cut_last_byte_app c a t : c ∉ t -> cut_last_byte c (a ++ c :: t) = Some (a, t).
Proof.
  intros Ht. induction a as [|d a IH]; simpl; [|by rewrite IH].
  apply cut_last_byte_None in Ht. rewrite Ht. by rewrite byte_eqb_refl.
Qed.

Lemma cut_byte_Some c s a b :
  cut_byte c s = Some (a, b) -> s = a ++ c :: b /\ c ∉ a.
Proof.
  revert a b. induction s as [|d s IH]; intros a b; simpl; [done|].
  unfold byte_eqb. case_bool_decide.
  - intros [= <- <-]. subst. set_solver.
  - destruct (cut_byte c s) as [[a' b']|]; [|done].
    intros [= <- <-]. destruct (IH a' b' eq_refl) as [-> ?]. set_solver.
Qed.

(** [strings.Count(s, string(c))] for a one-byte separator. *)
(** Fields that do not hold the separator split one way. *)
Lemma sep_inj (c : ascii) a b s t :
  c ∉ a -> c ∉ b -> a ++ c :: s = b ++ c :: t -> a = b /\ s = t.
Proof.
  revert b. induction a as [|x a IH]; intros [|y b] Ha Hb H; simpl in H.
  - by injection H as ->.
  - injection H as <- _. exfalso. apply Hb. by left.
  - injection H as -> _. exfalso. apply Ha. by left.
  - injection H as -> H. apply not_elem_of_cons in Ha as [_ Ha]. apply not_elem_of_cons in Hb as [_ Hb].
    destruct (IH b Ha Hb H) as [-> ->]. done.
Qed.

Definition count_byte (c : ascii) (s : str) : Z :=
  Z.of_nat (length (filter (fun d => d = c) s)).

(** * Hexadecimal ([encoding/hex]) *)

Definition hex_digit (n : Z) : ascii :=
  if n <? 10 then byte_of (48 + n) else byte_of (87 + n).

Definition hex_val (c : ascii) : option Z :=
  let v := byte_val c in
  if (48 <=? v) && (v <=? 57) then Some (v - 48)
  else if (97 <=? v) && (v <=? 102) then Some (v - 87)
  else if (65 <=? v) && (v <=? 70) then Some (v - 55)
  else None.

Definition hex_encode (s : str) : str :=
  flat_map (fun c => [hex_digit (byte_val c / 16); hex_digit (byte_val c mod 16)]) s.

(** [hex.DecodeString]: [None] for an odd length or a byte that is no hex
    digit. *)
Fixpoint hex_decode (s : str) : option str :=
  match s with
  | [] => Some []
  | [_] => None
  | a :: b :: s' =>
      match hex_val a, hex_val b, hex_decode s' with
      | Some x, Some y, Some t => Some (byte_of (16 * x + y) :: t)
      | _, _, _ => None
      end
  end.

Lemma hex_val_digit n : 0 <= n < 16 -> hex_val (hex_digit n) = Some n.
Proof.
  intros H. unfold hex_val, hex_digit.
  destruct (n <? 10) eqn:E; rewrite byte_val_of by lia;
    repeat case_match; try (f_equal; lia); exfalso; lia.
Qed.

Lemma hex_decode_encode s : hex_decode (hex_encode s) = Some s.
Proof.
  induction s as [|c s IH]; [done|].
  unfold hex_encode; cbn [flat_map app hex_decode]; fold (hex_encode s).
  pose proof (byte_val_range c).
  rewrite !hex_val_digit, IH.
  - rewrite <- Z.div_mod by lia. by rewrite byte_of_val.
  - apply Z.mod_pos_bound. lia.
  - split; [apply Z.div_pos|apply Z.div_lt_upper_bound]; lia.
Qed.

Lemma hex_encode_inj s t : hex_encode s = hex_encode t -> s = t.
Proof. intros H. apply (f_equal hex_decode) in H. rewrite !hex_decode_encode in H. by simplify_eq. Qed.

Lemma length_hex_encode s : length (hex_encode s) = (2 * length s)%nat.
Proof. induction s as [|c s IH]; [done|]. simpl in *. lia. Qed.


Lemma hex_decode_length s t : hex_decode s = Some t -> length s = (2 * length t)%nat.
Proof.
  revert t. induction s as [s IH] using (induction_ltof1 _ (@length ascii)).
  intros t. destruct s as [|a [|b s]]; simpl; [by intros [= <-]|done|].
  repeat case_match; [|done..]. intros [= <-]. simpl.
  rewrite (IH s) with (t := l); [lia|unfold ltof; simpl; lia|done].
Qed.

(** * Letter case, restricted to ASCII *)

Definition is_ascii (c : ascii) : bool := byte_val c <? 128.

Definition lower_ascii (c : ascii) : ascii :=
  let v := byte_val c in
  if (65 <=? v) && (v <=? 90) then byte_of (v + 32) else c.

(** * Decimal ([strconv.Itoa], [%d]) *)

Definition digit (n : Z) : ascii := byte_of (48 + n).

Fixpoint dec_digits (fuel : nat) (n : Z) (acc : str) : str :=
  match fuel with
  | O => acc
  | S fuel' =>
      if n <? 10 then digit n :: acc
      else dec_digits fuel' (n / 10) (digit (n mod 10) :: acc)
  end.

(** Decimal digits of a non-negative number; [Z.log2 n + 1] divisions by ten
    reach zero. *)
Definition utoa (n : Z) : str := dec_digits (S (Z.to_nat (Z.log2 n))) n [].

Definition itoa (n : Z) : str := if n <? 0 then "-"%char :: utoa (- n) else utoa n.

Definition is_digit (c : ascii) : bool := (48 <=? byte_val c) && (byte_val c <=? 57).

Definition digits_val (s : str) : Z :=
  fold_left (fun a c => 10 * a + (byte_val c - 48)) s 0.

Lemma digit_is_digit n : 0 <= n < 10 -> is_digit (digit n) = true.
Proof. intros H. unfold is_digit, digit. rewrite byte_val_of; lia. Qed.

Lemma byte_val_digit n : 0 <= n < 10 -> byte_val (digit n) = 48 + n.
Proof. intros H. unfold digit. apply byte_val_of. lia. Qed.

Definition dval (a : Z) (s : str) : Z := fold_left (fun a c => 10 * a + (byte_val c - 48)) s a.

Lemma dec_digits_val fuel n acc :
  0 <= n -> n < 10 ^ Z.of_nat fuel -> (0 < fuel)%nat ->
  dval 0 (dec_digits fuel n acc) = dval n acc.
Proof.
  revert n acc. induction fuel as [|fuel IH]; intros n acc Hn Hf Hpos; [lia|].
  cbn [dec_digits]. destruct (n <? 10) eqn:E.
  - unfold dval. simpl. rewrite byte_val_digit by lia. f_equal. lia.
  - rewrite Nat2Z.inj_succ, Z.pow_succ_r in Hf by lia.
    assert (0 < fuel)%nat by (destruct fuel; [simpl in Hf; lia|lia]).
    rewrite IH; [|apply Z.div_pos; lia|apply Z.div_lt_upper_bound; lia|done].
    unfold dval. simpl. rewrite byte_val_digit by (apply Z.mod_pos_bound; lia).
    f_equal. pose proof (Z.div_mod n 10 ltac:(lia)). lia.
Qed.

Lemma utoa_fuel n : 0 <= n -> n < 10 ^ Z.of_nat (S (Z.to_nat (Z.log2 n))).
Proof.
  intros Hn. pose proof (Z.log2_nonneg n).
  rewrite Nat2Z.inj_succ, Z2Nat.id by done.
  apply Z.lt_le_trans with (2 ^ (Z.succ (Z.log2 n))).
  - destruct (decide (n = 0)) as [->|]; [done|]. apply Z.log2_spec. lia.
  - apply Z.pow_le_mono_l. lia.
Qed.

Lemma digits_val_utoa n : 0 <= n -> digits_val (utoa n) = n.
Proof.
  intros Hn. unfold digits_val, utoa. fold (dval 0 (dec_digits (S (Z.to_nat (Z.log2 n))) n [])).
  rewrite dec_digits_val; [done|done|by apply utoa_fuel|lia].
Qed.

Lemma dec_digits_forall fuel n acc :
  0 <= n -> Forall (fun c => is_digit c = true) acc ->
  Forall (fun c => is_digit c = true) (dec_digits fuel n acc).
Proof.
  revert n acc. induction fuel as [|fuel IH]; intros n acc Hn Ha; simpl; [done|].
  destruct (n <? 10) eqn:E.
  - constructor; [apply digit_is_digit; lia|done].
  - apply IH; [apply Z.div_pos; lia|].
    constructor; [apply digit_is_digit, Z.mod_pos_bound; lia|done].
Qed.

Lemma utoa_digits n : 0 <= n -> Forall (fun c => is_digit c = true) (utoa n).
Proof. intros Hn. by apply dec_digits_forall. Qed.

Lemma utoa_nonempty n : utoa n <> [].
Proof.
  unfold utoa. cbn [dec_digits].
  assert (forall f m acc, acc <> [] -> dec_digits f m acc <> []) as H.
  { intros f. induction f as [|f IH]; intros m acc Ha; simpl; [done|].
    destruct (m <? 10); [done|]. by apply IH. }
  destruct (n <? 10); [done|]. by apply H.
Qed.

(** No leading zero. *)
Lemma dec_digits_head fuel n acc :
  0 < n -> n < 10 ^ Z.of_nat fuel ->
  exists d l, dec_digits fuel n acc = digit d :: l /\ 0 < d < 10.
Proof.
  revert n acc. induction fuel as [|fuel IH]; intros n acc Hn Hf; [simpl in Hf; lia|].
  cbn [dec_digits]. destruct (n <? 10) eqn:E; [exists n, acc; split; [done|lia]|].
  rewrite Nat2Z.inj_succ, Z.pow_succ_r in Hf by lia.
  apply IH; [apply Z.div_str_pos; lia|apply Z.div_lt_upper_bound; lia].
Qed.

Lemma utoa_head n l : 0 < n -> utoa n <> "0"%char :: l.
Proof.
  intros Hn H. unfold utoa in H.
  destruct (dec_digits_head _ n [] Hn (utoa_fuel n ltac:(lia))) as (d & l' & Hd & Hr).
  rewrite Hd in H. injection H as H _. apply (f_equal byte_val) in H.
  rewrite byte_val_digit in H by lia. vm_compute (byte_val "0"%char) in H. lia.
Qed.

Lemma utoa_inj m n : 0 <= m -> 0 <= n -> utoa m = utoa n -> m = n.
Proof. intros Hm Hn H. rewrite <- (digits_val_utoa m), H, digits_val_utoa by done. done. Qed.

Lemma itoa_inj m n : itoa m = itoa n -> m = n.
Proof.
  assert (forall k l, 0 <= k -> utoa k <> "-"%char :: l) as Hd.
  { intros k l Hk H. pose proof (utoa_digits k Hk) as F. rewrite H in F.
    inversion F as [|?? Hc]. by vm_compute in Hc. }
  unfold itoa. destruct (m <? 0) eqn:Em, (n <? 0) eqn:En; intros H.
  - injection H as H. apply utoa_inj in H; lia.
  - symmetry in H. apply Hd in H; [done|lia].
  - apply Hd in H; [done|lia].
  - apply utoa_inj in H; lia.
Qed.

Lemma itoa_no_byte n c : is_digit c = false -> c <> "-"%char -> c ∉ itoa n.
Proof.
  intros Hc Hm H. unfold itoa in H.
  assert (forall k, 0 <= k -> c ∈ utoa k -> False) as Hu.
  { intros k Hk Hin. pose proof (utoa_digits k Hk) as F.
    rewrite Forall_forall in F. apply F in Hin. congruence. }
  destruct (n <? 0) eqn:E; [apply elem_of_cons in H as [H|H]; [done|]|];
    eapply Hu; [|done| |done]; lia.
Qed.

(** * Unsigned varints ([binary.PutUvarint]) *)

Fixpoint put_uvarint (fuel : nat) (x : Z) : str :=
  match fuel with
  | O => []
  | S fuel' =>
      if x <? 128 then [byte_of x]
      else byte_of (Z.lor (x mod 256) 128) :: put_uvarint fuel' (Z.shiftr x 7)
  end.

(** A [uint64] takes at most [binary.MaxVarintLen64 = 10] bytes. *)
Definition uvarint (x : Z) : str := put_uvarint 10 x.

Lemma lor_128 x : Z.lor (x mod 256) 128 = 128 + x mod 128.
Proof.
  replace (x mod 128) with (Z.land (x mod 256) 127).
  - generalize (x mod 256) (Z.mod_pos_bound x 256 ltac:(lia)). intros y Hy.
    assert (y = Z.of_nat (Z.to_nat y)) as -> by lia.
    assert (Z.to_nat y < 256)%nat as Hn by lia. clear Hy x. revert Hn.
    generalize (Z.to_nat y). intros n Hn.
    do 256 (destruct n as [|n]; [reflexivity|]). lia.
  - change 127 with (Z.ones 7). rewrite Z.land_ones by lia.
    change (2 ^ 7) with 128. apply Z.mod_mod_divide. by exists 2.
Qed.

Lemma put_uvarint_prefix_free f x y s t :
  0 <= x < 128 ^ Z.of_nat f -> 0 <= y < 128 ^ Z.of_nat f ->
  put_uvarint f x ++ s = put_uvarint f y ++ t -> x = y /\ s = t.
Proof.
  revert x y. induction f as [|f IH]; intros x y Hx Hy H.
  { simpl in Hx, Hy. split; [lia|done]. }
  rewrite Nat2Z.inj_succ, Z.pow_succ_r in Hx, Hy by lia.
  cbn [put_uvarint] in H. rewrite !lor_128, !Z.shiftr_div_pow2 in H by lia.
  change (2 ^ 7) with 128 in H.
  pose proof (Z.mod_pos_bound x 128 ltac:(lia)) as Hmx.
  pose proof (Z.mod_pos_bound y 128 ltac:(lia)) as Hmy.
  destruct (x <? 128) eqn:Ex, (y <? 128) eqn:Ey; simpl in H; injection H as Hb Hr;
    apply byte_of_inj in Hb; try (by split; [lia|]); try lia.
  apply IH in Hr as [Hq Hs].
  - split; [|done]. rewrite (Z.div_mod x 128), (Z.div_mod y 128) by lia. lia.
  - split; [apply Z.div_pos|apply Z.div_lt_upper_bound]; lia.
  - split; [apply Z.div_pos|apply Z.div_lt_upper_bound]; lia.
Qed.

Lemma uvarint_prefix_free x y s t :
  is_u64 x -> is_u64 y -> uvarint x ++ s = uvarint y ++ t -> x = y /\ s = t.
Proof. unfold is_u64, uvarint. intros Hx Hy. apply put_uvarint_prefix_free; lia. Qed.

(** * Little-endian words ([binary.LittleEndian.PutUint64]) *)

Fixpoint put_le (n : nat) (x : Z) : str :=
  match n with O => [] | S n' => byte_of x :: put_le n' (Z.shiftr x 8) end.

Lemma length_put_le n x : length (put_le n x) = n.
Proof. revert x. induction n as [|n IH]; intros x; simpl; [done|]. by rewrite IH. Qed.

Lemma put_le_inj n x y :
  0 <= x < 256 ^ Z.of_nat n -> 0 <= y < 256 ^ Z.of_nat n -> put_le n x = put_le n y -> x = y.
Proof.
  revert x y. induction n as [|n IH]; intros x y Hx Hy H; [simpl in Hx, Hy; lia|].
  rewrite Nat2Z.inj_succ, Z.pow_succ_r in Hx, Hy by lia.
  simpl in H. injection H as H1 H2. apply (f_equal byte_val) in H1.
  rewrite !byte_val_of_mod in H1. rewrite !Z.shiftr_div_pow2 in H2 by lia.
  change (2 ^ 8) with 256 in H2. apply IH in H2.
  - rewrite (Z.div_mod x 256), (Z.div_mod y 256) by lia. lia.
  - split; [apply Z.div_pos|apply Z.div_lt_upper_bound]; lia.
  - split; [apply Z.div_pos|apply Z.div_lt_upper_bound]; lia.
Qed.
