(* ===== verification/Sha2.v ===== *)
(** The SHA-2 functions of [crypto/sha256] and [crypto/sha512] and
    [crypto/hmac] over them, executable.  Round constants are computed from
    their definition: the fractional parts of the square and cube roots of
    the first primes. *)

From S2P Require Import Prelude Bytes.
Local Open Scope Z_scope.

(** * Constants *)

Definition primes : list Z :=
  [2; 3; 5; 7; 11; 13; 17; 19; 23; 29; 31; 37; 41; 43; 47; 53; 59; 61; 67; 71;
   73; 79; 83; 89; 97; 101; 103; 107; 109; 113; 127; 131; 137; 139; 149; 151;
   157; 163; 167; 173; 179; 181; 191; 193; 197; 199; 211; 223; 227; 229; 233;
   239; 241; 251; 257; 263; 269; 271; 277; 281; 283; 293; 307; 311; 313; 317;
   331; 337; 347; 349; 353; 359; 367; 373; 379; 383; 389; 397; 401; 409].

(** Integer cube root by binary search over [bits] bits. *)
Fixpoint cbrt_bits (bits : nat) (n r : Z) : Z :=
  match bits with
  | O => r
  | S b =>
      let r' := r + 2 ^ Z.of_nat b in
      if r' * r' * r' <=? n then cbrt_bits b n r' else cbrt_bits b n r
  end.

Definition frac_cbrt (w p : Z) : Z := cbrt_bits 70 (p * 2 ^ (3 * w)) 0 mod 2 ^ w.
Definition frac_sqrt (w p : Z) : Z := Z.sqrt (p * 2 ^ (2 * w)) mod 2 ^ w.

(** * The family *)

Record sha2_params := {
  sp_w : Z;                       (* word width in bits *)
  sp_Sigma0 : Z * Z * Z;          (* three rotations *)
  sp_Sigma1 : Z * Z * Z;
  sp_sigma0 : Z * Z * Z;          (* two rotations and a shift *)
  sp_sigma1 : Z * Z * Z;
  sp_K : list Z
}.

Definition K256 : list Z := Eval vm_compute in map (frac_cbrt 32) (take 64 primes).
Definition K512 : list Z := Eval vm_compute in map (frac_cbrt 64) primes.

Definition p256 : sha2_params :=
  {| sp_w := 32; sp_Sigma0 := (2, 13, 22); sp_Sigma1 := (6, 11, 25);
     sp_sigma0 := (7, 18, 3); sp_sigma1 := (17, 19, 10); sp_K := K256 |}.
Definition p512 : sha2_params :=
  {| sp_w := 64; sp_Sigma0 := (28, 34, 39); sp_Sigma1 := (14, 18, 41);
     sp_sigma0 := (1, 8, 7); sp_sigma1 := (19, 61, 6); sp_K := K512 |}.

Inductive regs := Regs (a b c d e f g h : Z).

Definition H256 : regs :=
  Eval vm_compute in
    match map (frac_sqrt 32) (take 8 primes) with
    | [a; b; c; d; e; f; g; h] => Regs a b c d e f g h
    | _ => Regs 0 0 0 0 0 0 0 0
    end.
Definition H512 : regs :=
  Eval vm_compute in
    match map (frac_sqrt 64) (take 8 primes) with
    | [a; b; c; d; e; f; g; h] => Regs a b c d e f g h
    | _ => Regs 0 0 0 0 0 0 0 0
    end.

Section family.
Variable p : sha2_params.
Let w := sp_w p.

Definition wadd (x y : Z) : Z := (x + y) mod 2 ^ w.
Definition rotr (x n : Z) : Z :=
  Z.lor (Z.shiftr x n) (Z.shiftl x (w - n) mod 2 ^ w).
Definition big_sigma (r : Z * Z * Z) (x : Z) : Z :=
  let '(i, j, k) := r in Z.lxor (Z.lxor (rotr x i) (rotr x j)) (rotr x k).
Definition small_sigma (r : Z * Z * Z) (x : Z) : Z :=
  let '(i, j, k) := r in Z.lxor (Z.lxor (rotr x i) (rotr x j)) (Z.shiftr x k).
Definition choose (x y z : Z) : Z :=
  Z.lxor (Z.land x y) (Z.land (Z.lxor x (Z.ones w)) z).
Definition majority (x y z : Z) : Z :=
  Z.lxor (Z.lxor (Z.land x y) (Z.land x z)) (Z.land y z).

Definition round (r : regs) (kw : Z) : regs :=
  let 'Regs a b c d e f g h := r in
  let t1 := wadd (wadd h (big_sigma (sp_Sigma1 p) e)) (wadd (choose e f g) kw) in
  let t2 := wadd (big_sigma (sp_Sigma0 p) a) (majority a b c) in
  Regs (wadd t1 t2) a b c (wadd d t1) e f g.

(** The message schedule, newest word first. *)
Fixpoint schedule (n : nat) (ws : list Z) : list Z :=
  match n with
  | O => ws
  | S n' =>
      let x := wadd (wadd (small_sigma (sp_sigma1 p) (nth 1 ws 0)) (nth 6 ws 0))
                    (wadd (small_sigma (sp_sigma0 p) (nth 14 ws 0)) (nth 15 ws 0)) in
      schedule n' (x :: ws)
  end.

Definition add_regs (x y : regs) : regs :=
  let 'Regs a b c d e f g h := x in
  let 'Regs a' b' c' d' e' f' g' h' := y in
  Regs (wadd a a') (wadd b b') (wadd c c') (wadd d d')
       (wadd e e') (wadd f f') (wadd g g') (wadd h h').

Definition block (r : regs) (ws : list Z) : regs :=
  let sched := reverse (schedule (length (sp_K p) - 16) (reverse ws)) in
  add_regs r (fold_left round (zip_with wadd (sp_K p) sched) r).

Definition be_word (s : str) : Z := fold_left (fun a c => 256 * a + byte_val c) s 0.
Definition put_be (n : nat) (x : Z) : str := reverse (put_le n x).

Definition word_bytes : nat := Z.to_nat (w / 8).
Definition block_bytes : nat := 16 * word_bytes.

Fixpoint split_words (n : nat) (s : str) : list Z :=
  match n with
  | O => []
  | S n' => be_word (take word_bytes s) :: split_words n' (drop word_bytes s)
  end.

Fixpoint blocks (n : nat) (r : regs) (s : str) : regs :=
  match n with
  | O => r
  | S n' => blocks n' (block r (split_words 16 (take block_bytes s))) (drop block_bytes s)
  end.

(** One bit, zeros, then the bit length in two words. *)
Definition pad (m : str) : str :=
  let len := length m in
  let tail := (2 * word_bytes)%nat in
  let zeros := ((2 * block_bytes - (len + 1 + tail) mod block_bytes) mod block_bytes)%nat in
  m ++ byte_of 128 :: replicate zeros (byte_of 0) ++ put_be tail (8 * Z.of_nat len).

Definition digest (r : regs) : str :=
  let 'Regs a b c d e f g h := r in
  put_be word_bytes a ++ put_be word_bytes b ++ put_be word_bytes c ++ put_be word_bytes d ++
  put_be word_bytes e ++ put_be word_bytes f ++ put_be word_bytes g ++ put_be word_bytes h.

Definition sha2 (init : regs) (m : str) : str :=
  let s := pad m in
  digest (blocks (length s / block_bytes) init s).

Lemma length_sha2 init m : length (sha2 init m) = (8 * word_bytes)%nat.
Proof.
  unfold sha2, digest. destruct (blocks _ _ _).
  unfold put_be. rewrite !length_app, !length_reverse, !length_put_le. lia.
Qed.
End family.

Definition sha256 (m : str) : str := sha2 p256 H256 m.
Definition sha512 (m : str) : str := sha2 p512 H512 m.

Arguments sha256 : simpl never.
Arguments sha512 : simpl never.

Lemma length_sha256 m : length (sha256 m) = 32%nat.
Proof. apply length_sha2. Qed.

Lemma length_sha512 m : length (sha512 m) = 64%nat.
Proof. apply length_sha2. Qed.

#[export] Hint Rewrite length_sha256 length_sha512 : v2v.

(** Published test vectors. *)
Example sha256_abc :
  hex_encode (sha256 (lit "abc")) =
  lit "ba7816bf8f01cfea414140de5dae2223b00361a396177a9cb410ff61f20015ad".
Proof. vm_compute. reflexivity. Qed.

Example sha256_two_blocks :
  hex_encode (sha256 (lit "abcdbcdecdefdefgefghfghighijhijkijkljklmklmnlmnomnopnopq")) =
  lit "248d6a61d20638b8e5c026930c3e6039a33ce45964ff2167f6ecedd419db06c1".
Proof. vm_compute. reflexivity. Qed.

Example sha512_abc :
  take 32 (hex_encode (sha512 (lit "abc"))) = lit "ddaf35a193617abacc417349ae204131".
Proof. vm_compute. reflexivity. Qed.

(** * HMAC *)

Definition xor_pad (b : Z) (k : str) : str :=
  map (fun c => byte_of (Z.lxor (byte_val c) b)) k.

Definition hmac (h : str -> str) (blk : nat) (key m : str) : str :=
  let k0 := if (blk <? length key)%nat then h key else key in
  let k := k0 ++ replicate (blk - length k0) (byte_of 0) in
  h (xor_pad 92 k ++ h (xor_pad 54 k ++ m)).

Definition hmac_sha256 (key m : str) : str := hmac sha256 64 key m.
Definition hmac_sha512 (key m : str) : str := hmac sha512 128 key m.

Example hmac_sha256_vector :
  hex_encode (hmac_sha256 (lit "Jefe") (lit "what do ya want for nothing?")) =
  lit "5bdcc146bf60754e6a042426089575c75a003f089d2739839dec58b964ec3843".
Proof. vm_compute. reflexivity. Qed.

(** * Collisions

    SHA-256 is not injective, so what the program gets from it is stated as:
    equal digests come from equal inputs, or from a pair of inputs that
    collides. *)

Definition collides (x y : str) : Prop := x <> y /\ sha256 x = sha256 y.

Lemma sha256_eq_or_collides x y : sha256 x = sha256 y -> x = y \/ collides x y.
Proof. intros H. destruct (decide (x = y)); [by left|right]. by split. Qed.
