(* ===== verification/Utf8.v ===== *)
(** UTF-8 ([unicode/utf8], [for range] over a string), the Unicode general
    category tables ([unicode]) and the functions of [strings] that depend on
    them.  The tables outside ASCII depend on the Unicode version of the
    toolchain, so they are the parameter [Unicode]. *)

From S2P Require Import Prelude Bytes.
Local Open Scope Z_scope.

(** * Runes *)

Definition RuneError : Z := 65533.

Definition valid_rune (r : Z) : bool :=
  ((0 <=? r) && (r <? 55296)) || ((57344 <=? r) && (r <=? 1114111)).

Definition in_range (lo hi : Z) (c : ascii) : bool :=
  (lo <=? byte_val c) && (byte_val c <=? hi).

(** The continuation bytes of a sequence: 6 bits each. *)
Definition cont (c : ascii) : Z := byte_val c - 128.

(** [utf8.DecodeRune]: the rune and the number of bytes it takes; an invalid
    sequence is [(RuneError, 1)], an empty input [(RuneError, 0)]. *)
Definition decode_rune (s : str) : Z * nat :=
  let bad := (RuneError, 1%nat) in
  match s with
  | [] => (RuneError, 0%nat)
  | a :: s1 =>
      let v := byte_val a in
      if v <? 128 then (v, 1%nat)
      else if (v <? 194) || (244 <? v) then bad
      else match s1 with
      | [] => bad
      | b :: s2 =>
          let lo := if v =? 224 then 160 else if v =? 240 then 144 else 128 in
          let hi := if v =? 237 then 159 else if v =? 244 then 143 else 191 in
          if negb (in_range lo hi b) then bad
          else if v <? 224 then ((v - 192) * 64 + cont b, 2%nat)
          else match s2 with
          | [] => bad
          | c :: s3 =>
              if negb (in_range 128 191 c) then bad
              else if v <? 240 then ((v - 224) * 4096 + cont b * 64 + cont c, 3%nat)
              else match s3 with
              | [] => bad
              | d :: _ =>
                  if negb (in_range 128 191 d) then bad
                  else ((v - 240) * 262144 + cont b * 4096 + cont c * 64 + cont d, 4%nat)
              end
          end
      end
  end.

(** [utf8.AppendRune]; an invalid rune is written as U+FFFD. *)
Definition encode_rune (r0 : Z) : str :=
  let r := if valid_rune r0 then r0 else RuneError in
  if r <? 128 then [byte_of r]
  else if r <? 2048 then [byte_of (192 + r / 64); byte_of (128 + r mod 64)]
  else if r <? 65536 then
    [byte_of (224 + r / 4096); byte_of (128 + r / 64 mod 64); byte_of (128 + r mod 64)]
  else
    [byte_of (240 + r / 262144); byte_of (128 + r / 4096 mod 64);
     byte_of (128 + r / 64 mod 64); byte_of (128 + r mod 64)].

Lemma decode_rune_size s : s <> [] -> (1 <= (decode_rune s).2 <= length s)%nat.
Proof.
  intros H. unfold decode_rune.
  repeat (case_match; simpl in *; try lia); done.
Qed.

(** Turn the quotients and remainders of the goal into variables, then decide
    every test. *)
Ltac rune_tests :=
  Z.to_euclidean_division_equations;
  repeat (case_match; try (exfalso; lia)); try (f_equal; lia).

Lemma length_encode_rune r : (1 <= length (encode_rune r) <= 4)%nat.
Proof. unfold encode_rune. repeat case_match; simpl; lia. Qed.

Lemma decode_encode_rune r s :
  valid_rune r = true ->
  decode_rune (encode_rune r ++ s) = (r, length (encode_rune r)).
Proof.
  intros Hv. unfold encode_rune. rewrite Hv. unfold valid_rune in Hv.
  destruct (r <? 128) eqn:E1; [|destruct (r <? 2048) eqn:E2; [|destruct (r <? 65536) eqn:E3]]; simpl;
    rewrite ?byte_val_of by (Z.to_euclidean_division_equations; lia);
    unfold in_range, cont;
    rewrite ?byte_val_of by (Z.to_euclidean_division_equations; lia).
  - by rewrite E1.
  - rune_tests.
  - rune_tests.
  - rune_tests.
Qed.

Lemma byte_of_eq x c : x = byte_val c -> byte_of x = c.
Proof. intros ->. apply byte_of_val. Qed.

(** A well-formed sequence is the encoding of the rune it decodes to. *)
Lemma encode_decode_rune s r n :
  decode_rune s = (r, n) -> (r <> RuneError \/ (1 < n)%nat) ->
  valid_rune r = true /\ take n s = encode_rune r.
Proof.
  intros H Hok. revert H.
  destruct s as [|a s]; cbn [decode_rune]; cbv zeta;
    [by intros [= <- <-]; destruct Hok; [|lia]|].
  pose proof (byte_val_range a) as Ha.
  assert ((RuneError, 1%nat) = (r, n) -> False) as Hbad.
  { intros [= <- <-]. destruct Hok; [done|lia]. }
  destruct (byte_val a <? 128) eqn:E1.
  { intros [= <- <-]. unfold encode_rune, valid_rune. rune_tests.
    simpl. by rewrite byte_of_val. }
  destruct ((byte_val a <? 194) || (244 <? byte_val a)) eqn:E2; [by intros ?%Hbad|].
  destruct s as [|b s]; [by intros ?%Hbad|].
  pose proof (byte_val_range b) as Hb. unfold in_range, cont.
  destruct (negb _) eqn:E3; [by intros ?%Hbad|].
  apply negb_false_iff, andb_true_iff in E3 as [E3 E3'].
  destruct (byte_val a <? 224) eqn:E4.
  { intros [= <- <-]. unfold encode_rune, valid_rune.
    repeat (case_match; try (exfalso; lia)). split; [done|]. simpl.
    repeat f_equal; symmetry; apply byte_of_eq; Z.to_euclidean_division_equations; lia. }
  destruct s as [|c s]; [by intros ?%Hbad|]. pose proof (byte_val_range c) as Hc.
  destruct (negb _) eqn:E5; [by intros ?%Hbad|].
  apply negb_false_iff in E5. destruct (byte_val a <? 240) eqn:E6.
  { intros [= <- <-]. unfold encode_rune, valid_rune.
    repeat (case_match; try (exfalso; lia)); (split; [done|]); simpl;
    repeat f_equal; symmetry; apply byte_of_eq; Z.to_euclidean_division_equations; lia. }
  destruct s as [|d s]; [by intros ?%Hbad|]. pose proof (byte_val_range d) as Hd.
  destruct (negb _) eqn:E7; [by intros ?%Hbad|]. apply negb_false_iff in E7.
  intros [= <- <-]. unfold encode_rune, valid_rune.
  repeat (case_match; try (exfalso; lia)); (split; [done|]); simpl;
    repeat f_equal; symmetry; apply byte_of_eq; Z.to_euclidean_division_equations; lia.
Qed.

Arguments decode_rune : simpl never.
Arguments encode_rune : simpl never.

(** * Ranging over a string *)

(** One step of [for _, r := range s]: the rune and the bytes it was read
    from. *)
Record seg := Seg { seg_rune : Z; seg_bytes : str }.

Fixpoint segs_fuel (fuel : nat) (s : str) : list seg :=
  match fuel, s with
  | S fuel', _ :: _ =>
      let '(r, n) := decode_rune s in
      Seg r (take n s) :: segs_fuel fuel' (drop n s)
  | _, _ => []
  end.

(** Each step consumes at least one byte, so [length s] steps are enough. *)
Definition segs (s : str) : list seg := segs_fuel (length s) s.

Definition runes (s : str) : list Z := map seg_rune (segs s).
Definition encode (rs : list Z) : str := flat_map encode_rune rs.

Definition RuneCount (s : str) : Z := Z.of_nat (length (segs s)).

(** An invalid byte reads as [RuneError] of width one. *)
Definition seg_valid (g : seg) : bool :=
  negb ((seg_rune g =? RuneError) && (length (seg_bytes g) =? 1)%nat).

Definition ValidString (s : str) : bool := forallb seg_valid (segs s).

Lemma segs_fuel_enough f1 f2 s :
  (length s <= f1)%nat -> (length s <= f2)%nat -> segs_fuel f1 s = segs_fuel f2 s.
Proof.
  revert f2 s. induction f1 as [|f1 IH]; intros f2 s H1 H2.
  { destruct s; [|simpl in H1; lia]. by destruct f2. }
  destruct s as [|c s]; [by destruct f2|]. destruct f2 as [|f2]; [simpl in H2; lia|].
  cbn [segs_fuel]. destruct (decode_rune (c :: s)) as [r n] eqn:E.
  pose proof (decode_rune_size (c :: s) ltac:(done)) as Hn. rewrite E in Hn. simpl in Hn.
  f_equal. apply IH; rewrite length_drop; simpl in *; lia.
Qed.

Lemma segs_cons s r n :
  s <> [] -> decode_rune s = (r, n) -> segs s = Seg r (take n s) :: segs (drop n s).
Proof.
  intros Hs E. unfold segs at 1. destruct s as [|c s]; [done|]. simpl length.
  cbn [segs_fuel]. rewrite E. f_equal.
  pose proof (decode_rune_size (c :: s) ltac:(done)) as Hn. rewrite E in Hn. simpl in Hn.
  apply segs_fuel_enough; rewrite length_drop; simpl in *; lia.
Qed.

(** Induction on the steps of the range loop. *)
Lemma segs_ind (P : str -> Prop) :
  P [] ->
  (forall s r n, s <> [] -> decode_rune s = (r, n) -> (1 <= n <= length s)%nat ->
                 P (drop n s) -> P s) ->
  forall s, P s.
Proof.
  intros H0 H1 s. induction s as [s IH] using (induction_ltof1 _ (@length ascii)).
  destruct s as [|c s]; [done|]. destruct (decode_rune (c :: s)) as [r n] eqn:E.
  pose proof (decode_rune_size (c :: s) ltac:(done)) as Hn. rewrite E in Hn. simpl in Hn.
  apply (H1 _ r n); [done|done|simpl; lia|]. apply IH. unfold ltof.
  rewrite length_drop. simpl. lia.
Qed.

Lemma segs_bytes s : flat_map seg_bytes (segs s) = s.
Proof.
  induction s as [|s r n Hs E Hn IH] using segs_ind; [done|].
  rewrite (segs_cons s r n) by done. simpl. rewrite IH. apply take_drop.
Qed.

Lemma segs_encode_cons r s :
  valid_rune r = true -> segs (encode_rune r ++ s) = Seg r (encode_rune r) :: segs s.
Proof.
  intros Hv. pose proof (length_encode_rune r) as Hl.
  rewrite (segs_cons _ r (length (encode_rune r))).
  - rewrite take_app_length, drop_app_length. done.
  - destruct (encode_rune r); simpl in *; [lia|done].
  - by apply decode_encode_rune.
Qed.

Lemma segs_encode rs s :
  forallb valid_rune rs = true ->
  segs (encode rs ++ s) = map (fun r => Seg r (encode_rune r)) rs ++ segs s.
Proof.
  induction rs as [|r rs IH]; simpl; [done|]. rewrite andb_true_iff. intros [Hr Hrs].
  unfold encode; simpl; fold (encode rs). rewrite <- app_assoc, segs_encode_cons, IH by done. done.
Qed.

Lemma runes_encode rs : forallb valid_rune rs = true -> runes (encode rs) = rs.
Proof.
  intros H. unfold runes. rewrite <- (app_nil_r (encode rs)), segs_encode by done.
  rewrite app_nil_r, map_map. simpl. apply map_id.
Qed.

(** A valid segment is the encoding of its rune. *)
Lemma seg_valid_encode s g :
  In g (segs s) -> seg_valid g = true ->
  valid_rune (seg_rune g) = true /\ seg_bytes g = encode_rune (seg_rune g).
Proof.
  induction s as [|s r n Hs E Hn IH] using segs_ind; [done|].
  rewrite (segs_cons s r n) by done. intros [<-|Hin] Hv; [|by apply IH].
  simpl. unfold seg_valid in Hv. simpl in Hv.
  apply (encode_decode_rune s r n E).
  rewrite length_take_le in Hv by lia. lia.
Qed.

Lemma ValidString_encode s :
  ValidString s = true -> forallb valid_rune (runes s) = true /\ encode (runes s) = s.
Proof.
  unfold ValidString, runes. rewrite forallb_forall. intros H.
  assert (forall l, (forall g, In g l -> In g (segs s)) ->
    forallb valid_rune (map seg_rune l) = true /\
    encode (map seg_rune l) = flat_map seg_bytes l) as Hall.
  { induction l as [|g l IH]; intros Hsub; [done|].
    destruct (seg_valid_encode s g) as [Hr Hb]; [apply Hsub; by left|apply H, Hsub; by left|].
    destruct IH as [IH1 IH2]; [intros; apply Hsub; by right|].
    simpl. rewrite Hr, IH1. split; [done|]. unfold encode; simpl. fold (encode (map seg_rune l)).
    by rewrite IH2, Hb. }
  destruct (Hall (segs s)) as [H1 H2]; [done|]. split; [done|]. by rewrite H2, segs_bytes.
Qed.

Lemma encode_ValidString rs : forallb valid_rune rs = true -> ValidString (encode rs) = true.
Proof.
  intros H. unfold ValidString. rewrite <- (app_nil_r (encode rs)), segs_encode by done.
  rewrite app_nil_r, forallb_forall. intros g (r & <- & Hr)%in_map_iff.
  rewrite forallb_forall in H. pose proof (H r Hr). unfold seg_valid. simpl.
  destruct (r =? RuneError) eqn:E; [|done]. apply Z.eqb_eq in E. subst. done.
Qed.

Lemma segs_ascii s : forallb is_ascii s = true -> segs s = map (fun c => Seg (byte_val c) [c]) s.
Proof.
  induction s as [|c s IH]; [done|]. simpl. rewrite andb_true_iff. intros [Hc Hs].
  rewrite (segs_cons _ (byte_val c) 1); [simpl; by rewrite drop_0, IH|done|].
  unfold decode_rune, is_ascii in *. by rewrite Hc.
Qed.

Lemma ascii_valid s : forallb is_ascii s = true -> ValidString s = true.
Proof.
  intros H. unfold ValidString. rewrite segs_ascii by done. rewrite forallb_forall in *.
  intros g (c & <- & Hc)%in_map_iff. specialize (H c Hc). unfold is_ascii in H.
  unfold seg_valid, RuneError. simpl. by replace (byte_val c =? 65533) with false by lia.
Qed.

(** [strings.Map]: a negative result drops the rune; if nothing changes the
    string is returned as it is, invalid bytes included. *)
Definition strings_map (f : Z -> Z) (s : str) : str :=
  if forallb (fun g => (f (seg_rune g) =? seg_rune g) && seg_valid g) (segs s) then s
  else flat_map (fun g => let r := f (seg_rune g) in if r <? 0 then [] else encode_rune r) (segs s).

(** * Unicode *)

Inductive category :=
| Lu | Ll | Lt | Lm | Lo | Mn | Mc | Me | Nd | Nl | No
| Pc | Pd | Ps | Pe | Pi | Pf | Po | Sm | Sc | Sk | So
| Zs | Zl | Zp | Cc | Cf | Cs | Co | Cn.

(** General category and lower-case mapping of the runes above ASCII. *)
Class Unicode := {
  uni_category : Z -> category;
  uni_lower : Z -> Z
}.

Definition ascii_category (r : Z) : category :=
  if (r <? 32) || (r =? 127) then Cc
  else if r =? 32 then Zs
  else if (48 <=? r) && (r <=? 57) then Nd
  else if (65 <=? r) && (r <=? 90) then Lu
  else if (97 <=? r) && (r <=? 122) then Ll
  else if r =? 36 then Sc
  else if (r =? 43) || (r =? 60) || (r =? 61) || (r =? 62) || (r =? 124) || (r =? 126) then Sm
  else if (r =? 94) || (r =? 96) then Sk
  else if r =? 95 then Pc
  else if r =? 45 then Pd
  else if (r =? 40) || (r =? 91) || (r =? 123) then Ps
  else if (r =? 41) || (r =? 93) || (r =? 125) then Pe
  else Po.

Section unicode.
Context `{!Unicode}.

(** The line and paragraph separators, the replacement character, the C1
    controls and the surrogates are fixed by the standard. *)
Definition category_of (r : Z) : category :=
  if r <? 128 then ascii_category r
  else if r <? 160 then Cc
  else if r =? 8232 then Zl
  else if r =? 8233 then Zp
  else if r =? RuneError then So
  else if (55296 <=? r) && (r <=? 57343) then Cs
  else match uni_category r with Zl | Zp => Cn | c => c end.

Definition IsCf r := match category_of r with Cf => true | _ => false end.
Definition IsMn r := match category_of r with Mn => true | _ => false end.
Definition IsMe r := match category_of r with Me => true | _ => false end.
Definition IsMc r := match category_of r with Mc => true | _ => false end.
Definition IsZl r := match category_of r with Zl => true | _ => false end.
Definition IsZp r := match category_of r with Zp => true | _ => false end.
Definition IsDigit r := match category_of r with Nd => true | _ => false end.
Definition IsLetter r :=
  match category_of r with Lu | Ll | Lt | Lm | Lo => true | _ => false end.

(** [unicode.IsGraphic]: L, M, N, P, S and Zs. *)
Definition IsGraphic r :=
  match category_of r with
  | Zl | Zp | Cc | Cf | Cs | Co | Cn => false
  | _ => true
  end.

Definition lower_rune (r : Z) : Z :=
  if r <? 128 then (if (65 <=? r) && (r <=? 90) then r + 32 else r) else uni_lower r.

(** [strings.ToLower]. *)
Definition ToLower (s : str) : str :=
  if forallb is_ascii s then map lower_ascii s else strings_map lower_rune s.
End unicode.

(** [unicode.IsSpace]: the fixed White_Space set. *)
Definition IsSpace (r : Z) : bool :=
  ((9 <=? r) && (r <=? 13)) || (r =? 32) || (r =? 133) || (r =? 160) || (r =? 5760)
  || ((8192 <=? r) && (r <=? 8202)) || (r =? 8232) || (r =? 8233) || (r =? 8239)
  || (r =? 8287) || (r =? 12288).

Fixpoint drop_spaces (gs : list seg) : list seg :=
  match gs with
  | [] => []
  | g :: gs' => if IsSpace (seg_rune g) then drop_spaces gs' else gs
  end.

(** [strings.TrimSpace]. *)
Definition TrimSpace (s : str) : str :=
  flat_map seg_bytes (reverse (drop_spaces (reverse (drop_spaces (segs s))))).

Lemma TrimSpace_id s : forallb (fun r => negb (IsSpace r)) (runes s) = true -> TrimSpace s = s.
Proof.
  intros H. unfold TrimSpace, runes in *.
  assert (forall l, forallb (fun g => negb (IsSpace (seg_rune g))) l = true -> drop_spaces l = l) as Hd.
  { intros [|g l]; [done|]. simpl. rewrite andb_true_iff, negb_true_iff. by intros [-> _]. }
  assert (forallb (fun g => negb (IsSpace (seg_rune g))) (segs s) = true) as H'.
  { rewrite forallb_forall in *. intros g Hg. by apply H, in_map. }
  rewrite (Hd _ H'), Hd, reverse_involutive; [apply segs_bytes|].
  rewrite forallb_forall in *. intros g Hg. apply H'. apply list_elem_of_In, elem_of_reverse. by apply list_elem_of_In.
Qed.

(** Hex digits are lower case and carry no space. *)
Definition lower_hex (s : str) : bool :=
  forallb (fun c => is_digit c || ((97 <=? byte_val c) && (byte_val c <=? 102))) s.

Lemma hex_encode_lower s : lower_hex (hex_encode s) = true.
Proof.
  assert (forall n, 0 <= n < 16 ->
    is_digit (hex_digit n) || ((97 <=? byte_val (hex_digit n)) && (byte_val (hex_digit n) <=? 102)) = true) as Hd.
  { intros n Hn. assert (In n (map Z.of_nat (seq 0 16))) as Hin.
    { apply in_map_iff. exists (Z.to_nat n). split; [lia|]. apply in_seq. lia. }
    assert (forallb (fun n => is_digit (hex_digit n) ||
       ((97 <=? byte_val (hex_digit n)) && (byte_val (hex_digit n) <=? 102))) (map Z.of_nat (seq 0 16)) = true) as H by done.
    rewrite forallb_forall in H. by apply H. }
  unfold lower_hex. induction s as [|c s IH]; [done|]. unfold hex_encode in *. cbn [flat_map app forallb].
  pose proof (byte_val_range c).
  rewrite !Hd; [done|..]; Z.to_euclidean_division_equations; lia.
Qed.

Lemma lower_hex_canon {U : Unicode} s : lower_hex s = true -> ToLower (TrimSpace s) = s.
Proof.
  intros H. unfold lower_hex, is_digit in H. rewrite forallb_forall in H.
  assert (forallb is_ascii s = true) as Ha.
  { apply forallb_forall. intros c Hc. specialize (H c Hc). unfold is_ascii. lia. }
  rewrite TrimSpace_id.
  - unfold ToLower. rewrite Ha. clear Ha. induction s as [|c s IH]; [done|]. simpl.
    rewrite IH by (intros; apply H; by right). f_equal. specialize (H c ltac:(by left)).
    unfold lower_ascii. by replace ((65 <=? byte_val c) && (byte_val c <=? 90)) with false by lia.
  - unfold runes. rewrite segs_ascii by done. rewrite map_map. apply forallb_forall.
    intros r (c & <- & Hc)%in_map_iff. simpl. specialize (H c Hc). unfold IsSpace. lia.
Qed.

(** A sample table for concrete examples: Latin, combining marks, format
    controls and ideographs; everything else a symbol. *)
Definition sample_unicode : Unicode := {|
  uni_category r :=
    if ((192 <=? r) && (r <=? 591)) || ((19968 <=? r) && (r <=? 40959)) then Lo
    else if (768 <=? r) && (r <=? 879) then Mn
    else if ((8203 <=? r) && (r <=? 8207)) || (r =? 173) then Cf
    else So;
  uni_lower r := if (192 <=? r) && (r <=? 222) then r + 32 else r
|}.

Example runes_ex : runes (lit "é◆x") = [233; 9670; 120].
Proof. vm_compute. reflexivity. Qed.

Example trim_ex : TrimSpace (lit "  a b ") = lit "a b".
Proof. vm_compute. reflexivity. Qed.

Example invalid_ex : ValidString [byte_of 195; "a"%char] = false.
Proof. vm_compute. reflexivity. Qed.
