(* ===== verification/Wire.v ===== *)
(** [lib/wire]: the protocol schema ([wire.go]) and the notice-tag taxonomy
    ([tags.go]) shared by the server that publishes a line and the client that
    filters it. *)

From S2P Require Import Prelude Bytes.
Local Open Scope Z_scope.

(** * Schema *)

Record Permission := mkPermission {
  CanMessageUnlimited : bool;
  CustomPrefix : str
}.

Record TripMeta := mkTripMeta {
  tm_Pub : str;
  tm_Seq : Z;            (* uint32 *)
  tm_Prev : str;
  tm_Sig : str;
  tm_ServerPub : str;
  tm_MsgHash : str;
  tm_DisplayName : str;
  tm_Exposed : bool;
  tm_TmpID : Z;          (* uint64 *)
  tm_ReplyTo : Z         (* uint64 *)
}.

Record WireMessage := mkWire {
  wm_Type : str;
  wm_Time : str;
  wm_DisplayName : str;
  wm_Tags : list str;
  wm_SysPowTier : Z;
  wm_SysDate : str;
  wm_VoteTarget : Z;     (* uint64 *)
  wm_VoteUpvotes : Z;
  wm_VoteDownvotes : Z;
  wm_ExposedPub : str;
  wm_ExposedSig : str;
  wm_ExposedSeed : str;
  wm_Text : str;
  wm_Trip : option TripMeta;
  wm_TmpID : Z;          (* uint64 *)
  wm_ReplyTo : Z;        (* uint64 *)
  wm_ChainPrev : str;
  wm_ChainHash : str;
  wm_ChainHeight : Z;    (* uint64 *)
  wm_ChainVer : Z;
  wm_Seq : Z;            (* uint64 *)
  wm_SentAt : str
}.

#[export] Instance TripMeta_eq_dec : EqDecision TripMeta.
Proof. solve_decision. Defined.
#[export] Instance WireMessage_eq_dec : EqDecision WireMessage.
Proof. solve_decision. Defined.

(** The zero values Go starts from. *)
Definition zeroTrip : TripMeta := mkTripMeta [] 0 [] [] [] [] [] false 0 0.
Definition zeroWire : WireMessage :=
  mkWire [] [] [] [] 0 [] 0 0 0 [] [] [] [] None 0 0 [] [] 0 0 0 [].

Record HistorySync := mkHistorySync {
  hs_MinHeight : Z; hs_MaxHeight : Z;
  hs_Sent : Z; hs_Total : Z; hs_Dropped : Z;
  hs_Direction : str;
  hs_FirstSeq : Z; hs_LastSeq : Z; hs_NextSeq : Z;
  hs_More : bool
}.

Record HistoryInfo := mkHistoryInfo {
  hi_MinSeq : Z; hi_MaxSeq : Z; hi_MinHeight : Z; hi_MaxHeight : Z; hi_Count : Z
}.

Record HeightRange := mkRange { hr_From : Z; hr_To : Z }.

Record AuthPacket := mkAuthPacket {
  ap_Nonce : str; ap_Role : str; ap_Signature : str; ap_Hmac : str;
  ap_Username : str; ap_Tripcode : str; ap_TripPub : str;
  ap_PasskeyID : str; ap_PasskeyAuthData : str; ap_PasskeyClientData : str; ap_PasskeySig : str;
  ap_IdentityPub : str; ap_AuthType : str;
  ap_HistoryJoins : bool; ap_Platform : str; ap_PairTicket : str
}.

Definition DirDownvote : Z := -1.
Definition DirWithdraw : Z := 0.
Definition DirUpvote : Z := 1.

(** The fields assigned by the server when it links a message. *)
Definition set_link (w : WireMessage) (prev hash : str) (height ver : Z) : WireMessage :=
  match w with
  | mkWire a b c d e f g h i j k l m n o p _ _ _ _ u v =>
      mkWire a b c d e f g h i j k l m n o p prev hash height ver u v
  end.

Definition set_Seq (w : WireMessage) (seq : Z) : WireMessage :=
  match w with
  | mkWire a b c d e f g h i j k l m n o p q r s t _ v =>
      mkWire a b c d e f g h i j k l m n o p q r s t seq v
  end.

Definition set_Trip (w : WireMessage) (t : option TripMeta) : WireMessage :=
  match w with
  | mkWire a b c d e f g h i j k l m _ o p q r s t' u v =>
      mkWire a b c d e f g h i j k l m t o p q r s t' u v
  end.

Definition set_Exposed (t : TripMeta) (b : bool) : TripMeta :=
  match t with mkTripMeta a c d e f g h _ i j => mkTripMeta a c d e f g h b i j end.

(** Reduce the fields of a wire literal, and nothing else. *)
Ltac wire_cbn :=
  cbn [set_link set_Seq set_Trip
       wm_Type wm_Time wm_DisplayName wm_Tags wm_SysPowTier wm_SysDate wm_VoteTarget wm_VoteUpvotes
       wm_VoteDownvotes wm_ExposedPub wm_ExposedSig wm_ExposedSeed wm_Text wm_Trip wm_TmpID wm_ReplyTo
       wm_ChainPrev wm_ChainHash wm_ChainHeight wm_ChainVer wm_Seq wm_SentAt] in *.

(** * Notice tags *)

Definition TagRoot := lit "system".
Definition TagJoin := lit "system.join".
Definition TagLeave := lit "system.leave".
Definition TagDate := lit "system.date".
Definition TagHistory := lit "system.history".
Definition TagHistoryBegin := lit "system.history.begin".
Definition TagHistoryOlder := lit "system.history.older".
Definition TagHistoryRecover := lit "system.history.recover".
Definition TagHistoryEnd := lit "system.history.end".
Definition TagHistoryExhausted := lit "system.history.exhausted".
Definition TagPow := lit "system.pow".
Definition TagPowGate := lit "system.pow.gate".
Definition TagPowScreen := lit "system.pow.screening".
Definition TagAudit := lit "system.audit".
Definition TagLimit := lit "system.limit".
Definition TagEnvelope := lit "system.envelope".
Definition TagTrip := lit "system.trip".
Definition TagTripReveal := lit "system.trip.reveal".
Definition TagFilter := lit "system.filter".
Definition TagAuth := lit "system.auth".
Definition TagVote := lit "system.vote".

Definition tagTree : list str :=
  [TagRoot; TagJoin; TagLeave; TagDate; TagHistory; TagHistoryBegin; TagHistoryOlder;
   TagHistoryRecover; TagHistoryEnd; TagHistoryExhausted; TagPow; TagPowGate; TagPowScreen;
   TagAudit; TagLimit; TagEnvelope; TagTrip; TagTripReveal; TagFilter; TagAuth; TagVote].

Definition AllTags : list str := tagTree.

Fixpoint HasTag (tags : list str) (tag : str) : bool :=
  match tags with
  | [] => false
  | t :: tags' => if str_eqb t tag then true else HasTag tags' tag
  end.

Fixpoint HasAnyTag (tags wanted : list str) : bool :=
  match wanted with
  | [] => false
  | w :: wanted' => if HasTag tags w then true else HasAnyTag tags wanted'
  end.

Definition dot : ascii := "."%char.

(** The tag up to its last dot; a dot at position 0 does not count. *)
Definition syntacticParent (tag : str) : str :=
  match cut_last_byte dot tag with
  | Some (a, _) => match a with [] => [] | _ => a end
  | None => []
  end.

(** The loop of [knownAncestor]: every step drops at least one byte. *)
Fixpoint knownAncestor_loop (fuel : nat) (at_ : str) : str :=
  match fuel with
  | O => []
  | S fuel' =>
      match at_ with
      | [] => []
      | _ => if HasTag tagTree at_ then at_ else knownAncestor_loop fuel' (syntacticParent at_)
      end
  end.

Definition knownAncestor (tag : str) : str :=
  knownAncestor_loop (S (length tag)) (syntacticParent tag).

(** [chain = append([]string{at}, chain...)] while [at != ""]. *)
Fixpoint knownChain_loop (fuel : nat) (at_ : str) (chain : list str) : list str :=
  match fuel with
  | O => chain
  | S fuel' =>
      match at_ with
      | [] => chain
      | _ => knownChain_loop fuel' (knownAncestor at_) (at_ :: chain)
      end
  end.

Definition knownChain (tag : str) : list str := knownChain_loop (S (length tag)) tag [].

(** The state of [BlockedBy]'s closure: [seen] and [blocked]. *)
Definition block_visit (muted : gmap str bool) (st : gset str * list str) (at_ : str)
  : gset str * list str :=
  let '(seen, blocked) := st in
  if decide (at_ ∈ seen) then (seen, blocked)
  else ({[at_]} ∪ seen,
        if default false (muted !! at_) then blocked ++ [at_] else blocked).

Definition block_walk (muted : gmap str bool) (st : gset str * list str) (tag : str)
  : gset str * list str :=
  fold_left (block_visit muted) (knownChain tag) st.

Definition BlockedBy (tags : list str) (muted : gmap str bool) : list str :=
  if decide (muted = ∅ \/ tags = []) then []
  else (fold_left (block_walk muted) tags (block_walk muted (∅, []) TagRoot)).2.

Definition tag_add (st : gset str * list str) (tag : str) : gset str * list str :=
  let '(seen, out) := st in
  if decide (tag ∈ seen) then (seen, out) else ({[tag]} ∪ seen, out ++ [tag]).

Definition WithTags (leaves : list str) : list str :=
  (fold_left (fun st leaf => fold_left tag_add (knownChain leaf) st) leaves
             (tag_add (∅, []) TagRoot)).2.

(** * Facts *)

Lemma HasTag_spec tags tag : HasTag tags tag = true <-> tag ∈ tags.
Proof.
  induction tags as [|t tags IH]; simpl; [split; [done|by intros ?%elem_of_nil]|].
  unfold str_eqb. case_bool_decide as E; [subst; split; [constructor|done]|].
  rewrite IH, elem_of_cons. naive_solver.
Qed.

Lemma HasAnyTag_spec tags wanted :
  HasAnyTag tags wanted = true <-> exists w, w ∈ wanted /\ w ∈ tags.
Proof.
  induction wanted as [|w wanted IH]; simpl; [split; [done|set_solver]|].
  destruct (HasTag tags w) eqn:E.
  - apply HasTag_spec in E. split; [intros _; exists w; set_solver|done].
  - rewrite IH. assert (w ∉ tags) by (rewrite <- HasTag_spec; congruence). set_solver.
Qed.

Lemma syntacticParent_shorter tag : tag <> [] -> (length (syntacticParent tag) < length tag)%nat.
Proof.
  intros H. unfold syntacticParent. destruct (cut_last_byte dot tag) as [[a b]|] eqn:E.
  - apply cut_last_byte_Some in E as [-> _].
    rewrite length_app. destruct a; simpl; lia.
  - destruct tag; simpl; [done|lia].
Qed.

Lemma syntacticParent_le tag : (length (syntacticParent tag) <= length tag)%nat.
Proof. destruct tag as [|c t]; [done|]. pose proof (syntacticParent_shorter (c :: t) ltac:(done)). lia. Qed.

Lemma knownAncestor_loop_length fuel t : (length (knownAncestor_loop fuel t) <= length t)%nat.
Proof.
  revert t. induction fuel as [|fuel IH]; intros t; simpl; [lia|].
  destruct t as [|c t]; [done|]. case_match; [done|].
  etrans; [apply IH|]. apply syntacticParent_le.
Qed.

Lemma knownAncestor_shorter tag : tag <> [] -> (length (knownAncestor tag) < length tag)%nat.
Proof.
  intros H. unfold knownAncestor. eapply Nat.le_lt_trans; [apply knownAncestor_loop_length|].
  by apply syntacticParent_shorter.
Qed.

Lemma knownChain_loop_acc f t acc : knownChain_loop f t acc = knownChain_loop f t [] ++ acc.
Proof.
  revert t acc. induction f as [|f IH]; intros t acc; simpl; [done|].
  destruct t as [|c t]; [done|]. rewrite IH, (IH _ [c :: t]), <- app_assoc. done.
Qed.

Lemma knownChain_loop_fuel f1 f2 t :
  (length t < f1)%nat -> (length t < f2)%nat ->
  knownChain_loop f1 t [] = knownChain_loop f2 t [].
Proof.
  revert f2 t. induction f1 as [|f1 IH]; intros f2 t H1 H2; [lia|].
  destruct f2 as [|f2]; [lia|]. simpl. destruct t as [|c t]; [done|].
  pose proof (knownAncestor_shorter (c :: t) ltac:(done)).
  rewrite knownChain_loop_acc, (knownChain_loop_acc f2), (IH f2) by lia. done.
Qed.

(** The loop equation of [knownChain]. *)
Lemma knownChain_eq tag :
  knownChain tag = if decide (tag = []) then [] else knownChain (knownAncestor tag) ++ [tag].
Proof.
  unfold knownChain at 1. cbn [knownChain_loop]. destruct tag as [|c t]; [done|].
  rewrite decide_False by done. rewrite knownChain_loop_acc. f_equal.
  apply knownChain_loop_fuel; [|lia]. by apply knownAncestor_shorter.
Qed.

(** The ancestors of a dotted path, independently of the walk: the non-empty
    prefixes that end just before a dot. *)
Definition dotted_ancestor (a t : str) : Prop := a <> [] /\ exists rest, t = a ++ dot :: rest.

Lemma dotted_ancestor_parent a t :
  dotted_ancestor a t <->
  syntacticParent t <> [] /\ (a = syntacticParent t \/ dotted_ancestor a (syntacticParent t)).
Proof.
  unfold syntacticParent. destruct (cut_last_byte dot t) as [[p b]|] eqn:E.
  - apply cut_last_byte_Some in E as [-> Hb].
    assert (match p with [] => [] | _ => p end = p) as -> by (destruct p; reflexivity).
    split.
    + intros [Ha [rest Hrest]].
      apply app_eq_app in Hrest as [k [[Hp Hk]|[Hp Hk]]].
      * subst p. destruct k as [|d k]; simpl in Hk.
        { rewrite app_nil_r. split; [done|by left]. }
        injection Hk as <- Hk. split; [by destruct a|]. right. split; [done|]. by exists k.
      * subst a. destruct k as [|d k]; simpl in Hk.
        { rewrite app_nil_r in Ha |- *. split; [done|by left]. }
        injection Hk as Hd Hk. subst b. set_solver.
    + intros [Hp [->|[Ha [rest ->]]]].
      * split; [done|]. by exists b.
      * split; [done|]. exists (rest ++ dot :: b). by rewrite <- app_assoc.
  - apply cut_last_byte_None in E. split; [|by intros [? _]].
    intros [_ [rest ->]]. set_solver.
Qed.

Lemma dotted_ancestor_nil a : ~ dotted_ancestor a [].
Proof. intros [_ [rest H]]. by destruct a. Qed.

Lemma dotted_ancestor_shorter a t : dotted_ancestor a t -> (length a < length t)%nat.
Proof. intros [_ [rest ->]]. rewrite length_app. simpl. lia. Qed.

Lemma tagTree_nonempty x : x ∈ tagTree -> x <> [].
Proof. intros H ->. apply HasTag_spec in H. by vm_compute in H. Qed.

(** [knownAncestor] is the longest known ancestor. *)
Lemma knownAncestor_loop_spec fuel t :
  (length t < fuel)%nat ->
  let k := knownAncestor_loop fuel t in
  (k = [] \/ (k ∈ tagTree /\ (k = t \/ dotted_ancestor k t))) /\
  (forall a, a <> [] -> a ∈ tagTree -> a = t \/ dotted_ancestor a t ->
             k <> [] /\ (a = k \/ dotted_ancestor a k)).
Proof.
  revert t. induction fuel as [|fuel IH]; intros t Hf; [lia|]. cbn [knownAncestor_loop].
  destruct t as [|c t].
  { split; [by left|]. intros a Ha _ [->|H]; [done|]. by apply dotted_ancestor_nil in H. }
  destruct (HasTag tagTree (c :: t)) eqn:E.
  { cbv zeta. apply HasTag_spec in E. split.
    - right. split; [done|by left].
    - intros a _ _ H. by split. }
  pose proof (syntacticParent_shorter (c :: t) ltac:(done)) as Hlt.
  destruct (IH (syntacticParent (c :: t))) as [H1 H2]; [simpl in *; lia|].
  split.
  - destruct H1 as [->|[Hin Hk]]; [by left|]. right. split; [done|]. right.
    apply dotted_ancestor_parent. split; [|done].
    intros Hnil. apply tagTree_nonempty in Hin. destruct Hk as [Hk|Hk].
    + by rewrite Hk in Hin.
    + rewrite Hnil in Hk. by apply dotted_ancestor_nil in Hk.
  - intros a Ha Hin [->|Hanc].
    + apply HasTag_spec in Hin. congruence.
    + apply dotted_ancestor_parent in Hanc as [_ Hanc]. by apply H2.
Qed.

Lemma knownAncestor_spec t :
  (knownAncestor t = [] \/ (knownAncestor t ∈ tagTree /\ dotted_ancestor (knownAncestor t) t)) /\
  (forall a, a ∈ tagTree -> dotted_ancestor a t ->
             a = knownAncestor t \/ dotted_ancestor a (knownAncestor t)).
Proof.
  unfold knownAncestor. pose proof (syntacticParent_le t).
  destruct (knownAncestor_loop_spec (S (length t)) (syntacticParent t)) as [H1 H2]; [lia|].
  split.
  - destruct H1 as [->|[Hin Hk]]; [by left|]. right. split; [done|].
    apply dotted_ancestor_parent. split; [|done].
    intros Hnil. apply tagTree_nonempty in Hin. destruct Hk as [Hk|Hk].
    + by rewrite Hk in Hin.
    + rewrite Hnil in Hk. by apply dotted_ancestor_nil in Hk.
  - intros a Hin Hanc. destruct (Hanc) as [Ha _].
    apply dotted_ancestor_parent in Hanc as [_ Hanc]. by apply H2.
Qed.

(** Membership in a chain, without the walk. *)
Lemma elem_of_knownChain t x :
  x ∈ knownChain t <-> t <> [] /\ (x = t \/ (x ∈ tagTree /\ dotted_ancestor x t)).
Proof.
  revert x. induction t as [t IH] using (induction_ltof1 _ (@length ascii)). intros x.
  rewrite knownChain_eq. case_decide as Ht.
  { split; [by intros ?%elem_of_nil|by intros [? _]]. }
  rewrite elem_of_app, list_elem_of_singleton.
  rewrite IH by (apply knownAncestor_shorter; done).
  destruct (knownAncestor_spec t) as [H1 H2]. split.
  - intros [[Hk [->|[Hin Hx]]]| ->]; (split; [done|]); [..|by left].
    + destruct H1 as [|[? ?]]; [done|]. by right.
    + right. split; [done|]. destruct H1 as [|[_ [Hk' [r1 Hr1]]]]; [done|].
      destruct Hx as [Hx0 [r2 Hr2]]. split; [done|].
      exists (r2 ++ dot :: r1). rewrite Hr1, Hr2 at 1. by rewrite <- app_assoc.
  - intros [_ [->|[Hin Hx]]]; [by right|]. left. destruct (H2 x Hin Hx) as [->|Hx'].
    + split; [|by left]. by destruct Hx.
    + split; [|by right]. intros Hn. rewrite Hn in Hx'. by apply dotted_ancestor_nil in Hx'.
Qed.

(** Adding a list of tags once each: what a [seen] map and an output slice hold
    after the loop. *)
Lemma tag_add_inv l seen out :
  (forall x, x ∈ seen <-> x ∈ out) -> NoDup out ->
  let st := fold_left tag_add l (seen, out) in
  NoDup st.2 /\ (forall x, x ∈ st.1 <-> x ∈ st.2) /\ (forall x, x ∈ st.2 <-> x ∈ out \/ x ∈ l).
Proof.
  revert seen out. induction l as [|t l IH]; intros seen out Hs Hn; cbn [fold_left].
  { simpl. split; [done|]. split; [done|]. set_solver. }
  destruct (decide (t ∈ seen)) as [Ht|Ht].
  - replace (tag_add (seen, out) t) with (seen, out) by (simpl; by rewrite decide_True).
    destruct (IH seen out Hs Hn) as (H1 & H2 & H3). split; [done|]. split; [done|].
    intros x. rewrite H3, elem_of_cons. apply Hs in Ht. naive_solver.
  - replace (tag_add (seen, out) t) with ({[t]} ∪ seen, out ++ [t]) by (simpl; by rewrite decide_False).
    destruct (IH ({[t]} ∪ seen) (out ++ [t])) as (H1 & H2 & H3).
    + intros x. rewrite elem_of_union, elem_of_singleton, elem_of_app, list_elem_of_singleton, Hs.
      naive_solver.
    + apply NoDup_app. split; [done|]. split; [|apply NoDup_singleton].
      intros x Hx ->%list_elem_of_singleton. by apply Ht, Hs.
    + split; [done|]. split; [done|]. intros x. rewrite H3. set_solver.
Qed.

Lemma block_visit_inv muted l seen blocked :
  (forall x, x ∈ blocked <-> x ∈ seen /\ muted !! x = Some true) -> NoDup blocked ->
  let st := fold_left (block_visit muted) l (seen, blocked) in
  NoDup st.2 /\ (forall x, x ∈ st.1 <-> x ∈ seen \/ x ∈ l) /\
  (forall x, x ∈ st.2 <-> x ∈ st.1 /\ muted !! x = Some true).
Proof.
  revert seen blocked. induction l as [|t l IH]; intros seen blocked Hb Hn; cbn [fold_left].
  { simpl. split; [done|]. split; [set_solver|done]. }
  destruct (decide (t ∈ seen)) as [Ht|Ht].
  - replace (block_visit muted (seen, blocked) t) with (seen, blocked) by (simpl; by rewrite decide_True).
    destruct (IH seen blocked Hb Hn) as (H1 & H2 & H3). split; [done|]. split; [|done].
    intros x. rewrite H2. set_solver.
  - replace (block_visit muted (seen, blocked) t) with
      ({[t]} ∪ seen, if default false (muted !! t) then blocked ++ [t] else blocked)
      by (simpl; by rewrite decide_False).
    destruct (IH ({[t]} ∪ seen)
      (if default false (muted !! t) then blocked ++ [t] else blocked)) as (H1 & H2 & H3).
    + intros x. rewrite elem_of_union, elem_of_singleton.
      destruct (muted !! t) as [[]|] eqn:E; simpl;
        rewrite ?elem_of_app, ?list_elem_of_singleton, Hb; split.
      * intros [[? ?]| ->]; [by split; [right|]|by split; [left|]].
      * intros [[->|?] ?]; [by right|by left].
      * intros [? ?]; by split; [right|].
      * intros [[->|?] ?]; [congruence|done].
      * intros [? ?]; by split; [right|].
      * intros [[->|?] ?]; [congruence|done].
    + destruct (muted !! t) as [[]|]; simpl; [|done..].
      apply NoDup_app. split; [done|]. split; [|apply NoDup_singleton].
      intros x Hx ->%list_elem_of_singleton. apply Hb in Hx. by destruct Hx.
    + split; [done|]. split; [|done]. intros x. rewrite H2. set_solver.
Qed.

Lemma fold_left_concat {A B} (f : A -> B -> A) (g : list (list B)) (a : A) :
  fold_left (fun st l => fold_left f l st) g a = fold_left f (concat g) a.
Proof.
  revert a. induction g as [|l g IH]; intros a; simpl; [done|]. by rewrite IH, fold_left_app.
Qed.

Lemma elem_of_chains x tags : x ∈ concat (map knownChain tags) <-> exists t, t ∈ tags /\ x ∈ knownChain t.
Proof.
  induction tags as [|t tags IH]; simpl; [set_solver|].
  rewrite elem_of_app, IH. set_solver.
Qed.

(** The nodes a line is filtered by: its tags, the root, and their known
    ancestors. *)
Definition tag_node (tags : list str) (x : str) : Prop :=
  exists t, (t = TagRoot \/ t ∈ tags) /\ t <> [] /\ (x = t \/ (x ∈ tagTree /\ dotted_ancestor x t)).

(** [BlockedBy] reports each muted node of the line exactly once: the
    tags themselves, the root, and every known ancestor at any depth, whether
    or not the levels in between are part of the taxonomy. *)
Theorem BlockedBy_spec tags muted :
  NoDup (BlockedBy tags muted) /\
  (forall x, x ∈ BlockedBy tags muted <->
             tags <> [] /\ muted !! x = Some true /\ tag_node tags x).
Proof.
  unfold BlockedBy. case_decide as Hd.
  { split; [apply NoDup_nil_2|]. intros x. split; [by intros ?%elem_of_nil|].
    intros (Ht & Hm & _). destruct Hd as [->|]; [|done]. by rewrite lookup_empty in Hm. }
  assert (fold_left (block_walk muted) tags (block_walk muted (∅, []) TagRoot) =
          fold_left (block_visit muted) (concat (map knownChain (TagRoot :: tags))) (∅, [])) as ->.
  { rewrite <- fold_left_concat. cbn [map fold_left]. unfold block_walk at 2.
    generalize (fold_left (block_visit muted) (knownChain TagRoot) (∅, [])). clear.
    induction tags as [|t tags IH]; intros st; [done|]. cbn [map fold_left]. by rewrite IH. }
  destruct (block_visit_inv muted (concat (map knownChain (TagRoot :: tags))) ∅ []) as (H1 & H2 & H3);
    [set_solver|apply NoDup_nil_2|].
  split; [done|]. intros x. rewrite H3, H2, elem_of_chains. unfold tag_node.
  setoid_rewrite elem_of_knownChain. setoid_rewrite elem_of_cons.
  assert (tags <> []) as Ht by (intros ->; apply Hd; by right). split.
  - intros [[Hx|Hx] Hm]; [set_solver|]. done.
  - intros (_ & Hm & Hx). split; [by right|done].
Qed.

Lemma elem_of_WithTags leaves x :
  x ∈ WithTags leaves <->
  x = TagRoot \/ exists t, t ∈ leaves /\ t <> [] /\ (x = t \/ (x ∈ tagTree /\ dotted_ancestor x t)).
Proof.
  unfold WithTags.
  assert (fold_left (fun st leaf => fold_left tag_add (knownChain leaf) st) leaves (tag_add (∅, []) TagRoot)
    = fold_left tag_add (TagRoot :: concat (map knownChain leaves)) (∅, [])) as ->.
  { cbn [fold_left]. rewrite <- fold_left_concat. generalize (tag_add (∅, []) TagRoot). clear.
    induction leaves as [|t l IH]; intros st; [done|]. cbn [map fold_left]. by rewrite IH. }
  destruct (tag_add_inv (TagRoot :: concat (map knownChain leaves)) ∅ []) as (_ & _ & H3);
    [set_solver|apply NoDup_nil_2|].
  rewrite H3, elem_of_cons, elem_of_chains. setoid_rewrite elem_of_knownChain.
  split; [intros [Hx|[Hx|Hx]]; [by apply elem_of_nil in Hx|by left|by right]
         |intros [Hx|Hx]; right; [by left|by right]].
Qed.

(** Muting a node mutes its subtree and nothing else: a line published with
    [WithTags] is shown exactly when neither the root, nor one of its leaves,
    nor a known ancestor of a leaf is muted, so no producer can escape a mute
    on a parent. *)
Theorem published_line_hidden_iff leaves muted :
  BlockedBy (WithTags leaves) muted = [] <->
  (forall x, tag_node leaves x -> muted !! x <> Some true).
Proof.
  destruct (BlockedBy_spec (WithTags leaves) muted) as [_ Hspec].
  assert (WithTags leaves <> []) as Hne.
  { intros E. assert (TagRoot ∈ WithTags leaves) as H by (apply elem_of_WithTags; by left).
    rewrite E in H. by apply elem_of_nil in H. }
  assert (forall x, tag_node (WithTags leaves) x <-> tag_node leaves x) as Hnode.
  { intros x. unfold tag_node. split.
    - intros (t & Ht & Ht0 & Hx). destruct Ht as [->|Ht]; [exists TagRoot; naive_solver|].
      apply elem_of_WithTags in Ht as [->|(u & Hu & Hu0 & [->|[Hin Hanc]])];
        [exists TagRoot; naive_solver|by exists u; naive_solver|].
      exists u. split; [by right|]. split; [done|]. destruct Hx as [->|[Hx1 [Hx2 [r1 Hr1]]]]; [by right|].
      right. split; [done|]. destruct Hanc as [_ [r2 Hr2]]. split; [done|].
      exists (r1 ++ dot :: r2). rewrite Hr2, Hr1, <- app_assoc. done.
    - intros (t & Ht & Ht0 & Hx). exists t. split; [|done]. destruct Ht as [->|Ht]; [by left|right].
      apply elem_of_WithTags. right. exists t. naive_solver. }
  split.
  - intros Hnil x Hx Hm. assert (x ∈ BlockedBy (WithTags leaves) muted) as Hin.
    { apply Hspec. split; [done|]. split; [done|]. by apply Hnode. }
    rewrite Hnil in Hin. by apply elem_of_nil in Hin.
  - intros H. destruct (BlockedBy (WithTags leaves) muted) as [|x l] eqn:E; [done|]. exfalso.
    destruct (proj1 (Hspec x)) as (_ & Hm & Hx); [by left|]. apply (H x); [by apply Hnode|done].
Qed.

Example WithTags_ex : WithTags [TagPowScreen] = [TagRoot; TagPow; TagPowScreen].
Proof. vm_compute. reflexivity. Qed.

Example BlockedBy_ex :
  BlockedBy [lit "system.pow.new.leaf"] {[ TagPow := true; TagTrip := true ]} = [TagPow].
Proof. vm_compute. reflexivity. Qed.
