(* ===== verification/Json.v ===== *)
(** [encoding/json] as the program uses it: the text form of values (with the
    escaping of [json.Marshal]), the reader [json.Unmarshal] is built on, and
    the encoders and decoders of the wire structs, field by field.  The main
    results are the round trips: what one side marshals the other side reads
    back unchanged. *)

From S2P Require Import Prelude Bytes Utf8 Wire.
Local Open Scope Z_scope.

(** * Values *)

#[warnings="-register-all"]
Inductive json :=
| JNull
| JBool (b : bool)
| JNum (lit : str)          (* the number as written *)
| JStr (s : str)
| JArr (l : list json)
| JObj (l : list (str * json)).

Definition quote_b : ascii := byte_of 34.
Definition bslash : ascii := "\"%char.

(** * Writing *)

Definition hex4 (r : Z) : str :=
  [hex_digit (r / 4096 mod 16); hex_digit (r / 256 mod 16); hex_digit (r / 16 mod 16); hex_digit (r mod 16)].

(** ASCII bytes [json.Marshal] writes as they are (the HTML-safe set). *)
Definition html_safe (v : Z) : bool :=
  (32 <=? v) && negb (v =? 34) && negb (v =? 92) && negb (v =? 60) && negb (v =? 62) && negb (v =? 38).

Definition escape_seg (g : seg) : str :=
  let r := seg_rune g in
  if negb (seg_valid g) then bslash :: lit "ufffd"
  else if r <? 128 then
    if html_safe r then seg_bytes g
    else if (r =? 34) || (r =? 92) then bslash :: seg_bytes g
    else if r =? 8 then bslash :: lit "b"
    else if r =? 12 then bslash :: lit "f"
    else if r =? 10 then bslash :: lit "n"
    else if r =? 13 then bslash :: lit "r"
    else if r =? 9 then bslash :: lit "t"
    else bslash :: "u"%char :: hex4 r
  else if (r =? 8232) || (r =? 8233) then bslash :: "u"%char :: hex4 r
  else seg_bytes g.

Definition print_str (s : str) : str := quote_b :: flat_map escape_seg (segs s) ++ [quote_b].

Definition comma : ascii := ","%char.
Definition colon : ascii := ":"%char.

Fixpoint join (l : list str) : str :=
  match l with
  | [] => []
  | [x] => x
  | x :: l' => x ++ comma :: join l'
  end.

Fixpoint print (j : json) : str :=
  match j with
  | JNull => lit "null"
  | JBool true => lit "true"
  | JBool false => lit "false"
  | JNum l => l
  | JStr s => print_str s
  | JArr l => "["%char :: join (map print l) ++ lit "]"
  | JObj l => "{"%char :: join (map (fun kv => print_str kv.1 ++ colon :: print kv.2) l) ++ lit "}"
  end.

(** * Reading *)

Definition is_ws (c : ascii) : bool :=
  let v := byte_val c in (v =? 32) || (v =? 9) || (v =? 10) || (v =? 13).

Fixpoint skip_ws (s : str) : str :=
  match s with
  | c :: s' => if is_ws c then skip_ws s' else s
  | [] => []
  end.

(** Four hex digits of a \u escape. *)
Definition hex4_val (a b c d : ascii) : option Z :=
  match hex_val a, hex_val b, hex_val c, hex_val d with
  | Some w, Some x, Some y, Some z => Some (4096 * w + 256 * x + 16 * y + z)
  | _, _, _, _ => None
  end.

Definition is_surrogate (r : Z) : bool := (55296 <=? r) && (r <? 57344).

(** The low half of a surrogate pair, when the escape for it follows. *)
Definition low_half (hi : Z) (s : str) : option (Z * str) :=
  match s with
  | bs :: u :: a :: b :: c :: d :: s' =>
      if byte_eqb bs bslash && byte_eqb u "u"%char then
        match hex4_val a b c d with
        | Some lo =>
            if (55296 <=? hi) && (hi <? 56320) && (56320 <=? lo) && (lo <? 57344)
            then Some (65536 + (hi - 55296) * 1024 + (lo - 56320), s') else None
        | None => None
        end
      else None
  | _ => None
  end.

(** One character of a string body: the bytes it stands for and the rest. *)
Definition read_char (s : str) : option (str * str) :=
  match s with
  | [] => None
  | c :: s1 =>
      if byte_eqb c bslash then
        match s1 with
        | [] => None
        | e :: s2 =>
            if byte_eqb e quote_b || byte_eqb e bslash || byte_eqb e "/"%char then Some ([e], s2)
            else if byte_eqb e "b"%char then Some ([byte_of 8], s2)
            else if byte_eqb e "f"%char then Some ([byte_of 12], s2)
            else if byte_eqb e "n"%char then Some ([byte_of 10], s2)
            else if byte_eqb e "r"%char then Some ([byte_of 13], s2)
            else if byte_eqb e "t"%char then Some ([byte_of 9], s2)
            else if byte_eqb e "u"%char then
              match s2 with
              | x :: y :: z :: w :: s3 =>
                  match hex4_val x y z w with
                  | Some r =>
                      if is_surrogate r then
                        match low_half r s3 with
                        | Some (full, s4) => Some (encode_rune full, s4)
                        | None => Some (encode_rune RuneError, s3)
                        end
                      else Some (encode_rune r, s3)
                  | None => None
                  end
              | _ => None
              end
            else None
        end
      else if byte_val c <? 32 then None
      else if byte_val c <? 128 then Some ([c], s1)
      else let '(r, n) := decode_rune s in Some (encode_rune r, drop n s)
  end.

(** The body of a string after its opening quote. *)
Fixpoint read_body (fuel : nat) (s : str) : option (str * str) :=
  match fuel with
  | O => None
  | S fuel' =>
      match s with
      | [] => None
      | c :: s' =>
          if byte_eqb c quote_b then Some ([], s')
          else match read_char s with
               | Some (x, s1) =>
                   match read_body fuel' s1 with
                   | Some (y, s2) => Some (x ++ y, s2)
                   | None => None
                   end
               | None => None
               end
      end
  end.

Definition num_char (c : ascii) : bool :=
  is_digit c || byte_eqb c "-"%char || byte_eqb c "+"%char || byte_eqb c "."%char
  || byte_eqb c "e"%char || byte_eqb c "E"%char.

(** The number grammar, piece by piece. *)
Definition int_part (s : str) : option str :=
  match s with
  | c :: s' =>
      if byte_eqb c "0"%char then Some s'
      else if is_digit c then Some (span is_digit s').2 else None
  | [] => None
  end.

Definition digits1 (s : str) : option str :=
  match span is_digit s with ([], _) => None | (_, s') => Some s' end.

Definition frac_part (s : str) : option str :=
  match s with
  | c :: s' => if byte_eqb c "."%char then digits1 s' else Some s
  | [] => Some []
  end.

Definition exp_part (s : str) : option str :=
  match s with
  | c :: s' =>
      if byte_eqb c "e"%char || byte_eqb c "E"%char then
        match s' with
        | d :: s'' => if byte_eqb d "+"%char || byte_eqb d "-"%char then digits1 s'' else digits1 s'
        | [] => None
        end
      else Some s
  | [] => Some []
  end.

Definition valid_number (s : str) : bool :=
  let s0 := match s with c :: s' => if byte_eqb c "-"%char then s' else s | [] => [] end in
  match int_part s0 with
  | None => false
  | Some s1 =>
      match frac_part s1 with
      | None => false
      | Some s2 => match exp_part s2 with Some [] => true | _ => false end
      end
  end.

(** [encoding/json] refuses input nested deeper than this. *)
Definition maxNestingDepth : Z := 10000.

Definition strip (p s : str) : option str := if has_prefix s p then Some (drop (length p) s) else None.

Section reader.
(** One nested value, members or elements; the fuel bounds the call depth. *)
Fixpoint read_value (fuel : nat) (depth : Z) (s : str) {struct fuel} : option (json * str) :=
  match fuel with
  | O => None
  | S f =>
      match skip_ws s with
      | [] => None
      | c :: s1 =>
          if byte_eqb c "{"%char then
            if maxNestingDepth <? depth + 1 then None
            else match skip_ws s1 with
                 | d :: s2 =>
                     if byte_eqb d "}"%char then Some (JObj [], s2)
                     else match read_members f (depth + 1) s1 with
                          | Some (l, s3) => Some (JObj l, s3)
                          | None => None
                          end
                 | [] => None
                 end
          else if byte_eqb c "["%char then
            if maxNestingDepth <? depth + 1 then None
            else match skip_ws s1 with
                 | d :: s2 =>
                     if byte_eqb d "]"%char then Some (JArr [], s2)
                     else match read_elems f (depth + 1) s1 with
                          | Some (l, s3) => Some (JArr l, s3)
                          | None => None
                          end
                 | [] => None
                 end
          else if byte_eqb c quote_b then
            match read_body (S (length s1)) s1 with
            | Some (x, s2) => Some (JStr x, s2)
            | None => None
            end
          else if byte_eqb c "t"%char then
            match strip (lit "rue") s1 with Some s2 => Some (JBool true, s2) | None => None end
          else if byte_eqb c "f"%char then
            match strip (lit "alse") s1 with Some s2 => Some (JBool false, s2) | None => None end
          else if byte_eqb c "n"%char then
            match strip (lit "ull") s1 with Some s2 => Some (JNull, s2) | None => None end
          else let '(l, s2) := span num_char (c :: s1) in
               if valid_number l then Some (JNum l, s2) else None
      end
  end
with read_members (fuel : nat) (depth : Z) (s : str) {struct fuel} : option (list (str * json) * str) :=
  match fuel with
  | O => None
  | S f =>
      match skip_ws s with
      | c :: s1 =>
          if byte_eqb c quote_b then
            match read_body (S (length s1)) s1 with
            | Some (k, s2) =>
                match skip_ws s2 with
                | d :: s3 =>
                    if byte_eqb d colon then
                      match read_value f depth s3 with
                      | Some (v, s4) =>
                          match skip_ws s4 with
                          | e :: s5 =>
                              if byte_eqb e comma then
                                match read_members f depth s5 with
                                | Some (l, s6) => Some ((k, v) :: l, s6)
                                | None => None
                                end
                              else if byte_eqb e "}"%char then Some ([(k, v)], s5)
                              else None
                          | [] => None
                          end
                      | None => None
                      end
                    else None
                | [] => None
                end
            | None => None
            end
          else None
      | [] => None
      end
  end
with read_elems (fuel : nat) (depth : Z) (s : str) {struct fuel} : option (list json * str) :=
  match fuel with
  | O => None
  | S f =>
      match read_value f depth s with
      | Some (v, s4) =>
          match skip_ws s4 with
          | e :: s5 =>
              if byte_eqb e comma then
                match read_elems f depth s5 with
                | Some (l, s6) => Some (v :: l, s6)
                | None => None
                end
              else if byte_eqb e "]"%char then Some ([v], s5)
              else None
          | [] => None
          end
      | None => None
      end
  end.
End reader.

(** A whole document: one value, then only white space. *)
Definition parse (s : str) : option json :=
  match read_value (S (length s)) 0 s with
  | Some (j, rest) => match skip_ws rest with [] => Some j | _ => None end
  | None => None
  end.

(** JSON text in the examples: a backquote stands for the double quote. *)
Definition jlit (s : string) : str :=
  map (fun c => if byte_eqb c "`"%char then quote_b else c) (lit s).
Arguments jlit _%_string.

Example parse_ex :
  parse (jlit " {`a` : [1, -2.5e3, `x\n\u00e9`], `b`:null} ") =
  Some (JObj [(lit "a", JArr [JNum (lit "1"); JNum (lit "-2.5e3"); JStr (lit "x" ++ byte_of 10 :: lit "é")]);
              (lit "b", JNull)]).
Proof. vm_compute. reflexivity. Qed.

Example parse_bad : parse (jlit "{`a`:01}") = None.
Proof. vm_compute. reflexivity. Qed.

Example surrogate_ex : parse (jlit "`\ud83d\ude00\ud83d`") = Some (JStr (lit "😀" ++ encode_rune RuneError)).
Proof. vm_compute. reflexivity. Qed.

(** * Reading back what was written *)

Lemma json_ind' (P : json -> Prop) :
  P JNull -> (forall b, P (JBool b)) -> (forall l, P (JNum l)) -> (forall s, P (JStr s)) ->
  (forall l, Forall P l -> P (JArr l)) ->
  (forall l, Forall (fun kv => P kv.2) l -> P (JObj l)) ->
  forall j, P j.
Proof.
  intros Hn Hb Hnum Hs Ha Ho. fix IH 1. intros [| | | |l|l]; [done|done|done|done| |].
  - apply Ha. induction l as [|j l IHl]; constructor; [apply IH|apply IHl].
  - apply Ho. induction l as [|[k j] l IHl]; constructor; [apply IH|apply IHl].
Qed.

Lemma escape_ascii (c : ascii) rest :
  byte_val c < 128 ->
  read_char (escape_seg (Seg (byte_val c) [c]) ++ rest) = Some ([c], rest) /\
  exists d t, escape_seg (Seg (byte_val c) [c]) = d :: t /\ byte_eqb d quote_b = false.
Proof.
  intros H. destruct c as [b0 b1 b2 b3 b4 b5 b6 b7].
  destruct b7; [exfalso; destruct b0, b1, b2, b3, b4, b5, b6; by vm_compute in H|]. clear H.
  destruct b0, b1, b2, b3, b4, b5, b6; (split; [reflexivity|]); eexists _, _; split; reflexivity.
Qed.

Lemma encode_rune_ascii r : 0 <= r < 128 -> encode_rune r = [byte_of r].
Proof.
  intros H. unfold encode_rune, valid_rune. repeat (case_match; try (exfalso; lia)); done.
Qed.

Lemma encode_rune_high r :
  valid_rune r = true -> 128 <= r ->
  exists c t, encode_rune r = c :: t /\ 128 <= byte_val c.
Proof.
  intros Hv Hr. unfold encode_rune. rewrite Hv. unfold valid_rune in Hv.
  repeat (case_match; try (exfalso; lia)); eexists _, _; (split; [reflexivity|]);
    rewrite byte_val_of by (Z.to_euclidean_division_equations; lia);
    Z.to_euclidean_division_equations; lia.
Qed.

Lemma seg_valid_rune r : valid_rune r = true -> seg_valid (Seg r (encode_rune r)) = true.
Proof.
  intros Hv. unfold seg_valid. simpl. destruct (r =? RuneError) eqn:E; [|done].
  apply Z.eqb_eq in E. by subst.
Qed.

(** One rune survives being escaped and read. *)
Lemma read_char_escape r rest :
  valid_rune r = true ->
  let e := escape_seg (Seg r (encode_rune r)) in
  read_char (e ++ rest) = Some (encode_rune r, rest) /\
  exists d t, e = d :: t /\ byte_eqb d quote_b = false.
Proof.
  intros Hv. cbv zeta. destruct (r <? 128) eqn:E.
  - assert (0 <= r < 128) as Hr by (unfold valid_rune in Hv; lia).
    rewrite encode_rune_ascii by done.
    pose proof (escape_ascii (byte_of r) rest) as H. rewrite byte_val_of in H by lia.
    apply H. lia.
  - unfold escape_seg. rewrite seg_valid_rune by done. simpl. rewrite E.
    destruct ((r =? 8232) || (r =? 8233)) eqn:E'.
    { assert (r = 8232 \/ r = 8233) as [-> | ->] by lia; (split; [reflexivity|]);
        eexists _, _; split; reflexivity. }
    destruct (encode_rune_high r Hv) as (c & t & Hc & Hcv); [lia|].
    rewrite Hc. split.
    + cbn [app]. unfold read_char.
      replace (byte_eqb c bslash) with false.
      2:{ symmetry. apply bool_decide_eq_false. intros ->. by vm_compute in Hcv. }
      replace (byte_val c <? 32) with false by lia. replace (byte_val c <? 128) with false by lia.
      pose proof (decode_encode_rune r rest Hv) as Hd. rewrite Hc in Hd. cbn [app] in Hd.
      rewrite Hd, Hc. f_equal. f_equal. by rewrite app_comm_cons, drop_app_length.
    + eexists _, _. split; [done|]. apply bool_decide_eq_false. intros ->. by vm_compute in Hcv.
Qed.

Lemma read_body_escape rs rest fuel :
  forallb valid_rune rs = true ->
  (length (flat_map escape_seg (map (fun r => Seg r (encode_rune r)) rs)) < fuel)%nat ->
  read_body fuel (flat_map escape_seg (map (fun r => Seg r (encode_rune r)) rs) ++ quote_b :: rest)
    = Some (encode rs, rest).
Proof.
  revert fuel. induction rs as [|r rs IH]; intros fuel Hv Hf.
  { destruct fuel; [simpl in Hf; lia|]. done. }
  simpl in Hv. apply andb_true_iff in Hv as [Hr Hrs]. cbn [map flat_map] in *.
  rewrite length_app in Hf. rewrite <- app_assoc.
  destruct (read_char_escape r (flat_map escape_seg (map (fun r => Seg r (encode_rune r)) rs) ++ quote_b :: rest) Hr)
    as (Hc & d & t & He & Hd).
  destruct fuel as [|fuel]; [lia|]. cbn [read_body].
  rewrite He in Hc, Hf |- *. cbn [app] in Hc |- *. rewrite Hd, Hc.
  simpl in Hf. rewrite IH by (try done; lia). done.
Qed.

Lemma read_print_str s rest :
  ValidString s = true ->
  exists t, print_str s ++ rest = quote_b :: t /\ read_body (S (length t)) t = Some (s, rest).
Proof.
  intros Hv. apply ValidString_encode in Hv as [Hr He]. revert Hr He.
  generalize (runes s). intros rs Hr <-.
  assert (segs (encode rs) = map (fun r => Seg r (encode_rune r)) rs) as Hs.
  { pose proof (segs_encode rs [] Hr) as H. by rewrite !app_nil_r in H. }
  unfold print_str. rewrite Hs.
  exists (flat_map escape_seg (map (fun r => Seg r (encode_rune r)) rs) ++ quote_b :: rest).
  split; [cbn [app]; by rewrite <- app_assoc|]. apply read_body_escape; [done|]. rewrite length_app. simpl. lia.
Qed.

(** ** Whole documents *)

Fixpoint jdepth (j : json) : Z :=
  match j with
  | JArr l => 1 + fold_right Z.max 0 (map jdepth l)
  | JObj l => 1 + fold_right Z.max 0 (map (fun kv => jdepth kv.2) l)
  | _ => 0
  end.

(** What [json.Marshal] can produce: valid UTF-8 and well-formed numbers. *)
Fixpoint printable (j : json) : bool :=
  match j with
  | JNull | JBool _ => true
  | JNum l => valid_number l && forallb num_char l
  | JStr s => ValidString s
  | JArr l => forallb printable l
  | JObj l => forallb (fun kv => ValidString kv.1 && printable kv.2) l
  end.

(** A number must not run into what follows it. *)
Definition num_end (rest : str) : Prop :=
  match rest with [] => True | c :: _ => num_char c = false end.

Lemma span_num l rest :
  forallb num_char l = true -> num_end rest -> span num_char (l ++ rest) = (l, rest).
Proof.
  intros Hl Hr. induction l as [|c l IH]; simpl in *.
  - destruct rest as [|d rest]; simpl in *; [done|by rewrite Hr].
  - apply andb_true_iff in Hl as [-> Hl]. by rewrite IH.
Qed.

(** Number characters are neither white space nor the start of another value. *)
Definition other_start (c : ascii) : bool :=
  negb (is_ws c || byte_eqb c "{"%char || byte_eqb c "["%char || byte_eqb c quote_b
        || byte_eqb c "t"%char || byte_eqb c "f"%char || byte_eqb c "n"%char
        || byte_eqb c "]"%char || byte_eqb c "}"%char).

Lemma num_char_other c : num_char c = true -> other_start c = true.
Proof.
  destruct c as [b0 b1 b2 b3 b4 b5 b6 b7].
  destruct b0, b1, b2, b3, b4, b5, b6, b7; vm_compute; congruence.
Qed.

(** Every printed value starts with a byte that is neither white space nor a
    closing bracket. *)
Lemma print_start j :
  printable j = true ->
  exists c t, print j = c :: t /\ is_ws c = false /\ byte_eqb c "]"%char = false.
Proof.
  destruct j as [|[]|l|s|l|l]; simpl; intros H; try (by eexists _, _; split; [reflexivity|split; reflexivity]).
  apply andb_true_iff in H as [Hv Hc]. destruct l as [|c l]; [done|].
  simpl in Hc. apply andb_true_iff in Hc as [Hc _].
  apply num_char_other in Hc. unfold other_start in Hc. rewrite negb_true_iff, !orb_false_iff in Hc.
  exists c, l. split; [done|]. naive_solver.
Qed.

Lemma skip_ws_print j rest : printable j = true -> skip_ws (print j ++ rest) = print j ++ rest.
Proof.
  intros H. destruct (print_start j H) as (c & t & -> & Hws & _). simpl. by rewrite Hws.
Qed.

Definition reads (fuel : nat) (j : json) : Prop := forall d rest,
  printable j = true -> d + jdepth j <= maxNestingDepth -> num_end rest ->
  (length (print j) < fuel)%nat -> read_value fuel d (print j ++ rest) = Some (j, rest).

Lemma fold_max_bound (l : list Z) x : x ∈ l -> x <= fold_right Z.max 0 l.
Proof. induction l as [|y l IH]; [by intros ?%elem_of_nil|]. intros [->|?]%elem_of_cons; simpl; [lia|]. specialize (IH H). lia. Qed.

Lemma join_cons x y l : join (x :: y :: l) = x ++ comma :: join (y :: l).
Proof. done. Qed.

Lemma read_elems_print l : l <> [] -> Forall (fun j => forall fuel, reads fuel j) l ->
  forall fuel d rest,
  forallb printable l = true -> d + fold_right Z.max 0 (map jdepth l) <= maxNestingDepth ->
  (length (join (map print l)) + 1 < fuel)%nat ->
  read_elems fuel d (join (map print l) ++ "]"%char :: rest) = Some (l, rest).
Proof.
  induction l as [|j l IH]; [done|]. intros _ HF fuel d rest Hp Hd Hf.
  inversion HF as [|?? Hj HF']; subst. simpl in Hp, Hd. apply andb_true_iff in Hp as [Hpj Hpl].
  destruct fuel as [|fuel]; [lia|]. cbn [read_elems]. destruct l as [|j' l].
  - simpl in Hf |- *. rewrite Hj; [|done|lia|done|lia]. done.
  - cbn [map] in *. rewrite join_cons in *. rewrite length_app, length_cons in Hf.
    rewrite <- app_assoc. cbn [app]. rewrite Hj; [|done|lia|done|lia].
    cbn [skip_ws]. change (is_ws comma) with false. cbv iota.
    change (byte_eqb comma comma) with true. cbv iota.
    rewrite IH; [done|done|done|done| |simpl in *; lia]. lia.
Qed.

Definition print_member (kv : str * json) : str := print_str kv.1 ++ colon :: print kv.2.

Lemma print_str_cons s : exists t, print_str s = quote_b :: t.
Proof. unfold print_str. by eexists. Qed.

(** Read one member up to the comma or brace that follows it. *)
Lemma read_member fuel d k v c rest :
  ValidString k = true -> printable v = true -> d + jdepth v <= maxNestingDepth ->
  (forall fuel, reads fuel v) -> num_char c = false -> is_ws c = false ->
  (length (print_member (k, v)) < fuel)%nat ->
  read_members (S fuel) d (print_member (k, v) ++ c :: rest) =
    (if byte_eqb c comma then
       match read_members fuel d rest with
       | Some (l, s6) => Some ((k, v) :: l, s6)
       | None => None
       end
     else if byte_eqb c "}"%char then Some ([(k, v)], rest) else None).
Proof.
  intros Hk Hv Hd Hj Hc Hws Hf. unfold print_member in *. simpl fst in *. simpl snd in *.
  rewrite length_app in Hf. simpl in Hf. rewrite <- app_assoc.
  destruct (read_print_str k ((colon :: print v) ++ c :: rest) Hk) as (t & -> & Ht).
  cbn [read_members skip_ws]. change (is_ws quote_b) with false. cbv iota.
  change (byte_eqb quote_b quote_b) with true. cbv iota. rewrite Ht.
  cbn [app skip_ws]. change (is_ws colon) with false. cbv iota.
  change (byte_eqb colon colon) with true. cbv iota.
  rewrite Hj; [|done|lia|done|lia]. cbn [skip_ws]. rewrite Hws. done.
Qed.

Arguments print_member : simpl never.
Arguments print_str : simpl never.

Lemma read_members_print l : l <> [] -> Forall (fun kv => forall fuel, reads fuel kv.2) l ->
  forall fuel d rest,
  forallb (fun kv => ValidString kv.1 && printable kv.2) l = true ->
  d + fold_right Z.max 0 (map (fun kv => jdepth kv.2) l) <= maxNestingDepth ->
  (length (join (map print_member l)) + 1 < fuel)%nat ->
  read_members fuel d (join (map print_member l) ++ "}"%char :: rest) = Some (l, rest).
Proof.
  induction l as [|[k v] l IH]; [done|]. intros _ HF fuel d rest Hp Hd Hf.
  inversion HF as [|?? Hj HF']; subst. simpl in Hp, Hd, Hj.
  rewrite !andb_true_iff in Hp. destruct Hp as [[Hk Hv] Hpl].
  destruct fuel as [|fuel]; [lia|]. destruct l as [|kv' l].
  - cbn [map join] in *. rewrite read_member; [done|done|done|lia|done|done|done|lia].
  - cbn [map] in *. rewrite join_cons in *. rewrite length_app, length_cons in Hf.
    rewrite <- app_assoc. cbn [app].
    rewrite read_member; [|done|done|simpl in *; lia|done|done|done|lia].
    change (byte_eqb comma comma) with true. cbv iota.
    rewrite IH; [done|done|done|done| |simpl in *; lia]. simpl in *. lia.
Qed.

Lemma print_obj l : print (JObj l) = "{"%char :: join (map print_member l) ++ lit "}".
Proof. done. Qed.

(** Every value reads back as itself, whatever follows it. *)
Lemma read_value_print j fuel : reads fuel j.
Proof.
  revert fuel. induction j as [|b|l|s|l IH|l IH] using json_ind'; intros fuel d rest Hp Hd Hr Hf;
    (destruct fuel as [|fuel]; [lia|]).
  - done.
  - by destruct b.
  - simpl in Hp. apply andb_true_iff in Hp as [Hv Hc]. cbn [print].
    destruct l as [|c l]; [done|]. pose proof Hc as Hc'. simpl in Hc'. apply andb_true_iff in Hc' as [Hc' _].
    apply num_char_other in Hc'. unfold other_start in Hc'.
    rewrite negb_true_iff, !orb_false_iff in Hc'. destruct_and! Hc'.
    cbn [app read_value skip_ws].
    repeat match goal with H : ?b = false |- _ => rewrite H; clear H end. cbv iota.
    change (c :: l ++ rest) with ((c :: l) ++ rest). rewrite span_num by done. by rewrite Hv.
  - cbn [print]. destruct (read_print_str s rest Hp) as (t & -> & Ht).
    cbn [read_value skip_ws]. change (is_ws quote_b) with false. cbv iota.
    change (byte_eqb quote_b "{"%char) with false. change (byte_eqb quote_b "["%char) with false.
    change (byte_eqb quote_b quote_b) with true. cbv iota. by rewrite Ht.
  - cbn [jdepth] in Hd. destruct (decide (l = [])) as [->|Hl].
    { simpl. replace (maxNestingDepth <? d + 1) with false by (simpl in Hd; lia). done. }
    assert (0 <= fold_right Z.max 0 (map jdepth l)) as H0 by (clear; induction l; simpl; lia).
    cbn [print] in *. simpl length in Hf. rewrite length_app in Hf. simpl in Hf.
    cbn [app read_value skip_ws]. change (is_ws "["%char) with false. cbv iota.
    change (byte_eqb "["%char "{"%char) with false. change (byte_eqb "["%char "["%char) with true. cbv iota.
    replace (maxNestingDepth <? d + 1) with false by lia.
    rewrite <- app_assoc. change (lit "]" ++ rest) with ("]"%char :: rest).
    rewrite read_elems_print; [|done|done|done|lia|lia].
    destruct l as [|j l]; [done|]. cbn [map]. simpl in Hp. apply andb_true_iff in Hp as [Hj _].
    destruct (print_start j Hj) as (c & t & Hpj & Hws & Hcb).
    destruct l as [|j' l]; [cbn [map join]|cbn [map]; rewrite join_cons, <- app_assoc];
      rewrite Hpj; cbn [app skip_ws]; rewrite Hws, Hcb; done.
  - cbn [jdepth] in Hd. destruct (decide (l = [])) as [->|Hl].
    { simpl. replace (maxNestingDepth <? d + 1) with false by (simpl in Hd; lia). done. }
    rewrite print_obj in *. simpl length in Hf. rewrite length_app in Hf. simpl in Hf.
    cbn [app read_value skip_ws]. change (is_ws "{"%char) with false. cbv iota.
    change (byte_eqb "{"%char "{"%char) with true. cbv iota.
    assert (0 <= fold_right Z.max 0 (map (fun kv : str * json => jdepth kv.2) l)) as H0
      by (clear; induction l; simpl; lia).
    replace (maxNestingDepth <? d + 1) with false by lia.
    rewrite <- app_assoc. change (lit "}" ++ rest) with ("}"%char :: rest).
    rewrite read_members_print; [|done|done|done|lia|lia].
    destruct l as [|[k v] l]; [done|]. cbn [map].
    destruct (print_str_cons k) as [t Hk].
    destruct l as [|kv' l]; [cbn [map join]|cbn [map]; rewrite join_cons, <- app_assoc];
      unfold print_member; simpl fst; rewrite Hk; reflexivity.
Qed.

Lemma parse_print j :
  printable j = true -> jdepth j <= maxNestingDepth -> parse (print j) = Some j.
Proof.
  intros Hp Hd. unfold parse.
  pose proof (read_value_print j (S (length (print j))) 0 [] Hp ltac:(lia) I ltac:(lia)) as H.
  rewrite app_nil_r in H. by rewrite H.
Qed.

(** ** Printed values stay on one line *)

Definition nl : ascii := byte_of 10.

Lemma escape_ascii_nl (c : ascii) :
  byte_val c < 128 -> nl ∉ escape_seg (Seg (byte_val c) [c]).
Proof.
  intros H. apply (bool_decide_unpack _). destruct c as [b0 b1 b2 b3 b4 b5 b6 b7].
  destruct b7; [exfalso; destruct b0, b1, b2, b3, b4, b5, b6; by vm_compute in H|]. clear H.
  destruct b0, b1, b2, b3, b4, b5, b6; vm_compute; exact I.
Qed.

Lemma encode_rune_no_nl r : valid_rune r = true -> 128 <= r -> nl ∉ encode_rune r.
Proof.
  intros Hv Hr Hin. unfold encode_rune in Hin. rewrite Hv in Hin. unfold valid_rune in Hv.
  repeat (case_match; try (exfalso; lia)); rewrite !elem_of_cons, elem_of_nil in Hin;
    destruct_or! Hin; try done; apply (f_equal byte_val) in Hin; rewrite byte_val_of in Hin;
    vm_compute (byte_val nl) in Hin; Z.to_euclidean_division_equations; lia.
Qed.

Lemma print_str_no_nl s : ValidString s = true -> nl ∉ print_str s.
Proof.
  intros Hv. unfold print_str. intros [H|H]%elem_of_cons; [by vm_compute in H|].
  apply elem_of_app in H as [H|H].
  2:{ apply elem_of_cons in H as [H|H]; [by vm_compute in H|by apply elem_of_nil in H]. }
  apply list_elem_of_In, in_flat_map in H as (g & Hg & H). apply list_elem_of_In in H.
  unfold ValidString in Hv. rewrite forallb_forall in Hv.
  pose proof (Hv g Hg) as Hval. destruct (seg_valid_encode s g Hg Hval) as [Hr Hb].
  destruct g as [r b]. simpl in Hr, Hb. subst b. destruct (r <? 128) eqn:E.
  - assert (0 <= r < 128) as Hr' by (unfold valid_rune in Hr; lia).
    rewrite encode_rune_ascii in H by done. apply (escape_ascii_nl (byte_of r)); rewrite byte_val_of by lia; [lia|done].
  - unfold escape_seg in H. rewrite Hval in H. cbn [negb seg_rune] in H. rewrite E in H.
    destruct ((r =? 8232) || (r =? 8233)) eqn:E'.
    + assert (r = 8232 \/ r = 8233) as [-> | ->] by lia; revert H;
        apply (bool_decide_unpack (nl ∉ _)); vm_compute; exact I.
    + cbn [seg_bytes] in H. revert H. apply encode_rune_no_nl; [done|lia].
Qed.

Lemma num_no_nl l : forallb num_char l = true -> nl ∉ l.
Proof.
  intros H Hin. rewrite forallb_forall in H. apply list_elem_of_In, H in Hin. by vm_compute in Hin.
Qed.

Lemma join_no_nl l : Forall (fun x => nl ∉ x) l -> nl ∉ join l.
Proof.
  induction l as [|x l IH]; intros H; [apply not_elem_of_nil|]. inversion H as [|?? Hx Hl]; subst.
  destruct l as [|y l]; [done|]. rewrite join_cons. intros [Hin|[Hin|Hin]%elem_of_cons]%elem_of_app; [done| |by apply IH].
  by vm_compute in Hin.
Qed.

Lemma print_no_nl j : printable j = true -> nl ∉ print j.
Proof.
  induction j as [|b|l|s|l IH|l IH] using json_ind'; intros Hp.
  - apply (bool_decide_unpack _). vm_compute. exact I.
  - destruct b; apply (bool_decide_unpack _); vm_compute; exact I.
  - simpl in Hp. apply andb_true_iff in Hp as [_ Hp]. by apply num_no_nl.
  - by apply print_str_no_nl.
  - cbn [print]. intros [H|[H|H]%elem_of_app]%elem_of_cons; [by vm_compute in H| |].
    2:{ revert H. apply (bool_decide_unpack _). vm_compute. exact I. }
    revert H. apply join_no_nl. simpl in Hp. rewrite forallb_forall in Hp.
    apply Forall_forall. intros x (j & -> & Hj)%list_elem_of_fmap. rewrite Forall_forall in IH.
    apply IH; [done|]. apply Hp. by apply list_elem_of_In.
  - rewrite print_obj. intros [H|[H|H]%elem_of_app]%elem_of_cons; [by vm_compute in H| |].
    2:{ revert H. apply (bool_decide_unpack _). vm_compute. exact I. }
    revert H. apply join_no_nl. simpl in Hp. rewrite forallb_forall in Hp.
    apply Forall_forall. intros x (j & -> & Hj)%list_elem_of_fmap. rewrite Forall_forall in IH.
    specialize (Hp j ltac:(by apply list_elem_of_In)). apply andb_true_iff in Hp as [Hk Hv].
    unfold print_member. intros [H|[H|H]%elem_of_cons]%elem_of_app.
    + by apply print_str_no_nl in H.
    + by vm_compute in H.
    + revert H. by apply IH.
Qed.

(** * Struct fields *)

(** An object key matches a field name up to case ([bytes.EqualFold]; the two
    non-ASCII runes that fold to ASCII letters included). *)
Definition fold_key (k : str) : str :=
  flat_map (fun g =>
    let r := seg_rune g in
    if (65 <=? r) && (r <=? 90) then [byte_of (r + 32)]
    else if r =? 383 then lit "s"
    else if r =? 8490 then lit "k"
    else seg_bytes g) (segs k).

Definition key_is (k : str) (name : string) : bool := str_eqb (fold_key k) (fold_key (lit name)).

(** Encoders: a field, with [omitempty] where the struct tag has it. *)
Definition fstr (k : string) (v : str) : list (str * json) := [(lit k, JStr v)].
Definition ostr (k : string) (v : str) : list (str * json) :=
  match v with [] => [] | _ => [(lit k, JStr v)] end.
Definition fint (k : string) (v : Z) : list (str * json) := [(lit k, JNum (itoa v))].
Definition oint (k : string) (v : Z) : list (str * json) :=
  if v =? 0 then [] else [(lit k, JNum (itoa v))].
Definition obool (k : string) (v : bool) : list (str * json) :=
  if v then [(lit k, JBool true)] else [].
Definition ostrs (k : string) (v : list str) : list (str * json) :=
  match v with [] => [] | _ => [(lit k, JArr (map JStr v))] end.

(** Decoders: [null] leaves the field as it is; a value of another kind is an
    error. *)
Definition dstr (v : json) (cur : str) : option str :=
  match v with JStr s => Some s | JNull => Some cur | _ => None end.
Definition dbool (v : json) (cur : bool) : option bool :=
  match v with JBool b => Some b | JNull => Some cur | _ => None end.

(** [strconv.ParseUint] and [ParseInt] in base ten. *)
Definition parse_uint (bits : Z) (l : str) : option Z :=
  match l with
  | [] => None
  | _ => if forallb is_digit l then
           let n := digits_val l in if n <? 2 ^ bits then Some n else None
         else None
  end.
Definition parse_int (l : str) : option Z :=
  match l with
  | c :: l' =>
      if byte_eqb c "-"%char then
        match parse_uint 64 l' with
        | Some n => if n <=? 2 ^ 63 then Some (- n) else None
        | None => None
        end
      else match parse_uint 63 l with Some n => Some n | None => None end
  | [] => None
  end.

Definition duint (bits : Z) (v : json) (cur : Z) : option Z :=
  match v with JNum l => parse_uint bits l | JNull => Some cur | _ => None end.
Definition dint (v : json) (cur : Z) : option Z :=
  match v with JNum l => parse_int l | JNull => Some cur | _ => None end.

Fixpoint dstr_list (l : list json) : option (list str) :=
  match l with
  | [] => Some []
  | v :: l' =>
      match dstr v [], dstr_list l' with Some x, Some r => Some (x :: r) | _, _ => None end
  end.
Definition dstrs (v : json) (cur : list str) : option (list str) :=
  match v with JArr l => dstr_list l | JNull => Some [] | _ => None end.

(** An object fills the struct member by member; [null] changes nothing. *)
Definition dobj {A} (field : option A -> str * json -> option A) (v : json) (cur : A) : option A :=
  match v with
  | JObj l => fold_left field l (Some cur)
  | JNull => Some cur
  | _ => None
  end.

Lemma parse_uint_utoa bits n : 0 <= n < 2 ^ bits -> parse_uint bits (utoa n) = Some n.
Proof.
  intros H. unfold parse_uint. pose proof (utoa_nonempty n) as Hne.
  assert (forallb is_digit (utoa n) = true) as Hd.
  { apply forallb_forall. intros c Hc. apply list_elem_of_In in Hc.
    pose proof (utoa_digits n ltac:(lia)) as F. rewrite Forall_forall in F. by apply F. }
  destruct (utoa n) as [|c l] eqn:E; [done|]. rewrite Hd, <- E, digits_val_utoa by lia.
  replace (n <? 2 ^ bits) with true by lia. done.
Qed.

Lemma duint_itoa bits n cur : 0 <= n < 2 ^ bits -> duint bits (JNum (itoa n)) cur = Some n.
Proof.
  intros H. unfold duint, itoa. replace (n <? 0) with false by lia. by apply parse_uint_utoa.
Qed.

Lemma dint_itoa n cur : is_i64 n -> dint (JNum (itoa n)) cur = Some n.
Proof.
  unfold is_i64. intros H. unfold dint, itoa. destruct (n <? 0) eqn:E.
  - unfold parse_int. change (byte_eqb "-"%char "-"%char) with true. cbv iota.
    rewrite parse_uint_utoa by lia. replace (- n <=? 2 ^ 63) with true by lia. f_equal. lia.
  - unfold parse_int. pose proof (parse_uint_utoa 63 n ltac:(lia)) as Hp.
    pose proof (utoa_digits n ltac:(lia)) as Hd. pose proof (utoa_nonempty n).
    destruct (utoa n) as [|c l]; [done|]. inversion Hd as [|?? Hc _]; subst.
    rewrite byte_eqb_neq; [by rewrite Hp|]. intros ->. by vm_compute in Hc.
Qed.

Lemma dstrs_map l cur : dstrs (JArr (map JStr l)) cur = Some l.
Proof. simpl. induction l as [|s l IH]; simpl; [done|]. by rewrite IH. Qed.

(** ** Trip metadata *)

Definition trip_fields (t : TripMeta) : list (str * json) :=
  fstr "pub" (tm_Pub t) ++ fint "seq" (tm_Seq t) ++ fstr "prev" (tm_Prev t) ++
  fstr "sig" (tm_Sig t) ++ fstr "server_pub" (tm_ServerPub t) ++
  ostr "msg_hash" (tm_MsgHash t) ++ ostr "display_name" (tm_DisplayName t) ++
  obool "exposed" (tm_Exposed t) ++ oint "tmp_id" (tm_TmpID t) ++ oint "reply_to" (tm_ReplyTo t).

Definition trip_field (st : option TripMeta) (kv : str * json) : option TripMeta :=
  match st with
  | None => None
  | Some (mkTripMeta pub seq prev sig spub mh dn ex tid rt) =>
      let '(k, v) := kv in
      if key_is k "pub" then x ← dstr v pub; Some (mkTripMeta x seq prev sig spub mh dn ex tid rt)
      else if key_is k "seq" then x ← duint 32 v seq; Some (mkTripMeta pub x prev sig spub mh dn ex tid rt)
      else if key_is k "prev" then x ← dstr v prev; Some (mkTripMeta pub seq x sig spub mh dn ex tid rt)
      else if key_is k "sig" then x ← dstr v sig; Some (mkTripMeta pub seq prev x spub mh dn ex tid rt)
      else if key_is k "server_pub" then x ← dstr v spub; Some (mkTripMeta pub seq prev sig x mh dn ex tid rt)
      else if key_is k "msg_hash" then x ← dstr v mh; Some (mkTripMeta pub seq prev sig spub x dn ex tid rt)
      else if key_is k "display_name" then x ← dstr v dn; Some (mkTripMeta pub seq prev sig spub mh x ex tid rt)
      else if key_is k "exposed" then x ← dbool v ex; Some (mkTripMeta pub seq prev sig spub mh dn x tid rt)
      else if key_is k "tmp_id" then x ← duint 64 v tid; Some (mkTripMeta pub seq prev sig spub mh dn ex x rt)
      else if key_is k "reply_to" then x ← duint 64 v rt; Some (mkTripMeta pub seq prev sig spub mh dn ex tid x)
      else st
  end.

(** ** Wire messages *)

Definition otrip (k : string) (t : option TripMeta) : list (str * json) :=
  match t with None => [] | Some t => [(lit k, JObj (trip_fields t))] end.

Definition wire_fields (w : WireMessage) : list (str * json) :=
  fstr "type" (wm_Type w) ++ ostr "time" (wm_Time w) ++ ostr "displayName" (wm_DisplayName w) ++
  ostrs "tags" (wm_Tags w) ++ oint "sys_pow_tier" (wm_SysPowTier w) ++ ostr "sys_date" (wm_SysDate w) ++
  oint "vote_target" (wm_VoteTarget w) ++ oint "vote_up" (wm_VoteUpvotes w) ++
  oint "vote_down" (wm_VoteDownvotes w) ++ ostr "exposed_pub" (wm_ExposedPub w) ++
  ostr "exposed_sig" (wm_ExposedSig w) ++ ostr "exposed_seed" (wm_ExposedSeed w) ++
  ostr "text" (wm_Text w) ++ otrip "trip" (wm_Trip w) ++ oint "tmp_id" (wm_TmpID w) ++
  oint "reply_to" (wm_ReplyTo w) ++ ostr "chain_prev" (wm_ChainPrev w) ++
  ostr "chain_hash" (wm_ChainHash w) ++ oint "chain_height" (wm_ChainHeight w) ++
  oint "chain_ver" (wm_ChainVer w) ++ oint "seq" (wm_Seq w) ++ ostr "sent_at" (wm_SentAt w).

(** A [*TripMeta] field: [null] clears it, an object fills what is there. *)
Definition dtrip (v : json) (cur : option TripMeta) : option (option TripMeta) :=
  match v with
  | JNull => Some None
  | _ => t ← dobj trip_field v (default zeroTrip cur); Some (Some t)
  end.

Definition wire_field (st : option WireMessage) (kv : str * json) : option WireMessage :=
  match st with
  | None => None
  | Some (mkWire a b c d e f g h i j k l m n o p q r s t u z) =>
      let '(key, v) := kv in
      if key_is key "type" then x ← dstr v a; Some (mkWire x b c d e f g h i j k l m n o p q r s t u z)
      else if key_is key "time" then x ← dstr v b; Some (mkWire a x c d e f g h i j k l m n o p q r s t u z)
      else if key_is key "displayName" then x ← dstr v c; Some (mkWire a b x d e f g h i j k l m n o p q r s t u z)
      else if key_is key "tags" then x ← dstrs v d; Some (mkWire a b c x e f g h i j k l m n o p q r s t u z)
      else if key_is key "sys_pow_tier" then x ← dint v e; Some (mkWire a b c d x f g h i j k l m n o p q r s t u z)
      else if key_is key "sys_date" then x ← dstr v f; Some (mkWire a b c d e x g h i j k l m n o p q r s t u z)
      else if key_is key "vote_target" then x ← duint 64 v g; Some (mkWire a b c d e f x h i j k l m n o p q r s t u z)
      else if key_is key "vote_up" then x ← dint v h; Some (mkWire a b c d e f g x i j k l m n o p q r s t u z)
      else if key_is key "vote_down" then x ← dint v i; Some (mkWire a b c d e f g h x j k l m n o p q r s t u z)
      else if key_is key "exposed_pub" then x ← dstr v j; Some (mkWire a b c d e f g h i x k l m n o p q r s t u z)
      else if key_is key "exposed_sig" then x ← dstr v k; Some (mkWire a b c d e f g h i j x l m n o p q r s t u z)
      else if key_is key "exposed_seed" then x ← dstr v l; Some (mkWire a b c d e f g h i j k x m n o p q r s t u z)
      else if key_is key "text" then x ← dstr v m; Some (mkWire a b c d e f g h i j k l x n o p q r s t u z)
      else if key_is key "trip" then x ← dtrip v n; Some (mkWire a b c d e f g h i j k l m x o p q r s t u z)
      else if key_is key "tmp_id" then x ← duint 64 v o; Some (mkWire a b c d e f g h i j k l m n x p q r s t u z)
      else if key_is key "reply_to" then x ← duint 64 v p; Some (mkWire a b c d e f g h i j k l m n o x q r s t u z)
      else if key_is key "chain_prev" then x ← dstr v q; Some (mkWire a b c d e f g h i j k l m n o p x r s t u z)
      else if key_is key "chain_hash" then x ← dstr v r; Some (mkWire a b c d e f g h i j k l m n o p q x s t u z)
      else if key_is key "chain_height" then x ← duint 64 v s; Some (mkWire a b c d e f g h i j k l m n o p q r x t u z)
      else if key_is key "chain_ver" then x ← dint v t; Some (mkWire a b c d e f g h i j k l m n o p q r s x u z)
      else if key_is key "seq" then x ← duint 64 v u; Some (mkWire a b c d e f g h i j k l m n o p q r s t x z)
      else if key_is key "sent_at" then x ← dstr v z; Some (mkWire a b c d e f g h i j k l m n o p q r s t u x)
      else st
  end.

Definition marshal_wire (w : WireMessage) : str := print (JObj (wire_fields w)).

Definition unmarshal_wire (s : str) : option WireMessage :=
  match parse s with Some v => dobj wire_field v zeroWire | None => None end.

Example wire_text_ex :
  marshal_wire (mkWire (lit "chat") (lit "15:04") (lit "An#a1b2") [] 0 [] 0 0 0 [] [] [] (lit "<hi>") None 1 0 [] [] 7 2 9 [])
  = jlit "{`type`:`chat`,`time`:`15:04`,`displayName`:`An#a1b2`,`text`:`\u003chi\u003e`,`tmp_id`:1,`chain_height`:7,`chain_ver`:2,`seq`:9}".
Proof. vm_compute. reflexivity. Qed.

Example wire_read_ex :
  unmarshal_wire (jlit "{`TYPE`:`system`,`new`:[1],`Seq`:5,`trip`:null}") =
  Some (set_Seq (mkWire (lit "system") [] [] [] 0 [] 0 0 0 [] [] [] [] None 0 0 [] [] 0 0 0 []) 5).
Proof. vm_compute. reflexivity. Qed.

(** * Round trips *)

(** A field encoder and decoder agree on [x]: it is omitted exactly when it is
    the zero the decoder starts from, or it reads back. *)
Definition field_ok {A} (enc : A -> list (str * json)) (dec : json -> A -> option A)
    (k : string) (zero x : A) : Prop :=
  (enc x = [] /\ x = zero) \/ (exists v, enc x = [(lit k, v)] /\ dec v zero = Some x).

Lemma fold_field {A R} (set : A -> R) (k : string) (enc : A -> list (str * json))
    (dec : json -> A -> option A) (zero x : A) (field : option R -> str * json -> option R) :
  field_ok enc dec k zero x ->
  (forall v, field (Some (set zero)) (lit k, v) = (y ← dec v zero; Some (set y))) ->
  fold_left field (enc x) (Some (set zero)) = Some (set x).
Proof.
  intros [[He ->]|(v & He & Hd)] Hf; rewrite He; [done|]. cbn [fold_left]. by rewrite Hf, Hd.
Qed.

Lemma fstr_ok k x : field_ok (fstr k) dstr k [] x.
Proof. right. by eexists. Qed.
Lemma ostr_ok k x : field_ok (ostr k) dstr k [] x.
Proof. destruct x; [by left|]. right. by eexists. Qed.
Lemma fuint_ok k bits x : 0 <= x < 2 ^ bits -> field_ok (fint k) (duint bits) k 0 x.
Proof. intros H. right. eexists. split; [done|]. by apply duint_itoa. Qed.
Lemma ouint_ok k bits x : 0 <= x < 2 ^ bits -> field_ok (oint k) (duint bits) k 0 x.
Proof.
  intros H. unfold field_ok, oint. destruct (x =? 0) eqn:E; [left; split; [done|lia]|].
  right. eexists. split; [done|]. by apply duint_itoa.
Qed.
Lemma oint_ok k x : is_i64 x -> field_ok (oint k) dint k 0 x.
Proof.
  intros H. unfold field_ok, oint. destruct (x =? 0) eqn:E; [left; split; [done|lia]|].
  right. eexists. split; [done|]. by apply dint_itoa.
Qed.
Lemma obool_ok k x : field_ok (obool k) dbool k false x.
Proof. destruct x; [right; by eexists|by left]. Qed.
Lemma ostrs_ok k x : field_ok (ostrs k) dstrs k [] x.
Proof.
  destruct x as [|s x]; [by left|]. right. eexists. split; [done|]. apply dstrs_map.
Qed.

Arguments fstr : simpl never.
Arguments ostr : simpl never.
Arguments fint : simpl never.
Arguments oint : simpl never.
Arguments obool : simpl never.
Arguments ostrs : simpl never.
Arguments otrip : simpl never.

Create HintDb json discriminated.
#[export] Hint Resolve fstr_ok ostr_ok fuint_ok ouint_ok oint_ok obool_ok ostrs_ok : json.

Ltac solve_field := first [done | solve [eauto with json] | intros; reflexivity].

(** The integers of a struct fit their fields. *)
Definition trip_ranges (t : TripMeta) : Prop :=
  is_u32 (tm_Seq t) /\ is_u64 (tm_TmpID t) /\ is_u64 (tm_ReplyTo t).

Definition wire_ranges (w : WireMessage) : Prop :=
  is_i64 (wm_SysPowTier w) /\ is_u64 (wm_VoteTarget w) /\ is_i64 (wm_VoteUpvotes w) /\
  is_i64 (wm_VoteDownvotes w) /\ is_u64 (wm_TmpID w) /\ is_u64 (wm_ReplyTo w) /\
  is_u64 (wm_ChainHeight w) /\ is_i64 (wm_ChainVer w) /\ is_u64 (wm_Seq w) /\
  match wm_Trip w with None => True | Some t => trip_ranges t end.

Lemma trip_fields_read t :
  trip_ranges t -> fold_left trip_field (trip_fields t) (Some zeroTrip) = Some t.
Proof.
  destruct t as [pub seq prev sig spub mh dn ex tid rt].
  unfold trip_ranges, is_u32, is_u64, trip_fields, zeroTrip.
  cbn [tm_Pub tm_Seq tm_Prev tm_Sig tm_ServerPub tm_MsgHash tm_DisplayName tm_Exposed tm_TmpID tm_ReplyTo].
  intros (H1 & H2 & H3).
  rewrite !fold_left_app.
  rewrite (fold_field (fun y => mkTripMeta y 0 [] [] [] [] [] false 0 0) "pub" (fstr "pub") dstr []) by solve_field.
  rewrite (fold_field (fun y => mkTripMeta pub y [] [] [] [] [] false 0 0) "seq" (fint "seq") (duint 32) 0) by solve_field.
  rewrite (fold_field (fun y => mkTripMeta pub seq y [] [] [] [] false 0 0) "prev" (fstr "prev") dstr []) by solve_field.
  rewrite (fold_field (fun y => mkTripMeta pub seq prev y [] [] [] false 0 0) "sig" (fstr "sig") dstr []) by solve_field.
  rewrite (fold_field (fun y => mkTripMeta pub seq prev sig y [] [] false 0 0) "server_pub" (fstr "server_pub") dstr []) by solve_field.
  rewrite (fold_field (fun y => mkTripMeta pub seq prev sig spub y [] false 0 0) "msg_hash" (ostr "msg_hash") dstr []) by solve_field.
  rewrite (fold_field (fun y => mkTripMeta pub seq prev sig spub mh y false 0 0) "display_name" (ostr "display_name") dstr []) by solve_field.
  rewrite (fold_field (fun y => mkTripMeta pub seq prev sig spub mh dn y 0 0) "exposed" (obool "exposed") dbool false) by solve_field.
  rewrite (fold_field (fun y => mkTripMeta pub seq prev sig spub mh dn ex y 0) "tmp_id" (oint "tmp_id") (duint 64) 0) by solve_field.
  rewrite (fold_field (fun y => mkTripMeta pub seq prev sig spub mh dn ex tid y) "reply_to" (oint "reply_to") (duint 64) 0) by solve_field.
  done.
Qed.

Lemma otrip_ok k t :
  match t with None => True | Some t => trip_ranges t end -> field_ok (otrip k) dtrip k None t.
Proof.
  intros H. destruct t as [t|]; [|by left]. right. eexists. split; [done|].
  unfold dtrip, dobj. simpl default. by rewrite trip_fields_read.
Qed.
#[export] Hint Resolve otrip_ok : json.

Lemma wire_fields_read w :
  wire_ranges w -> fold_left wire_field (wire_fields w) (Some zeroWire) = Some w.
Proof.
  destruct w as [a b c d e f g h i j k l m n o p q r s t u z].
  unfold wire_ranges, is_u64, wire_fields, zeroWire.
  cbn [wm_Type wm_Time wm_DisplayName wm_Tags wm_SysPowTier wm_SysDate wm_VoteTarget wm_VoteUpvotes
       wm_VoteDownvotes wm_ExposedPub wm_ExposedSig wm_ExposedSeed wm_Text wm_Trip wm_TmpID wm_ReplyTo
       wm_ChainPrev wm_ChainHash wm_ChainHeight wm_ChainVer wm_Seq wm_SentAt].
  intros (? & ? & ? & ? & ? & ? & ? & ? & ? & ?).
  rewrite !fold_left_app.
  rewrite (fold_field (fun y => mkWire y [] [] [] 0 [] 0 0 0 [] [] [] [] None 0 0 [] [] 0 0 0 []) "type" (fstr "type") dstr []) by solve_field.
  rewrite (fold_field (fun y => mkWire a y [] [] 0 [] 0 0 0 [] [] [] [] None 0 0 [] [] 0 0 0 []) "time" (ostr "time") dstr []) by solve_field.
  rewrite (fold_field (fun y => mkWire a b y [] 0 [] 0 0 0 [] [] [] [] None 0 0 [] [] 0 0 0 []) "displayName" (ostr "displayName") dstr []) by solve_field.
  rewrite (fold_field (fun y => mkWire a b c y 0 [] 0 0 0 [] [] [] [] None 0 0 [] [] 0 0 0 []) "tags" (ostrs "tags") dstrs []) by solve_field.
  rewrite (fold_field (fun y => mkWire a b c d y [] 0 0 0 [] [] [] [] None 0 0 [] [] 0 0 0 []) "sys_pow_tier" (oint "sys_pow_tier") dint 0) by solve_field.
  rewrite (fold_field (fun y => mkWire a b c d e y 0 0 0 [] [] [] [] None 0 0 [] [] 0 0 0 []) "sys_date" (ostr "sys_date") dstr []) by solve_field.
  rewrite (fold_field (fun y => mkWire a b c d e f y 0 0 [] [] [] [] None 0 0 [] [] 0 0 0 []) "vote_target" (oint "vote_target") (duint 64) 0) by solve_field.
  rewrite (fold_field (fun y => mkWire a b c d e f g y 0 [] [] [] [] None 0 0 [] [] 0 0 0 []) "vote_up" (oint "vote_up") dint 0) by solve_field.
  rewrite (fold_field (fun y => mkWire a b c d e f g h y [] [] [] [] None 0 0 [] [] 0 0 0 []) "vote_down" (oint "vote_down") dint 0) by solve_field.
  rewrite (fold_field (fun y => mkWire a b c d e f g h i y [] [] [] None 0 0 [] [] 0 0 0 []) "exposed_pub" (ostr "exposed_pub") dstr []) by solve_field.
  rewrite (fold_field (fun y => mkWire a b c d e f g h i j y [] [] None 0 0 [] [] 0 0 0 []) "exposed_sig" (ostr "exposed_sig") dstr []) by solve_field.
  rewrite (fold_field (fun y => mkWire a b c d e f g h i j k y [] None 0 0 [] [] 0 0 0 []) "exposed_seed" (ostr "exposed_seed") dstr []) by solve_field.
  rewrite (fold_field (fun y => mkWire a b c d e f g h i j k l y None 0 0 [] [] 0 0 0 []) "text" (ostr "text") dstr []) by solve_field.
  rewrite (fold_field (fun y => mkWire a b c d e f g h i j k l m y 0 0 [] [] 0 0 0 []) "trip" (otrip "trip") dtrip None) by solve_field.
  rewrite (fold_field (fun y => mkWire a b c d e f g h i j k l m n y 0 [] [] 0 0 0 []) "tmp_id" (oint "tmp_id") (duint 64) 0) by solve_field.
  rewrite (fold_field (fun y => mkWire a b c d e f g h i j k l m n o y [] [] 0 0 0 []) "reply_to" (oint "reply_to") (duint 64) 0) by solve_field.
  rewrite (fold_field (fun y => mkWire a b c d e f g h i j k l m n o p y [] 0 0 0 []) "chain_prev" (ostr "chain_prev") dstr []) by solve_field.
  rewrite (fold_field (fun y => mkWire a b c d e f g h i j k l m n o p q y 0 0 0 []) "chain_hash" (ostr "chain_hash") dstr []) by solve_field.
  rewrite (fold_field (fun y => mkWire a b c d e f g h i j k l m n o p q r y 0 0 []) "chain_height" (oint "chain_height") (duint 64) 0) by solve_field.
  rewrite (fold_field (fun y => mkWire a b c d e f g h i j k l m n o p q r s y 0 []) "chain_ver" (oint "chain_ver") dint 0) by solve_field.
  rewrite (fold_field (fun y => mkWire a b c d e f g h i j k l m n o p q r s t y []) "seq" (oint "seq") (duint 64) 0) by solve_field.
  rewrite (fold_field (fun y => mkWire a b c d e f g h i j k l m n o p q r s t u y) "sent_at" (ostr "sent_at") dstr []) by solve_field.
  done.
Qed.

(** What [json.Marshal] keeps intact: fields of valid UTF-8. *)
Definition trip_text_ok (t : TripMeta) : bool :=
  forallb ValidString [tm_Pub t; tm_Prev t; tm_Sig t; tm_ServerPub t; tm_MsgHash t; tm_DisplayName t].

Definition wire_text_ok (w : WireMessage) : bool :=
  forallb ValidString
    [wm_Type w; wm_Time w; wm_DisplayName w; wm_SysDate w; wm_ExposedPub w; wm_ExposedSig w;
     wm_ExposedSeed w; wm_Text w; wm_ChainPrev w; wm_ChainHash w; wm_SentAt w] &&
  forallb ValidString (wm_Tags w) &&
  match wm_Trip w with None => true | Some t => trip_text_ok t end.

Definition field_printable (kv : str * json) : bool := ValidString kv.1 && printable kv.2.

Lemma utoa_printable n : 0 <= n -> valid_number (utoa n) = true /\ forallb num_char (utoa n) = true.
Proof.
  intros Hn. pose proof (utoa_digits n Hn) as Hd.
  assert (forallb num_char (utoa n) = true) as Hc.
  { apply forallb_forall. intros c Hc. apply list_elem_of_In in Hc.
    rewrite Forall_forall in Hd. unfold num_char. by rewrite Hd. }
  split; [|done].
  assert (forall l, Forall (fun c => is_digit c = true) l -> span is_digit l = (l, [])) as Hspan.
  { intros l. induction 1 as [|c l Hc' _ IH]; [done|]. simpl. by rewrite Hc', IH. }
  destruct (Z.eq_dec n 0) as [->|Hz]; [done|].
  pose proof (fun l => utoa_head n l ltac:(lia)) as Hh. unfold valid_number.
  destruct (utoa n) as [|c l] eqn:E; [by apply utoa_nonempty in E|].
  inversion Hd as [|?? Hcd Hl]; subst. rewrite (byte_eqb_neq c "-"%char) by (intros ->; by vm_compute in Hcd).
  unfold int_part. rewrite (byte_eqb_neq c "0"%char) by (intros ->; by apply (Hh l)).
  rewrite Hcd, Hspan by done. done.
Qed.

Lemma itoa_printable n : printable (JNum (itoa n)) = true.
Proof.
  simpl. unfold itoa. destruct (n <? 0) eqn:E.
  - destruct (utoa_printable (- n) ltac:(lia)) as [Hv Hc]. apply andb_true_iff. split; [|done].
    unfold valid_number in *. change (byte_eqb "-"%char "-"%char) with true. cbv iota.
    pose proof (utoa_digits (- n) ltac:(lia)) as Hd. destruct (utoa (- n)) as [|c l]; [done|].
    inversion Hd as [|?? Hcd _]; subst.
    rewrite (byte_eqb_neq c "-"%char) in Hv by (intros ->; by vm_compute in Hcd). done.
  - destruct (utoa_printable n ltac:(lia)) as [-> ->]. done.
Qed.

Definition fields_printable (l : list (str * json)) : bool := forallb field_printable l.

Lemma fields_app l1 l2 :
  fields_printable (l1 ++ l2) = fields_printable l1 && fields_printable l2.
Proof. apply forallb_app. Qed.

Section printable_fields.
Context (k : string) (Hk : ValidString (lit k) = true).

Lemma fp_one v : printable v = true -> fields_printable [(lit k, v)] = true.
Proof. intros Hv. unfold fields_printable, field_printable. cbn [forallb fst snd]. by rewrite Hk, Hv. Qed.

Lemma fp_str s : ValidString s = true -> fields_printable (fstr k s) = true.
Proof. intros H. by apply fp_one. Qed.
Lemma fp_ostr s : ValidString s = true -> fields_printable (ostr k s) = true.
Proof. intros H. destruct s; [done|]. by apply fp_one. Qed.
Lemma fp_int n : fields_printable (fint k n) = true.
Proof. apply fp_one, itoa_printable. Qed.
Lemma fp_oint n : fields_printable (oint k n) = true.
Proof. unfold oint. destruct (n =? 0); [done|]. apply fp_one, itoa_printable. Qed.
Lemma fp_obool b : fields_printable (obool k b) = true.
Proof. destruct b; [|done]. by apply fp_one. Qed.
Lemma fp_ostrs l : forallb ValidString l = true -> fields_printable (ostrs k l) = true.
Proof.
  intros H. destruct l as [|s l]; [done|]. apply fp_one. cbn [printable].
  revert H. generalize (s :: l). intros l'. induction l' as [|x l' IH]; [done|].
  cbn [map forallb]. rewrite !andb_true_iff. intros [Hx Hl]. by rewrite IH.
Qed.
End printable_fields.

Ltac solve_printable :=
  repeat rewrite fields_app;
  repeat match goal with |- _ && _ = true => apply andb_true_intro; split end;
  first [ apply fp_str; [reflexivity|done] | apply fp_ostr; [reflexivity|done]
        | apply fp_int; reflexivity | apply fp_oint; reflexivity | apply fp_obool; reflexivity
        | apply fp_ostrs; [reflexivity|done] | idtac ].

Lemma trip_fields_printable t : trip_text_ok t = true -> fields_printable (trip_fields t) = true.
Proof.
  unfold trip_text_ok, trip_fields. cbn [forallb]. rewrite !andb_true_iff. intros H.
  destruct_and! H. solve_printable.
Qed.

Lemma wire_fields_printable w : wire_text_ok w = true -> fields_printable (wire_fields w) = true.
Proof.
  unfold wire_text_ok, wire_fields. cbn [forallb]. rewrite !andb_true_iff. intros H.
  destruct_and! H. solve_printable.
  unfold otrip. destruct (wm_Trip w) as [t|]; [|done]. apply fp_one; [reflexivity|].
  by apply trip_fields_printable.
Qed.

(** Every field of a struct is a scalar, a list of scalars or a struct of
    scalars. *)
Definition depth_le (n : Z) (l : list (str * json)) : Prop :=
  Forall (fun kv => jdepth kv.2 <= n) l.

Lemma depth_le_obj n l : 0 <= n -> depth_le n l -> jdepth (JObj l) <= 1 + n.
Proof.
  intros Hn H. cbn [jdepth]. enough (fold_right Z.max 0 (map (fun kv : str * json => jdepth kv.2) l) <= n) by lia.
  induction H; simpl; lia.
Qed.

Lemma jdepth_strs l : jdepth (JArr (map JStr l)) <= 1.
Proof.
  cbn [jdepth]. enough (fold_right Z.max 0 (map jdepth (map JStr l)) <= 0) by lia.
  induction l; simpl in *; lia.
Qed.

Ltac solve_depth :=
  unfold fstr, ostr, fint, oint, obool, ostrs, otrip;
  repeat apply Forall_app_2;
  repeat case_match; subst; repeat constructor; cbn [snd jdepth]; try lia.

Lemma trip_fields_depth t : depth_le 0 (trip_fields t).
Proof. unfold trip_fields, depth_le. solve_depth. Qed.

Lemma wire_fields_depth w : depth_le 1 (wire_fields w).
Proof.
  unfold wire_fields, depth_le. solve_depth.
  - apply jdepth_strs.
  - apply (depth_le_obj 0), trip_fields_depth. lia.
Qed.

(** A struct printed and parsed gives its fields back. *)
Lemma parse_fields l n :
  fields_printable l = true -> 0 <= n < maxNestingDepth -> depth_le n l ->
  parse (print (JObj l)) = Some (JObj l).
Proof.
  intros Hp Hn Hd. apply parse_print; [exact Hp|]. pose proof (depth_le_obj n l ltac:(lia) Hd). lia.
Qed.

Lemma wire_roundtrip_read w :
  wire_text_ok w = true -> wire_ranges w -> unmarshal_wire (marshal_wire w) = Some w.
Proof.
  intros Ht Hr. unfold unmarshal_wire, marshal_wire.
  rewrite (parse_fields _ 1); [|by apply wire_fields_printable|by vm_compute|apply wire_fields_depth].
  by apply wire_fields_read.
Qed.

(** C39. What one side sends with [json.Marshal], the other side's
    [json.Unmarshal] reads back unchanged, for every message whose strings
    are valid UTF-8 and whose integers fit their fields. *)
Theorem wire_roundtrip w :
  wire_text_ok w = true -> wire_ranges w -> unmarshal_wire (marshal_wire w) = Some w.
Proof. apply wire_roundtrip_read. Qed.

Definition sample_chat : WireMessage :=
  mkWire (lit "chat") (lit "15:04:05") (lit "An#a1b2c3d4") [] 0 [] 0 0 0 [] [] [] (lit "hé <b>") None 9 4 [] [] 3 2 7 [].

Lemma wire_roundtrip_witness : unmarshal_wire (marshal_wire sample_chat) = Some sample_chat.
Proof.
  apply wire_roundtrip; [reflexivity|]. unfold wire_ranges, is_u64, is_i64. cbn. repeat split; lia.
Defined.
