(* ===== verification/ChainLink.v ===== *)
(** The hash chain of [lib/chain/chain.go]: the link encodings (the current one
    and the one before [replyTo] was covered), the seeds of the chain, the
    verification of a link and the parser of the hex fields that carry it.
    A [[32]byte] is a byte string of length 32. *)

From S2P Require Import Prelude Bytes Sha2 Utf8 Wire.
Local Open Scope Z_scope.

Definition domainLink : str := lit "V2V-chain-v1".
Definition domainGenesis : str := lit "V2V-chain-genesis".
Definition domainLegacy : str := lit "V2V-chain-legacy-anchor".

Definition nul : ascii := byte_of 0.

(** The [put] closure: a length-prefixed field. *)
Definition put_field (b : str) : str := uvarint (slen b) ++ b.

(** The bytes [Hash] feeds to SHA-256. *)
Definition link_input (prev : str) (height tmpID replyTo : Z) (typ tim display text tripSig : str) : str :=
  domainLink ++ nul :: put_field prev ++ uvarint height ++ uvarint tmpID ++ uvarint replyTo ++
  put_field typ ++ put_field tim ++ put_field display ++ put_field text ++ put_field tripSig.

Definition Hash prev height tmpID replyTo typ tim display text tripSig : str :=
  sha256 (link_input prev height tmpID replyTo typ tim display text tripSig).

(** The encoding before [replyTo] was covered. *)
Definition link_input_v1 (prev : str) (height tmpID : Z) (typ tim display text tripSig : str) : str :=
  domainLink ++ nul :: put_field prev ++ uvarint height ++ uvarint tmpID ++
  put_field typ ++ put_field tim ++ put_field display ++ put_field text ++ put_field tripSig.

Definition hashV1 prev height tmpID typ tim display text tripSig : str :=
  sha256 (link_input_v1 prev height tmpID typ tim display text tripSig).

Definition Genesis `{Unicode} (serverPubHex : str) : str :=
  sha256 (domainGenesis ++ nul :: ToLower (TrimSpace serverPubHex)).

Definition LegacyAnchor (lastLegacyMsg : str) : str :=
  sha256 (domainLegacy ++ nul :: lastLegacyMsg).

Definition VerifyLink prev height tmpID replyTo typ tim display text tripSig want : bool :=
  str_eqb (Hash prev height tmpID replyTo typ tim display text tripSig) want.

Definition VerifyLinkV1 prev height tmpID typ tim display text tripSig want : bool :=
  str_eqb (hashV1 prev height tmpID typ tim display text tripSig) want.

Definition TripSigOf (w : WireMessage) : str :=
  match wm_Trip w with Some t => tm_Sig t | None => [] end.

Definition VerifyWire (prev : str) (w : WireMessage) (want : str) : bool :=
  if 2 <=? wm_ChainVer w then
    VerifyLink prev (wm_ChainHeight w) (wm_TmpID w) (wm_ReplyTo w) (wm_Type w) (wm_Time w)
      (wm_DisplayName w) (wm_Text w) (TripSigOf w) want
  else
    VerifyLinkV1 prev (wm_ChainHeight w) (wm_TmpID w) (wm_Type w) (wm_Time w)
      (wm_DisplayName w) (wm_Text w) (TripSigOf w) want.

(** A 64-character hex hash, or nothing ([false]). *)
Definition ParseHex64 (s : str) : option str :=
  if negb (slen s =? 64) then None
  else match hex_decode s with
       | Some b => if slen b =? 32 then Some b else None
       | None => None
       end.

(** * Theorems *)

Lemma put_field_prefix_free x y s t :
  is_u64 (slen x) -> is_u64 (slen y) ->
  put_field x ++ s = put_field y ++ t -> x = y /\ s = t.
Proof.
  intros Hx Hy H. unfold put_field in H. rewrite <- !app_assoc in H.
  apply uvarint_prefix_free in H as [Hl H]; [|done|done].
  apply app_inj_1 in H; [done|]. unfold slen in Hl. lia.
Qed.

(** A string the program can hold has a 64-bit length. *)
Definition fits (s : str) : Prop := is_u64 (slen s).

Lemma fits_small s : (length s < 1000)%nat -> fits s.
Proof. unfold fits, is_u64, slen. lia. Qed.

(** What a link binds: everything but the clock-independent bookkeeping
    fields. *)
Definition linkable (w : WireMessage) : Prop :=
  is_u64 (wm_ChainHeight w) /\ is_u64 (wm_TmpID w) /\ is_u64 (wm_ReplyTo w) /\
  fits (wm_Type w) /\ fits (wm_Time w) /\ fits (wm_DisplayName w) /\ fits (wm_Text w) /\
  fits (TripSigOf w).

Definition wire_input (prev : str) (w : WireMessage) : str :=
  if 2 <=? wm_ChainVer w then
    link_input prev (wm_ChainHeight w) (wm_TmpID w) (wm_ReplyTo w) (wm_Type w) (wm_Time w)
      (wm_DisplayName w) (wm_Text w) (TripSigOf w)
  else
    link_input_v1 prev (wm_ChainHeight w) (wm_TmpID w) (wm_Type w) (wm_Time w)
      (wm_DisplayName w) (wm_Text w) (TripSigOf w).

Lemma VerifyWire_input prev w want :
  VerifyWire prev w want = true <-> sha256 (wire_input prev w) = want.
Proof.
  unfold VerifyWire, VerifyLink, VerifyLinkV1, Hash, hashV1, wire_input, str_eqb.
  destruct (2 <=? wm_ChainVer w); apply bool_decide_eq_true.
Qed.

(** Peel one field of two equal encodings. *)
Ltac peel H :=
  first [ apply put_field_prefix_free in H as [? H]; [|assumption..]
        | apply uvarint_prefix_free in H as [? H]; [|assumption..] ].

Lemma link_input_inj prev prev' w w' :
  fits prev -> fits prev' -> linkable w -> linkable w' ->
  2 <= wm_ChainVer w -> 2 <= wm_ChainVer w' ->
  wire_input prev w = wire_input prev' w' ->
  prev = prev' /\ wm_ChainHeight w = wm_ChainHeight w' /\ wm_TmpID w = wm_TmpID w' /\
  wm_ReplyTo w = wm_ReplyTo w' /\ wm_Type w = wm_Type w' /\ wm_Time w = wm_Time w' /\
  wm_DisplayName w = wm_DisplayName w' /\ wm_Text w = wm_Text w' /\ TripSigOf w = TripSigOf w'.
Proof.
  unfold linkable, fits. intros Hp Hp' Hw Hw' Hv Hv' H. destruct_and! Hw. destruct_and! Hw'.
  unfold wire_input in H. rewrite (proj2 (Z.leb_le _ _) Hv), (proj2 (Z.leb_le _ _) Hv') in H.
  unfold link_input in H. apply app_inv_head in H. injection H as H.
  do 8 peel H. rewrite <- (app_nil_r (put_field (TripSigOf w))), <- (app_nil_r (put_field (TripSigOf w'))) in H.
  peel H. done.
Qed.

(** C29. A v2 link binds the message: two records that verify against the same
    hash agree on the previous hash, the height, the ids, the sender, the text,
    the time and the signature, or a SHA-256 collision is exhibited. *)
Theorem link_binds prev prev' w w' want :
  length prev = 32%nat -> length prev' = 32%nat -> linkable w -> linkable w' ->
  2 <= wm_ChainVer w -> 2 <= wm_ChainVer w' ->
  VerifyWire prev w want = true -> VerifyWire prev' w' want = true ->
  (prev = prev' /\ wm_ChainHeight w = wm_ChainHeight w' /\ wm_TmpID w = wm_TmpID w' /\
   wm_ReplyTo w = wm_ReplyTo w' /\ wm_Type w = wm_Type w' /\ wm_Time w = wm_Time w' /\
   wm_DisplayName w = wm_DisplayName w' /\ wm_Text w = wm_Text w' /\ TripSigOf w = TripSigOf w')
  \/ collides (wire_input prev w) (wire_input prev' w').
Proof.
  intros Hp Hp' Hw Hw' Hv Hv' H1 H2. apply VerifyWire_input in H1, H2. rewrite <- H2 in H1.
  apply sha256_eq_or_collides in H1 as [H|H]; [left|by right].
  by apply link_input_inj; try (apply fits_small; lia).
Qed.

Definition sample_wire : WireMessage :=
  mkWire (lit "chat") (lit "15:04:05") (lit "An#a1b2c3d4") [] 0 [] 0 0 0 [] [] [] (lit "hi") None 9 4 [] [] 3 2 0 [].

Lemma link_binds_witness :
  (wm_Text sample_wire = wm_Text sample_wire).
Proof.
  assert (linkable sample_wire) as Hl.
  { unfold linkable, fits, is_u64. repeat split; vm_compute; congruence. }
  assert (length (sha256 []) = 32%nat) as Hn by apply length_sha256.
  destruct (link_binds (sha256 []) (sha256 []) sample_wire sample_wire
              (sha256 (wire_input (sha256 []) sample_wire))) as [H|H];
    [exact Hn|exact Hn|exact Hl|exact Hl|vm_compute; discriminate|vm_compute; discriminate
    |apply VerifyWire_input; exact eq_refl|apply VerifyWire_input; exact eq_refl|exact eq_refl|exact eq_refl].
Defined.

(** [ParseHex64] accepts exactly the 64-character hex strings, and what it
    returns is the 32 bytes they stand for: encoding a hash and parsing it is
    the identity, and anything of another length or with a byte that is not a
    hex digit is refused. *)
Theorem ParseHex64_spec s b :
  (ParseHex64 s = Some b -> length b = 32%nat /\ hex_decode s = Some b) /\
  (length b = 32%nat -> ParseHex64 (hex_encode b) = Some b) /\
  (length s <> 64%nat -> ParseHex64 s = None).
Proof.
  unfold ParseHex64, slen. split; [|split].
  - destruct (negb _); [done|]. destruct (hex_decode s) as [b'|]; [|done].
    destruct (_ =? 32) eqn:E; [|done]. intros [= ->]. split; [lia|done].
  - intros Hb. rewrite length_hex_encode, hex_decode_encode, Hb. done.
  - intros Hs. replace (Z.of_nat (length s) =? 64) with false by lia. done.
Qed.

Lemma ParseHex64_spec_witness :
  ParseHex64 (hex_encode (sha256 (lit "abc"))) = Some (sha256 (lit "abc")).
Proof.
  apply (proj1 (proj2 (ParseHex64_spec [] (sha256 (lit "abc"))))). apply length_sha256.
Defined.

(** The parser also accepts upper-case digits. *)
Example ParseHex64_upper :
  ParseHex64 (repeat "A"%char 64) = Some (repeat (byte_of 170) 32).
Proof. vm_compute. reflexivity. Qed.

(** * The two encodings share one domain

    Both encodings start with the same separator, and [chain_ver] is not
    covered.  A v2 record whose quoted id [replyTo] equals the length of the
    bytes up to a point inside its text also reads as a v1 record of another
    sender and another text. *)

Definition confused_text : str :=
  lit ">>" ++ put_field (lit "15:04:06") ++ put_field (lit "Eve#ffff0000") ++ put_field (lit "pay Eve").

Definition confused_v2 : WireMessage :=
  mkWire (lit "chat") (lit "15:04:05") (lit "An#a1b2c3d4") [] 0 [] 0 0 0 [] [] [] confused_text None
    40 29 [] [] 3 2 0 [].

(** Its [type] is everything before the point: 29 bytes. *)
Definition confused_v1 : WireMessage :=
  mkWire (put_field (lit "chat") ++ put_field (lit "15:04:05") ++ put_field (lit "An#a1b2c3d4") ++
            uvarint (slen confused_text) ++ lit ">>")
    (lit "15:04:06") (lit "Eve#ffff0000") [] 0 [] 0 0 0 [] [] [] (lit "pay Eve") None 40 0 [] [] 3 0 0 [].

(** One hash verifies both records: dropping [chain_ver] and moving the field
    boundaries changes sender and text without breaking the link. *)
Lemma encodings_confused prev want :
  VerifyWire prev confused_v2 want = VerifyWire prev confused_v1 want /\
  wm_DisplayName confused_v2 <> wm_DisplayName confused_v1 /\
  wm_Text confused_v2 <> wm_Text confused_v1.
Proof.
  split; [|split; by vm_compute].
  assert (wire_input prev confused_v2 = wire_input prev confused_v1) as H.
  { unfold wire_input. cbn -[put_field uvarint link_input link_input_v1 confused_text].
    unfold link_input, link_input_v1. do 4 f_equal. }
  destruct (VerifyWire prev confused_v1 want) eqn:E.
  - apply VerifyWire_input. rewrite H. by apply VerifyWire_input.
  - apply not_true_is_false. intros E'. apply VerifyWire_input in E'. rewrite H in E'.
    apply VerifyWire_input in E'. congruence.
Qed.
