(* ===== verification/Floats.v ===== *)
(** Go's [float64]: IEEE 754 binary64 with round-to-nearest-even, as the
    Standard Library's executable specification [SpecFloat] defines it. *)

From Stdlib Require Import SpecFloat.
From S2P Require Import Prelude.
Local Open Scope Z_scope.

Abbreviation f64 := spec_float.

Definition f64_prec : Z := 53.
Definition f64_emax : Z := 1024.

Definition fadd : f64 -> f64 -> f64 := SFadd f64_prec f64_emax.
Definition fsub : f64 -> f64 -> f64 := SFsub f64_prec f64_emax.
Definition fmul : f64 -> f64 -> f64 := SFmul f64_prec f64_emax.
Definition fdiv : f64 -> f64 -> f64 := SFdiv f64_prec f64_emax.
Definition fsqrt : f64 -> f64 := SFsqrt f64_prec f64_emax.

(** [a < b] and [a <= b]; false when either side is NaN. *)
Definition flt : f64 -> f64 -> bool := SFltb.
Definition fle : f64 -> f64 -> bool := SFleb.
Definition fgt (a b : f64) : bool := flt b a.
Definition fge (a b : f64) : bool := fle b a.

(** [float64(n)] of an integer. *)
Definition of_int (n : Z) : f64 := binary_normalize f64_prec f64_emax n 0 false.

Definition f0 : f64 := S754_zero false.
Definition f1 : f64 := Eval vm_compute in of_int 1.

(** The constant [n / d] of the source, rounded once. *)
Definition fconst (n d : Z) : f64 := fdiv (of_int n) (of_int d).

(** [Duration.Seconds]. *)
Definition Seconds (d : duration) : f64 :=
  fadd (of_int (Z.quot d Second)) (fdiv (of_int (Z.rem d Second)) (of_int Second)).

(** [int(f)]: truncation toward zero (out of range: the minimum, as on amd64). *)
Definition to_int (f : f64) : Z :=
  match f with
  | S754_zero _ => 0
  | S754_finite s m e =>
      let v := if 0 <=? e then Z.pos m * 2 ^ e else Z.pos m / 2 ^ (- e) in
      let n := if s then - v else v in
      if (- 2 ^ 63 <=? n) && (n <? 2 ^ 63) then n else - 2 ^ 63
  | _ => - 2 ^ 63
  end.


(** [Duration.Hours] and [Duration.Minutes]. *)
Definition Hours (d : duration) : f64 :=
  fadd (of_int (Z.quot d Hour)) (fdiv (of_int (Z.rem d Hour)) (of_int Hour)).
Definition Minutes (d : duration) : f64 :=
  fadd (of_int (Z.quot d Minute)) (fdiv (of_int (Z.rem d Minute)) (of_int Minute)).

(** [math.Round]: to the nearest integer, halves away from zero. *)
Definition fround (f : f64) : f64 :=
  match f with
  | S754_finite s m e =>
      if 0 <=? e then f
      else
        let n := (2 * Z.pos m + 2 ^ (- e)) / 2 ^ (- e + 1) in
        if n =? 0 then S754_zero s else of_int (if s then - n else n)
  | _ => f
  end.

Definition is_nan (f : f64) : bool := match f with S754_nan => true | _ => false end.

Lemma flt_irrefl a : flt a a = false.
Proof.
  unfold flt, SFltb. destruct a as [|s| |s m e]; simpl; [done|by destruct s|done|].
  unfold Pos.compare. rewrite Z.compare_refl.
  replace (Pos.compare_cont Eq m m) with Eq by (symmetry; apply Pos.compare_refl). by destruct s.
Qed.

(** ** The order

    Comparison is lexicographic on the sign class, the exponent and the
    mantissa. *)
Definition fkey (f : f64) : option (Z * Z * Z) :=
  match f with
  | S754_zero _ => Some (0, 0, 0)
  | S754_infinity true => Some (-2, 0, 0)
  | S754_infinity false => Some (2, 0, 0)
  | S754_nan => None
  | S754_finite true m e => Some (-1, - e, Z.neg m)
  | S754_finite false m e => Some (1, e, Z.pos m)
  end.

Definition key_lt (a b : Z * Z * Z) : bool :=
  (a.1.1 <? b.1.1) || ((a.1.1 =? b.1.1) && ((a.1.2 <? b.1.2) || ((a.1.2 =? b.1.2) && (a.2 <? b.2)))).

Lemma SFcompare_key a b :
  SFcompare a b =
  match fkey a, fkey b with
  | Some x, Some y => Some (if key_lt x y then Lt else if key_lt y x then Gt else Eq)
  | _, _ => None
  end.
Proof.
  destruct a as [sa|[]| |[] ma ea], b as [sb|[]| |[] mb eb]; try reflexivity;
    unfold SFcompare, fkey, key_lt; cbn [fst snd Z.ltb Z.eqb Z.compare Pos.compare Pos.compare_cont orb andb CompOpp];
    try change (Pos.compare_cont Eq ma mb) with (Pos.compare ma mb);
    destruct (Z.compare_spec ea eb) as [->|He|He]; try destruct (Pos.compare_spec ma mb) as [->|Hm|Hm];
    cbn [CompOpp]; repeat match goal with |- context [?x <? ?y] => destruct (Z.ltb_spec x y); try lia end;
    repeat match goal with |- context [?x =? ?y] => destruct (Z.eqb_spec x y); try lia end; try done; exfalso; lia.
Qed.

Lemma flt_key a b :
  flt a b = match fkey a, fkey b with Some x, Some y => key_lt x y | _, _ => false end.
Proof.
  unfold flt, SFltb. rewrite SFcompare_key. destruct (fkey a) as [x|], (fkey b) as [y|]; try done.
  destruct (key_lt x y); [done|]. by destruct (key_lt y x).
Qed.

Lemma fle_key a b :
  fle a b = match fkey a, fkey b with Some x, Some y => negb (key_lt y x) | _, _ => false end.
Proof.
  unfold fle, SFleb. rewrite SFcompare_key. destruct (fkey a) as [x|], (fkey b) as [y|]; try done.
  unfold key_lt. repeat match goal with |- context [?x <? ?y] => destruct (Z.ltb_spec x y) end;
    repeat match goal with |- context [?x =? ?y] => destruct (Z.eqb_spec x y) end; try lia; done.
Qed.

Ltac float_order :=
  rewrite ?flt_key, ?fle_key in *;
  repeat match goal with H : context [fkey _] |- _ => revert H end;
  repeat match goal with
  | |- context [fkey ?f] => destruct (fkey f) as [[[? ?] ?]|]
  end; intros; try done; unfold key_lt in *; cbn [fst snd] in *; bool_lia.

Lemma fkey_nan f : fkey f = None <-> is_nan f = true.
Proof. by destruct f as [|[]| |[]]. Qed.

Lemma fle_trans a b c : fle a b = true -> fle b c = true -> fle a c = true.
Proof. intros H1 H2. float_order. Qed.

Lemma flt_le_trans a b c : flt a b = true -> fle b c = true -> flt a c = true.
Proof. intros H1 H2. float_order. Qed.

Lemma fle_lt_trans a b c : fle a b = true -> flt b c = true -> flt a c = true.
Proof. intros H1 H2. float_order. Qed.

Lemma flt_not_le a b : flt a b = true -> fle b a = false.
Proof. intros H. float_order. Qed.

Lemma fle_not_lt a b : fle a b = true -> flt b a = false.
Proof. intros H. float_order. Qed.

Lemma not_flt_le a b : is_nan a = false -> is_nan b = false -> flt a b = false -> fle b a = true.
Proof.
  intros Ha Hb H. assert (fkey a <> None /\ fkey b <> None) as [? ?].
  { rewrite !fkey_nan. split; congruence. }
  float_order.
Qed.

Lemma fle_refl a : is_nan a = false -> fle a a = true.
Proof. intros Ha. apply not_flt_le; [done|done|apply flt_irrefl]. Qed.

Lemma fle_no_nan a b : fle a b = true -> is_nan a = false /\ is_nan b = false.
Proof. by destruct a as [|[]| |[]], b as [|[]| |[]]. Qed.

Example fadd_ex : fadd (fconst 1 10) (fconst 2 10) = fconst 30000000000000004 100000000000000000.
Proof. vm_compute. reflexivity. Qed.

Example seconds_ex : Seconds 1500000000 = fconst 3 2.
Proof. vm_compute. reflexivity. Qed.

Example fround_ex : (to_int (fround (fconst 5 2)), to_int (fround (fconst (-5) 2)), to_int (fround (fconst 12 5))) = (3, -3, 2).
Proof. vm_compute. reflexivity. Qed.
