(* ===== verification/Filter.v ===== *)
(** [lib/filter/filter.go]: what a chat message, a display name and a prefix may
    contain, and how untrusted text is cleaned before it reaches a terminal.
    A [for range] loop runs over the segments of {!Utf8.segs}; the byte loop of
    [SanitizeForDisplay] is a step function iterated until the input is used up. *)

From S2P Require Import Prelude Bytes Utf8.
Local Open Scope Z_scope.

(** * Errors *)

(** The reasons wrapped in [ErrInvalidCharacter], [ErrInvalidDisplayName] and
    [ErrInvalidDisplayPrefix]. *)
Inductive char_error :=
| InvalidUtf8
| BadFFFD
| BadCf (r : Z)
| BadMnMe (r : Z)
| BadZlZp (r : Z)
| NonGraphic (r : Z)
| BadRune (r : Z)
| NoLetterOrDigit.

Definition newline : Z := 10.

Section filter.
Context {U : Unicode}.

(** * Validation *)

Fixpoint validate_runes (rs : list Z) : res char_error unit :=
  match rs with
  | [] => Ok tt
  | r :: rs' =>
      if r =? newline then validate_runes rs'
      else if r =? RuneError then Err BadFFFD
      else if IsCf r then Err (BadCf r)
      else if IsMn r || IsMe r then Err (BadMnMe r)
      else if IsZl r || IsZp r then Err (BadZlZp r)
      else if negb (IsGraphic r) then Err (NonGraphic r)
      else validate_runes rs'
  end.

Definition ValidateMessage (text : str) : res char_error unit :=
  if negb (ValidString text) then Err InvalidUtf8 else validate_runes (runes text).

Definition displayNameSeparators : list Z := Eval vm_compute in runes (lit " _-.'").
Definition displayStructuralRunes : list Z := Eval vm_compute in runes (lit "|•#:✍◆↩┌└─·").

Definition ContainsRune (set : list Z) (r : Z) : bool := existsb (Z.eqb r) set.

Definition displayLegacyAllowed (r : Z) : bool :=
  if (r =? newline) || (r =? RuneError) then false
  else if IsCf r then false
  else if IsMn r || IsMe r then false
  else if IsZl r || IsZp r then false
  else if negb (IsGraphic r) && negb (r =? 32) then false
  else true.

Fixpoint name_runes (rs : list Z) (hasLetterOrDigit : bool) : res char_error unit :=
  match rs with
  | [] => if hasLetterOrDigit then Ok tt else Err NoLetterOrDigit
  | r :: rs' =>
      if IsLetter r || IsDigit r then name_runes rs' true
      else if IsMc r then name_runes rs' hasLetterOrDigit
      else if ContainsRune displayNameSeparators r then name_runes rs' hasLetterOrDigit
      else Err (BadRune r)
  end.

Definition ValidateDisplayName (name : str) : res char_error unit :=
  if negb (ValidString name) then Err InvalidUtf8 else name_runes (runes name) false.

Fixpoint prefix_runes (rs : list Z) : res char_error unit :=
  match rs with
  | [] => Ok tt
  | r :: rs' =>
      if ContainsRune displayStructuralRunes r || negb (displayLegacyAllowed r)
      then Err (BadRune r) else prefix_runes rs'
  end.

Definition ValidateDisplayPrefix (prefix : str) : res char_error unit :=
  if negb (ValidString prefix) then Err InvalidUtf8 else prefix_runes (runes prefix).

(** * Stored display names *)

Definition is_hex (c : ascii) : bool := match hex_val c with Some _ => true | None => false end.
Definition isHexDigits (s : str) : bool :=
  match s with [] => false | _ => forallb is_hex s end.
Definition isDecimalDigits (s : str) : bool :=
  match s with [] => false | _ => forallb is_digit s end.

Definition splitDisplayHashSuffix (name : str) : str * str :=
  match cut_last_byte "#"%char name with
  | None => (name, [])
  | Some (body, digits0) =>
      let tail := "#"%char :: digits0 in
      let check digits :=
        if (slen digits <? 4) || (6 <? slen digits) || negb (isHexDigits digits)
        then (name, []) else (body, tail) in
      match cut_last_byte "-"%char digits0 with
      | Some (digits, serial) =>
          if negb (isDecimalDigits serial) then (name, []) else check digits
      | None => check digits0
      end
  end.

Definition ContainsAny (s : str) (set : list Z) : bool := existsb (ContainsRune set) (runes s).

Definition neutral_rune (r : Z) : str :=
  if ContainsRune displayStructuralRunes r then lit "?" else encode_rune r.

Definition NeutralizeDisplayName (name : str) : str :=
  let '(body, tail) := splitDisplayHashSuffix name in
  if negb (ContainsAny body displayStructuralRunes) then name
  else flat_map neutral_rune (runes body) ++ tail.

(** * Terminal output *)

Definition ESC : ascii := byte_of 27.

(** The final byte of a control sequence. *)
Definition csi_final (c : ascii) : bool := (64 <=? byte_val c) && (byte_val c <=? 126).
Definition sgr_stop (c : ascii) : bool := byte_eqb c "m"%char || csi_final c.

Definition ctl_byte (c : ascii) : bool := (byte_val c <? 32) || (byte_val c =? 127).

(** Up to the first string terminator [ESC \]. *)
Fixpoint cut_st (s : str) : option (str * str) :=
  match s with
  | [] => None
  | c :: s' =>
      match s' with
      | d :: s'' =>
          if byte_eqb c ESC && byte_eqb d "\"%char then Some ([], s'')
          else match cut_st s' with Some (a, b) => Some (c :: a, b) | None => None end
      | [] => None
      end
  end.

Definition osc8TargetAllowed (payload : str) : bool :=
  if existsb ctl_byte payload then false
  else match payload with
  | a :: b :: rest =>
      if negb (byte_eqb a "8"%char) || negb (byte_eqb b ";"%char) then false
      else match cut_byte ";"%char rest with
      | None => false
      | Some (_, uri) =>
          match uri with
          | [] => true
          | _ => let lower := ToLower uri in
                 has_prefix lower (lit "http://") || has_prefix lower (lit "https://")
          end
      end
  | _ => false
  end.

(** The runes the cleaner keeps. *)
Definition display_rune (r : Z) : bool :=
  if r =? RuneError then false
  else if IsCf r || IsMn r || IsMe r || IsZl r || IsZp r then false
  else if negb (IsGraphic r) && negb (r =? newline) && negb (r =? 32) && negb (r =? 9) then false
  else true.

(** One turn of the loop on a non-empty input: the bytes written and the
    input left.  An unterminated OSC returns, so nothing is left. *)
Definition sanitize_step (s : str) : str * str :=
  match s with
  | [] => ([], [])
  | c :: s1 =>
      if byte_eqb c ESC then
        match s1 with
        | d :: s2 =>
            if byte_eqb d "["%char then
              let '(par, rest) := span (fun x => negb (sgr_stop x)) s2 in
              match rest with
              | e :: rest' =>
                  if byte_eqb e "m"%char then (c :: d :: par ++ [e], rest')
                  else ([], tail (span (fun x => negb (csi_final x)) rest).2)
              | [] => ([], [])
              end
            else if byte_eqb d "]"%char then
              match cut_st s2 with
              | None => ([], [])
              | Some (payload, rest) =>
                  (if osc8TargetAllowed payload then c :: d :: payload ++ [ESC; "\"%char] else [], rest)
              end
            else ([], s1)
        | [] => ([], s1)
        end
      else
        let '(r, size) := decode_rune s in
        (if display_rune r then encode_rune r else [], drop size s)
  end.

Fixpoint sanitize (fuel : nat) (s : str) : str :=
  match fuel, s with
  | S fuel', _ :: _ => let '(out, rest) := sanitize_step s in out ++ sanitize fuel' rest
  | _, _ => []
  end.

(** Every turn consumes a byte, so [length s] turns are enough. *)
Definition SanitizeForDisplay (s : str) : str := sanitize (length s) s.

Definition SanitizeSingleLine (s : str) : str :=
  strings_map (fun r => if (r =? 10) || (r =? 13) then -1 else r) (SanitizeForDisplay s).

Definition CleanHistoryMessage (s : str) : str :=
  strings_map (fun r => if r =? RuneError then -1 else r) s.
End filter.

Arguments ContainsRune : simpl never.

(** * Runes the validators accept *)

Section theorems.
Context {U : Unicode}.

Definition message_rune (r : Z) : bool :=
  (r =? newline) ||
  negb ((r =? RuneError) || IsCf r || IsMn r || IsMe r || IsZl r || IsZp r) && IsGraphic r.

Lemma validate_runes_ok rs : validate_runes rs = Ok tt <-> forallb message_rune rs = true.
Proof.
  induction rs as [|r rs IH]; simpl; [done|]. unfold message_rune at 1.
  destruct (r =? newline); [done|]. destruct (r =? RuneError); [done|].
  destruct (IsCf r); [done|]. destruct (IsMn r); [done|]. destruct (IsMe r); [done|].
  destruct (IsZl r); [done|]. destruct (IsZp r); [done|]. destruct (IsGraphic r); done.
Qed.

(** A chat message is accepted exactly when it is valid UTF-8 and each of
    its runes is a newline or a graphic rune other than U+FFFD, a format
    control, a non-spacing or enclosing mark or a line separator. *)
Theorem ValidateMessage_spec text :
  ValidateMessage text = Ok tt <->
  ValidString text = true /\
  (forall r, r ∈ runes text ->
     r = newline \/
     (r <> RuneError /\ IsGraphic r = true /\ IsCf r = false /\ IsMn r = false /\
      IsMe r = false /\ IsZl r = false /\ IsZp r = false)).
Proof.
  unfold ValidateMessage. destruct (ValidString text); simpl; [|naive_solver].
  rewrite validate_runes_ok, forallb_forall.
  setoid_rewrite <- list_elem_of_In. unfold message_rune. split.
  - intros H. split; [done|]. intros r Hr. specialize (H r Hr).
    destruct (r =? newline) eqn:E; [left; lia|right]. simpl in H.
    rewrite andb_true_iff, negb_true_iff, !orb_false_iff in H. destruct_and! H. repeat split; try done. lia.
  - intros [_ H] r Hr. destruct (H r Hr) as [->|(H1 & H2 & H3 & H4 & H5 & H6 & H7)]; [done|].
    apply Z.eqb_neq in H1. rewrite H1, H2, H3, H4, H5, H6, H7. apply orb_true_r.
Qed.

(** ** Display names *)

Definition name_rune (r : Z) : bool :=
  IsLetter r || IsDigit r || IsMc r || ContainsRune displayNameSeparators r.

Lemma name_runes_ok rs b :
  name_runes rs b = Ok tt <->
  forallb name_rune rs = true /\ (b = true \/ existsb (fun r => IsLetter r || IsDigit r) rs = true).
Proof.
  revert b. induction rs as [|r rs IH]; intros b; simpl; [destruct b; naive_solver|].
  unfold name_rune at 1. destruct (IsLetter r || IsDigit r); simpl; [rewrite IH; naive_solver|].
  destruct (IsMc r); simpl; [apply IH|]. destruct (ContainsRune _ r); simpl; [apply IH|].
  split; [done|]. by intros [? _].
Qed.

Lemma ContainsRune_elem set r : ContainsRune set r = true <-> r ∈ set.
Proof.
  unfold ContainsRune. rewrite existsb_exists. setoid_rewrite <- list_elem_of_In.
  split; [intros (x & Hx & E); by assert (r = x) as -> by lia|].
  intros H. exists r. split; [done|]. lia.
Qed.

(** The runes a header is built from are punctuation or symbols, as the
    Unicode tables have them. *)
Definition structural_symbols : Prop :=
  forall r, r ∈ displayStructuralRunes -> 128 <= r -> uni_category r = So \/ uni_category r = Po.

Lemma structural_not_name r :
  structural_symbols -> ContainsRune displayStructuralRunes r = true -> name_rune r = false.
Proof.
  intros HU H%ContainsRune_elem.
  assert (r = 124 \/ r = 35 \/ r = 58 \/
          (128 <= r /\ ContainsRune displayNameSeparators r = false /\ category_of r = uni_category r)) as Hr.
  { unfold displayStructuralRunes in H. rewrite !elem_of_cons, elem_of_nil in H.
    destruct_or! H; try done; subst r; try tauto;
      (right; right; right; split; [lia|]; split; [by vm_compute|]);
      match goal with |- category_of ?x = _ =>
        destruct (HU x) as [E|E]; [by apply ContainsRune_elem|lia| |];
          change (category_of x) with (match uni_category x with Zl | Zp => Cn | c => c end); by rewrite E
      end. }
  destruct Hr as [->|[->|[->|(Hge & Hs & Hc)]]]; [done|done|done|].
  unfold name_rune, IsLetter, IsDigit, IsMc. rewrite Hs, Hc. by destruct (HU r H Hge) as [-> | ->].
Qed.

Lemma name_rune_legacy r : name_rune r = true -> displayLegacyAllowed r = true.
Proof.
  intros H. unfold name_rune in H.
  destruct (ContainsRune displayNameSeparators r) eqn:Hs.
  - apply ContainsRune_elem in Hs. unfold displayNameSeparators in Hs.
    rewrite !elem_of_cons, elem_of_nil in Hs. destruct_or! Hs; try done; by subst r.
  - rewrite orb_false_r in H. unfold displayLegacyAllowed.
    destruct (r =? newline) eqn:E1; [apply Z.eqb_eq in E1; subst r; by vm_compute in H|].
    destruct (r =? RuneError) eqn:E2; [apply Z.eqb_eq in E2; subst r; by vm_compute in H|].
    unfold IsLetter, IsDigit, IsMc, IsCf, IsMn, IsMe, IsZl, IsZp, IsGraphic in *.
    by destruct (category_of r).
Qed.

Lemma prefix_runes_ok rs :
  prefix_runes rs = Ok tt <->
  forallb (fun r => negb (ContainsRune displayStructuralRunes r) && displayLegacyAllowed r) rs = true.
Proof.
  induction rs as [|r rs IH]; simpl; [done|].
  destruct (ContainsRune _ r); simpl; [done|]. by destruct (displayLegacyAllowed r).
Qed.

Lemma name_chars_ok name :
  ValidateDisplayName name = Ok tt ->
  ValidString name = true /\ forallb name_rune (runes name) = true /\
  existsb (fun r => IsLetter r || IsDigit r) (runes name) = true.
Proof.
  unfold ValidateDisplayName. destruct (ValidString name); [|done]. simpl.
  rewrite name_runes_ok. naive_solver.
Qed.

(** The display-name allowlist only ever refuses more than the older
    rule: every accepted name is made of runes the older rule allowed, none
    of which builds a header row or a badge, has a letter or digit, and would
    also pass as an admin-authored prefix. *)
Theorem ValidateDisplayName_subset name :
  structural_symbols -> ValidateDisplayName name = Ok tt ->
  (forall r, r ∈ runes name ->
     displayLegacyAllowed r = true /\ r ∉ displayStructuralRunes) /\
  (exists r, r ∈ runes name /\ (IsLetter r || IsDigit r) = true) /\
  ValidateDisplayPrefix name = Ok tt.
Proof.
  intros HU H. apply name_chars_ok in H as (Hv & Hn & He). rewrite forallb_forall in Hn.
  assert (forall r, r ∈ runes name ->
     displayLegacyAllowed r = true /\ ContainsRune displayStructuralRunes r = false) as Hall.
  { intros r Hr. apply list_elem_of_In, Hn in Hr. split; [by apply name_rune_legacy|].
    destruct (ContainsRune displayStructuralRunes r) eqn:E; [|done].
    rewrite structural_not_name in Hr; done. }
  split; [|split].
  - intros r Hr. destruct (Hall r Hr) as [H1 H2]. split; [done|].
    intros H3%ContainsRune_elem. congruence.
  - apply existsb_exists in He as (r & Hr & E). exists r. by rewrite list_elem_of_In.
  - unfold ValidateDisplayPrefix. rewrite Hv. simpl. apply prefix_runes_ok.
    apply forallb_forall. intros r Hr%list_elem_of_In. by destruct (Hall r Hr) as [-> ->].
Qed.

(** ** Neutralised names *)

Lemma ContainsAny_false s set :
  ContainsAny s set = false <-> (forall r, r ∈ runes s -> r ∉ set).
Proof.
  unfold ContainsAny. rewrite <- not_true_iff_false, existsb_exists.
  setoid_rewrite <- list_elem_of_In. setoid_rewrite ContainsRune_elem. naive_solver.
Qed.

Definition neutral (r : Z) : Z := if ContainsRune displayStructuralRunes r then 63 else
  if valid_rune r then r else RuneError.

Lemma neutral_rune_encode r : neutral_rune r = encode_rune (neutral r).
Proof.
  unfold neutral_rune, neutral. destruct (ContainsRune _ r); [done|].
  unfold encode_rune. by destruct (valid_rune r) eqn:E; rewrite ?E.
Qed.

Lemma neutral_valid r : valid_rune (neutral r) = true.
Proof. unfold neutral. destruct (ContainsRune _ r); [done|]. by destruct (valid_rune r) eqn:E. Qed.

Lemma flat_map_neutral rs : flat_map neutral_rune rs = encode (map neutral rs).
Proof. unfold encode. induction rs as [|r rs IH]; simpl; [done|]. by rewrite IH, neutral_rune_encode. Qed.

Lemma runes_neutral rs : runes (flat_map neutral_rune rs) = map neutral rs.
Proof.
  rewrite flat_map_neutral. apply runes_encode, forallb_forall.
  intros r (x & <- & _)%in_map_iff. apply neutral_valid.
Qed.

Lemma neutral_not_structural r : neutral r ∉ displayStructuralRunes.
Proof.
  intros H%ContainsRune_elem. unfold neutral in H.
  destruct (ContainsRune displayStructuralRunes r) eqn:E; [done|].
  destruct (valid_rune r); [congruence|done].
Qed.

(** The split is a split, and a kept tail is "#", hex digits and an optional
    serial. *)
Definition hash_tail (tail : str) : Prop :=
  exists digits, tail = "#"%char :: digits /\ ("#"%char ∉ digits) /\
    forall body, splitDisplayHashSuffix (body ++ tail) = (body, tail).

Lemma split_hash_spec name body tail :
  splitDisplayHashSuffix name = (body, tail) ->
  name = body ++ tail /\ (tail = [] \/ hash_tail tail).
Proof.
  unfold splitDisplayHashSuffix. destruct (cut_last_byte "#"%char name) as [[b0 d0]|] eqn:E.
  2:{ intros [= <- <-]. rewrite app_nil_r. tauto. }
  pose proof (cut_last_byte_Some _ _ _ _ E) as [Hname Hd0]. cbv zeta.
  destruct (cut_last_byte "-"%char d0) as [[digits serial]|] eqn:Es.
  - destruct (negb (isDecimalDigits serial)) eqn:Eser; [intros [= <- <-]; rewrite app_nil_r; tauto|].
    destruct (_ || _) eqn:Ec; intros [= <- <-]; [rewrite app_nil_r; tauto|].
    split; [done|]. right. exists d0. repeat split; [done|]. intros body'.
    unfold splitDisplayHashSuffix. by rewrite cut_last_byte_app, Es, Eser, Ec.
  - destruct (_ || _) eqn:Ec; intros [= <- <-]; [rewrite app_nil_r; tauto|].
    split; [done|]. right. exists d0. repeat split; [done|]. intros body'.
    unfold splitDisplayHashSuffix. by rewrite cut_last_byte_app, Es, Ec.
Qed.

Lemma no_hash_split name : "#"%char ∉ name -> splitDisplayHashSuffix name = (name, []).
Proof. intros H. unfold splitDisplayHashSuffix. apply cut_last_byte_None in H. by rewrite H. Qed.

(** An ASCII byte of a string is one of its runes. *)
Lemma ascii_byte_rune s c : c ∈ s -> byte_val c < 128 -> byte_val c ∈ runes s \/ ValidString s = false.
Proof.
  intros Hc Ha. destruct (ValidString s) eqn:Hv; [left|by right].
  pose proof (segs_bytes s) as Hs. unfold runes. unfold ValidString in Hv. rewrite forallb_forall in Hv.
  rewrite <- Hs in Hc. apply list_elem_of_In, in_flat_map in Hc as (g & Hg & Hc).
  pose proof (seg_valid_encode s g Hg (Hv g Hg)) as [Hr Hb]. rewrite Hb in Hc.
  assert (byte_val c = seg_rune g) as ->; [|apply list_elem_of_In, in_map; done].
  destruct (seg_rune g <? 128) eqn:E.
  - unfold valid_rune in Hr. unfold encode_rune in Hc. unfold valid_rune in Hc.
    repeat (case_match; try (exfalso; lia)). destruct Hc as [<-|[]]. apply byte_val_of. lia.
  - exfalso. unfold encode_rune in Hc. rewrite Hr in Hc. unfold valid_rune in Hr.
    repeat (case_match; try (exfalso; lia)); simpl in Hc;
      destruct_or! Hc; try done; subst c; rewrite byte_val_of in Ha;
      Z.to_euclidean_division_equations; lia.
Qed.

Lemma neutral_clean rs : ContainsAny (flat_map neutral_rune rs) displayStructuralRunes = false.
Proof.
  apply ContainsAny_false. rewrite runes_neutral. intros r (x & -> & _)%list_elem_of_fmap.
  apply neutral_not_structural.
Qed.

Lemma neutral_no_hash rs : "#"%char ∉ flat_map neutral_rune rs.
Proof.
  intros H. assert (ValidString (flat_map neutral_rune rs) = true) as Hv.
  { rewrite flat_map_neutral. apply encode_ValidString, forallb_forall.
    intros r (x & <- & _)%in_map_iff. apply neutral_valid. }
  destruct (ascii_byte_rune _ _ H) as [H'|H']; [by vm_compute| |congruence].
  pose proof (neutral_clean rs) as Hc. rewrite ContainsAny_false in Hc.
  apply (Hc _ H'). apply ContainsRune_elem. by vm_compute.
Qed.

(** Whatever a stored name contains, what is printed is the name's kept
    "#hash" tail after a body with none of the header's runes; a body that
    has none is printed as it is, and neutralising twice changes nothing
    more. *)
Theorem NeutralizeDisplayName_spec name :
  (exists body, NeutralizeDisplayName name = body ++ (splitDisplayHashSuffix name).2 /\
     forall r, r ∈ runes body -> r ∉ displayStructuralRunes) /\
  (ContainsAny (splitDisplayHashSuffix name).1 displayStructuralRunes = false ->
     NeutralizeDisplayName name = name) /\
  NeutralizeDisplayName (NeutralizeDisplayName name) = NeutralizeDisplayName name.
Proof.
  destruct (splitDisplayHashSuffix name) as [body tail] eqn:E. cbn [fst snd].
  pose proof (split_hash_spec _ _ _ E) as [Hn Ht].
  assert (NeutralizeDisplayName name =
    if ContainsAny body displayStructuralRunes then flat_map neutral_rune (runes body) ++ tail else name) as HN.
  { unfold NeutralizeDisplayName. rewrite E. by destruct (ContainsAny _ _). }
  rewrite HN. destruct (ContainsAny body displayStructuralRunes) eqn:Ec.
  - split; [|split; [done|]].
    + eexists. split; [done|]. apply ContainsAny_false, neutral_clean.
    + assert (splitDisplayHashSuffix (flat_map neutral_rune (runes body) ++ tail) =
              (flat_map neutral_rune (runes body), tail)) as Hs.
      { destruct Ht as [->|(d & _ & _ & Ht)]; [|by apply Ht].
        rewrite app_nil_r. apply no_hash_split, neutral_no_hash. }
      unfold NeutralizeDisplayName. by rewrite Hs, neutral_clean.
  - split; [|split; [done|]]; [|by rewrite HN].
    exists body. split; [done|]. by apply ContainsAny_false.
Qed.

(** ** Terminal output *)

(** Text the cleaner may emit: colour sequences, hyperlinks to an allowed
    target, and runes that draw or break a line. *)
Inductive displayable : str -> Prop :=
| disp_nil : displayable []
| disp_sgr par t :
    forallb (fun x => negb (sgr_stop x)) par = true -> displayable t ->
    displayable (ESC :: "["%char :: par ++ "m"%char :: t)
| disp_link payload t :
    osc8TargetAllowed payload = true -> displayable t ->
    displayable (ESC :: "]"%char :: payload ++ ESC :: "\"%char :: t)
| disp_rune r t :
    valid_rune r = true -> display_rune r = true -> displayable t ->
    displayable (encode_rune r ++ t).

Lemma cut_st_Some s a b :
  cut_st s = Some (a, b) -> s = a ++ ESC :: "\"%char :: b.
Proof.
  revert a b. induction s as [|c s IH]; intros a b; [done|]. cbn [cut_st].
  destruct s as [|d s]; [done|].
  destruct (byte_eqb c ESC && byte_eqb d "\"%char) eqn:E.
  - intros [= <- <-]. rewrite andb_true_iff, !byte_eqb_eq in E. by destruct E as [-> ->].
  - destruct (cut_st (d :: s)) as [[a' b']|]; [|done]. intros [= <- <-]. simpl. by rewrite <- (IH a' b').
Qed.

Lemma cut_st_app a b :
  ESC ∉ a -> cut_st (a ++ ESC :: "\"%char :: b) = Some (a, b).
Proof.
  induction a as [|c a IH]; intros Ha; [done|]. apply not_elem_of_cons in Ha as [Hc Ha].
  cbn [app cut_st]. rewrite (byte_eqb_neq c ESC) by done. cbn [andb].
  destruct (a ++ ESC :: "\"%char :: b) as [|d l] eqn:E; [by destruct a|]. by rewrite IH.
Qed.

Lemma osc8_no_esc payload : osc8TargetAllowed payload = true -> ESC ∉ payload.
Proof.
  unfold osc8TargetAllowed. destruct (existsb ctl_byte payload) eqn:E; [done|]. intros _ H.
  rewrite <- not_true_iff_false, existsb_exists in E. apply E. exists ESC.
  split; [by apply list_elem_of_In|done].
Qed.

(** A kept rune is well-formed and does not start an escape. *)
Lemma display_rune_start r t :
  valid_rune r = true -> display_rune r = true ->
  exists c l, encode_rune r ++ t = c :: l /\ byte_eqb c ESC = false.
Proof.
  intros Hv Hd. unfold encode_rune. rewrite Hv. unfold valid_rune in Hv.
  repeat (case_match; try (exfalso; lia)); (eexists _, _; split; [reflexivity|]);
    apply byte_eqb_neq; intros Hb; apply (f_equal byte_val) in Hb;
    rewrite byte_val_of in Hb by (Z.to_euclidean_division_equations; lia);
    vm_compute (byte_val ESC) in Hb; [subst r; by vm_compute in Hd|..];
    Z.to_euclidean_division_equations; lia.
Qed.

Lemma sanitize_step_rest c s : (length (sanitize_step (c :: s)).2 <= length s)%nat.
Proof.
  assert (forall p l, (length (span p l).2 <= length l)%nat) as Hspan.
  { intros p l. rewrite <- (span_app p l) at 2. rewrite length_app. lia. }
  unfold sanitize_step. destruct (byte_eqb c ESC).
  - destruct s as [|d s]; [simpl; lia|]. destruct (byte_eqb d "["%char).
    + pose proof (Hspan (fun x => negb (sgr_stop x)) s) as H1.
      destruct (span _ s) as [par rest]. simpl in H1. destruct rest as [|e rest]; [simpl; lia|].
      destruct (byte_eqb e "m"%char); [simpl in *; lia|].
      pose proof (Hspan (fun x => negb (csi_final x)) (e :: rest)) as H2. cbn [snd length].
      destruct (span _ (e :: rest)).2 as [|x l]; simpl in *; lia.
    + destruct (byte_eqb d "]"%char); [|simpl; lia]. destruct (cut_st s) as [[p r]|] eqn:E; [|simpl; lia].
      apply cut_st_Some in E as ->. simpl. rewrite length_app. simpl. lia.
  - destruct (decode_rune (c :: s)) as [r n] eqn:E.
    pose proof (decode_rune_size (c :: s) ltac:(done)) as Hn. rewrite E in Hn. simpl in *.
    rewrite length_drop. simpl. lia.
Qed.

Lemma sanitize_enough f g s :
  (length s <= f)%nat -> (length s <= g)%nat -> sanitize f s = sanitize g s.
Proof.
  revert g s. induction f as [|f IH]; intros g s Hf Hg.
  { destruct s; [by destruct g|simpl in Hf; lia]. }
  destruct s as [|c s]; [by destruct g|]. destruct g as [|g]; [simpl in Hg; lia|].
  cbn [sanitize]. pose proof (sanitize_step_rest c s) as Hr.
  destruct (sanitize_step (c :: s)) as [out rest]. simpl in *. f_equal. apply IH; lia.
Qed.

Lemma SanitizeForDisplay_step c s out rest :
  sanitize_step (c :: s) = (out, rest) ->
  SanitizeForDisplay (c :: s) = out ++ SanitizeForDisplay rest.
Proof.
  intros E. unfold SanitizeForDisplay. cbn [length sanitize]. rewrite E.
  pose proof (sanitize_step_rest c s) as Hr. rewrite E in Hr. f_equal. by apply sanitize_enough.
Qed.

(** What one turn writes extends displayable text. *)
Lemma sanitize_step_displayable c s t :
  displayable t -> displayable ((sanitize_step (c :: s)).1 ++ t).
Proof.
  intros Ht. unfold sanitize_step. destruct (byte_eqb c ESC) eqn:Ec.
  - apply byte_eqb_eq in Ec as ->. destruct s as [|d s]; [done|].
    destruct (byte_eqb d "["%char) eqn:Ed.
    + apply byte_eqb_eq in Ed as ->. pose proof (span_all (fun x => negb (sgr_stop x)) s) as Hp.
      destruct (span _ s) as [par rest]. destruct rest as [|e rest]; [done|].
      destruct (byte_eqb e "m"%char) eqn:Ee; [|done]. apply byte_eqb_eq in Ee as ->.
      cbn [fst app]. rewrite <- app_assoc. by apply disp_sgr.
    + destruct (byte_eqb d "]"%char) eqn:Ed'; [|done]. apply byte_eqb_eq in Ed' as ->.
      destruct (cut_st s) as [[p r]|]; [|done]. cbn [fst].
      destruct (osc8TargetAllowed p) eqn:Ho; [|done]. cbn [app]. rewrite <- app_assoc. by apply disp_link.
  - destruct (decode_rune (c :: s)) as [r n] eqn:E. cbn [fst].
    destruct (display_rune r) eqn:Hd; [|done]. apply disp_rune; [|done|done].
    apply (encode_decode_rune _ _ _ E). left. intros ->. done.
Qed.

Lemma sanitize_displayable f s : displayable (sanitize f s).
Proof.
  revert s. induction f as [|f IH]; intros s; [constructor|]. destruct s as [|c s]; [constructor|].
  cbn [sanitize]. pose proof (sanitize_step_displayable c s) as H.
  destruct (sanitize_step (c :: s)) as [out rest]. apply H, IH.
Qed.

Lemma sanitize_displayable_id s : displayable s -> SanitizeForDisplay s = s.
Proof.
  induction 1 as [|par t Hp Ht IH|payload t Hp Ht IH|r t Hv Hd Ht IH]; [done| | |].
  - rewrite (SanitizeForDisplay_step _ _ (ESC :: "["%char :: par ++ ["m"%char]) t).
    + rewrite IH. cbn [app]. by rewrite <- app_assoc.
    + unfold sanitize_step. rewrite byte_eqb_refl, byte_eqb_refl.
      rewrite span_prefix by done. by rewrite byte_eqb_refl.
  - rewrite (SanitizeForDisplay_step _ _ (ESC :: "]"%char :: payload ++ [ESC; "\"%char]) t).
    + rewrite IH. cbn [app]. by rewrite <- app_assoc.
    + unfold sanitize_step. rewrite byte_eqb_refl. change (byte_eqb "]"%char "["%char) with false. cbv iota.
      rewrite byte_eqb_refl, cut_st_app, Hp by by apply osc8_no_esc. done.
  - destruct (display_rune_start r t Hv Hd) as (c & l & Hcl & Hc).
    pose proof (decode_encode_rune r t Hv) as Hdec. rewrite Hcl in Hdec |- *.
    rewrite (SanitizeForDisplay_step _ _ (encode_rune r) t).
    + by rewrite IH.
    + unfold sanitize_step. rewrite Hc, Hdec, Hd, <- Hcl. by rewrite drop_app_length.
Qed.

(** Whatever bytes a peer sends, the cleaned text drives the terminal with
    nothing but SGR sequences and hyperlinks to an allowed target, around
    well-formed runes that are graphic, a tab or a newline; such text passes
    unchanged, so cleaning twice is cleaning once. *)
Theorem SanitizeForDisplay_spec s :
  displayable (SanitizeForDisplay s) /\
  (displayable s -> SanitizeForDisplay s = s) /\
  SanitizeForDisplay (SanitizeForDisplay s) = SanitizeForDisplay s.
Proof.
  split; [apply sanitize_displayable|]. split; [apply sanitize_displayable_id|].
  apply sanitize_displayable_id, sanitize_displayable.
Qed.

Lemma message_rune_display r : message_rune r = true -> display_rune r = true /\ r <> RuneError.
Proof.
  unfold message_rune, display_rune. destruct (r =? newline) eqn:E.
  { apply Z.eqb_eq in E as ->. by vm_compute. }
  destruct (r =? RuneError) eqn:E2; [done|].
  destruct (IsCf r), (IsMn r), (IsMe r), (IsZl r), (IsZp r), (IsGraphic r); try done.
  intros _. split; [done|]. intros ->. done.
Qed.

Lemma strings_map_id f s :
  ValidString s = true -> (forall r, r ∈ runes s -> f r = r) -> strings_map f s = s.
Proof.
  intros Hv H. unfold strings_map. unfold ValidString in Hv.
  replace (forallb _ (segs s)) with true; [done|]. symmetry. apply forallb_forall. intros g Hg.
  rewrite forallb_forall in Hv. rewrite (Hv g Hg), (H (seg_rune g)), Z.eqb_refl; [done|].
  by apply list_elem_of_In, in_map.
Qed.

(** C40. What the send gate and the server accept is shown verbatim: neither the
    display cleaner nor the history cleaner changes a message that
    [ValidateMessage] passed. *)
Theorem validated_message_verbatim text :
  ValidateMessage text = Ok tt ->
  SanitizeForDisplay text = text /\ CleanHistoryMessage text = text.
Proof.
  unfold ValidateMessage. destruct (ValidString text) eqn:Hv; [|done]. simpl.
  intros Hm%validate_runes_ok. rewrite forallb_forall in Hm. split.
  - apply sanitize_displayable_id. apply ValidString_encode in Hv as [Hr He]. rewrite <- He.
    revert Hr Hm. clear. generalize (runes text). intros rs. induction rs as [|r rs IH]; intros Hr Hm; [constructor|].
    simpl in Hr. apply andb_true_iff in Hr as [Hr Hrs]. apply disp_rune; [done|..].
    + apply message_rune_display, Hm. by left.
    + apply IH; [done|]. intros x Hx. apply Hm. by right.
  - apply strings_map_id; [done|]. intros r Hr%list_elem_of_In.
    apply Hm, message_rune_display in Hr as [_ Hr]. by replace (r =? RuneError) with false by lia.
Qed.
End theorems.

Lemma ValidateMessage_text :
  ValidateMessage (U := sample_unicode) (lit "hé, ◆" ++ [byte_of 10; "x"%char]) = Ok tt.
Proof. vm_compute. reflexivity. Qed.

Lemma validated_message_verbatim_witness :
  SanitizeForDisplay (U := sample_unicode) (lit "hé, ◆") = lit "hé, ◆".
Proof. apply (validated_message_verbatim (U := sample_unicode) (lit "hé, ◆")). vm_compute. reflexivity. Defined.

Lemma ValidateDisplayName_subset_witness :
  ValidateDisplayPrefix (U := sample_unicode) (lit "An O'Brien-2") = Ok tt.
Proof.
  apply (ValidateDisplayName_subset (U := sample_unicode) (lit "An O'Brien-2")).
  - intros r Hr Hge. left. apply (ContainsRune_elem displayStructuralRunes) in Hr.
    apply (ContainsRune_elem displayStructuralRunes) in Hr. unfold displayStructuralRunes in Hr.
    rewrite !elem_of_cons, elem_of_nil in Hr. destruct_or! Hr; try done; subst r; try lia; reflexivity.
  - vm_compute. reflexivity.
Defined.

(** The kept colour sequence may carry control bytes: a carriage return passes
    inside its parameters. *)
Example sgr_control_passes :
  SanitizeForDisplay (U := sample_unicode) (ESC :: "["%char :: byte_of 13 :: lit "mX") =
    ESC :: "["%char :: byte_of 13 :: lit "mX".
Proof. vm_compute. reflexivity. Qed.

Example neutralize_ex :
  NeutralizeDisplayName (lit "A|B • #c#a1b2-3") = lit "A?B ? ?c#a1b2-3".
Proof. vm_compute. reflexivity. Qed.
