(* ===== verification/Guard.v ===== *)
(** [lib/guard]: the limits both sides of a connection enforce - the failure
    penalty, the connection check, the per-address cooldown, the token budget,
    the send gate - and the trip badges.  One call reads the clock once: the
    readings of a method that holds its mutex are the argument [now]. *)

From Stdlib Require Import SpecFloat.
From S2P Require Import Prelude Bytes Sha2 Utf8 Floats Filter.
Local Open Scope Z_scope.

(** * Failure penalty (penalty.go) *)

Definition AuthFailTTL : duration := Hour.

Record RateLimitRecord := mkRate {
  FailCount : Z;
  UnlockTime : time;
  LastSeen : time
}.

Definition zeroRate : RateLimitRecord := mkRate 0 0 0.

Definition NextPenalty (rec : RateLimitRecord) (now : time) : RateLimitRecord :=
  let n := FailCount rec + 1 in
  if 5 <=? n then mkRate 0 (Add now (5 * Minute)) now
  else mkRate n (UnlockTime rec) now.

Definition IsBanned (rec : RateLimitRecord) (now : time) : bool :=
  negb (IsZero (UnlockTime rec)) && Before now (UnlockTime rec).

Definition ShouldPrune (rec : RateLimitRecord) (now : time) (ttl : duration) : bool :=
  if negb (IsZero (UnlockTime rec)) && After now (UnlockTime rec) then true
  else negb (IsZero (LastSeen rec)) && (ttl <? Sub now (LastSeen rec)).

(** * Connection check (connect.go) *)

Inductive refusal := RBanned | RCooldown.

Definition CheckConnectionRate (now : time) (rec : RateLimitRecord) (lastConnect : time)
    (cooldown : duration) : bool * option refusal :=
  if IsBanned rec now then (false, Some RBanned)
  else if negb (IsZero lastConnect) && (Sub now lastConnect <? cooldown) then (false, Some RCooldown)
  else (true, None).

(** * Cooldown map (ratelimit.go) *)

Abbreviation CooldownMap := (gmap str time).

Definition NewCooldownMap : CooldownMap := ∅.

Definition cooldown_stale (now : time) (v : time) : bool := 10 * Minute <? Sub now v.

Definition cooldown_Allow (c : CooldownMap) (now : time) (ip : str) (d : duration) : bool * CooldownMap :=
  let held := match c !! ip with Some t => Sub now t <? d | None => false end in
  if held then (false, c)
  else
    let c := <[ip := now]> c in
    (true, if (1000 <? size c)%nat then filter (fun kv => cooldown_stale now kv.2 = false) c else c).

Definition RetryAfter (c : CooldownMap) (now : time) (ip : str) (d : duration) : duration :=
  match c !! ip with
  | None => 0
  | Some t => let left := d - Sub now t in if 0 <? left then left else 0
  end.

(** * Token budget (budget.go) *)

Record budgetState := mkBudget { tokens : f64; updated : time }.

Abbreviation BudgetMap := (gmap str budgetState).

Definition evictLocked (b : BudgetMap) (now : time) : BudgetMap :=
  let cutoff := Add now (- (10 * Minute)) in
  filter (fun kv => Before (updated kv.2) cutoff = false) b.

(** The refill of one bucket. *)
Definition refill (st : budgetState) (now : time) (burst perSec : f64) : budgetState :=
  if fgt perSec f0 then
    let elapsed := Seconds (Sub now (updated st)) in
    if fgt elapsed f0 then
      let t := fadd (tokens st) (fmul elapsed perSec) in
      mkBudget (if fgt t burst then burst else t) now
    else st
  else mkBudget (tokens st) now.

Definition budget_Allow (b : BudgetMap) (now : time) (key : str) (cost burst perSec : f64) : bool * BudgetMap :=
  if fle cost f0 then (true, b)
  else if fle burst f0 then (false, b)
  else
    let '(st, b) :=
      match b !! key with
      | Some st => (st, b)
      | None =>
          let st := mkBudget burst now in
          let b := <[key := st]> b in
          (st, if (1000 <? size b)%nat then evictLocked b now else b)
      end in
    let st := refill st now burst perSec in
    if flt (tokens st) cost then (false, <[key := st]> b)
    else (true, <[key := mkBudget (fsub (tokens st) cost) (updated st)]> b).

(** * Send gate (message.go) *)

Record Limits := mkLimits {
  MaxMessageLength : Z;
  MaxMessageLine : Z;
  MessageCooldown : duration
}.

Inductive send_error :=
| ErrTooLong | ErrTooManyLines | ErrTooFast
| ErrText (e : char_error).

Definition filter_result (r : res char_error unit) : res send_error unit :=
  match r with Ok _ => Ok tt | Err e => Err (ErrText e) end.

Definition ValidateMessageForSend `{Unicode} (now : time) (text : str) (last : time)
    (lim : option Limits) (unlimited : bool) : res send_error unit :=
  if unlimited then filter_result (ValidateMessage text)
  else match lim with
  | Some lim =>
      if MaxMessageLength lim <? RuneCount text then Err ErrTooLong
      else if MaxMessageLine lim <? count_byte (byte_of 10) text + 1 then Err ErrTooManyLines
      else if Sub now last <? MessageCooldown lim then Err ErrTooFast
      else filter_result (ValidateMessage text)
  | None => filter_result (ValidateMessage text)
  end.

Definition ReadLimit (maxMsgLen : Z) : Z := i64 (maxMsgLen * 3).

(** * Badges (badge.go) *)

Definition badge_mark : str := lit "◆ ".

Definition GenerateTripcode (secret : str) (length : Z) : str :=
  match secret with
  | [] => []
  | _ =>
      if length <=? 0 then []
      else
        let fullHex := hex_encode (sha256 secret) in
        let length := if slen fullHex <? length then slen fullHex else length in
        badge_mark ++ take (Z.to_nat length) fullHex
  end.

Definition TripBadgeFromPubHex (pubHex : str) : str :=
  match hex_decode pubHex with
  | Some (c :: b) => badge_mark ++ take 8 (hex_encode (sha256 (c :: b)))
  | _ => []
  end.

(** * Theorems *)

(** ** Penalty *)

Definition penalties (rec : RateLimitRecord) (ts : list time) : RateLimitRecord :=
  fold_left NextPenalty ts rec.

Lemma penalties_snoc rec ts t : penalties rec (ts ++ [t]) = NextPenalty (penalties rec ts) t.
Proof. unfold penalties. by rewrite fold_left_app. Qed.

Lemma penalties_count rec ts :
  0 <= FailCount rec < 5 ->
  FailCount (penalties rec ts) = (FailCount rec + Z.of_nat (length ts)) mod 5.
Proof.
  intros Hr. induction ts as [|t ts IH] using rev_ind.
  { simpl. rewrite Z.add_0_r, Z.mod_small; lia. }
  rewrite penalties_snoc, length_app. simpl. unfold NextPenalty. rewrite IH.
  set (n := FailCount rec + Z.of_nat (length ts)).
  replace (FailCount rec + _) with (n + 1) by lia.
  destruct (5 <=? n mod 5 + 1) eqn:E; simpl; Z.to_euclidean_division_equations; lia.
Qed.

(** Five failures ban for exactly five minutes: from a fresh record, after
    any run of failures whose length is a positive multiple of five the address
    is banned until five minutes after the last of them and not a moment
    longer, and a run of fewer than five failures bans nobody. *)
Theorem penalty_bans_every_fifth ts t now :
  0 < t ->
  ((Z.of_nat (length ts) + 1) mod 5 = 0 ->
     IsBanned (penalties zeroRate (ts ++ [t])) now = (now <? t + 5 * Minute)) /\
  ((length ts < 5)%nat -> IsBanned (penalties zeroRate ts) now = false).
Proof.
  intros Ht. split.
  - intros Hm. rewrite penalties_snoc. unfold NextPenalty.
    rewrite penalties_count by (simpl; lia). simpl (FailCount zeroRate).
    replace (5 <=? _) with true by (Z.to_euclidean_division_equations; lia).
    unfold IsBanned, IsZero, Before, Add, Minute. simpl.
    replace (t + 5 * 60000000000 =? 0) with false by lia. done.
  - intros Hl. do 5 (destruct ts as [|? ts]; [reflexivity|]). simpl in Hl. lia.
Qed.

Lemma penalty_bans_every_fifth_witness :
  IsBanned (penalties zeroRate ([1; 2; 3; 4] ++ [5])) 6 = true.
Proof. rewrite (proj1 (penalty_bans_every_fifth [1; 2; 3; 4] 5 6 ltac:(lia))); reflexivity. Defined.

(** ** Cooldown *)

(** One address asks at each time of a list; the answers. *)
Fixpoint cooldown_run (c : CooldownMap) (d : duration) (calls : list (time * str)) : list bool :=
  match calls with
  | [] => []
  | (now, ip) :: calls' =>
      let '(ok, c') := cooldown_Allow c now ip d in ok :: cooldown_run c' d calls'
  end.

(** An address allowed at [t0] is still remembered, or [t0] is too old to
    matter. *)
Definition remembered (c : CooldownMap) (ip : str) (t0 now : time) : Prop :=
  (exists t, c !! ip = Some t /\ t0 <= t <= now) \/ 10 * Minute < now - t0.

Lemma cooldown_remembered c ip t0 now ip' d now' :
  remembered c ip t0 now -> now <= now' -> remembered (cooldown_Allow c now' ip' d).2 ip t0 now'.
Proof.
  intros H Hle. unfold remembered in *. destruct H as [(t & Ht & Hr)|H]; [|right; lia].
  unfold cooldown_Allow.
  destruct (match c !! ip' with Some t => Sub now' t <? d | None => false end); [left; exists t; split; [done|lia]|].
  cbn [snd]. set (c' := <[ip' := now']> c).
  assert (exists t, c' !! ip = Some t /\ t0 <= t <= now') as (t' & Ht' & Hr').
  { unfold c'. destruct (decide (ip' = ip)) as [->|Hne].
    - exists now'. rewrite lookup_insert_eq. split; [done|lia].
    - exists t. rewrite lookup_insert_ne by done. split; [done|lia]. }
  destruct (1000 <? size c')%nat; [|left; by exists t'].
  destruct (cooldown_stale now' t') eqn:Es.
  - right. unfold cooldown_stale in Es. apply Z.ltb_lt, Sub_gt_iff in Es; [lia|by vm_compute].
  - left. exists t'. split; [|done]. apply map_lookup_filter_Some. done.
Qed.

Lemma cooldown_Allow_remembers c now ip d :
  (cooldown_Allow c now ip d).1 = true -> remembered (cooldown_Allow c now ip d).2 ip now now.
Proof.
  unfold cooldown_Allow. destruct (match c !! ip with Some t => Sub now t <? d | None => false end); [done|]. intros _. cbn [snd].
  left. exists now. split; [|lia]. destruct (1000 <? _)%nat; [|by rewrite lookup_insert_eq].
  apply map_lookup_filter_Some. rewrite lookup_insert_eq. split; [done|].
  simpl. unfold cooldown_stale, Sub, min_duration, max_duration, Minute. lia.
Qed.

Lemma cooldown_refuses c ip t0 now d :
  remembered c ip t0 now -> now - t0 < d <= 10 * Minute -> (cooldown_Allow c now ip d).1 = false.
Proof.
  intros [(t & Ht & Hr)|H] Hd; [|lia]. unfold cooldown_Allow. rewrite Ht.
  replace (Sub now t <? d) with true; [done|]. symmetry. apply Z.ltb_lt, Sub_lt_iff; [|lia].
  unfold min_duration, max_duration, Minute in *. lia.
Qed.

(** The calls come in the order of the clock. *)
Fixpoint clock_ordered (now : time) (calls : list (time * str)) : Prop :=
  match calls with [] => True | (t, _) :: l => now <= t /\ clock_ordered t l end.

Lemma cooldown_spacing_from c ip t0 now d calls i t :
  remembered c ip t0 now -> clock_ordered now calls -> d <= 10 * Minute ->
  calls !! i = Some (t, ip) -> cooldown_run c d calls !! i = Some true -> d <= t - t0.
Proof.
  revert c now i. induction calls as [|[t1 ip1] calls IH]; intros c now i Hr Ho Hd; [done|].
  destruct Ho as [Hle Ho]. cbn [cooldown_run]. destruct (cooldown_Allow c t1 ip1 d) as [ok c'] eqn:E.
  pose proof (cooldown_remembered c ip t0 now ip1 d t1 Hr Hle) as Hr'. rewrite E in Hr'. simpl in Hr'.
  destruct i as [|i]; simpl; [|by apply (IH c' t1)].
  intros [= -> ->] [= ->]. destruct (decide (d <= t - t0)) as [|Hlt]; [done|].
  assert (remembered c ip t0 t) as Hrt.
  { destruct Hr as [(u & Hu & Hb)|Hb]; [left; exists u; split; [done|lia]|right; lia]. }
  pose proof (cooldown_refuses c ip t0 t d Hrt ltac:(lia)) as Hf. rewrite E in Hf. done.
Qed.

(** A cooldown of at most ten minutes holds per address whatever the other
    addresses do and however often the map is swept: of two allowed calls of
    one address, the later comes at least [d] after the earlier.  (Entries
    older than ten minutes may be swept, so no longer cooldown is promised.) *)
Theorem cooldown_spacing c0 d calls i j t1 t2 ip :
  d <= 10 * Minute -> clock_ordered 0 calls -> (i < j)%nat ->
  calls !! i = Some (t1, ip) -> calls !! j = Some (t2, ip) ->
  cooldown_run c0 d calls !! i = Some true -> cooldown_run c0 d calls !! j = Some true ->
  d <= t2 - t1.
Proof.
  intros Hd. generalize 0. revert c0 i j. induction calls as [|[t ip'] calls IH]; intros c i j now0 Ho Hij; [done|].
  destruct Ho as [Hle Ho]. cbn [cooldown_run]. destruct (cooldown_Allow c t ip' d) as [ok c'] eqn:E.
  destruct j as [|j]; [lia|]. destruct i as [|i]; simpl; [|apply (IH c' i j t); [done|lia]].
  intros [= -> ->] Hj [= ->] Hrj. eapply (cooldown_spacing_from c' ip t1 t1); try done.
  pose proof (cooldown_Allow_remembers c t1 ip d) as H. rewrite E in H. by apply H.
Qed.

Lemma cooldown_spacing_witness : 5 <= 10 - 3.
Proof.
  apply (cooldown_spacing ∅ 5 [(3, lit "a"); (4, lit "a"); (10, lit "a")] 0 2 3 10 (lit "a"));
    first [lia | by vm_compute | done].
Defined.

(** The sweep forgets entries older than ten minutes, so a longer cooldown can
    be cut short by a thousand other addresses. *)
Lemma cooldown_sweep_forgets c now ip t :
  c !! ip = Some t -> 10 * Minute < now - t -> now - t < max_duration ->
  (1000 <= size c)%nat ->
  forall ip' d, ip' <> ip -> c !! ip' = None -> (cooldown_Allow c now ip' d).2 !! ip = None.
Proof.
  intros Ht Hold Hmax Hsz ip' d Hne Hip'. unfold cooldown_Allow. rewrite Hip'. cbn [snd].
  rewrite map_size_insert_None by done. replace (1000 <? S (size c))%nat with true by (symmetry; apply Nat.ltb_lt; lia).
  apply map_lookup_filter_None. right. intros x Hx. rewrite lookup_insert_ne in Hx by done.
  assert (x = t) as -> by congruence. simpl. unfold cooldown_stale.
  rewrite (proj2 (Z.ltb_lt _ _)); [done|]. apply Sub_gt_iff; [by vm_compute|done].
Qed.

(** ** Budget *)

Lemma refill_cap st now burst perSec :
  fgt (tokens st) burst = false -> fgt (tokens (refill st now burst perSec)) burst = false.
Proof.
  intros H. unfold refill. destruct (fgt perSec f0); [|done].
  destruct (fgt (Seconds _) f0); [|done]. cbn [tokens].
  destruct (fgt (fadd _ _) burst) eqn:E; [apply flt_irrefl|done].
Qed.

(** The bucket a charged call starts from: the key's own, or a full one. *)
Definition bucket (b : BudgetMap) (now : time) (key : str) (burst perSec : f64) : budgetState :=
  refill (default (mkBudget burst now) (b !! key)) now burst perSec.

(** A charged call (positive cost and burst) refills the key's bucket up to
    at most the burst, is granted exactly when the bucket holds the cost, then
    pays exactly the cost, and pays nothing when refused; a key's bucket is
    never changed by another key's call, only dropped after ten idle minutes;
    a free call changes nothing and a non-positive burst refuses. *)
Theorem budget_Allow_spec b now key cost burst perSec :
  (fle cost f0 = true -> budget_Allow b now key cost burst perSec = (true, b)) /\
  (fle cost f0 = false -> fle burst f0 = true -> budget_Allow b now key cost burst perSec = (false, b)) /\
  (fle cost f0 = false -> fle burst f0 = false ->
     let st := bucket b now key burst perSec in
     let '(ok, b') := budget_Allow b now key cost burst perSec in
     ok = negb (flt (tokens st) cost) /\
     b' !! key = Some (if ok then mkBudget (fsub (tokens st) cost) (updated st) else st) /\
     (fgt (tokens (default (mkBudget burst now) (b !! key))) burst = false -> fgt (tokens st) burst = false) /\
     (forall k, k <> key -> b' !! k = b !! k \/
        (b' !! k = None /\ exists s, b !! k = Some s /\ updated s < now - 10 * Minute))).
Proof.
  unfold budget_Allow. split; [by intros ->|]. split; [by intros -> ->|]. intros -> ->. cbv zeta.
  assert (forall k (m : BudgetMap) st1 st2, k <> key ->
    (m !! k = b !! k \/ (m !! k = None /\ exists s, b !! k = Some s /\ updated s < now - 10 * Minute)) ->
    let r := (if flt (tokens st1) cost then (false, <[key := st1]> m) else (true, <[key := st2]> m)) in
    (r.2 !! k = b !! k \/ (r.2 !! k = None /\ exists s, b !! k = Some s /\ updated s < now - 10 * Minute))) as Hother.
  { intros k m st1 st2 Hk H. cbv zeta. destruct (flt _ _); cbn [snd]; by rewrite lookup_insert_ne. }
  unfold bucket. destruct (b !! key) as [st0|] eqn:E; cbn [default].
  - specialize (fun k => Hother k b (refill st0 now burst perSec)
      (mkBudget (fsub (tokens (refill st0 now burst perSec)) cost) (updated (refill st0 now burst perSec)))).
    cbn zeta in Hother. destruct (flt _ cost) eqn:Ef.
    + repeat split; [by rewrite lookup_insert_eq|apply refill_cap|intros k Hk; apply Hother; tauto].
    + repeat split; [by rewrite lookup_insert_eq|apply refill_cap|intros k Hk; apply Hother; tauto].
  - set (m := if (1000 <? _)%nat then _ else _).
    assert (forall k, k <> key -> m !! k = b !! k \/
      (m !! k = None /\ exists s, b !! k = Some s /\ updated s < now - 10 * Minute)) as Hm.
    { intros k Hk. unfold m. destruct (1000 <? _)%nat; [|left; by rewrite lookup_insert_ne].
      unfold evictLocked. destruct (b !! k) as [s|] eqn:Ek.
      - destruct (Before (updated s) (Add now (- (10 * Minute)))) eqn:Eb.
        + right. split; [|exists s; split; [done|unfold Before, Add in Eb; lia]].
          apply map_lookup_filter_None. right. intros x Hx. rewrite lookup_insert_ne, Ek in Hx by done.
          injection Hx as <-. simpl. congruence.
        + left. apply map_lookup_filter_Some. by rewrite lookup_insert_ne, Ek.
      - left. apply map_lookup_filter_None. left. by rewrite lookup_insert_ne. }
    specialize (fun k => Hother k m (refill (mkBudget burst now) now burst perSec)
      (mkBudget (fsub (tokens (refill (mkBudget burst now) now burst perSec)) cost)
                (updated (refill (mkBudget burst now) now burst perSec)))).
    cbn zeta in Hother. destruct (flt _ cost) eqn:Ef;
      (repeat split; [by rewrite lookup_insert_eq|apply refill_cap|intros k Hk; apply Hother; [done|by apply Hm]]).
Qed.

Lemma budget_Allow_spec_witness :
  (budget_Allow ∅ 5 (lit "ip") f1 (of_int 2) f1).1 = true.
Proof.
  pose proof (proj2 (proj2 (budget_Allow_spec ∅ 5 (lit "ip") f1 (of_int 2) f1)) eq_refl eq_refl) as H.
  cbv zeta in H. destruct (budget_Allow ∅ 5 (lit "ip") f1 (of_int 2) f1) as [ok b']. destruct H as [H _].
  rewrite H. vm_compute. reflexivity.
Defined.

(** ** Send gate *)

(** The send gate accepts exactly the texts that are within the length and
    line limits, come no sooner than the cooldown after the last one, and pass
    the character filter; an unlimited sender is held to the filter alone. *)
Theorem ValidateMessageForSend_spec `{Unicode} now text last lim unlimited :
  ValidateMessageForSend now text last lim unlimited = Ok tt <->
  ValidateMessage text = Ok tt /\
  (unlimited = false -> forall l, lim = Some l ->
     RuneCount text <= MaxMessageLength l /\
     count_byte (byte_of 10) text + 1 <= MaxMessageLine l /\
     MessageCooldown l <= Sub now last).
Proof.
  assert (filter_result (ValidateMessage text) = Ok tt <-> ValidateMessage text = Ok tt) as Hf.
  { destruct (ValidateMessage text) as [[]|e]; simpl; split; congruence. }
  unfold ValidateMessageForSend. destruct unlimited; [rewrite Hf; naive_solver|].
  destruct lim as [l|]; [|rewrite Hf; naive_solver].
  destruct (MaxMessageLength l <? RuneCount text) eqn:E1.
  { split; [done|]. intros [_ Hl]. destruct (Hl eq_refl l eq_refl). lia. }
  destruct (MaxMessageLine l <? _) eqn:E2.
  { split; [done|]. intros [_ Hl]. destruct (Hl eq_refl l eq_refl) as (? & ? & ?). lia. }
  destruct (Sub now last <? MessageCooldown l) eqn:E3.
  { split; [done|]. intros [_ Hl]. destruct (Hl eq_refl l eq_refl) as (? & ? & ?). lia. }
  rewrite Hf. split; [|tauto]. intros Ht. split; [done|]. intros _ l' [= <-]. lia.
Qed.
