(* ===== verification/Crypto.v ===== *)
(** The third-party primitives the program relies on, as interfaces: Argon2id
    ([golang.org/x/crypto/argon2]) and Ed25519 ([crypto/ed25519]).  Only what
    the program uses of them is stated; a toy instance shows the stated laws
    can hold.  SHA-2 and HMAC are computed, in {!Sha2}. *)

From S2P Require Import Prelude Bytes Sha2.
Local Open Scope Z_scope.

(** [argon2.IDKey password salt time memory threads keyLen]. *)
Class Argon2 := {
  IDKey : str -> str -> Z -> Z -> Z -> nat -> str
}.

(** A private key is its 32-byte seed followed by the public key. *)
Class Ed25519 := {
  ed_pub : str -> str;              (* NewKeyFromSeed(seed).Public() *)
  ed_sign : str -> str -> str;      (* Sign(NewKeyFromSeed(seed), message) *)
  ed_verify : str -> str -> str -> bool   (* Verify(pub, message, sig) *)
}.

(** Documented behaviour: the sizes of keys and signatures, and that what a key
    signs its public key verifies.  (Unforgeability is not a law here: the
    theorems say what a verifying signature covers, not who made it.) *)
Class Ed25519Laws `{Ed25519} : Prop := {
  ed_pub_size seed : length seed = 32%nat -> length (ed_pub seed) = 32%nat;
  ed_sign_size seed m : length seed = 32%nat -> length (ed_sign seed m) = 64%nat;
  ed_verify_sign seed m : length seed = 32%nat -> ed_verify (ed_pub seed) m (ed_sign seed m) = true
}.

Definition PublicKeySize : Z := 32.
Definition SeedSize : Z := 32.
Definition SignatureSize : Z := 64.

(** A toy signature with the same sizes. *)
Definition toy_ed25519 : Ed25519 := {|
  ed_pub seed := sha256 seed;
  ed_sign seed m := sha512 (sha256 seed ++ m);
  ed_verify pub m sig := str_eqb sig (sha512 (pub ++ m))
|}.

Lemma toy_laws : Ed25519Laws (H := toy_ed25519).
Proof.
  split; intros.
  - apply length_sha256.
  - apply length_sha512.
  - apply str_eqb_refl.
Qed.

Definition toy_argon2 : Argon2 := {|
  IDKey pw salt t m p n := take n (sha512 (pw ++ salt ++ put_le 4 t ++ put_le 4 m ++ put_le 1 p))
|}.
