(* ===== verification/Pow.v ===== *)
(** [lib/pow]: the proof of work (one memory-hard key derivation, then a search
    for a SHA-256 with enough leading zero bits) and the signed offer that
    states its terms. *)

From S2P Require Import Prelude Bytes Sha2 ChainLink Crypto.
Local Open Scope Z_scope.

Definition PowDomain : str := lit "V2V-pow-v1".

Definition MinTime : Z := 1.
Definition MaxTime : Z := 10.
Definition MinMemoryKiB : Z := 8 * 1024.
Definition MaxMemoryKiB : Z := 256 * 1024.
Definition MinThreads : Z := 1.
Definition MaxThreads : Z := 8.
Definition MaxDifficulty : Z := 64.

Record Preset := mkPreset {
  p_Time : Z;
  p_Memory : Z;
  p_Threads : Z;
  p_Difficulty : Z     (* uint *)
}.

#[export] Instance Preset_eq_dec : EqDecision Preset.
Proof. solve_decision. Defined.

(** The [set] closure: the bounded value and whether it changed. *)
Definition clamp_set (v lo hi : Z) : Z * bool :=
  if v <? lo then (lo, true) else if hi <? v then (hi, true) else (v, false).

Definition Clamp (p : Preset) (wasm : bool) : Preset * bool :=
  let '(t, c1) := clamp_set (p_Time p) MinTime MaxTime in
  let '(m, c2) := clamp_set (p_Memory p) MinMemoryKiB MaxMemoryKiB in
  let '(th, c3) := clamp_set (p_Threads p) MinThreads MaxThreads in
  let '(th, c4) := if wasm && negb (th =? 1) then (1, true) else (th, false) in
  let '(d, c5) := if MaxDifficulty <? p_Difficulty p then (MaxDifficulty, true) else (p_Difficulty p, false) in
  (mkPreset t m th d, c1 || c2 || c3 || c4 || c5).

(** [b & (1<<i) != 0] for i from 7 down: the zero bits before the first one. *)
Fixpoint byte_zeros (i : nat) (b : Z) : Z :=
  match i with
  | O => 0
  | S i' => if Z.testbit b (Z.of_nat i') then 0 else 1 + byte_zeros i' b
  end.

Fixpoint LeadingZeros (h : str) : Z :=
  match h with
  | [] => 0
  | b :: h' => if byte_val b =? 0 then 8 + LeadingZeros h' else byte_zeros 8 (byte_val b)
  end.

Definition candidate (key : str) (nonce : Z) : str := sha256 (key ++ put_le 8 nonce).

Section argon2.
Context {A : Argon2}.

Definition DeriveKey (p : Preset) (salt : str) : str :=
  IDKey PowDomain salt (u32 (p_Time p)) (u32 (p_Memory p)) (p_Threads p mod 256) 32.

(** The search from [nonce]; [stop n] tells whether the channel is closed when
    nonce [n] is about to be tried.  [None]: still searching after [fuel]
    nonces. *)
Fixpoint solve_from (fuel : nat) (key : str) (difficulty : Z) (stop : Z -> bool) (nonce : Z)
    : option (res unit Z) :=
  match fuel with
  | O => None
  | S fuel' =>
      if stop nonce then Some (Err tt)
      else if difficulty <=? LeadingZeros (candidate key nonce) then Some (Ok nonce)
      else solve_from fuel' key difficulty stop (u64 (nonce + 1))
  end.

Definition Solve (fuel : nat) (p : Preset) (salt : str) (stop : Z -> bool) : option (res unit Z) :=
  solve_from fuel (DeriveKey p salt) (p_Difficulty p) stop 0.

Definition Verify (p : Preset) (salt : str) (nonce : Z) : bool :=
  p_Difficulty p <=? LeadingZeros (candidate (DeriveKey p salt) nonce).
End argon2.

(** * Offers (offer.go) *)

Definition OfferDomain : str := lit "V2V-POW-v1".

Record Offer := mkOffer {
  o_Tier : Z;
  o_Preset : Preset;
  o_Salt : str;
  o_Expires : Z;
  o_ChallengeID : str
}.

(** [time.Unix(sec, 0)]: Go's zero time is 62135596800 seconds before 1970. *)
Definition Unix (sec : Z) : time := i64 (sec + 62135596800) * Second.

Definition Expired (o : Offer) (now : time) : bool := negb (Before now (Unix (o_Expires o))).

Definition offerMessage (o : Offer) : str :=
  OfferDomain ++ nul :: itoa (o_Tier o) ++ nul :: itoa (p_Time (o_Preset o)) ++ nul ::
  itoa (p_Memory (o_Preset o)) ++ nul :: itoa (p_Threads (o_Preset o)) ++ nul ::
  itoa (p_Difficulty (o_Preset o)) ++ nul :: o_Salt o ++ nul :: itoa (o_Expires o) ++ nul ::
  o_ChallengeID o.

Definition SignOffer `{Ed25519} (seed : str) (o : Offer) : str := ed_sign seed (offerMessage o).
Definition VerifyOffer `{Ed25519} (pub : str) (o : Offer) (sig : str) : bool :=
  ed_verify pub (offerMessage o) sig.

(** * Theorems *)

(** A preset inside the safe envelope. *)
Definition in_envelope (p : Preset) (wasm : bool) : Prop :=
  MinTime <= p_Time p <= MaxTime /\ MinMemoryKiB <= p_Memory p <= MaxMemoryKiB /\
  MinThreads <= p_Threads p <= MaxThreads /\ p_Difficulty p <= MaxDifficulty /\
  (wasm = true -> p_Threads p = 1).

(** Whatever a config or an offer says, the clamped preset lies in the
    envelope, the report says whether anything changed, and a preset already
    inside is left alone (so clamping twice is clamping once). *)
Theorem Clamp_spec p wasm :
  let '(q, changed) := Clamp p wasm in
  in_envelope q wasm /\ (changed = false <-> q = p) /\ (in_envelope p wasm -> q = p) /\
  Clamp q wasm = (q, false).
Proof.
  destruct p as [t m th d]. unfold Clamp, clamp_set, in_envelope. cbn [p_Time p_Memory p_Threads p_Difficulty].
  unfold MinTime, MaxTime, MinMemoryKiB, MaxMemoryKiB, MinThreads, MaxThreads, MaxDifficulty.
  destruct (t <? 1) eqn:E1; [|destruct (10 <? t) eqn:E2];
  (destruct (m <? 8 * 1024) eqn:E3; [|destruct (256 * 1024 <? m) eqn:E4]);
  (destruct (th <? 1) eqn:E5; [|destruct (8 <? th) eqn:E6]);
  (destruct (64 <? d) eqn:E7);
  (destruct wasm; cbn [andb negb]; [try destruct (th =? 1) eqn:E8|]);
  cbn -[Z.mul Z.leb Z.ltb];
  rewrite ?E1, ?E2, ?E3, ?E4, ?E5, ?E6, ?E7, ?E8;
  (split; [repeat split; lia|]);
  (split; [split; [done|]; intros [=]; lia|]);
  (split; [intros Hin; f_equal; lia|]);
  try done; try (apply Z.eqb_eq in E8 as ->); done.
Qed.

(** ** The search *)

(** The digest as a big-endian number. *)
Fixpoint be_val (h : str) : Z :=
  match h with [] => 0 | b :: h' => byte_val b * 256 ^ slen h' + be_val h' end.

Lemma slen_nonneg s : 0 <= slen s.
Proof. unfold slen. lia. Qed.

Lemma be_val_range h : 0 <= be_val h < 256 ^ slen h.
Proof.
  induction h as [|b h IH]; [by vm_compute|]. cbn [be_val].
  replace (slen (b :: h)) with (Z.succ (slen h)) by (unfold slen; simpl; lia).
  pose proof (byte_val_range b). pose proof (slen_nonneg h). rewrite Z.pow_succ_r by done. nia.
Qed.

Lemma byte_zeros_spec b d :
  0 < b < 256 -> 0 <= d -> (d <=? byte_zeros 8 b) = ((d <=? 8) && (b <? 2 ^ (8 - d))).
Proof.
  intros Hb Hd. destruct (decide (d <= 8)) as [Hle|Hgt].
  - replace (d <=? 8) with true by lia. cbn [andb].
    assert (d = Z.of_nat (Z.to_nat d)) as -> by lia. assert (Z.to_nat d <= 8)%nat as Hn by lia.
    assert (b = Z.of_nat (Z.to_nat b)) as -> by lia. assert (Z.to_nat b < 256)%nat as Hb' by lia.
    assert (0 < Z.to_nat b)%nat as Hb0 by lia. revert Hn Hb' Hb0. generalize (Z.to_nat d) (Z.to_nat b). clear.
    intros d b Hd Hb Hb0.
    assert (forallb (fun d => forallb (fun b => Bool.eqb (Z.of_nat d <=? byte_zeros 8 (Z.of_nat b))
              (Z.of_nat b <? 2 ^ (8 - Z.of_nat d))) (seq 1 255)) (seq 0 9) = true) as H by by vm_compute.
    rewrite forallb_forall in H. specialize (H d ltac:(apply in_seq; lia)). rewrite forallb_forall in H.
    specialize (H b ltac:(apply in_seq; lia)). by apply Bool.eqb_prop in H.
  - replace (d <=? 8) with false by lia. cbn [andb]. apply Z.leb_gt.
    assert (byte_zeros 8 b <= 8); [|lia].
    cbn [byte_zeros]. repeat case_match; lia.
Qed.

(** [LeadingZeros] counts what its name says: a digest has at least [d]
    leading zero bits exactly when, read as a big-endian number, it is below
    [2^(bits - d)]. *)
Theorem LeadingZeros_spec h d :
  0 <= d <= 8 * slen h -> (d <= LeadingZeros h <-> be_val h < 2 ^ (8 * slen h - d)).
Proof.
  revert d. induction h as [|b h IH]; intros d Hd.
  { unfold slen in *. simpl in *. replace d with 0 by lia. by vm_compute. }
  cbn [LeadingZeros be_val].
  assert (slen (b :: h) = Z.succ (slen h)) as Hs by (unfold slen; simpl; lia). rewrite Hs in *.
  pose proof (byte_val_range b) as Hb. pose proof (slen_nonneg h) as H0. pose proof (be_val_range h) as Hv.
  assert (256 ^ slen h = 2 ^ (8 * slen h)) as H256 by (rewrite Z.pow_mul_r by lia; done).
  assert (forall k, 0 <= k <= 8 -> 2 ^ (8 * Z.succ (slen h) - k) = 2 ^ (8 - k) * 256 ^ slen h) as Hpow.
  { intros k Hk. rewrite H256, <- Z.pow_add_r by lia. f_equal. lia. }
  destruct (byte_val b =? 0) eqn:E.
  - apply Z.eqb_eq in E. rewrite E, Z.mul_0_l, Z.add_0_l. destruct (decide (d <= 8)) as [Hle|Hgt].
    + assert (0 <= LeadingZeros h) as Hlz.
      { clear. induction h as [|c h IH]; simpl; [lia|]. case_match; [lia|]. repeat case_match; lia. }
      split; [|lia]. intros _. rewrite Hpow by lia.
      pose proof (Z.pow_pos_nonneg 2 (8 - d) ltac:(lia) ltac:(lia)). nia.
    + specialize (IH (d - 8) ltac:(lia)).
      replace (8 * Z.succ (slen h) - d) with (8 * slen h - (d - 8)) by lia. rewrite <- IH. lia.
  - pose proof (byte_zeros_spec (byte_val b) d ltac:(lia) ltac:(lia)) as Hz.
    rewrite <- Z.leb_le, Hz. destruct (decide (d <= 8)) as [Hle|Hgt].
    + replace (d <=? 8) with true by lia. cbn [andb]. rewrite Hpow by lia. rewrite Z.ltb_lt.
      pose proof (Z.pow_pos_nonneg 2 (8 - d) ltac:(lia) ltac:(lia)). nia.
    + replace (d <=? 8) with false by lia. cbn [andb]. split; [done|]. intros Hlt. exfalso.
      assert (2 ^ (8 * Z.succ (slen h) - d) <= 256 ^ slen h).
      { rewrite H256. apply Z.pow_le_mono_r; lia. }
      nia.
Qed.

Lemma LeadingZeros_spec_witness : 4 <= LeadingZeros [byte_of 8; byte_of 0].
Proof. apply (LeadingZeros_spec [byte_of 8; byte_of 0] 4); by vm_compute. Defined.

Section search.
Context {A : Argon2}.

Lemma solve_from_spec fuel key d stop nonce :
  0 <= nonce -> nonce + Z.of_nat fuel <= 2 ^ 64 ->
  match solve_from fuel key d stop nonce with
  | Some (Ok n) =>
      nonce <= n < nonce + Z.of_nat fuel /\ d <= LeadingZeros (candidate key n) /\
      (forall m, nonce <= m < n -> LeadingZeros (candidate key m) < d) /\
      (forall m, nonce <= m <= n -> stop m = false)
  | Some (Err _) => exists n, nonce <= n < nonce + Z.of_nat fuel /\ stop n = true
  | None => forall m, nonce <= m < nonce + Z.of_nat fuel ->
      LeadingZeros (candidate key m) < d /\ stop m = false
  end.
Proof.
  revert nonce. induction fuel as [|fuel IH]; intros nonce H0 Hf; cbn [solve_from]; [lia|].
  destruct (stop nonce) eqn:Es; [exists nonce; split; [lia|done]|].
  destruct (d <=? LeadingZeros (candidate key nonce)) eqn:E.
  { split; [lia|]. split; [lia|]. split; [lia|]. intros m Hm. by replace m with nonce by lia. }
  destruct (decide (fuel = 0%nat)) as [->|Hfuel].
  { simpl. intros m Hm. replace m with nonce by lia. split; [lia|done]. }
  rewrite u64_small by (unfold is_u64; lia). specialize (IH (nonce + 1) ltac:(lia) ltac:(lia)).
  destruct (solve_from fuel key d stop (nonce + 1)) as [[n|]|].
  - destruct IH as (H1 & H2 & H3 & H4). split; [lia|]. split; [done|]. split.
    + intros m Hm. destruct (decide (m = nonce)) as [->|]; [lia|]. apply H3. lia.
    + intros m Hm. destruct (decide (m = nonce)) as [->|]; [done|]. apply H4. lia.
  - destruct IH as (n & Hn & Hs). exists n. split; [lia|done].
  - intros m Hm. destruct (decide (m = nonce)) as [->|]; [split; [lia|done]|]. apply IH. lia.
Qed.

(** The solver finds the smallest nonce: what it returns verifies, no
    smaller nonce does; it returns whenever a nonce below the bound solves
    the challenge or the stop channel closes, and it gives up only when the
    channel was closed. *)
Theorem Solve_spec p salt stop bound :
  Z.of_nat bound <= 2 ^ 64 ->
  ((exists n, 0 <= n < Z.of_nat bound /\ (Verify p salt n = true \/ stop n = true)) ->
     exists r, Solve bound p salt stop = Some r) /\
  (forall n, Solve bound p salt stop = Some (Ok n) ->
     Verify p salt n = true /\ forall m, 0 <= m < n -> Verify p salt m = false) /\
  (forall e, Solve bound p salt stop = Some (Err e) -> exists n, stop n = true).
Proof.
  intros Hb. unfold Solve, Verify.
  pose proof (solve_from_spec bound (DeriveKey p salt) (p_Difficulty p) stop 0 ltac:(lia) ltac:(lia)) as H.
  destruct (solve_from _ _ _ _ _) as [[n|e]|].
  - destruct H as (H1 & H2 & H3 & _). split; [by eexists|]. split; [|done]. intros n' [= <-].
    split; [lia|]. intros m Hm. specialize (H3 m Hm). lia.
  - split; [by eexists|]. split; [done|]. intros e' _. naive_solver.
  - split; [|split; done]. intros (n & Hn & Hc). exfalso. destruct (H n Hn) as [H1 H2].
    destruct Hc; [lia|congruence].
Qed.
End search.

Definition easy_preset : Preset := mkPreset 1 8192 1 5.

Lemma Solve_spec_witness :
  exists n, Solve (A := toy_argon2) 200 easy_preset (lit "salt") (fun _ => false) = Some (Ok n) /\
            Verify (A := toy_argon2) easy_preset (lit "salt") n = true.
Proof.
  assert (match Solve (A := toy_argon2) 200 easy_preset (lit "salt") (fun _ => false) with
          | Some (Ok _) => true | _ => false end = true) as Hok by (vm_compute; reflexivity).
  pose proof (Solve_spec (A := toy_argon2) easy_preset (lit "salt") (fun _ => false) 200 ltac:(lia)) as (_ & H & _).
  destruct (Solve (A := toy_argon2) 200 easy_preset (lit "salt") (fun _ => false)) as [[n|e]|]; [|discriminate Hok..].
  exists n. split; [exact eq_refl|]. exact (proj1 (H n eq_refl)).
Defined.

(** ** Offers *)

Lemma itoa_no_nul n : nul ∉ itoa n.
Proof. by apply itoa_no_byte. Qed.

(** An offer's signature covers every term of it: two offers with the same
    signed bytes are the same offer (the salt carries no NUL byte), so a
    changed tier, cost, difficulty, deadline or challenge needs a new
    signature. *)
Theorem offerMessage_inj o o' :
  nul ∉ o_Salt o -> nul ∉ o_Salt o' -> offerMessage o = offerMessage o' -> o = o'.
Proof.
  destruct o as [t [pt pm pth pd] s e c], o' as [t' [pt' pm' pth' pd'] s' e' c'].
  unfold offerMessage. cbn [o_Tier o_Preset o_Salt o_Expires o_ChallengeID p_Time p_Memory p_Threads p_Difficulty].
  intros Hs Hs' H. apply app_inv_head in H. injection H as H.
  do 5 (apply sep_inj in H as [?%itoa_inj H]; [|apply itoa_no_nul..]).
  apply sep_inj in H as [-> H]; [|done|done].
  apply sep_inj in H as [?%itoa_inj ->]; [|apply itoa_no_nul..]. by subst.
Qed.

Definition sample_offer : Offer := mkOffer 1 easy_preset (lit "a1b2") 1700000000 (lit "id").

Lemma offerMessage_inj_witness : sample_offer = sample_offer.
Proof.
  apply offerMessage_inj; [| |reflexivity]; apply (bool_decide_unpack _); vm_compute; exact I.
Defined.
