(* ===== verification/Trip.v ===== *)
(** Tripcode signatures: the signed payload ([lib/tripcolor]), its verification
    ([lib/trip/verify.go]) and the reveal of a key ([lib/trip/reveal.go]), with
    the badge colours and the log shortener ([lib/strutil]). *)

From S2P Require Import Prelude Bytes Sha2 Utf8 ChainLink Crypto.
Local Open Scope Z_scope.

(** * Badge colours (lib/tripcolor/color.go) *)

Definition palette : list (Z * Z * Z) :=
  [(79, 129, 255); (129, 199, 132); (255, 183, 77); (149, 117, 205); (77, 208, 225);
   (255, 138, 101); (174, 213, 129); (144, 164, 174); (255, 213, 79); (100, 181, 246)].

Definition clamp (v : Z) : Z := if v <? 0 then 0 else if 255 <? v then 255 else v.

Definition BadgeRGBWithPalette (badge : str) (pal : list (Z * Z * Z)) : Z * Z * Z :=
  let pal := match pal with [] => palette | _ => pal end in
  let h0 := match sha256 badge with b :: _ => byte_val b | [] => 0 end in
  let '(r, g, b) := nth (Z.to_nat (h0 mod Z.of_nat (length pal))) pal (0, 0, 0) in
  (clamp r, clamp g, clamp b).

Definition BadgeRGB (badge : str) : Z * Z * Z := BadgeRGBWithPalette badge palette.

Definition BadgeColorWithPalette (badge : str) (pal : list (Z * Z * Z)) : str :=
  let '(r, g, b) := BadgeRGBWithPalette badge pal in
  byte_of 27 :: lit "[38;2;" ++ itoa r ++ lit ";" ++ itoa g ++ lit ";" ++ itoa b ++ lit "m".

Definition BadgeColor (badge : str) : str := BadgeColorWithPalette badge palette.

(** * Log shortener (lib/strutil/strutil.go) *)

Definition ShortN (s : str) (n : Z) : str :=
  if n <=? 0 then s
  else
    let rs := runes s in
    if Z.of_nat (length rs) <=? n then s
    else encode (take (Z.to_nat n) rs) ++ lit "…".

Definition Short (s : str) : str := ShortN s 12.

(** * Signed payload *)

Definition CanonicalPayload (serverPub : str) (seq : Z) (prev msgHash pub displayName : str)
    (tmpID replyTo : Z) : str :=
  serverPub ++ nul :: itoa seq ++ nul :: hex_encode prev ++ nul :: hex_encode msgHash ++ nul ::
  hex_encode pub ++ nul :: displayName ++ nul :: itoa tmpID ++ nul :: itoa replyTo.

Definition CanonicalPayloadLegacy (serverPub : str) (seq : Z) (prev msgHash pub displayName : str) : str :=
  serverPub ++ nul :: itoa seq ++ nul :: hex_encode prev ++ nul :: hex_encode msgHash ++ nul ::
  hex_encode pub ++ nul :: displayName.

(** * Verification (lib/trip/verify.go) *)

Record VerifyParams := mkVerify {
  vp_Text : str;
  vp_DisplayName : str;
  vp_ServerPub : str;
  vp_PubHex : str;
  vp_Seq : Z;
  vp_PrevHex : str;
  vp_SigHex : str;
  vp_MsgHashHex : str;
  vp_TmpID : Z;
  vp_ReplyTo : Z;
  vp_SkipTextCheck : bool
}.

Record VerifyResult := mkVerified {
  vr_PubHex : str;
  vr_Seq : Z;
  vr_PrevHex : str;
  vr_SigHex : str;
  vr_MsgHash : str;
  vr_ServerPub : str;
  vr_Badge : str;
  vr_NewPrev : str
}.

Inductive verify_error :=
| PubLength | SigLength | PrevLength | MsgHashLength | ServerPubLength
| BadPub | BadSig | BadPrev | BadMsgHash | MsgHashMismatch | SignatureMismatch.

(** [hex.DecodeString] followed by the length test. *)
Definition decode_sized (s : str) (n : Z) : option str :=
  match hex_decode s with Some b => if slen b =? n then Some b else None | None => None end.

Section trip.
Context {U : Unicode} {E : Ed25519}.

Definition canon (s : str) : str := ToLower (TrimSpace s).

Definition trip_Verify (p : VerifyParams) : res verify_error VerifyResult :=
  let pubHex := canon (vp_PubHex p) in
  let sigHex := canon (vp_SigHex p) in
  let prevHex := canon (vp_PrevHex p) in
  let msgHashHex := canon (vp_MsgHashHex p) in
  let serverPub := canon (vp_ServerPub p) in
  if negb (slen pubHex =? 64) then Err PubLength
  else if negb (slen sigHex =? 128) then Err SigLength
  else if negb (slen prevHex =? 64) then Err PrevLength
  else if negb (slen msgHashHex =? 64) then Err MsgHashLength
  else if negb (slen serverPub =? 0) && negb (slen serverPub =? 64) then Err ServerPubLength
  else
  match decode_sized pubHex PublicKeySize with None => Err BadPub | Some pubBytes =>
  match decode_sized sigHex SignatureSize with None => Err BadSig | Some sigBytes =>
  match decode_sized prevHex 32 with None => Err BadPrev | Some prevBytes =>
  match decode_sized msgHashHex 32 with None => Err BadMsgHash | Some msgHashBytes =>
  if negb (vp_SkipTextCheck p) && negb (str_eqb (hex_encode (sha256 (vp_Text p))) msgHashHex)
  then Err MsgHashMismatch
  else
    let payload :=
      if (vp_TmpID p =? 0) && (vp_ReplyTo p =? 0)
      then CanonicalPayloadLegacy serverPub (vp_Seq p) prevBytes msgHashBytes pubBytes (vp_DisplayName p)
      else CanonicalPayload serverPub (vp_Seq p) prevBytes msgHashBytes pubBytes (vp_DisplayName p)
             (vp_TmpID p) (vp_ReplyTo p) in
    if negb (ed_verify pubBytes payload sigBytes) then Err SignatureMismatch
    else Ok (mkVerified pubHex (vp_Seq p) prevHex sigHex msgHashHex serverPub
               (lit "◆ " ++ take 8 (hex_encode (sha256 pubBytes)))
               (sha256 (prevBytes ++ sigBytes ++ msgHashBytes)))
  end end end end.

(** * Reveal (lib/trip/reveal.go) *)

Definition PubFromSeed (seed : str) : option str :=
  if negb (slen seed =? SeedSize) then None else Some (hex_encode (ed_pub seed)).

Definition VerifySeed (seedHex pubHex : str) : bool :=
  let seedHex := canon seedHex in
  let pubHex := canon pubHex in
  if negb (slen seedHex =? SeedSize * 2) || negb (slen pubHex =? PublicKeySize * 2) then false
  else match hex_decode seedHex with
  | None => false
  | Some seed => match PubFromSeed seed with Some got => str_eqb got pubHex | None => false end
  end.

Definition revealDomain : str := lit "v2v.trip.reveal.v1".

Definition RevealPayload (pubHex : str) : str := revealDomain ++ nul :: canon pubHex.

(** [ed25519.PrivateKeySize]: the seed and the public key. *)
Definition SignReveal (priv : str) (pubHex : str) : str :=
  if negb (slen priv =? 64) then [] else hex_encode (ed_sign (take 32 priv) (RevealPayload pubHex)).

Definition VerifyReveal (pubHex sigHex : str) : bool :=
  match decode_sized (TrimSpace pubHex) PublicKeySize with
  | None => false
  | Some pub =>
      match decode_sized (TrimSpace sigHex) SignatureSize with
      | None => false
      | Some sig => ed_verify pub (RevealPayload pubHex) sig
      end
  end.
End trip.

(** * Theorems *)

Section theorems.
Context {U : Unicode} {E : Ed25519}.

Lemma hex_no_nul s : nul ∉ hex_encode s.
Proof.
  intros H. pose proof (hex_encode_lower s) as Hl. unfold lower_hex in Hl.
  rewrite forallb_forall in Hl. apply list_elem_of_In, Hl in H. by vm_compute in H.
Qed.

(** Split two payloads at their last two fields. *)
Lemma last_sep_inj a b s t :
  nul ∉ s -> nul ∉ t -> a ++ nul :: s = b ++ nul :: t -> a = b /\ s = t.
Proof.
  intros Hs Ht H. apply (f_equal reverse) in H.
  rewrite !reverse_app, !reverse_cons, <- !app_assoc in H. cbn [app] in H.
  apply sep_inj in H as [H1 H2]; [|by rewrite elem_of_reverse..].
  split; by apply (inj reverse).
Qed.

(** A trip signature covers the server, the position in the trip's own
    chain, the message, the key, the displayed name and both ids: equal
    payloads mean equal fields (the server key carries no NUL byte; the
    name may). *)
Theorem CanonicalPayload_inj sp sp' seq seq' prev prev' mh mh' pub pub' dn dn' tid tid' rt rt' :
  nul ∉ sp -> nul ∉ sp' ->
  CanonicalPayload sp seq prev mh pub dn tid rt = CanonicalPayload sp' seq' prev' mh' pub' dn' tid' rt' ->
  sp = sp' /\ seq = seq' /\ prev = prev' /\ mh = mh' /\ pub = pub' /\ dn = dn' /\ tid = tid' /\ rt = rt'.
Proof.
  intros Hs Hs' H. unfold CanonicalPayload in H.
  apply sep_inj in H as [-> H]; [|done|done].
  apply sep_inj in H as [->%itoa_inj H]; [|by apply itoa_no_byte..].
  apply sep_inj in H as [->%hex_encode_inj H]; [|apply hex_no_nul..].
  apply sep_inj in H as [->%hex_encode_inj H]; [|apply hex_no_nul..].
  apply sep_inj in H as [->%hex_encode_inj H]; [|apply hex_no_nul..].
  rewrite !(app_comm_cons _ _ nul), !(app_assoc dn), !(app_assoc dn') in H.
  apply last_sep_inj in H as [H ->%itoa_inj]; [|by apply itoa_no_byte..].
  apply last_sep_inj in H as [-> ->%itoa_inj]; [|by apply itoa_no_byte..].
  tauto.
Qed.

(** The payload without ids is not in a domain of its own: an id suffix moved
    into the displayed name gives the same bytes. *)
Lemma legacy_strips_ids sp seq prev mh pub dn tid rt :
  CanonicalPayloadLegacy sp seq prev mh pub (dn ++ nul :: itoa tid ++ nul :: itoa rt) =
  CanonicalPayload sp seq prev mh pub dn tid rt.
Proof. done. Qed.

Lemma decode_sized_Some s n b : decode_sized s n = Some b <-> hex_decode s = Some b /\ slen b = n.
Proof.
  unfold decode_sized. destruct (hex_decode s) as [b'|]; [|naive_solver].
  destruct (slen b' =? n) eqn:En; [|split; [done|intros [[= ->] ?]; lia]].
  split; [intros [= ->]; split; [done|lia]|naive_solver].
Qed.

Lemma decode_sized_encode b n : slen b = n -> decode_sized (hex_encode b) n = Some b.
Proof. intros H. apply decode_sized_Some. by rewrite hex_decode_encode. Qed.

(** What an accepted signature says. *)
Definition accepted (p : VerifyParams) (r : VerifyResult) : Prop :=
  exists pub sig prev mh,
    hex_decode (canon (vp_PubHex p)) = Some pub /\ slen pub = 32 /\
    hex_decode (canon (vp_SigHex p)) = Some sig /\ slen sig = 64 /\
    hex_decode (canon (vp_PrevHex p)) = Some prev /\ slen prev = 32 /\
    hex_decode (canon (vp_MsgHashHex p)) = Some mh /\ slen mh = 32 /\
    (slen (canon (vp_ServerPub p)) = 0 \/ slen (canon (vp_ServerPub p)) = 64) /\
    (vp_SkipTextCheck p = false -> mh = sha256 (vp_Text p)) /\
    ed_verify pub
      (if (vp_TmpID p =? 0) && (vp_ReplyTo p =? 0)
       then CanonicalPayloadLegacy (canon (vp_ServerPub p)) (vp_Seq p) prev mh pub (vp_DisplayName p)
       else CanonicalPayload (canon (vp_ServerPub p)) (vp_Seq p) prev mh pub (vp_DisplayName p)
              (vp_TmpID p) (vp_ReplyTo p)) sig = true /\
    vr_Seq r = vp_Seq p /\ vr_NewPrev r = sha256 (prev ++ sig ++ mh) /\
    vr_PubHex r = canon (vp_PubHex p).

Lemma hex_decode_slen s b : hex_decode s = Some b -> slen s = 2 * slen b.
Proof. intros H%hex_decode_length. unfold slen. lia. Qed.

Lemma trip_Verify_accepted p r : trip_Verify p = Ok r -> accepted p r.
Proof.
  unfold trip_Verify.
  destruct (negb (slen (canon (vp_PubHex p)) =? 64)); [done|].
  destruct (negb (slen (canon (vp_SigHex p)) =? 128)); [done|].
  destruct (negb (slen (canon (vp_PrevHex p)) =? 64)); [done|].
  destruct (negb (slen (canon (vp_MsgHashHex p)) =? 64)); [done|].
  destruct (negb (slen (canon (vp_ServerPub p)) =? 0) && _) eqn:Esp; [done|].
  destruct (decode_sized (canon (vp_PubHex p)) _) as [pub|] eqn:E1; [|done].
  destruct (decode_sized (canon (vp_SigHex p)) _) as [sig|] eqn:E2; [|done].
  destruct (decode_sized (canon (vp_PrevHex p)) _) as [prev|] eqn:E3; [|done].
  destruct (decode_sized (canon (vp_MsgHashHex p)) _) as [mh|] eqn:E4; [|done].
  destruct (negb (vp_SkipTextCheck p) && _) eqn:Et; [done|].
  destruct (negb (ed_verify _ _ _)) eqn:Ev; [done|]. intros [= <-].
  apply decode_sized_Some in E1 as [? ?], E2 as [? ?], E3 as [? ?], E4 as [E4 ?].
  exists pub, sig, prev, mh. apply negb_false_iff in Ev.
  repeat (split; [done|]). split; [lia|]. split; [|done].
  intros Hskip. rewrite Hskip in Et. simpl in Et. apply negb_false_iff, str_eqb_eq in Et.
  rewrite <- Et, hex_decode_encode in E4. congruence.
Qed.

(** What [Verify] accepts is signed: every field decodes to its size, the
    shown text hashes to the signed hash (unless no text is shown) and the
    key's signature covers the payload; the result carries the key, the
    sequence number and the next link of the trip's chain. *)
Theorem trip_Verify_sound p r : trip_Verify p = Ok r -> accepted p r.
Proof. apply trip_Verify_accepted. Qed.

(** A line signed the way the client signs it verifies. *)
Lemma signed_line_ok (L : Ed25519Laws) seed text dn sp seq prev tid rt :
  length seed = 32%nat -> length prev = 32%nat -> (sp = [] \/ length sp = 64%nat) ->
  lower_hex sp = true -> tid <> 0 ->
  let pub := ed_pub seed in
  let mh := sha256 text in
  let sig := ed_sign seed (CanonicalPayload sp seq prev mh pub dn tid rt) in
  exists r,
    trip_Verify (mkVerify text dn sp (hex_encode pub) seq (hex_encode prev) (hex_encode sig)
                   (hex_encode mh) tid rt false) = Ok r /\
    vr_PubHex r = hex_encode pub /\ vr_Seq r = seq /\ vr_NewPrev r = sha256 (prev ++ sig ++ mh).
Proof.
  intros Hseed Hprev Hsp Hlow Htid pub mh sig.
  assert (length pub = 32%nat) as Hpub by by apply ed_pub_size.
  assert (length sig = 64%nat) as Hsig by by apply ed_sign_size.
  assert (length mh = 32%nat) as Hmh by apply length_sha256.
  unfold trip_Verify, canon.
  cbn [vp_Text vp_DisplayName vp_ServerPub vp_PubHex vp_Seq vp_PrevHex vp_SigHex vp_MsgHashHex vp_TmpID vp_ReplyTo vp_SkipTextCheck].
  rewrite !lower_hex_canon by (done || apply hex_encode_lower).
  unfold slen at 1 2 3 4. rewrite !length_hex_encode, Hpub, Hsig, Hprev, Hmh.
  change (negb (Z.of_nat (2 * 32) =? 64)) with false. change (negb (Z.of_nat (2 * 64) =? 128)) with false. cbv iota.
  replace (negb (slen sp =? 0) && negb (slen sp =? 64)) with false.
  2:{ unfold slen. destruct Hsp as [-> | ->]; done. }
  rewrite !decode_sized_encode by (unfold slen; rewrite ?Hpub, ?Hsig, ?Hprev, ?Hmh; done).
  fold mh. rewrite str_eqb_refl. cbn [negb andb].
  replace ((tid =? 0) && (rt =? 0)) with false by lia.
  unfold sig, pub. rewrite ed_verify_sign by done. cbn [negb].
  eexists. split; [done|]. done.
Qed.

(** A line signed the way the client signs it verifies, at any nonzero
    message id, for its sender's key, and advances the trip's chain by one
    hash. *)
Theorem signed_line_verifies (L : Ed25519Laws) seed text dn sp seq prev tid rt :
  length seed = 32%nat -> length prev = 32%nat -> (sp = [] \/ length sp = 64%nat) ->
  lower_hex sp = true -> tid <> 0 ->
  let pub := ed_pub seed in
  let mh := sha256 text in
  let sig := ed_sign seed (CanonicalPayload sp seq prev mh pub dn tid rt) in
  exists r,
    trip_Verify (mkVerify text dn sp (hex_encode pub) seq (hex_encode prev) (hex_encode sig)
                   (hex_encode mh) tid rt false) = Ok r /\
    vr_PubHex r = hex_encode pub /\ vr_Seq r = seq /\ vr_NewPrev r = sha256 (prev ++ sig ++ mh).
Proof. exact (signed_line_ok L seed text dn sp seq prev tid rt). Qed.

(** Revealing a key: the announced seed is accepted for exactly the key it
    derives, and the owner's reveal signature verifies for that key. *)
Theorem reveal_roundtrip (L : Ed25519Laws) seed pubHex :
  length seed = 32%nat ->
  (VerifySeed (hex_encode seed) pubHex = true <-> canon pubHex = hex_encode (ed_pub seed)) /\
  VerifyReveal (hex_encode (ed_pub seed))
    (SignReveal (seed ++ ed_pub seed) (hex_encode (ed_pub seed))) = true.
Proof.
  intros Hseed. assert (length (ed_pub seed) = 32%nat) as Hpub by by apply ed_pub_size. split.
  - unfold VerifySeed, PubFromSeed.
    assert (canon (hex_encode seed) = hex_encode seed) as Hcan by apply lower_hex_canon, hex_encode_lower.
    rewrite !Hcan, hex_decode_encode.
    replace (slen (hex_encode seed) =? SeedSize * 2) with true
      by (unfold slen; by rewrite length_hex_encode, Hseed).
    replace (slen seed =? SeedSize) with true by (unfold slen; by rewrite Hseed). cbn [negb orb].
    destruct (slen (canon pubHex) =? PublicKeySize * 2) eqn:El; cbn [negb].
    + rewrite str_eqb_eq. naive_solver.
    + split; [done|]. intros Hc. rewrite Hc in El. unfold slen in El. by rewrite length_hex_encode, Hpub in El.
  - unfold VerifyReveal, SignReveal.
    assert (forall s, TrimSpace (hex_encode s) = hex_encode s) as Htrim.
    { intros s. apply TrimSpace_id. pose proof (hex_encode_lower s) as Hl. unfold lower_hex, is_digit in Hl.
      rewrite forallb_forall in Hl. unfold runes. rewrite segs_ascii.
      - rewrite map_map. apply forallb_forall. intros r (c & <- & Hc)%in_map_iff. simpl.
        specialize (Hl c Hc). unfold IsSpace. lia.
      - apply forallb_forall. intros c Hc. specialize (Hl c Hc). unfold is_ascii. lia. }
    unfold slen at 1. rewrite length_app, Hseed, Hpub. change (negb (Z.of_nat (32 + 32) =? 64)) with false. cbv iota.
    rewrite !Htrim, take_app_length' by done.
    rewrite !decode_sized_encode; [by apply ed_verify_sign| |].
    + unfold slen. by rewrite ed_sign_size.
    + unfold slen. by rewrite Hpub.
Qed.
End theorems.

Lemma CanonicalPayload_inj_witness : lit "An" = lit "An".
Proof.
  apply (CanonicalPayload_inj [] [] 1 1 (lit "p") (lit "p") (lit "m") (lit "m") (lit "k") (lit "k")
           (lit "An") (lit "An") 7 7 0 0); [apply not_elem_of_nil|apply not_elem_of_nil|reflexivity].
Defined.

(** A concrete signed line under the toy signature. *)
Definition toy_seed : str := sha256 (lit "seed").
Definition toy_zero : str := repeat nul 32.
Definition toy_line : VerifyParams :=
  let pub := ed_pub (Ed25519 := toy_ed25519) toy_seed in
  mkVerify (lit "hi") (lit "An") [] (hex_encode pub) 1 (hex_encode toy_zero)
    (hex_encode (ed_sign (Ed25519 := toy_ed25519) toy_seed
       (CanonicalPayload [] 1 toy_zero (sha256 (lit "hi")) pub (lit "An") 7 0)))
    (hex_encode (sha256 (lit "hi"))) 7 0 false.

Lemma trip_Verify_sound_witness :
  exists r, trip_Verify (U := sample_unicode) (E := toy_ed25519) toy_line = Ok r /\
            accepted (U := sample_unicode) (E := toy_ed25519) toy_line r.
Proof.
  assert (match trip_Verify (U := sample_unicode) (E := toy_ed25519) toy_line with
          | Ok _ => true | Err _ => false end = true) as Hok by (vm_compute; reflexivity).
  destruct (trip_Verify (U := sample_unicode) (E := toy_ed25519) toy_line) as [r|e] eqn:Hr; [|discriminate Hok].
  exists r. split; [exact eq_refl|]. exact (trip_Verify_sound _ _ Hr).
Defined.

Lemma signed_line_verifies_witness :
  exists r, trip_Verify (U := sample_unicode) (E := toy_ed25519) toy_line = Ok r /\ vr_Seq r = 1.
Proof.
  destruct (signed_line_verifies (U := sample_unicode) (E := toy_ed25519) toy_laws toy_seed
              (lit "hi") (lit "An") [] 1 toy_zero 7 0) as (r & H1 & _ & H2 & _).
  - apply length_sha256.
  - reflexivity.
  - left. reflexivity.
  - reflexivity.
  - lia.
  - exists r. split; [exact H1|exact H2].
Defined.

Lemma reveal_roundtrip_witness :
  VerifyReveal (U := sample_unicode) (E := toy_ed25519)
    (hex_encode (ed_pub (Ed25519 := toy_ed25519) toy_seed))
    (SignReveal (U := sample_unicode) (E := toy_ed25519)
       (toy_seed ++ ed_pub (Ed25519 := toy_ed25519) toy_seed)
       (hex_encode (ed_pub (Ed25519 := toy_ed25519) toy_seed))) = true.
Proof.
  apply (reveal_roundtrip (U := sample_unicode) (E := toy_ed25519) toy_laws toy_seed (lit "")).
  apply length_sha256.
Defined.
