(* ===== verification/Window.v ===== *)
(** The replay window of [server/history.go]: the ring that keeps the last lines
    of a forward stream, the selection of a window before a height, and the
    form a disk record takes in memory ([recordLine]), with the record codec of
    [server/history_store.go]. *)

From S2P Require Import Prelude Bytes Utf8 Wire Json.
Local Open Scope Z_scope.

(** * Disk records *)

Record historyRecord := mkRecord {
  hr_Seq : Z;
  hr_Timestamp : str;
  hr_Message : str;
  hr_Wire : option WireMessage
}.

Definition zeroRecord : historyRecord := mkRecord 0 [] [] None.

Definition owire (k : string) (w : option WireMessage) : list (str * json) :=
  match w with None => [] | Some w => [(lit k, JObj (wire_fields w))] end.

Definition record_fields (r : historyRecord) : list (str * json) :=
  oint "seq" (hr_Seq r) ++ fstr "ts" (hr_Timestamp r) ++ ostr "msg" (hr_Message r) ++
  owire "wire" (hr_Wire r).

Definition marshal_record (r : historyRecord) : str := print (JObj (record_fields r)).

(** A [*WireMessage] field: [null] clears it, an object fills what is there. *)
Definition dwire (v : json) (cur : option WireMessage) : option (option WireMessage) :=
  match v with
  | JNull => Some None
  | _ => w ← dobj wire_field v (default zeroWire cur); Some (Some w)
  end.

Definition record_field (st : option historyRecord) (kv : str * json) : option historyRecord :=
  match st with
  | None => None
  | Some (mkRecord seq ts msg w) =>
      let '(k, v) := kv in
      if key_is k "seq" then x ← duint 64 v seq; Some (mkRecord x ts msg w)
      else if key_is k "ts" then x ← dstr v ts; Some (mkRecord seq x msg w)
      else if key_is k "msg" then x ← dstr v msg; Some (mkRecord seq ts x w)
      else if key_is k "wire" then x ← dwire v w; Some (mkRecord seq ts msg x)
      else st
  end.

Definition unmarshal_record (s : str) : option historyRecord :=
  match parse s with Some v => dobj record_field v zeroRecord | None => None end.

(** [parseRecord]: a malformed line is the empty record. *)
Definition parseRecord (line : str) : historyRecord := default zeroRecord (unmarshal_record line).

Definition notice_line (msg : str) (seq : Z) : WireMessage :=
  mkWire (lit "system") [] [] [] 0 [] 0 0 0 [] [] [] msg None 0 0 [] [] 0 0 seq [].

(** [recordLine]: the line memory holds for a record; nothing for an empty one. *)
Definition recordLine (rec : historyRecord) : option str :=
  match hr_Wire rec with
  | Some w => Some (marshal_wire w)
  | None =>
      match hr_Message rec with
      | [] => None
      | _ =>
          if hr_Seq rec =? 0 then Some (hr_Message rec)
          else Some (marshal_wire (notice_line (hr_Message rec) (hr_Seq rec)))
      end
  end.

(** * The ring *)

Record windowRing := mkRing {
  wr_buf : list str;
  wr_start : nat;
  wr_n : nat;
  wr_limit : nat;
  wr_done : bool
}.

Definition newWindowRing (limit : Z) : windowRing :=
  mkRing [] 0 0 (if limit <? 0 then 0%nat else Z.to_nat limit) false.

(** The cutoff: a chained line at or above the height [before]. *)
Definition at_cutoff (before : Z) (msgStr : str) : bool :=
  if before =? 0 then false
  else match unmarshal_wire msgStr with
       | Some stored => negb (wm_ChainHeight stored =? 0) && (before <=? wm_ChainHeight stored)
       | None => false
       end.

Definition feed (r : windowRing) (msgStr : str) (before : Z) : bool * windowRing :=
  if wr_done r then (true, r)
  else if at_cutoff before msgStr then
    (true, mkRing (wr_buf r) (wr_start r) (wr_n r) (wr_limit r) true)
  else if (wr_limit r <=? 0)%nat then (false, r)
  else if (wr_n r <? wr_limit r)%nat then
    (false, mkRing (wr_buf r ++ [msgStr]) (wr_start r) (wr_n r + 1) (wr_limit r) false)
  else
    (false, mkRing (<[wr_start r := msgStr]> (wr_buf r)) ((wr_start r + 1) mod wr_limit r)
              (wr_n r) (wr_limit r) false).

Definition ring_lines (r : windowRing) : list str :=
  map (fun i => wr_buf r !!! ((wr_start r + i) mod wr_limit r)%nat) (seq 0 (wr_n r)).

(** The feeding loop of every caller: stop at the cutoff. *)
Fixpoint feed_all (r : windowRing) (lines : list str) (before : Z) : windowRing :=
  match lines with
  | [] => r
  | msgStr :: lines' =>
      let '(stop, r') := feed r msgStr before in
      if stop then r' else feed_all r' lines' before
  end.

Definition selectWindow (lines : list str) (before : Z) (limit : Z) : list str :=
  if limit <=? 0 then [] else ring_lines (feed_all (newWindowRing limit) lines before).

(** * Theorems *)

(** ** Records read back *)

Definition record_ok (r : historyRecord) : Prop :=
  is_u64 (hr_Seq r) /\ ValidString (hr_Timestamp r) = true /\ ValidString (hr_Message r) = true /\
  match hr_Wire r with None => True | Some w => wire_ranges w /\ wire_text_ok w = true end.

Lemma owire_ok k w :
  match w with None => True | Some w => wire_ranges w end -> field_ok (owire k) dwire k None w.
Proof.
  intros H. destruct w as [w|]; [|by left]. right. eexists. split; [done|].
  unfold dwire, dobj. simpl default. by rewrite wire_fields_read.
Qed.
#[export] Hint Resolve owire_ok : json.

Lemma record_printable r : record_ok r -> printable (JObj (record_fields r)) = true.
Proof.
  intros (Hs & Hts & Hm & Hw). change (fields_printable (record_fields r) = true).
  unfold record_fields. solve_printable. unfold owire. destruct (hr_Wire r) as [w|]; [|done].
  apply fp_one; [reflexivity|]. apply wire_fields_printable, Hw.
Qed.

Lemma record_read r : record_ok r -> unmarshal_record (marshal_record r) = Some r.
Proof.
  intros Hok. pose proof (record_printable r Hok) as Hpr. destruct Hok as (Hs & Hts & Hm & Hw).
  unfold unmarshal_record, marshal_record. rewrite (parse_fields _ 2); [|exact Hpr|by vm_compute|].
  - unfold dobj. destruct r as [seq ts msg w]. unfold record_fields, zeroRecord.
    cbn [hr_Seq hr_Timestamp hr_Message hr_Wire] in *.
    rewrite !fold_left_app.
    assert (match w with None => True | Some w => wire_ranges w end) by (destruct w; naive_solver).
    unfold is_u64 in Hs.
    rewrite (fold_field (fun y => mkRecord y [] [] None) "seq" (oint "seq") (duint 64) 0) by solve_field.
    rewrite (fold_field (fun y => mkRecord seq y [] None) "ts" (fstr "ts") dstr []) by solve_field.
    rewrite (fold_field (fun y => mkRecord seq ts y None) "msg" (ostr "msg") dstr []) by solve_field.
    rewrite (fold_field (fun y => mkRecord seq ts msg y) "wire" (owire "wire") dwire None) by solve_field.
    done.
  - unfold record_fields, depth_le, owire. solve_depth. apply (depth_le_obj 1); [lia|]. apply wire_fields_depth.
Qed.

(** A record written to disk is read back unchanged by the loader, so what
    the history file holds is what the server stored. *)
Theorem record_roundtrip r : record_ok r -> unmarshal_record (marshal_record r) = Some r.
Proof. apply record_read. Qed.

(** ** The ring keeps the tail *)

(** The lines before the cutoff, and whether there is one. *)
Fixpoint before_cutoff (before : Z) (lines : list str) : list str :=
  match lines with
  | [] => []
  | l :: ls => if at_cutoff before l then [] else l :: before_cutoff before ls
  end.
Definition has_cutoff (before : Z) (lines : list str) : bool := existsb (at_cutoff before) lines.

(** The ring after the lines [fed]. *)
Record ring_inv (r : windowRing) (fed : list str) : Prop := {
  ri_len : length (wr_buf r) = wr_n r;
  ri_n : wr_n r = Nat.min (length fed) (wr_limit r);
  ri_start : (wr_start r < wr_limit r)%nat \/ wr_limit r = 0%nat;
  ri_start0 : (wr_n r < wr_limit r)%nat -> wr_start r = 0%nat;
  ri_lines : drop (wr_start r) (wr_buf r) ++ take (wr_start r) (wr_buf r) = lastn (wr_limit r) fed
}.

Lemma map_lookup_seq (l : list str) k : (k <= length l)%nat ->
  map (fun i => l !!! i) (seq (length l - k) k) = drop (length l - k) l.
Proof.
  intros Hk. apply list_eq. intros i. rewrite list_lookup_fmap, lookup_drop.
  destruct (decide (i < k)%nat).
  - rewrite lookup_seq_lt by done. simpl.
    destruct (lookup_lt_is_Some_2 l (length l - k + i)) as [x Hx]; [lia|].
    by rewrite Hx, (list_lookup_total_correct l _ x).
  - rewrite lookup_seq_ge by lia. simpl. symmetry. apply lookup_ge_None_2. lia.
Qed.

Lemma ring_lines_rotation r fed :
  ring_inv r fed -> ring_lines r = drop (wr_start r) (wr_buf r) ++ take (wr_start r) (wr_buf r).
Proof.
  intros [Hlen Hn Hs Hs0 _]. unfold ring_lines.
  destruct (decide (wr_n r < wr_limit r)%nat) as [Hlt|Hge].
  - rewrite Hs0 by done. rewrite take_0, drop_0, app_nil_r.
    rewrite <- Hlen. pose proof (map_lookup_seq (wr_buf r) (length (wr_buf r)) ltac:(lia)) as H.
    rewrite Nat.sub_diag, drop_0 in H. etrans; [|exact H]. apply map_ext_in. intros i Hi%in_seq.
    f_equal. apply Nat.mod_small. lia.
  - destruct (decide (wr_limit r = 0%nat)) as [H0|H0].
    { assert (wr_n r = 0%nat) as Hn0 by lia. rewrite Hn0. rewrite Hn0 in Hlen.
      apply length_zero_iff_nil in Hlen as ->. by rewrite drop_nil, take_nil. }
    destruct Hs as [Hs|?]; [|done].
    assert (wr_n r = wr_limit r) as HnL by lia.
    replace (wr_n r) with ((wr_n r - wr_start r) + wr_start r)%nat by lia.
    rewrite seq_app, map_app. f_equal.
    + apply list_eq. intros i. rewrite list_lookup_fmap, lookup_drop.
      destruct (decide (i < wr_n r - wr_start r)%nat).
      * rewrite lookup_seq_lt by lia. simpl. rewrite Nat.mod_small by lia.
        destruct (lookup_lt_is_Some_2 (wr_buf r) (wr_start r + i)) as [x Hx]; [lia|].
        by rewrite Hx, (list_lookup_total_correct _ _ x).
      * rewrite lookup_seq_ge by lia. simpl. symmetry. apply lookup_ge_None_2. lia.
    + pose proof (map_lookup_seq (take (wr_start r) (wr_buf r)) (wr_start r)) as H.
      rewrite length_take_le, Nat.sub_diag, drop_0 in H by lia. rewrite <- H by lia.
      apply list_eq. intros i. rewrite !list_lookup_fmap.
      destruct (decide (i < wr_start r)%nat); [|rewrite !lookup_seq_ge by lia; done].
      rewrite !lookup_seq_lt by lia. simpl. f_equal.
      replace (wr_start r + (wr_n r - wr_start r + i))%nat with (i + 1 * wr_limit r)%nat by lia.
      rewrite Nat.Div0.mod_add, Nat.mod_small by lia.
      rewrite lookup_total_take, decide_True by done. done.
Qed.

Lemma ring_inv_new limit : ring_inv (newWindowRing limit) [].
Proof. split; simpl; lia || done. Qed.

Lemma tail_drop {A} (l : list A) k : tail (drop k l) = drop (S k) l.
Proof. revert k. induction l as [|x l IH]; intros [|k]; simpl; done. Qed.

(** A full ring overwrites its oldest line. *)
Lemma rotation_overwrite {A} (l : list A) k x : (k < length l)%nat ->
  let k' := ((k + 1) mod length l)%nat in
  drop k' (<[k := x]> l) ++ take k' (<[k := x]> l) = tail (drop k l ++ take k l) ++ [x].
Proof.
  intros Hk. cbv zeta. destruct (lookup_lt_is_Some_2 l k Hk) as [y Hy].
  rewrite (drop_S l y k Hy). cbn [tail app]. rewrite <- app_assoc.
  destruct (decide (k + 1 = length l)%nat) as [He|Hne].
  - rewrite He, Nat.Div0.mod_same, drop_0, take_0, app_nil_r.
    rewrite (drop_ge l (S k)) by lia. cbn [app].
    rewrite insert_take_drop, (drop_ge l (S k)) by lia. done.
  - rewrite Nat.mod_small by lia. replace (k + 1)%nat with (S k) by lia.
    rewrite drop_insert_lt by lia. f_equal.
    rewrite (take_S_r _ k x) by by apply list_lookup_insert_eq.
    by rewrite take_insert_ge by lia.
Qed.

Lemma feed_inv r fed l before :
  ring_inv r fed -> wr_done r = false -> at_cutoff before l = false ->
  let '(stop, r') := feed r l before in
  stop = false /\ ring_inv r' (fed ++ [l]) /\ wr_done r' = false /\ wr_limit r' = wr_limit r.
Proof.
  intros [Hlen Hn Hs Hs0 Hl] Hd Hc. unfold feed. rewrite Hd, Hc.
  destruct (wr_limit r <=? 0)%nat eqn:E0.
  { assert (wr_limit r = 0%nat) as H0 by lia. split; [done|]. split; [|done].
    split; try done; try lia. rewrite Hl, H0. unfold lastn. by rewrite !Nat.sub_0_r, !drop_all. }
  destruct (wr_n r <? wr_limit r)%nat eqn:E1; (split; [done|]); (split; [|done]);
    split; cbn [wr_buf wr_start wr_n wr_limit].
  - rewrite length_app. simpl. lia.
  - rewrite length_app. simpl. lia.
  - lia.
  - intros _. apply Hs0. lia.
  - assert (wr_start r = 0%nat) as Hs' by (apply Hs0; lia). rewrite Hs', drop_0, take_0, app_nil_r in *.
    rewrite Hl, !lastn_all; [done|rewrite length_app; simpl; lia|lia].
  - rewrite length_insert. lia.
  - rewrite length_app. simpl. lia.
  - left. apply Nat.mod_upper_bound. lia.
  - lia.
  - assert (length (wr_buf r) = wr_limit r) as HL by lia. rewrite <- HL at 1 2.
    rewrite rotation_overwrite by lia. rewrite Hl.
    destruct (wr_limit r) as [|k] eqn:Ek; [lia|]. rewrite lastn_snoc. f_equal.
    unfold lastn. destruct (length fed - S k)%nat eqn:Ef.
    + replace (length fed - k)%nat with 1%nat by lia. by destruct fed.
    + replace (length fed - k)%nat with (S (length fed - S k)) by lia. rewrite Ef.
      apply tail_drop.
Qed.

Lemma feed_all_spec lines before : forall r fed,
  ring_inv r fed -> wr_done r = false ->
  let r' := feed_all r lines before in
  ring_inv r' (fed ++ before_cutoff before lines) /\ wr_done r' = has_cutoff before lines /\
  wr_limit r' = wr_limit r.
Proof.
  induction lines as [|l lines IH]; intros r fed Hr Hd; cbn [feed_all before_cutoff].
  { by rewrite app_nil_r. }
  unfold has_cutoff. cbn [existsb]. destruct (at_cutoff before l) eqn:Ec.
  - unfold feed. rewrite Hd, Ec, app_nil_r. cbv zeta iota. split; [|done]. by destruct Hr.
  - pose proof (feed_inv r fed l before Hr Hd Ec) as H.
    destruct (feed r l before) as [stop r']. destruct H as (-> & Hr' & Hd' & Hl').
    destruct (IH r' (fed ++ [l]) Hr' Hd') as (H1 & H2 & H3).
    rewrite <- app_assoc in H1. cbn [app] in H1. split; [done|]. split; [done|]. by rewrite H3.
Qed.

(** What a ring fed one or more streams holds. *)
Lemma ring_lines_spec r fed : ring_inv r fed -> ring_lines r = lastn (wr_limit r) fed.
Proof. intros H. rewrite (ring_lines_rotation r fed H). apply H. Qed.

Lemma newWindowRing_limit limit : wr_limit (newWindowRing limit) = Z.to_nat limit.
Proof. unfold newWindowRing. simpl. destruct (limit <? 0) eqn:E; [lia|done]. Qed.

(** The ring buffer computes the reference window: of the stored lines
    before the first chained height at or above the cursor (all of them when
    the cursor is 0), exactly the last [limit], in order. *)
Theorem selectWindow_spec lines before limit :
  selectWindow lines before limit = lastn (Z.to_nat limit) (before_cutoff before lines).
Proof.
  unfold selectWindow. destruct (limit <=? 0) eqn:E.
  { replace (Z.to_nat limit) with 0%nat by lia. unfold lastn. by rewrite Nat.sub_0_r, drop_all. }
  destruct (feed_all_spec lines before (newWindowRing limit) [] (ring_inv_new limit) eq_refl) as (H1 & _ & H3).
  rewrite (ring_lines_spec _ _ H1). rewrite H3, newWindowRing_limit. done.
Qed.

Lemma before_cutoff_app before l1 l2 :
  before_cutoff before (l1 ++ l2) =
  if has_cutoff before l1 then before_cutoff before l1 else l1 ++ before_cutoff before l2.
Proof.
  induction l1 as [|l l1 IH]; [done|]. unfold has_cutoff in *. cbn [app before_cutoff existsb].
  destruct (at_cutoff before l); [done|]. rewrite IH. simpl. by destruct (existsb _ l1).
Qed.

Lemma has_cutoff_app before l1 l2 :
  has_cutoff before (l1 ++ l2) = has_cutoff before l1 || has_cutoff before l2.
Proof. apply existsb_app. Qed.

Lemma before_cutoff_none before l : has_cutoff before l = false -> before_cutoff before l = l.
Proof.
  induction l as [|x l IH]; [done|]. unfold has_cutoff in *. simpl.
  destruct (at_cutoff before x); [done|]. intros H. by rewrite IH.
Qed.

(** A stored wire is cut off by its height. *)
Lemma at_cutoff_wire before w :
  wire_text_ok w = true -> wire_ranges w ->
  at_cutoff before (marshal_wire w) =
    negb (before =? 0) && (negb (wm_ChainHeight w =? 0) && (before <=? wm_ChainHeight w)).
Proof.
  intros Ht Hr. unfold at_cutoff. rewrite wire_roundtrip_read by done. by destruct (before =? 0).
Qed.

Definition sample_record : historyRecord :=
  mkRecord 9 (lit "2025-01-02T03:04:05Z") [] (Some (notice_line (lit "x") 9)).

Lemma record_roundtrip_witness : unmarshal_record (marshal_record sample_record) = Some sample_record.
Proof.
  apply record_roundtrip. unfold record_ok, is_u64. cbn. unfold wire_ranges, is_u64, is_i64. cbn.
  repeat split; try lia; reflexivity.
Defined.
