(* ===== verification/HistoryScan.v ===== *)
(** Reading one disk generation ([server/history_store.go]): the loader, the
    forward stream, and the optimised path that seeks to an index sample, finds
    the cutoff line and collects lines backward in chunks.  A file is the bytes
    a reader sees (the archive: its decompressed stream); an I/O error of an
    opened file is not modelled, a missing file is. *)

From S2P Require Import Prelude Bytes Utf8 Wire Json Window.
Local Open Scope Z_scope.

(** [bytes.Split(s, "\n")]; never empty.  The last part is the text after the
    last newline: a torn tail, or nothing. *)
Fixpoint split_nl (s : str) : list str :=
  match s with
  | [] => [[]]
  | c :: s' =>
      if byte_eqb c nl then [] :: split_nl s'
      else match split_nl s' with
           | [] => [[c]]
           | x :: xs => (c :: x) :: xs
           end
  end.

(** * The loader *)

Record indexedRecord := mkIndexed { ir_rec : historyRecord; ir_offset : Z }.

Definition empty_record (rec : historyRecord) : bool :=
  match hr_Wire rec, hr_Message rec with None, [] => true | _, _ => false end.

Fixpoint load_from (offset : Z) (parts : list str) : list indexedRecord :=
  match parts with
  | [] => []
  | raw :: parts' =>
      let rest := load_from (offset + (slen raw + 1)) parts' in
      match raw with
      | [] => rest
      | _ =>
          match unmarshal_record raw with
          | None => rest
          | Some rec => if empty_record rec then rest else mkIndexed rec offset :: rest
          end
      end
  end.

(** [loadJSONLFile] and [loadZstdFile] read the same stream of lines. *)
Definition loadJSONLFile (file : str) : list indexedRecord := load_from 0 (split_nl file).
Definition loadZstdFile (file : str) : list indexedRecord := load_from 0 (split_nl file).

(** * The index of a generation *)

Record heightSample := mkSample { hs_height : Z; hs_offset : Z }.

Record genIndex := mkGen {
  g_tier : Z;
  g_minH : Z;
  g_maxH : Z;
  g_chained : bool;
  g_samples : list heightSample;
  g_sinceSample : Z
}.

Definition indexSampleStride : Z := 256.

(** [sort.Search]: binary search for the first index where [f] holds. *)
Fixpoint sort_search_loop (fuel : nat) (f : nat -> bool) (i j : nat) : nat :=
  match fuel with
  | O => i
  | S fuel' =>
      if (i <? j)%nat then
        let h := ((i + j) / 2)%nat in
        if f h then sort_search_loop fuel' f i h else sort_search_loop fuel' f (S h) j
      else i
  end.

(** Each turn shrinks the interval, so [n + 1] turns are enough. *)
Definition sort_Search (n : nat) (f : nat -> bool) : nat := sort_search_loop (S n) f 0 n.

Definition seekOffset (samples : list heightSample) (bound : Z) : Z :=
  let i := sort_Search (length samples)
             (fun i => match samples !! i with Some s => bound <=? hs_height s | None => true end) in
  match i with
  | O => 0
  | S i' => match samples !! i' with Some s => hs_offset s | None => 0 end
  end.

(** * Scanning *)

Definition record_height (rec : historyRecord) : Z :=
  match hr_Wire rec with Some w => wm_ChainHeight w | None => 0 end.

(** The test of [findCutoff] on one complete line. *)
Definition line_at_bound (bound : Z) (line : str) : bool :=
  match line with
  | [] => false
  | _ => let h := record_height (parseRecord line) in negb (h =? 0) && (bound <=? h)
  end.

Fixpoint find_from (cur : Z) (parts : list str) (bound : Z) : option Z :=
  match parts with
  | line :: ((_ :: _) as rest) =>
      if line_at_bound bound line then Some cur else find_from (cur + (slen line + 1)) rest bound
  | _ => None
  end.

(** [None]: seeking failed ([ok = false]); otherwise the offset, if found. *)
Definition findCutoff (file : str) (samples : list heightSample) (bound : Z) : option (option Z) :=
  if bound =? 0 then Some None
  else
    let start := seekOffset samples bound in
    if 0 <? start then
      match file !! Z.to_nat (start - 1) with
      | Some b => if byte_eqb b nl then Some (find_from start (split_nl (drop (Z.to_nat start) file)) bound) else None
      | None => None
      end
    else Some (find_from start (split_nl (drop (Z.to_nat start) file)) bound).

(** The line a non-empty raw line stands for, if it renders. *)
Definition keep (raw : str) : option str :=
  match raw with [] => None | _ => recordLine (parseRecord raw) end.

Fixpoint stream_lines (ring : windowRing) (bound : Z) (parts : list str) : bool * windowRing :=
  match parts with
  | line :: ((_ :: _) as rest) =>
      match keep line with
      | Some msgStr =>
          let '(stop, ring') := feed ring msgStr bound in
          if stop then (true, ring') else stream_lines ring' bound rest
      | None => stream_lines ring bound rest
      end
  | _ => (false, ring)
  end.

Definition streamForward (ring : windowRing) (bound : Z) (file : str) : bool * windowRing :=
  stream_lines ring bound (split_nl file).

Definition backwardChunk : Z := 32 * 1024.
Definition maxTornProbe : Z := 64 * 1024.

(** The bytes [file\[off, off+n)]. *)
Definition slice (file : str) (off n : Z) : str := take (Z.to_nat n) (drop (Z.to_nat off) file).

Definition completeEnd (file : str) (end_ : Z) : Z :=
  if end_ <=? 0 then 0
  else
    let n := if end_ <? maxTornProbe then end_ else maxTornProbe in
    let buf := slice file (end_ - n) n in
    match last buf with
    | Some b =>
        if byte_eqb b nl then end_
        else match cut_last_byte nl buf with
             | Some (a, _) => end_ - n + slen a + 1
             | None => end_ - n
             end
    | None => end_
    end.

(** The inner loop over [parts\[1:\]], newest first: the kept lines so far and
    whether the quota is full. *)
Fixpoint take_kept (parts : list str) (rev : list str) (maxLines : Z) : list str * bool :=
  match parts with
  | [] => (rev, false)
  | p :: ps =>
      match keep p with
      | Some msg =>
          let rev' := rev ++ [msg] in
          if maxLines <=? Z.of_nat (length rev') then (rev', true) else take_kept ps rev' maxLines
      | None => take_kept ps rev maxLines
      end
  end.

(** The chunk loop: the position, the carried fragment and the kept lines when
    it stops.  Each turn moves back by at least one byte. *)
Fixpoint backward_loop (fuel : nat) (chunk : Z) (file : str) (pos : Z) (carry : str)
    (rev : list str) (maxLines : Z) : Z * str * list str :=
  match fuel with
  | O => (pos, carry, rev)
  | S fuel' =>
      if (0 <? pos) && (Z.of_nat (length rev) <? maxLines) then
        let n := if pos <? chunk then pos else chunk in
        let off := pos - n in
        let data := slice file off n ++ carry in
        let parts := split_nl data in
        let '(rev', full) := take_kept (reverse (tail parts)) rev maxLines in
        if full then (pos, carry, rev')
        else backward_loop fuel' chunk file off (hd [] parts) rev' maxLines
      else (pos, carry, rev)
  end.

Definition collectBackward (chunk : Z) (file : str) (endOff maxLines : Z) : list str :=
  if (maxLines <=? 0) || (endOff <=? 0) then []
  else
    let endOff := if slen file <? endOff then slen file else endOff in
    let endOff := completeEnd file endOff in
    let '(pos, carry, rev) := backward_loop (S (Z.to_nat endOff)) chunk file endOff [] [] maxLines in
    let rev :=
      if (pos =? 0) && (0 <? slen carry) && (Z.of_nat (length rev) <? maxLines) then
        match keep carry with Some msg => rev ++ [msg] | None => rev end
      else rev in
    reverse rev.

Definition DiskLookupOff : Z := 0.
Definition DiskLookupActive : Z := 1.
Definition DiskLookupRaw : Z := 2.
Definition DiskLookupArchive : Z := 3.

Definition forward_scan (file : str) (bound limit : Z) : list str * bool :=
  let '(stop, ring) := streamForward (newWindowRing limit) bound file in (ring_lines ring, stop).

(** [file]: what the path of the tier names, if it exists. *)
Definition scanGenTemp (file : option str) (bound : Z) (g : genIndex) (limit : Z) : list str * bool :=
  match file with
  | None => ([], false)
  | Some file =>
      if g_tier g =? DiskLookupArchive then forward_scan file bound limit
      else match findCutoff file (g_samples g) bound with
           | None => forward_scan file bound limit
           | Some (Some off) => (collectBackward backwardChunk file off limit, true)
           | Some None => (collectBackward backwardChunk file (slen file) limit, false)
           end
  end.

(** * Theorems *)

(** ** Splitting *)

Lemma split_nl_cons s : exists x xs, split_nl s = x :: xs /\ nl ∉ x.
Proof.
  induction s as [|c s (x & xs & E & Hx)]; [by exists [], []; split; [|apply not_elem_of_nil]|].
  simpl. destruct (byte_eqb c nl) eqn:Ec; [by exists [], (split_nl s); split; [|apply not_elem_of_nil]|].
  rewrite E. exists (c :: x), xs. split; [done|]. apply not_elem_of_cons. split; [|done].
  intros <-. by rewrite byte_eqb_refl in Ec.
Qed.

Lemma split_nl_nonempty s : split_nl s <> [].
Proof. destruct (split_nl_cons s) as (x & xs & -> & _). done. Qed.

Lemma split_nl_clean x : nl ∉ x -> split_nl x = [x].
Proof.
  induction x as [|c x IH]; [done|]. intros [Hc Hx]%not_elem_of_cons. simpl.
  rewrite byte_eqb_neq by congruence. by rewrite IH.
Qed.

(** Text before a split: only its last part joins the first part. *)
Lemma split_nl_app a b :
  exists front, split_nl (a ++ b) = front ++ tail (split_nl b) /\
                front = split_nl (a ++ hd [] (split_nl b)).
Proof.
  eexists. split; [|done]. destruct (split_nl_cons b) as (x & xs & E & Hx). rewrite E. cbn [hd tail].
  induction a as [|c a IH]; cbn [app].
  - by rewrite (split_nl_clean x), E.
  - cbn [split_nl]. destruct (byte_eqb c nl); [by rewrite IH|]. rewrite IH.
    destruct (split_nl_cons (a ++ x)) as (y & ys & Ey & _). by rewrite Ey.
Qed.

Lemma split_nl_line a b : split_nl (a ++ nl :: b) = split_nl a ++ split_nl b.
Proof.
  induction a as [|c a IH]; cbn [app split_nl]; [by rewrite byte_eqb_refl|].
  destruct (byte_eqb c nl); [by rewrite IH|]. rewrite IH.
  destruct (split_nl_cons a) as (y & ys & -> & _). done.
Qed.

(** The complete lines and the torn tail. *)
Definition complete_lines (s : str) : list str := removelast (split_nl s).
Definition torn (s : str) : str := List.last (split_nl s) [].

Lemma split_nl_parts s : split_nl s = complete_lines s ++ [torn s].
Proof. apply app_removelast_last, split_nl_nonempty. Qed.

Lemma torn_clean s : nl ∉ torn s.
Proof.
  unfold torn. induction s as [|c s IH]; [apply not_elem_of_nil|]. simpl.
  destruct (byte_eqb c nl) eqn:Ec.
  - destruct (split_nl_cons s) as (y & ys & E & _). by rewrite E in *.
  - destruct (split_nl_cons s) as (y & ys & E & Hy). rewrite E in *.
    destruct ys as [|z ys]; [|done]. simpl in *. apply not_elem_of_cons. split; [|done].
    intros <-. by rewrite byte_eqb_refl in Ec.
Qed.

Definition lines_bytes (l : list str) : str := flat_map (fun x => x ++ [nl]) l.

Lemma split_nl_join s : s = lines_bytes (complete_lines s) ++ torn s.
Proof.
  unfold complete_lines, torn, lines_bytes. induction s as [|c s IH]; [done|]. cbn [split_nl].
  destruct (split_nl_cons s) as (y & ys & E & _). rewrite E in *.
  destruct (byte_eqb c nl) eqn:Ec.
  - apply byte_eqb_eq in Ec as ->. cbn [removelast flat_map List.last app]. by f_equal.
  - destruct ys as [|z ys]; cbn [removelast flat_map List.last app] in *; by f_equal.
Qed.

Lemma complete_lines_line a b : complete_lines (a ++ nl :: b) = split_nl a ++ complete_lines b.
Proof. unfold complete_lines. rewrite split_nl_line. apply removelast_app, split_nl_nonempty. Qed.

(** ** Forward *)

(** The renderable lines of a file, in order: the reference reading. *)
Definition kept (parts : list str) : list str := omap keep parts.

Lemma stream_lines_feed parts : forall ring bound,
  wr_done ring = false ->
  (stream_lines ring bound parts).2 = feed_all ring (kept (removelast parts)) bound /\
  (stream_lines ring bound parts).1 = has_cutoff bound (kept (removelast parts)).
Proof.
  unfold kept, has_cutoff.
  induction parts as [|l parts IH]; intros ring bound Hd; [done|]. destruct parts as [|l' parts]; [done|].
  cbn [stream_lines removelast omap list_omap] in *. destruct (keep l) as [m|]; [|by apply IH].
  cbn [feed_all existsb]. unfold feed. rewrite Hd. destruct (at_cutoff bound m); [done|].
  destruct (wr_limit ring <=? 0)%nat; [by apply IH|]. destruct (wr_n ring <? wr_limit ring)%nat; by apply IH.
Qed.

Lemma forward_scan_spec file bound limit :
  forward_scan file bound limit =
  (lastn (Z.to_nat limit) (before_cutoff bound (kept (complete_lines file))),
   has_cutoff bound (kept (complete_lines file))).
Proof.
  unfold forward_scan, streamForward.
  destruct (stream_lines_feed (split_nl file) (newWindowRing limit) bound eq_refl) as [H1 H2].
  destruct (stream_lines _ _ _) as [stop ring]. simpl in H1, H2. subst. fold (complete_lines file).
  destruct (feed_all_spec (kept (complete_lines file)) bound (newWindowRing limit) [] (ring_inv_new limit) eq_refl) as (Hr & _ & Hl).
  rewrite (ring_lines_spec _ _ Hr), Hl, newWindowRing_limit. done.
Qed.

(** ** Backward *)

Lemma take_kept_spec parts : forall rev max,
  Z.of_nat (length rev) < max ->
  let '(rev', full) := take_kept parts rev max in
  rev' = take (Z.to_nat max) (rev ++ kept parts) /\
  full = (max <=? Z.of_nat (length rev')) /\
  (full = false -> rev' = rev ++ kept parts).
Proof.
  unfold kept. induction parts as [|p parts IH]; intros rev max Hlt; cbn [take_kept omap list_omap].
  { rewrite app_nil_r, take_ge by lia. split; [done|]. split; [lia|done]. }
  destruct (keep p) as [m|]; [|by apply IH]. destruct (max <=? Z.of_nat (length (rev ++ [m]))) eqn:E.
  - split; [|split; [done|done]]. rewrite length_app in E. simpl in E.
    change (m :: omap keep parts) with ([m] ++ omap keep parts). rewrite (app_assoc rev), take_app_length'; [done|]. rewrite length_app. simpl. lia.
  - specialize (IH (rev ++ [m]) max ltac:(lia)). destruct (take_kept parts (rev ++ [m]) max).
    rewrite <- app_assoc in IH. exact IH.
Qed.

Lemma kept_reverse l : kept (reverse l) = reverse (kept l).
Proof.
  unfold kept. induction l as [|x l IH]; [done|]. rewrite reverse_cons, omap_app, IH. simpl.
  destruct (keep x); [by rewrite reverse_cons|by rewrite app_nil_r].
Qed.

Lemma kept_app a b : kept (a ++ b) = kept a ++ kept b.
Proof. apply omap_app. Qed.

Lemma slice_all file n : slen file <= n -> slice file 0 n = file.
Proof. intros H. unfold slice. simpl. rewrite drop_0. apply take_ge. unfold slen in H. lia. Qed.

(** The text [\[pos, end)] splits into the carried fragment and the lines
    already collected. *)
Lemma backward_loop_spec chunk content : 0 < chunk ->
  forall fuel pos carry rest rev max,
  0 <= pos <= slen content -> (Z.to_nat pos < fuel)%nat -> 0 < max ->
  split_nl (drop (Z.to_nat pos) content) = carry :: rest ->
  rev = take (Z.to_nat max) (reverse (kept rest)) ->
  forall tailbytes,
  let '(pos', carry', rev') := backward_loop fuel chunk (content ++ tailbytes) pos carry rev max in
  (pos' = 0 -> exists rest', split_nl content = carry' :: rest' /\
                 rev' = take (Z.to_nat max) (reverse (kept rest'))) /\
  (pos' <> 0 -> rev' = take (Z.to_nat max) (reverse (kept (split_nl content))) /\ Z.of_nat (length rev') = max).
Proof.
  intros Hc. induction fuel as [|fuel IH]; intros pos carry rest rev max Hpos Hf Hmax Hs Hr tb; [lia|].
  cbn [backward_loop].
  assert (Z.of_nat (length rev) <= max) as Hlen by (rewrite Hr, length_take; lia).
  assert (forall front, split_nl content = front ++ rest ->
    Z.of_nat (length rev) = max -> rev = take (Z.to_nat max) (reverse (kept (split_nl content)))) as Hfull.
  { intros front E Hl. rewrite E, kept_app, reverse_app. rewrite Hr in Hl |- *.
    rewrite length_take in Hl. rewrite take_app_le by lia. done. }
  assert (exists front, split_nl content = front ++ rest) as [front Hfront].
  { destruct (split_nl_app (take (Z.to_nat pos) content) (drop (Z.to_nat pos) content)) as (front & E & _).
    rewrite take_drop, Hs in E. by exists front. }
  destruct (0 <? pos) eqn:E0; cbn [andb].
  2:{ assert (pos = 0) as -> by lia. split; [|done]. intros _. rewrite drop_0 in Hs. by exists rest. }
  destruct (Z.of_nat (length rev) <? max) eqn:E1.
  2:{ split; [lia|]. intros _. split; [apply (Hfull front); [done|lia]|lia]. }
  cbv zeta. set (n := if pos <? chunk then pos else chunk).
  assert (0 < n <= pos) as Hn by (unfold n; destruct (pos <? chunk) eqn:?; lia).
  assert (slice (content ++ tb) (pos - n) n = take (Z.to_nat n) (drop (Z.to_nat (pos - n)) content)) as ->.
  { unfold slice. unfold slen in Hpos. rewrite drop_app_le by lia. apply take_app_le. rewrite length_drop. lia. }
  assert (drop (Z.to_nat (pos - n)) content =
          take (Z.to_nat n) (drop (Z.to_nat (pos - n)) content) ++ drop (Z.to_nat pos) content) as Hd.
  { rewrite <- (take_drop (Z.to_nat n) (drop (Z.to_nat (pos - n)) content)) at 1. f_equal.
    rewrite drop_drop. f_equal. lia. }
  set (data := take (Z.to_nat n) (drop (Z.to_nat (pos - n)) content)) in *.
  destruct (split_nl_app data (drop (Z.to_nat pos) content)) as (fr & E & Efr).
  rewrite Hs in E, Efr. cbn [hd tail] in E, Efr. rewrite <- Efr. rewrite <- Hd in E.
  assert (exists x xs, fr = x :: xs) as (x & xs & ->).
  { rewrite Efr. destruct (split_nl_cons (data ++ carry)) as (x & xs & -> & _). by eexists _, _. }
  cbn [tail hd app] in *.
  assert (rev = reverse (kept rest)) as Hr'.
  { rewrite Hr in E1 |- *. rewrite length_take in E1. apply take_ge. lia. }
  pose proof (take_kept_spec (reverse xs) rev max ltac:(lia)) as Ht.
  destruct (take_kept (reverse xs) rev max) as [rev' full]. destruct Ht as (Ht1 & Ht2 & Ht3).
  assert (rev' = take (Z.to_nat max) (reverse (kept (xs ++ rest)))) as Hrev'.
  { rewrite Ht1, Hr', kept_app, reverse_app, kept_reverse. done. }
  destruct full.
  - split; [lia|]. intros _.
    assert (Z.of_nat (length rev') = max) as Hl.
    { assert (Z.of_nat (length rev') <= max); [|lia]. rewrite Ht1, length_take. lia. }
    split; [|done]. destruct (split_nl_app (take (Z.to_nat (pos - n)) content) (drop (Z.to_nat (pos - n)) content)) as (f2 & E2 & _).
    rewrite take_drop, E in E2. cbn [tail] in E2. rewrite E2, kept_app, reverse_app. rewrite Hrev' in Hl |- *.
    rewrite length_take in Hl. rewrite take_app_le by lia. done.
  - apply (IH (pos - n) x (xs ++ rest) rev' max); [lia|lia|done|done|done].
Qed.

Lemma removelast_snoc {A} (l : list A) x : removelast (l ++ [x]) = l.
Proof. rewrite removelast_app by done. simpl. apply app_nil_r. Qed.

(** A text that ends with a newline, or nothing: where complete lines end. *)
Definition line_end (s : str) : Prop := s = [] \/ exists s', s = s' ++ [nl].

Lemma line_end_torn s : line_end s <-> torn s = [].
Proof.
  split.
  - intros [->|(s' & ->)]; [done|]. unfold torn. change [nl] with (nl :: []).
    rewrite split_nl_line. cbn [split_nl]. apply last_last.
  - intros H. destruct (complete_lines s) as [|l ls] eqn:E using rev_ind.
    + left. rewrite (split_nl_join s), E, H. done.
    + right. rewrite (split_nl_join s), E, H, app_nil_r. unfold lines_bytes. rewrite flat_map_app.
      cbn [flat_map]. rewrite app_nil_r, app_assoc. by eexists.
Qed.

Lemma keep_nil : keep [] = None.
Proof. done. Qed.

Lemma kept_split s : line_end s -> kept (split_nl s) = kept (complete_lines s).
Proof.
  intros H%line_end_torn. rewrite split_nl_parts, H, kept_app. unfold kept at 2. simpl. apply app_nil_r.
Qed.

Lemma last_app_cons {A} (a : list A) x : last (a ++ [x]) = Some x.
Proof. apply last_snoc. Qed.

Lemma last_drop {A} (l : list A) k : (k < length l)%nat -> last (drop k l) = last l.
Proof.
  intros H. rewrite <- (take_drop k l) at 2. rewrite last_app.
  destruct (last (drop k l)) eqn:E; [done|].
  apply last_None in E. apply (f_equal length) in E. rewrite length_drop in E. simpl in E. lia.
Qed.

Lemma slen_take file n : 0 <= n <= slen file -> slen (take (Z.to_nat n) file) = n.
Proof. unfold slen. intros H. rewrite length_take. lia. Qed.

Lemma slice_suffix file e n :
  0 <= n <= e -> e <= slen file ->
  slice file (e - n) n = drop (Z.to_nat (e - n)) (take (Z.to_nat e) file).
Proof.
  intros Hn He. unfold slice. rewrite skipn_firstn_comm. f_equal. lia.
Qed.

(** The end of the complete lines of the first [e] bytes. *)
Lemma completeEnd_spec file e :
  0 <= e <= slen file -> slen (torn (take (Z.to_nat e) file)) < maxTornProbe ->
  completeEnd file e = e - slen (torn (take (Z.to_nat e) file)).
Proof.
  intros He Ht. unfold completeEnd. pose proof (slen_take file e He) as Hlp.
  rewrite (slice_suffix file e) by (destruct (e <? maxTornProbe) eqn:?; unfold maxTornProbe in *; lia).
  set (p := take (Z.to_nat e) file) in *.
  destruct (e <=? 0) eqn:E0.
  { assert (e = 0) as -> by lia. unfold p. done. }
  set (n := if e <? maxTornProbe then e else maxTornProbe).
  assert (0 < n <= e) as Hn by (unfold n, maxTornProbe; destruct (e <? 64 * 1024) eqn:?; lia).
  rewrite last_drop by (unfold slen in Hlp; lia).
  pose proof (split_nl_join p) as Hp. pose proof (torn_clean p) as Hclean.
  destruct (decide (torn p = [])) as [Etorn|Etorn].
  - rewrite Etorn. change (slen []) with 0.
    assert (line_end p) as [Hp0|(p' & Hp')] by by apply line_end_torn.
    + rewrite Hp0 in Hlp. unfold slen in Hlp. simpl in Hlp. lia.
    + rewrite Hp', last_snoc, byte_eqb_refl. lia.
  - destruct (exists_last Etorn) as (t & c & Et).
    assert (last p = Some c) as -> by (rewrite Hp, Et, app_assoc; apply last_snoc).
    rewrite byte_eqb_neq by (rewrite Et in Hclean; intros ->; apply Hclean, elem_of_app; right; by left).
    assert (0 < slen (torn p)) as Ht0 by (rewrite Et; unfold slen; rewrite length_app; simpl; lia).
    destruct (complete_lines p) as [|l ls] eqn:Ec using rev_ind; [|clear IHls].
    + simpl in Hp. assert (n = e) as -> by (unfold n; rewrite <- Hp in Ht; destruct (e <? maxTornProbe) eqn:?; lia).
      rewrite Z.sub_diag, drop_0.
      assert (cut_last_byte nl p = None) as -> by (apply cut_last_byte_None; rewrite Hp; exact Hclean).
      rewrite <- Hp. lia.
    + unfold lines_bytes in Hp. rewrite flat_map_app in Hp. cbn [flat_map] in Hp.
      rewrite app_nil_r, app_assoc, <- app_assoc in Hp. cbn [app] in Hp.
      set (L := flat_map (fun x => x ++ [nl]) ls ++ l) in *.
      assert (slen p = slen L + 1 + slen (torn p)) as Hsl.
      { rewrite Hp at 1. unfold slen. rewrite length_app. simpl. lia. }
      assert (slen (torn p) < n) as Hnt by (unfold n; destruct (e <? maxTornProbe) eqn:?; unfold slen in *; lia).
      assert (drop (Z.to_nat (e - n)) p = drop (Z.to_nat (e - n)) L ++ nl :: torn p) as ->.
      { rewrite Hp at 1. apply drop_app_le. unfold slen in *. lia. }
      rewrite cut_last_byte_app by done. unfold slen in *. rewrite length_drop. lia.
Qed.

Lemma lines_bytes_line_end l : line_end (lines_bytes l).
Proof.
  destruct l as [|x l] using rev_ind; [by left|]. right. unfold lines_bytes.
  rewrite flat_map_app. cbn [flat_map]. rewrite app_nil_r, app_assoc. by eexists.
Qed.

Lemma split_lines_bytes l : Forall (fun x => nl ∉ x) l -> split_nl (lines_bytes l) = l ++ [[]].
Proof.
  unfold lines_bytes. induction 1 as [|x l Hx _ IH]; [done|]. cbn [flat_map].
  rewrite <- app_assoc. cbn [app]. rewrite split_nl_line, IH, split_nl_clean by done. done.
Qed.

Lemma complete_lines_clean s : Forall (fun x => nl ∉ x) (complete_lines s).
Proof.
  unfold complete_lines. induction s as [|c s IH]; [constructor|]. cbn [split_nl].
  destruct (split_nl_cons s) as (y & ys & E & Hy). rewrite E in *.
  destruct (byte_eqb c nl) eqn:Ec.
  - destruct ys; (constructor; [apply not_elem_of_nil|exact IH]).
  - destruct ys as [|z ys]; [constructor|]. inversion IH; subst. constructor; [|done].
    apply not_elem_of_cons. split; [|done]. intros <-. by rewrite byte_eqb_refl in Ec.
Qed.

(** Backward collection computes the reference tail of the lines before
    [endOff]. *)
Lemma collectBackward_spec chunk file e max :
  0 < chunk -> 0 <= e <= slen file -> slen (torn (take (Z.to_nat e) file)) < maxTornProbe ->
  collectBackward chunk file e max =
  lastn (Z.to_nat max) (kept (complete_lines (take (Z.to_nat e) file))).
Proof.
  intros Hc He Ht. unfold collectBackward.
  destruct (max <=? 0) eqn:Em.
  { simpl. replace (Z.to_nat max) with 0%nat by lia. unfold lastn. by rewrite Nat.sub_0_r, drop_all. }
  destruct (e <=? 0) eqn:Ee; cbn [orb].
  { assert (e = 0) as -> by lia. done. }
  replace (slen file <? e) with false by lia. rewrite completeEnd_spec by done.
  set (p := take (Z.to_nat e) file) in *. pose proof (split_nl_join p) as Hp.
  set (content := lines_bytes (complete_lines p)) in *.
  assert (slen content = e - slen (torn p)) as Hsc.
  { pose proof (slen_take file e He) as Hl. fold p in Hl. rewrite Hp in Hl at 1.
    unfold slen in *. rewrite length_app in Hl. lia. }
  rewrite <- Hsc.
  assert (file = content ++ (torn p ++ drop (Z.to_nat e) file)) as Hfile.
  { rewrite app_assoc, <- Hp. symmetry. apply take_drop. }
  assert (0 <= slen content) as H0 by (unfold slen; lia).
  pose proof (backward_loop_spec chunk content Hc (S (Z.to_nat (slen content))) (slen content) [] [] [] max
    ltac:(lia) ltac:(lia) ltac:(lia)) as H.
  rewrite (drop_ge content) in H by (unfold slen; lia).
  assert ([] = take (Z.to_nat max) (reverse (kept []))) as Hnil by (symmetry; apply take_nil).
  specialize (H eq_refl Hnil (torn p ++ drop (Z.to_nat e) file)). rewrite <- Hfile in H.
  destruct (backward_loop _ _ _ _ _ _ _) as [[pos carry] rev].
  assert (kept (split_nl content) = kept (complete_lines p)) as Hk.
  { unfold content. rewrite split_lines_bytes by apply complete_lines_clean. rewrite kept_app.
    unfold kept at 2. simpl. apply app_nil_r. }
  destruct H as [Hz Hnz]. rewrite <- Hk. rewrite <- (reverse_involutive (kept (split_nl content))).
  assert (forall l : list str, reverse (take (Z.to_nat max) l) = lastn (Z.to_nat max) (reverse l)) as Hrt.
  { intros l. rewrite <- (reverse_involutive (lastn _ (reverse l))), reverse_lastn, reverse_involutive. done. }
  destruct (pos =? 0) eqn:Epos; cbn [andb].
  2:{ destruct Hnz as [-> _]; [lia|]. by rewrite Hrt. }
  destruct Hz as (rest & Hs & Hrev); [lia|]. rewrite Hs.
  change (carry :: rest) with ([carry] ++ rest). rewrite kept_app, reverse_app, <- Hrt.
  f_equal. rewrite Hrev.
  assert (reverse (kept [carry]) = match keep carry with Some m => [m] | None => [] end) as Hkc.
  { unfold kept. simpl. by destruct (keep carry). }
  rewrite Hkc. destruct (Z.of_nat (length (take (Z.to_nat max) (reverse (kept rest)))) <? max) eqn:El.
  - rewrite length_take in El. rewrite !andb_true_r.
    destruct carry as [|c carry]; [simpl; by rewrite app_nil_r|].
    change (0 <? slen (c :: carry)) with true. cbv iota.
    rewrite (take_ge (reverse (kept rest))) by lia.
    destruct (keep (c :: carry)) as [m|]; [|by rewrite app_nil_r, take_ge by lia].
    rewrite take_ge; [done|]. rewrite length_app. simpl. lia.
  - rewrite andb_false_r. rewrite length_take in El. rewrite take_app_le by lia. done.
Qed.

(** ** Seeking *)

Lemma sort_search_loop_left f fuel : forall i j,
  (i = 0%nat \/ f (i - 1)%nat = false) ->
  let r := sort_search_loop fuel f i j in r = 0%nat \/ f (r - 1)%nat = false.
Proof.
  induction fuel as [|fuel IH]; intros i j Hi; cbn [sort_search_loop]; [done|].
  destruct (i <? j)%nat; [|done]. cbv zeta. set (h := ((i + j) / 2)%nat).
  destruct (f h) eqn:E; [by apply IH|]. apply IH. right. by rewrite Nat.sub_succ, Nat.sub_0_r.
Qed.

Lemma sort_search_loop_bound f fuel : forall i j,
  (i <= j)%nat -> (i <= sort_search_loop fuel f i j <= j)%nat.
Proof.
  induction fuel as [|fuel IH]; intros i j Hi; cbn [sort_search_loop]; [lia|].
  destruct (i <? j)%nat eqn:E; [|lia]. cbv zeta.
  assert (i <= (i + j) / 2 < j)%nat as Hh by (apply Nat.ltb_lt in E; split; [apply Nat.div_le_lower_bound|apply Nat.Div0.div_lt_upper_bound]; lia).
  destruct (f ((i + j) / 2)%nat).
  - specialize (IH i ((i + j) / 2)%nat ltac:(lia)). lia.
  - specialize (IH (S ((i + j) / 2)) j ltac:(lia)). lia.
Qed.

(** [sort.Search] finds the boundary of a monotone predicate. *)
Lemma sort_search_loop_spec f fuel : forall i j,
  (forall a b, (a <= b)%nat -> f a = true -> f b = true) ->
  (j - i < fuel)%nat -> (i <= j)%nat ->
  (forall k, (k < i)%nat -> f k = false) -> (forall k, (j <= k)%nat -> f k = true) ->
  let r := sort_search_loop fuel f i j in
  (forall k, (k < r)%nat -> f k = false) /\ (forall k, (r <= k)%nat -> f k = true).
Proof.
  intros i j Hm. revert i j. induction fuel as [|fuel IH]; intros i j Hf Hij Hl Hr; [lia|].
  cbn [sort_search_loop]. destruct (i <? j)%nat eqn:E.
  - apply Nat.ltb_lt in E. cbv zeta.
    assert (i <= (i + j) / 2 < j)%nat as Hh by (split; [apply Nat.div_le_lower_bound|apply Nat.Div0.div_lt_upper_bound]; lia).
    destruct (f ((i + j) / 2)%nat) eqn:Ef.
    + apply IH; try lia; [done|]. intros k Hk. by apply (Hm ((i + j) / 2)%nat).
    + apply IH; try lia; [|done]. intros k Hk. destruct (f k) eqn:Ek; [|done].
      rewrite (Hm k ((i + j) / 2)%nat) in Ef; [done|lia|done].
  - assert (i = j) as -> by lia. done.
Qed.

Lemma seekOffset_spec samples bound :
  seekOffset samples bound = 0 \/
  exists s, s ∈ samples /\ hs_height s < bound /\ seekOffset samples bound = hs_offset s.
Proof.
  unfold seekOffset, sort_Search.
  set (f := fun i => match samples !! i with Some s => bound <=? hs_height s | None => true end).
  pose proof (sort_search_loop_left f (S (length samples)) 0 (length samples) ltac:(by left)) as H.
  destruct (sort_search_loop _ f 0 (length samples)) as [|i]; [by left|].
  destruct H as [H|H]; [done|]. rewrite Nat.sub_succ, Nat.sub_0_r in H. unfold f in H.
  destruct (samples !! i) as [s|] eqn:E; [|done]. right. exists s.
  split; [by eapply list_elem_of_lookup_2|]. split; [lia|done].
Qed.

(** A sample points at a line start, and no earlier line is higher. *)
Definition sample_ok (file : str) (s : heightSample) : Prop :=
  0 <= hs_offset s <= slen file /\ line_end (take (Z.to_nat (hs_offset s)) file) /\
  Forall (fun l => record_height (parseRecord l) <= hs_height s)
    (complete_lines (take (Z.to_nat (hs_offset s)) file)).

(** What memory would cut off is what the record says. *)
Definition coherent (bound : Z) (l : str) : Prop :=
  line_at_bound bound l = match keep l with Some m => at_cutoff bound m | None => false end.

Lemma kept_no_cutoff bound ls :
  Forall (coherent bound) ls -> Forall (fun l => line_at_bound bound l = false) ls ->
  has_cutoff bound (kept ls) = false.
Proof.
  intros Hc Hn. induction ls as [|l ls IH]; [done|].
  inversion Hc as [|?? Hcl Hc']; subst. inversion Hn as [|?? Hnl Hn']; subst.
  unfold kept, has_cutoff in *. cbn [omap list_omap]. unfold coherent in Hcl. rewrite Hnl in Hcl.
  destruct (keep l) as [m|]; [|by apply IH]. cbn [existsb]. by rewrite <- Hcl, IH.
Qed.

Lemma kept_cutoff bound pre l post :
  Forall (coherent bound) (pre ++ l :: post) -> Forall (fun l => line_at_bound bound l = false) pre ->
  line_at_bound bound l = true ->
  has_cutoff bound (kept (pre ++ l :: post)) = true /\
  before_cutoff bound (kept (pre ++ l :: post)) = kept pre.
Proof.
  intros Hc Hpre Hl. apply Forall_app in Hc as [Hcp Hcl]. inversion Hcl as [|?? Hcl' _]; subst.
  pose proof (kept_no_cutoff bound pre Hcp Hpre) as Hno.
  change (l :: post) with ([l] ++ post). rewrite !kept_app, has_cutoff_app, before_cutoff_app, Hno.
  unfold coherent in Hcl'. rewrite Hl in Hcl'. destruct (keep l) as [m|] eqn:Ek; [|done].
  assert (kept [l] = [m]) as -> by (unfold kept; cbn [omap list_omap]; by rewrite Ek).
  cbn [app]. unfold has_cutoff. cbn [existsb before_cutoff].
  rewrite <- Hcl'. split; [done|]. apply app_nil_r.
Qed.

Lemma find_from_spec bound lines : forall cur tl,
  match find_from cur (lines ++ [tl]) bound with
  | None => Forall (fun l => line_at_bound bound l = false) lines
  | Some off => exists pre l post, lines = pre ++ l :: post /\ off = cur + slen (lines_bytes pre) /\
      Forall (fun l => line_at_bound bound l = false) pre /\ line_at_bound bound l = true
  end.
Proof.
  induction lines as [|l lines IH]; intros cur tl; [constructor|].
  change ((l :: lines) ++ [tl]) with (l :: (lines ++ [tl])).
  assert (find_from cur (l :: (lines ++ [tl])) bound =
    if line_at_bound bound l then Some cur else find_from (cur + (slen l + 1)) (lines ++ [tl]) bound) as ->.
  { cbn [find_from]. destruct (lines ++ [tl]) eqn:E; [by destruct lines|]. done. }
  destruct (line_at_bound bound l) eqn:El.
  - exists [], l, lines. repeat split; [|constructor|done]. unfold slen. simpl. lia.
  - specialize (IH (cur + (slen l + 1)) tl). destruct (find_from _ _ _) as [off|].
    + destruct IH as (pre & l' & post & -> & -> & Hpre & Hl'). exists (l :: pre), l', post.
      split; [done|]. split; [|split; [by constructor|done]].
      unfold lines_bytes, slen. cbn [flat_map]. rewrite !length_app. simpl. lia.
    + by constructor.
Qed.

Lemma complete_lines_app a b : line_end a -> complete_lines (a ++ b) = complete_lines a ++ complete_lines b.
Proof.
  intros [->|(a' & ->)]; [done|]. rewrite <- app_assoc. cbn [app].
  rewrite complete_lines_line. f_equal. unfold complete_lines. change [nl] with (nl :: []).
  rewrite split_nl_line. cbn [split_nl]. by rewrite removelast_snoc.
Qed.

(** The two readings agree on one raw generation. *)
Lemma scan_raw_spec file g bound limit :
  g_tier g <> DiskLookupArchive -> bound <> 0 ->
  Forall (sample_ok file) (g_samples g) -> Forall (coherent bound) (complete_lines file) ->
  slen (torn file) < maxTornProbe ->
  scanGenTemp (Some file) bound g limit = forward_scan file bound limit.
Proof.
  intros Htier Hb Hs Hc Ht. unfold scanGenTemp. replace (g_tier g =? DiskLookupArchive) with false by lia.
  destruct (findCutoff file (g_samples g) bound) as [r|] eqn:Ef; [|done].
  rewrite forward_scan_spec. set (start := seekOffset (g_samples g) bound) in *.
  (* where the search starts: after lines that are all below the bound *)
  assert (0 <= start <= slen file /\ line_end (take (Z.to_nat start) file) /\
    Forall (fun l => line_at_bound bound l = false) (complete_lines (take (Z.to_nat start) file)) /\
    r = find_from start (split_nl (drop (Z.to_nat start) file)) bound) as (Hst & Hle & Hfront & Hr).
  { assert (r = find_from start (split_nl (drop (Z.to_nat start) file)) bound) as Hr.
    { unfold findCutoff in Ef. replace (bound =? 0) with false in Ef by lia. fold start in Ef.
      destruct (0 <? start); [|by injection Ef].
      destruct (file !! _); [|done]. destruct (byte_eqb _ _); [by injection Ef|done]. }
    destruct (seekOffset_spec (g_samples g) bound) as [H0|(s & Hin & Hh & H0)]; fold start in H0; rewrite H0 in *.
    - simpl. split; [unfold slen; lia|]. split; [by left|]. split; [constructor|done].
    - rewrite Forall_forall in Hs. destruct (Hs s Hin) as (H1 & H2 & H3). repeat split; try done; try lia.
      eapply Forall_impl; [exact H3|]. intros l Hl. cbv beta in Hl. unfold line_at_bound. destruct l; [done|]. lia. }
  set (a := take (Z.to_nat start) file) in *. set (b := drop (Z.to_nat start) file) in *.
  assert (file = a ++ b) as Hab by (symmetry; apply take_drop).
  assert (complete_lines file = complete_lines a ++ complete_lines b) as Hcl by (rewrite Hab; by apply complete_lines_app).
  rewrite split_nl_parts in Hr. pose proof (find_from_spec bound (complete_lines b) start (torn b)) as Hf.
  rewrite <- Hr in Hf. destruct r as [off|].
  - destruct Hf as (pre & l & post & Hb' & -> & Hpre & Hl). rewrite Hb' in Hcl. rewrite app_assoc in Hcl.
    assert (take (Z.to_nat (start + slen (lines_bytes pre))) file = a ++ lines_bytes pre) as Htake.
    { rewrite Hab at 1. assert (length a = Z.to_nat start) as Hla.
      { pose proof (slen_take file start Hst) as H. fold a in H. unfold slen in H. lia. }
      rewrite take_app_ge by (unfold slen; lia). f_equal.
      rewrite (split_nl_join b), Hb'. unfold lines_bytes. rewrite flat_map_app, <- app_assoc.
      apply take_app_length'. unfold lines_bytes, slen. lia. }
    assert (line_end (a ++ lines_bytes pre)) as Hle'.
    { destruct (lines_bytes_line_end pre) as [->|(s' & ->)]; [by rewrite app_nil_r|]. right.
      exists (a ++ s'). apply app_assoc. }
    assert (slen (lines_bytes pre) <= slen b) as Hlb.
    { rewrite (split_nl_join b), Hb'. unfold lines_bytes, slen. rewrite flat_map_app, !length_app. lia. }
    assert (slen file = start + slen b) as Hlf.
    { pose proof (slen_take file start Hst) as H. fold a in H. rewrite Hab. unfold slen in *. rewrite length_app. lia. }
    assert (0 <= slen (lines_bytes pre)) as H0 by (unfold slen; lia).
    rewrite collectBackward_spec; [|by vm_compute|lia|].
    2:{ rewrite Htake. apply line_end_torn in Hle' as ->. by vm_compute. }
    rewrite Htake, complete_lines_app by done.
    assert (complete_lines (lines_bytes pre) = pre) as ->.
    { unfold complete_lines. rewrite split_lines_bytes; [apply removelast_snoc|].
      pose proof (complete_lines_clean b) as Hcb. rewrite Hb' in Hcb. by apply Forall_app in Hcb as [? _]. }
    rewrite Hcl in Hc. destruct (kept_cutoff bound (complete_lines a ++ pre) l post) as [H1 H2]; [done| |done|].
    + by apply Forall_app.
    + rewrite Hcl, H1, H2. done.
  - rewrite collectBackward_spec; [|by vm_compute|unfold slen; lia|].
    2:{ rewrite take_ge by (unfold slen; lia). done. }
    rewrite take_ge by (unfold slen; lia).
    assert (has_cutoff bound (kept (complete_lines file)) = false) as Hno.
    { apply kept_no_cutoff; [done|]. rewrite Hcl. by apply Forall_app. }
    by rewrite before_cutoff_none, Hno.
Qed.

(** C31. Seeking changes the cost of a disk lookup, not its answer: on a raw
    generation whose index samples point at line starts below which no line is
    higher, the seek, forward search and backward chunked collection return
    exactly the window and the stop flag of the plain forward stream: the last
    [limit] renderable lines before the first chained height at or above the
    bound, a torn last line left out. *)
Theorem scanGenTemp_equiv file g bound limit :
  g_tier g <> DiskLookupArchive -> bound <> 0 ->
  Forall (sample_ok file) (g_samples g) -> Forall (coherent bound) (complete_lines file) ->
  slen (torn file) < maxTornProbe ->
  scanGenTemp (Some file) bound g limit = forward_scan file bound limit /\
  forward_scan file bound limit =
    (lastn (Z.to_nat limit) (before_cutoff bound (kept (complete_lines file))),
     has_cutoff bound (kept (complete_lines file))).
Proof. intros. split; [by apply scan_raw_spec|apply forward_scan_spec]. Qed.

(** A line the server wrote renders to what its record says. *)
Lemma record_roundtrip_read r : record_ok r -> parseRecord (marshal_record r) = r.
Proof. intros H. unfold parseRecord. by rewrite record_read. Qed.

Lemma marshal_record_cons r : exists c t, marshal_record r = c :: t.
Proof. unfold marshal_record. cbn [print]. by eexists _, _. Qed.

Lemma keep_written r : record_ok r -> keep (marshal_record r) = recordLine r.
Proof.
  intros H. destruct (marshal_record_cons r) as (c & t & E). unfold keep.
  rewrite <- (record_roundtrip_read r H) at 2. by rewrite E.
Qed.

Lemma notice_line_ok msg seq :
  ValidString msg = true -> is_u64 seq ->
  wire_text_ok (notice_line msg seq) = true /\ wire_ranges (notice_line msg seq).
Proof.
  intros Hm Hs. split.
  - unfold wire_text_ok, notice_line. cbn [forallb wm_Type wm_Time wm_DisplayName wm_SysDate wm_ExposedPub
      wm_ExposedSig wm_ExposedSeed wm_Text wm_ChainPrev wm_ChainHash wm_SentAt wm_Tags wm_Trip].
    by rewrite Hm.
  - unfold wire_ranges, notice_line, is_u64, is_i64 in *. cbn. lia.
Qed.

Lemma coherent_written bound r :
  bound <> 0 -> record_ok r ->
  (hr_Wire r = None -> hr_Seq r = 0 -> at_cutoff bound (hr_Message r) = false) ->
  coherent bound (marshal_record r).
Proof.
  intros Hb Hr Hm. unfold coherent. rewrite keep_written by done.
  unfold line_at_bound. destruct (marshal_record_cons r) as (c & t & E).
  rewrite E at 1. rewrite record_roundtrip_read by done. destruct Hr as (Hseq & _ & Hmsg & Hw).
  unfold record_height, recordLine in *. destruct (hr_Wire r) as [w|].
  - destruct Hw. rewrite at_cutoff_wire by done. by replace (bound =? 0) with false by lia.
  - specialize (Hm eq_refl). destruct (hr_Message r) as [|x msg] eqn:Emsg; [done|].
    destruct (hr_Seq r =? 0) eqn:Es; [by rewrite Hm by lia|].
    destruct (notice_line_ok (x :: msg) (hr_Seq r) Hmsg Hseq) as [H1 H2].
    rewrite at_cutoff_wire by done. cbn. by rewrite andb_false_r.
Qed.

(** Two records, the second at height 5, and a torn third line. *)
Definition sample_line (height : Z) : str :=
  marshal_record (mkRecord height (lit "2025") [] (Some (set_link sample_chat [] [] height 2))).
Definition sample_file : str := lines_bytes [sample_line 3; sample_line 5] ++ lit "{torn".
Definition sample_gen : genIndex :=
  mkGen DiskLookupActive 3 5 true [mkSample 3 0; mkSample 5 (slen (sample_line 3) + 1)] 2.

Lemma scanGenTemp_equiv_witness :
  scanGenTemp (Some sample_file) 5 sample_gen 10 = forward_scan sample_file 5 10.
Proof.
  apply (scanGenTemp_equiv sample_file sample_gen 5 10).
  - discriminate.
  - discriminate.
  - apply Forall_cons; split; [|apply Forall_cons; split; [|constructor]].
    + split; [split; vm_compute; congruence|]. split; [left; reflexivity|constructor].
    + split; [split; vm_compute; congruence|]. split.
      * right. exists (sample_line 3). vm_compute. reflexivity.
      * assert (complete_lines (take (Z.to_nat (slen (sample_line 3) + 1)) sample_file) = [sample_line 3]) as E
          by (vm_compute; reflexivity).
        cbn [hs_offset hs_height]. rewrite E. constructor; [|constructor].
        assert (record_height (parseRecord (sample_line 3)) = 3) as -> by (vm_compute; reflexivity). lia.
  - assert (complete_lines sample_file = [sample_line 3; sample_line 5]) as ->
      by (vm_compute; reflexivity).
    repeat constructor; vm_compute; reflexivity.
  - vm_compute. reflexivity.
Defined.
