(* ===== verification/HistoryStore.v ===== *)
(** The history store of [server/history_store.go]: the bounded write queue, the
    append with rotation into the older generations, the page index that
    follows the files, and the merge of the generations a page needs.

    The three files are the bytes they hold; the archive is the stream its
    reader yields.  What the operating system answers to one write is the
    argument [os].  The methods that hold [mu] are steps of the state. *)

From S2P Require Import Prelude Bytes Utf8 Wire Json Window HistoryScan.
Local Open Scope Z_scope.

Definition historyQueueSize : Z := 256.

(** The file handle: none, open, or closed by [Close]. *)
Inductive handle := HNone | HOpen | HClosed.

#[export] Instance handle_eq_dec : EqDecision handle.
Proof. solve_decision. Defined.

Record Disk := mkDisk {
  d_active : option str;   (* history.jsonl *)
  d_old : option str;      (* .old *)
  d_zst : option str       (* .old.zst, decompressed *)
}.

Record HistoryStore := mkStore {
  s_MaxSize : Z;
  s_file : handle;
  s_size : Z;
  s_dirty : bool;
  s_queue : list historyRecord;
  s_closed : bool;
  s_drops : Z;
  s_idx : list genIndex;
  s_disk : Disk
}.

(** The outcome of the system calls of one operation. *)
Record OS := mkOS {
  os_open : bool;       (* MkdirAll and OpenFile *)
  os_close : bool;
  os_rename : bool;     (* of an existing file *)
  os_compress : bool;
  os_remove : bool;
  os_write : bool
}.

Inductive store_error :=
| OpenFailed | CloseFailed | RenameFailed | RemoveFailed | WriteFailed | NoFile.

Section setters.
Definition set_file (st : HistoryStore) (f : handle) (size : Z) : HistoryStore :=
  mkStore (s_MaxSize st) f size (s_dirty st) (s_queue st) (s_closed st) (s_drops st) (s_idx st) (s_disk st).
Definition set_disk (st : HistoryStore) (d : Disk) : HistoryStore :=
  mkStore (s_MaxSize st) (s_file st) (s_size st) (s_dirty st) (s_queue st) (s_closed st) (s_drops st) (s_idx st) d.
Definition set_idx (st : HistoryStore) (idx : list genIndex) : HistoryStore :=
  mkStore (s_MaxSize st) (s_file st) (s_size st) (s_dirty st) (s_queue st) (s_closed st) (s_drops st) idx (s_disk st).
Definition set_queue (st : HistoryStore) (q : list historyRecord) (drops : Z) : HistoryStore :=
  mkStore (s_MaxSize st) (s_file st) (s_size st) (s_dirty st) q (s_closed st) drops (s_idx st) (s_disk st).
Definition set_dirty (st : HistoryStore) (b : bool) : HistoryStore :=
  mkStore (s_MaxSize st) (s_file st) (s_size st) b (s_queue st) (s_closed st) (s_drops st) (s_idx st) (s_disk st).
Definition set_closed (st : HistoryStore) (f : handle) : HistoryStore :=
  mkStore (s_MaxSize st) f (s_size st) false (s_queue st) true (s_drops st) (s_idx st) (s_disk st).
End setters.

Definition add_drop (st : HistoryStore) : HistoryStore := set_queue st (s_queue st) (s_drops st + 1).

(** * Opening and the queue *)

(** [open]: whether it succeeded, and the state it leaves. *)
Definition store_open (os : OS) (st : HistoryStore) : bool * HistoryStore :=
  let st := match d_active (s_disk st) with
            | Some f => set_file st (s_file st) (slen f)
            | None => st
            end in
  if negb (os_open os) then (false, st)
  else
    let d := s_disk st in
    let content := default [] (d_active d) in
    (true, set_file (set_disk st (mkDisk (Some content) (d_old d) (d_zst d))) HOpen (s_size st)).

(** [NewHistoryStore]: the open store, before its index is built. *)
Definition NewHistoryStore (os : OS) (maxSizeMB : Z) (d : Disk) : bool * HistoryStore :=
  store_open os (mkStore (i64 (maxSizeMB * 1024 * 1024)) HNone 0 false [] false 0 [] d).

(** A record is queued, or counted as dropped, never waited for. *)
Definition EnqueueWire (st : HistoryStore) (w : WireMessage) (timestamp : str) : HistoryStore :=
  if s_closed st then st
  else if Z.of_nat (length (s_queue st)) <? historyQueueSize then
    set_queue st (s_queue st ++ [mkRecord (wm_Seq w) timestamp [] (Some w)]) (s_drops st)
  else add_drop st.

(** [Close] flushes and closes the file; what is still queued is not written. *)
Definition store_Close (st : HistoryStore) : HistoryStore :=
  if s_closed st then st
  else set_closed st (match s_file st with HNone => HNone | _ => HClosed end).

(** * The index *)

Definition raise_bounds (g : genIndex) (height : Z) : genIndex :=
  if negb (g_chained g) then mkGen (g_tier g) height height true (g_samples g) (g_sinceSample g)
  else mkGen (g_tier g) (if height <? g_minH g then height else g_minH g)
         (if g_maxH g <? height then height else g_maxH g) true (g_samples g) (g_sinceSample g).

Definition sample_gen_at (g : genIndex) (height offset : Z) : genIndex :=
  mkGen (g_tier g) (g_minH g) (g_maxH g) (g_chained g)
    (if g_sinceSample g mod indexSampleStride =? 0
     then g_samples g ++ [mkSample height offset] else g_samples g)
    (g_sinceSample g + 1).

Definition new_gen (tier : Z) : genIndex := mkGen tier 0 0 false [] 0.

Definition indexWroteLocked (idx : list genIndex) (height offset : Z) : list genIndex :=
  let extend g := sample_gen_at (raise_bounds g height) height offset in
  match last idx with
  | Some g =>
      if g_tier g =? DiskLookupActive
      then removelast idx ++ [extend g]
      else idx ++ [extend (new_gen DiskLookupActive)]
  | None => [extend (new_gen DiskLookupActive)]
  end.

Definition dropGenLocked (idx : list genIndex) (tier : Z) : list genIndex :=
  List.filter (fun g => negb (g_tier g =? tier)) idx.

Fixpoint relabelGenLocked (idx : list genIndex) (from to : Z) : list genIndex * bool :=
  match idx with
  | [] => ([], false)
  | g :: idx' =>
      if g_tier g =? from then
        (mkGen to (g_minH g) (g_maxH g) (g_chained g)
           (if to =? DiskLookupArchive then [] else g_samples g) (g_sinceSample g) :: idx', true)
      else let '(r, ok) := relabelGenLocked idx' from to in (g :: r, ok)
  end.

(** One loaded record extends the entry of its generation. *)
Definition index_record (tier : Z) (g : genIndex) (ir : indexedRecord) : genIndex :=
  let height := record_height (ir_rec ir) in
  if height =? 0 then g
  else
    let g := raise_bounds g height in
    if negb (tier =? DiskLookupArchive) then sample_gen_at g height (ir_offset ir) else g.

Definition indexLoaded (idx : list genIndex) (tier : Z) (recs : list indexedRecord) : list genIndex :=
  match recs with
  | [] => idx
  | _ => idx ++ [fold_left (index_record tier) recs (new_gen tier)]
  end.

(** * Loading: the archive, else the old file, then the active one *)

Definition LoadRecords (st : HistoryStore) : list historyRecord * HistoryStore :=
  let d := s_disk st in
  let load idx tier (recs : list indexedRecord) := (map ir_rec recs, indexLoaded idx tier recs) in
  let '(r1, idx) :=
    match d_zst d with
    | Some f => load [] DiskLookupArchive (loadZstdFile f)
    | None => match d_old d with
              | Some f => load [] DiskLookupRaw (loadJSONLFile f)
              | None => ([], [])
              end
    end in
  let '(r2, idx) :=
    match d_active d with
    | Some f => load idx DiskLookupActive (loadJSONLFile f)
    | None => ([], idx)
    end in
  (r1 ++ r2, set_idx st idx).

(** * Rotation and writing *)

(** After the handle is gone: rename, relabel, compress, reopen. *)
Definition rotate (os : OS) (st : HistoryStore) : res store_error unit * HistoryStore :=
  let closeFailed := match s_file st with HNone => false | HClosed => true | HOpen => negb (os_close os) end in
  let st := match s_file st with HNone => st | _ => set_file st HNone 0 end in
  if closeFailed then (Err CloseFailed, st)
  else
    match d_active (s_disk st), os_rename os with
    | Some _, false => (Err RenameFailed, st)
    | active, _ =>
        let st :=
          match active with
          | None => st
          | Some f =>
              let d := s_disk st in
              let idx := dropGenLocked (s_idx st) DiskLookupRaw in
              let '(idx, had) := relabelGenLocked idx DiskLookupActive DiskLookupRaw in
              set_idx (set_disk st (mkDisk None (Some f) (d_zst d)))
                (if had then idx else idx ++ [new_gen DiskLookupRaw])
          end in
        let to_archive st :=
          set_idx st (relabelGenLocked (dropGenLocked (s_idx st) DiskLookupArchive)
                        DiskLookupRaw DiskLookupArchive).1 in
        let reopen st :=
          let '(ok, st) := store_open os (set_file st HNone 0) in
          (if ok then Ok tt else Err OpenFailed, st) in
        match d_old (s_disk st) with
        | None => reopen st
        | Some f =>
            if negb (os_compress os) then reopen st
            else
              let d := s_disk st in
              if negb (os_remove os) then
                (Err RemoveFailed, to_archive (set_disk st (mkDisk (d_active d) (Some f) (Some f))))
              else reopen (to_archive (set_disk st (mkDisk (d_active d) None (Some f))))
        end
    end.

(** The append to an open file. *)
Definition append_line (os : OS) (st : HistoryStore) (record : historyRecord) (line : str)
    : res store_error unit * HistoryStore :=
  match s_file st with
  | HNone => (Err NoFile, add_drop st)
  | HClosed => (Err WriteFailed, st)
  | HOpen =>
      if negb (os_write os) then (Err WriteFailed, st)
      else
        let offset := s_size st in
        let d := s_disk st in
        let st := set_dirty (set_file (set_disk st
                    (mkDisk (Some (default [] (d_active d) ++ line)) (d_old d) (d_zst d)))
                    HOpen (s_size st + slen line)) true in
        (Ok tt,
         match hr_Wire record with
         | Some w => if negb (wm_ChainHeight w =? 0)
                     then set_idx st (indexWroteLocked (s_idx st) (wm_ChainHeight w) offset) else st
         | None => st
         end)
  end.

Definition writeRecord (os : OS) (st : HistoryStore) (record : historyRecord)
    : res store_error unit * HistoryStore :=
  let line := marshal_record record ++ [nl] in
  match (match s_file st with
         | HNone => store_open os st
         | _ => (true, st)
         end) with
  | (false, st) => (Err OpenFailed, add_drop st)
  | (true, st) =>
      if (0 <? s_MaxSize st) && (s_MaxSize st <? s_size st + slen line) then
        match rotate os st with
        | (Err e, st) => (Err e, st)
        | (Ok _, st) => append_line os st record line
        end
      else append_line os st record line
  end.

(** One turn of [writeLoop]: a queued record is taken and written (an error is
    logged); the other arm, a tick, only syncs. *)
Definition writeLoop_step (os : OS) (st : HistoryStore) : HistoryStore :=
  match s_queue st with
  | [] => st
  | record :: q => (writeRecord os (set_queue st q (s_drops st)) record).2
  end.

Definition writeLoop_tick (sync_ok : bool) (st : HistoryStore) : HistoryStore :=
  match s_file st with
  | HNone => st
  | _ => if s_dirty st && sync_ok then set_dirty st false else st
  end.

(** * Paging *)

Definition file_of (d : Disk) (tier : Z) : option str :=
  if tier =? DiskLookupArchive then d_zst d
  else if tier =? DiskLookupRaw then d_old d
  else d_active d.

Fixpoint scan_gens (d : Disk) (bound level limit : Z) (gens : list genIndex) : list (list str) :=
  match gens with
  | [] => []
  | g :: gens' =>
      if (level <? g_tier g) || (g_tier g <=? DiskLookupOff) then scan_gens d bound level limit gens'
      else
        let '(t, done) := scanGenTemp (file_of d (g_tier g)) bound g limit in
        t :: (if done then [] else scan_gens d bound level limit gens')
  end.

Definition windowBefore (st : HistoryStore) (ring : windowRing) (bound level : Z) : windowRing :=
  feed_all ring (concat (scan_gens (s_disk st) bound level (Z.of_nat (wr_limit ring)) (s_idx st))) bound.

(** * Theorems *)

(** ** The index describes the files *)

(** A line some record of the server renders to. *)
Definition written_line (H : Z) (l : str) : Prop :=
  record_height (parseRecord l) <= H /\ forall bound, bound <> 0 -> coherent bound l.

(** A file of whole lines, none of them higher than [H]. *)
Definition good_file (H : Z) (f : str) : Prop :=
  line_end f /\ Forall (written_line H) (complete_lines f).

Definition gen_ok (d : Disk) (g : genIndex) : Prop :=
  g_tier g = DiskLookupArchive \/
  ((g_tier g = DiskLookupRaw \/ g_tier g = DiskLookupActive) /\
   match file_of d (g_tier g) with
   | Some f => Forall (sample_ok f) (g_samples g)
   | None => g_samples g = []
   end).

(** Only the last entry is the active one, and a tier has one entry. *)
Definition idx_shape (idx : list genIndex) : Prop :=
  NoDup (map g_tier idx) /\ DiskLookupActive ∉ map g_tier (removelast idx).

Definition ofile_ok (H : Z) (o : option str) : Prop :=
  match o with Some f => good_file H f | None => True end.

Record store_inv (H : Z) (st : HistoryStore) : Prop := {
  si_open : s_file st = HOpen -> exists f, d_active (s_disk st) = Some f /\ s_size st = slen f;
  si_none : s_file st = HNone -> d_active (s_disk st) = None -> s_size st = 0;
  si_active : ofile_ok H (d_active (s_disk st));
  si_old : ofile_ok H (d_old (s_disk st));
  si_zst : ofile_ok H (d_zst (s_disk st));
  si_idx : Forall (gen_ok (s_disk st)) (s_idx st);
  si_shape : idx_shape (s_idx st)
}.

(** A record the server stores: well-formed, and its plain text is not itself a
    chained wire. *)
Definition storable (r : historyRecord) : Prop :=
  record_ok r /\
  (hr_Wire r = None -> hr_Seq r = 0 -> forall bound, bound <> 0 -> at_cutoff bound (hr_Message r) = false).

Lemma good_file_mono H H' f : H <= H' -> good_file H f -> good_file H' f.
Proof.
  intros Hle [Hl Hf]. split; [done|]. eapply Forall_impl; [exact Hf|]. intros l [H1 H2]. split; [lia|done].
Qed.

Lemma storable_line H r : storable r -> record_height r <= H -> written_line H (marshal_record r).
Proof.
  intros [Hr Hm] Hh. split; [by rewrite record_roundtrip_read|]. intros bound Hb.
  apply coherent_written; [done|done|]. intros Hw Hs. by apply Hm.
Qed.

Lemma marshal_record_no_nl r : record_ok r -> nl ∉ marshal_record r.
Proof. intros H. apply print_no_nl. by apply record_printable. Qed.

(** Appending a line. *)
Lemma complete_lines_snoc f l : line_end f -> nl ∉ l -> complete_lines (f ++ (l ++ [nl])) = complete_lines f ++ [l].
Proof.
  intros Hf Hl. rewrite complete_lines_app by done. f_equal. unfold complete_lines.
  change [nl] with (nl :: []). rewrite split_nl_line, split_nl_clean by done. done.
Qed.

Lemma good_file_append H f r :
  good_file H f -> storable r -> record_height r <= H -> good_file H (f ++ (marshal_record r ++ [nl])).
Proof.
  intros [Hl Hf] Hr Hh. split.
  - right. exists (f ++ marshal_record r). apply app_assoc.
  - rewrite complete_lines_snoc; [|done|apply marshal_record_no_nl, Hr].
    apply Forall_app. split; [done|]. constructor; [by apply storable_line|constructor].
Qed.

Lemma sample_ok_app f x s : sample_ok f s -> sample_ok (f ++ x) s.
Proof.
  intros (H1 & H2 & H3). unfold sample_ok.
  assert (take (Z.to_nat (hs_offset s)) (f ++ x) = take (Z.to_nat (hs_offset s)) f) as ->.
  { apply take_app_le. unfold slen in H1. lia. }
  split; [|done]. unfold slen in *. rewrite length_app. lia.
Qed.

(** A sample at the end of the file. *)
Lemma sample_ok_end H f x h :
  good_file H f -> H <= h -> sample_ok (f ++ x) (mkSample h (slen f)).
Proof.
  intros [Hl Hf] Hh. unfold sample_ok. cbn [hs_offset hs_height].
  assert (take (Z.to_nat (slen f)) (f ++ x) = f) as ->.
  { apply take_app_length'. unfold slen. lia. }
  split; [unfold slen; rewrite length_app; lia|]. split; [done|].
  eapply Forall_impl; [exact Hf|]. intros l [Hl' _]. simpl. lia.
Qed.

(** ** Index operations keep its shape *)

Lemma dropGen_spec idx tier g : g ∈ dropGenLocked idx tier <-> g ∈ idx /\ g_tier g <> tier.
Proof.
  unfold dropGenLocked. rewrite !list_elem_of_In, filter_In. split; intros [? ?]; (split; [done|lia]).
Qed.

Lemma dropGen_tiers idx tier :
  map g_tier (dropGenLocked idx tier) = List.filter (fun t => negb (t =? tier)) (map g_tier idx).
Proof. unfold dropGenLocked. induction idx as [|g idx IH]; simpl; [done|]. destruct (g_tier g =? tier); simpl; by rewrite IH. Qed.

Lemma NoDup_List_filter {A} (P : A -> bool) l : NoDup l -> NoDup (List.filter P l).
Proof.
  induction 1 as [|x l Hx Hl IH]; simpl; [constructor|]. destruct (P x); [|done]. constructor; [|done].
  rewrite list_elem_of_In, filter_In, <- list_elem_of_In. tauto.
Qed.

Lemma relabel_spec idx from to :
  let '(r, ok) := relabelGenLocked idx from to in
  map g_tier r = (fix go l := match l with [] => [] | t :: l' => if t =? from then to :: l' else t :: go l' end) (map g_tier idx) /\
  ok = existsb (fun t => t =? from) (map g_tier idx).
Proof.
  induction idx as [|g idx IH]; [done|]. cbn [relabelGenLocked map]. destruct (g_tier g =? from) eqn:E.
  - cbn [map g_tier existsb]. by rewrite E.
  - destruct (relabelGenLocked idx from to) as [r ok]. destruct IH as [IH1 IH2]. cbn [map existsb].
    rewrite E. by rewrite IH1, IH2.
Qed.

(** Renaming one tier in a duplicate-free list. *)
Lemma relabel_tiers idx from to :
  NoDup (map g_tier idx) ->
  map g_tier (relabelGenLocked idx from to).1 = map (fun t => if t =? from then to else t) (map g_tier idx).
Proof.
  intros Hnd. pose proof (relabel_spec idx from to) as H. destruct (relabelGenLocked idx from to) as [r ok].
  destruct H as [H _]. simpl. rewrite H. clear H. generalize dependent (map g_tier idx). intros l.
  induction 1 as [|t l Ht Hl IH]; [done|]. simpl. destruct (t =? from) eqn:E; [|by rewrite IH].
  f_equal. assert (t = from) as -> by lia. clear -Ht. induction l as [|u l IH]; [done|].
  apply not_elem_of_cons in Ht as [Hu Hl]. simpl. replace (u =? from) with false by lia. by rewrite <- IH.
Qed.

Lemma relabel_NoDup idx from to :
  NoDup (map g_tier idx) -> to ∉ map g_tier idx -> NoDup (map g_tier (relabelGenLocked idx from to).1).
Proof.
  intros Hnd Hto. rewrite relabel_tiers by done. revert Hnd Hto. generalize (map g_tier idx). intros l.
  induction 1 as [|t l Ht Hl IH]; intros Hto; [constructor|]. apply not_elem_of_cons in Hto as [Hto Hto'].
  simpl. constructor; [|by apply IH]. intros (u & Hu & Hin)%list_elem_of_fmap.
  assert (u <> to) by congruence. assert (u <> t) by congruence.
  destruct (t =? from) eqn:E1, (u =? from) eqn:E2; lia.
Qed.

Lemma relabel_gens idx from to g' :
  NoDup (map g_tier idx) -> g' ∈ (relabelGenLocked idx from to).1 ->
  (g' ∈ idx /\ g_tier g' <> from) \/
  (exists g, g ∈ idx /\ g_tier g = from /\ g_tier g' = to /\
     g_samples g' = if to =? DiskLookupArchive then [] else g_samples g).
Proof.
  induction idx as [|g idx IH]; [by intros _ ?%elem_of_nil|]. intros Hnd. cbn [relabelGenLocked].
  simpl in Hnd. apply NoDup_cons in Hnd as [Hg Hnd]. destruct (g_tier g =? from) eqn:E.
  - intros [->|Hin]%elem_of_cons.
    + right. exists g. split; [by left|]. cbn. split; [lia|done].
    + left. split; [by right|]. intros Ht. apply Hg. assert (g_tier g = g_tier g') as -> by lia.
      by apply list_elem_of_fmap_2.
  - specialize (IH Hnd). destruct (relabelGenLocked idx from to) as [r ok].
    intros [->|Hin]%elem_of_cons; [left; split; [by left|lia]|].
    destruct (IH Hin) as [[H1 H2]|(g0 & H1 & H2)]; [left; split; [by right|done]|right; exists g0; split; [by right|done]].
Qed.

Lemma elem_of_removelast {A} (x : A) l : x ∈ removelast l -> x ∈ l.
Proof.
  induction l as [|y l IH]; [done|]. destruct l as [|z l]; [by intros ?%elem_of_nil|].
  change (removelast (y :: z :: l)) with (y :: removelast (z :: l)).
  intros [->|H]%elem_of_cons; [by left|]. right. by apply IH.
Qed.

(** The shape without an active entry. *)
Lemma idx_shape_no_active idx :
  NoDup (map g_tier idx) -> DiskLookupActive ∉ map g_tier idx -> idx_shape idx.
Proof.
  intros Hnd Ha. split; [done|]. intros Hin. apply Ha. apply list_elem_of_fmap in Hin as (g & -> & Hg).
  apply list_elem_of_fmap_2. by apply elem_of_removelast.
Qed.

Lemma file_of_raw d : file_of d DiskLookupRaw = d_old d.
Proof. done. Qed.
Lemma file_of_active d : file_of d DiskLookupActive = d_active d.
Proof. done. Qed.

(** ** Every step keeps the invariant *)

Lemma gen_ok_active_created d g c :
  d_active d = None -> gen_ok d g -> gen_ok (mkDisk (Some c) (d_old d) (d_zst d)) g.
Proof.
  intros Ea [Hg|[Ht Hg]]; [by left|right]. split; [done|].
  destruct Ht as [Ht|Ht]; rewrite Ht in *; [done|].
  rewrite file_of_active, Ea in Hg. rewrite file_of_active. cbn. by rewrite Hg.
Qed.

Lemma store_open_inv H os st :
  store_inv H st -> s_file st = HNone ->
  store_inv H (store_open os st).2 /\
  ((store_open os st).1 = true -> s_file (store_open os st).2 = HOpen) /\
  s_idx (store_open os st).2 = s_idx st.
Proof.
  intros [H1 H0 H2 H3 H4 H5 H6] Hf. unfold store_open.
  destruct (d_active (s_disk st)) as [f|] eqn:Ea; destruct (os_open os); cbn [negb];
    (split; [|by rewrite ?Hf]); split; cbn; rewrite ?Ea, ?Hf; try done.
  - intros _. by exists f.
  - destruct (s_disk st) as [a o z]. simpl in *. by rewrite Ea in H5.
  - intros _. exists []. split; [done|]. by rewrite H0.
  - split; [by left|constructor].
  - eapply Forall_impl; [exact H5|]. intros g. by apply gen_ok_active_created.
  - intros _ _. by apply H0.
Qed.

(** The rename step of [rotate]. *)
Lemma rename_idx_inv d idx f :
  d_active d = Some f -> Forall (gen_ok d) idx -> idx_shape idx ->
  let '(idx', had) := relabelGenLocked (dropGenLocked idx DiskLookupRaw) DiskLookupActive DiskLookupRaw in
  let idx'' := if had then idx' else idx' ++ [new_gen DiskLookupRaw] in
  Forall (gen_ok (mkDisk None (Some f) (d_zst d))) idx'' /\
  NoDup (map g_tier idx'') /\ DiskLookupActive ∉ map g_tier idx''.
Proof.
  intros Ha Hg [Hnd Hlast]. rewrite Forall_forall in Hg.
  set (idx0 := dropGenLocked idx DiskLookupRaw).
  assert (NoDup (map g_tier idx0)) as Hnd0 by (unfold idx0; rewrite dropGen_tiers; by apply NoDup_List_filter).
  assert (DiskLookupRaw ∉ map g_tier idx0) as Hraw.
  { intros (g & Ht & Hin)%list_elem_of_fmap. apply dropGen_spec in Hin as [_ Hin]. by rewrite Ht in Hin. }
  pose proof (relabel_NoDup idx0 DiskLookupActive DiskLookupRaw Hnd0 Hraw) as Hnd1.
  pose proof (relabel_gens idx0 DiskLookupActive DiskLookupRaw) as Hgens.
  pose proof (relabel_spec idx0 DiskLookupActive DiskLookupRaw) as Hspec.
  destruct (relabelGenLocked idx0 DiskLookupActive DiskLookupRaw) as [idx' had].
  simpl in Hnd1, Hgens. destruct Hspec as [Htiers Hhad].
  assert (forall g, g ∈ idx' -> gen_ok (mkDisk None (Some f) (d_zst d)) g /\ g_tier g <> DiskLookupActive) as Hok.
  { intros g' Hin. destruct (Hgens g' Hnd0 Hin) as [[Hin0 Ht]|(g & Hin0 & Ht & Ht' & Hs)];
      apply dropGen_spec in Hin0 as [Hin0 Hnr]; destruct (Hg _ Hin0) as [Hz|[Hta Hfile]].
    - split; [by left|done].
    - by destruct Hta.
    - by rewrite Hz in Ht.
    - split; [right|by rewrite Ht']. split; [by left|]. rewrite Ht', file_of_raw. cbn [d_old].
      rewrite Ht, file_of_active, Ha in Hfile. by rewrite Hs. }
  assert (DiskLookupActive ∉ map g_tier idx') as Hna.
  { intros (g & Ht & Hin)%list_elem_of_fmap. by apply (Hok g Hin). }
  destruct had; cbv zeta.
  - split; [|done]. apply Forall_forall. intros g Hin. by apply Hok.
  - split; [|split].
    + apply Forall_app. split; [apply Forall_forall; intros g Hin; by apply Hok|].
      constructor; [|constructor]. right. split; [by left|]. rewrite file_of_raw. constructor.
    + rewrite map_app. apply NoDup_app. split; [done|]. split; [|apply NoDup_singleton].
      intros t Hin [->|?%elem_of_nil]%elem_of_cons; [|done].
      apply list_elem_of_fmap in Hin as (g & Ht & Hin). cbn in Ht.
      destruct (Hgens g Hnd0 Hin) as [[Hin0 _]|(g0 & Hin0 & Ht0 & _)].
      * apply dropGen_spec in Hin0 as [_ Hin0]. by rewrite Ht in Hin0.
      * symmetry in Hhad. rewrite <- not_true_iff_false, existsb_exists in Hhad. apply Hhad.
        exists DiskLookupActive. split; [|done]. apply list_elem_of_In. rewrite <- Ht0. by apply list_elem_of_fmap_2.
    + rewrite map_app. intros [?|[H|?%elem_of_nil]%elem_of_cons]%elem_of_app; done.
Qed.

(** The archive step of [rotate]. *)
Lemma archive_idx_inv d d' idx :
  Forall (gen_ok d) idx -> NoDup (map g_tier idx) -> DiskLookupActive ∉ map g_tier idx ->
  let idx' := (relabelGenLocked (dropGenLocked idx DiskLookupArchive) DiskLookupRaw DiskLookupArchive).1 in
  Forall (gen_ok d') idx' /\ NoDup (map g_tier idx') /\ DiskLookupActive ∉ map g_tier idx'.
Proof.
  intros Hg Hnd Hna. rewrite Forall_forall in Hg. cbv zeta.
  set (idx0 := dropGenLocked idx DiskLookupArchive).
  assert (NoDup (map g_tier idx0)) as Hnd0 by (unfold idx0; rewrite dropGen_tiers; by apply NoDup_List_filter).
  assert (DiskLookupArchive ∉ map g_tier idx0) as Harc.
  { intros (g & Ht & Hin)%list_elem_of_fmap. apply dropGen_spec in Hin as [_ Hin]. by rewrite Ht in Hin. }
  assert (forall g, g ∈ (relabelGenLocked idx0 DiskLookupRaw DiskLookupArchive).1 -> g_tier g = DiskLookupArchive) as Hall.
  { intros g' Hin. destruct (relabel_gens idx0 _ _ g' Hnd0 Hin) as [[Hin0 Ht]|(g & _ & _ & Ht' & _)]; [|done].
    apply dropGen_spec in Hin0 as [Hin0 Hna']. destruct (Hg _ Hin0) as [Hz|[[Ht0|Ht0] _]]; [done|done|].
    exfalso. apply Hna. rewrite <- Ht0. by apply list_elem_of_fmap_2. }
  split; [|split].
  - apply Forall_forall. intros g Hin. left. by apply Hall.
  - by apply relabel_NoDup.
  - intros (g & Ht & Hin)%list_elem_of_fmap. apply Hall in Hin. by rewrite Hin in Ht.
Qed.

(** A state without a handle or an active file. *)
Lemma inv_renamed H st old zst idx :
  ofile_ok H old ->
  ofile_ok H zst ->
  Forall (gen_ok (mkDisk None old zst)) idx -> NoDup (map g_tier idx) ->
  DiskLookupActive ∉ map g_tier idx ->
  store_inv H (set_idx (set_disk (set_file st HNone 0) (mkDisk None old zst)) idx).
Proof. intros. split; cbn; try done. by apply idx_shape_no_active. Qed.

Lemma rotate_inv H os st :
  store_inv H st -> s_file st <> HNone ->
  store_inv H (rotate os st).2 /\ ((rotate os st).1 = Ok tt -> s_file (rotate os st).2 = HOpen).
Proof.
  intros Hinv Hf. pose proof Hinv as [H1 H0 H2 H3 H4 H5 H6]. unfold rotate.
  assert (forall d, d_active (s_disk st) = Some d -> store_inv H (set_file st HNone 0)) as Hfileless.
  { intros d Hd. split; cbn; rewrite ?Hd in *; try done. }
  destruct (s_file st) eqn:Ef; [done| |].
  2:{ split; [|done]. split; cbn; try done. }
  destruct (H1 eq_refl) as (f & Ha & Hsz). specialize (Hfileless f Ha).
  destruct (os_close os); cbn [negb]; [|by split].
  cbn [s_disk set_file]. rewrite Ha. destruct (os_rename os); [|by split].
  pose proof (rename_idx_inv (s_disk st) (s_idx st) f Ha H5 H6) as Hren.
  cbn [s_idx set_file s_disk].
  destruct (relabelGenLocked _ _ _) as [idx' had]. cbv zeta in Hren.
  set (idx'' := if had then idx' else idx' ++ [new_gen DiskLookupRaw]) in *.
  destruct Hren as (Hg & Hnd & Hna). cbn [s_disk set_idx set_disk d_old d_active d_zst s_idx].
  rewrite Ha in H2.
  assert (forall st', store_inv H st' -> s_file st' = HNone ->
    store_inv H (let '(ok, st2) := store_open os st' in ((if ok then Ok tt else Err OpenFailed) : res store_error unit, st2)).2 /\
    ((let '(ok, st2) := store_open os st' in ((if ok then Ok tt else Err OpenFailed) : res store_error unit, st2)).1 = Ok tt ->
     s_file (let '(ok, st2) := store_open os st' in ((if ok then Ok tt else Err OpenFailed) : res store_error unit, st2)).2 = HOpen)) as Hopen.
  { intros st' Hst' Hfst'. destruct (store_open_inv H os st' Hst' Hfst') as (Ho1 & Ho2 & _).
    destruct (store_open os st') as [ok st2]. cbn [fst snd] in *. split; [done|]. destruct ok; [tauto|done]. }
  destruct (os_compress os); cbn [negb].
  2:{ apply Hopen; [|done]. by apply (inv_renamed H st (Some f) (d_zst (s_disk st)) idx''). }
  destruct (os_remove os); cbn [negb].
  - destruct (archive_idx_inv _ (mkDisk None None (Some f)) idx'' Hg Hnd Hna) as (Hg' & Hnd' & Hna').
    apply Hopen; [|done]. by apply (inv_renamed H st None (Some f)).
  - destruct (archive_idx_inv _ (mkDisk None (Some f) (Some f)) idx'' Hg Hnd Hna) as (Hg' & Hnd' & Hna').
    split; [|done]. by apply (inv_renamed H st (Some f) (Some f)).
Qed.

(** ** Appending *)

Lemma gen_ok_append d f x g :
  d_active d = Some f -> gen_ok d g -> gen_ok (mkDisk (Some (f ++ x)) (d_old d) (d_zst d)) g.
Proof.
  intros Ha [Hz|[Ht Hg]]; [by left|right]. split; [done|].
  destruct Ht as [Ht|Ht]; rewrite Ht in *; [done|]. rewrite file_of_active, Ha in Hg.
  rewrite file_of_active. cbn [d_active]. eapply Forall_impl; [exact Hg|]. intros s. apply sample_ok_app.
Qed.

Lemma extend_ok H d f x g h :
  d_active d = Some f -> good_file H f -> H <= h -> gen_ok d g -> g_tier g = DiskLookupActive ->
  gen_ok (mkDisk (Some (f ++ x)) (d_old d) (d_zst d)) (sample_gen_at (raise_bounds g h) h (slen f)).
Proof.
  intros Ha Hf Hh Hg Ht.
  assert (g_tier (raise_bounds g h) = DiskLookupActive /\ g_samples (raise_bounds g h) = g_samples g) as [Ht' Hs']
    by (unfold raise_bounds; destruct (g_chained g); done).
  right. unfold sample_gen_at. cbn [g_tier g_samples]. rewrite Ht', Hs', file_of_active. cbn [d_active].
  split; [by right|]. destruct Hg as [Hz|[_ Hg]]; [by rewrite Ht in Hz|].
  rewrite Ht, file_of_active, Ha in Hg.
  assert (Forall (sample_ok (f ++ x)) (g_samples g)) as Hall by (eapply Forall_impl; [exact Hg|]; intros s; apply sample_ok_app).
  destruct (_ =? 0); [|done]. apply Forall_app. split; [done|]. constructor; [|constructor].
  by apply (sample_ok_end H).
Qed.

Lemma indexWrote_inv H d f x idx h :
  d_active d = Some f -> good_file H f -> H <= h -> Forall (gen_ok d) idx -> idx_shape idx ->
  Forall (gen_ok (mkDisk (Some (f ++ x)) (d_old d) (d_zst d))) (indexWroteLocked idx h (slen f)) /\
  idx_shape (indexWroteLocked idx h (slen f)).
Proof.
  intros Ha Hf Hh Hg [Hnd Hlast]. unfold indexWroteLocked.
  set (ext := fun g => sample_gen_at (raise_bounds g h) h (slen f)).
  assert (forall g, g_tier (ext g) = g_tier g) as Hext by (intros g; unfold ext, raise_bounds; cbn; by destruct (g_chained g)).
  assert (gen_ok d (new_gen DiskLookupActive)) as Hnew.
  { right. split; [by right|]. rewrite file_of_active, Ha. constructor. }
  assert (forall l, Forall (gen_ok d) l -> Forall (gen_ok (mkDisk (Some (f ++ x)) (d_old d) (d_zst d))) l) as Hall.
  { intros l Hl. eapply Forall_impl; [exact Hl|]. intros g. by apply gen_ok_append. }
  (* a new last entry after entries none of which is active *)
  assert (forall l g, Forall (gen_ok d) l -> NoDup (map g_tier l) -> DiskLookupActive ∉ map g_tier l ->
    gen_ok d g -> g_tier g = DiskLookupActive ->
    Forall (gen_ok (mkDisk (Some (f ++ x)) (d_old d) (d_zst d))) (l ++ [ext g]) /\ idx_shape (l ++ [ext g])) as Hsnoc.
  { intros l g Hl Hndl Hnal Hgg Htg. split.
    - apply Forall_app. split; [by apply Hall|]. constructor; [|constructor]. by apply (extend_ok H d f).
    - split.
      + rewrite map_app. apply NoDup_app. split; [done|]. split; [|apply NoDup_singleton].
        intros t Hin [->|?%elem_of_nil]%elem_of_cons; [|done]. by rewrite Hext, Htg in Hin.
      + by rewrite removelast_snoc. }
  destruct (last idx) as [g|] eqn:El.
  - apply last_Some in El as [l ->]. rewrite removelast_snoc in Hlast.
    rewrite map_app in Hnd. apply NoDup_app in Hnd as (Hndl & Hdisj & _).
    pose proof Hg as Hg'. apply Forall_app in Hg' as [Hl Hgl]. inversion Hgl as [|?? Hgg _]; subst.
    destruct (g_tier g =? DiskLookupActive) eqn:Et.
    + rewrite removelast_snoc. apply Hsnoc; [done|done|done|done|lia].
    + apply (Hsnoc (l ++ [g]) (new_gen DiskLookupActive)); [done| | |done|done].
      * rewrite map_app. apply NoDup_app. split; [done|]. split; [done|apply NoDup_singleton].
      * rewrite map_app. intros [?|[Hx|?%elem_of_nil]%elem_of_cons]%elem_of_app; [done|lia|done].
  - apply last_None in El as ->.
    by apply (Hsnoc [] (new_gen DiskLookupActive)); [constructor|constructor|apply not_elem_of_nil|..].
Qed.

Lemma append_line_inv H H' os st r :
  store_inv H st -> storable r -> H <= H' -> record_height r <= H' ->
  (record_height r = 0 \/ H <= record_height r) ->
  store_inv H' (append_line os st r (marshal_record r ++ [nl])).2.
Proof.
  intros [H1 H0 H2 H3 H4 H5 H6] Hr Hle Hh Hmono. unfold append_line.
  assert (forall o, ofile_ok H o -> ofile_ok H' o) as Hup.
  { intros [f|]; [|done]. by apply good_file_mono. }
  destruct (s_file st) eqn:Ef.
  - split; cbn; rewrite ?Ef; auto.
  - destruct (os_write os); cbn [negb].
    2:{ split; cbn; rewrite ?Ef; auto. }
    destruct (H1 eq_refl) as (f & Ha & Hsz). rewrite Ha, Hsz. cbn [default snd]. rewrite Ha in H2.
    set (line := marshal_record r ++ [nl]).
    set (st1 := set_dirty _ true).
    assert (good_file H' (f ++ line)) as Hgf by (apply good_file_append; [by apply (good_file_mono H)|done|done]).
    assert (slen (f ++ line) = slen f + slen line) as Hsl by (unfold slen; rewrite length_app; lia).
    assert (store_inv H' st1) as Hst1.
    { split; cbn; auto; try done.
      - intros _. exists (f ++ line). split; [done|]. by rewrite Hsl.
      - eapply Forall_impl; [exact H5|]. intros g. by apply gen_ok_append. }
    destruct (hr_Wire r) as [w|] eqn:Ew; [|done].
    destruct (negb (wm_ChainHeight w =? 0)) eqn:E0; [|done].
    assert (record_height r = wm_ChainHeight w) as Hrh by (unfold record_height; by rewrite Ew).
    destruct (indexWrote_inv H (s_disk st) f line (s_idx st) (wm_ChainHeight w) Ha H2 ltac:(lia) H5 H6) as [Hi1 Hi2].
    destruct Hst1. split; cbn in *; auto.
  - split; cbn; rewrite ?Ef; auto.
Qed.

(** Whatever the system answers, a write keeps the index in step with the
    files. *)
Lemma writeRecord_inv H os st r :
  store_inv H st -> storable r -> (record_height r = 0 \/ H <= record_height r) ->
  store_inv (Z.max H (record_height r)) (writeRecord os st r).2.
Proof.
  intros Hinv Hr Hh. unfold writeRecord.
  assert (forall st' : HistoryStore, store_inv H st' -> store_inv (Z.max H (record_height r)) st') as Hup.
  { intros st' [H1 H0 H2 H3 H4 H5 H6]. split; auto;
      match goal with |- ofile_ok _ ?o => destruct o; [|done]; by apply (good_file_mono H); [lia|] end. }
  assert (forall st' : HistoryStore, store_inv H st' -> store_inv H (add_drop st')) as Hdrop.
  { intros st' [H1 H0 H2 H3 H4 H5 H6]. by split. }
  set (opened := match s_file st with HNone => store_open os st | _ => (true, st) end).
  assert (store_inv H opened.2 /\ (opened.1 = true -> s_file opened.2 <> HNone)) as [Ho1 Ho2].
  { unfold opened. destruct (s_file st) eqn:Ef; [|split; [done|]; cbn; intros _; rewrite Ef; discriminate..].
    destruct (store_open_inv H os st Hinv Ef) as (Hs1 & Hs2 & _). split; [done|]. intros Hok. by rewrite Hs2. }
  destruct opened as [ok st1]. cbn [fst snd] in *. destruct ok; [|by apply Hup, Hdrop].
  destruct (_ && _).
  - destruct (rotate_inv H os st1 Ho1 (Ho2 eq_refl)) as [Hr1 Hr2].
    destruct (rotate os st1) as [[[]|e] st2]; cbn [fst snd] in *; [|by apply Hup].
    apply (append_line_inv H); [done|done|lia|lia|done].
  - apply (append_line_inv H); [done|done|lia|lia|done].
Qed.

(** ** Pages *)

(** The lines one generation offers to a lookup at [level]. *)
Definition gen_lines (d : Disk) (level : Z) (g : genIndex) : list str :=
  if (level <? g_tier g) || (g_tier g <=? DiskLookupOff) then []
  else match file_of d (g_tier g) with
       | Some f => kept (complete_lines f)
       | None => []
       end.

Lemma has_cutoff_false bound l : has_cutoff bound l = false <-> forall x, x ∈ l -> at_cutoff bound x = false.
Proof.
  unfold has_cutoff. rewrite <- not_true_iff_false, existsb_exists.
  setoid_rewrite <- list_elem_of_In. split.
  - intros H x Hx. destruct (at_cutoff bound x) eqn:E; [|done]. exfalso. apply H. by exists x.
  - intros H (x & Hx & E). by rewrite H in E.
Qed.

Lemma before_cutoff_clean bound l : has_cutoff bound (before_cutoff bound l) = false.
Proof.
  unfold has_cutoff. induction l as [|x l IH]; [done|]. simpl. destruct (at_cutoff bound x) eqn:E; [done|].
  simpl. by rewrite E.
Qed.

Lemma lastn_clean bound n l : has_cutoff bound l = false -> has_cutoff bound (lastn n l) = false.
Proof. rewrite !has_cutoff_false. intros H x Hx%elem_of_lastn. by apply H. Qed.

Lemma scan_one H d g bound limit f :
  good_file H f -> bound <> 0 -> gen_ok d g -> file_of d (g_tier g) = Some f ->
  scanGenTemp (Some f) bound g limit =
  (lastn (Z.to_nat limit) (before_cutoff bound (kept (complete_lines f))),
   has_cutoff bound (kept (complete_lines f))).
Proof.
  intros [Hl Hf] Hb Hg Hfile. rewrite <- forward_scan_spec.
  destruct (decide (g_tier g = DiskLookupArchive)) as [Hz|Hz].
  { unfold scanGenTemp. by rewrite Hz. }
  apply scan_raw_spec; [done|done| | |].
  - destruct Hg as [Hg|[_ Hg]]; [done|]. by rewrite Hfile in Hg.
  - eapply Forall_impl; [exact Hf|]. intros l [_ Hc]. by apply Hc.
  - apply line_end_torn in Hl as ->. by vm_compute.
Qed.

Lemma file_of_good H st tier f :
  store_inv H st -> file_of (s_disk st) tier = Some f -> good_file H f.
Proof.
  intros [_ _ H2 H3 H4 _ _] Hf. unfold file_of in Hf.
  destruct (tier =? DiskLookupArchive); [by rewrite Hf in H4|].
  destruct (tier =? DiskLookupRaw); [by rewrite Hf in H3|by rewrite Hf in H2].
Qed.

Lemma scan_gens_spec H st bound level limit gens :
  store_inv H st -> bound <> 0 -> Forall (gen_ok (s_disk st)) gens ->
  let temps := concat (scan_gens (s_disk st) bound level limit gens) in
  lastn (Z.to_nat limit) temps =
    lastn (Z.to_nat limit) (before_cutoff bound (concat (map (gen_lines (s_disk st) level) gens))) /\
  has_cutoff bound temps = false.
Proof.
  intros Hinv Hb. induction 1 as [|g gens Hg Hgens IH]; [done|]. cbv zeta in *. cbn [scan_gens map concat].
  unfold gen_lines at 1. destruct ((level <? g_tier g) || (g_tier g <=? DiskLookupOff)) eqn:Eskip; [exact IH|].
  destruct IH as [IH1 IH2].
  destruct (file_of (s_disk st) (g_tier g)) as [f|] eqn:Ef.
  - rewrite (scan_one H (s_disk st) g bound limit f (file_of_good H st _ f Hinv Ef) Hb Hg Ef).
    rewrite before_cutoff_app. destruct (has_cutoff bound (kept (complete_lines f))) eqn:Ec; cbn [concat].
    + rewrite app_nil_r. split; [|apply lastn_clean, before_cutoff_clean].
      apply lastn_all. rewrite length_lastn. lia.
    + rewrite lastn_app_lastn_l. rewrite (before_cutoff_none bound) by done.
      rewrite <- lastn_app_lastn_r, IH1, lastn_app_lastn_r. split; [done|].
      rewrite has_cutoff_app, IH2, orb_false_r. by apply lastn_clean.
  - cbn [scanGenTemp concat app]. done.
Qed.

(** The writes of [writeLoop], each with what the system answered. *)
Definition write_all (st : HistoryStore) (ops : list (OS * historyRecord)) : HistoryStore :=
  fold_left (fun st op => (writeRecord op.1 st op.2).2) ops st.

(** Chained heights grow in writing order. *)
Fixpoint heights_grow (H : Z) (ops : list (OS * historyRecord)) : Prop :=
  match ops with
  | [] => True
  | (_, r) :: ops' =>
      (record_height r = 0 \/ H <= record_height r) /\ heights_grow (Z.max H (record_height r)) ops'
  end.

Lemma write_all_inv ops : forall H st,
  store_inv H st -> Forall (fun op => storable op.2) ops -> heights_grow H ops ->
  exists H', store_inv H' (write_all st ops).
Proof.
  induction ops as [|[os r] ops IH]; intros H st Hinv Hs Hg; [by exists H|].
  inversion Hs as [|?? Hr Hs']; subst. destruct Hg as [Hh Hg].
  apply (IH (Z.max H (record_height r))); [|done|done]. by apply writeRecord_inv.
Qed.

Lemma new_store_inv os mb : store_inv 0 (NewHistoryStore os mb (mkDisk None None None)).2.
Proof.
  unfold NewHistoryStore.
  assert (store_inv 0 (mkStore (i64 (mb * 1024 * 1024)) HNone 0 false [] false 0 [] (mkDisk None None None))) as H.
  { split; cbn; try done. split; [constructor|apply not_elem_of_nil]. }
  apply (store_open_inv 0 os _ H eq_refl).
Qed.

(** What a lookup leaves in the ring: lines that agree with the files on the
    last [limit]; the ring stays open for the lines in memory. *)
Lemma windowBefore_ring os0 mb ops bound level limit :
  Forall (fun op => storable op.2) ops -> heights_grow 0 ops -> bound <> 0 ->
  let st := write_all (NewHistoryStore os0 mb (mkDisk None None None)).2 ops in
  let ring := windowBefore st (newWindowRing limit) bound level in
  exists fed, ring_inv ring fed /\ wr_done ring = false /\ wr_limit ring = Z.to_nat limit /\
    lastn (Z.to_nat limit) fed =
    lastn (Z.to_nat limit) (before_cutoff bound (concat (map (gen_lines (s_disk st) level) (s_idx st)))).
Proof.
  intros Hs Hg Hb. cbv zeta.
  destruct (write_all_inv ops 0 _ (new_store_inv os0 mb) Hs Hg) as [H Hinv].
  set (st := write_all _ ops) in *. unfold windowBefore. rewrite newWindowRing_limit.
  destruct (scan_gens_spec H st bound level (Z.of_nat (Z.to_nat limit)) (s_idx st) Hinv Hb (si_idx H st Hinv)) as [H1 H2].
  rewrite Nat2Z.id in H1. set (temps := concat _) in *.
  destruct (feed_all_spec temps bound (newWindowRing limit) [] (ring_inv_new limit) eq_refl) as (Hr & Hd & Hl).
  exists temps. rewrite newWindowRing_limit in Hl. rewrite Hd, H2. cbn [app] in Hr.
  rewrite before_cutoff_none in Hr by done. done.
Qed.


(** ** What is written is what is loaded *)

Lemma load_from_app l1 : forall offset l2,
  load_from offset (l1 ++ l2) = load_from offset l1 ++ load_from (offset + slen (lines_bytes l1)) l2.
Proof.
  induction l1 as [|x l1 IH]; intros offset l2.
  { simpl. f_equal. unfold slen. simpl. lia. }
  cbn [app load_from]. rewrite IH.
  replace (offset + (slen x + 1) + slen (lines_bytes l1)) with (offset + slen (lines_bytes (x :: l1))).
  2:{ unfold slen, lines_bytes. cbn [flat_map]. rewrite !length_app. simpl. lia. }
  destruct x as [|c x]; [done|]. destruct (unmarshal_record (c :: x)); [|done]. by destruct (empty_record _).
Qed.

Lemma load_appended f r :
  line_end f -> record_ok r -> empty_record r = false ->
  loadJSONLFile (f ++ (marshal_record r ++ [nl])) = loadJSONLFile f ++ [mkIndexed r (slen f)].
Proof.
  intros Hf Hr He. unfold loadJSONLFile. pose proof (marshal_record_no_nl r Hr) as Hnl.
  assert (split_nl (f ++ (marshal_record r ++ [nl])) = complete_lines f ++ [marshal_record r; []]) as ->.
  { rewrite split_nl_parts, complete_lines_snoc by done.
    assert (torn (f ++ (marshal_record r ++ [nl])) = []) as ->.
    { apply line_end_torn. right. exists (f ++ marshal_record r). apply app_assoc. }
    by rewrite <- app_assoc. }
  rewrite (split_nl_parts f), !load_from_app. apply line_end_torn in Hf. rewrite Hf.
  assert (slen (lines_bytes (complete_lines f)) = slen f) as Hl.
  { rewrite (split_nl_join f) at 2. by rewrite Hf, app_nil_r. }
  rewrite Hl, Z.add_0_l. cbn [load_from]. rewrite app_nil_r. f_equal.
  rewrite record_read by done. destruct (marshal_record_cons r) as (c & t & E). rewrite E, He. done.
Qed.

Lemma append_line_ok os st r :
  (append_line os st r (marshal_record r ++ [nl])).1 = Ok tt ->
  d_active (s_disk (append_line os st r (marshal_record r ++ [nl])).2) =
    Some (default [] (d_active (s_disk st)) ++ (marshal_record r ++ [nl])).
Proof.
  unfold append_line. destruct (s_file st); [done| |done]. destruct (os_write os); [|done]. intros _. cbn [negb snd].
  destruct (hr_Wire r) as [w|]; [|done]. by destruct (negb _).
Qed.


(** After [Close] nothing reaches the files: a record still queued is lost. *)
Lemma closed_store_loses os st r :
  s_file st = HClosed -> s_disk (writeRecord os st r).2 = s_disk st /\ (writeRecord os st r).1 <> Ok tt.
Proof.
  intros Hf. unfold writeRecord. rewrite Hf. destruct (_ && _).
  - unfold rotate. by rewrite Hf.
  - unfold append_line. by rewrite Hf.
Qed.

(** ** Witnesses *)

Definition good_os : OS := mkOS true true true true true true.

Definition sample_rec (height : Z) : historyRecord :=
  mkRecord height (lit "2025") [] (Some (set_link sample_chat [] [] height 2)).

Lemma sample_storable height : 0 <= height < 2 ^ 63 -> storable (sample_rec height).
Proof.
  intros Hh. split; [|done]. unfold record_ok, sample_rec. cbn [hr_Seq hr_Timestamp hr_Message hr_Wire].
  split; [unfold is_u64; lia|]. split; [done|]. split; [done|].
  split; [|done]. unfold wire_ranges, set_link, sample_chat, is_u64, is_i64. cbn. repeat split; lia.
Qed.


