(* ===== verification/ChainService.v ===== *)
(** The message log of the server ([server/chain.go] and the history part of
    [server/history.go]): linking and storing a message, the unchained notices,
    the in-memory history with its eviction, and the resumption of the chain
    from stored lines.  Every operation runs under [Chain.Mu]; the clock enters
    as formatted strings. *)

From S2P Require Import Prelude Bytes Sha2 Utf8 Wire Json ChainLink Window HistoryScan HistoryStore.
Local Open Scope Z_scope.

Definition chainVersion : Z := 2.

Record ChainService := mkChain {
  c_tip : str;
  c_height : Z;
  c_ready : bool;
  c_seq : Z;
  c_History : list str;
  c_HistorySize : Z;
  c_Store : option HistoryStore
}.

(** [NewChatServer] starts with the zero tip, not yet ready. *)
Definition newChain (store : option HistoryStore) : ChainService :=
  mkChain (repeat nul 32) 0 false 0 [] 0 store.

(** * In-memory history *)

(** The eviction loop: drop the oldest line while over the limit.  (Shrinking
    the backing array changes no content.) *)
Fixpoint evict (maxBytes size : Z) (hist : list str) : Z * list str :=
  match hist with
  | [] => (size, [])
  | l :: hist' => if maxBytes <? size then evict maxBytes (size - slen l) hist' else (size, hist)
  end.

Definition appendMessageLocked (maxBytes : Z) (c : ChainService) (msg : str) : ChainService :=
  let '(size, hist) := evict maxBytes (c_HistorySize c + slen msg) (c_History c ++ [msg]) in
  mkChain (c_tip c) (c_height c) (c_ready c) (c_seq c) hist size (c_Store c).

Definition assignSeqLocked (c : ChainService) : Z * ChainService :=
  let seq := u64 (c_seq c + 1) in
  (seq, mkChain (c_tip c) (c_height c) (c_ready c) seq (c_History c) (c_HistorySize c) (c_Store c)).

Definition enqueue (c : ChainService) (w : WireMessage) (ts : str) : ChainService :=
  match c_Store c with
  | Some st => mkChain (c_tip c) (c_height c) (c_ready c) (c_seq c) (c_History c) (c_HistorySize c)
                 (Some (EnqueueWire st w ts))
  | None => c
  end.

(** * Resuming the chain *)

Record init_state := mkInit {
  i_tip : str;
  i_height : Z;
  i_anchor : option str;     (* [anchor] when [anchored] *)
  i_broken : bool;
  i_maxSeq : Z
}.

Definition is_notice (w : WireMessage) : bool :=
  str_eqb (wm_Type w) (lit "system") && str_eqb (wm_ChainHash w) [].

(** One stored line. *)
Definition init_line (st : init_state) (msgStr : str) : init_state :=
  let '(mkInit tip height anchor broken maxSeq) := st in
  match unmarshal_wire msgStr with
  | None => mkInit tip height (Some msgStr) broken maxSeq
  | Some w =>
      let maxSeq := if maxSeq <? wm_Seq w then wm_Seq w else maxSeq in
      if is_notice w then mkInit tip height anchor broken maxSeq
      else if str_eqb (wm_ChainHash w) [] then mkInit tip height (Some msgStr) broken maxSeq
      else
        match ParseHex64 (wm_ChainPrev w), ParseHex64 (wm_ChainHash w) with
        | Some prev, Some want =>
            let expectPrev := match anchor with Some a => LegacyAnchor a | None => tip end in
            if negb (str_eqb prev expectPrev) || negb (wm_ChainHeight w =? u64 (height + 1)) then
              mkInit want (wm_ChainHeight w) None true maxSeq
            else
              mkInit want (wm_ChainHeight w) None
                (if negb (VerifyWire prev w want) then true else broken) maxSeq
        | _, _ => mkInit tip height None true maxSeq
        end
  end.

Section service.
Context {U : Unicode}.

(** The new state, and whether the stored log failed verification (the
    warning the operator sees). *)
Definition initChainLocked (c : ChainService) (serverPub : str) : ChainService * bool :=
  let st := fold_left init_line (c_History c) (mkInit (Genesis serverPub) 0 None false 0) in
  let tip :=
    match i_anchor st with
    | Some a => if i_height st =? 0 then LegacyAnchor a else i_tip st
    | None => i_tip st
    end in
  (mkChain tip (i_height st) true (if c_seq c <? i_maxSeq st then i_maxSeq st else c_seq c)
     (c_History c) (c_HistorySize c) (c_Store c), i_broken st).

(** * Linking *)

(** The chained copy, its JSON and the new state; [ts] is the record's
    timestamp. *)
Definition linkAndStore (maxBytes : Z) (ts : str) (c : ChainService) (wire : WireMessage) (serverPub : str)
    : WireMessage * str * ChainService :=
  let c := if c_ready c then c else (initChainLocked c serverPub).1 in
  let height := u64 (c_height c + 1) in
  let prev := c_tip c in
  let h := Hash prev height (wm_TmpID wire) (wm_ReplyTo wire) (wm_Type wire) (wm_Time wire)
             (wm_DisplayName wire) (wm_Text wire) (TripSigOf wire) in
  let wire := set_link wire (hex_encode prev) (hex_encode h) height chainVersion in
  let '(seq, c) := assignSeqLocked c in
  let wire := set_Seq wire seq in
  let c := mkChain h height true (c_seq c) (c_History c) (c_HistorySize c) (c_Store c) in
  let data := marshal_wire wire in
  let c := appendMessageLocked maxBytes c data in
  (wire, data, enqueue c wire ts).

(** * Unchained lines *)

Definition system_wire (clock : str) (tags : list str) (text : str) : WireMessage :=
  mkWire (lit "system") clock [] tags 0 [] 0 0 0 [] [] [] text None 0 0 [] [] 0 0 0 [].

Definition noticeWire (clock : str) (text : str) (leaves : list str) : WireMessage :=
  system_wire clock (WithTags leaves) text.

Definition set_SysDate (w : WireMessage) (day : str) : WireMessage :=
  match w with
  | mkWire a b c d e _ g h i j k l m n o p q r s t u v =>
      mkWire a b c d e day g h i j k l m n o p q r s t u v
  end.

Definition set_SysPowTier (w : WireMessage) (tier : Z) : WireMessage :=
  match w with
  | mkWire a b c d _ f g h i j k l m n o p q r s t u v =>
      mkWire a b c d tier f g h i j k l m n o p q r s t u v
  end.

Definition powNoticeWire (clock : str) (text : str) (tier : Z) (leaves : list str) : WireMessage :=
  set_SysPowTier (noticeWire clock text leaves) tier.

(** The line stored and fanned out. *)
Definition storeSystem (maxBytes : Z) (ts : str) (c : ChainService) (msg : WireMessage)
    : str * ChainService :=
  let '(seq, c) := assignSeqLocked c in
  let msg := set_Seq msg seq in
  let data := marshal_wire msg in
  let c := appendMessageLocked maxBytes c data in
  (data, enqueue c msg ts).

Definition broadcastSystem (maxBytes : Z) (clock ts : str) (c : ChainService) (text : str)
    (leaves : list str) (day : str) : str * ChainService :=
  storeSystem maxBytes ts c (set_SysDate (noticeWire clock text leaves) day).

Definition BroadcastNotice maxBytes clock ts c text leaves :=
  broadcastSystem maxBytes clock ts c text leaves [].

Definition BroadcastDate maxBytes clock ts c text day :=
  broadcastSystem maxBytes clock ts c text [TagDate] day.

(** [%+d]. *)
Definition signed (n : Z) : str := if n <? 0 then itoa n else "+"%char :: itoa n.

Definition vote_wire (clock : str) (target upvotes downvotes : Z) : WireMessage :=
  mkWire (lit "system") clock [] (WithTags [TagVote]) 0 [] target upvotes downvotes [] [] []
    (lit "#" ++ utoa target ++ lit " ▲" ++ itoa upvotes ++ lit " upvotes ▼" ++ itoa downvotes ++
     lit " downvotes (" ++ signed (i64 (upvotes - downvotes)) ++ lit ")")
    None 0 0 [] [] 0 0 0 [].

Definition BroadcastVote maxBytes clock ts c target upvotes downvotes :=
  storeSystem maxBytes ts c (vote_wire clock target upvotes downvotes).

Definition BroadcastAudit maxBytes clock ts c text serverPub : str * ChainService :=
  let '(_, data, c) := linkAndStore maxBytes ts c (system_wire clock (WithTags [TagAudit]) text) serverPub in
  (data, c).

Definition BroadcastWire maxBytes ts c wire serverPub : str * ChainService :=
  let '(_, data, c) := linkAndStore maxBytes ts c wire serverPub in (data, c).
End service.

(** * Theorems *)

(** ** Eviction *)

Definition total_size (l : list str) : Z := fold_right (fun s n => slen s + n) 0 l.

Lemma total_size_app l1 l2 : total_size (l1 ++ l2) = total_size l1 + total_size l2.
Proof. induction l1 as [|x l1 IH]; simpl; [done|]. rewrite IH. lia. Qed.

Lemma total_size_nonneg l : 0 <= total_size l.
Proof. induction l as [|x l IH]; simpl; [lia|]. unfold slen. lia. Qed.

Lemma evict_spec maxBytes hist : forall size,
  size = total_size hist ->
  let '(size', hist') := evict maxBytes size hist in
  size' = total_size hist' /\ (exists dropped, hist = dropped ++ hist') /\
  (size' <= maxBytes \/ hist' = []) /\ (size <= maxBytes -> hist' = hist) /\
  (forall d x t, hist = d ++ x :: t -> hist' = t -> maxBytes < total_size (x :: t)).
Proof.
  induction hist as [|l hist IH]; intros size Hs; cbn [evict].
  { split; [done|]. split; [by exists []|]. split; [by right|]. split; [done|]. by intros [] ? ?. }
  destruct (maxBytes <? size) eqn:E.
  - simpl in Hs. specialize (IH (size - slen l) ltac:(lia)).
    destruct (evict maxBytes (size - slen l) hist) as [size' hist'].
    destruct IH as (H1 & (d & H2) & H3 & H4 & H5). split; [done|]. split; [exists (l :: d); by rewrite H2|].
    split; [done|]. split; [lia|]. intros d' x t Heq Ht. destruct d' as [|y d'].
    + injection Heq as -> <-. simpl. lia.
    + injection Heq as _ Heq. by apply (H5 d').
  - split; [done|]. split; [by exists []|]. split; [left; lia|]. split; [done|].
    intros d x t Heq Ht. exfalso. apply (f_equal length) in Heq. rewrite Ht, length_app in Heq. simpl in Heq. lia.
Qed.

(** The in-memory history is a byte-bounded tail of the log: after every
    append the recorded size is the sum of the lines kept, it is within the
    limit (unless nothing is kept), the lines kept are a suffix of the old
    lines and the new one, nothing is dropped while everything fits, and no
    more is dropped than needed. *)
Theorem appendMessage_bounded maxBytes c msg :
  c_HistorySize c = total_size (c_History c) ->
  let c' := appendMessageLocked maxBytes c msg in
  c_HistorySize c' = total_size (c_History c') /\
  (c_HistorySize c' <= maxBytes \/ c_History c' = []) /\
  (exists dropped, c_History c ++ [msg] = dropped ++ c_History c') /\
  (total_size (c_History c ++ [msg]) <= maxBytes -> c_History c' = c_History c ++ [msg]) /\
  (forall d x, c_History c ++ [msg] = d ++ x :: c_History c' -> maxBytes < total_size (x :: c_History c')) /\
  c_tip c' = c_tip c /\ c_height c' = c_height c /\ c_seq c' = c_seq c.
Proof.
  intros Hs. unfold appendMessageLocked.
  pose proof (evict_spec maxBytes (c_History c ++ [msg]) (c_HistorySize c + slen msg)) as H.
  rewrite total_size_app in H. cbn [total_size fold_right] in H. specialize (H ltac:(lia)).
  destruct (evict _ _ _) as [size hist]. cbn [c_HistorySize c_History c_tip c_height c_seq].
  destruct H as (H1 & H2 & H3 & H4 & H5).
  split; [done|]. split; [done|]. split; [done|]. split; [|split; [|done]].
  - rewrite total_size_app. simpl. intros Hle. apply H4. lia.
  - intros d x Heq. by apply (H5 d).
Qed.

Lemma appendMessage_bounded_witness :
  let c := mkChain [] 0 true 0 [lit "abc"; lit "de"] 5 None in
  c_HistorySize (appendMessageLocked 6 c (lit "fgh")) = total_size (c_History (appendMessageLocked 6 c (lit "fgh"))).
Proof. apply (appendMessage_bounded 6 (mkChain [] 0 true 0 [lit "abc"; lit "de"] 5 None) (lit "fgh")). reflexivity. Defined.

(** ** The log and its resumption *)

Section resume.
Context {U : Unicode}.
Variable maxBytes : Z.
Variable pub : str.

(** What the server appends: a message to link, or an unchained notice. *)
Inductive log_op :=
| OpLink (ts : str) (w : WireMessage)
| OpNotice (ts : str) (w : WireMessage).

Definition op_ok (op : log_op) : Prop :=
  match op with
  | OpLink _ w => wire_text_ok w = true /\ wire_ranges w
  | OpNotice _ w => wire_text_ok w = true /\ wire_ranges w /\ is_notice w = true
  end.

(** The state after an operation, with the line it appended. *)
Definition log_step (c : ChainService) (op : log_op) : str * ChainService :=
  match op with
  | OpLink ts w => BroadcastWire maxBytes ts c w pub
  | OpNotice ts w => storeSystem maxBytes ts c w
  end.

Fixpoint log_run (c : ChainService) (ops : list log_op) : list str * ChainService :=
  match ops with
  | [] => ([], c)
  | op :: ops' =>
      let '(l, c1) := log_step c op in
      let '(ls, c2) := log_run c1 ops' in (l :: ls, c2)
  end.

(** The service at its first boot. *)
Definition boot (store : option HistoryStore) : ChainService := (initChainLocked (newChain store) pub).1.

(** The height of the first chained line. *)
Fixpoint first_height (ls : list str) : option Z :=
  match ls with
  | [] => None
  | l :: ls' =>
      match unmarshal_wire l with
      | Some w => if str_eqb (wm_ChainHash w) [] then first_height ls' else Some (wm_ChainHeight w)
      | None => first_height ls'
      end
  end.

Definition init0 : init_state := mkInit (Genesis pub) 0 None false 0.

(** Scanning a suffix [s] of the log gives the live state back. *)
Definition resumes (c : ChainService) (s : list str) : Prop :=
  fold_left init_line s init0 =
  let maxSeq := match s with [] => 0 | _ => c_seq c end in
  match first_height s with
  | None => mkInit (Genesis pub) 0 None false maxSeq
  | Some h => mkInit (c_tip c) (c_height c) None (negb (h =? 1)) maxSeq
  end.

Record log_inv (L : list str) (c : ChainService) : Prop := {
  li_ready : c_ready c = true;
  li_tip : length (c_tip c) = 32%nat;
  li_genesis : c_height c = 0 -> c_tip c = Genesis pub;
  li_height : 0 <= c_height c <= Z.of_nat (length L);
  li_seq : c_seq c = Z.of_nat (length L);
  li_suffix : forall s, s `suffix_of` L -> resumes c s;
  li_first : forall s h, s `suffix_of` L -> first_height s = Some h -> 1 <= h <= c_height c;
  li_history : c_History c `suffix_of` L
}.

Lemma first_height_app s x : first_height (s ++ [x]) =
  match first_height s with Some h => Some h | None => first_height [x] end.
Proof.
  induction s as [|l s IH]; [done|]. cbn [app first_height].
  destruct (unmarshal_wire l) as [w|]; [|apply IH]. by destruct (str_eqb _ _).
Qed.

Lemma suffix_snoc {A} (s L : list A) x :
  s `suffix_of` L ++ [x] -> s = [] \/ exists s', s = s' ++ [x] /\ s' `suffix_of` L.
Proof.
  intros [d H]. destruct s as [|y s] using rev_ind; [by left|right]. clear IHs.
  rewrite app_assoc in H. apply app_inj_2 in H as [H1 H2]; [|done]. injection H2 as ->.
  exists s. split; [done|]. by exists d.
Qed.

Lemma evict_suffix size hist : (evict maxBytes size hist).2 `suffix_of` hist.
Proof.
  revert size. induction hist as [|l hist IH]; intros size; cbn [evict]; [done|].
  destruct (maxBytes <? size); [|done]. by apply suffix_cons_r.
Qed.

Lemma append_fields c msg :
  let c' := appendMessageLocked maxBytes c msg in
  c_tip c' = c_tip c /\ c_height c' = c_height c /\ c_seq c' = c_seq c /\ c_ready c' = c_ready c /\
  c_History c' `suffix_of` c_History c ++ [msg].
Proof.
  unfold appendMessageLocked. pose proof (evict_suffix (c_HistorySize c + slen msg) (c_History c ++ [msg])) as H.
  by destruct (evict _ _ _) as [size hist].
Qed.

Lemma enqueue_fields c w ts :
  let c' := enqueue c w ts in
  c_tip c' = c_tip c /\ c_height c' = c_height c /\ c_seq c' = c_seq c /\ c_ready c' = c_ready c /\
  c_History c' = c_History c.
Proof. unfold enqueue. by destruct (c_Store c). Qed.

(** The stored form of a linked message. *)
Definition linked (c : ChainService) (w : WireMessage) : WireMessage :=
  let height := u64 (c_height c + 1) in
  let h := Hash (c_tip c) height (wm_TmpID w) (wm_ReplyTo w) (wm_Type w) (wm_Time w)
             (wm_DisplayName w) (wm_Text w) (TripSigOf w) in
  set_Seq (set_link w (hex_encode (c_tip c)) (hex_encode h) height chainVersion) (u64 (c_seq c + 1)).

Lemma linked_hash c w : exists h, length h = 32%nat /\
  wm_ChainHash (linked c w) = hex_encode h /\ VerifyWire (c_tip c) (linked c w) h = true /\
  wm_ChainPrev (linked c w) = hex_encode (c_tip c) /\ wm_ChainHeight (linked c w) = u64 (c_height c + 1) /\
  wm_Seq (linked c w) = u64 (c_seq c + 1) /\ wm_ChainVer (linked c w) = 2 /\
  (forall ts maxB, c_ready c = true ->
    let '(w', data, c') := linkAndStore maxB ts c w pub in
    w' = linked c w /\ data = marshal_wire (linked c w) /\ c_tip c' = h /\
    c_height c' = u64 (c_height c + 1) /\ c_seq c' = u64 (c_seq c + 1) /\ c_ready c' = true /\
    c_History c' = c_History (appendMessageLocked maxB c data)).
Proof.
  exists (Hash (c_tip c) (u64 (c_height c + 1)) (wm_TmpID w) (wm_ReplyTo w) (wm_Type w) (wm_Time w)
            (wm_DisplayName w) (wm_Text w) (TripSigOf w)).
  split; [apply length_sha256|]. split; [by destruct w|].
  split; [destruct w; apply str_eqb_refl|]. do 4 (split; [by destruct w|]). intros ts maxB Hr.
  unfold linkAndStore. rewrite Hr. cbn [assignSeqLocked c_seq c_History c_HistorySize c_Store c_tip c_height c_ready].
  unfold appendMessageLocked. cbn [c_History c_HistorySize c_tip c_height c_seq c_Store].
  destruct (evict _ _ _) as [size hist]. unfold enqueue. cbn [c_Store]. by destruct (c_Store c).
Qed.

Lemma hex_valid b : ValidString (hex_encode b) = true.
Proof.
  apply ascii_valid. pose proof (hex_encode_lower b) as H. unfold lower_hex, is_digit in H.
  rewrite forallb_forall in *. intros c Hc. specialize (H c Hc). unfold is_ascii. lia.
Qed.

Lemma linked_ok c w :
  wire_text_ok w = true -> wire_ranges w ->
  wire_text_ok (linked c w) = true /\ wire_ranges (linked c w).
Proof.
  intros Ht Hr. split.
  - unfold wire_text_ok, linked in *. destruct w. wire_cbn. cbn [forallb] in *.
    rewrite !hex_valid. repeat rewrite andb_true_iff in *. tauto.
  - pose proof (u64_range (c_height c + 1)) as Hh. pose proof (u64_range (c_seq c + 1)) as Hq.
    unfold wire_ranges, linked, chainVersion in *. destruct w. wire_cbn. destruct_and! Hr.
    repeat (split; [done || (unfold is_i64; lia)|]). done.
Qed.

Lemma notice_seq_ok w seq :
  wire_text_ok w = true -> wire_ranges w -> is_u64 seq ->
  wire_text_ok (set_Seq w seq) = true /\ wire_ranges (set_Seq w seq).
Proof.
  intros Ht Hr Hs. split; [by destruct w|]. unfold wire_ranges in *. destruct w. wire_cbn. tauto.
Qed.

Lemma str_eqb_hex h : length h = 32%nat -> str_eqb (hex_encode h) [] = false.
Proof.
  intros Hl. apply str_eqb_neq. intros E. apply (f_equal length) in E. rewrite length_hex_encode, Hl in E. done.
Qed.

Lemma ParseHex64_encode h : length h = 32%nat -> ParseHex64 (hex_encode h) = Some h.
Proof. intros Hl. unfold ParseHex64, slen. by rewrite length_hex_encode, hex_decode_encode, Hl. Qed.

(** ** Scanning one more line *)

(** A line of a notice only moves the sequence. *)
Lemma init_line_notice st w :
  wire_text_ok w = true -> wire_ranges w -> is_notice w = true ->
  init_line st (marshal_wire w) =
  mkInit (i_tip st) (i_height st) (i_anchor st) (i_broken st)
    (if i_maxSeq st <? wm_Seq w then wm_Seq w else i_maxSeq st).
Proof.
  intros Ht Hr Hn. destruct st. unfold init_line. by rewrite wire_roundtrip_read, Hn.
Qed.

(** The tip after linking [w]. *)
Definition tip_after (c : ChainService) (w : WireMessage) : str :=
  c_tip (linkAndStore maxBytes [] (mkChain (c_tip c) (c_height c) true (c_seq c) [] 0 None) w pub).2.

Lemma tip_after_hash c w h : wm_ChainHash (linked c w) = hex_encode h -> tip_after c w = h.
Proof.
  intros Hhash. unfold tip_after.
  destruct (linked_hash (mkChain (c_tip c) (c_height c) true (c_seq c) [] 0 None) w) as (h' & _ & Hhash' & _ & _ & _ & _ & _ & Hl).
  specialize (Hl [] maxBytes eq_refl). destruct (linkAndStore _ _ _ _ _) as [[w' d] c'].
  destruct Hl as (_ & _ & Hl & _). cbn [snd]. rewrite Hl. apply hex_encode_inj. by rewrite <- Hhash', <- Hhash.
Qed.

(** A linked line moves the tip, and is in order when it continues it. *)
Lemma init_line_linked st c w :
  wire_text_ok w = true -> wire_ranges w -> length (c_tip c) = 32%nat -> i_anchor st = None ->
  init_line st (marshal_wire (linked c w)) =
  mkInit (tip_after c w) (u64 (c_height c + 1)) None
    (if negb (str_eqb (c_tip c) (i_tip st)) || negb (u64 (c_height c + 1) =? u64 (i_height st + 1))
     then true else i_broken st)
    (if i_maxSeq st <? u64 (c_seq c + 1) then u64 (c_seq c + 1) else i_maxSeq st).
Proof.
  intros Ht Hr Htip Ha. destruct st as [tip height anchor broken maxSeq]. cbn in Ha. subst anchor.
  destruct (linked_ok c w Ht Hr) as [Ht' Hr'].
  destruct (linked_hash c w) as (h & Hh & Hhash & Hver & Hprev & Hheight & Hseq & _ & _).
  rewrite (tip_after_hash c w h Hhash).
  unfold init_line. rewrite wire_roundtrip_read by done.
  assert (is_notice (linked c w) = false) as ->.
  { unfold is_notice. rewrite Hhash, str_eqb_hex by done. apply andb_false_r. }
  rewrite Hprev, Hhash, Hheight, Hseq, str_eqb_hex, !ParseHex64_encode, Hver by done.
  by destruct (negb _ || negb _).
Qed.

Lemma log_inv_boot store : log_inv [] (boot store).
Proof.
  unfold boot, initChainLocked, newChain. cbn. split; cbn; try done.
  - apply length_sha256.
  - intros s Hs. apply suffix_nil_inv in Hs as ->. done.
  - intros s h Hs. apply suffix_nil_inv in Hs as ->. done.
Qed.

Lemma first_height_marshal w :
  wire_text_ok w = true -> wire_ranges w ->
  first_height [marshal_wire w] = if str_eqb (wm_ChainHash w) [] then None else Some (wm_ChainHeight w).
Proof. intros Ht Hr. unfold first_height. by rewrite wire_roundtrip_read. Qed.

Lemma suffix_trans {A} (a b c : list A) : a `suffix_of` b -> b `suffix_of` c -> a `suffix_of` c.
Proof. intros. by etrans. Qed.

Lemma suffix_snoc_mono {A} (a b : list A) x : a `suffix_of` b -> a ++ [x] `suffix_of` b ++ [x].
Proof. intros [d ->]. exists d. by rewrite app_assoc. Qed.

Lemma log_inv_notice L c ts w :
  log_inv L c -> op_ok (OpNotice ts w) -> Z.of_nat (length L) + 1 < 2 ^ 64 ->
  let '(l, c') := storeSystem maxBytes ts c w in log_inv (L ++ [l]) c'.
Proof.
  intros [H1 H2 H3 H4 H5 H6 H7 H8] (Ht & Hr & Hn) Hlen. unfold storeSystem. cbn [assignSeqLocked].
  set (seq := u64 (c_seq c + 1)). assert (seq = c_seq c + 1) as Hseq by (apply u64_small; unfold is_u64; lia).
  set (c1 := mkChain _ _ _ seq _ _ _).
  destruct (notice_seq_ok w seq Ht Hr (u64_range _)) as [Ht' Hr'].
  assert (is_notice (set_Seq w seq) = true) as Hn' by by destruct w.
  assert (wm_Seq (set_Seq w seq) = seq) as Hws by by destruct w.
  set (l := marshal_wire (set_Seq w seq)).
  destruct (append_fields c1 l) as (A1 & A2 & A3 & A4 & A5).
  destruct (enqueue_fields (appendMessageLocked maxBytes c1 l) (set_Seq w seq) ts) as (E1 & E2 & E3 & E4 & E5).
  set (c' := enqueue _ _ _) in *. rewrite A1 in E1. rewrite A2 in E2. rewrite A3 in E3. rewrite A4 in E4.
  cbn in E1, E2, E3, E4.
  assert (first_height [l] = None) as Hfl.
  { unfold l. rewrite first_height_marshal by done. unfold is_notice in Hn'.
    apply andb_true_iff in Hn' as [_ ->]. done. }
  split; rewrite ?E1, ?E2, ?E3, ?E4; try done.
  - rewrite length_app. simpl. lia.
  - rewrite length_app. simpl. lia.
  - intros s [->|(s' & -> & Hs')]%suffix_snoc; [done|]. unfold resumes.
    rewrite fold_left_app, (H6 s' Hs'), E1, E2, E3, first_height_app, Hfl. cbn [fold_left].
    unfold l. rewrite init_line_notice by done. rewrite Hws.
    destruct (first_height s') as [h|]; cbn [i_tip i_height i_anchor i_broken i_maxSeq];
      f_equal; clear -Hseq H5 H4; clearbody seq; destruct s'; cbn [app];
      match goal with |- context [?a <? seq] => destruct (a <? seq) eqn:? end; lia.
  - intros s h [->|(s' & -> & Hs')]%suffix_snoc Hf; [done|]. rewrite first_height_app, Hfl in Hf.
    destruct (first_height s') as [h'|] eqn:Ef; [|done]. injection Hf as <-. by apply (H7 s').
  - rewrite E5. eapply suffix_trans; [exact A5|]. by apply suffix_snoc_mono.
Qed.

Lemma log_inv_link L c ts w :
  log_inv L c -> op_ok (OpLink ts w) -> Z.of_nat (length L) + 1 < 2 ^ 64 ->
  let '(l, c') := BroadcastWire maxBytes ts c w pub in log_inv (L ++ [l]) c'.
Proof.
  intros [H1 H2 H3 H4 H5 H6 H7 H8] (Ht & Hr) Hlen. unfold BroadcastWire.
  destruct (linked_hash c w) as (h & Hh & Hhash & Hver & Hprev & Hheight & Hseq & _ & Hlink).
  specialize (Hlink ts maxBytes H1). destruct (linkAndStore maxBytes ts c w pub) as [[w' l] c'].
  destruct Hlink as (-> & -> & E1 & E2 & E3 & E4 & E5).
  rewrite u64_small in E2, Hheight, E3, Hseq by (unfold is_u64; lia).
  destruct (linked_ok c w Ht Hr) as [Ht' Hr']. set (l := marshal_wire (linked c w)) in *.
  assert (first_height [l] = Some (c_height c + 1)) as Hfl.
  { unfold l. rewrite first_height_marshal by done. by rewrite Hhash, str_eqb_hex, Hheight. }
  split; rewrite ?E1, ?E2, ?E3, ?E4; try done.
  - lia.
  - rewrite length_app. simpl. lia.
  - rewrite length_app. simpl. lia.
  - intros s [->|(s' & -> & Hs')]%suffix_snoc; [done|]. unfold resumes.
    rewrite fold_left_app, (H6 s' Hs'), E1, E2, E3, first_height_app, Hfl. cbn [fold_left].
    unfold l. rewrite init_line_linked; [|done|done|done|by destruct (first_height s')].
    rewrite (tip_after_hash c w h Hhash).
    rewrite !u64_small by (unfold is_u64; destruct (first_height s'); cbn; lia).
    assert (match s' ++ [marshal_wire (linked c w)] with [] => 0 | _ => c_seq c + 1 end = c_seq c + 1) as Hm
      by by destruct s'.
    rewrite Hm.
    assert ((if i_maxSeq (match first_height s' with
              | Some h0 => mkInit (c_tip c) (c_height c) None (negb (h0 =? 1)) (match s' with [] => 0 | _ => c_seq c end)
              | None => mkInit (Genesis pub) 0 None false (match s' with [] => 0 | _ => c_seq c end) end) <? c_seq c + 1
             then c_seq c + 1 else i_maxSeq (match first_height s' with
              | Some h0 => mkInit (c_tip c) (c_height c) None (negb (h0 =? 1)) (match s' with [] => 0 | _ => c_seq c end)
              | None => mkInit (Genesis pub) 0 None false (match s' with [] => 0 | _ => c_seq c end) end)) = c_seq c + 1) as Hms.
    { destruct (first_height s'), s'; cbn [i_maxSeq];
        match goal with |- context [?a <? c_seq c + 1] => destruct (a <? c_seq c + 1) eqn:? end; lia. }
    cbv zeta. rewrite Hms. destruct (first_height s') as [h0|] eqn:Ef; cbn [i_tip i_height i_anchor i_broken i_maxSeq].
    + rewrite str_eqb_refl, Z.eqb_refl. done.
    + f_equal. destruct (c_height c + 1 =? 1) eqn:Eh.
      * rewrite H3, str_eqb_refl by lia. by replace (c_height c + 1 =? 0 + 1) with true by lia.
      * replace (c_height c + 1 =? 0 + 1) with false by lia. by rewrite orb_true_r.
  - intros s h' [->|(s' & -> & Hs')]%suffix_snoc Hf; [done|]. rewrite first_height_app, Hfl in Hf.
    destruct (first_height s') as [h''|] eqn:Ef.
    + injection Hf as <-. specialize (H7 s' h'' Hs' Ef). lia.
    + injection Hf as <-. lia.
  - rewrite E5. destruct (append_fields c l) as (_ & _ & _ & _ & A5).
    eapply suffix_trans; [exact A5|]. by apply suffix_snoc_mono.
Qed.

Lemma log_run_inv ops : forall L c,
  log_inv L c -> Forall op_ok ops -> Z.of_nat (length L) + Z.of_nat (length ops) < 2 ^ 64 ->
  let '(ls, c') := log_run c ops in log_inv (L ++ ls) c'.
Proof.
  induction ops as [|op ops IH]; intros L c Hinv Hops Hlen; cbn [log_run]; [by rewrite app_nil_r|].
  inversion Hops as [|?? Hop Hops']; subst. cbn [length] in Hlen.
  assert (let '(l, c1) := log_step c op in log_inv (L ++ [l]) c1) as Hstep.
  { destruct op as [ts w|ts w]; [apply log_inv_link|apply log_inv_notice]; try done; lia. }
  destruct (log_step c op) as [l c1]. specialize (IH (L ++ [l]) c1 Hstep Hops').
  rewrite length_app in IH. simpl in IH. specialize (IH ltac:(lia)).
  destruct (log_run c1 ops) as [ls c2]. by rewrite <- app_assoc in IH.
Qed.

(** Linking continues the chain: the stored message carries the old tip as
    its [chain_prev], the next height and sequence number and the current
    encoding version, verifies against its own [chain_hash], and that hash
    is the new tip; the line appended is its JSON. *)
Theorem linkAndStore_continues ts c w :
  c_ready c = true ->
  let '(w', data, c') := linkAndStore maxBytes ts c w pub in
  wm_ChainPrev w' = hex_encode (c_tip c) /\ wm_ChainHash w' = hex_encode (c_tip c') /\
  wm_ChainHeight w' = u64 (c_height c + 1) /\ c_height c' = u64 (c_height c + 1) /\
  wm_Seq w' = u64 (c_seq c + 1) /\ c_seq c' = u64 (c_seq c + 1) /\
  wm_ChainVer w' = chainVersion /\ VerifyWire (c_tip c) w' (c_tip c') = true /\
  data = marshal_wire w' /\ c_History c' `suffix_of` c_History c ++ [data].
Proof.
  intros Hr. destruct (linked_hash c w) as (h & _ & Hhash & Hver & Hprev & Hheight & Hseq & Hv & Hlink).
  specialize (Hlink ts maxBytes Hr). destruct (linkAndStore _ _ _ _ _) as [[w' data] c'].
  destruct Hlink as (-> & -> & -> & -> & -> & _ & ->).
  repeat (split; [done|]). apply append_fields.
Qed.

(** C1. A restart resumes the same chain: whatever messages and notices were
    stored since the first boot, scanning any tail of the stored log that
    still holds a chained line gives back the live tip, height and sequence
    number; the log is reported clean exactly when that tail starts at
    height 1 - so an untampered but evicted log is reported as broken, and
    the tip is adopted all the same. *)
Theorem restart_resumes store ops :
  Forall op_ok ops -> Z.of_nat (length ops) < 2 ^ 64 ->
  let '(log, c) := log_run (boot store) ops in
  c_History c `suffix_of` log /\
  forall s h, s `suffix_of` log -> first_height s = Some h ->
    let '(c', broken) := initChainLocked (mkChain (repeat nul 32) 0 false 0 s (total_size s) None) pub in
    c_tip c' = c_tip c /\ c_height c' = c_height c /\ c_seq c' = c_seq c /\ broken = negb (h =? 1).
Proof.
  intros Hops Hlen. pose proof (log_run_inv ops [] (boot store) (log_inv_boot store) Hops ltac:(simpl; lia)) as H.
  destruct (log_run (boot store) ops) as [log c]. cbn [app] in H. split; [apply (li_history _ _ H)|].
  intros s h Hs Hf. unfold initChainLocked. cbn [c_History c_seq]. fold init0.
  pose proof (li_suffix _ _ H s Hs) as Hres. unfold resumes in Hres. cbv zeta in Hres.
  rewrite Hres, Hf. cbn [i_tip i_height i_anchor i_broken i_maxSeq c_tip c_height c_seq].
  split; [done|]. split; [done|]. split; [|done].
  assert (s <> []) as Hne by (intros ->; done).
  pose proof (li_seq _ _ H). destruct s; [done|].
  destruct (0 <? c_seq c) eqn:E; lia.
Qed.
End resume.

Definition sample_ops : list log_op :=
  [OpLink (lit "t1") sample_chat; OpNotice (lit "t2") (noticeWire (lit "15:05") (lit "An vào phòng") [TagJoin]);
   OpLink (lit "t3") sample_chat].

Lemma sample_ops_ok : Forall op_ok sample_ops.
Proof.
  repeat constructor; try reflexivity; unfold is_u64, is_i64; cbn; try lia.
Qed.

Lemma restart_resumes_witness :
  let '(log, c) := log_run (U := sample_unicode) 1000 (lit "pub") (boot (U := sample_unicode) (lit "pub") None) sample_ops in
  c_History c `suffix_of` log.
Proof.
  pose proof (restart_resumes (U := sample_unicode) 1000 (lit "pub") None sample_ops sample_ops_ok ltac:(simpl; lia)) as H.
  destruct (log_run _ _ _ _) as [log c]. exact (proj1 H).
Defined.

Lemma linkAndStore_continues_witness :
  let '(w', _, c') := linkAndStore (U := sample_unicode) 1000 [] (boot (U := sample_unicode) (lit "pub") None) sample_chat (lit "pub") in
  VerifyWire (c_tip (boot (U := sample_unicode) (lit "pub") None)) w' (c_tip c') = true.
Proof.
  pose proof (linkAndStore_continues (U := sample_unicode) 1000 (lit "pub") [] (boot (U := sample_unicode) (lit "pub") None) sample_chat eq_refl) as H.
  destruct (linkAndStore _ _ _ _ _) as [[w' d] c']. apply H.
Defined.

(** An evicted but untampered tail is reported as broken. *)
Lemma evicted_tail_reported :
  exists log c s h,
    log_run (U := sample_unicode) 1000000 (lit "pub") (boot (U := sample_unicode) (lit "pub") None) sample_ops = (log, c) /\
    s `suffix_of` log /\ first_height s = Some h /\
    (initChainLocked (U := sample_unicode) (mkChain (repeat nul 32) 0 false 0 s (total_size s) None) (lit "pub")).2 = true.
Proof.
  destruct (log_run _ _ _ _) as [log c] eqn:E.
  pose proof (restart_resumes (U := sample_unicode) 1000000 (lit "pub") None sample_ops sample_ops_ok ltac:(simpl; lia)) as H.
  rewrite E in H. destruct H as [_ H]. exists log, c, (drop 1 log), 2.
  assert (drop 1 log `suffix_of` log) as Hs by (exists (take 1 log); symmetry; apply take_drop).
  assert (first_height (drop 1 log) = Some 2) as Hf.
  { apply (f_equal fst) in E. cbn [fst] in E. rewrite <- E. vm_compute. reflexivity. }
  split; [done|]. split; [done|]. split; [done|]. specialize (H (drop 1 log) 2 Hs Hf).
  destruct (initChainLocked _ _) as [c' b]. by destruct H as (_ & _ & _ & ->).
Qed.
