(* ===== verification/History.v ===== *)
(** Serving stored history ([server/history.go]): the summary for a joining peer,
    the height-cursor segment (disk below memory), the seq-cursor pages, the
    refill of height ranges, and the replay that frames lines for a bounded
    send queue and closes with a trailer. *)

From Stdlib Require Import Sorted.
From stdpp Require Import sorting.
From S2P Require Import Prelude Bytes Utf8 Wire Json Filter ChainLink Window HistoryScan HistoryStore ChainService.
Local Open Scope Z_scope.

(** * Reading stored lines *)

Definition line_height (l : str) : Z :=
  match unmarshal_wire l with Some w => wm_ChainHeight w | None => 0 end.

Definition line_seq (l : str) : Z :=
  match unmarshal_wire l with Some w => wm_Seq w | None => 0 end.

(** The smallest chained height, or 0; [found] is [oldest <> 0] here because a
    chained height is never 0. *)
Definition oldestChained (lines : list str) : Z :=
  fold_left (fun oldest l =>
    let h := line_height l in
    if h =? 0 then oldest
    else if (oldest =? 0) || (h <? oldest) then h else oldest) lines 0.

Fixpoint last_height (rev_lines : list str) : Z :=
  match rev_lines with
  | [] => 0
  | l :: ls => if 0 <? line_height l then line_height l else last_height ls
  end.

Definition historyInfo (c : ChainService) : HistoryInfo :=
  let hist := c_History c in
  let count := Z.of_nat (length hist) in
  match hist with
  | [] => mkHistoryInfo 0 0 0 0 0
  | first :: _ =>
      let minSeq := line_seq first in
      let maxSeq := match last hist with Some l => line_seq l | None => 0 end in
      let minH := oldestChained hist in
      let maxH := last_height (reverse hist) in
      let '(minSeq, maxSeq) := if maxSeq <? minSeq then (maxSeq, minSeq) else (minSeq, maxSeq) in
      let '(minH, maxH) := if maxH <? minH then (maxH, minH) else (minH, maxH) in
      mkHistoryInfo minSeq maxSeq minH maxH count
  end.

(** * Height cursor *)

(** [level] is the configured [HistoryDiskLookup]. *)
Definition collectSegment (level : Z) (c : ChainService) (before limit : Z) : list str :=
  if limit <=? 0 then []
  else
    let ring := newWindowRing limit in
    let ring :=
      match c_Store c with
      | Some st =>
          if negb (before =? 0) && (DiskLookupOff <? level) then
            let oldest := oldestChained (c_History c) in
            let bound := if negb (oldest =? 0) && (oldest <? before) then oldest else before in
            windowBefore st ring bound level
          else ring
      | None => ring
      end in
    let ring := if wr_done ring then ring else feed_all ring (c_History c) before in
    ring_lines ring.

(** * Seq cursor *)

(** The loop both directions share: the lines so far and the next cursor;
    [skip] is the test of the direction on a decoded line. *)
Fixpoint page_loop (skip : WireMessage -> bool) (hist : list str) (limit : Z) (lines : list str) (next : Z)
    : list str * bool * Z :=
  match hist with
  | [] => (lines, false, 0)
  | msgStr :: hist' =>
      match unmarshal_wire msgStr with
      | Some stored =>
          if skip stored then page_loop skip hist' limit lines next
          else if Z.of_nat (length lines) =? limit then (lines, true, next)
          else page_loop skip hist' limit (lines ++ [msgStr]) (wm_Seq stored)
      | None => page_loop skip hist' limit lines next
      end
  end.

Definition collectAfterSeq (c : ChainService) (afterSeq limit : Z) : list str * bool * Z :=
  if limit <=? 0 then ([], false, 0)
  else page_loop (fun stored => wm_Seq stored <=? afterSeq) (c_History c) limit [] 0.

Definition collectBeforeSeq (c : ChainService) (beforeSeq limit : Z) : list str * bool * Z :=
  if limit <=? 0 then ([], false, 0)
  else
    let beforeSeq := if beforeSeq =? 0 then 2 ^ 64 - 1 else beforeSeq in
    page_loop (fun stored => (wm_Seq stored =? 0) || (beforeSeq <=? wm_Seq stored))
      (reverse (c_History c)) limit [] 0.

(** * Ranges *)

(** [sort.Slice] by [From]; equal keys keep their order here. *)
Fixpoint insert_range (r : HeightRange) (rs : list HeightRange) : list HeightRange :=
  match rs with
  | [] => [r]
  | x :: rs' => if hr_From r <? hr_From x then r :: rs else x :: insert_range r rs'
  end.
Definition sort_ranges (rs : list HeightRange) : list HeightRange :=
  fold_left (fun acc r => insert_range r acc) rs [].

Definition valid_range (r : HeightRange) : bool := negb ((hr_From r =? 0) || (hr_To r <? hr_From r)).
Definition in_range (h : Z) (r : HeightRange) : bool := (hr_From r <=? h) && (h <=? hr_To r).

Fixpoint range_loop (hist : list str) (rs : list HeightRange) (maxTo limit : Z) (out : list str) : list str :=
  match hist with
  | [] => out
  | msgStr :: hist' =>
      let h := line_height msgStr in
      if (h =? 0) || (maxTo <? h) then range_loop hist' rs maxTo limit out
      else if negb (existsb (in_range h) rs) then range_loop hist' rs maxTo limit out
      else
        let out := out ++ [msgStr] in
        if limit <=? Z.of_nat (length out) then out else range_loop hist' rs maxTo limit out
  end.

Definition collectRanges (c : ChainService) (ranges : list HeightRange) (limit : Z) : list str :=
  if limit <=? 0 then []
  else
    let rs := sort_ranges (List.filter valid_range ranges) in
    match last rs with
    | None => []
    | Some r => range_loop (c_History c) rs (hr_To r) limit []
    end.

(** * Replay *)

Record pageMeta := mkMeta { pm_Direction : str; pm_NextSeq : Z; pm_More : bool }.
Definition zeroMeta : pageMeta := mkMeta [] 0 false.

Definition sync_fields (s : HistorySync) : list (str * json) :=
  fstr "type" (lit "history_sync") ++ oint "min_height" (hs_MinHeight s) ++ oint "max_height" (hs_MaxHeight s) ++
  oint "sent" (hs_Sent s) ++ oint "total" (hs_Total s) ++ oint "dropped" (hs_Dropped s) ++
  ostr "direction" (hs_Direction s) ++ oint "first_seq" (hs_FirstSeq s) ++ oint "last_seq" (hs_LastSeq s) ++
  oint "next_seq" (hs_NextSeq s) ++ obool "more" (hs_More s).

Definition historySyncTrailer (minHeight maxHeight sent total dropped firstSeq lastSeq : Z) (meta : pageMeta) : str :=
  print (JObj (sync_fields (mkHistorySync minHeight maxHeight sent total dropped (pm_Direction meta)
                              firstSeq lastSeq (pm_NextSeq meta) (pm_More meta)))).

(** The state of one replay.  [accept i] tells whether the session's queue has
    room at the [i]-th attempt, the other goroutines draining it meanwhile. *)
Record replay := mkReplay {
  rp_frames : list str;       (* queued, in order *)
  rp_attempts : nat;
  rp_sent : Z;
  rp_dropped : Z;
  rp_batch : str;
  rp_batchN : Z;
  rp_minHeight : Z;
  rp_maxHeight : Z;
  rp_haveHeight : bool;
  rp_firstSeq : Z;
  rp_lastSeq : Z
}.

Section replay.
Variable accept : nat -> bool.
Variables batchLines batchBytes : Z.

(** One non-blocking send of a frame carrying [n] lines. *)
Definition replaySend (r : replay) (frame : str) (n : Z) : replay :=
  let ok := accept (rp_attempts r) in
  mkReplay (if ok then rp_frames r ++ [frame] else rp_frames r) (S (rp_attempts r))
    (if ok then rp_sent r + n else rp_sent r) (if ok then rp_dropped r else rp_dropped r + n)
    (rp_batch r) (rp_batchN r) (rp_minHeight r) (rp_maxHeight r) (rp_haveHeight r)
    (rp_firstSeq r) (rp_lastSeq r).

Definition set_batch (r : replay) (batch : str) (n : Z) : replay :=
  mkReplay (rp_frames r) (rp_attempts r) (rp_sent r) (rp_dropped r) batch n
    (rp_minHeight r) (rp_maxHeight r) (rp_haveHeight r) (rp_firstSeq r) (rp_lastSeq r).

Definition flushBatch (r : replay) : replay :=
  match rp_batch r with
  | [] => r
  | _ => set_batch (replaySend r (rp_batch r) (rp_batchN r)) [] 0
  end.

Definition addBatched (r : replay) (payload : str) : replay :=
  let r :=
    if (0 <? rp_batchN r) &&
       ((batchLines <=? rp_batchN r) || (batchBytes <? slen (rp_batch r) + slen payload + 1))
    then flushBatch r else r in
  set_batch r (rp_batch r ++ payload ++ [nl]) (rp_batchN r + 1).

(** Join and leave lines go only to the sessions that asked. *)
Definition replay_skips (wantJoins : bool) (stored : option WireMessage) : bool :=
  match stored with
  | Some w => str_eqb (wm_Type w) (lit "system") && negb wantJoins &&
              HasAnyTag (wm_Tags w) [TagJoin; TagLeave]
  | None => false
  end.

(** The window bounds cover the lines that go out. *)
Definition note_bounds (r : replay) (stored : option WireMessage) : replay :=
  match stored with
  | None => r
  | Some w =>
      let h := wm_ChainHeight w in
      let chained := 0 <? h in
      let minH := if chained && (negb (rp_haveHeight r) || (h <? rp_minHeight r)) then h else rp_minHeight r in
      let maxH := if chained && (negb (rp_haveHeight r) || (rp_maxHeight r <? h)) then h else rp_maxHeight r in
      let sq := wm_Seq w in
      mkReplay (rp_frames r) (rp_attempts r) (rp_sent r) (rp_dropped r) (rp_batch r) (rp_batchN r)
        minH maxH (rp_haveHeight r || chained)
        (if (0 <? sq) && (rp_firstSeq r =? 0) then sq else rp_firstSeq r)
        (if 0 <? sq then sq else rp_lastSeq r)
  end.

Definition replay_line (wantJoins : bool) (r : replay) (msgStr : str) : replay :=
  let stored := unmarshal_wire msgStr in
  if replay_skips wantJoins stored then r
  else
    let r := note_bounds r stored in
    match stored with
    | Some w =>
        if str_eqb (wm_Type w) (lit "chat") then addBatched r msgStr
        else addBatched r (CleanHistoryMessage msgStr)
    | None => replaySend (flushBatch r) (CleanHistoryMessage msgStr) 1
    end.

Definition replay0 : replay := mkReplay [] 0 0 0 [] 0 0 0 false 0 0.

(** The frames queued, the final counts, and whether the trailer was queued. *)
Definition sendReplayPage (wantJoins : bool) (lines : list str) (meta : pageMeta) : replay :=
  let r := flushBatch (fold_left (replay_line wantJoins) lines replay0) in
  replaySend r
    (historySyncTrailer (rp_minHeight r) (rp_maxHeight r) (rp_sent r) (Z.of_nat (length lines))
       (rp_dropped r) (rp_firstSeq r) (rp_lastSeq r) meta) 1.

Definition sendReplay (wantJoins : bool) (lines : list str) : replay :=
  sendReplayPage wantJoins lines zeroMeta.

(** * Requests *)

Definition SendChatSegment (level : Z) (c : ChainService) (wantJoins : bool) (before limit : Z) : option replay :=
  if limit <=? 0 then None else Some (sendReplay wantJoins (collectSegment level c before limit)).

(** A cursor above the tip is answered with an empty window. *)
Definition serveHistorySegment (level : Z) (c : ChainService) (wantJoins : bool) (before limit : Z) : option replay :=
  if limit <=? 0 then None
  else if negb (before =? 0) && c_ready c && (c_height c <? before) then Some (sendReplay wantJoins [])
  else Some (sendReplay wantJoins (collectSegment level c before limit)).

Definition serveHistorySeq (c : ChainService) (wantJoins : bool) (afterSeq beforeSeq : option Z) (limit : Z)
    : option replay :=
  if limit <=? 0 then None
  else match afterSeq, beforeSeq with
  | Some a, _ =>
      let '(l, more, next) := collectAfterSeq c a limit in
      Some (sendReplayPage wantJoins l (mkMeta (lit "after") next more))
  | None, Some b =>
      let '(l, more, next) := collectBeforeSeq c b limit in
      Some (sendReplayPage wantJoins l (mkMeta (lit "before") next more))
  | None, None => None
  end.

Definition serveHistoryRanges (maxRanges : Z) (c : ChainService) (wantJoins : bool)
    (ranges : list HeightRange) (limit : Z) : option replay :=
  if (limit <=? 0) || (match ranges with [] => true | _ => false end) then None
  else
    let ranges := if (0 <? maxRanges) && (maxRanges <? Z.of_nat (length ranges))
                  then take (Z.to_nat maxRanges) ranges else ranges in
    Some (sendReplayPage wantJoins (collectRanges c ranges limit) (mkMeta (lit "recover") 0 false)).
End replay.

(** * Theorems *)

(** ** Pages *)

Definition selects (skip : WireMessage -> bool) (l : str) : bool :=
  match unmarshal_wire l with Some w => negb (skip w) | None => false end.

Lemma page_loop_spec skip hist : forall limit lines next,
  Z.of_nat (length lines) <= limit ->
  (forall l, last lines = Some l -> next = line_seq l) ->
  let ms := List.filter (selects skip) hist in
  let room := (Z.to_nat limit - length lines)%nat in
  page_loop skip hist limit lines next =
  if (length ms <=? room)%nat then (lines ++ ms, false, 0)
  else (lines ++ take room ms, true,
        match last (lines ++ take room ms) with Some l => line_seq l | None => next end).
Proof.
  induction hist as [|l hist IH]; intros limit lines next Hlim Hnext; cbn [page_loop List.filter].
  { by rewrite app_nil_r. }
  assert (selects skip l = match unmarshal_wire l with Some w => negb (skip w) | None => false end) as -> by done.
  destruct (unmarshal_wire l) as [w|] eqn:E; [|by apply IH].
  destruct (skip w); cbn [negb]; [by apply IH|]. cbn [length].
  destruct (Z.of_nat (length lines) =? limit) eqn:El.
  - replace (Z.to_nat limit - length lines)%nat with 0%nat by lia. cbn [Nat.leb take]. rewrite app_nil_r.
    destruct (last lines) as [x|] eqn:Ex; [by rewrite (Hnext x)|done].
  - rewrite IH; [|rewrite length_app; simpl; lia|].
    2:{ intros x. rewrite last_snoc. intros [= <-]. unfold line_seq. by rewrite E. }
    rewrite length_app. cbn [length].
    replace (Z.to_nat limit - length lines)%nat with (S (Z.to_nat limit - (length lines + 1)))%nat by lia.
    cbn [Nat.leb take]. rewrite <- !app_assoc. cbn [app].
    destruct (_ <=? _)%nat; [done|]. f_equal. rewrite last_app, last_cons. by destruct (last (take _ _)).
Qed.

(** What one page holds: the first [limit] selected lines, and the last one's
    number when there is more. *)
Definition page_of (ms : list str) (limit : Z) : list str * bool * Z :=
  if (length ms <=? Z.to_nat limit)%nat then (ms, false, 0)
  else (take (Z.to_nat limit) ms, true,
        match last (take (Z.to_nat limit) ms) with Some l => line_seq l | None => 0 end).

Lemma page_loop_page skip hist limit :
  0 < limit -> page_loop skip hist limit [] 0 = page_of (List.filter (selects skip) hist) limit.
Proof.
  intros Hl. rewrite page_loop_spec by (done || (simpl; lia)). unfold page_of. by rewrite Nat.sub_0_r.
Qed.

Definition after (a : Z) (l : str) : bool := a <? line_seq l.
Definition before (b : Z) (l : str) : bool := negb (line_seq l =? 0) && (line_seq l <? b).

Lemma collectAfterSeq_spec c a limit :
  0 <= a -> 0 < limit ->
  collectAfterSeq c a limit = page_of (List.filter (after a) (c_History c)) limit.
Proof.
  intros Ha Hl. unfold collectAfterSeq. replace (limit <=? 0) with false by lia.
  rewrite page_loop_page by done. f_equal. apply filter_ext. intros l.
  unfold selects, after, line_seq. destruct (unmarshal_wire l); lia.
Qed.

Lemma collectBeforeSeq_spec c b limit :
  b <> 0 -> 0 < limit ->
  collectBeforeSeq c b limit = page_of (List.filter (before b) (reverse (c_History c))) limit.
Proof.
  intros Hb Hl. unfold collectBeforeSeq. replace (limit <=? 0) with false by lia.
  replace (b =? 0) with false by lia. cbv zeta.
  rewrite page_loop_page by done. f_equal. apply filter_ext. intros l.
  unfold selects, before, line_seq. destruct (unmarshal_wire l); lia.
Qed.

(** The client's loop: ask again from the returned cursor while there is more. *)
Fixpoint all_pages (fetch : Z -> list str * bool * Z) (fuel : nat) (cursor : Z) : list str :=
  match fuel with
  | O => []
  | S fuel' =>
      let '(l, more, next) := fetch cursor in
      if more then l ++ all_pages fetch fuel' next else l
  end.

(** Following the cursors of [fetch] enumerates [sel cursor], when the cursor of
    a page selects what the page left. *)
Lemma all_pages_complete (fetch : Z -> list str * bool * Z) (sel : Z -> list str) (good : Z -> Prop) limit fuel :
  0 < limit ->
  (forall a, good a -> fetch a = page_of (sel a) limit) ->
  (forall a pre y rest, good a -> sel a = pre ++ y :: rest -> good (line_seq y) /\ sel (line_seq y) = rest) ->
  forall a, good a -> (length (sel a) < fuel)%nat -> all_pages fetch fuel a = sel a.
Proof.
  intros Hl Hf Hnext. induction fuel as [|fuel IH]; intros a Ha Hlen; [lia|]. cbn [all_pages].
  rewrite Hf by done. unfold page_of. destruct (length (sel a) <=? Z.to_nat limit)%nat eqn:E; [done|].
  apply Nat.leb_gt in E.
  assert (exists pre y, take (Z.to_nat limit) (sel a) = pre ++ [y]) as (pre & y & Ep).
  { destruct (take (Z.to_nat limit) (sel a)) as [|x l] eqn:Et using rev_ind; [|by exists l, x].
    apply (f_equal length) in Et. rewrite length_take in Et. simpl in Et. lia. }
  assert (sel a = pre ++ y :: drop (Z.to_nat limit) (sel a)) as Hsel.
  { rewrite <- (take_drop (Z.to_nat limit) (sel a)) at 1. by rewrite Ep, <- app_assoc. }
  rewrite Ep, last_snoc. destruct (Hnext a pre y _ Ha Hsel) as [Hg Hrest].
  rewrite IH; [rewrite Hrest, <- app_assoc; by symmetry|done|].
  rewrite Hrest, length_drop. lia.
Qed.

(** Sequence numbers grow along the lines. *)
Definition seq_sorted (l : list str) : Prop := StronglySorted (fun x y => line_seq x < line_seq y) l.

Lemma filter_none {A} (P : A -> bool) l : (forall x, x ∈ l -> P x = false) -> List.filter P l = [].
Proof.
  intros H. induction l as [|x l IH]; [done|]. cbn [List.filter]. rewrite (H x) by by left.
  apply IH. intros y Hy. apply H. by right.
Qed.

Lemma filter_all {A} (P : A -> bool) l : (forall x, x ∈ l -> P x = true) -> List.filter P l = l.
Proof.
  intros H. induction l as [|x l IH]; [done|]. cbn [List.filter]. rewrite (H x) by by left.
  f_equal. apply IH. intros y Hy. apply H. by right.
Qed.

Lemma filter_absorb {A} (P Q : A -> bool) l :
  (forall x, P x = true -> Q x = true) -> List.filter P (List.filter Q l) = List.filter P l.
Proof.
  intros H. induction l as [|x l IH]; [done|]. cbn [List.filter]. destruct (Q x) eqn:EQ; cbn [List.filter].
  - by rewrite IH.
  - destruct (P x) eqn:EP; [|done]. rewrite (H x EP) in EQ. done.
Qed.

(** A strictly ordered list splits at one of its elements. *)
Lemma filter_split {A} (R : A -> A -> Prop) (P : A -> bool) pre y rest :
  StronglySorted R (pre ++ y :: rest) ->
  (forall x, x ∈ pre -> R x y -> P x = false) -> P y = false ->
  (forall x, x ∈ rest -> R y x -> P x = true) ->
  List.filter P (pre ++ y :: rest) = rest.
Proof.
  intros Hs Hpre Hy Hrest. rewrite List.filter_app. cbn [List.filter]. rewrite Hy.
  rewrite filter_none, filter_all; [done| |].
  - intros x Hx. apply Hrest; [done|]. apply StronglySorted_app_1_r, StronglySorted_inv in Hs as [_ Hs].
    rewrite Forall_forall in Hs. by apply Hs.
  - intros x Hx. apply Hpre; [done|]. eapply StronglySorted_app_1_elem_of; [exact Hs|done|by left].
Qed.

(** Paging forward loses nothing and repeats nothing: following the returned
    cursor from [a] until a page says there is no more yields, page after page,
    exactly the stored lines after [a], in order, whatever the page size. *)
Theorem after_pages_complete c a limit fuel :
  0 <= a -> 0 < limit -> seq_sorted (List.filter (after a) (c_History c)) ->
  (length (List.filter (after a) (c_History c)) < fuel)%nat ->
  all_pages (fun a => collectAfterSeq c a limit) fuel a = List.filter (after a) (c_History c).
Proof.
  intros Ha Hl Hs Hf.
  apply (all_pages_complete _ (fun a => List.filter (after a) (c_History c))
    (fun x => 0 <= x /\ seq_sorted (List.filter (after x) (c_History c))) limit); [done| | |done|done].
  - intros x [Hx _]. by apply collectAfterSeq_spec.
  - intros x pre y rest [Hx Hsx] E.
    assert (after x y = true) as Hy.
    { assert (In y (List.filter (after x) (c_History c))) as Hin by (rewrite E; apply in_elt).
      apply filter_In in Hin. tauto. }
    assert (List.filter (after (line_seq y)) (c_History c) = rest) as Hr.
    { rewrite <- (filter_absorb (after (line_seq y)) (after x)) by (unfold after in *; intros; lia).
      rewrite E in *. apply (filter_split (fun u v => line_seq u < line_seq v)); [done|..]; unfold after; intros; lia. }
    rewrite Hr. split; [|done]. unfold after in Hy. split; [lia|].
    rewrite E in Hsx. apply StronglySorted_app_1_r in Hsx. by apply StronglySorted_inv in Hsx as [? _].
Qed.

(** Paging backward is as exact: from any cursor, the pages are the stored
    lines with a smaller number, newest first, each once. *)
Theorem before_pages_complete c b limit fuel :
  0 < b -> 0 < limit ->
  StronglySorted (fun x y => line_seq y < line_seq x) (List.filter (before b) (reverse (c_History c))) ->
  (forall l, l ∈ c_History c -> 0 <= line_seq l) ->
  (length (List.filter (before b) (reverse (c_History c))) < fuel)%nat ->
  all_pages (fun b => collectBeforeSeq c b limit) fuel b = List.filter (before b) (reverse (c_History c)).
Proof.
  intros Hb Hl Hs Hpos Hf.
  apply (all_pages_complete _ (fun b => List.filter (before b) (reverse (c_History c)))
    (fun x => 0 < x /\ StronglySorted (fun x y => line_seq y < line_seq x)
                          (List.filter (before x) (reverse (c_History c)))) limit); [done| | |done|done].
  - intros x [Hx _]. apply collectBeforeSeq_spec; lia.
  - intros x pre y rest [Hx Hsx] E.
    assert (forall u, In u (List.filter (before x) (reverse (c_History c))) -> before x u = true /\ 0 <= line_seq u) as Hin.
    { intros u Hu. apply filter_In in Hu as [Hu1 Hu2]. split; [done|]. apply Hpos.
      apply list_elem_of_In in Hu1. by rewrite elem_of_reverse in Hu1. }
    destruct (Hin y) as [Hy Hy0]; [rewrite E; apply in_elt|]. unfold before in Hy.
    assert (List.filter (before (line_seq y)) (reverse (c_History c)) = rest) as Hr.
    { rewrite <- (filter_absorb (before (line_seq y)) (before x)) by (unfold before in *; intros; lia).
      rewrite E in *. apply (filter_split (fun u v => line_seq v < line_seq u)); [done|..]; unfold before.
      - intros; lia.
      - lia.
      - intros u Hu Hlt. destruct (Hin u) as [Hu1 _]; [|unfold before in Hu1; lia].
        apply in_or_app. right. right. by apply list_elem_of_In. }
    rewrite Hr. split; [|done]. split; [lia|].
    rewrite E in Hsx. apply StronglySorted_app_1_r in Hsx. by apply StronglySorted_inv in Hsx as [? _].
Qed.

(** ** Ranges *)

Definition wanted (rs : list HeightRange) (l : str) : bool :=
  negb (line_height l =? 0) && existsb (in_range (line_height l)) rs.

Lemma range_loop_spec hist rs maxTo limit : forall out,
  (forall r, r ∈ rs -> hr_To r <= maxTo) -> Z.of_nat (length out) < limit ->
  range_loop hist rs maxTo limit out = take (Z.to_nat limit) (out ++ List.filter (wanted rs) hist).
Proof.
  intros out Hmax. revert out. induction hist as [|l hist IH]; intros out Hlen; cbn [range_loop List.filter].
  { rewrite app_nil_r, take_ge by lia. done. }
  unfold wanted at 1. destruct (line_height l =? 0) eqn:E0; cbn [orb negb andb]; [by apply IH|].
  destruct (existsb (in_range (line_height l)) rs) eqn:Ein; cbn [negb].
  - assert ((maxTo <? line_height l) = false) as ->.
    { apply existsb_exists in Ein as (r & Hr & Hin). unfold in_range in Hin.
      apply list_elem_of_In, Hmax in Hr. lia. }
    destruct (limit <=? Z.of_nat (length (out ++ [l]))) eqn:El.
    + rewrite length_app in El. simpl in El. symmetry.
      rewrite (cons_middle l out (List.filter (wanted rs) hist)), app_assoc.
      apply take_app_length'. rewrite length_app. simpl. lia.
    + rewrite IH by lia. by rewrite <- app_assoc.
  - destruct (maxTo <? line_height l); by apply IH.
Qed.

Lemma elem_of_insert_range r rs x : x ∈ insert_range r rs <-> x = r \/ x ∈ rs.
Proof.
  induction rs as [|y rs IH]; cbn [insert_range]; [rewrite elem_of_cons, elem_of_nil; tauto|].
  destruct (hr_From r <? hr_From y); rewrite !elem_of_cons; [tauto|]. rewrite IH. tauto.
Qed.

Lemma insert_range_last r rs : (forall y, y ∈ rs -> exists x, last rs = Some x /\ hr_From y <= hr_From x) ->
  forall y, y ∈ insert_range r rs -> exists x, last (insert_range r rs) = Some x /\ hr_From y <= hr_From x.
Proof.
  induction rs as [|z rs IH]; intros H y; cbn [insert_range].
  { intros [->|Hy%elem_of_nil]%elem_of_cons; [|done]. exists r. split; [done|lia]. }
  destruct (hr_From r <? hr_From z) eqn:E.
  - assert (last (r :: z :: rs) = last (z :: rs)) as -> by (rewrite last_cons; destruct (last (z :: rs)) eqn:El; [done|by apply last_None in El]).
    intros [->|Hy]%elem_of_cons; [|by apply H]. destruct (H z) as (x & Hx & Hz); [by left|]. exists x. split; [done|lia].
  - assert (forall y, y ∈ rs -> exists x, last rs = Some x /\ hr_From y <= hr_From x) as H'.
    { intros u Hu. destruct (H u) as (x & Hx & Hux); [by right|]. rewrite last_cons in Hx.
      destruct (last rs) as [x'|] eqn:El; [|apply last_None in El; subst; by apply elem_of_nil in Hu].
      injection Hx as <-. by exists x'. }
    assert (exists x, last (insert_range r rs) = Some x /\ hr_From r <= hr_From x) as (x & Hx & Hrx).
    { apply IH; [done|]. apply elem_of_insert_range. by left. }
    rewrite last_cons, Hx. intros [->|Hy]%elem_of_cons.
    + exists x. split; [done|]. destruct (H z) as (w & Hw & Hzw); [by left|]. rewrite last_cons in Hw.
      destruct (last rs) as [w'|] eqn:El.
      * injection Hw as <-. destruct (IH H' w') as (x' & Hx' & Hwx).
        { apply elem_of_insert_range. right. apply last_Some in El as [l ->]. apply elem_of_app. right. by left. }
        rewrite Hx in Hx'. injection Hx' as <-. lia.
      * lia.
    + destruct (IH H' y Hy) as (x' & Hx' & Hyx). rewrite Hx in Hx'. injection Hx' as <-. by exists x.
Qed.

Lemma sort_ranges_acc rs acc :
  (forall y, y ∈ acc -> exists x, last acc = Some x /\ hr_From y <= hr_From x) ->
  let out := fold_left (fun acc r => insert_range r acc) rs acc in
  (forall x, x ∈ out <-> x ∈ acc \/ x ∈ rs) /\
  (forall y, y ∈ out -> exists x, last out = Some x /\ hr_From y <= hr_From x).
Proof.
  revert acc. induction rs as [|r rs IH]; intros acc H; cbn [fold_left].
  { split; [|done]. intros x. rewrite elem_of_nil. tauto. }
  destruct (IH (insert_range r acc)) as [H1 H2]; [by apply insert_range_last|].
  split; [|done]. intros x. rewrite H1, elem_of_insert_range, elem_of_cons. tauto.
Qed.

Lemma sort_ranges_spec rs :
  (forall x, x ∈ sort_ranges rs <-> x ∈ rs) /\
  (forall y, y ∈ sort_ranges rs -> exists x, last (sort_ranges rs) = Some x /\ hr_From y <= hr_From x).
Proof.
  destruct (sort_ranges_acc rs []) as [H1 H2]; [intros y Hy; by apply elem_of_nil in Hy|].
  split; [|exact H2]. intros x. unfold sort_ranges. rewrite H1, elem_of_nil. tauto.
Qed.

(** Without nested ranges nothing in range is missed. *)
Lemma collectRanges_wanted c ranges limit :
  0 < limit ->
  (forall r r', r ∈ ranges -> r' ∈ ranges -> valid_range r = true -> valid_range r' = true ->
     hr_From r <= hr_From r' -> hr_To r <= hr_To r') ->
  collectRanges c ranges limit =
  take (Z.to_nat limit) (List.filter (wanted (List.filter valid_range ranges)) (c_History c)).
Proof.
  intros Hl Hmono. unfold collectRanges. replace (limit <=? 0) with false by lia. cbv zeta.
  destruct (sort_ranges_spec (List.filter valid_range ranges)) as [Hin Hlast].
  set (rs := sort_ranges _) in *.
  assert (forall l, wanted rs l = wanted (List.filter valid_range ranges) l) as Hw.
  { intros l. unfold wanted. f_equal. apply eq_true_iff_eq. rewrite !existsb_exists.
    setoid_rewrite <- list_elem_of_In. by setoid_rewrite Hin. }
  destruct (last rs) as [r|] eqn:E.
  - rewrite range_loop_spec; [|..|done].
    + f_equal. cbn [app]. apply filter_ext. exact Hw.
    + intros x Hx. destruct (Hlast x Hx) as (y & Hy & Hle). injection Hy as <-.
      assert (r ∈ rs) as Hr by (apply last_Some in E as [l E]; rewrite E; apply elem_of_app; right; by left).
      apply Hin, list_elem_of_In, filter_In in Hx as [Hx1 Hx2], Hr as [Hr1 Hr2].
      apply Hmono; try done; by apply list_elem_of_In.
  - apply last_None in E. rewrite <- (filter_ext _ _ Hw), E.
    rewrite filter_none; [by rewrite take_nil|]. intros x _. unfold wanted. simpl. apply andb_false_r.
Qed.

(** A refill returns what was asked for: when no requested range is nested in
    another, the answer is the first [limit] stored chained lines whose height
    lies in one of the valid ranges, oldest first. *)
Theorem collectRanges_spec c ranges limit :
  0 < limit ->
  (forall r r', r ∈ ranges -> r' ∈ ranges -> valid_range r = true -> valid_range r' = true ->
     hr_From r <= hr_From r' -> hr_To r <= hr_To r') ->
  collectRanges c ranges limit =
  take (Z.to_nat limit) (List.filter (wanted (List.filter valid_range ranges)) (c_History c)).
Proof. apply collectRanges_wanted. Qed.

(** With a nested range the lines above the last range's end are missed. *)
Lemma collectRanges_nested_misses :
  exists c, collectRanges c [mkRange 1 9; mkRange 2 3] 10 = [] /\
            List.filter (wanted [mkRange 1 9; mkRange 2 3]) (c_History c) <> [].
Proof.
  exists (mkChain [] 5 true 5 [marshal_wire (set_link sample_chat [] [] 5 2)] 0 None).
  split; vm_compute; [reflexivity|discriminate].
Qed.

Lemma collectRanges_spec_witness :
  let c := mkChain [] 5 true 5 [marshal_wire (set_link sample_chat [] [] 5 2)] 0 None in
  collectRanges c [mkRange 4 6] 10 = take 10 (List.filter (wanted [mkRange 4 6]) (c_History c)).
Proof.
  apply (collectRanges_spec (mkChain [] 5 true 5 [marshal_wire (set_link sample_chat [] [] 5 2)] 0 None) [mkRange 4 6] 10).
  - lia.
  - intros r r' Hr Hr' _ _ _. apply list_elem_of_singleton in Hr as ->. apply list_elem_of_singleton in Hr' as ->. lia.
Defined.

(** ** Replay *)

Section replay_theorems.
Variable accept : nat -> bool.
Variables batchLines batchBytes : Z.
Variable wantJoins : bool.

(** The lines a replay does not filter, and the bytes each stands for. *)
Definition shown (l : str) : bool := negb (replay_skips wantJoins (unmarshal_wire l)).
Definition rendered (l : str) : str :=
  match unmarshal_wire l with
  | Some w => (if str_eqb (wm_Type w) (lit "chat") then l else CleanHistoryMessage l) ++ [nl]
  | None => CleanHistoryMessage l
  end.

(** Every counted line is in a queued frame, in a refused frame or in the
    batch. *)
Record replay_inv (r : replay) (done : list str) : Prop := {
  rv_count : rp_sent r + rp_dropped r + rp_batchN r = Z.of_nat (length (List.filter shown done));
  rv_batch : rp_batchN r = 0 <-> rp_batch r = [];
  rv_pos : 0 <= rp_sent r /\ 0 <= rp_dropped r /\ 0 <= rp_batchN r;
  rv_all : (forall i, accept i = true) ->
    rp_dropped r = 0 /\ concat (rp_frames r) ++ rp_batch r = flat_map rendered (List.filter shown done)
}.

Lemma flush_inv r done : replay_inv r done -> replay_inv (flushBatch accept r) done /\ rp_batch (flushBatch accept r) = [] /\
  rp_batchN (flushBatch accept r) = 0.
Proof.
  intros [H1 H2 H3 H4]. unfold flushBatch. destruct (rp_batch r) as [|x b] eqn:Eb.
  { split; [by split; rewrite ?Eb|]. split; [done|]. by apply H2. }
  split; [|done]. unfold set_batch, replaySend. split; cbn.
  - destruct (accept _); lia.
  - done.
  - destruct (accept _); lia.
  - intros Hall. destruct (H4 Hall) as [H5 H6]. rewrite Hall, H5. split; [done|].
    rewrite concat_app, app_nil_r. cbn [concat]. rewrite app_nil_r. done.
Qed.

Lemma bounds_fields r stored :
  rp_sent (note_bounds r stored) = rp_sent r /\ rp_dropped (note_bounds r stored) = rp_dropped r /\
  rp_batch (note_bounds r stored) = rp_batch r /\ rp_batchN (note_bounds r stored) = rp_batchN r /\
  rp_frames (note_bounds r stored) = rp_frames r.
Proof. by destruct stored. Qed.

Lemma replay_line_inv r done l :
  replay_inv r done -> replay_inv (replay_line accept batchLines batchBytes wantJoins r l) (done ++ [l]).
Proof.
  intros H. unfold replay_line.
  assert (List.filter shown (done ++ [l]) = List.filter shown done ++ (if shown l then [l] else [])) as Hfilter
    by apply List.filter_app.
  destruct (replay_skips wantJoins (unmarshal_wire l)) eqn:Es.
  { assert (shown l = false) as Hs by (unfold shown; by rewrite Es). rewrite Hs, app_nil_r in Hfilter.
    destruct H. by split; rewrite ?Hfilter. }
  assert (shown l = true) as Hs by (unfold shown; by rewrite Es). rewrite Hs in Hfilter.
  assert (forall q stored, replay_inv q done -> replay_inv (note_bounds q stored) done) as Hb.
  { intros q stored [H1 H2 H3 H4]. destruct (bounds_fields q stored) as (B1 & B2 & B3 & B4 & B5).
    split; rewrite ?B1, ?B2, ?B3, ?B4, ?B5; done. }
  specialize (Hb r (unmarshal_wire l) H). set (q := note_bounds r (unmarshal_wire l)) in *.
  assert (forall payload, rendered l = payload ++ [nl] -> replay_inv (addBatched accept batchLines batchBytes q payload) (done ++ [l])) as Hadd.
  { intros payload Hp. unfold addBatched.
    assert (forall b : bool, replay_inv (if b then flushBatch accept q else q) done) as Hq
      by (intros []; [by apply flush_inv|done]).
    match goal with |- context [if ?b then flushBatch accept q else q] =>
      destruct (Hq b) as [H1 H2 H3 H4]; set (q' := if b then flushBatch accept q else q) in * end.
    split; cbn.
    - rewrite Hfilter, length_app. simpl. lia.
    - split; [lia|]. intros E. by apply app_eq_nil in E as [_ E]; apply app_eq_nil in E as [_ E].
    - lia.
    - intros Hall. destruct (H4 Hall) as [H5 H6]. split; [done|].
      rewrite Hfilter, flat_map_app, <- H6, <- app_assoc. cbn [flat_map]. by rewrite app_nil_r, Hp. }
  destruct (unmarshal_wire l) as [w|] eqn:Ew.
  - destruct (str_eqb (wm_Type w) (lit "chat")) eqn:Et; apply Hadd; unfold rendered; by rewrite Ew, Et.
  - destruct (flush_inv q done Hb) as ([H1 H2 H3 H4] & Hb0 & Hn0).
    set (fl := flushBatch accept q) in *. clearbody fl. clear Hadd.
    unfold replaySend. split; cbn.
    + rewrite Hfilter, length_app. simpl. destruct (accept _); lia.
    + rewrite Hb0, Hn0. done.
    + destruct (accept _); lia.
    + intros Hall. destruct (H4 Hall) as [H5 H6]. rewrite Hall, H5, Hb0, app_nil_r in *. split; [done|].
      rewrite concat_app, Hfilter, flat_map_app, <- H6. cbn [concat flat_map]. unfold rendered. by rewrite Ew, !app_nil_r.
Qed.

Lemma replay_fold_inv lines : forall r done,
  replay_inv r done ->
  replay_inv (fold_left (replay_line accept batchLines batchBytes wantJoins) lines r) (done ++ lines).
Proof.
  induction lines as [|l lines IH]; intros r done H; cbn [fold_left]; [by rewrite app_nil_r|].
  specialize (IH _ _ (replay_line_inv r done l H)). by rewrite <- app_assoc in IH.
Qed.

(** The replay accounts for every line and never blocks: in the state the
    trailer reports, the lines sent and dropped add up to the lines not
    filtered; and when the queue has room throughout, nothing is dropped and
    the frames queued before the trailer carry exactly those lines, cleaned,
    in order. *)
Theorem replay_accounts lines meta :
  exists r0 trailer,
    sendReplayPage accept batchLines batchBytes wantJoins lines meta = replaySend accept r0 trailer 1 /\
    trailer = historySyncTrailer (rp_minHeight r0) (rp_maxHeight r0) (rp_sent r0) (Z.of_nat (length lines))
                (rp_dropped r0) (rp_firstSeq r0) (rp_lastSeq r0) meta /\
    rp_sent r0 + rp_dropped r0 = Z.of_nat (length (List.filter shown lines)) /\
    ((forall i, accept i = true) ->
       rp_dropped r0 = 0 /\ concat (rp_frames r0) = flat_map rendered (List.filter shown lines)).
Proof.
  assert (replay_inv replay0 []) as H0 by (split; cbn; try done; lia).
  pose proof (replay_fold_inv lines replay0 [] H0) as H. cbn [app] in H.
  destruct (flush_inv _ _ H) as ([H1 H2 H3 H4] & Hb & Hn).
  set (r0 := flushBatch accept (fold_left (replay_line accept batchLines batchBytes wantJoins) lines replay0)) in *.
  exists r0. eexists. split; [reflexivity|]. split; [done|]. split; [lia|].
  intros Hall. destruct (H4 Hall) as [H5 H6]. by rewrite Hb, app_nil_r in H6.
Qed.
End replay_theorems.

(** ** The height cursor: disk below memory *)

(** The bound of the disk lookup: never above the oldest line in memory. *)
Definition disk_bound (hist : list str) (before : Z) : Z :=
  let oldest := oldestChained hist in
  if negb (oldest =? 0) && (oldest <? before) then oldest else before.

Lemma feed_ring_lines ring fed hist before :
  ring_inv ring fed -> wr_done ring = false ->
  ring_lines (feed_all ring hist before) = lastn (wr_limit ring) (fed ++ before_cutoff before hist).
Proof.
  intros Hr Hd. destruct (feed_all_spec hist before ring fed Hr Hd) as (H1 & _ & H3).
  by rewrite (ring_lines_spec _ _ H1), H3.
Qed.

(** A height page joins disk and memory without a seam: it is the last
    [limit] of the disk lines below everything in memory followed by the memory
    lines before the cursor, for a store reached by any writes and disk faults. *)
Theorem collectSegment_exact level c before limit os0 mb ops :
  Forall (fun op => storable op.2) ops -> heights_grow 0 ops -> before <> 0 -> 0 < level -> 0 < limit ->
  let st := write_all (NewHistoryStore os0 mb (mkDisk None None None)).2 ops in
  c_Store c = Some st ->
  collectSegment level c before limit =
  lastn (Z.to_nat limit)
    (before_cutoff (disk_bound (c_History c) before) (concat (map (gen_lines (s_disk st) level) (s_idx st))) ++
     before_cutoff before (c_History c)).
Proof.
  intros Hs Hg Hb Hl Hlim st Est. unfold collectSegment.
  assert (disk_bound (c_History c) before <> 0) as Hbound.
  { unfold disk_bound. cbv zeta. destruct (negb _ && _) eqn:E; lia. } rewrite Est.
  replace (limit <=? 0) with false by lia. replace (before =? 0) with false by lia. cbv zeta.
  replace (DiskLookupOff <? level) with true by (unfold DiskLookupOff; lia). cbn [negb andb].
  fold (disk_bound (c_History c) before).
  destruct (windowBefore_ring os0 mb ops (disk_bound (c_History c) before) level limit Hs Hg Hbound)
    as (fed & Hr & Hd & Hlim' & E).
  fold st in Hr, Hd, Hlim', E. rewrite Hd, (feed_ring_lines _ _ _ _ Hr Hd), Hlim'.
  by rewrite <- lastn_app_lastn_l, E, lastn_app_lastn_l.
Qed.

(** ** Witnesses *)

Definition numbered (seq : Z) : str :=
  marshal_wire (set_Seq sample_chat seq).
Definition sample_service (st : option HistoryStore) : ChainService :=
  mkChain [] 5 true 5 [numbered 1; numbered 2; numbered 3] 0 st.

Lemma numbered_seq : line_seq (numbered 1) = 1 /\ line_seq (numbered 2) = 2 /\ line_seq (numbered 3) = 3.
Proof. repeat split; vm_compute; reflexivity. Qed.

Lemma after_pages_complete_witness :
  all_pages (fun a => collectAfterSeq (sample_service None) a 1) 5 1 =
  List.filter (after 1) (c_History (sample_service None)).
Proof.
  destruct numbered_seq as (E1 & E2 & E3).
  assert (List.filter (after 1) (c_History (sample_service None)) = [numbered 2; numbered 3]) as E
    by (vm_compute; reflexivity).
  apply (after_pages_complete (sample_service None) 1 1 5); [lia|lia|rewrite E..].
  - repeat constructor; lia.
  - simpl. lia.
Defined.

Lemma before_pages_complete_witness :
  all_pages (fun b => collectBeforeSeq (sample_service None) b 1) 5 3 =
  List.filter (before 3) (reverse (c_History (sample_service None))).
Proof.
  destruct numbered_seq as (E1 & E2 & E3).
  assert (List.filter (before 3) (reverse (c_History (sample_service None))) = [numbered 2; numbered 1]) as E
    by (vm_compute; reflexivity).
  apply (before_pages_complete (sample_service None) 3 1 5); [lia|lia|..].
  - rewrite E. repeat constructor; lia.
  - cbn [sample_service c_History]. repeat setoid_rewrite elem_of_cons. setoid_rewrite elem_of_nil.
    intros l [->|[->|[->|[]]]]; lia.
  - rewrite E. simpl. lia.
Defined.

Lemma collectSegment_exact_witness :
  let ops := [(good_os, sample_rec 1); (good_os, sample_rec 2); (mkOS true true true true true false, sample_rec 3)] in
  let st := write_all (NewHistoryStore good_os 1 (mkDisk None None None)).2 ops in
  let c := sample_service (Some st) in
  collectSegment 3 c 2 5 =
  lastn 5 (before_cutoff (disk_bound (c_History c) 2) (concat (map (gen_lines (s_disk st) 3) (s_idx st))) ++
           before_cutoff 2 (c_History c)).
Proof.
  cbv zeta.
  set (ops := [(good_os, sample_rec 1); (good_os, sample_rec 2); (mkOS true true true true true false, sample_rec 3)]).
  apply (collectSegment_exact 3 (sample_service (Some (write_all (NewHistoryStore good_os 1 (mkDisk None None None)).2 ops)))
           2 5 good_os 1 ops).
  - repeat constructor; apply sample_storable; lia.
  - cbn. unfold record_height. cbn. lia.
  - lia.
  - lia.
  - lia.
  - reflexivity.
Defined.
