(* ===== verification/Votes.v ===== *)
(** Message votes ([server/history.go]: [voteDedupKey], [applyVote],
    [rebuildVoteScores]): the cumulative totals by chain height, the duplicate
    memory of one address and height, and the totals rebuilt from stored lines.
    The two maps are guarded by [VoteMu]; the clock is an argument. *)

From S2P Require Import Prelude Bytes Utf8 Wire Json Window ChainService.
Local Open Scope Z_scope.

(** * State *)

Record VoteScore := mkScore { vs_Upvotes : Z; vs_Downvotes : Z }.

Record voteDedupEntry := mkDedup { vd_Direction : Z; vd_At : time }.

Definition voteDedupTTL : duration := 24 * Hour.

Record VoteState := mkVotes {
  VoteScores : gmap Z VoteScore;
  VoteDedup : gmap str voteDedupEntry
}.

Definition zeroScore : VoteScore := mkScore 0 0.

(** [strconv.FormatUint] after a bar. *)
Definition voteDedupKey (ip : str) (target : Z) : str := ip ++ "|"%char :: utoa target.

(** [int8(direction)]. *)
Definition i8 (z : Z) : Z := (z + 128) mod 256 - 128.

(** * Voting *)

(** The entry at [target], created when absent (the map holds pointers, so the
    updates below are stored back). *)
Definition score_at (scores : gmap Z VoteScore) (target : Z) : VoteScore :=
  default zeroScore (scores !! target).

Definition dec (v : Z) : Z := if 0 <? v then v - 1 else v.

Definition dec_up (t : VoteScore) : VoteScore := mkScore (dec (vs_Upvotes t)) (vs_Downvotes t).
Definition dec_down (t : VoteScore) : VoteScore := mkScore (vs_Upvotes t) (dec (vs_Downvotes t)).
Definition inc_up (t : VoteScore) : VoteScore := mkScore (i64 (vs_Upvotes t + 1)) (vs_Downvotes t).
Definition inc_down (t : VoteScore) : VoteScore := mkScore (vs_Upvotes t) (i64 (vs_Downvotes t + 1)).

(** The expired entries of an oversized memory are dropped. *)
Definition sweep_dedup (m : gmap str voteDedupEntry) (now : time) : gmap str voteDedupEntry :=
  if 10000 <? Z.of_nat (size m)
  then filter (fun kv => (voteDedupTTL <? Sub now (vd_At kv.2)) = false) m
  else m.

Record vote_result := mkVoteResult { vr_up : Z; vr_down : Z; vr_dup : bool; vr_changed : bool }.

Definition result_of (t : VoteScore) (dup changed : bool) : vote_result :=
  mkVoteResult (vs_Upvotes t) (vs_Downvotes t) dup changed.

(** A vote that differs from the one held. *)
Definition switch_vote (tot : VoteScore) (direction prev : Z) : VoteScore :=
  if (direction =? DirWithdraw) && (prev =? DirUpvote) then dec_up tot
  else if (direction =? DirWithdraw) && (prev =? DirDownvote) then dec_down tot
  else if (direction =? DirUpvote) && (prev =? DirDownvote) then inc_up (dec_down tot)
  else if (direction =? DirDownvote) && (prev =? DirUpvote) then inc_down (dec_up tot)
  else if direction =? DirUpvote then inc_up tot
  else if direction =? DirDownvote then inc_down tot
  else tot.

Definition applyVote (st : VoteState) (now : time) (ip : str) (target direction : Z) : vote_result * VoteState :=
  let dedup := sweep_dedup (VoteDedup st) now in
  let key := voteDedupKey ip target in
  let held :=
    match dedup !! key with
    | Some prev => if voteDedupTTL <? Sub now (vd_At prev) then None else Some (vd_Direction prev)
    | None => None
    end in
  let tot := score_at (VoteScores st) target in
  let store tot := <[target := tot]> (VoteScores st) in
  let remember d := <[key := mkDedup d now]> dedup in
  match held with
  | Some prev =>
      if prev =? i8 direction then
        if direction =? DirWithdraw then (result_of tot true false, mkVotes (store tot) dedup)
        else
          let tot := if direction =? DirUpvote then dec_up tot else dec_down tot in
          (result_of tot false true, mkVotes (store tot) (remember DirWithdraw))
      else
        let tot := switch_vote tot direction prev in
        (result_of tot false true, mkVotes (store tot) (remember (i8 direction)))
  | None =>
      if direction =? DirUpvote then
        let tot := inc_up tot in (result_of tot false true, mkVotes (store tot) (remember (i8 direction)))
      else if direction =? DirDownvote then
        let tot := inc_down tot in (result_of tot false true, mkVotes (store tot) (remember (i8 direction)))
      else (result_of tot false false, mkVotes (store tot) dedup)
  end.

(** * Totals from stored lines *)

Definition rebuild_line (scores : gmap Z VoteScore) (msgStr : str) : gmap Z VoteScore :=
  match unmarshal_wire msgStr with
  | None => scores
  | Some stored =>
      if negb (str_eqb (wm_Type stored) (lit "system")) || (wm_VoteTarget stored =? 0) then scores
      else if negb (HasTag (wm_Tags stored) TagVote) then scores
      else <[wm_VoteTarget stored := mkScore (wm_VoteUpvotes stored) (wm_VoteDownvotes stored)]> scores
  end.

Definition rebuildVoteScores (st : VoteState) (History : list str) : VoteState :=
  mkVotes (fold_left rebuild_line History ∅) (VoteDedup st).

(** * Specification: a ledger of ballots

    One ballot per address and message, with its direction and time.  An
    address presses a direction: the same one again takes the vote back, the
    other one moves it.  A ballot older than the memory stands for good: it is
    carried into the message's base when the address votes again. *)

Record ledger := mkLedger {
  carry : gmap Z VoteScore;
  ballots : gmap (str * Z) voteDedupEntry
}.

Definition live (now : time) (b : voteDedupEntry) : bool := negb (voteDedupTTL <? Sub now (vd_At b)).

Definition cast (t : VoteScore) (d : Z) : VoteScore :=
  if d =? DirUpvote then mkScore (vs_Upvotes t + 1) (vs_Downvotes t)
  else if d =? DirDownvote then mkScore (vs_Upvotes t) (vs_Downvotes t + 1)
  else t.

(** The number of ballots of one message and direction. *)
Definition tally (m : gmap (str * Z) voteDedupEntry) (target d : Z) : Z :=
  Z.of_nat (size (filter (fun kv => kv.1.2 = target /\ vd_Direction kv.2 = d) m)).

Definition totals (l : ledger) (target : Z) : VoteScore :=
  mkScore (vs_Upvotes (score_at (carry l) target) + tally (ballots l) target DirUpvote)
          (vs_Downvotes (score_at (carry l) target) + tally (ballots l) target DirDownvote).

(** One press; the flags the caller sees. *)
Definition press (l : ledger) (now : time) (ip : str) (target d : Z) : bool * bool * ledger :=
  match ballots l !! (ip, target) with
  | Some b =>
      if live now b then
        if vd_Direction b =? d then
          if d =? DirWithdraw then (true, false, l)
          else (false, true, mkLedger (carry l) (<[(ip, target) := mkDedup DirWithdraw now]> (ballots l)))
        else (false, true, mkLedger (carry l) (<[(ip, target) := mkDedup d now]> (ballots l)))
      else if d =? DirWithdraw then (false, false, l)
      else (false, true,
            mkLedger (<[target := cast (score_at (carry l) target) (vd_Direction b)]> (carry l))
                     (<[(ip, target) := mkDedup d now]> (ballots l)))
  | None =>
      if d =? DirWithdraw then (false, false, l)
      else (false, true, mkLedger (carry l) (<[(ip, target) := mkDedup d now]> (ballots l)))
  end.

Record vote := mkVote { v_at : time; v_ip : str; v_target : Z; v_dir : Z }.

Fixpoint run_votes (st : VoteState) (vs : list vote) : list vote_result * VoteState :=
  match vs with
  | [] => ([], st)
  | v :: vs' =>
      let '(r, st1) := applyVote st (v_at v) (v_ip v) (v_target v) (v_dir v) in
      let '(rs, st2) := run_votes st1 vs' in (r :: rs, st2)
  end.

Fixpoint run_ledger (l : ledger) (vs : list vote) : list vote_result * ledger :=
  match vs with
  | [] => ([], l)
  | v :: vs' =>
      let '(dup, changed, l1) := press l (v_at v) (v_ip v) (v_target v) (v_dir v) in
      let '(rs, l2) := run_ledger l1 vs' in
      (result_of (totals l1 (v_target v)) dup changed :: rs, l2)
  end.

(** The clock does not go back. *)
Fixpoint in_order (t : time) (vs : list vote) : Prop :=
  match vs with [] => True | v :: vs' => t <= v_at v /\ in_order (v_at v) vs' end.

Definition valid_vote (v : vote) : Prop :=
  0 <= v_target v /\ (v_dir v = DirUpvote \/ v_dir v = DirDownvote \/ v_dir v = DirWithdraw).

Definition scores_within (m : gmap Z VoteScore) (n : Z) : Prop :=
  forall t, 0 <= vs_Upvotes (score_at m t) <= n /\ 0 <= vs_Downvotes (score_at m t) <= n.

(** * Theorems *)

Lemma voteDedupKey_inj ip t ip' t' :
  0 <= t -> 0 <= t' -> voteDedupKey ip t = voteDedupKey ip' t' -> ip = ip' /\ t = t'.
Proof.
  intros Ht Ht' H. unfold voteDedupKey in H.
  assert (forall n, 0 <= n -> "|"%char ∉ reverse (utoa n)) as Hno.
  { intros n Hn Hin. rewrite elem_of_reverse in Hin. pose proof (utoa_digits n Hn) as F.
    rewrite Forall_forall in F. apply F in Hin. by vm_compute in Hin. }
  apply (f_equal reverse) in H. rewrite !reverse_app, !reverse_cons, <- !app_assoc in H. cbn [app] in H.
  apply sep_inj in H as [H1 H2]; [|by apply Hno..].
  apply (inj reverse) in H1, H2. apply utoa_inj in H1; done.
Qed.

(** ** Counting *)

Lemma tally_delete m k target d :
  tally m target d = tally (delete k m) target d +
    match m !! k with Some b => if decide (k.2 = target /\ vd_Direction b = d) then 1 else 0 | None => 0 end.
Proof.
  unfold tally. rewrite map_filter_delete. set (F := filter _ m).
  rewrite map_size_delete. destruct (m !! k) as [b|] eqn:E.
  - destruct (decide (k.2 = target /\ vd_Direction b = d)) as [HP|HP].
    + assert (F !! k = Some b) as HF by by apply map_lookup_filter_Some. rewrite HF.
      assert (size F <> 0%nat) by (apply map_size_ne_0_lookup; eauto). lia.
    + assert (F !! k = None) as HF.
      { apply map_lookup_filter_None. right. intros x Hx. rewrite E in Hx. by injection Hx as <-. }
      rewrite HF. unfold id. lia.
  - assert (F !! k = None) as HF by (apply map_lookup_filter_None; by left). rewrite HF. unfold id. lia.
Qed.

(** What one ballot adds to a tally. *)
Definition counts (k : str * Z) (b : option voteDedupEntry) (target d : Z) : Z :=
  match b with
  | Some b => if (k.2 =? target) && (vd_Direction b =? d) then 1 else 0
  | None => 0
  end.

Lemma tally_insert m k b target d :
  tally (<[k := b]> m) target d = tally m target d - counts k (m !! k) target d + counts k (Some b) target d.
Proof.
  rewrite (tally_delete (<[k := b]> m) k), (tally_delete m k), lookup_insert_eq, delete_insert_eq.
  unfold counts. destruct (m !! k); repeat destruct (decide _); bool_lia; repeat step_if; bool_lia.
Qed.

Lemma tally_nonneg m target d : 0 <= tally m target d.
Proof. unfold tally. lia. Qed.

Lemma tally_counts m k target d : counts k (m !! k) target d <= tally m target d.
Proof.
  rewrite (tally_delete m k). pose proof (tally_nonneg (delete k m) target d).
  unfold counts. destruct (m !! k); [|lia]. destruct (decide _); step_if; bool_lia.
Qed.

Lemma score_at_insert m t x t' : score_at (<[t := x]> m) t' = if t =? t' then x else score_at m t'.
Proof.
  unfold score_at. destruct (t =? t') eqn:E.
  - apply Z.eqb_eq in E as ->. by rewrite lookup_insert_eq.
  - rewrite lookup_insert_ne by lia. done.
Qed.

(** ** The totals are the ledger's *)

Definition direction_ok (d : Z) : Prop := d = DirUpvote \/ d = DirDownvote \/ d = DirWithdraw.

Record sim (M : Z) (t0 : time) (l : ledger) (st : VoteState) : Prop := {
  sm_dedup : forall ip t, 0 <= t ->
    match VoteDedup st !! voteDedupKey ip t with
    | Some e => ballots l !! (ip, t) = Some e
    | None => match ballots l !! (ip, t) with Some b => live t0 b = false | None => True end
    end;
  sm_scores : forall t, score_at (VoteScores st) t = totals l t;
  sm_carry : forall t, 0 <= vs_Upvotes (score_at (carry l) t) /\ 0 <= vs_Downvotes (score_at (carry l) t);
  sm_max : forall t, vs_Upvotes (totals l t) <= M /\ vs_Downvotes (totals l t) <= M;
  sm_dir : forall k b, ballots l !! k = Some b -> direction_ok (vd_Direction b)
}.

Lemma live_mono t0 now b : t0 <= now -> live t0 b = false -> live now b = false.
Proof. unfold live, Sub, min_duration, max_duration. lia. Qed.

(** Sweeping forgets only what no longer counts. *)
Lemma sim_sweep M t0 now l st :
  t0 <= now -> sim M t0 l st -> sim M now l (mkVotes (VoteScores st) (sweep_dedup (VoteDedup st) now)).
Proof.
  intros Hle [H1 H2 H3 H4 H5]. split; cbn [VoteScores VoteDedup]; try done.
  intros ip t Ht. specialize (H1 ip t Ht).
  assert (match VoteDedup st !! voteDedupKey ip t with
          | Some e => ballots l !! (ip, t) = Some e
          | None => match ballots l !! (ip, t) with Some b => live now b = false | None => True end
          end) as H1'.
  { destruct (VoteDedup st !! _); [done|]. destruct (ballots l !! _); [|done]. by eapply live_mono. }
  unfold sweep_dedup. destruct (_ <? _); [|done].
  destruct (VoteDedup st !! voteDedupKey ip t) as [e|] eqn:E.
  - destruct (voteDedupTTL <? Sub now (vd_At e)) eqn:Ex.
    + assert (filter (fun kv => (voteDedupTTL <? Sub now (vd_At kv.2)) = false) (VoteDedup st) !! voteDedupKey ip t = None) as ->.
      { apply map_lookup_filter_None. right. intros x Hx. rewrite E in Hx. injection Hx as <-. cbn. by rewrite Ex. }
      rewrite H1'. unfold live. by rewrite Ex.
    + assert (filter (fun kv => (voteDedupTTL <? Sub now (vd_At kv.2)) = false) (VoteDedup st) !! voteDedupKey ip t = Some e) as ->
        by by apply map_lookup_filter_Some.
      done.
  - assert (filter (fun kv => (voteDedupTTL <? Sub now (vd_At kv.2)) = false) (VoteDedup st) !! voteDedupKey ip t = None) as ->
      by (apply map_lookup_filter_None; by left).
    done.
Qed.

(** Storing a ballot on both sides. *)
Lemma sim_cast M t0 l st ip target d X carry' :
  0 <= target -> direction_ok d -> sim M t0 l st ->
  let l' := mkLedger carry' (<[(ip, target) := mkDedup d t0]> (ballots l)) in
  (forall t, t <> target -> score_at carry' t = score_at (carry l) t) ->
  (0 <= vs_Upvotes (score_at carry' target) /\ 0 <= vs_Downvotes (score_at carry' target)) ->
  X = totals l' target -> vs_Upvotes X <= M + 1 -> vs_Downvotes X <= M + 1 ->
  sim (M + 1) t0 l'
    (mkVotes (<[target := X]> (VoteScores st))
       (<[voteDedupKey ip target := mkDedup d t0]> (VoteDedup st))).
Proof.
  intros Htarget Hd [H1 H2 H3 H4 H5] l' Hc Hc0 HX HU HD.
  assert (forall t, t <> target -> totals l' t = totals l t) as Hother.
  { intros t Ht. unfold totals, l'. cbn [carry ballots]. rewrite !tally_insert, Hc by done.
    unfold counts. cbn [snd]. replace (target =? t) with false by lia. cbn [andb].
    destruct (ballots l !! _); f_equal; lia. }
  split; cbn [VoteScores VoteDedup].
  - intros ip' t' Ht'. unfold l'. cbn [ballots]. destruct (decide ((ip', t') = (ip, target))) as [E|E].
    + injection E as -> ->. by rewrite !lookup_insert_eq.
    + rewrite lookup_insert_ne by (intros K; apply voteDedupKey_inj in K as [-> ->]; done).
      rewrite lookup_insert_ne by done. by apply H1.
  - intros t. rewrite score_at_insert. destruct (target =? t) eqn:E; [|rewrite Hother by lia; apply H2].
    by apply Z.eqb_eq in E as <-.
  - intros t. destruct (decide (t = target)) as [->|E]; [done|]. unfold l'. cbn [carry]. by rewrite Hc.
  - intros t. destruct (decide (t = target)) as [->|E]; [by rewrite <- HX|]. rewrite Hother by done.
    specialize (H4 t). lia.
  - intros k b. unfold l'. cbn [ballots]. intros [[_ <-]|[_ Hk]]%lookup_insert_Some; [done|by eapply H5].
Qed.

(** Storing an unchanged total changes nothing. *)
Lemma sim_touch M t0 l st target :
  sim M t0 l st -> sim (M + 1) t0 l (mkVotes (<[target := score_at (VoteScores st) target]> (VoteScores st)) (VoteDedup st)).
Proof.
  intros [H1 H2 H3 H4 H5]. split; cbn [VoteScores VoteDedup]; try done.
  - intros t. rewrite score_at_insert. destruct (target =? t) eqn:E; [apply Z.eqb_eq in E as <-|]; apply H2.
  - intros t. specialize (H4 t). lia.
Qed.

(** The arithmetic of one case, once the directions are concrete. *)
Ltac vote_arith :=
  unfold cast, switch_vote, inc_up, inc_down, dec_up, dec_down, dec, DirUpvote, DirDownvote, DirWithdraw in *;
  cbn -[score_at tally i64 Z.add Z.sub Z.ltb Z.pow] in *;
  repeat match goal with
  | |- context [if 0 <? ?x then _ else _] => destruct (Z.ltb_spec 0 x)
  end;
  cbn [vs_Upvotes vs_Downvotes]; rewrite ?i64_small by (unfold is_i64; lia); try f_equal; try lia.

Lemma i8_direction d : direction_ok d -> i8 d = d.
Proof. by intros [->| [->| ->]]. Qed.

(** One press on both sides. *)
Lemma press_sim M t0 now l st ip target d :
  t0 <= now -> 0 <= target -> direction_ok d -> M + 1 < 2 ^ 63 -> sim M t0 l st ->
  let '(r, st') := applyVote st now ip target d in
  let '(dup, changed, l') := press l now ip target d in
  r = result_of (totals l' target) dup changed /\ sim (M + 1) now l' st'.
Proof.
  intros Hle Ht Hd HM Hs0. pose proof (sim_sweep M t0 now l st Hle Hs0) as Hs.
  unfold applyVote, press. rewrite (i8_direction d Hd).
  set (dedup := sweep_dedup (VoteDedup st) now) in *.
  pose proof (sm_dedup _ _ _ _ Hs ip target Ht) as Hkey. cbn [VoteDedup] in Hkey.
  pose proof (sm_scores _ _ _ _ Hs target) as Hsc. cbn [VoteScores] in Hsc.
  pose proof (sm_carry _ _ _ _ Hs target) as Hc. pose proof (sm_max _ _ _ _ Hs target) as Hmax.
  pose proof (tally_counts (ballots l) (ip, target) target DirUpvote) as Tu.
  pose proof (tally_counts (ballots l) (ip, target) target DirDownvote) as Td.
  pose proof (tally_nonneg (ballots l) target DirUpvote) as Nu.
  pose proof (tally_nonneg (ballots l) target DirDownvote) as Nd.
  pose proof (sim_touch _ _ _ _ target Hs) as Htouch. cbn [VoteScores VoteDedup] in Htouch.
  pose proof (sim_cast M now l (mkVotes (VoteScores st) dedup) ip target) as Hcast. cbn [VoteScores VoteDedup] in Hcast.
  assert (forall b, (if voteDedupTTL <? Sub now (vd_At b) then None else Some (vd_Direction b)) =
                    if live now b then Some (vd_Direction b) else None) as Hlive
    by (intros b; unfold live; by destruct (_ <? _)).
  assert (match dedup !! voteDedupKey ip target with
          | Some prev => if voteDedupTTL <? Sub now (vd_At prev) then None else Some (vd_Direction prev)
          | None => None end =
          match ballots l !! (ip, target) with
          | Some b => if live now b then Some (vd_Direction b) else None | None => None end) as ->.
  { destruct (dedup !! _) as [e|]; [by rewrite Hkey, Hlive|].
    destruct (ballots l !! _) as [b|]; [by rewrite Hkey|done]. }
  rewrite Hsc in *. clear Hsc Hkey.
  assert (forall X carry' d' dup changed,
    let l' := mkLedger carry' (<[(ip, target) := mkDedup d' now]> (ballots l)) in
    direction_ok d' -> X = totals l' target -> vs_Upvotes X <= M + 1 -> vs_Downvotes X <= M + 1 ->
    (forall t, t <> target -> score_at carry' t = score_at (carry l) t) ->
    (0 <= vs_Upvotes (score_at carry' target) /\ 0 <= vs_Downvotes (score_at carry' target)) ->
    result_of X dup changed = result_of (totals l' target) dup changed /\
    sim (M + 1) now l' (mkVotes (<[target := X]> (VoteScores st))
                          (<[voteDedupKey ip target := mkDedup d' now]> dedup))) as Hdone.
  { intros X carry' d' dup changed l' Hd' HX Hu Hw Hc1 Hc2. split; [by rewrite HX|].
    apply (Hcast d' X carry'); done. }
  clear Hcast. unfold totals in *. cbn [vs_Upvotes vs_Downvotes] in *. unfold counts in Tu, Td. cbn [snd] in Tu, Td.
  assert (forall X d' carry', X = totals (mkLedger carry' (<[(ip, target) := mkDedup d' now]> (ballots l))) target <->
    X = mkScore (vs_Upvotes (score_at carry' target) + (tally (ballots l) target DirUpvote -
                   counts (ip, target) (ballots l !! (ip, target)) target DirUpvote + (if d' =? DirUpvote then 1 else 0)))
                (vs_Downvotes (score_at carry' target) + (tally (ballots l) target DirDownvote -
                   counts (ip, target) (ballots l !! (ip, target)) target DirDownvote + (if d' =? DirDownvote then 1 else 0)))) as HT.
  { intros X d' carry'. unfold totals. cbn [carry ballots]. rewrite !tally_insert. unfold counts at 2 4. cbn [snd vd_Direction].
    by rewrite Z.eqb_refl. }
  unfold counts in HT. cbn [snd] in HT. rewrite Z.eqb_refl in *. cbn [andb] in *.
  clear Hlive.
  destruct (ballots l !! (ip, target)) as [b|] eqn:Eb; [pose proof (sm_dir _ _ _ _ Hs _ _ Eb) as Hb; destruct (live now b) eqn:El|].
  - destruct (vd_Direction b =? d) eqn:Ed.
    + destruct (d =? DirWithdraw) eqn:Ew; [done|]. apply Z.eqb_eq in Ed. rewrite Ed in *. clear Hb.
      apply Hdone; [by right; right|apply HT|..]; try done; clear HT Hdone Htouch Hs Hs0;
        destruct Hd as [->|[->| ->]]; vote_arith.
    + apply Hdone; [done|apply HT|..]; try done; clear HT Hdone Htouch Hs Hs0;
        destruct Hd as [->|[->| ->]]; destruct Hb as [Hb|[Hb|Hb]]; rewrite Hb in *; vote_arith.
  - destruct (d =? DirWithdraw) eqn:Ew; [by destruct Hd as [->|[->| ->]]|].
    assert (forall t, t <> target -> score_at (<[target := cast (score_at (carry l) target) (vd_Direction b)]> (carry l)) t = score_at (carry l) t) as Hne
      by (intros t Hne; rewrite score_at_insert; by replace (target =? t) with false by lia).
    destruct Hd as [->|[->| ->]]; [| |done]; cbn [Z.eqb Z.compare DirUpvote DirDownvote Pos.eqb];
      (apply Hdone; [unfold direction_ok; tauto|apply HT| | |exact Hne|]);
      rewrite ?score_at_insert, ?Z.eqb_refl; clear HT Hdone Htouch Hs Hs0 Hne;
      destruct Hb as [Hb|[Hb|Hb]]; rewrite Hb in *; vote_arith.
  - destruct (d =? DirWithdraw) eqn:Ew; [by destruct Hd as [->|[->| ->]]|].
    destruct Hd as [->|[->| ->]]; [| |done]; cbn [Z.eqb Z.compare DirUpvote DirDownvote Pos.eqb];
      (apply Hdone; [unfold direction_ok; tauto|apply HT| | |done|]); clear HT Hdone Htouch Hs Hs0; vote_arith.
Qed.

Lemma run_sim vs : forall M t0 l st,
  in_order t0 vs -> Forall valid_vote vs -> M + Z.of_nat (length vs) < 2 ^ 63 -> sim M t0 l st ->
  (run_votes st vs).1 = (run_ledger l vs).1 /\
  exists M' t1, sim M' t1 (run_ledger l vs).2 (run_votes st vs).2.
Proof.
  induction vs as [|v vs IH]; intros M t0 l st Ho Hv HM Hs; [split; [done|by exists M, t0]|].
  destruct Ho as [Hle Ho]. apply Forall_cons in Hv as [[Ht Hd] Hv]. cbn [run_votes run_ledger length] in *.
  pose proof (press_sim M t0 (v_at v) l st (v_ip v) (v_target v) (v_dir v) Hle Ht Hd ltac:(lia) Hs) as H.
  destruct (applyVote _ _ _ _ _) as [r st1]. destruct (press _ _ _ _ _) as [[dup changed] l1].
  destruct H as [Hr H1]. destruct (IH (M + 1) (v_at v) l1 st1 Ho Hv ltac:(lia) H1) as [E Hex].
  destruct (run_votes st1 vs) as [rs st2], (run_ledger l1 vs) as [rs' l2]. cbn [fst snd] in *.
  by rewrite Hr, E.
Qed.

Lemma sim_start scores M t0 :
  scores_within scores M -> sim M t0 (mkLedger scores ∅) (mkVotes scores ∅).
Proof.
  intros Hw.
  assert (forall t d, tally ∅ t d = 0) as H0 by (intros; unfold tally; by rewrite map_filter_empty, map_size_empty).
  split; cbn [VoteScores VoteDedup carry ballots].
  - intros ip t _. by rewrite !lookup_empty.
  - intros t. unfold totals. cbn [carry ballots]. rewrite !H0, !Z.add_0_r. by destruct (score_at scores t).
  - intros t. specialize (Hw t). lia.
  - intros t. unfold totals. cbn [carry ballots vs_Upvotes vs_Downvotes]. rewrite !H0. specialize (Hw t). lia.
  - intros k b. by rewrite lookup_empty.
Qed.

(** Vote totals are exact: from the totals rebuilt at boot, for any sequence
    of votes in clock order, every answer (totals, duplicate and changed flags)
    and every total is that of the ledger in which each address holds one ballot
    per message, pressing the held direction takes it back, another one moves
    it, and a ballot past the memory stands; sweeping the memory loses nothing. *)
Theorem votes_follow_ledger scores M t0 vs :
  scores_within scores M -> in_order t0 vs -> Forall valid_vote vs -> M + Z.of_nat (length vs) < 2 ^ 63 ->
  (run_votes (mkVotes scores ∅) vs).1 = (run_ledger (mkLedger scores ∅) vs).1 /\
  forall t, score_at (VoteScores (run_votes (mkVotes scores ∅) vs).2) t =
            totals (run_ledger (mkLedger scores ∅) vs).2 t.
Proof.
  intros Hw Ho Hv HM. destruct (run_sim vs M t0 _ _ Ho Hv HM (sim_start scores M t0 Hw)) as [H1 (M' & t1 & H2)].
  split; [done|]. apply H2.
Qed.

Lemma votes_follow_ledger_witness :
  let vs := [mkVote 5 (lit "a") 7 1; mkVote 6 (lit "b") 7 (-1); mkVote 9 (lit "a") 7 (-1); mkVote 10 (lit "b") 7 (-1)] in
  (run_votes (mkVotes ∅ ∅) vs).1 = (run_ledger (mkLedger ∅ ∅) vs).1.
Proof.
  apply (votes_follow_ledger ∅ 0 0
    [mkVote 5 (lit "a") 7 1; mkVote 6 (lit "b") 7 (-1); mkVote 9 (lit "a") 7 (-1); mkVote 10 (lit "b") 7 (-1)]).
  - intros t. unfold score_at. rewrite lookup_empty. simpl. lia.
  - cbn. lia.
  - repeat constructor; cbn; unfold DirUpvote, DirDownvote; lia.
  - simpl. lia.
Defined.

(** The answers of that run: up, moved to down, taken back. *)
Example votes_sample :
  (run_votes (mkVotes ∅ ∅)
     [mkVote 5 (lit "a") 7 1; mkVote 6 (lit "b") 7 (-1); mkVote 9 (lit "a") 7 (-1); mkVote 10 (lit "b") 7 (-1)]).1 =
  [mkVoteResult 1 0 false true; mkVoteResult 1 1 false true; mkVoteResult 0 2 false true; mkVoteResult 0 1 false true].
Proof. vm_compute. reflexivity. Qed.

(** ** Totals survive a restart *)

Lemma encode_ascii s : forallb is_ascii s = true -> encode (map byte_val s) = s.
Proof.
  induction s as [|c s IH]; [done|]. cbn [forallb map]. intros [H1 H2]%andb_true_iff.
  unfold encode in *. cbn [flat_map]. rewrite IH by done. unfold is_ascii in H1. pose proof (byte_val_range c).
  unfold encode_rune. replace (valid_rune (byte_val c)) with true by (unfold valid_rune; lia).
  rewrite H1, byte_of_val. done.
Qed.

Lemma ascii_runes s : forallb is_ascii s = true ->
  exists rs, s = encode rs /\ forallb valid_rune rs = true.
Proof.
  intros H. exists (map byte_val s). split; [by rewrite encode_ascii|].
  apply forallb_forall. intros r (c & <- & Hc)%in_map_iff. rewrite forallb_forall in H. specialize (H c Hc).
  unfold is_ascii in H. pose proof (byte_val_range c). unfold valid_rune. lia.
Qed.

(** Text assembled from ASCII pieces and encoded ones is valid UTF-8. *)
Definition encoded (s : str) : Prop := exists rs, s = encode rs /\ forallb valid_rune rs = true.

Lemma encoded_app s t : encoded s -> encoded t -> encoded (s ++ t).
Proof.
  intros (rs & -> & H1) (ts & -> & H2). exists (rs ++ ts). unfold encode. rewrite flat_map_app. split; [done|].
  by rewrite forallb_app, H1, H2.
Qed.

Lemma utoa_encoded n : 0 <= n -> encoded (utoa n).
Proof.
  intros Hn. apply ascii_runes. apply forallb_forall. intros c Hc. pose proof (utoa_digits n Hn) as F.
  rewrite Forall_forall in F. apply list_elem_of_In, F in Hc. unfold is_digit, is_ascii in *. lia.
Qed.

Lemma itoa_encoded n : encoded (itoa n).
Proof.
  unfold itoa. destruct (n <? 0) eqn:E; [|apply utoa_encoded; lia].
  apply (encoded_app ["-"%char] (utoa (- n))); [by apply ascii_runes|apply utoa_encoded; lia].
Qed.

Lemma signed_encoded n : encoded (signed n).
Proof.
  unfold signed. destruct (n <? 0); [apply itoa_encoded|].
  apply (encoded_app ["+"%char] (itoa n)); [by apply ascii_runes|apply itoa_encoded].
Qed.

Lemma vote_text_valid clock target up down :
  ValidString clock = true -> 0 <= target -> wire_text_ok (vote_wire clock target up down) = true.
Proof.
  intros Hc Ht. unfold wire_text_ok, vote_wire.
  cbn [wm_Type wm_Time wm_DisplayName wm_Tags wm_SysDate wm_ExposedPub wm_ExposedSig wm_ExposedSeed wm_Text wm_Trip
       wm_ChainPrev wm_ChainHash wm_SentAt forallb].
  rewrite Hc. set (text := lit "#" ++ _).
  assert (encoded text) as (rs & -> & Hrs).
  { unfold text. apply encoded_app; [by apply ascii_runes|]. apply encoded_app; [by apply utoa_encoded|].
    apply encoded_app; [by exists [32; 9650]|]. apply encoded_app; [apply itoa_encoded|].
    apply encoded_app; [by exists (map byte_val (lit " upvotes ") ++ [9660])|]. apply encoded_app; [apply itoa_encoded|].
    apply encoded_app; [by apply ascii_runes|]. apply encoded_app; [apply signed_encoded|by apply ascii_runes]. }
  rewrite encode_ValidString by done. reflexivity.
Qed.

(** Totals survive a restart: rebuilding from a history that ends with the
    line a vote broadcast stores gives that message those totals and leaves the
    other messages' as they were. *)
Theorem rebuild_after_broadcast maxBytes clock ts c target up down st :
  ValidString clock = true -> 0 < target < 2 ^ 64 -> is_i64 up -> is_i64 down ->
  let line := (BroadcastVote maxBytes clock ts c target up down).1 in
  VoteScores (rebuildVoteScores st (c_History c ++ [line])) =
  <[target := mkScore up down]> (VoteScores (rebuildVoteScores st (c_History c))).
Proof.
  intros Hc Ht Hu Hd. cbv zeta. unfold BroadcastVote, storeSystem. cbn [assignSeqLocked fst].
  unfold rebuildVoteScores. cbn [VoteScores]. rewrite fold_left_app. cbn [fold_left].
  set (w := set_Seq _ _). unfold rebuild_line at 1.
  assert (wire_text_ok w = true) as Hw by apply (vote_text_valid clock target up down Hc ltac:(lia)).
  rewrite wire_roundtrip_read; [|done|].
  - unfold w, vote_wire, set_Seq. cbn [wm_Type wm_VoteTarget wm_Tags wm_VoteUpvotes wm_VoteDownvotes].
    replace (target =? 0) with false by lia. rewrite orb_false_r.
    replace (str_eqb (lit "system") (lit "system")) with true by by vm_compute.
    replace (HasTag (WithTags [TagVote]) TagVote) with true by by vm_compute. done.
  - pose proof (u64_range (c_seq c + 1)). unfold w, wire_ranges, vote_wire, set_Seq, is_u64, is_i64 in *.
    cbn. repeat split; lia.
Qed.

Lemma rebuild_after_broadcast_witness :
  let c := newChain None in
  VoteScores (rebuildVoteScores (mkVotes ∅ ∅) (c_History c ++ [(BroadcastVote 100 (lit "15:04") [] c 7 2 1).1])) =
  <[7 := mkScore 2 1]> (VoteScores (rebuildVoteScores (mkVotes ∅ ∅) (c_History c))).
Proof.
  apply (rebuild_after_broadcast 100 (lit "15:04") [] (newChain None) 7 2 1 (mkVotes ∅ ∅)).
  - vm_compute. reflexivity.
  - lia.
  - unfold is_i64. lia.
  - unfold is_i64. lia.
Defined.
