(* ===== verification/Clock.v ===== *)
(** Calendar time: the Unix counts of a [time.Time], and the timestamps of stored
    records: [time.Parse(time.RFC3339Nano, _)] on the forms
    [Format] writes (the fixed-width RFC 3339 form with an optional fraction).
    The looser forms the standard parser also takes are read as a failure. *)

From S2P Require Import Prelude Bytes.
Local Open Scope Z_scope.

(** [Time.Unix] and [Time.UnixNano]: Go's zero time is 62135596800 seconds before
    1970. *)
Definition UnixSec (t : time) : Z := i64 (t / Second - 62135596800).
Definition UnixNano (t : time) : Z := i64 (t - 62135596800 * Second).

(** [n] decimal digits and the rest. *)
Fixpoint fixed_digits (n : nat) (acc : Z) (s : str) : option (Z * str) :=
  match n with
  | O => Some (acc, s)
  | S n' =>
      match s with
      | c :: s' => if is_digit c then fixed_digits n' (acc * 10 + (byte_val c - 48)) s' else None
      | [] => None
      end
  end.

Definition expect (c : ascii) (s : str) : option str :=
  match s with d :: s' => if byte_eqb c d then Some s' else None | [] => None end.

Definition is_leap (y : Z) : bool := (y mod 4 =? 0) && (negb (y mod 100 =? 0) || (y mod 400 =? 0)).

Definition month_days (y m : Z) : Z :=
  if m =? 2 then if is_leap y then 29 else 28
  else if (m =? 4) || (m =? 6) || (m =? 9) || (m =? 11) then 30 else 31.

(** Days of the months before [m]. *)
Definition days_before (y m : Z) : Z :=
  fold_right Z.add 0 (map (fun i => month_days y (Z.of_nat i)) (seq 1 (Z.to_nat (m - 1)))).

(** Days from 1 January of the year 1. *)
Definition day_number (y m d : Z) : Z :=
  365 * (y - 1) + (y - 1) / 4 - (y - 1) / 100 + (y - 1) / 400 + days_before y m + (d - 1).

(** The fraction, to nine places; further digits are dropped. *)
Definition fraction (s : str) : option (Z * str) :=
  match s with
  | c :: s' =>
      if byte_eqb c "."%char then
        let '(ds, rest) := span is_digit s' in
        match ds with
        | [] => None
        | _ => let kept := take 9 ds in
               Some (digits_val kept * 10 ^ Z.of_nat (9 - length kept), rest)
        end
      else Some (0, s)
  | [] => Some (0, s)
  end.

(** The zone's offset in seconds, at the end of the text. *)
Definition zone (s : str) : option Z :=
  match s with
  | [] => None
  | c :: s' =>
      if byte_eqb c "Z"%char then match s' with [] => Some 0 | _ => None end
      else if byte_eqb c "+"%char || byte_eqb c "-"%char then
        '(h, s) ← fixed_digits 2 0 s';
        s ← expect ":"%char s;
        '(m, s) ← fixed_digits 2 0 s;
        match s with
        | [] => if (h <=? 24) && (m <=? 60)
                then Some ((if byte_eqb c "-"%char then -1 else 1) * (h * 3600 + m * 60)) else None
        | _ => None
        end
      else None
  end.

Definition parse_rfc3339 (s : str) : option time :=
  '(y, s) ← fixed_digits 4 0 s; s ← expect "-"%char s;
  '(mo, s) ← fixed_digits 2 0 s; s ← expect "-"%char s;
  '(d, s) ← fixed_digits 2 0 s; s ← expect "T"%char s;
  '(h, s) ← fixed_digits 2 0 s; s ← expect ":"%char s;
  '(mi, s) ← fixed_digits 2 0 s; s ← expect ":"%char s;
  '(sec, s) ← fixed_digits 2 0 s;
  '(ns, s) ← fraction s;
  off ← zone s;
  if (1 <=? mo) && (mo <=? 12) && (1 <=? d) && (d <=? month_days y mo) && (h <? 24) && (mi <? 60) && (sec <? 60)
  then Some ((day_number y mo d * 86400 + h * 3600 + mi * 60 + sec - off) * Second + ns)
  else None.

(** [recTime, _ := time.Parse(...)]: the zero time on error. *)
Definition record_time (ts : str) : time := default 0 (parse_rfc3339 ts).

Example record_time_unix : record_time (lit "1970-01-01T00:00:00Z") = 62135596800 * Second.
Proof. vm_compute. reflexivity. Qed.

Example record_time_zone :
  record_time (lit "2024-03-01T06:30:05.25+07:00") = record_time (lit "2024-02-29T23:30:05.25Z").
Proof. vm_compute. reflexivity. Qed.

Example record_time_bad : record_time (lit "2023-02-29T00:00:00Z") = 0.
Proof. vm_compute. reflexivity. Qed.
