(* ===== verification/TripChains.v ===== *)
(** The trip chains and the exposed-seed registry of the server
    ([server/history.go]: [applyTripChain], [InitHistoryStore];
    [server/auth.go]: [pruneTripChains]; [server/trip_reveal.go]; the signed
    branch of [ReadPump] in [server/clientHandler.go]).  Both maps are
    [sync.Map]s updated under their mutex; the clock is an argument, read once
    per operation. *)

From Stdlib Require Import Sorted.
From stdpp Require Import sorting.
From S2P Require Import Prelude Bytes Sha2 Utf8 Wire Json ChainLink Filter Guard Crypto Trip Window HistoryScan HistoryStore ChainService.
From S2P Require Import Votes Clock.
Local Open Scope Z_scope.

(** * One chain per trip key *)

(** [LastHash] is never written. *)
Record TripChain := mkTip {
  tc_Seq : Z;
  tc_PrevHash : str;
  tc_LastSeen : time
}.

Inductive tripChainUpdate := Extended | Gap | Fork | Stale.

Definition applyTripChain (cur : TripChain) (has : bool) (seq : Z) (prevBytes newPrev : str)
    : TripChain * tripChainUpdate :=
  if negb has then (mkTip seq newPrev 0, Extended)
  else if seq <=? tc_Seq cur then (cur, Stale)
  else if (seq =? u32 (tc_Seq cur + 1)) && str_eqb prevBytes (tc_PrevHash cur) then (mkTip seq newPrev 0, Extended)
  else if seq =? u32 (tc_Seq cur + 1) then (mkTip seq newPrev 0, Fork)
  else (mkTip seq newPrev 0, Gap).

(** * Bounding a map by age and size *)

(** The sweep both maps share: drop the entries idle past [ttl], then evict the
    least recently seen above [cap].  (Equal times are evicted in any order.) *)
Section prune.
Context {A : Type} (seen : A -> time).

Definition idle (ttl : duration) (now : time) (a : A) : bool :=
  negb (IsZero (seen a)) && (ttl <? Sub now (seen a)).

Definition older (x y : str * A) : Prop := seen x.2 <= seen y.2.
#[global] Instance older_dec x y : Decision (older x y) := Z_le_dec _ _.

Definition prune (ttl : duration) (cap : nat) (now : time) (m : gmap str A) : gmap str A :=
  let kept := filter (fun kv => idle ttl now kv.2 = false) m in
  if (size kept <=? cap)%nat then kept
  else
    let sorted := merge_sort older (map_to_list kept) in
    foldr (fun kv m => delete kv.1 m) kept (take (size kept - cap) sorted).
End prune.

Definition tripChainsTTL : duration := 24 * Hour.
Definition maxTripChains : nat := Z.to_nat 10000.
Definition pruneTripChains (now : time) (m : gmap str TripChain) : gmap str TripChain :=
  prune tc_LastSeen tripChainsTTL maxTripChains now m.

(** * Exposed seeds (server/trip_reveal.go) *)

Record exposedEntry := mkExposed { ex_At : time; ex_Seed : str }.

Definition exposedTripsTTL : duration := 24 * Hour.
Definition maxExposedTrips : nat := Z.to_nat 10000.

Definition pruneExposedTrips (now : time) (m : gmap str exposedEntry) : gmap str exposedEntry :=
  prune ex_At exposedTripsTTL maxExposedTrips now m.

Section exposed.
Context {U : Unicode}.

Definition markTripExposedAt (now : time) (m : gmap str exposedEntry) (pubHex : str) (at_ : time) (seedHex : str)
    : gmap str exposedEntry :=
  let at_ := if IsZero at_ then now else at_ in
  if exposedTripsTTL <? Sub now at_ then m
  else pruneExposedTrips now (<[pubHex := mkExposed at_ (ToLower seedHex)]> m).

Definition markTripExposed (now : time) (m : gmap str exposedEntry) (pubHex seedHex : str) : gmap str exposedEntry := markTripExposedAt now m pubHex now seedHex.

Definition loadExposedEntry (now : time) (m : gmap str exposedEntry) (pubHex : str) (at_ : time)
    : option exposedEntry * gmap str exposedEntry :=
  match m !! pubHex with
  | None => (None, m)
  | Some e =>
      if str_eqb (ex_Seed e) [] then (None, delete pubHex m)
      else if exposedTripsTTL <? Sub now (ex_At e) then (None, delete pubHex m)
      else
        let at_ := if IsZero at_ then now else at_ in
        if After at_ (ex_At e) && (Sub now at_ <=? exposedTripsTTL)
        then let e := mkExposed at_ (ex_Seed e) in (Some e, <[pubHex := e]> m)
        else (Some e, m)
  end.

Definition isTripExposedAt (now : time) (m : gmap str exposedEntry) (pubHex : str) (at_ : time) : bool * gmap str exposedEntry :=
  let '(e, m) := loadExposedEntry now m pubHex at_ in
  (match e with Some _ => true | None => false end, m).

Definition isTripExposed (now : time) (m : gmap str exposedEntry) (pubHex : str) : bool * gmap str exposedEntry := isTripExposedAt now m pubHex now.

Definition exposedSeedHex (now : time) (m : gmap str exposedEntry) (pubHex : str) : str * gmap str exposedEntry :=
  let '(e, m) := loadExposedEntry now m pubHex now in
  (match e with Some e => ex_Seed e | None => [] end, m).
End exposed.

(** * The server's trip state *)

Record TripState := mkTrips {
  TripChains : gmap str TripChain;
  ExposedTrips : gmap str exposedEntry
}.

(** ** A signed line in [ReadPump] *)

(** The envelope of a chat line. *)
Record tripEnvelope := mkEnvelope {
  te_Text : str;
  te_Msg : str;
  te_Pub : str;
  te_Seq : Z;
  te_Prev : str;
  te_Sig : str;
  te_DisplayName : str;
  te_TmpID : Z;
  te_ReplyTo : Z
}.

Inductive signed_refusal :=
| SignedEmpty
| SignedFilter (e : char_error)
| PubMismatch
| BadSizes
| BadSeq (expected : Z)
| PrevMismatch
| BadSignature.

(** [strings.EqualFold], used here with a lower-case hex side, whose letters
    fold with ASCII letters only. *)
Definition EqualFold (s t : str) : bool := str_eqb (map lower_ascii s) (map lower_ascii t).

Definition zero32 : str := repeat nul 32.

Definition env_text (e : tripEnvelope) : str :=
  match te_Text e with [] => te_Msg e | t => t end.

Section server.
Context {U : Unicode} {E : Ed25519}.

(** The tip a key must continue. *)
Definition expected_tip (m : gmap str TripChain) (pubHex : str) : Z * str :=
  match m !! pubHex with
  | Some ch => (u32 (tc_Seq ch + 1), if slen (tc_PrevHash ch) =? 32 then tc_PrevHash ch else zero32)
  | None => (1, zero32)
  end.

(** The checks of a signed envelope, in order; on success the tip advances.
    [serverPub] is the server's own key ([s.ServerID]), if it has one. *)
Definition accept_signed (now : time) (m : gmap str TripChain) (session_pub session_name : str)
    (serverID : option str) (e : tripEnvelope) : res signed_refusal (str * VerifyResult * gmap str TripChain) :=
  match env_text e with
  | [] => Err SignedEmpty
  | text =>
      match ValidateMessage text with
      | Err err => Err (SignedFilter err)
      | Ok _ =>
          if negb (str_eqb session_pub []) && negb (EqualFold session_pub (te_Pub e)) then Err PubMismatch
          else
            let pubHex := ToLower (te_Pub e) in
            if negb (slen pubHex =? 64) || negb (slen (te_Sig e) =? 128) || negb (slen (te_Prev e) =? 64) then Err BadSizes
            else
              let '(expectedSeq, expectedPrev) := expected_tip m pubHex in
              if negb (te_Seq e =? expectedSeq) then Err (BadSeq expectedSeq)
              else if negb (EqualFold (te_Prev e) (hex_encode expectedPrev)) then Err PrevMismatch
              else
                let serverPub := match serverID with Some k => ToLower k | None => [] end in
                match trip_Verify (mkVerify text session_name serverPub pubHex (te_Seq e) (te_Prev e) (te_Sig e)
                                     (hex_encode (sha256 text)) (te_TmpID e) (te_ReplyTo e) false) with
                | Err _ => Err BadSignature
                | Ok r => Ok (text, r, <[pubHex := mkTip (te_Seq e) (vr_NewPrev r) now]> m)
                end
      end
  end.

(** The [TripMeta] stored with the line. *)
Definition meta_of (session_name : str) (e : tripEnvelope) (r : VerifyResult) (exposed : bool) : TripMeta :=
  mkTripMeta (vr_PubHex r) (vr_Seq r) (vr_PrevHex r) (vr_SigHex r) (vr_ServerPub r) (vr_MsgHash r) session_name exposed
    (te_TmpID e) (te_ReplyTo e).

(** * Boot (InitHistoryStore) *)

Record boot_state := mkBoot {
  b_lastSeq : Z;
  b_exposed : gset str;         (* exposedInHistory *)
  b_trips : TripState;
  b_chain : ChainService
}.

(** The cursor given to records written without one. *)
Definition backfill (lastSeq : Z) (rec : historyRecord) : Z * historyRecord :=
  let '(lastSeq, rec) :=
    if hr_Seq rec =? 0 then
      let n := u64 (lastSeq + 1) in (n, mkRecord n (hr_Timestamp rec) (hr_Message rec) (hr_Wire rec))
    else (if lastSeq <? hr_Seq rec then hr_Seq rec else lastSeq, rec) in
  match hr_Wire rec with
  | Some w =>
      if wm_Seq w =? 0
      then (lastSeq, mkRecord (hr_Seq rec) (hr_Timestamp rec) (hr_Message rec) (Some (set_Seq w (hr_Seq rec))))
      else (lastSeq, rec)
  | None => (lastSeq, rec)
  end.

(** A reveal notice enters the registry when its seed derives its key. *)
Definition boot_reveal (now : time) (recTime : time) (exposed : gset str) (m : gmap str exposedEntry)
    (w : WireMessage) : gset str * gmap str exposedEntry :=
  if negb (str_eqb (wm_ExposedPub w) []) && HasTag (wm_Tags w) TagTripReveal then
    let pubHex := ToLower (wm_ExposedPub w) in
    let seedHex := ToLower (TrimSpace (wm_ExposedSeed w)) in
    if negb (str_eqb seedHex []) && VerifySeed seedHex pubHex
    then ({[pubHex]} ∪ exposed, markTripExposedAt now m pubHex recTime seedHex)
    else (exposed, m)
  else (exposed, m).

(** The verification of a stored signed line, and the next tip. *)
Definition boot_verify (serverID : option str) (w : WireMessage) (t : TripMeta) : option (str * str) :=
  let displayName := match wm_DisplayName w with [] => tm_DisplayName t | n => n end in
  let serverPub := match tm_ServerPub t with [] => default [] serverID | k => k end in
  match trip_Verify (mkVerify (wm_Text w) displayName serverPub (tm_Pub t) (tm_Seq t) (tm_Prev t) (tm_Sig t)
                       (tm_MsgHash t) (tm_TmpID t) (tm_ReplyTo t) false) with
  | Err _ => None
  | Ok _ =>
      prevBytes ← hex_decode (tm_Prev t);
      sigBytes ← hex_decode (tm_Sig t);
      hashBytes ← hex_decode (tm_MsgHash t);
      Some (prevBytes, sha256 (prevBytes ++ sigBytes ++ hashBytes))
  end.

Definition boot_fold (now : time) (m : gmap str TripChain) (t : TripMeta) (prevBytes newPrev : str) : gmap str TripChain :=
  let '(tip, has) := match m !! tm_Pub t with Some c => (c, true) | None => (mkTip 0 [] 0, false) end in
  match applyTripChain tip has (tm_Seq t) prevBytes newPrev with
  | (_, Stale) => m
  | (next, _) => <[tm_Pub t := mkTip (tc_Seq next) (tc_PrevHash next) now]> m
  end.

Definition set_wire (rec : historyRecord) (w : WireMessage) : historyRecord :=
  mkRecord (hr_Seq rec) (hr_Timestamp rec) (hr_Message rec) (Some w).

(** One record. *)
Definition boot_record (maxBytes : Z) (now : time) (serverID : option str) (st : boot_state) (rec : historyRecord)
    : boot_state :=
  let '(lastSeq, rec) := backfill (b_lastSeq st) rec in
  let trips := b_trips st in
  let skip exposed trips := mkBoot lastSeq exposed trips (b_chain st) in
  let keep exposed trips line := mkBoot lastSeq exposed trips (appendMessageLocked maxBytes (b_chain st) line) in
  match recordLine rec with
  | None => skip (b_exposed st) trips
  | Some line =>
      match hr_Wire rec with
      | None => keep (b_exposed st) trips line
      | Some w =>
          let recTime := record_time (hr_Timestamp rec) in
          let '(exposed, registry) := boot_reveal now recTime (b_exposed st) (ExposedTrips trips) w in
          match wm_Trip w with
          | None => keep exposed (mkTrips (TripChains trips) registry) line
          | Some t =>
              if str_eqb (tm_Pub t) [] then keep exposed (mkTrips (TripChains trips) registry) line
              else
                match boot_verify serverID w t with
                | None => skip exposed (mkTrips (TripChains trips) registry)
                | Some (prevBytes, newPrev) =>
                    let chains := boot_fold now (TripChains trips) t prevBytes newPrev in
                    let '(flag, registry) :=
                      if bool_decide (tm_Pub t ∈ exposed) then (true, registry)
                      else isTripExposedAt now registry (tm_Pub t) recTime in
                    let line := if flag then recordLine (set_wire rec (set_Trip w (Some (set_Exposed t true)))) else Some line in
                    match line with
                    | None => skip exposed (mkTrips chains registry)
                    | Some line => keep exposed (mkTrips chains registry) line
                    end
                end
          end
      end
  end.

Definition boot_records maxBytes now serverID st recs : boot_state :=
  fold_left (boot_record maxBytes now serverID) recs st.

(** [InitHistoryStore] on a store already opened (an empty path opens none):
    the registry and tips, the history, the cursor and the vote totals. *)
Definition InitHistoryStore (maxBytes : Z) (now : time) (serverID : option str) (store : option HistoryStore)
    (trips : TripState) (c : ChainService) (votes : VoteState) : TripState * ChainService * VoteState :=
  let with_store c st seq := mkChain (c_tip c) (c_height c) (c_ready c) seq (c_History c) (c_HistorySize c) st in
  match store with
  | None => (trips, with_store c None (c_seq c), votes)
  | Some st =>
      let '(records, st) := LoadRecords st in
      let b := boot_records maxBytes now serverID (mkBoot 0 ∅ trips (with_store c (Some st) (c_seq c))) records in
      let c := with_store (b_chain b) (c_Store (b_chain b)) (b_lastSeq b) in
      (b_trips b, c, rebuildVoteScores votes (c_History c))
  end.

(** * Publishing a seed (handleTripReveal) *)

Inductive reveal_outcome :=
| NoTripcode
| SeedMismatch
| RevealSigBad
| AlreadyExposed
| RevealMuted
| RevealLimited
| Revealed (notice : WireMessage).

(** [muted] and [allowed] are the answers of the screener and of the history
    budget; [clock] is the server's local time. *)
Definition reveal_notice (clock : str) (pubHex badge sigHex seedHex : str) : WireMessage :=
  let seedHex := ToLower (TrimSpace seedHex) in
  let esc := byte_of 27 :: lit "[90m" in
  let reset := byte_of 27 :: lit "[0m" in
  match noticeWire clock
          (esc ++ clock ++ reset ++ lit " [Hệ thống]: Danh tính " ++ badge ++ lit " đã lộ seed " ++ seedHex ++
           lit ", đừng tin badge này nữa.") [TagTripReveal] with
  | mkWire a b c d e f g h i _ _ _ m n o p q r s t u v =>
      mkWire a b c d e f g h i pubHex (ToLower sigHex) seedHex m n o p q r s t u v
  end.

Definition handleTripReveal (now : time) (clock : str) (muted allowed : bool) (m : gmap str exposedEntry)
    (session_pub session_badge seedHex sigHex : str) : reveal_outcome * gmap str exposedEntry :=
  match session_pub with
  | [] => (NoTripcode, m)
  | _ =>
      let pubHex := ToLower session_pub in
      if negb (VerifySeed seedHex pubHex) then (SeedMismatch, m)
      else if negb (VerifyReveal pubHex sigHex) then (RevealSigBad, m)
      else
        let '(exposed, m) := isTripExposed now m pubHex in
        if exposed then (AlreadyExposed, m)
        else if muted then (RevealMuted, m)
        else if negb allowed then (RevealLimited, m)
        else
          let badge := match session_badge with [] => TripBadgeFromPubHex pubHex | b => b end in
          (Revealed (reveal_notice clock pubHex badge sigHex seedHex), markTripExposed now m pubHex seedHex)
  end.
End server.

(** * Theorems *)

(** ** Hex fields *)

Section hex.
Context {U : Unicode}.

Lemma hex_fold_ascii c : (is_digit (lower_ascii c) || ((97 <=? byte_val (lower_ascii c)) && (byte_val (lower_ascii c) <=? 102))) = true -> is_ascii c = true /\ IsSpace (byte_val c) = false.
Proof.
  unfold lower_ascii, is_digit, is_ascii, IsSpace. pose proof (byte_val_range c).
  destruct ((65 <=? byte_val c) && (byte_val c <=? 90)) eqn:E; [|lia]. intros _. lia.
Qed.

(** A text that folds to hex digits is canonicalised by folding it. *)
Lemma fold_canon s : lower_hex (map lower_ascii s) = true -> canon s = map lower_ascii s.
Proof.
  intros H. unfold lower_hex in H. rewrite forallb_forall in H.
  assert (forall c, In c s -> is_ascii c = true /\ IsSpace (byte_val c) = false) as Hc.
  { intros c Hc. apply hex_fold_ascii. by apply H, in_map. }
  assert (forallb is_ascii s = true) as Ha by (apply forallb_forall; intros c Hin; by apply Hc).
  unfold canon. rewrite TrimSpace_id; [unfold ToLower; by rewrite Ha|].
  unfold runes. rewrite segs_ascii, map_map by done. apply forallb_forall.
  intros r (c & <- & Hin)%in_map_iff. cbn [seg_rune]. destruct (Hc c Hin) as [_ ->]. done.
Qed.

Lemma lower_hex_fold s : lower_hex s = true -> map lower_ascii s = s.
Proof.
  unfold lower_hex. induction s as [|c s IH]; [done|]. cbn [forallb map]. intros [H1 H2]%andb_true_iff.
  rewrite IH by done. f_equal. unfold lower_ascii, is_digit in *.
  by replace ((65 <=? byte_val c) && (byte_val c <=? 90)) with false by lia.
Qed.

Lemma lower_hex_ToLower s : lower_hex s = true -> ToLower s = s.
Proof.
  intros H. unfold ToLower. assert (forallb is_ascii s = true) as ->; [|by apply lower_hex_fold].
  unfold lower_hex, is_digit in H. rewrite forallb_forall in *. intros c Hc. specialize (H c Hc). unfold is_ascii. lia.
Qed.

Lemma EqualFold_hex s b : EqualFold s (hex_encode b) = true -> canon s = hex_encode b.
Proof.
  intros H%str_eqb_eq. rewrite (lower_hex_fold (hex_encode b)) in H by apply hex_encode_lower.
  rewrite fold_canon; [done|]. rewrite H. apply hex_encode_lower.
Qed.
End hex.

(** ** Pruning *)

Section prune_theorems.
Context {A : Type} (seen : A -> time).

#[local] Instance older_total : Total (older seen).
Proof. intros x y. unfold older. lia. Qed.
#[local] Instance older_trans : Transitive (older seen).
Proof. intros x y z. unfold older. lia. Qed.

Lemma foldr_delete_lookup (l : list (str * A)) (m : gmap str A) k :
  foldr (fun kv m => delete kv.1 m) m l !! k = if decide (k ∈ l.*1) then None else m !! k.
Proof.
  induction l as [|[k' a] l IH]; [done|]. cbn [foldr fst]. rewrite fmap_cons. cbn [fst].
  destruct (decide (k = k')) as [->|Hne].
  - rewrite lookup_delete_eq, decide_True by by left. done.
  - rewrite lookup_delete_ne by done. rewrite IH. repeat case_decide; set_solver.
Qed.

(** Deleting a part of a map's bindings leaves the others. *)
Lemma foldr_delete_split (m : gmap str A) l1 l2 :
  l1 ++ l2 ≡ₚ map_to_list m ->
  foldr (fun kv m => delete kv.1 m) m l1 = list_to_map l2 /\ NoDup l2.*1.
Proof.
  intros Hp. assert (NoDup (l1.*1 ++ l2.*1)) as Hnd.
  { rewrite <- fmap_app, Hp. apply NoDup_fst_map_to_list. }
  apply NoDup_app in Hnd as (H1 & H12 & H2). split; [|done].
  apply map_eq. intros k. rewrite foldr_delete_lookup. case_decide as Hk.
  - symmetry. apply not_elem_of_list_to_map. by apply H12.
  - apply option_eq. intros a. rewrite <- elem_of_list_to_map by done.
    rewrite <- elem_of_map_to_list, <- Hp, elem_of_app. split; [|by right].
    intros [Hin|]; [|done]. exfalso. apply Hk. apply list_elem_of_fmap. by exists (k, a).
Qed.

Lemma prune_facts ttl cap now m :
  let m' := prune seen ttl cap now m in
  let kept := filter (fun kv => idle seen ttl now kv.2 = false) m in
  m' ⊆ kept /\ (size m' <= cap)%nat /\ ((size kept <= cap)%nat -> m' = kept) /\
  (forall k a k' a', kept !! k = Some a -> m' !! k = None -> m' !! k' = Some a' -> seen a <= seen a').
Proof.
  unfold prune. cbv zeta. set (kept := filter _ m).
  destruct (size kept <=? cap)%nat eqn:E.
  { apply Nat.leb_le in E. repeat split; try done. intros k a k' a' H1 H2. congruence. }
  apply Nat.leb_gt in E. set (l := merge_sort _ _). set (n := (size kept - cap)%nat).
  assert (l ≡ₚ map_to_list kept) as Hp by apply merge_sort_Permutation.
  assert (StronglySorted (older seen) l) as Hs by (apply StronglySorted_merge_sort; apply _).
  rewrite <- (take_drop n l) in Hp, Hs.
  destruct (foldr_delete_split kept _ _ Hp) as [Hm Hnd]. rewrite Hm.
  assert (forall k a, list_to_map (M := gmap str A) (drop n l) !! k = Some a <-> (k, a) ∈ drop n l) as Hl
    by (intros; by rewrite elem_of_list_to_map).
  split; [|split; [|split]].
  - apply map_subseteq_spec. intros k a Hk%Hl. apply elem_of_map_to_list. rewrite <- Hp. apply elem_of_app. by right.
  - rewrite map_size_list_to_map by done. rewrite length_drop.
    apply (Permutation_length) in Hp. rewrite take_drop in Hp. rewrite Hp, length_map_to_list. unfold n. lia.
  - lia.
  - intros k a k' a' H1 H2 H3. apply Hl in H3. apply elem_of_map_to_list in H1. rewrite <- Hp in H1.
    apply elem_of_app in H1 as [H1|H1]; [|apply Hl in H1; congruence].
    change (older seen (k, a) (k', a')). by eapply StronglySorted_app_1_elem_of.
Qed.
End prune_theorems.

(** Both key registries stay bounded, and lose only what they may: after a
    sweep at most the cap is left, nothing idle past the lifetime is left,
    nothing active is lost while it fits, and what is evicted was seen no later
    than anything kept. *)
Theorem pruned_registries (now : time) (trips : gmap str TripChain) (exposed : gmap str exposedEntry) :
  (let kept := filter (fun kv => idle tc_LastSeen tripChainsTTL now kv.2 = false) trips in
   let m' := pruneTripChains now trips in
   m' ⊆ kept /\ (size m' <= maxTripChains)%nat /\ ((size kept <= maxTripChains)%nat -> m' = kept) /\
   (forall k a k' a', kept !! k = Some a -> m' !! k = None -> m' !! k' = Some a' -> tc_LastSeen a <= tc_LastSeen a')) /\
  (let kept := filter (fun kv => idle ex_At exposedTripsTTL now kv.2 = false) exposed in
   let m' := pruneExposedTrips now exposed in
   m' ⊆ kept /\ (size m' <= maxExposedTrips)%nat /\ ((size kept <= maxExposedTrips)%nat -> m' = kept) /\
   (forall k a k' a', kept !! k = Some a -> m' !! k = None -> m' !! k' = Some a' -> ex_At a <= ex_At a')).
Proof. split; apply prune_facts. Qed.

(** ** Live signed lines form one chain per key *)

(** One signed envelope as [ReadPump] sees it. *)
Record attempt := mkAttempt {
  a_now : time;
  a_pub : str;           (* session.TripPub *)
  a_name : str;          (* session.DisplayName *)
  a_env : tripEnvelope
}.

Section live.
Context {U : Unicode} {E : Ed25519}.
Variable serverID : option str.

(** Attempts in the order they take [TripChainsMu]; the accepted lines with
    their map keys. *)
Fixpoint run_signed (m : gmap str TripChain) (l : list attempt) : list (str * VerifyResult) * gmap str TripChain :=
  match l with
  | [] => ([], m)
  | x :: l' =>
      match accept_signed (a_now x) m (a_pub x) (a_name x) serverID (a_env x) with
      | Err _ => run_signed m l'
      | Ok (_, r, m1) =>
          let '(rs, m2) := run_signed m1 l' in ((ToLower (te_Pub (a_env x)), r) :: rs, m2)
      end
  end.

Definition lines_of (key : str) (l : list (str * VerifyResult)) : list VerifyResult :=
  map snd (List.filter (fun x => str_eqb x.1 key) l).

(** Consecutive numbers from [seq], each line naming the hash of the one
    before. *)
Fixpoint linked_from (seq : Z) (prev : str) (l : list VerifyResult) : Prop :=
  match l with
  | [] => True
  | r :: l' =>
      vr_Seq r = seq /\ vr_PrevHex r = hex_encode prev /\
      (exists sig mh, vr_NewPrev r = sha256 (prev ++ sig ++ mh)) /\ linked_from (seq + 1) (vr_NewPrev r) l'
  end.

(** What acceptance checked. *)
Lemma accept_signed_inv now m spub name e text r m' :
  accept_signed now m spub name serverID e = Ok (text, r, m') ->
  let key := ToLower (te_Pub e) in
  text = env_text e /\ ValidateMessage text = Ok tt /\
  trip_Verify (mkVerify text name (match serverID with Some k => ToLower k | None => [] end) key (te_Seq e)
                 (te_Prev e) (te_Sig e) (hex_encode (sha256 text)) (te_TmpID e) (te_ReplyTo e) false) = Ok r /\
  te_Seq e = (expected_tip m key).1 /\ canon (te_Prev e) = hex_encode (expected_tip m key).2 /\
  m' = <[key := mkTip (te_Seq e) (vr_NewPrev r) now]> m.
Proof.
  unfold accept_signed. destruct (env_text e) as [|c t] eqn:Et; [done|]. set (tx := c :: t) in *.
  destruct (ValidateMessage tx) as [[]|] eqn:Ev; [|done].
  destruct (negb _ && _); [done|]. destruct (_ || _); [done|].
  destruct (expected_tip m (ToLower (te_Pub e))) as [sq pv] eqn:Ex.
  destruct (negb (te_Seq e =? sq)) eqn:Es; [done|]. destruct (negb (EqualFold _ _)) eqn:Ep; [done|].
  destruct (trip_Verify _) as [r'|] eqn:Evf; [|done]. intros [= <- <- <-].
  apply negb_false_iff, Z.eqb_eq in Es. apply negb_false_iff, EqualFold_hex in Ep. done.
Qed.

Lemma verify_result p r : trip_Verify p = Ok r ->
  vr_PubHex r = canon (vp_PubHex p) /\ vr_Seq r = vp_Seq p /\ vr_PrevHex r = canon (vp_PrevHex p) /\
  vr_SigHex r = canon (vp_SigHex p) /\ vr_MsgHash r = canon (vp_MsgHashHex p) /\
  vr_ServerPub r = canon (vp_ServerPub p).
Proof.
  unfold trip_Verify. repeat (match goal with |- (if ?b then _ else _) = _ -> _ => destruct b end; [done|]).
  repeat (match goal with |- match ?x with Some _ => _ | None => _ end = _ -> _ => destruct x end; [|done]).
  repeat (match goal with |- (if ?b then _ else _) = _ -> _ => destruct b end; [done|]).
  by intros [= <-].
Qed.

(** The next link, from the decoded fields. *)
Lemma verify_newprev p r prev : trip_Verify p = Ok r -> canon (vp_PrevHex p) = hex_encode prev ->
  exists sig mh, hex_decode (vr_SigHex r) = Some sig /\ hex_decode (vr_MsgHash r) = Some mh /\
    vr_NewPrev r = sha256 (prev ++ sig ++ mh).
Proof.
  intros H Hp. destruct (trip_Verify_accepted p r H) as (pub & sig & pv & mh & _ & _ & Hs & _ & Hpv & _ & Hm & _ & _ & _ & _ & _ & HN & _).
  destruct (verify_result p r H) as (_ & _ & _ & E1 & E2 & _).
  rewrite Hp, hex_decode_encode in Hpv. injection Hpv as ->. exists sig, mh. by rewrite E1, E2.
Qed.

Lemma expected_insert m k s p now k' :
  length p = 32%nat ->
  expected_tip (<[k := mkTip s p now]> m) k' = if str_eqb k k' then (u32 (s + 1), p) else expected_tip m k'.
Proof.
  intros Hp. unfold expected_tip. destruct (str_eqb k k') eqn:Ek.
  - apply str_eqb_eq in Ek as ->. rewrite lookup_insert_eq. cbn [tc_Seq tc_PrevHash].
    unfold slen. by rewrite Hp.
  - rewrite lookup_insert_ne; [done|]. intros ->. by rewrite str_eqb_refl in Ek.
Qed.

Definition seqs_below (N : Z) (m : gmap str TripChain) : Prop :=
  forall k ch, m !! k = Some ch -> 0 <= tc_Seq ch <= N.

Lemma expected_seq m N k : 0 <= N -> seqs_below N m -> N + 1 < 2 ^ 32 -> 0 <= (expected_tip m k).1 <= N + 1.
Proof.
  intros HN Hm Hb. unfold expected_tip. destruct (m !! k) as [ch|] eqn:E'; [|cbn; lia].
  specialize (Hm _ _ E'). cbn [fst]. rewrite u32_small by (unfold is_u32; lia). lia.
Qed.

Lemma run_signed_linked l key : forall m N,
  0 <= N -> seqs_below N m -> N + Z.of_nat (length l) + 1 < 2 ^ 32 ->
  linked_from (expected_tip m key).1 (expected_tip m key).2 (lines_of key (run_signed m l).1).
Proof.
  induction l as [|x l IH]; intros m N HN Hm Hb; [done|]. cbn [run_signed length] in *.
  destruct (accept_signed _ _ _ _ _ _) as [[[text r] m1]|] eqn:Ea; [|apply (IH m N); [done|done|lia]].
  apply accept_signed_inv in Ea as (_ & _ & Hv & Hseq & Hprev & ->).
  set (k := ToLower (te_Pub (a_env x))) in *. pose proof (expected_seq m N k HN Hm ltac:(lia)) as Hex.
  destruct (verify_result _ _ Hv) as (_ & Rs & Rp & _). cbn [vp_Seq vp_PrevHex] in Rs, Rp.
  destruct (verify_newprev _ _ _ Hv Hprev) as (sig & mh & _ & _ & HNew).
  assert (length (vr_NewPrev r) = 32%nat) as Hlen by (rewrite HNew; apply length_sha256).
  specialize (IH (<[k := mkTip (te_Seq (a_env x)) (vr_NewPrev r) (a_now x)]> m) (N + 1) ltac:(lia)).
  destruct (run_signed _ l) as [rs m2]. cbn [fst] in *.
  rewrite (expected_insert _ _ _ _ _ _ Hlen) in IH. unfold lines_of in *. cbn [List.filter fst].
  assert (seqs_below (N + 1) (<[k := mkTip (te_Seq (a_env x)) (vr_NewPrev r) (a_now x)]> m)) as Hm'.
  { intros k' ch [[_ <-]|[_ Hc]]%lookup_insert_Some; [cbn; rewrite Hseq; lia|]. specialize (Hm _ _ Hc). lia. }
  specialize (IH Hm' ltac:(lia)). destruct (str_eqb k key) eqn:Ek; [|exact IH].
  apply str_eqb_eq in Ek as <-. cbn [map snd linked_from]. rewrite Rs, Rp, Hseq, Hprev.
  split; [done|]. split; [done|]. split; [by exists sig, mh|].
  cbn [fst snd] in IH. rewrite Hseq, u32_small in IH by (unfold is_u32; lia). exact IH.
Qed.


(** ** Boot rebuilds the tips *)

(** The line [ReadPump] broadcasts. *)
Definition chat_wire (clock name text : str) (t : option TripMeta) (tid rt : Z) (sent : str) : WireMessage :=
  mkWire (lit "chat") clock name [] 0 [] 0 0 0 [] [] [] text t tid rt [] [] 0 0 0 sent.

(** What reaches the history: an accepted signed line with the fields the
    chain service sets, or a record without a signature. *)
Inductive live_op :=
| LSigned (x : attempt) (ts clock sent prev hash : str) (height ver seq : Z) (exposed : bool)
| LOther (rec : historyRecord).

Definition unsigned (rec : historyRecord) : Prop :=
  match hr_Wire rec with Some w => wm_Trip w = None | None => True end.

(** The tips after each operation, and the records stored. *)
Fixpoint live_run (m : gmap str TripChain) (ops : list live_op) : list historyRecord * gmap str TripChain :=
  match ops with
  | [] => ([], m)
  | LOther rec :: ops' => let '(rs, m2) := live_run m ops' in (rec :: rs, m2)
  | LSigned x ts clock sent prev hash height ver seq exposed :: ops' =>
      match accept_signed (a_now x) m (a_pub x) (a_name x) serverID (a_env x) with
      | Err _ => live_run m ops'
      | Ok (text, r, m1) =>
          let w := chat_wire clock (a_name x) text (Some (meta_of (a_name x) (a_env x) r exposed))
                     (te_TmpID (a_env x)) (te_ReplyTo (a_env x)) sent in
          let w := set_Seq (set_link w prev hash height ver) seq in
          let '(rs, m2) := live_run m1 ops' in (mkRecord seq ts [] (Some w) :: rs, m2)
      end
  end.

(** Clients send their fields as lower-case hex. *)
Definition hex_fields (op : live_op) : Prop :=
  match op with
  | LSigned x _ _ _ _ _ _ _ _ _ =>
      lower_hex (te_Pub (a_env x)) = true /\ lower_hex (te_Sig (a_env x)) = true /\ lower_hex (te_Prev (a_env x)) = true
  | LOther rec => unsigned rec
  end.

(** Tips agree up to the time they were seen. *)
Definition same_tips (m b : gmap str TripChain) : Prop :=
  forall k, match m !! k, b !! k with
            | Some x, Some y => tc_Seq x = tc_Seq y /\ tc_PrevHash x = tc_PrevHash y /\ length (tc_PrevHash x) = 32%nat
            | None, None => True
            | _, _ => False
            end.
End live.

Section boot.
Context {U : Unicode} {E : Ed25519}.
Variable serverID : option str.
Variables (maxBytes : Z) (now : time).

Lemma backfill_wire lastSeq rec :
  match hr_Wire rec, hr_Wire (backfill lastSeq rec).2 with
  | Some w, Some w' => wm_Trip w' = wm_Trip w /\ wm_Text w' = wm_Text w /\ wm_DisplayName w' = wm_DisplayName w
  | None, None => True
  | _, _ => False
  end.
Proof.
  unfold backfill. destruct rec as [sq ts msg [w|]]; cbn [hr_Seq hr_Wire hr_Timestamp hr_Message].
  - destruct (sq =? 0); cbn [hr_Seq hr_Wire hr_Timestamp hr_Message]; destruct (wm_Seq w =? 0);
      cbn [snd hr_Wire]; by destruct w.
  - by destruct (sq =? 0).
Qed.

Lemma boot_record_unsigned st rec :
  unsigned rec -> TripChains (b_trips (boot_record maxBytes now serverID st rec)) = TripChains (b_trips st).
Proof.
  intros Hu. pose proof (backfill_wire (b_lastSeq st) rec) as Hb. unfold boot_record.
  destruct (backfill _ rec) as [ls rec']. cbn [snd] in Hb. unfold unsigned in Hu.
  destruct (recordLine rec') as [line|]; [|done]. destruct (hr_Wire rec) as [w|], (hr_Wire rec') as [w'|]; try done.
  destruct Hb as (-> & _ & _). rewrite Hu. by destruct (boot_reveal _ _ _ _ _).
Qed.

Lemma boot_record_signed st rec w t pv nw :
  hr_Wire rec = Some w -> wm_Trip w = Some t -> tm_Pub t <> [] -> boot_verify serverID w t = Some (pv, nw) ->
  TripChains (b_trips (boot_record maxBytes now serverID st rec)) =
  boot_fold now (TripChains (b_trips st)) t pv nw.
Proof.
  intros Hw Ht Hp Hv. pose proof (backfill_wire (b_lastSeq st) rec) as Hb. unfold boot_record.
  destruct (backfill _ rec) as [ls rec']. cbn [snd] in Hb. rewrite Hw in Hb.
  destruct (hr_Wire rec') as [w'|] eqn:Ew; [|done]. destruct Hb as (E1 & E2 & E3).
  unfold recordLine at 1. rewrite Ew, E1, Ht. destruct (boot_reveal _ _ _ _ _) as [exposed registry].
  rewrite (proj2 (str_eqb_neq _ _) Hp).
  assert (boot_verify serverID w' t = Some (pv, nw)) as -> by (unfold boot_verify in *; by rewrite E2, E3).
  destruct (if bool_decide _ then _ else _) as [[] registry']; [|done].
  by destruct (recordLine (set_wire rec' _)).
Qed.

Lemma verify_canon p q :
  vp_Text p = vp_Text q -> vp_DisplayName p = vp_DisplayName q -> canon (vp_ServerPub p) = canon (vp_ServerPub q) ->
  canon (vp_PubHex p) = canon (vp_PubHex q) -> vp_Seq p = vp_Seq q -> canon (vp_PrevHex p) = canon (vp_PrevHex q) ->
  canon (vp_SigHex p) = canon (vp_SigHex q) -> canon (vp_MsgHashHex p) = canon (vp_MsgHashHex q) ->
  vp_TmpID p = vp_TmpID q -> vp_ReplyTo p = vp_ReplyTo q -> vp_SkipTextCheck p = vp_SkipTextCheck q ->
  trip_Verify p = trip_Verify q.
Proof. intros E1 E2 E3 E4 E5 E6 E7 E8 E9 E10 E11. unfold trip_Verify. by rewrite E1, E2, E3, E4, E5, E6, E7, E8, E9, E10, E11. Qed.

Lemma lower_hex_canon' s : lower_hex s = true -> canon s = s.
Proof. apply lower_hex_canon. Qed.

(** A stored line verifies at boot with what it was accepted with. *)
Lemma boot_verify_stored m nw spub name e text r m' exposed w :
  match serverID with Some k => lower_hex k = true | None => True end ->
  lower_hex (te_Pub e) = true -> lower_hex (te_Sig e) = true -> lower_hex (te_Prev e) = true ->
  accept_signed nw m spub name serverID e = Ok (text, r, m') ->
  wm_Text w = text -> wm_DisplayName w = name ->
  boot_verify serverID w (meta_of name e r exposed) = Some ((expected_tip m (te_Pub e)).2, vr_NewPrev r).
Proof.
  intros Hid Hp Hs Hpv Ha Hw1 Hw2. apply accept_signed_inv in Ha as (_ & _ & Hv & _ & Hprev & _).
  rewrite (lower_hex_ToLower _ Hp) in *.
  destruct (verify_result _ _ Hv) as (R1 & R2 & R3 & R4 & R5 & R6).
  destruct (verify_newprev _ _ _ Hv Hprev) as (sig & mh & Dsig & Dmh & HN).
  cbn [vp_PubHex vp_Seq vp_PrevHex vp_SigHex vp_MsgHashHex vp_ServerPub] in *.
  rewrite (lower_hex_canon' _ Hp) in R1. rewrite (lower_hex_canon' _ Hs) in R4. rewrite (lower_hex_canon' _ Hpv) in R3, Hprev.
  rewrite lower_hex_canon' in R5 by apply hex_encode_lower.
  assert (forall k, serverID = Some k -> ToLower k = k /\ canon k = k) as Hk.
  { intros k ->. split; [by apply lower_hex_ToLower|by apply lower_hex_canon']. }
  unfold boot_verify, meta_of.
  cbn [tm_DisplayName tm_ServerPub tm_Pub tm_Seq tm_Prev tm_Sig tm_MsgHash tm_TmpID tm_ReplyTo].
  rewrite (verify_canon _ (mkVerify text name (match serverID with Some k => ToLower k | None => [] end) (te_Pub e)
    (te_Seq e) (te_Prev e) (te_Sig e) (hex_encode (sha256 text)) (te_TmpID e) (te_ReplyTo e) false)), Hv;
    cbn [vp_Text vp_DisplayName vp_ServerPub vp_PubHex vp_Seq vp_PrevHex vp_SigHex vp_MsgHashHex vp_TmpID vp_ReplyTo vp_SkipTextCheck];
    try done; try congruence.
  - rewrite R3, R4, R5 in *. rewrite hex_decode_encode in Dmh. injection Dmh as <-.
    rewrite Hprev, !hex_decode_encode, Dsig. cbn [mbind option_bind]. by rewrite HN.
  - rewrite Hw2. by destruct name.
  - rewrite R6. destruct serverID as [k|]; [|done]. destruct (Hk k eq_refl) as [-> E2]. rewrite E2.
    destruct k; [done|exact E2].
Qed.

Lemma fold_same_tips m b e t nwp N live_now :
  same_tips m b -> seqs_below N m -> N + 1 < 2 ^ 32 -> 0 <= N -> length nwp = 32%nat ->
  tm_Pub t = te_Pub e -> tm_Seq t = (expected_tip m (te_Pub e)).1 ->
  same_tips (<[te_Pub e := mkTip (tm_Seq t) nwp live_now]> m)
            (boot_fold now b t (expected_tip m (te_Pub e)).2 nwp).
Proof.
  intros Hst Hb HN HN0 Hlen Hp Hs. unfold boot_fold. rewrite Hp.
  assert (forall b', b' = <[te_Pub e := mkTip (tm_Seq t) nwp now]> b ->
    same_tips (<[te_Pub e := mkTip (tm_Seq t) nwp live_now]> m) b') as Hins.
  { intros b' ->. intros k. destruct (decide (te_Pub e = k)) as [<-|Hne].
    - by rewrite !lookup_insert_eq.
    - rewrite !lookup_insert_ne by done. apply Hst. }
  specialize (Hst (te_Pub e)). unfold expected_tip in *.
  destruct (m !! te_Pub e) as [ch|] eqn:Em, (b !! te_Pub e) as [cb|] eqn:Eb; try done; cbn [fst snd] in *.
  - destruct Hst as (S1 & S2 & S3). specialize (Hb _ _ Em).
    rewrite u32_small in Hs by (unfold is_u32; lia). unfold applyTripChain. cbn [negb]. rewrite <- S1, <- S2, Hs in *.
    replace (tc_Seq ch + 1 <=? tc_Seq ch) with false by lia. rewrite u32_small by (unfold is_u32; lia).
    rewrite Z.eqb_refl. unfold slen. rewrite S3. cbn [Z.of_nat Z.eqb Pos.eqb Pos.of_succ_nat Pos.succ].
    rewrite str_eqb_refl. cbn [andb tc_Seq tc_PrevHash]. by apply Hins.
  - unfold applyTripChain. cbn [negb tc_Seq tc_PrevHash]. by apply Hins.
Qed.

Lemma boot_run_tips ops : forall m st N,
  match serverID with Some k => lower_hex k = true | None => True end ->
  Forall hex_fields ops -> 0 <= N -> seqs_below N m -> N + Z.of_nat (length ops) + 1 < 2 ^ 32 ->
  same_tips m (TripChains (b_trips st)) ->
  same_tips (live_run serverID m ops).2
    (TripChains (b_trips (boot_records maxBytes now serverID st (live_run serverID m ops).1))).
Proof.
  induction ops as [|op ops IH]; intros m st N Hid Hf HN Hm Hb Hst; [done|].
  apply Forall_cons in Hf as [Hop Hf]. cbn [live_run length] in *. destruct op as [x ts clock sent prev hash height ver sq exposed|rec].
  - destruct (accept_signed _ _ _ _ _ _) as [[[text r] m1]|] eqn:Ea; [|apply (IH m st N); try done; lia].
    destruct Hop as (H1 & H2 & H3).
    set (w := set_Seq (set_link (chat_wire _ _ _ _ _ _ _) _ _ _ _) _).
    pose proof (boot_verify_stored m _ _ _ _ _ _ _ exposed w Hid H1 H2 H3 Ea eq_refl eq_refl) as Hv.
    pose proof (accept_signed_inv _ _ _ _ _ _ _ _ _ Ea) as (_ & _ & Hv0 & Hseq & Hprev & Em1).
    rewrite (lower_hex_ToLower _ H1) in *. pose proof (expected_seq m N (te_Pub (a_env x)) HN Hm ltac:(lia)) as Hex.
    destruct (verify_result _ _ Hv0) as (R1 & R2 & _). cbn [vp_PubHex vp_Seq] in R1, R2. rewrite lower_hex_canon' in R1 by done.
    destruct (verify_newprev _ _ _ Hv0 Hprev) as (sig & mh & _ & _ & HNew).
    assert (length (vr_NewPrev r) = 32%nat) as Hlen by (rewrite HNew; apply length_sha256).
    set (t := meta_of (a_name x) (a_env x) r exposed) in *.
    assert (tm_Pub t <> []) as Hpub.
    { unfold t, meta_of. cbn [tm_Pub]. rewrite R1. intros E0. unfold accept_signed in Ea. rewrite E0 in Ea.
      destruct (env_text _); [done|]. destruct (ValidateMessage _); [|done]. by destruct (_ && _). }
    specialize (IH m1 (boot_record maxBytes now serverID st (mkRecord sq ts [] (Some w))) (N + 1) Hid Hf ltac:(lia)).
    destruct (live_run serverID m1 ops) as [rs m2]. cbn [fst snd] in *. apply IH; [|lia|].
    + rewrite Em1. intros k' ch [[_ <-]|[_ Hc]]%lookup_insert_Some; [cbn; rewrite Hseq; lia|].
      specialize (Hm _ _ Hc). lia.
    + rewrite (boot_record_signed st (mkRecord sq ts [] (Some w)) w t _ _ eq_refl eq_refl Hpub Hv), Em1.
      apply (fold_same_tips m _ (a_env x) t (vr_NewPrev r) N (a_now x)) in Hst; try done; try lia.
      * assert (tm_Seq t = te_Seq (a_env x)) as Et by done. by rewrite Et in Hst.
      * unfold t, meta_of. cbn [tm_Seq]. by rewrite R2.
  - specialize (IH m (boot_record maxBytes now serverID st rec) N Hid Hf HN Hm ltac:(lia)).
    destruct (live_run serverID m ops) as [rs m2]. cbn [fst snd] in *. apply IH.
    by rewrite boot_record_unsigned.
Qed.
End boot.


(** ** The exposed registry holds proofs only *)

Section registry.
Context {U : Unicode} {E : Ed25519}.

(** The seed kept with a key derives it. *)
Definition proves (k : str) (e : exposedEntry) : Prop :=
  exists raw, VerifySeed raw k = true /\ ex_Seed e = ToLower raw.

Definition all_prove (m : gmap str exposedEntry) : Prop := map_Forall proves m.

Lemma mark_proves (now : time) m k (at_ : time) seed :
  all_prove m -> VerifySeed seed k = true -> all_prove (markTripExposedAt now m k at_ seed).
Proof.
  intros Hm Hs. unfold markTripExposedAt. destruct (_ <? _); [done|].
  destruct (prune_facts ex_At exposedTripsTTL maxExposedTrips now
    (<[k := mkExposed (if IsZero at_ then now else at_) (ToLower seed)]> m)) as (Hsub & _).
  unfold pruneExposedTrips. intros k' e Hk'. eapply map_subseteq_spec in Hk'; [|exact Hsub].
  apply map_lookup_filter_Some in Hk' as [Hk' _].
  apply lookup_insert_Some in Hk' as [[<- <-]|[_ Hk']]; [by exists seed|by apply Hm].
Qed.

Lemma load_proves (now : time) m k (at_ : time) : all_prove m -> all_prove (loadExposedEntry now m k at_).2.
Proof.
  intros Hm. unfold loadExposedEntry. destruct (m !! k) as [e|] eqn:Ek; [|done].
  destruct (str_eqb _ _); [by apply map_Forall_delete|]. destruct (_ <? _); [by apply map_Forall_delete|].
  destruct (_ && _); [|done]. cbn [snd]. apply map_Forall_insert_2; [|done].
  destruct (Hm _ _ Ek) as (raw & H1 & H2). by exists raw.
Qed.

Lemma isExposed_snd (now : time) m k (at_ : time) : (isTripExposedAt now m k at_).2 = (loadExposedEntry now m k at_).2.
Proof. unfold isTripExposedAt. by destruct (loadExposedEntry _ _ _ _). Qed.

Lemma boot_reveal_proves (now rt : time) exposed m w : all_prove m -> all_prove (boot_reveal now rt exposed m w).2.
Proof.
  intros Hm. unfold boot_reveal. destruct (_ && _); [|done]. cbv zeta.
  destruct (negb _ && VerifySeed _ _) eqn:Ev; [|done]. cbn [snd]. apply andb_true_iff in Ev as [_ Ev].
  by apply mark_proves.
Qed.

Lemma boot_record_proves maxBytes (now : time) serverID st rec :
  all_prove (ExposedTrips (b_trips st)) ->
  all_prove (ExposedTrips (b_trips (boot_record maxBytes now serverID st rec))).
Proof.
  intros Hm. unfold boot_record. destruct (backfill _ rec) as [ls rec'].
  destruct (recordLine rec') as [line|]; [|done]. destruct (hr_Wire rec') as [w|]; [|done].
  pose proof (boot_reveal_proves now (record_time (hr_Timestamp rec')) (b_exposed st) _ w Hm) as Hr.
  destruct (boot_reveal _ _ _ _ w) as [exposed registry]. cbn [snd] in Hr.
  destruct (wm_Trip w) as [t|]; [|done]. destruct (str_eqb _ _); [done|].
  destruct (boot_verify _ _ _) as [[pv nw]|]; [|done].
  pose proof (load_proves now registry (tm_Pub t) (record_time (hr_Timestamp rec')) Hr) as Hl.
  rewrite <- isExposed_snd in Hl.
  assert (all_prove (if bool_decide (tm_Pub t ∈ exposed) then (true, registry)
            else isTripExposedAt now registry (tm_Pub t) (record_time (hr_Timestamp rec'))).2) as H2
    by by destruct (bool_decide _).
  destruct (if bool_decide _ then _ else _) as [flag registry']. cbn [snd] in H2.
  by destruct (if flag then _ else _).
Qed.

(** What touches the registry of a running server. *)
Inductive registry_op :=
| RLookup (now : time) (key : str)
| RReveal (now : time) (clock : str) (muted allowed : bool) (session_pub session_badge seed sig : str).

Definition registry_step (m : gmap str exposedEntry) (op : registry_op) : gmap str exposedEntry :=
  match op with
  | RLookup now key => (isTripExposed now m key).2
  | RReveal now clock muted allowed pub badge seed sig =>
      (handleTripReveal now clock muted allowed m pub badge seed sig).2
  end.

Lemma reveal_proves (now : time) clock muted allowed m pub badge seed sig :
  all_prove m -> all_prove (handleTripReveal now clock muted allowed m pub badge seed sig).2.
Proof.
  intros Hm. unfold handleTripReveal. destruct pub as [|c pub]; [done|]. cbv zeta.
  destruct (VerifySeed _ _) eqn:Ev; cbn [negb]; [|done]. destruct (negb (VerifyReveal _ _)); [done|].
  pose proof (load_proves now m (ToLower (c :: pub)) now Hm) as Hl. rewrite <- isExposed_snd in Hl. fold (isTripExposed now m (ToLower (c :: pub))) in Hl.
  destruct (isTripExposed _ _ _) as [ex m']. cbn [snd] in Hl. destruct ex; [done|]. destruct muted; [done|].
  destruct allowed; [|done]. cbn [negb snd]. unfold markTripExposed. by apply mark_proves.
Qed.

(** Nobody is flagged without public proof: after a boot on any stored
    records and any sequence of lookups and reveal attempts, every key of the
    registry is kept with a seed that derives it, so no client can flag
    another's key. *)
Theorem registry_sound maxBytes (now : time) serverID c recs ops :
  all_prove (fold_left registry_step ops
    (ExposedTrips (b_trips (boot_records maxBytes now serverID (mkBoot 0 ∅ (mkTrips ∅ ∅) c) recs)))).
Proof.
  assert (forall st, all_prove (ExposedTrips (b_trips st)) ->
    all_prove (ExposedTrips (b_trips (boot_records maxBytes now serverID st recs)))) as Hboot.
  { induction recs as [|rec recs IH]; [done|]. intros st Hst. cbn [boot_records fold_left]. by apply IH, boot_record_proves. }
  specialize (Hboot (mkBoot 0 ∅ (mkTrips ∅ ∅) c) (map_Forall_empty _)). revert Hboot.
  generalize (ExposedTrips (b_trips (boot_records maxBytes now serverID (mkBoot 0 ∅ (mkTrips ∅ ∅) c) recs))).
  induction ops as [|op ops IH]; intros m Hm; [done|]. cbn [fold_left]. apply IH. destruct op; cbn [registry_step].
  - unfold isTripExposed. rewrite isExposed_snd. by apply load_proves.
  - by apply reveal_proves.
Qed.
End registry.

(** ** Concrete runs *)

Definition toy_attempt (seq : Z) (prev : str) (text : str) : attempt :=
  let pub := ed_pub (Ed25519 := toy_ed25519) toy_seed in
  mkAttempt 5 [] (lit "An")
    (mkEnvelope text [] (hex_encode pub) seq (hex_encode prev)
       (hex_encode (ed_sign (Ed25519 := toy_ed25519) toy_seed
          (CanonicalPayload [] seq prev (sha256 text) pub (lit "An") 7 0))) [] 7 0).

Definition toy_ops : list live_op :=
  [LSigned (toy_attempt 1 zero32 (lit "hi")) (lit "t") (lit "15:04") [] [] [] 1 2 1 false;
   LOther (mkRecord 2 (lit "t") (lit "notice") None);
   LSigned (toy_attempt 1 zero32 (lit "replay")) (lit "t") (lit "15:04") [] [] [] 2 2 3 false].


(** The first is accepted, the replay of its number is not. *)
Example toy_accepted :
  length (run_signed (U := sample_unicode) (E := toy_ed25519) None ∅
    [toy_attempt 1 zero32 (lit "hi"); toy_attempt 1 zero32 (lit "replay")]).1 = 1%nat.
Proof. vm_compute. reflexivity. Qed.

