(* ===== verification/Behavior.v ===== *)
(** Behaviour scoring ([internal/behavior]): the per-address profile and its
    capped event rings, the anomaly features, the aggregation of suspicion, the
    tier hysteresis, the group score, the attack scale, the calibration
    histogram and the capped profile store.  Floating point is binary64
    ({!Floats}); the clock and the iteration order of Go maps are arguments. *)

From S2P Require Import Prelude Bytes Floats.
Local Open Scope Z_scope.

(** * Profiles (behavior.go) *)

Definition maxRing : nat := 512.

(** [IdGuest], [IdTrip] and [IdKey]. *)
Inductive IdentityKind := IdGuest | IdTrip | IdKey.
Definition rank (k : IdentityKind) : Z := match k with IdGuest => 0 | IdTrip => 1 | IdKey => 2 end.

Record HTTPEvent := mkHTTP { he_Time : time; he_Class : str; he_Status : Z }.
Record ErrEvent := mkErr { ee_Time : time; ee_Code : str }.

Record Profile := mkProfile {
  p_FirstSeen : time;
  p_LastSeen : time;
  p_Conns : list time;
  p_Discs : list time;
  p_Msgs : list time;
  p_HistReq : list time;
  p_Challenges : list time;
  p_HTTP : list HTTPEvent;
  p_Errs : list ErrEvent;
  p_Identity : IdentityKind;
  p_IdentityCount : Z;
  p_Blocklisted : bool;
  p_TotalConns : Z;
  p_TotalMsgs : Z;
  p_Tier : Z
}.

Definition emptyProfile : Profile := mkProfile 0 0 [] [] [] [] [] [] [] IdGuest 0 false 0 0 0.

Definition appendCappedTime (dst : list time) (t : time) : list time :=
  let dst := dst ++ [t] in
  if (maxRing <? length dst)%nat then drop (length dst - maxRing) dst else dst.

(** The rings of events trim before they append. *)
Definition appendCapped {A} (dst : list A) (e : A) : list A :=
  (if (maxRing <=? length dst)%nat then drop (length dst - maxRing + 1) dst else dst) ++ [e].

Section profile.
Variable p : Profile.

Definition touch (t : time) : Profile :=
  mkProfile (if IsZero (p_FirstSeen p) then t else p_FirstSeen p) t (p_Conns p) (p_Discs p) (p_Msgs p) (p_HistReq p)
    (p_Challenges p) (p_HTTP p) (p_Errs p) (p_Identity p) (p_IdentityCount p) (p_Blocklisted p)
    (p_TotalConns p) (p_TotalMsgs p) (p_Tier p).

(** The profile with other rings and counters. *)
Definition with_rings (conns discs msgs hist chal : list time) (http : list HTTPEvent) (errs : list ErrEvent)
    (totalConns totalMsgs : Z) : Profile :=
  mkProfile (p_FirstSeen p) (p_LastSeen p) conns discs msgs hist chal http errs (p_Identity p) (p_IdentityCount p)
    (p_Blocklisted p) totalConns totalMsgs (p_Tier p).

(** The profile with another identity kind, identity count, block mark or tier. *)
Definition with_marks (id : IdentityKind) (count : Z) (blocked : bool) (tier : Z) : Profile :=
  mkProfile (p_FirstSeen p) (p_LastSeen p) (p_Conns p) (p_Discs p) (p_Msgs p) (p_HistReq p) (p_Challenges p) (p_HTTP p)
    (p_Errs p) id count blocked (p_TotalConns p) (p_TotalMsgs p) tier.
End profile.

Definition AddConnect (p : Profile) (t : time) : Profile :=
  let p := touch p t in
  with_rings p (appendCappedTime (p_Conns p) t) (p_Discs p) (p_Msgs p) (p_HistReq p) (p_Challenges p) (p_HTTP p) (p_Errs p)
    (i64 (p_TotalConns p + 1)) (p_TotalMsgs p).

Definition AddDisconnect (p : Profile) (t : time) : Profile :=
  let p := touch p t in
  with_rings p (p_Conns p) (appendCappedTime (p_Discs p) t) (p_Msgs p) (p_HistReq p) (p_Challenges p) (p_HTTP p) (p_Errs p)
    (p_TotalConns p) (p_TotalMsgs p).

Definition AddMessage (p : Profile) (t : time) : Profile :=
  let p := touch p t in
  with_rings p (p_Conns p) (p_Discs p) (appendCappedTime (p_Msgs p) t) (p_HistReq p) (p_Challenges p) (p_HTTP p) (p_Errs p)
    (p_TotalConns p) (i64 (p_TotalMsgs p + 1)).

Definition AddHistoryReq (p : Profile) (t : time) : Profile :=
  let p := touch p t in
  with_rings p (p_Conns p) (p_Discs p) (p_Msgs p) (appendCappedTime (p_HistReq p) t) (p_Challenges p) (p_HTTP p) (p_Errs p)
    (p_TotalConns p) (p_TotalMsgs p).

Definition AddChallenge (p : Profile) (t : time) : Profile :=
  let p := touch p t in
  with_rings p (p_Conns p) (p_Discs p) (p_Msgs p) (p_HistReq p) (appendCappedTime (p_Challenges p) t) (p_HTTP p) (p_Errs p)
    (p_TotalConns p) (p_TotalMsgs p).

Definition AddHTTP (p : Profile) (e : HTTPEvent) : Profile :=
  let p := touch p (he_Time e) in
  with_rings p (p_Conns p) (p_Discs p) (p_Msgs p) (p_HistReq p) (p_Challenges p) (appendCapped (p_HTTP p) e) (p_Errs p)
    (p_TotalConns p) (p_TotalMsgs p).

Definition AddErr (p : Profile) (e : ErrEvent) : Profile :=
  let p := touch p (ee_Time e) in
  with_rings p (p_Conns p) (p_Discs p) (p_Msgs p) (p_HistReq p) (p_Challenges p) (p_HTTP p) (appendCapped (p_Errs p) e)
    (p_TotalConns p) (p_TotalMsgs p).

Definition SetIdentity (p : Profile) (k : IdentityKind) : Profile :=
  with_marks p (if rank (p_Identity p) <? rank k then k else p_Identity p) (p_IdentityCount p) (p_Blocklisted p) (p_Tier p).

Definition SetBlocklisted (p : Profile) : Profile :=
  with_marks p (p_Identity p) (p_IdentityCount p) true (p_Tier p).

(** * Calibration histogram (stats.go) *)

Record Stats := mkStats { st_tiers : gmap Z Z; st_total : Z }.

Definition NewStats : Stats := mkStats ∅ 0.

Definition Observe (s : Stats) (tier : Z) : Stats :=
  if tier <? 0 then s
  else mkStats (<[tier := i64 (default 0 (st_tiers s !! tier) + 1)]> (st_tiers s)) (i64 (st_total s + 1)).

Definition SnapshotAndReset (s : Stats) : gmap Z Z * Stats := (st_tiers s, mkStats ∅ 0).

(** * Features (feature.go) *)

Definition clamp01 (x : f64) : f64 := if flt x f0 then f0 else if fgt x f1 then f1 else x.

Definition Ramp (x lo hi : f64) (highBad : bool) : f64 :=
  if fle hi lo then
    if highBad then (if flt x hi then f0 else f1) else (if flt x hi then f1 else f0)
  else if highBad then clamp01 (fdiv (fsub x lo) (fsub hi lo))
  else clamp01 (fdiv (fsub hi x) (fsub hi lo)).

Definition since (ts : list time) (cut : time) : list time := List.filter (fun t => negb (Before t cut)) ts.

(** The sums over the non-negative gaps. *)
Fixpoint gap_sums (prev : time) (ts : list time) (sum sum2 : f64) (n : Z) : f64 * f64 * Z :=
  match ts with
  | [] => (sum, sum2, n)
  | t :: ts' =>
      let d := Seconds (Sub t prev) in
      if flt d f0 then gap_sums t ts' sum sum2 n
      else gap_sums t ts' (fadd sum d) (fadd sum2 (fmul d d)) (n + 1)
  end.

Definition intervalsCV (ts : list time) : option f64 :=
  if (length ts <? 3)%nat then None
  else match ts with
  | [] => None
  | t0 :: ts' =>
      let '(sum, sum2, n) := gap_sums t0 ts' f0 f0 0 in
      if (n <? 2) || fle sum f0 then None
      else
        let mean := fdiv sum (of_int n) in
        let variance := fsub (fdiv sum2 (of_int n)) (fmul mean mean) in
        if fle variance f0 then Some f0 else Some (fdiv (fsqrt variance) mean)
  end.

(** A location is the hour it shows at a time; [nil] is UTC. *)
Definition Location := time -> Z.
Definition UTC : Location := fun t => (t / Hour) mod 24.

Definition inNight (t : time) (loc : option Location) (start end_ : Z) : bool :=
  let h := default UTC loc t in
  if start <=? end_ then (start <=? h) && (h <? end_) else (start <=? h) || (h <? end_).

Fixpoint run_loop (gap : duration) (anchor prev : time) (best : f64) (ts : list time) : f64 :=
  let close := let d := Hours (Sub prev anchor) in if fgt d best then d else best in
  match ts with
  | [] => close
  | t :: ts' => if gap <? Sub t prev then run_loop gap t t close ts' else run_loop gap anchor t best ts'
  end.

Definition longestRun (ts : list time) (gap : duration) : f64 :=
  match ts with [] => f0 | t :: ts' => run_loop gap t t f0 ts' end.

Definition countErrPrefix (errs : list ErrEvent) (cut : time) (prefix : str) : Z :=
  Z.of_nat (length (List.filter (fun e => negb (Before (ee_Time e) cut) && has_prefix (ee_Code e) prefix) errs)).

Record FeatureParam := mkParam { fp_Weight : f64; fp_NMin : Z; fp_Lo : f64; fp_Hi : f64; fp_HighBad : bool }.

Record FeatureCtx := mkCtx {
  fc_Now : time;
  fc_Loc : option Location;
  fc_ShortWindow : duration;
  fc_LongWindow : duration;
  fc_GapWindow : duration;
  fc_NightStart : Z;
  fc_NightEnd : Z;
  fc_IdentityGuest : f64;
  fc_IdentityTrip : f64;
  fc_IdentityKey : f64
}.

Definition ErrProtoPrefix : str := lit "proto:".
Definition ErrAuthPrefix : str := lit "auth:".
Definition ErrEnvPrefix : str := lit "env:".

(** [FeatureID]; any other text has no value. *)
Inductive FeatureID :=
| F_RHYTHM | F_THROUGHPUT | F_NIGHT | F_CONTINUITY | F_CHURN | F_IDENTITY | F_IPREP | F_PROTOERR
| F_HTTP_RATE | F_HTTP_ERROR | F_ENDPOINT_FOCUS | F_AUTH_PROBE | F_ENVELOPE | F_CHALLENGE.

#[global] Instance FeatureID_eq_dec : EqDecision FeatureID.
Proof. solve_decision. Defined.

(** The busiest class of a list of events. *)
Definition class_peak (es : list HTTPEvent) : Z :=
  fold_left (fun peak e => Z.max peak
    (Z.of_nat (length (List.filter (fun e' => str_eqb (he_Class e') (he_Class e)) es)))) es 0.

Definition zlen {A} (l : list A) : Z := Z.of_nat (length l).

(** [None] is an insufficient sample. *)
Definition FeatureValue (p : Profile) (id : FeatureID) (fp : FeatureParam) (ctx : FeatureCtx) : option f64 :=
  let now := fc_Now ctx in
  let long := Add now (- fc_LongWindow ctx) in
  let short := Add now (- fc_ShortWindow ctx) in
  let ramp x high := Some (Ramp x (fp_Lo fp) (fp_Hi fp) high) in
  let counted n := if n <? fp_NMin fp then None else ramp (of_int n) true in
  let http := List.filter (fun e => negb (Before (he_Time e) short)) (p_HTTP p) in
  match id with
  | F_RHYTHM =>
      let msgs := since (p_Msgs p) long in
      if zlen msgs <? fp_NMin fp then None
      else match intervalsCV msgs with None => None | Some cv => ramp cv false end
  | F_THROUGHPUT =>
      let msgs := since (p_Msgs p) long in
      if zlen msgs <? fp_NMin fp then None
      else ramp (fdiv (of_int (zlen msgs)) (Hours (fc_LongWindow ctx))) true
  | F_NIGHT =>
      let msgs := since (p_Msgs p) long in
      if zlen msgs <? fp_NMin fp then None
      else
        let night := List.filter (fun t => inNight t (fc_Loc ctx) (fc_NightStart ctx) (fc_NightEnd ctx)) msgs in
        ramp (fdiv (of_int (zlen night)) (of_int (zlen msgs))) true
  | F_CONTINUITY =>
      if zlen (p_Msgs p) <? fp_NMin fp then None else ramp (longestRun (p_Msgs p) (fc_GapWindow ctx)) true
  | F_CHURN =>
      let conns := since (p_Conns p) long in
      if zlen conns <? fp_NMin fp then None
      else ramp (fdiv (of_int (zlen conns)) (Hours (fc_LongWindow ctx))) true
  | F_IDENTITY =>
      Some (match p_Identity p with
            | IdKey => fc_IdentityKey ctx | IdTrip => fc_IdentityTrip ctx | IdGuest => fc_IdentityGuest ctx end)
  | F_IPREP =>
      if p_Blocklisted p then Some f1
      else if p_IdentityCount p <? fp_NMin fp then None else ramp (of_int (p_IdentityCount p)) true
  | F_PROTOERR => counted (countErrPrefix (p_Errs p) long ErrProtoPrefix)
  | F_AUTH_PROBE => counted (countErrPrefix (p_Errs p) long ErrAuthPrefix)
  | F_ENVELOPE => counted (countErrPrefix (p_Errs p) long ErrEnvPrefix)
  | F_CHALLENGE => counted (zlen (since (p_Challenges p) long))
  | F_HTTP_RATE =>
      if zlen http <? fp_NMin fp then None
      else ramp (fdiv (of_int (zlen http)) (Minutes (fc_ShortWindow ctx))) true
  | F_HTTP_ERROR =>
      if zlen http <? fp_NMin fp then None
      else ramp (fdiv (of_int (zlen (List.filter (fun e => 400 <=? he_Status e) http))) (of_int (zlen http))) true
  | F_ENDPOINT_FOCUS =>
      if zlen http <? fp_NMin fp then None
      else ramp (fdiv (of_int (class_peak http)) (of_int (zlen http))) true
  end.

(** * Scores (score.go) *)

(** [math.Pow]. *)
Class MathPow := Pow : f64 -> f64 -> f64.

(** The weighted mean of the present features; [vals] and [params] are maps, the
    first in its iteration order. *)
Definition weighted (vals : list (FeatureID * f64)) (params : FeatureID -> option FeatureParam) : f64 * f64 :=
  fold_left (fun '(sum, wsum) '(id, v) =>
    match params id with
    | None => (sum, wsum)
    | Some fp =>
        if fle (fp_Weight fp) f0 then (sum, wsum)
        else (fadd sum (fmul (fp_Weight fp) v), fadd wsum (fp_Weight fp))
    end) vals (f0, f0).

Definition Aggregate {P : MathPow} (vals : list (FeatureID * f64)) (params : FeatureID -> option FeatureParam)
    (gamma fallback : f64) : f64 :=
  let '(sum, wsum) := weighted vals params in
  if fle wsum f0 then clamp01 fallback else Pow (clamp01 (fdiv sum wsum)) gamma.

(** [l[i]] for an index the caller has bounded. *)
Definition at_f (l : list f64) (i : Z) : f64 := nth (Z.to_nat i) l f0.

Fixpoint walk_up (fuel : nat) (s : f64) (enter : list f64) (maxTier cur : Z) : Z :=
  match fuel with
  | O => cur
  | S fuel' =>
      if (cur <? maxTier) && (cur + 1 <? zlen enter) && fge s (at_f enter (cur + 1))
      then walk_up fuel' s enter maxTier (cur + 1) else cur
  end.

Fixpoint walk_down (fuel : nat) (s : f64) (exit : list f64) (cur : Z) : Z :=
  match fuel with
  | O => cur
  | S fuel' =>
      if (0 <? cur) && (cur <? zlen exit) && flt s (at_f exit cur)
      then walk_down fuel' s exit (cur - 1) else cur
  end.

(** The loops take at most [maxTier] steps each. *)
Definition NextTier (s : f64) (cur : Z) (enter exit : list f64) (maxTier : Z) : Z :=
  let cur := if cur <? 0 then 0 else cur in
  let cur := if maxTier <? cur then maxTier else cur in
  let cur := walk_up (Z.to_nat maxTier) s enter maxTier cur in
  walk_down (Z.to_nat maxTier) s exit cur.

Definition GroupAggregate (scores : list f64) (beta : f64) : f64 :=
  match scores with
  | [] => f0
  | s0 :: _ =>
      if fle beta f0 then f0
      else
        let '(mx, sum) := fold_left (fun '(mx, sum) s => (if fgt s mx then s else mx, fadd sum s)) scores (s0, f0) in
        clamp01 (fmul beta (fadd (fmul (fconst 6 10) mx) (fdiv (fmul (fconst 4 10) sum) (of_int (zlen scores)))))
  end.

Definition Combine (own group : f64) : f64 := if fgt group own then group else own.

Definition AttackScale (reject conn ip bl : f64) (mode : str) (w : list f64) : f64 :=
  let rs := [clamp01 reject; clamp01 conn; clamp01 ip; clamp01 bl] in
  if str_eqb mode (lit "weighted") then
    let '(sum, wsum) := fold_left (fun '(sum, wsum) '(r, wi) =>
      if fgt wi f0 then (fadd sum (fmul wi r), fadd wsum wi) else (sum, wsum)) (combine rs w) (f0, f0) in
    if fle wsum f0 then f0 else clamp01 (fdiv sum wsum)
  else
    fold_left (fun mx r => if fgt r mx then r else mx) (tl rs) (hd f0 rs).

Definition ApplyBump (base : Z) (scale : f64) (maxBump tierMax : Z) : Z :=
  let bump := to_int (fround (fmul (clamp01 scale) (of_int maxBump))) in
  let out := i64 (base + bump) in
  if tierMax <? out then tierMax else if out <? 0 then 0 else out.

(** * Profile store (store.go) *)

Record Store := mkProfiles { s_items : gmap str Profile; s_cap : Z }.

Definition NewStore (cap : Z) : Store := mkProfiles ∅ cap.

Definition evictSample : nat := 16.

(** The stalest of the first entries of an iteration. *)
Definition stalest (l : list (str * Profile)) : option str :=
  match take evictSample l with
  | [] => None
  | (k0, p0) :: l' =>
      Some (fold_left (fun '(k, t) '(k', p) => if Before (p_LastSeen p) t then (k', p_LastSeen p) else (k, t))
              l' (k0, p_LastSeen p0)).1
  end.

(** [order] is the iteration order of the map at this call. *)
Definition store_Get (order : list (str * Profile)) (s : Store) (key : str) : Profile * Store :=
  match s_items s !! key with
  | Some p => (p, s)
  | None =>
      let items :=
        if (0 <? s_cap s) && (s_cap s <=? Z.of_nat (size (s_items s)))
        then match stalest order with Some k => delete k (s_items s) | None => delete [] (s_items s) end
        else s_items s in
      (emptyProfile, mkProfiles (<[key := emptyProfile]> items) (s_cap s))
  end.

Definition store_Len (s : Store) : Z := Z.of_nat (size (s_items s)).

Definition store_Peek (s : Store) (key : str) : option Profile := s_items s !! key.

Definition expired_profile (now : time) (retentionByTier : gmap Z duration) (def : duration) (p : Profile) : bool :=
  default def (retentionByTier !! p_Tier p) <? Sub now (p_LastSeen p).

(** The pruned keys and the set that is left. *)
Definition store_Prune (s : Store) (now : time) (retentionByTier : gmap Z duration) (def : duration) : list str * Store :=
  let gone := filter (fun kv => expired_profile now retentionByTier def kv.2 = true) (s_items s) in
  ((map_to_list gone).*1,
   mkProfiles (filter (fun kv => expired_profile now retentionByTier def kv.2 = false) (s_items s)) (s_cap s)).

(** The caller's update of the profile it got a pointer to. *)
Definition store_Update (s : Store) (key : str) (f : Profile -> Profile) : Store :=
  mkProfiles (alter f key (s_items s)) (s_cap s).

(** * Theorems *)

(** ** Hysteresis *)

Lemma walk_up_spec s enter maxTier : forall fuel cur,
  cur <= maxTier -> maxTier - cur <= Z.of_nat fuel ->
  let r := walk_up fuel s enter maxTier cur in
  cur <= r <= maxTier /\
  (forall k, cur < k <= r -> k < zlen enter /\ fge s (at_f enter k) = true) /\
  (r < maxTier -> r + 1 < zlen enter -> fge s (at_f enter (r + 1)) = false).
Proof.
  induction fuel as [|fuel IH]; intros cur Hc Hf; cbn [walk_up]; cbv zeta.
  { split; [lia|]. split; [lia|]. lia. }
  destruct (_ && _) eqn:E.
  - apply andb_true_iff in E as [E E3]. apply andb_true_iff in E as [E1 E2].
    destruct (IH (cur + 1) ltac:(lia) ltac:(lia)) as (H1 & H2 & H3). split; [lia|]. split; [|done].
    intros k Hk. destruct (decide (k = cur + 1)) as [->|Hne]; [split; [lia|done]|]. apply H2. lia.
  - split; [lia|]. split; [lia|]. intros H1 H2.
    apply andb_false_iff in E as [E|E]; [|done]. apply andb_false_iff in E as [E|E]; lia.
Qed.

Lemma walk_down_spec s exit : forall fuel cur,
  cur <= Z.of_nat fuel ->
  let r := walk_down fuel s exit cur in
  (r <= cur) /\ (0 <= cur -> 0 <= r) /\
  (forall k, r < k <= cur -> k < zlen exit /\ flt s (at_f exit k) = true) /\
  (0 < r -> r < zlen exit -> flt s (at_f exit r) = false).
Proof.
  induction fuel as [|fuel IH]; intros cur Hf; cbn [walk_down]; cbv zeta.
  { repeat split; try lia. }
  destruct (_ && _) eqn:E.
  - apply andb_true_iff in E as [E E3]. apply andb_true_iff in E as [E1 E2].
    destruct (IH (cur - 1) ltac:(lia)) as (H1 & H2 & H3 & H4). split; [lia|]. split; [lia|]. split; [|done].
    intros k Hk. destruct (decide (k = cur)) as [->|Hne]; [split; [lia|done]|]. apply H3. lia.
  - split; [lia|]. split; [done|]. split; [lia|]. intros H1 H2.
    apply andb_false_iff in E as [E|E]; [|done]. apply andb_false_iff in E as [E|E]; lia.
Qed.

Lemma walk_up_stop fuel s enter maxTier cur :
  (cur < maxTier -> cur + 1 < zlen enter -> fge s (at_f enter (cur + 1)) = false) ->
  walk_up fuel s enter maxTier cur = cur.
Proof.
  intros H. destruct fuel as [|fuel]; [done|]. cbn [walk_up]. destruct (_ && _) eqn:E; [|done].
  apply andb_true_iff in E as [E E3]. apply andb_true_iff in E as [E1 E2]. rewrite H in E3 by lia. done.
Qed.

Lemma walk_down_stop fuel s exit cur :
  (0 < cur -> cur < zlen exit -> flt s (at_f exit cur) = false) -> walk_down fuel s exit cur = cur.
Proof.
  intros H. destruct fuel as [|fuel]; [done|]. cbn [walk_down]. destruct (_ && _) eqn:E; [|done].
  apply andb_true_iff in E as [E E3]. apply andb_true_iff in E as [E1 E2]. rewrite H in E3 by lia. done.
Qed.

(** The tier is a well-behaved hysteresis: with every exit threshold at or
    below its entry threshold, one call lands on a tier in range and settles (a
    second call with the same score changes nothing); a rise crosses only
    thresholds the score entered, a fall only ones it left. *)
Theorem NextTier_hysteresis s cur enter exit maxTier :
  0 <= maxTier -> 0 <= cur <= maxTier ->
  (forall k, 0 < k <= maxTier -> k < zlen enter -> k < zlen exit -> fle (at_f exit k) (at_f enter k) = true) ->
  let r := NextTier s cur enter exit maxTier in
  0 <= r <= maxTier /\ NextTier s r enter exit maxTier = r /\
  (forall k, cur < k <= r -> fge s (at_f enter k) = true) /\
  (forall k, r < k <= cur -> flt s (at_f exit k) = true).
Proof.
  intros Hmax Hcur Hconf. cbv zeta.
  pose proof (walk_up_spec s enter maxTier (Z.to_nat maxTier) cur ltac:(lia) ltac:(lia)) as (U1 & U2 & U3).
  set (u := walk_up _ _ _ _ cur) in *.
  pose proof (walk_down_spec s exit (Z.to_nat maxTier) u ltac:(lia)) as (D1 & D2 & D3 & D4).
  assert (NextTier s cur enter exit maxTier = walk_down (Z.to_nat maxTier) s exit u) as Er.
  { unfold NextTier. replace (cur <? 0) with false by lia. cbv zeta. by replace (maxTier <? cur) with false by lia. }
  rewrite Er. set (r := walk_down _ _ _ u) in *.
  split; [split; [apply D2; lia|lia]|].
  split; [|split; [intros k Hk; apply U2; lia|intros k Hk; apply D3; lia]].
  assert (0 <= r) by (apply D2; lia).
  unfold NextTier. replace (r <? 0) with false by lia. cbv zeta. replace (maxTier <? r) with false by lia.
  rewrite walk_up_stop; [by apply walk_down_stop|]. intros H1 H2. destruct (decide (r = u)) as [Eu|Hne].
  - rewrite Eu in *. by apply U3.
  - destruct (D3 (r + 1) ltac:(lia)) as [Hx1 Hx2]. unfold fge.
    apply flt_not_le, (flt_le_trans _ _ _ Hx2), Hconf; lia.
Qed.

Lemma NextTier_hysteresis_witness :
  let enter := [f0; fconst 3 10; fconst 6 10] in
  let exit := [f0; fconst 2 10; fconst 5 10] in
  NextTier (fconst 55 100) 2 enter exit 2 = 2 /\
  NextTier (fconst 55 100) (NextTier (fconst 55 100) 0 enter exit 2) enter exit 2 = NextTier (fconst 55 100) 0 enter exit 2.
Proof.
  cbv zeta. split; [vm_compute; reflexivity|].
  apply (NextTier_hysteresis (fconst 55 100) 0 [f0; fconst 3 10; fconst 6 10] [f0; fconst 2 10; fconst 5 10] 2).
  - lia.
  - lia.
  - intros k Hk _ _. assert (k = 1 \/ k = 2) as [-> | ->] by lia; vm_compute; reflexivity.
Defined.

(** ** Suspicion stays in [0, 1] *)

Definition in_unit (x : f64) : Prop := fle f0 x = true /\ fle x f1 = true.

Lemma clamp01_unit x : is_nan (clamp01 x) = false -> in_unit (clamp01 x).
Proof.
  unfold clamp01, in_unit. destruct (flt x f0) eqn:E1; [by vm_compute|]. destruct (fgt x f1) eqn:E2; [by vm_compute|].
  intros Hn. split; apply not_flt_le; try done; by vm_compute.
Qed.

Lemma Ramp_unit x lo hi b : is_nan (Ramp x lo hi b) = false -> in_unit (Ramp x lo hi b).
Proof.
  unfold Ramp. destruct (fle hi lo); [destruct b; destruct (flt x hi); by vm_compute|].
  destruct b; apply clamp01_unit.
Qed.

Lemma fold_max_in (l : list f64) : forall m, fold_left (fun mx r => if fgt r mx then r else mx) l m ∈ m :: l.
Proof.
  induction l as [|x l IH]; intros m; cbn [fold_left]; [by left|].
  specialize (IH (if fgt x m then x else m)). destruct (fgt x m); set_solver.
Qed.

Lemma GroupAggregate_unit scores beta : is_nan (GroupAggregate scores beta) = false -> in_unit (GroupAggregate scores beta).
Proof.
  unfold GroupAggregate. destruct scores as [|s0 scores]; [by vm_compute|]. destruct (fle beta f0); [by vm_compute|].
  destruct (fold_left _ _ _) as [mx sum]. apply clamp01_unit.
Qed.

Lemma AttackScale_unit r c i b mode w :
  is_nan (AttackScale r c i b mode w) = false -> in_unit (AttackScale r c i b mode w).
Proof.
  unfold AttackScale. destruct (str_eqb _ _).
  - destruct (fold_left _ _ _) as [sum wsum]. destruct (fle wsum f0); [by vm_compute|]. apply clamp01_unit.
  - cbn [hd tl]. pose proof (fold_max_in [clamp01 c; clamp01 i; clamp01 b] (clamp01 r)) as Hin.
    set (m := fold_left _ _ _) in *. intros Hn.
    rewrite !elem_of_cons, elem_of_nil in Hin.
    destruct Hin as [H|[H|[H|[H|[]]]]]; rewrite H in *; by apply clamp01_unit.
Qed.

Lemma FeatureValue_unit p id fp ctx v :
  id <> F_IDENTITY -> FeatureValue p id fp ctx = Some v -> is_nan v = false -> in_unit v.
Proof.
  intros Hid. unfold FeatureValue. cbv zeta.
  destruct id; try done; repeat match goal with
  | |- (if ?b then _ else _) = _ -> _ => destruct b
  | |- match ?x with Some _ => _ | None => _ end = _ -> _ => destruct x
  end; try done; intros [= <-]; try apply Ramp_unit; by vm_compute.
Qed.

(** Suspicion is a share: whatever the events, weights and bounds, every
    feature but the configured identity values, the group score and the attack
    scale lie between 0 and 1 (unless the arithmetic produced a NaN), and the
    combined score is one of its two parts and at least the own one. *)
Theorem suspicion_unit :
  (forall p id fp ctx v, id <> F_IDENTITY -> FeatureValue p id fp ctx = Some v -> is_nan v = false -> in_unit v) /\
  (forall scores beta, is_nan (GroupAggregate scores beta) = false -> in_unit (GroupAggregate scores beta)) /\
  (forall r c i b mode w, is_nan (AttackScale r c i b mode w) = false -> in_unit (AttackScale r c i b mode w)) /\
  (forall own group, in_unit own -> in_unit group ->
     in_unit (Combine own group) /\ fle own (Combine own group) = true /\ fle group (Combine own group) = true).
Proof.
  split; [exact FeatureValue_unit|]. split; [exact GroupAggregate_unit|]. split; [exact AttackScale_unit|].
  intros own group [Ho1 Ho2] [Hg1 Hg2]. unfold Combine, in_unit.
  destruct (fle_no_nan _ _ Ho2) as [No _], (fle_no_nan _ _ Hg2) as [Ng _].
  destruct (fgt group own) eqn:E; unfold fgt in E.
  - split; [done|]. split; [|by apply fle_refl]. apply not_flt_le; [done|done|].
    apply fle_not_lt, not_flt_le; [done|done|]. float_order.
  - split; [done|]. split; [by apply fle_refl|by apply not_flt_le].
Qed.

(** ** Rings *)

Lemma appendCappedTime_lastn dst t : appendCappedTime dst t = lastn maxRing (dst ++ [t]).
Proof.
  unfold appendCappedTime, lastn. destruct (maxRing <? length (dst ++ [t]))%nat eqn:E; [done|].
  apply Nat.ltb_ge in E. by replace (length (dst ++ [t]) - maxRing)%nat with 0%nat by lia.
Qed.

Lemma appendCapped_lastn {A} (dst : list A) e : (length dst <= maxRing)%nat -> appendCapped dst e = lastn maxRing (dst ++ [e]).
Proof.
  intros Hl. unfold appendCapped, lastn. rewrite length_app. cbn [length].
  destruct (maxRing <=? length dst)%nat eqn:E.
  - apply Nat.leb_le in E. replace (length dst + 1 - maxRing)%nat with (length dst - maxRing + 1)%nat by lia.
    rewrite drop_app_le by (unfold maxRing in *; lia). done.
  - apply Nat.leb_gt in E. by replace (length dst + 1 - maxRing)%nat with 0%nat by lia.
Qed.

(** ** The profile store *)

Lemma stalest_in l k : stalest l = Some k -> k ∈ l.*1.
Proof.
  unfold stalest. intros H. assert (k ∈ (take evictSample l).*1) as Hin.
  { destruct (take evictSample l) as [|[k0 p0] l']; [done|]. injection H as <-.
    assert (forall (l' : list (str * Profile)) (k : str) (t : time), (fold_left (fun '(k, t) '(k', p) => if Before (p_LastSeen p) t then (k', p_LastSeen p) else (k, t))
              l' (k, t)).1 ∈ k :: l'.*1) as Hf.
    { clear. induction l' as [|[k' p'] l' IH]; intros k t; cbn [fold_left]; [by left|].
      rewrite fmap_cons. cbn [fst]. destruct (Before _ _); [specialize (IH k' (p_LastSeen p'))|specialize (IH k t)]; set_solver. }
    rewrite fmap_cons. apply Hf. }
  apply list_elem_of_fmap in Hin as ([k1 p1] & -> & Hin). apply list_elem_of_fmap. exists (k1, p1). split; [done|].
  rewrite <- (take_drop evictSample l). apply elem_of_app. by left.
Qed.

(** The profile store is bounded and forgets one profile at a time: from an
    empty store, whatever keys are touched, with any iteration order of the map,
    it never holds more than its cap; a touched key is present afterwards, and
    only one other key, one of the map's, may go. *)
Theorem store_bounded order s key :
  order ≡ₚ map_to_list (s_items s) -> 0 < s_cap s -> Z.of_nat (size (s_items s)) <= s_cap s ->
  let s' := (store_Get order s key).2 in
  Z.of_nat (size (s_items s')) <= s_cap s' /\ s_cap s' = s_cap s /\
  s_items s' !! key = Some (store_Get order s key).1 /\
  exists gone, forall k, k <> key -> k <> gone -> s_items s' !! k = s_items s !! k.
Proof.
  intros Ho Hc Hs. unfold store_Get. destruct (s_items s !! key) as [p|] eqn:Ek.
  { cbn [fst snd]. split; [done|]. split; [done|]. split; [done|]. by exists key. }
  cbn [fst snd s_items s_cap]. replace (0 <? s_cap s) with true by lia. cbn [andb].
  destruct (s_cap s <=? Z.of_nat (size (s_items s))) eqn:Ef.
  - destruct (stalest order) as [k|] eqn:Est.
    + assert (is_Some (s_items s !! k)) as [pk Hk].
      { apply stalest_in in Est. rewrite Ho in Est. apply list_elem_of_fmap in Est as ([k' p] & -> & Hin).
        exists p. by apply elem_of_map_to_list in Hin. }
      rewrite map_size_insert_None by (rewrite lookup_delete_None; by right).
      rewrite map_size_delete_Some by eauto.
      split; [lia|]. split; [done|]. split; [by rewrite lookup_insert_eq|]. exists k. intros k' H1 H2.
      by rewrite lookup_insert_ne, lookup_delete_ne.
    + exfalso. unfold stalest in Est. destruct order as [|x order]; [|by destruct x].
      apply Permutation_nil_l in Ho. symmetry in Ho. apply map_to_list_empty_iff in Ho. rewrite Ho, map_size_empty in Ef. lia.
  - rewrite map_size_insert_None by done. split; [lia|]. split; [done|]. split; [by rewrite lookup_insert_eq|].
    exists key. intros k' H1 H2. by rewrite lookup_insert_ne.
Qed.

Lemma store_bounded_witness :
  let s := mkProfiles {[lit "a" := emptyProfile]} 1 in
  Z.of_nat (size (s_items (store_Get (map_to_list (s_items s)) s (lit "b")).2)) <= 1.
Proof.
  cbv zeta. destruct (store_bounded (map_to_list (s_items (mkProfiles {[lit "a" := emptyProfile]} 1)))
           (mkProfiles {[lit "a" := emptyProfile]} 1) (lit "b")) as (H & E & _).
  - reflexivity.
  - vm_compute. reflexivity.
  - vm_compute. discriminate.
  - rewrite E in H. exact H.
Defined.
