(* ===== verification/Abuse.v ===== *)
(** The abuse configuration the server reads ([internal/serverconfig/abuse.go]):
    the records, the slow-mode multiplier and the attack-scale defaults.  Maps
    that the code iterates are lists in iteration order. *)

From S2P Require Import Prelude Bytes Floats Behavior.
Local Open Scope Z_scope.

Record PowTier := mkPowTier { pt_T : Z; pt_M : Z; pt_P : Z; pt_Difficulty : Z; pt_EstMs : Z }.

Record BehaviorConfig := mkBehaviorConfig {
  bc_CurveGamma : f64;
  bc_WindowShort : duration;
  bc_WindowLong : duration;
  bc_GapWindow : duration;
  bc_NightStart : Z;
  bc_NightEnd : Z;
  bc_IdentityVals : gmap str f64;
  bc_Features : list (FeatureID * FeatureParam);
  bc_GroupBetaIP : f64;
  bc_GroupBeta48 : f64;
  bc_GroupBetaASN : f64;
  bc_GroupBetaCT : f64;
  bc_GroupMinMemb : Z;
  bc_TierEnter : list f64;
  bc_TierExit : list f64;
  bc_SlowmodeMult : list Z;
  bc_RecheckMin : duration;
  bc_RecheckMax : duration;
  bc_ScoreEveryNMsgs : Z;
  bc_ScaleMode : str;
  bc_ScaleW : list f64;
  bc_BumpMax : Z;
  bc_Retention : list duration;
  bc_StatsEnabled : bool;
  bc_StatsWindow : duration
}.

Record AbuseConfig := mkAbuse {
  ac_MaxTotalConnections : Z;
  ac_AttackEnterSecs : duration;
  ac_AttackEnterRPS : Z;
  ac_UnderAttackTTL : duration;
  ac_UnderAttackForce : str;
  ac_PowFirstConnect : str;
  ac_PowGateTier : Z;
  ac_PowTierCount : Z;
  ac_PowTiers : list PowTier;
  ac_PowTTL : duration;
  ac_JoinWaitMin : duration;
  ac_JoinWaitMax : duration;
  ac_ScreenDeadline : duration;
  ac_GateHTTPEnabled : bool;
  ac_GateHTTPClasses : list str;
  ac_GateHTTPMode : str;
  ac_GateHTTPTierMin : Z;
  ac_PassTTL : duration;
  ac_PassSingleUse : bool;
  ac_Behavior : option BehaviorConfig;
  ac_PairMaxPending : Z;
  ac_SoftCapRatio : f64
}.

Definition DefaultPairMaxPending : Z := 1024.
Definition DefaultSoftCapRatio : f64 := fconst 8 10.

Definition SlowMult (b : option BehaviorConfig) (tier : Z) : Z :=
  match b with
  | None => 1
  | Some b =>
      if (tier <? 2) || (zlen (bc_SlowmodeMult b) <=? tier) then 1
      else
        let m := nth (Z.to_nat tier) (bc_SlowmodeMult b) 1 in
        if m <? 1 then 1 else m
  end.

Definition EffectiveScaleMode (c : option AbuseConfig) : str :=
  match c with
  | Some c => match ac_Behavior c with Some b => bc_ScaleMode b | None => lit "max" end
  | None => lit "max"
  end.

Definition EffectiveScaleW (c : option AbuseConfig) : list f64 :=
  match c with
  | Some c => match ac_Behavior c with Some b => bc_ScaleW b | None => [f1; f1; f1; f1] end
  | None => [f1; f1; f1; f1]
  end.

Lemma SlowMult_pos b tier : 1 <= SlowMult b tier.
Proof. unfold SlowMult. repeat step_if; lia. Qed.
