(* ===== verification/Engine.v ===== *)
(** The behaviour engine of the server ([server/behavior_engine.go]): the profile
    store with the indexes kept beside it, the events it records, the scoring of
    an address with its groups, the re-scoring budget and the pruning.  Every
    operation runs under the engine's mutex.  The iteration order of the profile
    map is an argument; group and geo keys of an address are an argument of
    [Score] ([GroupKeys] and the geo database are not modelled). *)

From S2P Require Import Prelude Bytes Floats Behavior Abuse.
Local Open Scope Z_scope.

Record BehaviorEngine := mkEngine {
  e_store : Store;
  e_stats : option Stats;
  e_scores : gmap str f64;
  e_members : gmap str (gset str);
  e_ipGroups : gmap str (list str);
  e_names : gmap str (gset str);
  e_scoredAt : gmap str Z
}.

Definition behaviorStoreCap : Z := 50000.

Definition NewBehaviorEngine (store : Store) (stats : option Stats) : BehaviorEngine :=
  mkEngine store stats ∅ ∅ ∅ ∅ ∅.

Definition MapOrder := list (str * Profile).

Section engine.
Variable e : BehaviorEngine.

Definition set_store (s : Store) : BehaviorEngine :=
  mkEngine s (e_stats e) (e_scores e) (e_members e) (e_ipGroups e) (e_names e) (e_scoredAt e).

(** [store.Get] and an update through the pointer it returns. *)
Definition observe (order : MapOrder) (ip : str) (f : Profile -> Profile) : BehaviorEngine :=
  set_store (store_Update (store_Get order (e_store e) ip).2 ip f).

Definition ObserveMessage order ip (now : time) := observe order ip (fun p => AddMessage p now).
Definition ObserveHistory order ip (now : time) := observe order ip (fun p => AddHistoryReq p now).
Definition ObserveChallenge order ip (now : time) := observe order ip (fun p => AddChallenge p now).
Definition ObserveHTTP order ip class status (now : time) :=
  observe order ip (fun p => AddHTTP p (mkHTTP now class status)).
Definition ObserveErr order ip code (now : time) := observe order ip (fun p => AddErr p (mkErr now code)).
Definition ObserveDisconnect order ip (now : time) := observe order ip (fun p => AddDisconnect p now).
Definition engine_SetBlocklisted order ip := observe order ip SetBlocklisted.

(** A connection: the profile, and the distinct names seen from the address
    (at most 64 are kept). *)
Definition ObserveConnect (order : MapOrder) (ip name : str) (kind : IdentityKind) (now : time) : BehaviorEngine :=
  let set := default ∅ (e_names e !! ip) in
  let set := if (size set <? 64)%nat then {[name]} ∪ set else set in
  let e' := observe order ip (fun p =>
    let p := SetIdentity (AddConnect p now) kind in
    with_marks p (p_Identity p) (Z.of_nat (size set)) (p_Blocklisted p) (p_Tier p)) in
  mkEngine (e_store e') (e_stats e') (e_scores e') (e_members e') (e_ipGroups e')
    (<[ip := set]> (e_names e)) (e_scoredAt e').

Definition groupBeta (key : str) (bc : BehaviorConfig) : f64 :=
  if has_prefix key (lit "ip6/48:") then bc_GroupBeta48 bc
  else if has_prefix key (lit "asn:") then bc_GroupBetaASN bc
  else if has_prefix key (lit "country:") || has_prefix key (lit "region:") then bc_GroupBetaCT bc
  else bc_GroupBetaIP bc.

(** The features with a positive weight and a sufficient sample. *)
Definition feature_values (p : Profile) (bc : BehaviorConfig) (ctx : FeatureCtx) : list (FeatureID * f64) :=
  omap (fun '(id, fp) =>
    if fle (fp_Weight fp) f0 then None else
    match FeatureValue p id fp ctx with Some v => Some (id, v) | None => None end) (bc_Features bc).

Definition feature_param (bc : BehaviorConfig) (id : FeatureID) : option FeatureParam :=
  match List.find (fun x => bool_decide (x.1 = id)) (bc_Features bc) with Some x => Some x.2 | None => None end.

(** The suspicion of the address itself: identity alone never condemns. *)
Definition own_score {P : MathPow} (p : Profile) (bc : BehaviorConfig) (now : time) (loc : option Location) : f64 :=
  let ctx := mkCtx now loc (bc_WindowShort bc) (bc_WindowLong bc) (bc_GapWindow bc) (bc_NightStart bc) (bc_NightEnd bc)
               (default f0 (bc_IdentityVals bc !! lit "guest")) (default f0 (bc_IdentityVals bc !! lit "trip"))
               (default f0 (bc_IdentityVals bc !! lit "key")) in
  let vals := feature_values p bc ctx in
  let reputation := if p_Blocklisted p then f1 else f0 in
  if existsb (fun x => negb (bool_decide (x.1 = F_IDENTITY))) vals
  then Aggregate vals (feature_param bc) (bc_CurveGamma bc) reputation
  else reputation.

Definition add_member (members : gmap str (gset str)) (ip k : str) : gmap str (gset str) :=
  <[k := {[ip]} ∪ default ∅ (members !! k)]> members.

(** The score folded with one group. *)
Definition combine_group (members : gmap str (gset str)) (bc : BehaviorConfig) (s : f64) (k : str) : f64 :=
  let set := default ∅ (members !! k) in
  if Z.of_nat (size set) <? bc_GroupMinMemb bc then s
  else
    match omap (fun m => e_scores e !! m) (elements set) with
    | [] => s
    | scores => Combine s (GroupAggregate scores (groupBeta k bc))
    end.

Definition Score {P : MathPow} (order : MapOrder) (keys : list str) (ip : str) (bc : BehaviorConfig) (now : time)
    (loc : option Location) : Z * f64 * BehaviorEngine :=
  let '(p, store) := store_Get order (e_store e) ip in
  let own := own_score p bc now loc in
  let members := fold_left (fun m k => add_member m ip k) keys (e_members e) in
  let s := fold_left (combine_group members bc) keys own in
  let maxTier := zlen (bc_TierEnter bc) - 1 in
  let tier := NextTier s (p_Tier p) (bc_TierEnter bc) (bc_TierExit bc) maxTier in
  let store := store_Update store ip (fun p => with_marks p (p_Identity p) (p_IdentityCount p) (p_Blocklisted p) tier) in
  (tier, s,
   mkEngine store (match e_stats e with Some st => Some (Observe st tier) | None => None end)
     (<[ip := s]> (e_scores e)) members (<[ip := keys]> (e_ipGroups e)) (e_names e)
     (<[ip := p_TotalMsgs p]> (e_scoredAt e))).

(** Whether the address has sent [every] messages since its last score. *)
Definition rescore_due (p : Profile) (ip : str) (every : Z) : bool :=
  let prev := default 0 (e_scoredAt e !! ip) in
  (p_TotalMsgs p <? prev) || (every <=? i64 (p_TotalMsgs p - prev)).

Definition DueForRescore (order : MapOrder) (ip : str) (every : Z) : bool * BehaviorEngine :=
  let '(p, store) := store_Get order (e_store e) ip in (rescore_due p ip every, set_store store).

Definition ObserveMessageAndDue (order : MapOrder) (ip : str) (now : time) (every : Z) : bool * BehaviorEngine :=
  let p := AddMessage (store_Get order (e_store e) ip).1 now in
  (rescore_due p ip every, observe order ip (fun p => AddMessage p now)).

Definition engine_Tier (ip : str) : option Z :=
  match store_Peek (e_store e) ip with Some p => Some (p_Tier p) | None => None end.
End engine.

(** One pruned address leaves every index. *)
Definition drop_member (members : gmap str (gset str)) (ip k : str) : gmap str (gset str) :=
  match members !! k with
  | None => members
  | Some set =>
      let set := set ∖ {[ip]} in
      if (size set =? 0)%nat then delete k members else <[k := set]> members
  end.

Definition forget (e : BehaviorEngine) (ip : str) : BehaviorEngine :=
  mkEngine (e_store e) (e_stats e) (delete ip (e_scores e))
    (fold_left (fun m k => drop_member m ip k) (default [] (e_ipGroups e !! ip)) (e_members e))
    (delete ip (e_ipGroups e)) (delete ip (e_names e)) (delete ip (e_scoredAt e)).

Definition engine_Prune (e : BehaviorEngine) (now : time) (retention : gmap Z duration) (def : duration) : BehaviorEngine :=
  let '(pruned, store) := store_Prune (e_store e) now retention def in
  fold_left forget pruned (set_store e store).

Definition SnapshotStats (e : BehaviorEngine) : option (gmap Z Z) * BehaviorEngine :=
  match e_stats e with
  | None => (None, e)
  | Some st =>
      let '(snap, st) := SnapshotAndReset st in
      (Some snap, mkEngine (e_store e) (Some st) (e_scores e) (e_members e) (e_ipGroups e) (e_names e) (e_scoredAt e))
  end.

(** * Theorems *)

Definition group_members (m : gmap str (gset str)) (k : str) : gset str := default ∅ (m !! k).

Lemma add_member_spec m ip k k' :
  group_members (add_member m ip k) k' = if str_eqb k k' then {[ip]} ∪ group_members m k' else group_members m k'.
Proof.
  unfold add_member, group_members. destruct (str_eqb k k') eqn:E.
  - apply str_eqb_eq in E as ->. by rewrite lookup_insert_eq.
  - rewrite lookup_insert_ne; [done|]. intros ->. by rewrite str_eqb_refl in E.
Qed.

Lemma drop_member_spec m ip k k' :
  group_members (drop_member m ip k) k' = if str_eqb k k' then group_members m k' ∖ {[ip]} else group_members m k'.
Proof.
  unfold drop_member, group_members. destruct (m !! k) as [set|] eqn:Em.
  - destruct (str_eqb k k') eqn:E.
    + apply str_eqb_eq in E as ->. rewrite Em. cbn [default]. destruct (size _ =? 0)%nat eqn:Es.
      * rewrite lookup_delete_eq. apply Nat.eqb_eq, size_empty_inv in Es. cbn [default]. by apply leibniz_equiv.
      * by rewrite lookup_insert_eq.
    + assert (k <> k') by (intros ->; by rewrite str_eqb_refl in E).
      destruct (size _ =? 0)%nat; [by rewrite lookup_delete_ne|by rewrite lookup_insert_ne].
  - destruct (str_eqb k k') eqn:E; [|done]. apply str_eqb_eq in E as ->. rewrite Em. cbn [default]. set_solver.
Qed.

Section index.
(** The group keys of an address do not change. *)
Variable gk : str -> list str.

(** Who is in a group is indexed under it. *)
Definition indexed (e : BehaviorEngine) : Prop :=
  forall k ip, ip ∈ group_members (e_members e) k -> k ∈ gk ip /\ e_ipGroups e !! ip = Some (gk ip).

Lemma fold_add_spec keys ip : forall m k' x,
  x ∈ group_members (fold_left (fun m k => add_member m ip k) keys m) k' ->
  x ∈ group_members m k' \/ (x = ip /\ k' ∈ keys).
Proof.
  induction keys as [|k keys IH]; intros m k' x H; cbn [fold_left] in H; [by left|].
  apply IH in H as [H|[-> H]]; [|right; split; [done|by right]].
  rewrite add_member_spec in H. destruct (str_eqb k k') eqn:E; [|by left].
  apply str_eqb_eq in E as ->. apply elem_of_union in H as [->%elem_of_singleton|H]; [|by left].
  right. split; [done|by left].
Qed.

Lemma Score_indexed {P : MathPow} e order ip bc now loc :
  indexed e -> indexed (Score e order (gk ip) ip bc now loc).2.
Proof.
  intros He. unfold Score. destruct (store_Get _ _ _) as [p store]. cbn [snd]. intros k x Hx.
  cbn [e_members e_ipGroups] in *. apply fold_add_spec in Hx as [Hx|[-> Hx]].
  - destruct (He _ _ Hx) as [H1 H2]. split; [done|]. destruct (decide (x = ip)) as [->|Hne]; [by rewrite lookup_insert_eq|].
    by rewrite lookup_insert_ne.
  - split; [done|]. by rewrite lookup_insert_eq.
Qed.

Lemma fold_drop_spec keys ip : forall m k',
  group_members (fold_left (fun m k => drop_member m ip k) keys m) k' =
  if decide (k' ∈ keys) then group_members m k' ∖ {[ip]} else group_members m k'.
Proof.
  induction keys as [|k keys IH]; intros m k'; cbn [fold_left]; [by rewrite decide_False by apply not_elem_of_nil|].
  rewrite IH, drop_member_spec. destruct (str_eqb k k') eqn:E.
  - apply str_eqb_eq in E as ->. rewrite (decide_True (P := k' ∈ k' :: keys)) by by left.
    case_decide; [apply leibniz_equiv; set_solver|done].
  - assert (k' <> k) by (intros ->; by rewrite str_eqb_refl in E).
    repeat case_decide; set_solver.
Qed.

(** Forgetting an address removes it, and only it, from every index. *)
Lemma forget_spec e ip :
  indexed e ->
  indexed (forget e ip) /\
  (forall k, group_members (e_members (forget e ip)) k = group_members (e_members e) k ∖ {[ip]}).
Proof.
  intros He.
  assert (forall k, group_members (e_members (forget e ip)) k = group_members (e_members e) k ∖ {[ip]}) as Hm.
  { intros k. unfold forget. cbn [e_members]. rewrite fold_drop_spec. case_decide as Hk; [done|].
    apply leibniz_equiv. intros x. rewrite elem_of_difference, elem_of_singleton.
    split; [|tauto]. intros Hx. split; [done|]. intros ->. destruct (He _ _ Hx) as [H1 H2].
    rewrite H2 in Hk. done. }
  split; [|done]. intros k x Hx. rewrite Hm in Hx. apply elem_of_difference in Hx as [Hx Hne].
  rewrite elem_of_singleton in Hne. destruct (He _ _ Hx) as [H1 H2]. split; [done|].
  unfold forget. cbn [e_ipGroups]. by rewrite lookup_delete_ne.
Qed.

(** What no index says of an address. *)
Definition unknown (e : BehaviorEngine) (ip : str) : Prop :=
  e_scores e !! ip = None /\ e_names e !! ip = None /\ e_scoredAt e !! ip = None /\
  e_ipGroups e !! ip = None /\ forall k, ip ∉ group_members (e_members e) k.

Definition same_index (e e' : BehaviorEngine) (ip : str) : Prop :=
  e_scores e' !! ip = e_scores e !! ip /\ e_names e' !! ip = e_names e !! ip /\
  e_scoredAt e' !! ip = e_scoredAt e !! ip /\ e_ipGroups e' !! ip = e_ipGroups e !! ip /\
  forall k, ip ∈ group_members (e_members e') k <-> ip ∈ group_members (e_members e) k.

Lemma forget_all pruned : forall e,
  indexed e ->
  let e' := fold_left forget pruned e in
  indexed e' /\ e_store e' = e_store e /\
  (forall ip, ip ∈ pruned -> unknown e' ip) /\ (forall ip, ip ∉ pruned -> same_index e e' ip).
Proof.
  induction pruned as [|x pruned IH]; intros e He; cbn [fold_left]; cbv zeta.
  { split; [done|]. split; [done|]. split; [intros ip H; by apply elem_of_nil in H|done]. }
  destruct (forget_spec e x He) as [H1 H2]. destruct (IH (forget e x) H1) as (I1 & I2 & I3 & I4).
  split; [done|]. split; [by rewrite I2|].
  assert (unknown (forget e x) x) as Hux.
  { unfold unknown, forget. cbn [e_scores e_names e_scoredAt e_ipGroups]. rewrite !lookup_delete_eq.
    repeat split; try done. intros k. fold (forget e x). rewrite H2. set_solver. }
  split.
  - intros ip [->|Hin]%elem_of_cons; [|by apply I3]. destruct (decide (x ∈ pruned)) as [Hx|Hx]; [by apply I3|].
    destruct (I4 x Hx) as (S1 & S2 & S3 & S4 & S5). destruct Hux as (U1 & U2 & U3 & U4 & U5).
    unfold unknown. rewrite S1, S2, S3, S4. repeat split; try done. intros k. rewrite S5. apply U5.
  - intros ip [Hne Hnin]%not_elem_of_cons. destruct (I4 ip Hnin) as (S1 & S2 & S3 & S4 & S5).
    unfold same_index. rewrite S1, S2, S3, S4. unfold forget at 1 2 3 4. cbn [e_scores e_names e_scoredAt e_ipGroups].
    rewrite !lookup_delete_ne by done. repeat split; try done; rewrite S5, H2; set_solver.
Qed.

(** Scores of a run, with whatever configuration, clock and map order. *)
Record score_call := mkCall { sc_order : MapOrder; sc_ip : str; sc_bc : BehaviorConfig; sc_now : time; sc_loc : option Location }.

Definition run_scores {P : MathPow} (e : BehaviorEngine) (calls : list score_call) : BehaviorEngine :=
  fold_left (fun e c => (Score e (sc_order c) (gk (sc_ip c)) (sc_ip c) (sc_bc c) (sc_now c) (sc_loc c)).2) calls e.

Lemma engine_Prune_facts {P : MathPow} store stats calls (now : time) retention def ip :
  let e := run_scores (NewBehaviorEngine store stats) calls in
  let e' := engine_Prune e now retention def in
  match s_items (e_store e) !! ip with
  | Some p =>
      if expired_profile now retention def p
      then s_items (e_store e') !! ip = None /\ unknown e' ip
      else s_items (e_store e') !! ip = Some p /\ same_index e e' ip
  | None => s_items (e_store e') !! ip = None /\ same_index e e' ip
  end.
Proof.
  cbv zeta. assert (indexed (run_scores (NewBehaviorEngine store stats) calls)) as He.
  { unfold run_scores. assert (indexed (NewBehaviorEngine store stats)) as H0.
    { intros k x Hx. unfold group_members in Hx. cbn in Hx. rewrite lookup_empty in Hx. by apply not_elem_of_empty in Hx. }
    revert H0. generalize (NewBehaviorEngine store stats). induction calls as [|c calls IH]; intros e H0; [done|].
    cbn [fold_left]. by apply IH, Score_indexed. }
  set (e := run_scores _ _) in *. unfold engine_Prune, store_Prune.
  set (gone := filter _ _). set (store' := mkProfiles _ _).
  destruct (forget_all (map_to_list gone).*1 (set_store e store') He) as (_ & I2 & I3 & I4).
  rewrite I2. cbn [set_store e_store s_items store'].
  assert (ip ∈ (map_to_list gone).*1 <-> exists p, s_items (e_store e) !! ip = Some p /\ expired_profile now retention def p = true) as Hin.
  { rewrite list_elem_of_fmap. split.
    - intros ([k p] & -> & Hp). apply elem_of_map_to_list, map_lookup_filter_Some in Hp. by exists p.
    - intros (p & Hp). exists (ip, p). split; [done|]. by apply elem_of_map_to_list, map_lookup_filter_Some. }
  destruct (s_items (e_store e) !! ip) as [p|] eqn:Ep.
  - destruct (expired_profile now retention def p) eqn:Ex.
    + split; [|by apply I3, Hin; exists p]. apply map_lookup_filter_None. right. intros x Hx. rewrite Ep in Hx.
      injection Hx as <-. cbn [snd]. by rewrite Ex.
    + split; [by apply map_lookup_filter_Some|]. apply I4. rewrite Hin. intros (q & [= <-] & Hq). congruence.
  - split; [by apply map_lookup_filter_None; left|]. apply I4. rewrite Hin. by intros (q & ? & _).
Qed.
(** Pruning is exact across the indexes: after any scores, an address whose
    profile idled past its tier's retention is gone from the store and from
    every index, and every other address keeps its profile, score, groups,
    names and message mark. *)
Theorem engine_Prune_exact {P : MathPow} store stats calls (now : time) retention def ip :
  let e := run_scores (NewBehaviorEngine store stats) calls in
  let e' := engine_Prune e now retention def in
  match s_items (e_store e) !! ip with
  | Some p =>
      if expired_profile now retention def p
      then s_items (e_store e') !! ip = None /\ unknown e' ip
      else s_items (e_store e') !! ip = Some p /\ same_index e e' ip
  | None => s_items (e_store e') !! ip = None /\ same_index e e' ip
  end.
Proof. apply engine_Prune_facts. Qed.
End index.

(** An address the store's cap evicted is never pruned from the indexes. *)
Lemma evicted_index_leaks {P : MathPow} gk store stats calls (now : time) retention def ip :
  let e := run_scores gk (NewBehaviorEngine store stats) calls in
  s_items (e_store e) !! ip = None -> same_index e (engine_Prune e now retention def) ip.
Proof.
  cbv zeta. intros H. pose proof (engine_Prune_facts gk store stats calls now retention def ip) as Hp.
  cbv zeta in Hp. rewrite H in Hp. apply Hp.
Qed.
