(* ===== verification/Attack.v ===== *)
(** Attack detection ([server/underattack.go]) and soft pressure
    ([server/admit.go]): the per-second buckets of handshake outcomes, the
    sampler that folds them into the under-attack flag and the attack scale, and
    the reject counters.  Every operation runs under the state's mutex. *)

From Stdlib Require Import SpecFloat.
From S2P Require Import Prelude Bytes Floats Clock Behavior Abuse.
Local Open Scope Z_scope.

(** * State *)

Definition attackWindowSecs : Z := 5.
Definition attackBuckets : Z := 8.
Definition attackSeenCap : Z := 20000.
Definition attackSeenTTL : Z := 300.
Definition attackBaselineA : f64 := fconst 5 100.

Record secBucket := mkBucket { b_sec : Z; b_att : Z; b_r503 : Z; b_rGate : Z; b_rBlock : Z; b_newIP : Z }.

Record SampleParams := mkSampleParams {
  sp_EnterSecs : Z;
  sp_EnterRPS : Z;
  sp_TTL : duration;
  sp_Force : str;
  sp_ScaleMode : str;
  sp_ScaleW : list f64
}.

Record SampleState := mkSample { ss_Under : bool; ss_Scale : f64 }.

Record AttackState := mkAttack {
  at_under : bool;
  at_until : time;
  at_entered : time;
  at_run : Z;
  at_buckets : list secBucket;      (* attackBuckets of them *)
  at_seen : gmap str Z;
  at_baseAtt : f64;
  at_baseIP : f64;
  at_scale : f64
}.

Definition zeroBucket : secBucket := mkBucket 0 0 0 0 0 0.

Definition NewAttackState : AttackState :=
  mkAttack false 0 0 0 (replicate (Z.to_nat attackBuckets) zeroBucket) ∅ f0 f0 f0.

(** * Counting *)

Definition bucket_index (sec : Z) : nat := Z.to_nat (sec mod attackBuckets).

(** The bucket of a second, emptied when it still holds an older one. *)
Definition bucket (bs : list secBucket) (sec : Z) : secBucket :=
  let b := nth (bucket_index sec) bs zeroBucket in
  if b_sec b =? sec then b else mkBucket sec 0 0 0 0 0.

Definition set_buckets (a : AttackState) (bs : list secBucket) (seen : gmap str Z) : AttackState :=
  mkAttack (at_under a) (at_until a) (at_entered a) (at_run a) bs seen (at_baseAtt a) (at_baseIP a) (at_scale a).

Definition noteAttempt (a : AttackState) (now : Z) (ip : str) : AttackState :=
  let b := bucket (at_buckets a) now in
  let fresh := match at_seen a !! ip with Some last => attackSeenTTL <? now - last | None => true end in
  let b := mkBucket (b_sec b) (b_att b + 1) (b_r503 b) (b_rGate b) (b_rBlock b) (if fresh then b_newIP b + 1 else b_newIP b) in
  let seen := if fresh && (Z.of_nat (size (at_seen a)) <? attackSeenCap) then <[ip := now]> (at_seen a) else at_seen a in
  set_buckets a (<[bucket_index now := b]> (at_buckets a)) seen.

Definition noteReject (a : AttackState) (now : Z) (which : Z) : AttackState :=
  let b := bucket (at_buckets a) now in
  let b :=
    if which =? 0 then mkBucket (b_sec b) (b_att b) (b_r503 b + 1) (b_rGate b) (b_rBlock b) (b_newIP b)
    else if which =? 1 then mkBucket (b_sec b) (b_att b) (b_r503 b) (b_rGate b + 1) (b_rBlock b) (b_newIP b)
    else mkBucket (b_sec b) (b_att b) (b_r503 b) (b_rGate b) (b_rBlock b + 1) (b_newIP b) in
  set_buckets a (<[bucket_index now := b]> (at_buckets a)) (at_seen a).

Definition note503 a now := noteReject a now 0.
Definition noteGate a now := noteReject a now 1.
Definition noteBlock a now := noteReject a now 2.

Definition IsUnderAttack (a : AttackState) (now : time) : bool := at_under a && Before now (at_until a).

(** * The sampler *)

(** The buckets of the last [attackWindowSecs] seconds. *)
Definition in_window (sec : Z) (b : secBucket) : bool := (sec - attackWindowSecs <? b_sec b) && (b_sec b <=? sec).

Definition window_sum (f : secBucket -> Z) (sec : Z) (bs : list secBucket) : Z :=
  fold_left (fun n b => if in_window sec b then n + f b else n) bs 0.

(** The enter/exit machine: [(under, until, entered, run)]. *)
Definition attack_step (a : AttackState) (attackSig : bool) (now : time) (p : SampleParams) : bool * time * time * Z :=
  if at_under a && str_eqb (sp_Force p) (lit "off") then (false, at_until a, at_entered a, 0)
  else if str_eqb (sp_Force p) (lit "on") then
    (true, Add now (sp_TTL p), if at_under a then at_entered a else now, 0)
  else
    let run := if attackSig then at_run a + 1 else 0 in
    let enter := negb (at_under a) && (sp_EnterSecs p <=? run) in
    let '(under, until, entered) :=
      if enter then (true, Add now (sp_TTL p), now) else (at_under a, at_until a, at_entered a) in
    if under then
      if attackSig then (true, Add now (sp_TTL p), entered, run)
      else if After now until then (false, until, entered, 0)
      else (true, until, entered, run)
    else (false, until, entered, run).

Definition baseline (base rate : f64) : f64 :=
  if SFeqb base f0 then rate else fadd base (fmul attackBaselineA (fsub rate base)).

Definition growth (cur base : f64) : f64 :=
  if fle cur f0 then f0
  else let g := fdiv cur (fadd base (fconst 1 1000000000)) in fsub f1 (fdiv f1 (fadd f1 g)).

Definition attack_signal (a : AttackState) (full : bool) (sec : Z) (p : SampleParams) : bool :=
  let rejects := window_sum b_r503 sec (at_buckets a) + window_sum b_rGate sec (at_buckets a) in
  full || (sp_EnterRPS p * attackWindowSecs <? rejects).

Definition sample (a : AttackState) (full : bool) (now : time) (p : SampleParams) : SampleState * AttackState :=
  let sec := UnixSec now in
  let sum f := window_sum f sec (at_buckets a) in
  let att := sum b_att in
  let rejects := sum b_r503 + sum b_rGate in
  let '(under, until, entered, run) := attack_step a (attack_signal a full sec p) now p in
  let rate := fdiv (of_int att) (of_int attackWindowSecs) in
  let ipRate := fdiv (of_int (sum b_newIP)) (of_int attackWindowSecs) in
  let baseAtt := baseline (at_baseAtt a) rate in
  let baseIP := baseline (at_baseIP a) ipRate in
  let den := if flt (of_int att) f1 then f1 else of_int att in
  let scale := AttackScale (fdiv (of_int rejects) den) (growth rate baseAtt) (growth ipRate baseIP)
                 (fdiv (of_int (sum b_rBlock)) den) (sp_ScaleMode p) (sp_ScaleW p) in
  (mkSample (under && Before now until) scale,
   mkAttack under until entered run (at_buckets a) (at_seen a) baseAtt baseIP scale).

(** * Soft pressure and reject counters (admit.go) *)

(** [clients] and [inflight] are the headcount of the hub and the handshakes in
    progress. *)
Definition degraded (attack : option AttackState) (now : time) (a : option AbuseConfig) (clients inflight : Z) : bool :=
  if match attack with Some st => IsUnderAttack st now | None => false end then true
  else
    match a with
    | None => false
    | Some a =>
        if ac_MaxTotalConnections a <? 1 then false
        else
          let ratio := if fgt (ac_SoftCapRatio a) f0 then ac_SoftCapRatio a else DefaultSoftCapRatio in
          let threshold := to_int (fmul (of_int (ac_MaxTotalConnections a)) ratio) in
          let threshold := if threshold <? 1 then 1 else threshold in
          threshold <=? clients + inflight
    end.

Inductive rejectCause := rejectCooldownCause | rejectPerIPCause | rejectGateCause | rejectFullCause.

Record RejectStat := mkRejects { rj_cooldown : Z; rj_perIP : Z; rj_gate : Z; rj_full : Z; rj_drops : Z }.

Definition addReject (st : RejectStat) (cause : rejectCause) : RejectStat :=
  match cause with
  | rejectCooldownCause => mkRejects (rj_cooldown st + 1) (rj_perIP st) (rj_gate st) (rj_full st) (rj_drops st)
  | rejectPerIPCause => mkRejects (rj_cooldown st) (rj_perIP st + 1) (rj_gate st) (rj_full st) (rj_drops st)
  | rejectGateCause => mkRejects (rj_cooldown st) (rj_perIP st) (rj_gate st + 1) (rj_full st) (rj_drops st)
  | rejectFullCause => mkRejects (rj_cooldown st) (rj_perIP st) (rj_gate st) (rj_full st + 1) (rj_drops st)
  end.

Definition addDrop (st : RejectStat) : RejectStat :=
  mkRejects (rj_cooldown st) (rj_perIP st) (rj_gate st) (rj_full st) (rj_drops st + 1).

(** * Theorems *)

(** What reaches the tracker. *)
Inductive attack_event :=
| Attempt (sec : Z) (ip : str)
| Reject (sec : Z) (which : Z)
| Tick (full : bool) (now : time).

Section machine.
Variable p : SampleParams.

(** The state after some events, and its ticks: their time and whether the
    attack signal was up. *)
Fixpoint run_attack (a : AttackState) (evs : list attack_event) : list (time * bool) * AttackState :=
  match evs with
  | [] => ([], a)
  | Attempt sec ip :: evs' => run_attack (noteAttempt a sec ip) evs'
  | Reject sec which :: evs' => run_attack (noteReject a sec which) evs'
  | Tick full now :: evs' =>
      let sig := attack_signal a full (UnixSec now) p in
      let '(ts, a') := run_attack (sample a full now p).2 evs' in ((now, sig) :: ts, a')
  end.

(** The number of ticks with the signal up at the end of a trace, and the time
    of the last one. *)
Fixpoint hot_run (rev_ticks : list (time * bool)) : Z :=
  match rev_ticks with (_, true) :: l => 1 + hot_run l | _ => 0 end.
Fixpoint last_hot (rev_ticks : list (time * bool)) : option time :=
  match rev_ticks with
  | [] => None
  | (t, true) :: _ => Some t
  | (_, false) :: l => last_hot l
  end.

(** Some tick ended a hot run long enough to enter. *)
Definition entered_once (rev_ticks : list (time * bool)) : Prop :=
  exists later earlier, rev_ticks = later ++ earlier /\ sp_EnterSecs p <= hot_run earlier.

(** The flag agrees with the trace (newest tick first). *)
Record attack_inv (rev_ticks : list (time * bool)) (a : AttackState) : Prop := {
  ai_run : at_run a = hot_run rev_ticks;
  ai_under : at_under a = true -> entered_once rev_ticks /\
               exists t, last_hot rev_ticks = Some t /\ at_until a = Add t (sp_TTL p);
  ai_enter : sp_EnterSecs p <= hot_run rev_ticks -> at_under a = true
}.

Hypothesis Hauto : sp_Force p = lit "auto".
Hypothesis Henter : 0 < sp_EnterSecs p.
Hypothesis Httl : 0 <= sp_TTL p.

Lemma hot_run_nonneg l : 0 <= hot_run l.
Proof. induction l as [|[t []] l IH]; cbn [hot_run]; lia. Qed.

Lemma entered_cons x l : entered_once l -> entered_once (x :: l).
Proof. intros (l1 & l2 & -> & H). by exists (x :: l1), l2. Qed.

Lemma hot_last l : 0 < hot_run l -> is_Some (last_hot l).
Proof. destruct l as [|[t []] l]; cbn; [lia|eauto|lia]. Qed.

Lemma sample_inv ticks a full now :
  attack_inv ticks a -> attack_inv ((now, attack_signal a full (UnixSec now) p) :: ticks) (sample a full now p).2.
Proof.
  intros [H1 H2 H3]. unfold sample. set (sig := attack_signal _ _ _ _).
  pose proof (hot_run_nonneg ticks) as Hpos.
  destruct (attack_step a sig now p) as [[[under until] entered] run] eqn:Es. cbn [snd].
  unfold attack_step in Es. rewrite Hauto in Es.
  replace (str_eqb (lit "auto") (lit "off")) with false in Es by by vm_compute.
  replace (str_eqb (lit "auto") (lit "on")) with false in Es by by vm_compute. rewrite andb_false_r in Es.
  cbv zeta in Es. destruct sig.
  - assert (run = hot_run ((now, true) :: ticks)) as Hrun.
    { cbn [hot_run]. destruct (negb (at_under a) && _); [|destruct (at_under a)]; injection Es as _ _ _ <-; lia. }
    split; cbn [at_run at_under at_until]; [done| |].
    + intros Hu. split; [|exists now; cbn [last_hot]; split; [done|]].
      * destruct (at_under a) eqn:Eu.
        -- apply entered_cons. by apply H2.
        -- cbn [negb andb] in Es. destruct (sp_EnterSecs p <=? at_run a + 1) eqn:Ee; [|injection Es as Es1 _ _ _; congruence].
           exists [], ((now, true) :: ticks). split; [done|]. cbn [hot_run]. lia.
      * destruct (negb (at_under a) && _); [by injection Es as _ <- _ _|].
        destruct (at_under a); [by injection Es as _ <- _ _|]. injection Es as Es1 _ _ _. congruence.
    + cbn [hot_run]. intros He. destruct (at_under a) eqn:Eu; cbn [negb andb] in Es; [by injection Es as <- _ _ _|].
      destruct (sp_EnterSecs p <=? at_run a + 1) eqn:Ee; [by injection Es as <- _ _ _|]. lia.
  - assert (run = 0) as ->.
    { destruct (negb (at_under a) && _); [|destruct (at_under a)]; try destruct (After _ _); by injection Es. }
    split; cbn [at_run at_under at_until hot_run last_hot]; [done| |lia].
    intros Hu. replace (sp_EnterSecs p <=? 0) with false in Es by lia. rewrite andb_false_r in Es.
    destruct (at_under a) eqn:Eu; [|injection Es as Es1 _ _; congruence].
    destruct (H2 eq_refl) as (He & t & Ht1 & Ht2). destruct (After now (at_until a)); [injection Es as Es1 _ _; congruence|].
    injection Es as _ <- _. split; [by apply entered_cons|]. by exists t.
Qed.

Lemma run_attack_inv evs : forall ticks a,
  attack_inv ticks a -> attack_inv (reverse (run_attack a evs).1 ++ ticks) (run_attack a evs).2.
Proof.
  induction evs as [|ev evs IH]; intros ticks a Ha; [done|]. cbn [run_attack]. destruct ev as [sec ip|sec which|full now].
  - apply IH. by destruct Ha.
  - apply IH. destruct Ha. unfold noteReject, set_buckets. destruct (which =? 0); [done|]. by destruct (which =? 1).
  - specialize (IH _ _ (sample_inv ticks a full now Ha)). destruct (run_attack _ evs) as [ts a']. cbn [fst snd] in *.
    by rewrite reverse_cons, <- app_assoc.
Qed.

(** The under-attack flag means what it says (automatic mode): after any
    handshakes, rejects and sampler ticks, while it is up some run of
    [EnterSecs] consecutive ticks had the signal up and the last such tick is
    less than a TTL old; and it is up as soon as the last [EnterSecs] ticks
    all had the signal, for the whole TTL after them. *)
Theorem attack_flag_exact evs now :
  let '(ticks, a) := run_attack NewAttackState evs in
  (IsUnderAttack a now = true ->
     entered_once (reverse ticks) /\ exists t, last_hot (reverse ticks) = Some t /\ now < t + sp_TTL p) /\
  (sp_EnterSecs p <= hot_run (reverse ticks) ->
     (forall t, last_hot (reverse ticks) = Some t -> now < t + sp_TTL p) -> IsUnderAttack a now = true).
Proof.
  assert (attack_inv [] NewAttackState) as H0.
  { split; cbn; [done|done|lia]. }
  pose proof (run_attack_inv evs [] NewAttackState H0) as H. rewrite app_nil_r in H.
  destruct (run_attack NewAttackState evs) as [ticks a]. cbn [fst snd] in H. destruct H as [H1 H2 H3].
  unfold IsUnderAttack, Before, Add in *. split.
  - intros [Hu Hb]%andb_true_iff. destruct (H2 Hu) as (He & t & Ht1 & Ht2). split; [done|]. exists t. split; [done|]. lia.
  - intros He Ht. assert (at_under a = true) as Hu by by apply H3. destruct (H2 Hu) as (_ & t & Ht1 & Ht2).
    specialize (Ht t Ht1). rewrite Hu. cbn [andb]. lia.
Qed.
End machine.

Definition sample_params : SampleParams := mkSampleParams 2 0 (10 * Second) (lit "auto") (lit "max") [].

Lemma attack_flag_exact_witness :
  let '(ticks, a) := run_attack sample_params NewAttackState [Tick true 1; Tick true (Add 1 Second)] in
  (2 <= hot_run (reverse ticks) ->
     (forall t, last_hot (reverse ticks) = Some t -> 5 < t + 10 * Second) -> IsUnderAttack a 5 = true).
Proof.
  pose proof (attack_flag_exact sample_params eq_refl ltac:(vm_compute; reflexivity)
                [Tick true 1; Tick true (Add 1 Second)] 5) as H.
  destruct (run_attack sample_params NewAttackState [Tick true 1; Tick true (Add 1 Second)]) as [ticks a].
  exact (proj2 H).
Defined.

(** [UNDER_ATTACK_FORCE=off] clears the flag only when it is already up: under
    pressure the next tick raises it again. *)
Lemma force_off_still_enters :
  let p := mkSampleParams 1 0 (10 * Second) (lit "off") (lit "max") [] in
  let a1 := sample NewAttackState true 1 p in
  let a2 := sample a1.2 true (Add 1 Second) p in
  let a3 := sample a2.2 true (Add 1 (2 * Second)) p in
  (ss_Under a1.1, ss_Under a2.1, ss_Under a3.1) = (true, false, true).
Proof. vm_compute. reflexivity. Qed.
