(* ===== verification/Gate.v ===== *)
(** The pre-connect gate ([server/gate.go]): the store of proof-of-work
    challenges and lease passes, the tier and the modes that require a pass, and
    the request handler.  The store's methods run under its mutex; the clock and
    the random bytes are arguments.  [key] is the per-boot HMAC key. *)

From S2P Require Import Prelude Bytes Sha2 Floats Crypto Guard Pow Clock Behavior Abuse Engine Attack.
Local Open Scope Z_scope.

Definition gateChallengeCooldown : duration := 2 * Second.

Inductive SubmitCode := SubmitOK | SubmitEarly | SubmitBad | SubmitGone.

(** [Used] is never set. *)
Record GateChallenge := mkGateChallenge {
  gc_ID : str;
  gc_Tier : Z;
  gc_Preset : Preset;
  gc_Salt : str;
  gc_Earliest : time;
  gc_Expires : time;
  gc_Ticket : str;
  gc_Used : bool
}.

Record GatePass := mkPass { gp_Token : str; gp_IP : str; gp_Expires : time }.

Record GateStore := mkGate {
  g_key : str;
  g_challenges : gmap str GateChallenge;
  g_passes : gmap str GatePass;
  g_cooldown : CooldownMap;
  g_statusCooldown : CooldownMap
}.

Definition NewGateStore (key : str) : GateStore := mkGate key ∅ ∅ NewCooldownMap NewCooldownMap.

Definition AllowStatus (g : GateStore) (now : time) (ip : str) : bool * GateStore :=
  let '(ok, c) := cooldown_Allow (g_statusCooldown g) now ip Second in
  (ok, mkGate (g_key g) (g_challenges g) (g_passes g) (g_cooldown g) c).

Definition ticket_input (ip id : str) (earliest : time) : str :=
  ip ++ "|"%char :: id ++ "|"%char :: itoa (UnixNano earliest).

Definition ticket (g : GateStore) (ip id : str) (earliest : time) : str :=
  hex_encode (hmac_sha256 (g_key g) (ticket_input ip id earliest)).

(** Eight random bytes, big end first, as a signed integer; [None] when the
    source fails. *)
Definition be_int64 (b : str) : Z := i64 (fold_left (fun v c => v * 256 + byte_val c) b 0).

Definition randInt63n (n : Z) (b : option str) : Z :=
  if n <=? 0 then 0
  else match b with
  | None => 0
  | Some b =>
      let v := be_int64 b in
      let v := if v <? 0 then i64 (- v) else v in
      Z.rem v n
  end.

(** [rand] holds the id's bytes (or a failure) and the bytes of the wait. *)
Definition Request (g : GateStore) (now : time) (ip : str) (tier : Z) (preset : Preset)
    (waitMin waitMax ttl : duration) (serverPub : str) (id_bytes wait_bytes : option str)
    : option GateChallenge * GateStore :=
  let '(ok, cooldown) := cooldown_Allow (g_cooldown g) now ip gateChallengeCooldown in
  let g := mkGate (g_key g) (g_challenges g) (g_passes g) cooldown (g_statusCooldown g) in
  if negb ok then (None, g)
  else match id_bytes with
  | None => (None, g)
  | Some raw =>
      let id := hex_encode raw in
      let wait := if waitMin <? waitMax then i64 (waitMin + randInt63n (i64 (waitMax - waitMin)) wait_bytes) else waitMin in
      let earliest := Add now wait in
      let salt := lit "v1|" ++ serverPub ++ "|"%char :: ip ++ "|"%char :: id in
      let c := mkGateChallenge id tier preset salt earliest (Add earliest ttl) (ticket g ip id earliest) false in
      (Some c, mkGate (g_key g) (<[id := c]> (g_challenges g)) (g_passes g) (g_cooldown g) (g_statusCooldown g))
  end.

Definition ChallengeEarliest (g : GateStore) (id : str) : option time :=
  match g_challenges g !! id with
  | Some c => if gc_Used c then None else Some (gc_Earliest c)
  | None => None
  end.

Definition drop_challenge (g : GateStore) (id : str) : GateStore :=
  mkGate (g_key g) (delete id (g_challenges g)) (g_passes g) (g_cooldown g) (g_statusCooldown g).

Section gate.
Context {A2 : Argon2}.

Definition Submit (g : GateStore) (now : time) (ip id : str) (nonce : Z) (tk : str) (passTTL : duration)
    (token_bytes : option str) : option GatePass * SubmitCode * GateStore :=
  match g_challenges g !! id with
  | None => (None, SubmitGone, drop_challenge g id)
  | Some c =>
      if gc_Used c || After now (gc_Expires c) then (None, SubmitGone, drop_challenge g id)
      else if negb (str_eqb tk (ticket g ip id (gc_Earliest c))) then (None, SubmitBad, drop_challenge g id)
      else if Before now (gc_Earliest c) then (None, SubmitEarly, g)
      else if negb (Verify (gc_Preset c) (gc_Salt c) nonce) then (None, SubmitBad, drop_challenge g id)
      else
        let g := drop_challenge g id in
        match token_bytes with
        | None => (None, SubmitGone, g)
        | Some raw =>
            let token := hex_encode raw in
            let p := mkPass token ip (Add now passTTL) in
            (Some p, SubmitOK, mkGate (g_key g) (g_challenges g) (<[token := p]> (g_passes g)) (g_cooldown g) (g_statusCooldown g))
        end
  end.

Definition UsePass (g : GateStore) (now : time) (ip token : str) (singleUse : bool) : bool * GateStore :=
  match g_passes g !! token with
  | None => (false, g)
  | Some p =>
      if negb (str_eqb (gp_IP p) ip) || After now (gp_Expires p) then (false, g)
      else (true, if singleUse
                  then mkGate (g_key g) (g_challenges g) (delete token (g_passes g)) (g_cooldown g) (g_statusCooldown g)
                  else g)
  end.

Definition gate_Sweep (g : GateStore) (now : time) : GateStore :=
  mkGate (g_key g)
    (filter (fun kv => After now (gc_Expires kv.2) = false) (g_challenges g))
    (filter (fun kv => After now (gp_Expires kv.2) = false) (g_passes g)) (g_cooldown g) (g_statusCooldown g).

(** * Policy *)

Definition gateTier (a : option AbuseConfig) (attack : option AttackState) : Z :=
  match a with
  | None => 0
  | Some a =>
      if ac_PowTierCount a <=? 1 then 0
      else
        let maxTier := ac_PowTierCount a - 1 in
        let tier := ac_PowGateTier a in
        let tier := if tier <? 0 then 0 else tier in
        let tier := if maxTier <? tier then maxTier else tier in
        match ac_Behavior a, attack with
        | Some bc, Some st => ApplyBump tier (at_scale st) (bc_BumpMax bc) maxTier
        | _, _ => tier
        end
  end.

Definition gateRequired (a : option AbuseConfig) (has_gate is_degraded : bool) : bool :=
  match a with
  | None => false
  | Some a =>
      if negb has_gate then false
      else if str_eqb (ac_PowFirstConnect a) (lit "always") then true
      else str_eqb (ac_PowFirstConnect a) (lit "under-attack") && is_degraded
  end.

(** The pass of the query, else of the header. *)
Definition token_of (query header : str) : str := match query with [] => header | q => q end.

(** Whether the handshake may go on; a refusal is counted. *)
Definition checkGatePass (g : option GateStore) (attack : option AttackState) (rejects : RejectStat) (now : time)
    (a : option AbuseConfig) (clientIP query header : str)
    : bool * option GateStore * option AttackState * RejectStat :=
  let tok := token_of query header in
  let single := match a with Some a => ac_PassSingleUse a | None => false end in
  let '(ok, g) :=
    match g with
    | None => (false, None)
    | Some g => let '(ok, g) := UsePass g now clientIP tok single in (ok, Some g)
    end in
  if ok then (true, g, attack, rejects)
  else (false, g, match attack with Some st => Some (noteGate st (UnixSec now)) | None => None end,
        addReject rejects rejectGateCause).

(** [tier] is the engine's answer for the address, [None] when it is off or has
    never scored it. *)
Definition httpGateFor (a : option AbuseConfig) (has_gate is_degraded : bool) (tier : option Z) (class : str) : bool :=
  match a with
  | None => false
  | Some a =>
      if negb (ac_GateHTTPEnabled a) || negb has_gate then false
      else if negb (existsb (fun c => str_eqb c class) (ac_GateHTTPClasses a)) then false
      else if str_eqb (ac_GateHTTPMode a) (lit "tier") then
        match tier with Some t => ac_GateHTTPTierMin a <=? t | None => false end
      else is_degraded
  end.

Definition checkHTTPPass (g : GateStore) (rejects : RejectStat) (now : time) (a : option AbuseConfig)
    (is_degraded : bool) (tier : option Z) (class clientIP query header : str) : bool * GateStore * RejectStat :=
  if negb (httpGateFor a true is_degraded tier class) then (true, g, rejects)
  else
    let '(ok, g) := UsePass g now clientIP (token_of query header) false in
    if ok then (true, g, rejects) else (false, g, addReject rejects rejectGateCause).

(** * The handler *)

Record gateRequest := mkGateRequest {
  gr_Step : str; gr_UI : str; gr_ChallengeID : str; gr_Nonce : Z; gr_Ticket : str
}.

Inductive gate_response :=
| MethodNotAllowed | UntrustedProxy | GateUnavailable | BadRequest
| StatusSlowDown
| StatusAnswer (required : bool)
| ChallengeTooSoon
| ChallengeIssued (tier : Z) (c : GateChallenge) (offer : Offer)
| PassIssued (token : str) (expires : Z)
| TooEarly (retry : Z)
| ChallengeGone
| InvalidSolution
| UnknownStep.

(** The preset of a tier, inside the safe envelope. *)
Definition tier_preset (a : AbuseConfig) (tier : Z) (web : bool) : Preset :=
  let preset :=
    if (0 <? tier) && (tier <? zlen (ac_PowTiers a))
    then let t := nth (Z.to_nat tier) (ac_PowTiers a) (mkPowTier 0 0 0 0 0) in
         mkPreset (pt_T t) (pt_M t) (pt_P t) (pt_Difficulty t)
    else mkPreset 0 0 0 0 in
  (Clamp preset web).1.

(** [rand] supplies the bytes of one call. *)
Definition handleJoinGate (g : GateStore) (now : time) (post trusted : bool) (a : option AbuseConfig)
    (attack : option AttackState) (is_degraded : bool) (clientIP serverPub : str) (req : option gateRequest)
    (rand1 rand2 : option str) : gate_response * GateStore :=
  if negb post then (MethodNotAllowed, g)
  else if negb trusted then (UntrustedProxy, g)
  else match a with
  | None => (GateUnavailable, g)
  | Some a =>
      match req with
      | None => (BadRequest, g)
      | Some req =>
          if str_eqb (gr_Step req) (lit "status") then
            let '(ok, g) := AllowStatus g now clientIP in
            if ok then (StatusAnswer (gateRequired (Some a) true is_degraded), g) else (StatusSlowDown, g)
          else if str_eqb (gr_Step req) (lit "challenge") then
            let tier := gateTier (Some a) attack in
            let preset := tier_preset a tier (str_eqb (gr_UI req) (lit "web")) in
            match Request g now clientIP tier preset (ac_JoinWaitMin a) (ac_JoinWaitMax a) (ac_PowTTL a) serverPub rand1 rand2 with
            | (None, g) => (ChallengeTooSoon, g)
            | (Some c, g) =>
                (ChallengeIssued tier c (mkOffer tier preset (gc_Salt c) (UnixSec (gc_Expires c)) (gc_ID c)), g)
            end
          else if str_eqb (gr_Step req) (lit "submit") then
            match Submit g now clientIP (gr_ChallengeID req) (gr_Nonce req) (gr_Ticket req) (ac_PassTTL a) rand1 with
            | (Some p, SubmitOK, g) => (PassIssued (gp_Token p) (UnixSec (gp_Expires p)), g)
            | (_, SubmitEarly, g) =>
                let earliest := default 0 (ChallengeEarliest g (gr_ChallengeID req)) in
                let retry := to_int (Seconds (Sub earliest now)) + 1 in
                (TooEarly (if retry <? 1 then 1 else retry), g)
            | (_, SubmitGone, g) => (ChallengeGone, g)
            | (_, _, g) => (InvalidSolution, g)
            end
          else (UnknownStep, g)
      end
  end.
End gate.

(** * Theorems *)

(** ** The wait *)

Lemma be_int64_range b : - 2 ^ 63 <= be_int64 b < 2 ^ 63.
Proof. apply i64_range. Qed.

(** The wait is in range, but for one byte string in 2^64: the least integer is
    its own negation. *)
Lemma randInt63n_range n b : 0 < n < 2 ^ 63 -> match b with Some b => be_int64 b <> - 2 ^ 63 | None => True end ->
  0 <= randInt63n n b < n.
Proof.
  intros Hn Hb. unfold randInt63n. replace (n <=? 0) with false by lia. destruct b as [b|]; [|lia].
  pose proof (be_int64_range b). cbv zeta. destruct (be_int64 b <? 0) eqn:E.
  - rewrite i64_small by (unfold is_i64; lia). apply Z.rem_bound_pos; lia.
  - apply Z.rem_bound_pos; lia.
Qed.

Lemma randInt63n_min : randInt63n 1000 (Some (byte_of 128 :: repeat (byte_of 0) 7)) = -808.
Proof. vm_compute. reflexivity. Qed.

(** ** Tickets bind the address *)

Lemma itoa_no_bar n : "|"%char ∉ itoa n.
Proof. apply itoa_no_byte; done. Qed.

(** Equal tickets come from equal bindings, unless HMAC-SHA256 collides. *)
Definition hmac_collision (key : str) : Prop :=
  exists m m', m <> m' /\ hmac_sha256 key m = hmac_sha256 key m'.

Lemma ticket_binds g ip ip' id earliest :
  ticket g ip id earliest = ticket g ip' id earliest -> ip = ip' \/ hmac_collision (g_key g).
Proof.
  intros H. unfold ticket in H. apply hex_encode_inj in H.
  destruct (decide (ticket_input ip id earliest = ticket_input ip' id earliest)) as [E|E].
  - left. unfold ticket_input in E. by apply app_inv_tail in E.
  - right. by exists (ticket_input ip id earliest), (ticket_input ip' id earliest).
Qed.

(** ** A pass is earned *)

Section passes.
Context {A2 : Argon2}.
Variable key : str.

Inductive gate_event :=
| ERequest (now : time) (ip : str) (tier : Z) (preset : Preset) (waitMin waitMax ttl : duration)
    (serverPub : str) (id_bytes wait_bytes : option str)
| ESubmit (now : time) (ip id : str) (nonce : Z) (tk : str) (passTTL : duration) (token_bytes : option str)
| EUse (now : time) (ip token : str) (singleUse : bool)
| ESweep (now : time)
| EStatus (now : time) (ip : str).

(** What the caller sees. *)
Inductive gate_answer :=
| AIssued (c : option GateChallenge)
| ASubmitted (p : option GatePass) (code : SubmitCode)
| AUsed (ok : bool)
| ADone.

Definition gate_step (g : GateStore) (ev : gate_event) : gate_answer * GateStore :=
  match ev with
  | ERequest now ip tier preset wmin wmax ttl pub idb wb =>
      let '(c, g) := Request g now ip tier preset wmin wmax ttl pub idb wb in (AIssued c, g)
  | ESubmit now ip id nonce tk ttl tb => let '(p, code, g) := Submit g now ip id nonce tk ttl tb in (ASubmitted p code, g)
  | EUse now ip tok single => let '(ok, g) := UsePass g now ip tok single in (AUsed ok, g)
  | ESweep now => (ADone, gate_Sweep g now)
  | EStatus now ip => let '(ok, g) := AllowStatus g now ip in (AUsed ok, g)
  end.

Fixpoint gate_run (g : GateStore) (evs : list gate_event) : list (gate_event * gate_answer) * GateStore :=
  match evs with
  | [] => ([], g)
  | ev :: evs' =>
      let '(a, g1) := gate_step g ev in
      let '(h, g2) := gate_run g1 evs' in ((ev, a) :: h, g2)
  end.

(** A challenge some address asked for. *)
Definition issued (H : list (gate_event * gate_answer)) (c : GateChallenge) (ip : str) : Prop :=
  exists now tier preset wmin wmax ttl pub idb wb,
    (ERequest now ip tier preset wmin wmax ttl pub idb wb, AIssued (Some c)) ∈ H /\
    gc_Preset c = preset /\ gc_Salt c = lit "v1|" ++ pub ++ "|"%char :: ip ++ "|"%char :: gc_ID c /\
    gc_Ticket c = hex_encode (hmac_sha256 key (ticket_input ip (gc_ID c) (gc_Earliest c))).

(** A pass bought with a solved challenge, in its time window, with the
    challenge's ticket for the buyer's address. *)
Definition earned (H : list (gate_event * gate_answer)) (p : GatePass) : Prop :=
  exists c now nonce tk ttl tb ip0,
    (ESubmit now (gp_IP p) (gc_ID c) nonce tk ttl tb, ASubmitted (Some p) SubmitOK) ∈ H /\
    issued H c ip0 /\ gc_Earliest c <= now <= gc_Expires c /\
    Verify (gc_Preset c) (gc_Salt c) nonce = true /\ gp_Expires p = Add now ttl /\
    tk = hex_encode (hmac_sha256 key (ticket_input (gp_IP p) (gc_ID c) (gc_Earliest c))).

Record gate_inv (H : list (gate_event * gate_answer)) (g : GateStore) : Prop := {
  gi_key : g_key g = key;
  gi_chal : forall id c, g_challenges g !! id = Some c -> gc_ID c = id /\ gc_Used c = false /\ exists ip, issued H c ip;
  gi_pass : forall tok p, g_passes g !! tok = Some p -> gp_Token p = tok /\ earned H p
}.

Lemma issued_app H H' c ip : issued H c ip -> issued (H ++ H') c ip.
Proof.
  intros (now & tier & preset & a & b & d & pub & e & f & Hin & Hr).
  exists now, tier, preset, a, b, d, pub, e, f. split; [set_solver|done].
Qed.

Lemma earned_app H H' p : earned H p -> earned (H ++ H') p.
Proof.
  intros (c & now & nonce & tk & ttl & tb & ip0 & Hin & Hi & Hr).
  exists c, now, nonce, tk, ttl, tb, ip0. split; [set_solver|]. split; [by apply issued_app|done].
Qed.

Lemma inv_app H H' g : gate_inv H g -> gate_inv (H ++ H') g.
Proof.
  intros [H1 H2 H3]. split; [done| |].
  - intros id c Hc. destruct (H2 _ _ Hc) as (E & Hu & ip & Hi). split; [done|]. split; [done|]. exists ip. by apply issued_app.
  - intros tok p Hp. destruct (H3 _ _ Hp) as [E He]. split; [done|]. by apply earned_app.
Qed.

(** Dropping challenges or passes keeps the invariant. *)
Lemma inv_sub H g cs ps c1 c2 :
  gate_inv H g -> cs ⊆ g_challenges g -> ps ⊆ g_passes g -> gate_inv H (mkGate (g_key g) cs ps c1 c2).
Proof.
  intros [H1 H2 H3] Hc Hp. split; [done| |]; cbn [g_challenges g_passes].
  - intros id c Hid. apply H2. eapply map_subseteq_spec; [exact Hc|done].
  - intros tok p Htok. apply H3. eapply map_subseteq_spec; [exact Hp|done].
Qed.

Lemma Request_inv H g now ip tier preset wmin wmax ttl pub idb wb :
  gate_inv H g ->
  let '(c, g') := Request g now ip tier preset wmin wmax ttl pub idb wb in
  gate_inv (H ++ [(ERequest now ip tier preset wmin wmax ttl pub idb wb, AIssued c)]) g'.
Proof.
  intros Hg. unfold Request. destruct (cooldown_Allow _ _ _ _) as [ok cd].
  assert (forall H', gate_inv (H ++ H') (mkGate (g_key g) (g_challenges g) (g_passes g) cd (g_statusCooldown g))) as Hdrop
    by (intros H'; by apply inv_app, inv_sub).
  destruct ok; cbn [negb]; [|apply Hdrop]. destruct idb as [raw|]; [|apply Hdrop]. cbv zeta.
  set (c := mkGateChallenge _ _ _ _ _ _ _ _). destruct (Hdrop [(ERequest now ip tier preset wmin wmax ttl pub (Some raw) wb, AIssued (Some c))]) as [D1 D2 D3].
  split; [done| |exact D3]. cbn [g_challenges]. intros id c' [[<- <-]|[_ Hc]]%lookup_insert_Some; [|by apply D2].
  split; [done|]. split; [done|]. exists ip. exists now, tier, preset, wmin, wmax, ttl, pub, (Some raw), wb.
  split; [set_solver|]. split; [done|]. split; [done|]. cbn [gc_Ticket c gc_ID gc_Earliest]. unfold ticket.
  cbn [g_key]. by rewrite (gi_key _ _ Hg).
Qed.

Lemma Submit_inv H g now ip id nonce tk ttl tb :
  gate_inv H g ->
  let '(p, code, g') := Submit g now ip id nonce tk ttl tb in
  gate_inv (H ++ [(ESubmit now ip id nonce tk ttl tb, ASubmitted p code)]) g'.
Proof.
  intros Hg. unfold Submit.
  assert (forall H', gate_inv (H ++ H') (drop_challenge g id)) as Hdrop
    by (intros H'; apply inv_app, inv_sub; [done|apply delete_subseteq|done]).
  destruct (g_challenges g !! id) as [c|] eqn:Ec; [|apply Hdrop].
  destruct (gi_chal _ _ Hg _ _ Ec) as (Eid & Hu & ip0 & Hi). rewrite Hu. cbn [orb].
  destruct (After now (gc_Expires c)) eqn:Ex; [apply Hdrop|].
  destruct (str_eqb tk _) eqn:Et; cbn [negb]; [|apply Hdrop].
  destruct (Before now (gc_Earliest c)) eqn:Eb; [by apply inv_app|].
  destruct (Verify _ _ _) eqn:Ev; cbn [negb]; [|apply Hdrop]. destruct tb as [raw|]; [|apply Hdrop]. cbv zeta.
  set (p := mkPass _ _ _). destruct (Hdrop [(ESubmit now ip id nonce tk ttl (Some raw), ASubmitted (Some p) SubmitOK)]) as [D1 D2 D3].
  split; [done|exact D2|]. cbn [g_passes]. intros tok p' [[<- <-]|[_ Hp]]%lookup_insert_Some; [|by apply D3].
  split; [done|]. exists c, now, nonce, tk, ttl, (Some raw), ip0. cbn [gp_IP p gp_Expires]. rewrite Eid.
  split; [set_solver|]. split; [by apply issued_app|].
  unfold After, Before in *. split; [lia|]. split; [done|]. split; [done|].
  apply str_eqb_eq in Et. rewrite Et. unfold ticket. by rewrite (gi_key _ _ Hg).
Qed.

Lemma gate_step_inv H g ev :
  gate_inv H g -> gate_inv (H ++ [(ev, (gate_step g ev).1)]) (gate_step g ev).2.
Proof.
  intros Hg. destruct ev as [now ip tier preset wmin wmax ttl pub idb wb|now ip id nonce tk ttl tb|now ip tok single|now|now ip];
    cbn [gate_step].
  - pose proof (Request_inv H g now ip tier preset wmin wmax ttl pub idb wb Hg) as Hr. by destruct (Request _ _ _ _ _ _ _ _ _ _ _).
  - pose proof (Submit_inv H g now ip id nonce tk ttl tb Hg) as Hs. by destruct (Submit _ _ _ _ _ _ _ _) as [[p code] g'].
  - assert (gate_inv H (UsePass g now ip tok single).2) as Hu.
    { unfold UsePass. destruct (g_passes g !! tok); [|done]. destruct (_ || _); [done|].
      destruct single; [|done]. apply inv_sub; [done|done|apply delete_subseteq]. }
    destruct (UsePass _ _ _ _ _) as [ok g']. by apply inv_app.
  - apply inv_app, inv_sub; [done|apply map_filter_subseteq|apply map_filter_subseteq].
  - unfold AllowStatus. destruct (cooldown_Allow _ _ _ _) as [ok cd]. cbn [fst snd]. by apply inv_app, inv_sub.
Qed.

Lemma gate_run_inv evs : forall H g, gate_inv H g -> gate_inv (H ++ (gate_run g evs).1) (gate_run g evs).2.
Proof.
  induction evs as [|ev evs IH]; intros H g Hg; cbn [gate_run]; [by rewrite app_nil_r|].
  pose proof (gate_step_inv H g ev Hg) as Hs. destruct (gate_step g ev) as [a g1]. cbn [fst snd] in Hs.
  specialize (IH _ _ Hs). destruct (gate_run g1 evs) as [h g2]. cbn [fst snd] in *. by rewrite <- app_assoc in IH.
Qed.

End passes.

(** ** One challenge, one answer *)

(** A submission spends its challenge: unless it is merely early, the
    challenge is gone afterwards and the same id answers "gone" until it is
    issued again; an early one changes nothing; and no submission touches
    another challenge or another pass. *)
Theorem Submit_spends {A2 : Argon2} g now ip id nonce tk ttl tb :
  let '(p, code, g') := Submit g now ip id nonce tk ttl tb in
  (code = SubmitEarly -> g' = g) /\
  (code <> SubmitEarly -> g_challenges g' = delete id (g_challenges g) /\
     forall now' ip' nonce' tk' ttl' tb', (Submit g' now' ip' id nonce' tk' ttl' tb').1 = (None, SubmitGone)) /\
  (code = SubmitOK <-> exists q, p = Some q /\ g_passes g' = <[gp_Token q := q]> (g_passes g)) /\
  (code <> SubmitOK -> p = None /\ g_passes g' = g_passes g).
Proof.
  assert (forall g', g_challenges g' = delete id (g_challenges g) ->
    forall now' ip' nonce' tk' ttl' tb', (Submit g' now' ip' id nonce' tk' ttl' tb').1 = (None, SubmitGone)) as Hgone.
  { intros g' E now' ip' nonce' tk' ttl' tb'. unfold Submit. by rewrite E, lookup_delete_eq. }
  assert (forall code, code <> SubmitOK -> code <> SubmitEarly -> forall g', g' = drop_challenge g id ->
    (code = SubmitEarly -> g' = g) /\
    (code <> SubmitEarly -> g_challenges g' = delete id (g_challenges g) /\
       forall now' ip' nonce' tk' ttl' tb', (Submit g' now' ip' id nonce' tk' ttl' tb').1 = (None, SubmitGone)) /\
    (code = SubmitOK <-> exists q, @None GatePass = Some q /\ g_passes g' = <[gp_Token q := q]> (g_passes g)) /\
    (code <> SubmitOK -> @None GatePass = None /\ g_passes g' = g_passes g)) as Hdrop.
  { intros code H1 H2 g' ->. split; [done|]. split; [intros _; split; [done|by apply Hgone]|].
    split; [|done]. split; [done|by intros (q & ? & _)]. }
  unfold Submit. destruct (g_challenges g !! id) as [c|] eqn:Ec; [|by apply Hdrop].
  destruct (_ || _); [by apply Hdrop|]. destruct (negb (str_eqb _ _)); [by apply Hdrop|].
  destruct (Before _ _).
  { split; [done|]. split; [done|]. split; [|done]. split; [done|by intros (q & ? & _)]. }
  destruct (negb (Verify _ _ _)); [by apply Hdrop|]. destruct tb as [raw|]; [|by apply Hdrop]. cbv zeta.
  split; [done|]. split; [intros _; split; [done|by apply Hgone]|]. split; [|done]. split; [|done].
  intros _. eexists. split; [done|]. done.
Qed.

(** A concrete entry: ask, wait, solve, enter. *)
Definition sample_key : str := lit "boot key".
Definition sample_ip : str := lit "10.0.0.7".
Definition sample_entry : list gate_event :=
  [ERequest 5 sample_ip 0 (mkPreset 1 1 1 0) 3 3 100 (lit "pub") (Some (lit "id")) None;
   ESubmit 9 sample_ip (hex_encode (lit "id")) 0
     (hex_encode (hmac_sha256 sample_key (ticket_input sample_ip (hex_encode (lit "id")) 8))) 60 (Some (lit "tok"))].

