(* ===== verification/Screener.v ===== *)
(** In-chat proof-of-work screening ([server/powscreen.go]): the outstanding
    challenge of each connection, the mutes, the re-check timers, the answers of
    a client and the periodic tick that scores, challenges and enforces
    deadlines.  Connections are numbers; the screener's methods run under its
    mutex; the clock and random bytes are arguments. *)

From S2P Require Import Prelude Bytes Sha2 Utf8 Wire Json Floats Crypto Guard Pow Clock Behavior Abuse Engine Attack Gate.
Local Open Scope Z_scope.

Abbreviation Conn := Z (only parsing).

Record ScreenChallenge := mkScreen {
  sc_ID : str;
  sc_IP : str;
  sc_Conn : Conn;
  sc_Tier : Z;
  sc_Preset : Preset;
  sc_Salt : str;
  sc_Expires : time
}.

Record PowScreener := mkScreener {
  ps_screens : gmap Z ScreenChallenge;
  ps_byID : gmap str Z;
  ps_muted : gset Z;
  ps_nextCheck : gmap str time
}.

Definition NewPowScreener : PowScreener := mkScreener ∅ ∅ ∅ ∅.

Section screener.
Context {A2 : Argon2}.
Variable sc : PowScreener.

Definition Issue (conn : Conn) (ip : str) (tier : Z) (preset : Preset) (salt id : str) (expires : time) : PowScreener :=
  let byID := match ps_screens sc !! conn with Some old => delete (sc_ID old) (ps_byID sc) | None => ps_byID sc end in
  mkScreener (<[conn := mkScreen id ip conn tier preset salt expires]> (ps_screens sc)) (<[id := conn]> byID)
    (ps_muted sc ∖ {[conn]}) (ps_nextCheck sc).

Definition drop_screen (conn : Conn) (id : str) : PowScreener :=
  mkScreener (delete conn (ps_screens sc)) (delete id (ps_byID sc)) (ps_muted sc) (ps_nextCheck sc).

Definition Resolve (now : time) (id : str) (nonce : Z) : option Conn * PowScreener :=
  match ps_byID sc !! id with
  | None => (None, sc)
  | Some conn =>
      match ps_screens sc !! conn with
      | None => (None, drop_screen conn id)
      | Some ch =>
          if After now (sc_Expires ch) then (None, drop_screen conn id)
          else if negb (Verify (sc_Preset ch) (sc_Salt ch) nonce) then (None, drop_screen conn id)
          else
            let sc' := drop_screen conn id in
            (Some conn, mkScreener (ps_screens sc') (ps_byID sc') (ps_muted sc' ∖ {[conn]}) (ps_nextCheck sc'))
      end
  end.

Definition Decline (id : str) : option Conn * PowScreener :=
  match ps_byID sc !! id with
  | None => (None, sc)
  | Some conn =>
      let sc' := drop_screen conn id in
      (Some conn, mkScreener (ps_screens sc') (ps_byID sc') ({[conn]} ∪ ps_muted sc') (ps_nextCheck sc'))
  end.

Definition IsMuted (conn : Conn) : bool := bool_decide (conn ∈ ps_muted sc).

Definition Unmute (conn : Conn) : PowScreener :=
  mkScreener (ps_screens sc) (ps_byID sc) (ps_muted sc ∖ {[conn]}) (ps_nextCheck sc).

Definition overdue (now : time) (ch : ScreenChallenge) : bool := negb (Before now (sc_Expires ch)).

(** The connections to kick and to mute, in the map's order. *)
Definition CheckDeadline (now : time) (underAttack : bool) : list Conn * list Conn * PowScreener :=
  let late := filter (fun kv => overdue now kv.2 = true) (ps_screens sc) in
  let conns := (map_to_list late).*1 in
  let screens := filter (fun kv => overdue now kv.2 = false) (ps_screens sc) in
  let byID := foldr (fun kv m => delete (sc_ID kv.2) m) (ps_byID sc) (map_to_list late) in
  if underAttack then (conns, [], mkScreener screens byID (ps_muted sc) (ps_nextCheck sc))
  else ([], conns, mkScreener screens byID (list_to_set conns ∪ ps_muted sc) (ps_nextCheck sc)).

Definition DropConn (conn : Conn) : PowScreener :=
  match ps_screens sc !! conn with
  | Some ch =>
      mkScreener (delete conn (ps_screens sc)) (delete (sc_ID ch) (ps_byID sc)) (ps_muted sc ∖ {[conn]}) (ps_nextCheck sc)
  | None => mkScreener (ps_screens sc) (ps_byID sc) (ps_muted sc ∖ {[conn]}) (ps_nextCheck sc)
  end.

Definition Get (conn : Conn) : option ScreenChallenge := ps_screens sc !! conn.
Definition Has (conn : Conn) : bool := bool_decide (is_Some (ps_screens sc !! conn)).

Definition Due (ip : str) (now : time) : bool :=
  match ps_nextCheck sc !! ip with Some next => negb (Before now next) | None => true end.
Definition Defer (ip : str) (t : time) : PowScreener :=
  mkScreener (ps_screens sc) (ps_byID sc) (ps_muted sc) (<[ip := t]> (ps_nextCheck sc)).
Definition ForgetCheck (ip : str) : PowScreener :=
  mkScreener (ps_screens sc) (ps_byID sc) (ps_muted sc) (delete ip (ps_nextCheck sc)).
End screener.

(** * A client's answer (handlePowFrame) *)

Record PowResult := mkPowResult { pr_Type : str; pr_ChallengeID : str; pr_Nonce : Z }.
Record PowDecline := mkPowDecline { pd_Type : str; pd_ChallengeID : str }.

Inductive pow_frame_outcome := FrameIgnored | FramePassed | FrameWrong | FrameDeclined.

(** [result] and [decline] are the decoded frame when its raw text contains the
    quoted type name and decodes; the session is told the outcome. *)
Definition handlePowFrame {A2 : Argon2} (sc : PowScreener) (now : time) (session : Conn)
    (contains_result : bool) (result : option PowResult) (contains_decline : bool) (decline : option PowDecline)
    : pow_frame_outcome * PowScreener :=
  if contains_result then
    match result with
    | None => (FrameIgnored, sc)
    | Some res =>
        if negb (str_eqb (pr_Type res) (lit "pow_result")) then (FrameIgnored, sc)
        else
          let '(conn, sc) := Resolve sc now (pr_ChallengeID res) (pr_Nonce res) in
          match conn with
          | Some c => if c =? session then (FramePassed, sc) else (FrameWrong, sc)
          | None => (FrameWrong, sc)
          end
    end
  else if contains_decline then
    match decline with
    | None => (FrameIgnored, sc)
    | Some d =>
        if negb (str_eqb (pd_Type d) (lit "pow_decline")) then (FrameIgnored, sc)
        else match Decline sc (pd_ChallengeID d) with
             | (Some _, sc) => (FrameDeclined, sc)
             | (None, sc) => (FrameIgnored, sc)
             end
    end
  else (FrameIgnored, sc).

(** * The periodic tick *)

Record Session := mkSession { ses_Conn : Conn; ses_IP : str; ses_Web : bool }.

Definition randRecheck (bc : BehaviorConfig) (b : option str) : duration :=
  if bc_RecheckMax bc <=? bc_RecheckMin bc then bc_RecheckMin bc
  else i64 (bc_RecheckMin bc + randInt63n (i64 (bc_RecheckMax bc - bc_RecheckMin bc)) b).

(** A challenge for one session; [id_bytes] is the random id. *)
Definition issueScreenChallenge (sc : PowScreener) (sess : Session) (tier : Z) (now : time) (a : AbuseConfig)
    (serverPub : str) (id_bytes : option str) : option Offer * PowScreener :=
  let t := nth (Z.to_nat tier) (ac_PowTiers a) (mkPowTier 0 0 0 0 0) in
  let preset := (Clamp (mkPreset (pt_T t) (pt_M t) (pt_P t) (pt_Difficulty t)) (ses_Web sess)).1 in
  match id_bytes with
  | None => (None, sc)
  | Some raw =>
      let id := hex_encode raw in
      let salt := lit "chat|" ++ serverPub ++ "|"%char :: ses_IP sess ++ "|"%char :: id in
      let deadline := Add now (ac_ScreenDeadline a) in
      (Some (mkOffer tier preset salt (UnixSec deadline) id),
       Issue sc (ses_Conn sess) (ses_IP sess) tier preset salt id deadline)
  end.

(** The inputs of one session's turn: the profile map's order, its group keys and
    the random bytes of the timer and of the id. *)
Record turn := mkTurn { tn_order : MapOrder; tn_keys : list str; tn_wait : option str; tn_id : option str }.

(** One session of the loop; a challenge may be issued. *)
Definition tick_session {A2 : Argon2} {P : MathPow} (a : AbuseConfig) (bc : BehaviorConfig) (now : time)
    (loc : option Location) (under : bool) (scale : f64) (serverPub : str)
    (st : BehaviorEngine * PowScreener * list Offer) (x : Session * turn) : BehaviorEngine * PowScreener * list Offer :=
  let '(e, sc, offers) := st in
  let '(sess, tn) := x in
  let ip := ses_IP sess in
  if str_eqb ip [] || negb (Due sc ip now) then st
  else
    let sc := Defer sc ip (Add now (randRecheck bc (tn_wait tn))) in
    let '(tier, _, e) := Score e (tn_order tn) (tn_keys tn) ip bc now loc in
    let maxTier := ac_PowTierCount a - 1 in
    let tier := if under then ApplyBump tier scale (bc_BumpMax bc) maxTier else tier in
    if (tier <? 1) || (maxTier <? tier) || Has sc (ses_Conn sess) then (e, sc, offers)
    else
      let '(o, sc) := issueScreenChallenge sc sess tier now a serverPub (tn_id tn) in
      (e, sc, match o with Some o => offers ++ [o] | None => offers end).

Definition behaviorSaveInterval : duration := 5 * Minute.

Record tick_result := mkTick {
  tk_engine : BehaviorEngine;
  tk_screener : PowScreener;
  tk_offers : list Offer;
  tk_kick : list Conn;
  tk_mute : list Conn;
  tk_save : bool;
  tk_stats : option (gmap Z Z)
}.

(** [ip_of] finds the address of a registered connection; [retention] indexes
    [bc_Retention] by tier. *)
Definition retention_map (bc : BehaviorConfig) : gmap Z duration :=
  list_to_map (imap (fun n r => (Z.of_nat n, r)) (bc_Retention bc)).

Definition observe_late (now : time) (ip_of : Conn -> option str) (order : MapOrder) (e : BehaviorEngine) (conns : list Conn)
    : BehaviorEngine :=
  fold_left (fun e c => match ip_of c with Some ip => ObserveChallenge e order ip now | None => e end) conns e.

Definition behaviorTick {A2 : Argon2} {P : MathPow} (a : AbuseConfig) (bc : BehaviorConfig) (e : BehaviorEngine)
    (sc : PowScreener) (now : time) (loc : option Location) (under : bool) (scale : f64) (serverPub : str)
    (sessions : list (Session * turn)) (ip_of : Conn -> option str) (order : MapOrder) (lastSave lastStats : time)
    : tick_result :=
  let '(e, sc, offers) := fold_left (tick_session a bc now loc under scale serverPub) sessions (e, sc, []) in
  let '(kick, mute, sc) := CheckDeadline sc now under in
  let e := observe_late now ip_of order e (mute ++ kick) in
  let save := behaviorSaveInterval <=? Sub now lastSave in
  let ret := retention_map bc in
  let e := if save && (0 <? zlen (bc_Retention bc)) then engine_Prune e now ret (default 0 (ret !! 0)) else e in
  let '(stats, e) :=
    if bc_StatsEnabled bc && (bc_StatsWindow bc <=? Sub now lastStats) then SnapshotStats e else (None, e) in
  mkTick e sc offers kick mute save stats.

(** * Specification: one state per connection *)

Inductive screen_state :=
| Free
| Asked (ch : ScreenChallenge)
| Muted.

Inductive screen_op :=
| OIssue (conn : Conn) (ip : str) (tier : Z) (preset : Preset) (salt id : str) (expires : time)
| OResolve (now : time) (id : str) (nonce : Z)
| ODecline (id : str)
| OUnmute (conn : Conn)
| ODeadline (now : time) (underAttack : bool)
| ODrop (conn : Conn).

Section spec.
Context {A2 : Argon2}.

Definition spec_step (f : Conn -> screen_state) (op : screen_op) : Conn -> screen_state :=
  match op with
  | OIssue conn ip tier preset salt id expires =>
      fun c => if c =? conn then Asked (mkScreen id ip conn tier preset salt expires) else f c
  | OResolve _ id _ =>
      fun c => match f c with Asked ch => if str_eqb (sc_ID ch) id then Free else f c | _ => f c end
  | ODecline id =>
      fun c => match f c with Asked ch => if str_eqb (sc_ID ch) id then Muted else f c | _ => f c end
  | OUnmute conn => fun c => if c =? conn then match f c with Muted => Free | s => s end else f c
  | ODeadline now under =>
      fun c => match f c with
               | Asked ch => if overdue now ch then (if under then Free else Muted) else f c
               | _ => f c
               end
  | ODrop conn => fun c => if c =? conn then Free else f c
  end.

Definition screen_step (sc : PowScreener) (op : screen_op) : PowScreener :=
  match op with
  | OIssue conn ip tier preset salt id expires => Issue sc conn ip tier preset salt id expires
  | OResolve now id nonce => (Resolve sc now id nonce).2
  | ODecline id => (Decline sc id).2
  | OUnmute conn => Unmute sc conn
  | ODeadline now under => (CheckDeadline sc now under).2
  | ODrop conn => DropConn sc conn
  end.

(** A new challenge never takes the id of an outstanding one. *)
Definition fresh_id (sc : PowScreener) (op : screen_op) : Prop :=
  match op with OIssue _ _ _ _ _ id _ => ps_byID sc !! id = None | _ => True end.

Fixpoint screen_run (sc : PowScreener) (ops : list screen_op) : PowScreener :=
  match ops with [] => sc | op :: ops' => screen_run (screen_step sc op) ops' end.

Fixpoint fresh_ids (sc : PowScreener) (ops : list screen_op) : Prop :=
  match ops with [] => True | op :: ops' => fresh_id sc op /\ fresh_ids (screen_step sc op) ops' end.
End spec.

(** * Theorems *)

Record refines (sc : PowScreener) (f : Conn -> screen_state) : Prop := {
  rf_asked : forall c ch, ps_screens sc !! c = Some ch <-> f c = Asked ch;
  rf_muted : forall c, c ∈ ps_muted sc <-> f c = Muted;
  rf_id : forall id c, ps_byID sc !! id = Some c <-> exists ch, f c = Asked ch /\ sc_ID ch = id
}.

Lemma foldr_delete_by {A B} (g : A -> str) (l : list A) (m : gmap str B) k :
  foldr (fun x m => delete (g x) m) m l !! k = if decide (k ∈ map g l) then None else m !! k.
Proof.
  induction l as [|x l IH]; [done|]. cbn [foldr map]. destruct (decide (k = g x)) as [->|Hne].
  - rewrite lookup_delete_eq, decide_True by by left. done.
  - rewrite lookup_delete_ne by done. rewrite IH. repeat case_decide; set_solver.
Qed.

Section refinement.
Context {A2 : Argon2}.

(** Taking a challenge off the books. *)
Lemma refines_off sc f conn ch next muted' :
  refines sc f -> f conn = Asked ch -> (next = Free \/ next = Muted) ->
  (forall c, c ∈ muted' <-> if c =? conn then next = Muted else c ∈ ps_muted sc) ->
  refines (mkScreener (delete conn (ps_screens sc)) (delete (sc_ID ch) (ps_byID sc)) muted' (ps_nextCheck sc))
          (fun c => if c =? conn then next else f c).
Proof.
  intros [H1 H2 H3] Hf Hn Hm. assert (forall ch', next <> Asked ch') as Hna by (intros ch'; destruct Hn as [-> | ->]; done).
  split; cbn [ps_screens ps_byID ps_muted].
  - intros c ch'. destruct (c =? conn) eqn:E.
    + apply Z.eqb_eq in E as ->. rewrite lookup_delete_eq. split; [done|]. intros Hx. by apply Hna in Hx.
    + rewrite lookup_delete_ne by lia. apply H1.
  - intros c. rewrite Hm. destruct (c =? conn); [done|apply H2].
  - intros id c. destruct (decide (id = sc_ID ch)) as [->|Hid].
    + rewrite lookup_delete_eq. split; [done|]. intros (ch' & Hc & Hi). destruct (c =? conn) eqn:E; [by apply Hna in Hc|].
      assert (ps_byID sc !! sc_ID ch = Some c) as E1 by (apply H3; by exists ch').
      assert (ps_byID sc !! sc_ID ch = Some conn) as E2 by (apply H3; by exists ch). rewrite E1 in E2. injection E2 as ->. lia.
    + rewrite lookup_delete_ne by done. rewrite H3. destruct (c =? conn) eqn:E; [|done].
      apply Z.eqb_eq in E as ->. rewrite Hf. split; [|intros (ch' & Hx & _); by apply Hna in Hx].
      intros (ch' & [= <-] & Hi). by rewrite Hi in Hid.
Qed.

Lemma refines_ext sc f g : (forall c, f c = g c) -> refines sc f -> refines sc g.
Proof.
  intros E [H1 H2 H3]. split.
  - intros c ch. rewrite <- E. apply H1.
  - intros c. rewrite <- E. apply H2.
  - intros id c. setoid_rewrite <- E. apply H3.
Qed.

(** Only the owner of an id is asked with it. *)
Lemma id_owner sc f id conn ch c ch' :
  refines sc f -> f conn = Asked ch -> sc_ID ch = id -> f c = Asked ch' -> sc_ID ch' = id -> c = conn.
Proof.
  intros [_ _ H3] H1 H2 H4 H5. assert (ps_byID sc !! id = Some c) as E1 by (apply H3; by exists ch').
  assert (ps_byID sc !! id = Some conn) as E2 by (apply H3; by exists ch). rewrite E1 in E2. by injection E2.
Qed.

Lemma spec_off sc f id conn ch next :
  refines sc f -> f conn = Asked ch -> sc_ID ch = id ->
  forall c, (if c =? conn then next else f c) =
            match f c with Asked ch => if str_eqb (sc_ID ch) id then next else f c | _ => f c end.
Proof.
  intros Hr Hf Hi c. destruct (c =? conn) eqn:E.
  - apply Z.eqb_eq in E as ->. by rewrite Hf, Hi, str_eqb_refl.
  - destruct (f c) as [|ch'|] eqn:Ec; [done| |done]. destruct (str_eqb (sc_ID ch') id) eqn:Es; [|done].
    apply str_eqb_eq in Es. pose proof (id_owner sc f id conn ch c ch' Hr Hf Hi Ec Es). lia.
Qed.

Lemma spec_unknown sc f id next :
  refines sc f -> ps_byID sc !! id = None ->
  forall c, f c = match f c with Asked ch => if str_eqb (sc_ID ch) id then next else f c | _ => f c end.
Proof.
  intros Hr Hn c. destruct (f c) as [|ch|] eqn:Ec; [done| |done]. destruct (str_eqb (sc_ID ch) id) eqn:Es; [|done].
  apply str_eqb_eq in Es. assert (ps_byID sc !! id = Some c) as E by (apply (rf_id _ _ Hr); by exists ch). congruence.
Qed.

Lemma refines_issue sc f conn ip tier preset salt id expires :
  refines sc f -> ps_byID sc !! id = None ->
  refines (Issue sc conn ip tier preset salt id expires) (spec_step f (OIssue conn ip tier preset salt id expires)).
Proof.
  intros [H1 H2 H3] Hid. unfold Issue. cbn [spec_step]. set (byID := match ps_screens sc !! conn with Some _ => _ | None => _ end).
  assert (forall i c, byID !! i = Some c <-> c <> conn /\ ps_byID sc !! i = Some c) as Hb.
  { intros i c. unfold byID. destruct (ps_screens sc !! conn) as [old|] eqn:Eo.
    - apply H1 in Eo. destruct (decide (i = sc_ID old)) as [->|Hi].
      + rewrite lookup_delete_eq. split; [done|]. intros [Hc Hx].
        assert (ps_byID sc !! sc_ID old = Some conn) as E by (apply H3; by exists old). congruence.
      + rewrite lookup_delete_ne by done. split; [|tauto]. intros Hx. split; [|done]. intros ->.
        apply H3 in Hx as (ch & Hc & <-). rewrite Eo in Hc. injection Hc as <-. done.
    - split; [|tauto]. intros Hx. split; [|done]. intros ->. apply H3 in Hx as (ch & Hc & _). apply H1 in Hc. congruence. }
  split; cbn [ps_screens ps_byID ps_muted].
  - intros c ch. destruct (c =? conn) eqn:E; [apply Z.eqb_eq in E as ->; rewrite lookup_insert_eq; naive_solver|].
    rewrite lookup_insert_ne by lia. apply H1.
  - intros c. rewrite elem_of_difference, elem_of_singleton, H2. destruct (c =? conn) eqn:E; [|split; [tauto|split; [done|lia]]].
    split; [lia|done].
  - intros i c. destruct (decide (i = id)) as [->|Hi].
    + rewrite lookup_insert_eq. destruct (c =? conn) eqn:E.
      * apply Z.eqb_eq in E as ->. split; [intros _; eexists; by split|done].
      * split; [intros [= ->]; lia|]. intros (ch & Hc & Hi). assert (ps_byID sc !! id = Some c) as E2 by (apply H3; by exists ch). congruence.
    + rewrite lookup_insert_ne, Hb by done. destruct (c =? conn) eqn:E.
      * split; [lia|]. intros (ch & [= <-] & Hx). by cbn in Hx.
      * rewrite H3. split; [tauto|]. intros Hx. split; [lia|done].
Qed.

Lemma refines_deadline sc f now under :
  refines sc f -> refines (CheckDeadline sc now under).2 (spec_step f (ODeadline now under)).
Proof.
  intros [H1 H2 H3]. unfold CheckDeadline. cbn [spec_step]. set (late := filter _ (ps_screens sc)).
  set (byID := foldr _ _ _).
  assert (forall c ch, (c, ch) ∈ map_to_list late <-> f c = Asked ch /\ overdue now ch = true) as Hl.
  { intros c ch. unfold late. rewrite elem_of_map_to_list, map_lookup_filter_Some. cbn [snd]. by rewrite H1. }
  assert (forall c, c ∈ (map_to_list late).*1 <-> exists ch, f c = Asked ch /\ overdue now ch = true) as Hl1.
  { intros c. rewrite list_elem_of_fmap. split.
    - intros ([c' ch] & -> & Hx). exists ch. by apply Hl.
    - intros (ch & Hx). exists (c, ch). split; [done|]. by apply Hl. }
  assert (forall i c, byID !! i = Some c <-> exists ch, f c = Asked ch /\ sc_ID ch = i /\ overdue now ch = false) as Hb.
  { intros i c. unfold byID. rewrite foldr_delete_by. case_decide as Hin.
    - split; [done|]. intros (ch & Hc & Hi & Ho). exfalso.
      apply list_elem_of_In, in_map_iff in Hin as ([c' ch'] & Hi' & Hin). apply list_elem_of_In, Hl in Hin as [Hc' Ho'].
      cbn [snd] in Hi'. assert (c = c') as -> by (eapply (id_owner sc f i c' ch'); done). congruence.
    - rewrite H3. split.
      + intros (ch & Hc & Hi). exists ch. split; [done|]. split; [done|]. destruct (overdue now ch) eqn:Eo; [|done].
        exfalso. apply Hin, list_elem_of_In, in_map_iff. exists (c, ch). split; [done|]. by apply list_elem_of_In, Hl.
      + intros (ch & Hc & Hi & _). by exists ch. }
  assert (forall next, next = Free \/ next = Muted -> forall muted',
    (forall c, c ∈ muted' <-> (exists ch, f c = Asked ch /\ overdue now ch = true /\ next = Muted) \/ f c = Muted) ->
    refines (mkScreener (filter (fun kv => overdue now kv.2 = false) (ps_screens sc)) byID muted' (ps_nextCheck sc))
      (fun c => match f c with Asked ch => if overdue now ch then next else f c | _ => f c end)) as Hmk.
  { intros next Hn muted' Hm. split; cbn [ps_screens ps_byID ps_muted].
    - intros c ch. rewrite map_lookup_filter_Some, H1. cbn [snd]. destruct (f c) as [|ch'|] eqn:Ec; [naive_solver| |naive_solver].
      split; [intros ([= ->] & Hx); by rewrite Hx|]. destruct (overdue now ch') eqn:Eo; [destruct Hn as [-> | ->]; done|].
      by intros [= ->].
    - intros c. rewrite Hm. destruct (f c) as [|ch'|] eqn:Ec; [naive_solver| |naive_solver].
      split.
      + intros [(ch & [= ->] & -> & Hx)|Hx]; done.
      + destruct (overdue now ch') eqn:Eo; [|done]. intros ->. left. by exists ch'.
    - intros i c. rewrite Hb. destruct (f c) as [|ch'|] eqn:Ec; [naive_solver| |naive_solver].
      split.
      + intros (ch & [= ->] & Hi & Ho). rewrite Ho. by exists ch.
      + destruct (overdue now ch') eqn:Eo; [destruct Hn as [-> | ->]; by intros (? & ? & _)|].
        intros (ch & [= ->] & Hi). by exists ch. }
  destruct under; cbn [snd]; apply Hmk; try tauto.
  - intros c. rewrite H2. naive_solver.
  - intros c. rewrite elem_of_union, elem_of_list_to_set, Hl1, H2. naive_solver.
Qed.

Lemma screen_step_refines sc f op :
  refines sc f -> fresh_id sc op -> refines (screen_step sc op) (spec_step f op).
Proof.
  intros Hr Hf. destruct op as [conn ip tier preset salt id expires|now id nonce|id|conn|now under|conn]; cbn [screen_step fresh_id] in *.
  - by apply refines_issue.
  - unfold Resolve. destruct (ps_byID sc !! id) as [conn|] eqn:Ei; [|by eapply refines_ext; [apply (spec_unknown sc f id Free)|]].
    destruct (proj1 (rf_id _ _ Hr id conn) Ei) as (ch & Hc & Hi). pose proof (proj2 (rf_asked _ _ Hr conn ch) Hc) as Hs.
    rewrite Hs. pose proof (spec_off sc f id conn ch Free Hr Hc Hi) as Hspec. cbn [spec_step].
    assert (forall c, c ∈ ps_muted sc <-> if c =? conn then Free = Muted else c ∈ ps_muted sc) as Hm.
    { intros c. destruct (c =? conn) eqn:E; [|done]. apply Z.eqb_eq in E as ->. rewrite (rf_muted _ _ Hr), Hc. done. }
    pose proof (refines_off sc f conn ch Free (ps_muted sc) Hr Hc (or_introl eq_refl) Hm) as Hoff. rewrite Hi in Hoff.
    destruct (After _ _); [exact (refines_ext _ _ _ Hspec Hoff)|]. destruct (negb _); [exact (refines_ext _ _ _ Hspec Hoff)|].
    cbn [snd]. eapply refines_ext; [exact Hspec|]. rewrite <- Hi. cbn [drop_screen ps_screens ps_byID].
    apply (refines_off sc f conn ch); [done|done|by left|].
    intros c. rewrite elem_of_difference, elem_of_singleton. cbn [drop_screen ps_muted]. destruct (c =? conn) eqn:E; [|split; [tauto|split; [done|lia]]].
    split; [lia|done].
  - unfold Decline. destruct (ps_byID sc !! id) as [conn|] eqn:Ei; [|by eapply refines_ext; [apply (spec_unknown sc f id Muted)|]].
    destruct (proj1 (rf_id _ _ Hr id conn) Ei) as (ch & Hc & Hi). cbn [snd spec_step].
    eapply refines_ext; [exact (spec_off sc f id conn ch Muted Hr Hc Hi)|]. rewrite <- Hi. cbn [drop_screen ps_screens ps_byID].
    apply (refines_off sc f conn ch); [done|done|by right|].
    intros c. rewrite elem_of_union, elem_of_singleton. cbn [drop_screen ps_muted]. destruct (c =? conn) eqn:E; [|split; [|tauto]].
    + split; [done|intros _; left; lia].
    + intros [->|H]; [lia|done].
  - destruct Hr as [H1 H2 H3]. unfold Unmute. split; cbn [ps_screens ps_byID ps_muted spec_step].
    + intros c ch. rewrite H1. destruct (c =? conn); [|done]. destruct (f c); naive_solver.
    + intros c. rewrite elem_of_difference, elem_of_singleton, H2. destruct (c =? conn) eqn:E.
      * split; [lia|]. destruct (f c); naive_solver.
      * split; [tauto|]. intros Hx. split; [done|lia].
    + intros i c. rewrite H3. destruct (c =? conn); [|done]. destruct (f c); naive_solver.
  - by apply refines_deadline.
  - unfold DropConn. cbn [spec_step]. destruct (ps_screens sc !! conn) as [ch|] eqn:Es.
    + apply (rf_asked _ _ Hr) in Es. apply (refines_off sc f conn ch); [done|done|by left|].
      intros c. rewrite elem_of_difference, elem_of_singleton. destruct (c =? conn) eqn:E; [|split; [tauto|split; [done|lia]]].
      split; [lia|done].
    + assert (forall ch, f conn <> Asked ch) as Hna by (intros ch Hx; apply (rf_asked _ _ Hr) in Hx; congruence).
      destruct Hr as [H1 H2 H3]. split; cbn [ps_screens ps_byID ps_muted].
      * intros c ch. rewrite H1. destruct (c =? conn) eqn:E; [|done]. apply Z.eqb_eq in E as ->. naive_solver.
      * intros c. rewrite elem_of_difference, elem_of_singleton, H2. destruct (c =? conn) eqn:E; [|split; [tauto|split; [done|lia]]].
        split; [lia|done].
      * intros i c. rewrite H3. destruct (c =? conn) eqn:E; [|done]. apply Z.eqb_eq in E as ->. naive_solver.
Qed.

End refinement.

Definition sample_screen_ops : list screen_op :=
  [OIssue 1 (lit "a") 1 (mkPreset 1 1 1 0) (lit "s") (lit "id1") 50;
   OIssue 2 (lit "b") 1 (mkPreset 1 1 1 0) (lit "s") (lit "id2") 60; ODecline (lit "id1"); ODeadline 70 false].

