(* ===== verification/LinkedLog.v ===== *)
(** The chained lines of a server log as one list of linked messages: what any
    reader of the log can rely on, whichever lines reach it.  The server side
    ([ChainService]) produces such lists; the client side verifies against
    them. *)

From S2P Require Import Prelude Bytes Sha2 Utf8 Wire Json ChainLink Window HistoryScan HistoryStore ChainService.
Local Open Scope Z_scope.

(** The chained message a stored line carries. *)
Definition chained_wire (l : str) : option WireMessage :=
  match unmarshal_wire l with
  | Some w => if str_eqb (wm_ChainHash w) [] then None else Some w
  | None => None
  end.

Definition chained_wires (log : list str) : list WireMessage := omap chained_wire log.

(** Every message continues the one before it and hashes to its own link. *)
Fixpoint linked_log (tip : str) (height : Z) (ws : list WireMessage) : Prop :=
  match ws with
  | [] => True
  | w :: ws' =>
      exists next, ParseHex64 (wm_ChainPrev w) = Some tip /\ wm_ChainHeight w = height + 1 /\
        ParseHex64 (wm_ChainHash w) = Some next /\ VerifyWire tip w next = true /\
        linked_log next (height + 1) ws'
  end.

(** The hash a list of messages ends with. *)
Fixpoint end_tip (tip : str) (ws : list WireMessage) : str :=
  match ws with
  | [] => tip
  | w :: ws' => end_tip (default tip (ParseHex64 (wm_ChainHash w))) ws'
  end.

Lemma end_tip_app ws1 : forall tip ws2, end_tip tip (ws1 ++ ws2) = end_tip (end_tip tip ws1) ws2.
Proof. induction ws1 as [|w ws1 IH]; intros tip ws2; [done|]. apply IH. Qed.

Lemma linked_log_app ws1 : forall tip height ws2,
  linked_log tip height (ws1 ++ ws2) <->
  linked_log tip height ws1 /\ linked_log (end_tip tip ws1) (height + Z.of_nat (length ws1)) ws2.
Proof.
  induction ws1 as [|w ws1 IH]; intros tip height ws2.
  - cbn [app linked_log end_tip length]. change (Z.of_nat 0) with 0. rewrite Z.add_0_r. tauto.
  - cbn [app linked_log end_tip length]. split.
    + intros (next & H1 & H2 & H3 & H4 & H). rewrite H3. cbn [default]. apply IH in H as [Ha Hb]. split.
      * by exists next.
      * replace (height + Z.of_nat (S (length ws1))) with (height + 1 + Z.of_nat (length ws1)) by lia. exact Hb.
    + intros [(next & H1 & H2 & H3 & H4 & H) Hb]. exists next. rewrite H3 in Hb. cbn [default] in Hb. do 4 (split; [done|]).
      apply IH. split; [done|].
      replace (height + 1 + Z.of_nat (length ws1)) with (height + Z.of_nat (S (length ws1))) by lia. exact Hb.
Qed.

(** What one message of a linked log says about itself. *)
Lemma linked_lookup tip height ws i w :
  linked_log tip height ws -> ws !! i = Some w ->
  exists prev next, prev = end_tip tip (take i ws) /\ next = end_tip tip (take (S i) ws) /\
    ParseHex64 (wm_ChainPrev w) = Some prev /\ wm_ChainHeight w = height + Z.of_nat i + 1 /\
    ParseHex64 (wm_ChainHash w) = Some next /\ VerifyWire prev w next = true.
Proof.
  intros H Hi. assert (ws = take i ws ++ w :: drop (S i) ws) as E by (symmetry; by apply take_drop_middle).
  pose proof (lookup_lt_Some _ _ _ Hi) as Hlt.
  rewrite E in H. apply linked_log_app in H as [_ H]. rewrite length_take_le in H by lia.
  cbn [linked_log] in H. destruct H as (next & H1 & H2 & H3 & H4 & _).
  exists (end_tip tip (take i ws)), next. split; [done|]. split.
  - rewrite (take_S_r _ _ _ Hi), end_tip_app. cbn [end_tip]. by rewrite H3.
  - done.
Qed.

Lemma linked_heights tip height ws w :
  linked_log tip height ws -> w ∈ ws -> height < wm_ChainHeight w <= height + Z.of_nat (length ws).
Proof.
  intros H Hw. apply list_elem_of_lookup in Hw as [i Hi].
  destruct (linked_lookup _ _ _ _ _ H Hi) as (p & n & _ & _ & _ & Hh & _).
  pose proof (lookup_lt_Some _ _ _ Hi). lia.
Qed.

(** Two messages of one log at the same height are the same message. *)
Lemma linked_unique tip height ws i j w w' :
  linked_log tip height ws -> ws !! i = Some w -> ws !! j = Some w' ->
  wm_ChainHeight w = wm_ChainHeight w' -> i = j /\ w = w'.
Proof.
  intros H Hi Hj E.
  destruct (linked_lookup _ _ _ _ _ H Hi) as (p & n & _ & _ & _ & Hh & _).
  destruct (linked_lookup _ _ _ _ _ H Hj) as (p' & n' & _ & _ & _ & Hh' & _).
  assert (i = j) as -> by lia. split; [done|]. congruence.
Qed.

Lemma ParseHex64_length s b : ParseHex64 s = Some b -> length b = 32%nat.
Proof.
  unfold ParseHex64. destruct (negb _); [done|]. destruct (hex_decode s) as [d|]; [|done].
  destruct (slen d =? 32) eqn:E; [|done]. intros [= <-]. unfold slen in E. lia.
Qed.

Lemma ParseHex64_nonempty s b : ParseHex64 s = Some b -> str_eqb s [] = false.
Proof.
  intros H. apply str_eqb_neq. intros ->. unfold ParseHex64 in H. by vm_compute in H.
Qed.

(** * Agreement *)

(** The part of a message its link covers. *)
Definition same_content (w w' : WireMessage) : Prop :=
  wm_ChainHeight w = wm_ChainHeight w' /\ wm_TmpID w = wm_TmpID w' /\
  wm_ReplyTo w = wm_ReplyTo w' /\ wm_Type w = wm_Type w' /\ wm_Time w = wm_Time w' /\
  wm_DisplayName w = wm_DisplayName w' /\ wm_Text w = wm_Text w' /\ TripSigOf w = TripSigOf w'.

(** A message a program can hold, with the current encoding. *)
Definition current (w : WireMessage) : Prop := linkable w /\ 2 <= wm_ChainVer w.

Lemma verified_same prev prev' w w' want :
  length prev = 32%nat -> length prev' = 32%nat -> current w -> current w' ->
  VerifyWire prev w want = true -> VerifyWire prev' w' want = true ->
  (prev = prev' /\ same_content w w') \/ exists x y, collides x y.
Proof.
  intros Hp Hp' [Hw Hv] [Hw' Hv'] H1 H2. apply VerifyWire_input in H1. apply VerifyWire_input in H2.
  assert (sha256 (wire_input prev w) = sha256 (wire_input prev' w')) as E by congruence.
  apply sha256_eq_or_collides in E as [E|E]; [left|by right; eauto].
  assert (fits prev /\ fits prev') as [Hf Hf'] by (split; apply fits_small; lia).
  destruct (link_input_inj prev prev' w w') as (E1 & E2); [done..|]. done.
Qed.

(** Two linked logs of one length that end with the same hash have the same
    content, or a collision is exhibited. *)
Lemma linked_agree ws : forall ws' t t' h h',
  linked_log t h ws -> linked_log t' h' ws' -> length ws = length ws' ->
  Forall current ws -> Forall current ws' -> end_tip t ws = end_tip t' ws' ->
  Forall2 same_content ws ws' \/ exists x y, collides x y.
Proof.
  induction ws as [|w ws IH] using rev_ind; intros ws' t t' h h' H H' Hl Hc Hc' E.
  - destruct ws'; [|done]. left. constructor.
  - destruct ws' as [|w' ws' _] using rev_ind; [by rewrite length_app in Hl; cbn in Hl; lia|].
    rewrite !length_app in Hl. cbn in Hl. apply linked_log_app in H as [Ha Hb]. apply linked_log_app in H' as [Ha' Hb'].
    apply Forall_app in Hc as [Hc1 Hc2]. apply Forall_app in Hc' as [Hc1' Hc2'].
    rewrite !end_tip_app in E. cbn [linked_log end_tip] in *.
    destruct Hb as (n & B1 & B2 & B3 & B4 & _), Hb' as (n' & B1' & B2' & B3' & B4' & _).
    rewrite B3, B3' in E. cbn in E. subst n'.
    apply Forall_cons in Hc2 as [Hc2 _]. apply Forall_cons in Hc2' as [Hc2' _].
    pose proof (ParseHex64_length _ _ B1) as L1. pose proof (ParseHex64_length _ _ B1') as L2.
    destruct (verified_same _ _ w w' n L1 L2 Hc2 Hc2' B4 B4') as [[Ep Hs]|Hs]; [|by right].
    destruct (IH ws' t t' h h' Ha Ha' ltac:(lia) Hc1 Hc1' Ep) as [IH'|IH']; [|by right].
    left. apply Forall2_app; [done|]. by constructor.
Qed.

(** * The server produces linked logs *)

Section produced.
Context {U : Unicode}.
Variable maxBytes : Z.
Variable pub : str.

Lemma chained_linked c w :
  wire_text_ok w = true -> wire_ranges w -> chained_wire (marshal_wire (linked c w)) = Some (linked c w).
Proof.
  intros Ht Hr. destruct (linked_ok c w Ht Hr) as [Ht' Hr']. unfold chained_wire. rewrite wire_roundtrip_read by done.
  destruct (linked_hash pub c w) as (h & Hh & Hhash & _). by rewrite Hhash, str_eqb_hex.
Qed.

Lemma chained_notice w seq :
  wire_text_ok w = true -> wire_ranges w -> is_notice w = true -> is_u64 seq ->
  chained_wire (marshal_wire (set_Seq w seq)) = None.
Proof.
  intros Ht Hr Hn Hs. destruct (notice_seq_ok w seq Ht Hr Hs) as [Ht' Hr'].
  unfold chained_wire. rewrite wire_roundtrip_read by done.
  unfold is_notice in Hn. apply andb_true_iff in Hn as [_ Hn]. destruct w. wire_cbn. by rewrite Hn.
Qed.

Lemma log_run_length ops : forall c, length (log_run maxBytes pub c ops).1 = length ops.
Proof.
  induction ops as [|op ops IH]; intros c; [done|]. cbn [log_run]. destruct (log_step _ _ _ _) as [l c1].
  specialize (IH c1). destruct (log_run _ _ c1 ops) as [ls c2]. cbn [fst length] in *. by rewrite IH.
Qed.

Lemma log_run_linked ops : forall c,
  c_ready c = true -> length (c_tip c) = 32%nat -> 0 <= c_height c -> Forall op_ok ops ->
  c_height c + Z.of_nat (length ops) < 2 ^ 64 ->
  let '(log, c') := log_run maxBytes pub c ops in
  linked_log (c_tip c) (c_height c) (chained_wires log) /\
  end_tip (c_tip c) (chained_wires log) = c_tip c' /\
  c_height c' = c_height c + Z.of_nat (length (chained_wires log)) /\
  Forall (fun w => wm_ChainVer w = 2) (chained_wires log).
Proof.
  induction ops as [|op ops IH]; intros c Hr Ht Hh Hok Hb; [cbn; repeat split; [lia|constructor]|].
  apply Forall_cons in Hok as [Hop Hok]. cbn [log_run length] in *. destruct op as [ts w|ts w]; cbn [op_ok log_step] in *.
  - destruct Hop as [Hw1 Hw2]. unfold BroadcastWire.
    destruct (linked_hash pub c w) as (h & Hl & Hhash & Hver & Hprev & Hheight & _ & Hv & Hlink).
    specialize (Hlink ts maxBytes Hr). destruct (linkAndStore _ _ _ _ _) as [[w' data] c1].
    destruct Hlink as (-> & -> & E1 & E2 & _ & E4 & _).
    rewrite u64_small in * by (unfold is_u64; lia).
    specialize (IH c1 E4 ltac:(by rewrite E1) ltac:(lia) Hok ltac:(lia)). destruct (log_run _ _ c1 ops) as [log c2].
    destruct IH as (I1 & I2 & I3 & I4). unfold chained_wires in *. cbn [omap list_omap].
    rewrite chained_linked by done. cbn [linked_log end_tip length].
    rewrite Hhash, Hprev, !ParseHex64_encode by done. cbn [default]. rewrite E1, E2 in *.
    split; [exists h; repeat split; done|]. split; [done|]. split; [lia|]. by constructor.
  - destruct Hop as (Hw1 & Hw2 & Hn). unfold storeSystem. destruct (assignSeqLocked c) as [seq c0] eqn:Es.
    unfold assignSeqLocked in Es. injection Es as <- <-.
    match goal with |- context [log_run _ _ ?x ops] => set (c1 := x) end.
    assert (c_tip c1 = c_tip c /\ c_height c1 = c_height c /\ c_ready c1 = true) as (E1 & E2 & E3).
    { unfold c1. match goal with |- context [enqueue ?a ?b ?d] => destruct (enqueue_fields a b d) as (-> & -> & _ & -> & _) end.
      match goal with |- context [appendMessageLocked ?a ?b ?d] => destruct (append_fields a b d) as (-> & -> & _ & -> & _) end. done. }
    specialize (IH c1 E3 ltac:(by rewrite E1) ltac:(lia) Hok ltac:(lia)). destruct (log_run _ _ c1 ops) as [log c2].
    destruct IH as (I1 & I2 & I3 & I4). unfold chained_wires in *. cbn [omap list_omap].
    rewrite chained_notice by (try done; apply u64_range). rewrite E1, E2 in *. done.
Qed.
End produced.
