(* ===== verification/ClientView.v ===== *)
(** What the client keeps to paint and to look up ([client/entry.go],
    [client/tabs.go], [client/history.go], [client/collapse.go] and the caches of
    [client/chainmeta.go]): buffer entries, the two-limit tab buffers, the
    bounded index of wires and cache of blocks, the recall list of the input
    line, and the folding of long messages.  The widths of runes come from a
    third-party table. *)

From S2P Require Import Prelude Bytes Utf8 Wire.
Local Open Scope Z_scope.

(** * Entries *)

Definition kindChat : Z := 0.
Definition kindMine : Z := 1.
Definition kindLocal : Z := 2.
Definition kindNotice : Z := 3.
Definition kindSystem : Z := 4.

Inductive entry := mkEntry {
  en_quote : str;
  en_header : str;
  en_body : str;
  en_height : Z;
  en_hashHex : str;
  en_collapsed : bool;
  en_banner : bool;
  en_day : str;
  en_status : bool;
  en_kind : Z;
  en_quoteKind : Z;
  en_quoteEntry : option entry;
  en_muted : bool
}.

Definition emptyEntry : entry := mkEntry [] [] [] 0 [] false false [] false 0 0 None false.

(** The comparison of two slots; a nested block is compared by content where
    the source compares the pointer. *)
Fixpoint entry_eqb (a b : entry) : bool :=
  str_eqb (en_quote a) (en_quote b) && str_eqb (en_header a) (en_header b) && str_eqb (en_body a) (en_body b) &&
  (en_height a =? en_height b) && str_eqb (en_hashHex a) (en_hashHex b) &&
  eqb (en_collapsed a) (en_collapsed b) && eqb (en_banner a) (en_banner b) && str_eqb (en_day a) (en_day b) &&
  eqb (en_status a) (en_status b) && (en_kind a =? en_kind b) && (en_quoteKind a =? en_quoteKind b) &&
  match en_quoteEntry a, en_quoteEntry b with
  | None, None => true
  | Some x, Some y => entry_eqb x y
  | _, _ => false
  end && eqb (en_muted a) (en_muted b).

Definition rightAligned (e : entry) : bool := (en_kind e =? kindMine) || (en_kind e =? kindLocal).

Definition nl : ascii := byte_of 10.
Definition part_rows (part : str) : str := match part with [] => [] | _ => part ++ [nl] end.

(** [strings.TrimRight(s, cut)] for a cut set of one byte. *)
Fixpoint trim_right_byte (c : ascii) (s : str) : str :=
  match s with
  | [] => []
  | d :: s' =>
      match trim_right_byte c s' with
      | [] => if byte_eqb d c then [] else [d]
      | t => d :: t
      end
  end.

(** [entry.text]: the parts that exist, one row each, and the gap row. *)
Fixpoint entry_text (e : entry) : str :=
  let nested :=
    match en_quoteEntry e with
    | Some q => trim_right_byte nl (entry_text q) ++ [nl]
    | None => []
    end in
  match nested ++ part_rows (en_quote e) ++ part_rows (en_header e) ++ part_rows (en_body e) with
  | [] => []
  | t => t ++ [nl]
  end.

Section unicode.
Context {U : Unicode}.

Definition matchesHeight (e : entry) (h : Z) (hashPrefix : str) : bool :=
  if (en_height e =? 0) || negb (en_height e =? h) then false
  else match hashPrefix with
       | [] => true
       | _ => has_prefix (ToLower (en_hashHex e)) (ToLower hashPrefix)
       end.

(** The slot reporting a height, or -1. *)
Fixpoint index_by (p : entry -> bool) (i : Z) (lines : list entry) : Z :=
  match lines with
  | [] => -1
  | e :: lines' => if p e then i else index_by p (i + 1) lines'
  end.

Definition entryIndexByHeight (lines : list entry) (h : Z) (hashPrefix : str) : Z :=
  index_by (fun e => matchesHeight e h hashPrefix) 0 lines.

Definition metaHeightIndex (lines : list entry) (h : Z) : Z :=
  let idx := entryIndexByHeight lines h [] in
  if idx <? 0 then -1 else idx + 1.

Definition collapsedIndex (lines : list entry) (height : Z) : Z :=
  index_by (fun e => en_collapsed e && (en_height e =? height)) 0 lines.

Definition olderAnchor (lines : list entry) : Z :=
  Z.max 0 (index_by (fun e => (0 <? en_height e) || en_banner e) 0 lines).

(** * Hex shown to the reader *)

Definition isHexString (s : str) : bool :=
  match s with [] => false | _ => forallb (fun c => bool_decide (is_Some (hex_val c))) s end.

Definition shortHashHex (hashHex : str) : str :=
  if negb (isHexString hashHex) then []
  else if 4 <=? slen hashHex then ToLower (take 4 hashHex) else ToLower hashHex.

Definition hexField (s : str) : str :=
  let t := ToLower (TrimSpace s) in if isHexString t then t else [].

Definition shortBadge (pubHex : str) : str :=
  let h := hexField pubHex in if 8 <=? slen h then take 8 h else h.

Definition metaLineFor (height : Z) (hashHex badgePart : str) : str :=
  lit "#" ++ utoa height ++ lit ":" ++ shortHashHex hashHex ++
  match badgePart with [] => [] | _ => lit " ✍️ " ++ badgePart end.
End unicode.

(** * Tab buffers *)

Record tabBuffer := mkTab { tb_lines : list entry; tb_size : Z; tb_maxLines : Z; tb_maxBytes : Z }.

Definition newTabBuffer (maxLines maxBytes : Z) : tabBuffer :=
  mkTab [] 0 (if maxLines <=? 0 then 10000 else maxLines) (if maxBytes <=? 0 then 2097152 else maxBytes).

(** The eviction loop: drop the oldest entry while either limit is passed. *)
Fixpoint tab_evict_loop (maxLines maxBytes size : Z) (lines : list entry) : Z * list entry :=
  match lines with
  | [] => (size, [])
  | e :: lines' =>
      if (maxLines <? Z.of_nat (length lines)) || (maxBytes <? size)
      then tab_evict_loop maxLines maxBytes (size - slen (entry_text e)) lines'
      else (size, lines)
  end.

Definition tab_evict (b : tabBuffer) : tabBuffer :=
  let '(size, lines) := tab_evict_loop (tb_maxLines b) (tb_maxBytes b) (tb_size b) (tb_lines b) in
  mkTab lines size (tb_maxLines b) (tb_maxBytes b).

Definition tab_append (b : tabBuffer) (e : entry) : tabBuffer :=
  tab_evict (mkTab (tb_lines b ++ [e]) (tb_size b + slen (entry_text e)) (tb_maxLines b) (tb_maxBytes b)).

Definition tab_reset (b : tabBuffer) : tabBuffer := mkTab [] 0 (tb_maxLines b) (tb_maxBytes b).

Definition bytes_of (l : list entry) : Z := fold_right (fun e n => slen (entry_text e) + n) 0 l.

Definition spliceOut (b : tabBuffer) (start end_ : Z) : tabBuffer :=
  let start := Z.max 0 start in
  let end_ := Z.min end_ (Z.of_nat (length (tb_lines b))) in
  if end_ <=? start then b
  else
    let cut := drop (Z.to_nat start) (take (Z.to_nat end_) (tb_lines b)) in
    mkTab (take (Z.to_nat start) (tb_lines b) ++ drop (Z.to_nat end_) (tb_lines b))
      (fold_left (fun n e => n - slen (entry_text e)) cut (tb_size b)) (tb_maxLines b) (tb_maxBytes b).

Definition insertAt (b : tabBuffer) (idx : Z) (block : list entry) : tabBuffer :=
  match block with
  | [] => b
  | _ =>
      let i := Z.to_nat (Z.min (Z.max 0 idx) (Z.of_nat (length (tb_lines b)))) in
      tab_evict (mkTab (take i (tb_lines b) ++ block ++ drop i (tb_lines b))
                   (fold_left (fun n e => n + slen (entry_text e)) block (tb_size b)) (tb_maxLines b) (tb_maxBytes b))
  end.

(** A slot a later write replaces in place. *)
Record slotRef := mkSlot { sl_index : Z; sl_entry : entry }.

Definition slot_holds (b : tabBuffer) (s : slotRef) : bool :=
  (0 <=? sl_index s) &&
  match tb_lines b !! Z.to_nat (sl_index s) with Some e => entry_eqb e (sl_entry s) | None => false end.

(** The replacement keeps the recorded size. *)
Definition replaceSlot (b : tabBuffer) (slot : slotRef) (next : entry) : bool * tabBuffer :=
  if slot_holds b slot then
    (true, mkTab (<[Z.to_nat (sl_index slot) := next]> (tb_lines b)) (tb_size b) (tb_maxLines b) (tb_maxBytes b))
  else (false, b).

(** * Bounded indexes

    [wireIndex] and [renderCache] are one structure: a map with the order in
    which its keys were first stored, dropping the oldest over the cap. *)
Section fifo.
Context {K V : Type} `{EqDecision K} `{!Countable K}.

Record fifo := mkFifo { ff_cap : Z; ff_order : list K; ff_items : gmap K V }.

Fixpoint fifo_trim (cap : Z) (order : list K) (items : gmap K V) : list K * gmap K V :=
  match order with
  | [] => ([], items)
  | k :: order' =>
      if cap <? Z.of_nat (length order) then fifo_trim cap order' (delete k items) else (order, items)
  end.

Definition fifo_put (x : fifo) (k : K) (v : V) : fifo :=
  let order := match ff_items x !! k with Some _ => ff_order x | None => ff_order x ++ [k] end in
  let '(order, items) := fifo_trim (ff_cap x) order (<[k := v]> (ff_items x)) in
  mkFifo (ff_cap x) order items.

Definition fifo_get (x : fifo) (k : K) : option V := ff_items x !! k.
End fifo.
Arguments fifo _ _ {_ _}.

Definition wireIndex := fifo Z WireMessage.
Definition newWireIndex (capN : Z) : wireIndex := mkFifo (if capN <=? 0 then 1000 else capN) [] ∅.

Definition wireIndex_put (x : wireIndex) (msg : WireMessage) : wireIndex :=
  if wm_ChainHeight msg =? 0 then x else fifo_put x (wm_ChainHeight msg) msg.

Definition oldest (x : wireIndex) : option Z :=
  match ff_order x with
  | [] => None
  | h :: hs => Some (fold_left Z.min hs h)
  end.

Definition minSeq (x : wireIndex) : Z :=
  default 0 (map_fold (fun _ w acc =>
    if wm_Seq w =? 0 then acc
    else match acc with Some m => Some (Z.min (wm_Seq w) m) | None => Some (wm_Seq w) end) None (ff_items x)).

Record renderedBlock := mkBlock { rb_tab : Z; rb_entry : entry }.
Definition renderCache := fifo str renderedBlock.
Definition newRenderCache (capN : Z) : renderCache := mkFifo (if capN <=? 0 then 200 else capN) [] ∅.

(** * The recall list *)

Definition histMax : nat := 1000.

Record inputHistory := mkHistory { ih_lines : list str; ih_idx : Z; ih_draft : str }.

Definition cr : ascii := byte_of 13.

(** [strings.Split(s, "\n")]. *)
Fixpoint split_lines (s : str) : list str :=
  match s with
  | [] => [[]]
  | c :: s' =>
      match split_lines s' with
      | l :: ls => if byte_eqb c nl then [] :: l :: ls else (c :: l) :: ls
      | [] => [[c]]
      end
  end.

Definition loadHistory (file : option str) : inputHistory :=
  match file with
  | None => mkHistory [] 0 []
  | Some data =>
      let lines := lastn histMax (List.filter (fun l => negb (str_eqb l [])) (map (trim_right_byte cr) (split_lines data))) in
      mkHistory lines (Z.of_nat (length lines)) []
  end.

(** [add]; a change is also written to the file, one line per entry. *)
Definition history_add (h : inputHistory) (line : str) : inputHistory :=
  match trim_right_byte nl line with
  | [] => h
  | line =>
      match last (ih_lines h) with
      | Some l => if str_eqb l line then mkHistory (ih_lines h) (Z.of_nat (length (ih_lines h))) (ih_draft h)
                  else let lines := lastn histMax (ih_lines h ++ [line]) in
                       mkHistory lines (Z.of_nat (length lines)) (ih_draft h)
      | None => mkHistory [line] 1 (ih_draft h)
      end
  end.

Definition history_file (h : inputHistory) : str := flat_map (fun l => l ++ [nl]) (ih_lines h).

Definition history_prev (h : inputHistory) (draft : str) : option str * inputHistory :=
  if (ih_idx h <=? 0) || bool_decide (ih_lines h = []) then (None, h)
  else
    let d := if ih_idx h =? Z.of_nat (length (ih_lines h)) then draft else ih_draft h in
    (ih_lines h !! Z.to_nat (ih_idx h - 1), mkHistory (ih_lines h) (ih_idx h - 1) d).

Definition history_next (h : inputHistory) : option str * inputHistory :=
  if Z.of_nat (length (ih_lines h)) <=? ih_idx h then (None, h)
  else
    let h' := mkHistory (ih_lines h) (ih_idx h + 1) (ih_draft h) in
    if ih_idx h' =? Z.of_nat (length (ih_lines h)) then (Some (ih_draft h), h')
    else (ih_lines h !! Z.to_nat (ih_idx h'), h').

(** * Folding long messages *)

(** The display width of a rune ([go-runewidth]). *)
Class RuneWidth := runeWidth : Z -> Z.

Section fold.
Context {R : RuneWidth}.

Definition runeStrCells (s : str) : Z := fold_left (fun n r => n + runeWidth r) (runes s) 0.

(** Go's division of nonnegative integers. *)
Definition rowCost (line : str) (width : Z) : Z :=
  let cells := runeStrCells line in
  if 0 <? cells then (cells + width - 1) / width else 1.

Definition trim_suffix_nl (s : str) : str :=
  match last s with Some c => if byte_eqb c nl then removelast s else s | None => s end.

Definition estimateRows (s : str) (width : Z) : Z :=
  let width := if width <? 1 then 80 else width in
  fold_left (fun n line => n + rowCost line width) (split_lines (trim_suffix_nl s)) 0.

(** The bytes of the longest rune prefix within the budget. *)
Fixpoint cut_segs (cells budget : Z) (gs : list seg) : str :=
  match gs with
  | [] => []
  | g :: gs' =>
      let cells := cells + runeWidth (seg_rune g) in
      if budget <? cells then [] else seg_bytes g ++ cut_segs cells budget gs'
  end.
Definition cutCells (s : str) (budget : Z) : str := cut_segs 0 budget (segs s).

Fixpoint fold_loop (kept : list str) (used budget width : Z) (lines : list str) : list str :=
  match lines with
  | [] => kept
  | line :: lines' =>
      if budget <? used + rowCost line width then
        match kept with [] => [cutCells line (budget * width)] | _ => kept end
      else fold_loop (kept ++ [line]) (used + rowCost line width) budget width lines'
  end.
Definition foldLines (lines : list str) (budget width : Z) : list str := fold_loop [] 0 budget width lines.

Fixpoint join_nl (ls : list str) : str :=
  match ls with
  | [] => []
  | [l] => l
  | l :: ls' => l ++ nl :: join_nl ls'
  end.

Definition nbsp : str := [byte_of 194; byte_of 160].

Definition expandMarker : str := lit "[Xem" ++ nbsp ++ lit "thêm:" ++ nbsp ++ lit "/expand" ++ nbsp ++ lit "#".

(** [expandTrailer]; [dots] is the dimmed "...". *)
Definition expandTrailer (dots : str) (height : Z) : str :=
  dots ++ lit " " ++ expandMarker ++ utoa height ++ lit "]".

Definition collapseBody (dots body : str) (height rows preview width : Z) : str * bool :=
  if (height =? 0) || str_eqb body [] then (body, false)
  else if estimateRows body width <=? rows then (body, false)
  else
    let kept := foldLines (split_lines body) preview width in
    match last kept with
    | None => (body, false)
    | Some l => (join_nl (removelast kept ++ [l ++ expandTrailer dots height]), true)
    end.
End fold.

(** * Theorems *)

(** ** Tab buffers *)

Lemma bytes_of_cons e l : bytes_of (e :: l) = slen (entry_text e) + bytes_of l.
Proof. done. Qed.

Lemma fold_bytes_sub l : forall n, fold_left (fun n e => n - slen (entry_text e)) l n = n - bytes_of l.
Proof. induction l as [|e l IH]; intros n; cbn [fold_left]; [cbn; lia|]. rewrite IH, bytes_of_cons. lia. Qed.

Lemma fold_bytes_add l : forall n, fold_left (fun n e => n + slen (entry_text e)) l n = n + bytes_of l.
Proof. induction l as [|e l IH]; intros n; cbn [fold_left]; [cbn; lia|]. rewrite IH, bytes_of_cons. lia. Qed.

Lemma bytes_of_app l1 l2 : bytes_of (l1 ++ l2) = bytes_of l1 + bytes_of l2.
Proof. induction l1 as [|e l1 IH]; cbn [app]; [cbn; lia|]. rewrite !bytes_of_cons. lia. Qed.

Lemma bytes_of_nonneg l : 0 <= bytes_of l.
Proof. induction l as [|e l IH]; [cbn; lia|]. rewrite bytes_of_cons. unfold slen in *. lia. Qed.

Lemma bytes_of_drop n l : bytes_of (drop n l) <= bytes_of l.
Proof.
  rewrite <- (take_drop n l) at 2. rewrite bytes_of_app. pose proof (bytes_of_nonneg (take n l)). lia.
Qed.

Lemma tab_evict_loop_spec maxLines maxBytes lines : forall size, 0 < maxLines -> 0 < maxBytes ->
  let '(size', lines') := tab_evict_loop maxLines maxBytes size lines in
  lines' `suffix_of` lines /\ Z.of_nat (length lines') <= maxLines /\
  (size = bytes_of lines -> size' = bytes_of lines' /\ size' <= maxBytes).
Proof.
  induction lines as [|e lines IH]; intros size Hl Hb; cbn [tab_evict_loop].
  - split; [done|]. cbn. lia.
  - destruct (_ || _) eqn:E.
    + specialize (IH (size - slen (entry_text e)) Hl Hb). destruct (tab_evict_loop _ _ _ lines) as [size' lines'].
      destruct IH as (I1 & I2 & I3). split; [by apply suffix_cons_r|]. split; [done|].
      intros Hs. apply I3. rewrite bytes_of_cons in Hs. lia.
    + split; [done|]. split; [lia|]. intros Hs. split; [done|]. lia.
Qed.

(** What the session does to a buffer. *)
Inductive tab_op :=
| TAppend (e : entry)
| TInsert (idx : Z) (block : list entry)
| TSplice (start end_ : Z)
| TReset
| TReplace (slot : slotRef) (next : entry).

Definition tab_step (b : tabBuffer) (op : tab_op) : tabBuffer :=
  match op with
  | TAppend e => tab_append b e
  | TInsert idx block => insertAt b idx block
  | TSplice start end_ => spliceOut b start end_
  | TReset => tab_reset b
  | TReplace slot next => (replaceSlot b slot next).2
  end.

Definition is_replace (op : tab_op) : bool := match op with TReplace _ _ => true | _ => false end.

Record tab_inv (exact_ : bool) (b : tabBuffer) : Prop := {
  ti_caps : 0 < tb_maxLines b /\ 0 < tb_maxBytes b;
  ti_lines : Z.of_nat (length (tb_lines b)) <= tb_maxLines b;
  ti_size : exact_ = true -> tb_size b = bytes_of (tb_lines b) /\ tb_size b <= tb_maxBytes b
}.

Lemma tab_evict_inv x b :
  0 < tb_maxLines b /\ 0 < tb_maxBytes b -> (x = true -> tb_size b = bytes_of (tb_lines b)) -> tab_inv x (tab_evict b).
Proof.
  intros [H1 H2] H. unfold tab_evict.
  pose proof (tab_evict_loop_spec (tb_maxLines b) (tb_maxBytes b) (tb_lines b) (tb_size b) H1 H2) as Hs.
  destruct (tab_evict_loop _ _ _ _) as [size lines]. destruct Hs as (_ & S2 & S3). split; cbn; [done|done|].
  intros Hx. apply S3, H, Hx.
Qed.

Lemma spliceOut_lines b start end_ :
  exists i j, (i <= j)%nat /\ tb_lines (spliceOut b start end_) = take i (tb_lines b) ++ drop j (tb_lines b) /\
    tb_size (spliceOut b start end_) = tb_size b - bytes_of (drop i (take j (tb_lines b))) /\
    tb_maxLines (spliceOut b start end_) = tb_maxLines b /\ tb_maxBytes (spliceOut b start end_) = tb_maxBytes b.
Proof.
  unfold spliceOut. destruct (_ <=? _) eqn:E.
  - exists 0%nat, 0%nat. split; [lia|]. cbn. split; [done|]. split; [|done]. rewrite take_0. cbn. lia.
  - exists (Z.to_nat (Z.max 0 start)), (Z.to_nat (Z.min end_ (Z.of_nat (length (tb_lines b))))).
    split; [lia|]. cbn [tb_lines tb_size tb_maxLines tb_maxBytes]. by rewrite fold_bytes_sub.
Qed.

Lemma bytes_of_cut (i j : nat) l : (i <= j)%nat ->
  bytes_of (take i l ++ drop j l) = bytes_of l - bytes_of (drop i (take j l)).
Proof.
  intros Hij. assert (l = take i l ++ drop i (take j l) ++ drop j l) as E.
  { rewrite <- (take_drop j l) at 1. rewrite app_assoc. f_equal.
    rewrite <- (take_drop i (take j l)) at 1. by rewrite take_take, Nat.min_l. }
  rewrite E at 3. rewrite !bytes_of_app. lia.
Qed.

Lemma tab_step_inv x b op : (x = true -> is_replace op = false) -> tab_inv x b -> tab_inv x (tab_step b op).
Proof.
  intros Hop [[H1 H2] H3 H4]. destruct op as [e|idx block|start end_| |slot next]; cbn [tab_step].
  - apply tab_evict_inv; [done|]. cbn [tb_size tb_lines]. intros Hx. destruct (H4 Hx) as [-> _].
    rewrite bytes_of_app. cbn. lia.
  - unfold insertAt. destruct block as [|e0 block]; [by split|]. apply tab_evict_inv; [done|]. intros Hx.
    destruct (H4 Hx) as [Hs _]. cbn [tb_size tb_lines]. rewrite fold_bytes_add, !bytes_of_app, Hs.
    match goal with |- context [take ?i _] => rewrite <- (take_drop i (tb_lines b)) at 1 end. rewrite bytes_of_app. lia.
  - destruct (spliceOut_lines b start end_) as (i & j & Hij & E1 & E2 & E3 & E4). split; rewrite ?E1, ?E3, ?E4.
    + done.
    + rewrite length_app, length_take, length_drop. lia.
    + intros Hx. destruct (H4 Hx) as [Hs Hle]. rewrite E2, bytes_of_cut, Hs by done. split; [done|].
      pose proof (bytes_of_nonneg (drop i (take j (tb_lines b)))). lia.
  - split; cbn; [done|lia|]. intros _. split; [done|lia].
  - unfold replaceSlot. destruct (slot_holds b slot); [|by split]. split; cbn; [done| |].
    + by rewrite length_insert.
    + intros Hx. specialize (Hop Hx). done.
Qed.

(** A tab buffer stays within its limits: after any appends, splices,
    insertions, in-place replacements and resets it holds at most [maxLines]
    entries, and without replacements its recorded size is the bytes of the
    entries it holds and within [maxBytes]. *)
Theorem tab_bounded maxLines maxBytes ops :
  let b := fold_left tab_step ops (newTabBuffer maxLines maxBytes) in
  Z.of_nat (length (tb_lines b)) <= (if maxLines <=? 0 then 10000 else maxLines) /\
  (existsb is_replace ops = false ->
     tb_size b = bytes_of (tb_lines b) /\ tb_size b <= (if maxBytes <=? 0 then 2097152 else maxBytes)).
Proof.
  assert (forall x ops b, (x = true -> existsb is_replace ops = false) -> tab_inv x b ->
    tab_inv x (fold_left tab_step ops b) /\ tb_maxLines (fold_left tab_step ops b) = tb_maxLines b /\
    tb_maxBytes (fold_left tab_step ops b) = tb_maxBytes b) as H.
  { clear. intros x ops. induction ops as [|op ops IH]; intros b Hop Hi; [done|]. cbn [fold_left].
    assert (x = true -> is_replace op = false /\ existsb is_replace ops = false) as Hop'.
    { intros Hx. specialize (Hop Hx). cbn in Hop. by apply orb_false_iff in Hop. }
    destruct (IH (tab_step b op)) as (I1 & I2 & I3); [naive_solver|apply tab_step_inv; [naive_solver|done]|].
    split; [done|]. rewrite I2, I3. destruct op; cbn [tab_step].
    - unfold tab_append, tab_evict. cbn. by destruct (tab_evict_loop _ _ _ _).
    - unfold insertAt. destruct block; [done|]. unfold tab_evict. cbn [tb_maxLines tb_maxBytes].
      by destruct (tab_evict_loop _ _ _ _).
    - by destruct (spliceOut_lines b start end_) as (? & ? & _ & _ & _ & -> & ->).
    - done.
    - unfold replaceSlot. by destruct (slot_holds b slot). }
  assert (forall x, tab_inv x (newTabBuffer maxLines maxBytes)) as H0.
  { intros x. unfold newTabBuffer. split; cbn [tb_lines tb_size tb_maxLines tb_maxBytes length].
    - destruct (maxLines <=? 0) eqn:E1, (maxBytes <=? 0) eqn:E2; lia.
    - destruct (maxLines <=? 0) eqn:E1; lia.
    - intros _. split; [done|]. destruct (maxBytes <=? 0) eqn:E2; lia. }
  cbv zeta. split.
  - destruct (H false ops _ ltac:(done) (H0 false)) as ([_ I _] & E & _). rewrite E in I. exact I.
  - intros Hr. destruct (H true ops _ (fun _ => Hr) (H0 true)) as ([_ _ I] & _ & E). specialize (I eq_refl).
    rewrite E in I. exact I.
Qed.

(** A replacement leaves the recorded size of what it overwrote: replacing one
    short entry by a longer one under-counts the buffer. *)
Definition line_entry (text : str) : entry := mkEntry [] text [] 0 [] false false [] false 0 0 None false.
Example replace_drifts :
  let b := tab_append (newTabBuffer 10 100) (line_entry (lit "a")) in
  let b' := (replaceSlot b (mkSlot 0 (line_entry (lit "a"))) (line_entry (lit "a longer line"))).2 in
  tb_size b' = 3 /\ bytes_of (tb_lines b') = 15.
Proof. vm_compute. done. Qed.

(** ** Bounded indexes *)
Section fifo_theorems.
Context {K V : Type} `{EqDecision K} `{!Countable K}.

Record fifo_inv (x : fifo K V) : Prop := {
  fi_nodup : NoDup (ff_order x);
  fi_dom : forall k, is_Some (ff_items x !! k) <-> k ∈ ff_order x;
  fi_len : Z.of_nat (length (ff_order x)) <= ff_cap x
}.

(** Storing touches one key, appends a new one, and drops at most the oldest. *)
Lemma fifo_put_cases x k v : 0 < ff_cap x -> fifo_inv x ->
  (is_Some (ff_items x !! k) /\ fifo_put x k v = mkFifo (ff_cap x) (ff_order x) (<[k := v]> (ff_items x))) \/
  (ff_items x !! k = None /\ Z.of_nat (length (ff_order x)) < ff_cap x /\
     fifo_put x k v = mkFifo (ff_cap x) (ff_order x ++ [k]) (<[k := v]> (ff_items x))) \/
  (ff_items x !! k = None /\ exists k0 rest, ff_order x = k0 :: rest /\ k0 <> k /\ ff_cap x = Z.of_nat (length (ff_order x)) /\
     fifo_put x k v = mkFifo (ff_cap x) (rest ++ [k]) (delete k0 (<[k := v]> (ff_items x)))).
Proof.
  intros Hc [H1 H2 H3]. unfold fifo_put. destruct (ff_items x !! k) as [v0|] eqn:E.
  - left. split; [by eauto|]. destruct (ff_order x) as [|k1 o] eqn:Eo; cbn [fifo_trim]; [done|].
    by replace (ff_cap x <? Z.of_nat (length (k1 :: o))) with false by lia.
  - right. assert (k ∉ ff_order x) as Hk by (intros Hk; apply H2 in Hk; rewrite E in Hk; by destruct Hk).
    destruct (decide (Z.of_nat (length (ff_order x)) < ff_cap x)) as [Hlt|Hge]; [left|right]; (split; [done|]).
    + split; [done|]. destruct (ff_order x ++ [k]) as [|k1 o] eqn:Eo; cbn [fifo_trim]; [done|]. rewrite <- Eo.
      rewrite length_app. cbn [length].
      by replace (ff_cap x <? Z.of_nat (length (ff_order x) + 1)) with false by lia.
    + destruct (ff_order x) as [|k0 rest] eqn:Eo; [cbn in Hge; lia|]. exists k0, rest.
      split; [done|]. split; [intros ->; apply Hk; by left|]. split; [lia|]. cbn [app fifo_trim length] in *. rewrite length_app. cbn [length].
      replace (ff_cap x <? Z.of_nat (S (length rest + 1))) with true by lia.
      destruct (rest ++ [k]) as [|k1 o] eqn:Er; cbn [fifo_trim]; [done|]. rewrite <- Er, length_app. cbn [length].
      by replace (ff_cap x <? Z.of_nat (length rest + 1)) with false by lia.
Qed.

Lemma fifo_put_inv x k v : 0 < ff_cap x -> fifo_inv x ->
  fifo_inv (fifo_put x k v) /\ ff_cap (fifo_put x k v) = ff_cap x /\
  fifo_get (fifo_put x k v) k = Some v /\
  (forall k' v', k' <> k -> fifo_get (fifo_put x k v) k' = Some v' -> fifo_get x k' = Some v').
Proof.
  intros Hc Hi. unfold fifo_get.
  destruct (fifo_put_cases x k v Hc Hi) as [[Hs ->]|[(Hs & Hl & ->)|(Hs & k0 & rest & Eo & Hne & _ & ->)]];
    destruct Hi as [H1 H2 H3]; cbn [ff_items ff_order ff_cap].
  - split; [|split; [done|]; split; [apply lookup_insert_eq|intros k' v' Hk; by rewrite lookup_insert_ne]].
    split; cbn [ff_items ff_order ff_cap]; [done| |done]. intros k'. rewrite <- H2.
    destruct (decide (k' = k)) as [->|Hk]; [rewrite lookup_insert_eq; naive_solver|by rewrite lookup_insert_ne].
  - split; [|split; [done|]; split; [apply lookup_insert_eq|intros k' v' Hk; by rewrite lookup_insert_ne]].
    split; cbn [ff_items ff_order ff_cap].
    + apply NoDup_app. split; [done|]. split; [|apply NoDup_singleton].
      intros k' Hk' ->%list_elem_of_singleton. apply H2 in Hk'. rewrite Hs in Hk'. by destruct Hk'.
    + intros k'. rewrite elem_of_app, list_elem_of_singleton, <- H2.
      destruct (decide (k' = k)) as [->|Hk]; [rewrite lookup_insert_eq; naive_solver|rewrite lookup_insert_ne by done; naive_solver].
    + rewrite length_app. cbn. lia.
  - rewrite Eo in *. apply NoDup_cons in H1 as [Hk0 H1].
    split; [|split; [done|]; split; [by rewrite lookup_delete_ne, lookup_insert_eq|]].
    + assert (k ∉ rest) as Hk.
      { intros Hk. assert (k ∈ k0 :: rest) as Hk' by (by right). apply H2 in Hk'. rewrite Hs in Hk'. by destruct Hk'. }
      split; cbn [ff_items ff_order ff_cap].
      * apply NoDup_app. split; [done|]. split; [by intros k' Hk' ->%list_elem_of_singleton|apply NoDup_singleton].
      * intros k'. rewrite elem_of_app, list_elem_of_singleton.
        destruct (decide (k' = k0)) as [->|Hk1]; [rewrite lookup_delete_eq; split; [by intros [? ?]|naive_solver]|].
        rewrite lookup_delete_ne by done. destruct (decide (k' = k)) as [->|Hk2]; [rewrite lookup_insert_eq; naive_solver|].
        rewrite lookup_insert_ne, H2, elem_of_cons by done. naive_solver.
      * rewrite length_app. cbn [length] in *. lia.
    + intros k' v' Hk'. destruct (decide (k' = k0)) as [->|Hk1]; [by rewrite lookup_delete_eq|].
      by rewrite lookup_delete_ne, lookup_insert_ne.
Qed.

Lemma fifo_empty_inv cap : 0 < cap -> fifo_inv (mkFifo cap [] ∅).
Proof.
  intros Hc. split; cbn; [apply NoDup_nil_2| |lia]. intros k. rewrite lookup_empty. split; [by intros [? ?]|by intros ?%elem_of_nil].
Qed.

Definition fifo_run (x : fifo K V) (puts : list (K * V)) : fifo K V := fold_left (fun x kv => fifo_put x kv.1 kv.2) puts x.

(** The bounded indexes are exact: after any stores they hold at most
    [cap] keys, each with the last value stored for it; the last store is
    found, and while at most [cap] distinct keys were stored nothing is
    forgotten. *)
Theorem fifo_exact cap puts :
  0 < cap ->
  let x := fifo_run (mkFifo cap [] ∅) puts in
  Z.of_nat (size (ff_items x)) <= cap /\
  (forall k v, fifo_get x k = Some v -> last (List.filter (fun kv => bool_decide (kv.1 = k)) puts) = Some (k, v)) /\
  (forall k v puts', puts = puts' ++ [(k, v)] -> fifo_get x k = Some v) /\
  (Z.of_nat (size (list_to_set (map fst puts) : gset K)) <= cap ->
     forall k, k ∈ map fst puts -> is_Some (fifo_get x k)).
Proof.
  intros Hc. cbv zeta.
  assert (forall puts, let x := fifo_run (mkFifo cap [] ∅) puts in
    fifo_inv x /\ ff_cap x = cap /\
    (forall k v, fifo_get x k = Some v -> last (List.filter (fun kv => bool_decide (kv.1 = k)) puts) = Some (k, v)) /\
    (forall k v puts', puts = puts' ++ [(k, v)] -> fifo_get x k = Some v) /\
    (Z.of_nat (size (list_to_set (map fst puts) : gset K)) <= cap -> forall k, k ∈ map fst puts -> is_Some (fifo_get x k))) as H.
  { clear puts. induction puts as [|[k v] puts IH] using rev_ind; cbv zeta in *.
    - split; [by apply fifo_empty_inv|]. split; [done|]. split; [intros k v; unfold fifo_get; cbn; by rewrite lookup_empty|].
      split; [by intros k v [|? ?]|]. by intros _ k ?%elem_of_nil.
    - destruct IH as (I1 & I2 & I3 & I4 & I5). unfold fifo_run in *. rewrite fold_left_app. cbn [fold_left fst snd].
      set (x := fold_left _ puts _) in *. destruct (fifo_put_inv x k v ltac:(lia) I1) as (P1 & P2 & P3 & P4).
      split; [done|]. split; [congruence|]. split; [|split].
      + intros k' v' Hg. rewrite List.filter_app. cbn [List.filter fst]. destruct (decide (k' = k)) as [->|Hne].
        * rewrite bool_decide_true by done. rewrite last_snoc. congruence.
        * rewrite bool_decide_false by done. rewrite app_nil_r. by apply I3, (P4 k').
      + intros k' v' puts' E. apply app_inj_tail in E as [_ [= <- <-]]. done.
      + rewrite map_app. cbn [map fst]. rewrite list_to_set_app_L. cbn [list_to_set]. rewrite union_empty_r_L.
        set (S := list_to_set (map fst puts) : gset K) in *. intros Hs k' Hk'.
        assert (Z.of_nat (size S) <= cap) as Hs' by (pose proof (subseteq_size S (S ∪ {[k]}) ltac:(set_solver)); lia).
        specialize (I5 Hs'). destruct (decide (k' = k)) as [->|Hne]; [by rewrite P3|].
        assert (k' ∈ map fst puts) as Hin by (apply elem_of_app in Hk' as [?|?%list_elem_of_singleton]; done).
        specialize (I5 k' Hin). unfold fifo_get in *.
        destruct (fifo_put_cases x k v ltac:(lia) I1) as [[_ ->]|[(_ & _ & ->)|(Hn & k0 & rest & Eo & Hk0 & Hfull & ->)]]; cbn [ff_items].
        * by rewrite lookup_insert_ne.
        * by rewrite lookup_insert_ne.
        * exfalso. (* full and a new key: cap + 1 distinct keys *)
          assert (list_to_set (k :: ff_order x) ⊆ S ∪ {[k]}) as Hsub.
          { intros y. rewrite elem_of_list_to_set, elem_of_cons. intros [->|Hy]; [set_solver|].
            apply (fi_dom _ I1) in Hy as [v' Hv']. apply I3 in Hv'. apply last_Some_elem_of, list_elem_of_In, filter_In in Hv' as [Hv' _].
            apply elem_of_union_l. unfold S. apply elem_of_list_to_set, list_elem_of_In. apply in_map_iff. by exists (y, v'). }
          apply subseteq_size in Hsub. rewrite size_list_to_set in Hsub.
          -- cbn [length] in Hsub. lia.
          -- apply NoDup_cons. split; [|apply (fi_nodup _ I1)]. intros Hy. apply (fi_dom _ I1) in Hy. rewrite Hn in Hy. by destruct Hy. }
  destruct (H puts) as (I1 & I2 & I3 & I4 & I5). split; [|done]. set (x := fifo_run _ puts) in *.
  assert (dom (ff_items x) ⊆ list_to_set (ff_order x)) as Hsub.
  { intros k Hk. apply elem_of_dom in Hk. apply elem_of_list_to_set. by apply (fi_dom _ I1). }
  apply subseteq_size in Hsub. rewrite size_dom, size_list_to_set in Hsub by apply (fi_nodup _ I1).
  pose proof (fi_len _ I1). lia.
Qed.
End fifo_theorems.

Lemma fifo_exact_witness :
  let x := fifo_run (mkFifo 2 [] ∅) [(3, lit "a"); (5, lit "b"); (3, lit "c"); (7, lit "d")] in
  Z.of_nat (size (ff_items x)) <= 2 /\ fifo_get x 7 = Some (lit "d") /\ fifo_get x 3 = None.
Proof.
  destruct (fifo_exact 2 [(3, lit "a"); (5, lit "b"); (3, lit "c"); (7, lit "d")] ltac:(lia)) as (H1 & _ & H3 & _).
  split; [exact H1|]. split; [|reflexivity]. apply (H3 7 (lit "d") [(3, lit "a"); (5, lit "b"); (3, lit "c")]). reflexivity.
Defined.
