(* ===== verification/Outbox.v ===== *)
(** The client's outgoing side ([client/send.go], the session fields of
    [client/session.go] and the echo queue of [client/chainmeta.go]): a
    message is numbered, signed or enveloped, sent, and kept as a placeholder
    until the server's echo confirms it; echoes that come first are stashed.
    The queue runs under [PendingMu]; one call is one step here. *)

From S2P Require Import Prelude Bytes Sha2 Utf8 Filter Guard Wire ChainLink Crypto Trip TripChains ClientView.
Local Open Scope Z_scope.

(** * The echo queue *)

Record pendingMsg := mkPending {
  pm_text : str;
  pm_slot : slotRef;
  pm_shown : bool;
  pm_epoch : Z;
  pm_seq : Z;
  pm_pub : str;
  pm_hasTrip : bool;
  pm_sentAt : time;
  pm_tmpID : Z;
  pm_replyTo : Z
}.

Record pendingEcho := mkEcho { pe_msg : WireMessage; pe_at : time }.

(** [PendingState]. *)
Record PendingState := mkPendingState {
  TmpSeq : Z;
  PendingReplyTo : Z;
  LastMessageTime : time;
  PendingPlaceholders : list pendingMsg;
  PendingEchoes : list pendingEcho;
  SeenTmpIDs : list Z;
  EchoSlot : option pendingMsg
}.

Definition newPending : PendingState := mkPendingState 0 0 0 [] [] [] None.

(** The first element satisfying a test, with its index. *)
Fixpoint find_index {A} (p : A -> bool) (l : list A) : option nat :=
  match l with
  | [] => None
  | x :: l' => if p x then Some 0%nat else S <$> find_index p l'
  end.

(** [None] for the source's -1. *)
Definition matchPendingIndex (now : time) (pending : list pendingMsg) (tmpID replyTo : Z)
    (text username echoDisplay : str) : option nat :=
  if negb (str_eqb echoDisplay username) || bool_decide (pending = []) then None
  else if negb (tmpID =? 0) then find_index (fun pm => (pm_tmpID pm =? tmpID) && (pm_replyTo pm =? replyTo)) pending
  else find_index (fun pm => str_eqb (pm_text pm) text && (Sub now (pm_sentAt pm) <? Minute)) pending.

Definition stashEcho (now : time) (stash : list pendingEcho) (msg : WireMessage) (capN : nat) : list pendingEcho :=
  lastn capN (stash ++ [mkEcho msg now]).

Definition takeStashedEcho (stash : list pendingEcho) (tmpID : Z) : list pendingEcho * option WireMessage :=
  match find_index (fun e => wm_TmpID (pe_msg e) =? tmpID) stash with
  | Some i => (take i stash ++ drop (S i) stash, pe_msg <$> stash !! i)
  | None => (stash, None)
  end.

Definition maxSeenTmpIDs : nat := 64.
Definition maxPendingPlaceholders : nat := 128.
Definition maxEchoes : nat := 16.

Definition seenTmpID (seen : list Z) (tmpID : Z) : bool := bool_decide (tmpID ∈ seen).

Definition noteConsumedTmpID (seen : list Z) (tmpID : Z) : list Z :=
  if (tmpID =? 0) || seenTmpID seen tmpID then seen else lastn maxSeenTmpIDs (seen ++ [tmpID]).

Definition staleAge : duration := 10 * Second.

Definition reapStaleEchoes (now : time) (stash : list pendingEcho) (maxAge : duration)
    : list pendingEcho * list WireMessage :=
  (List.filter (fun e => negb (maxAge <? Sub now (pe_at e))) stash,
   map pe_msg (List.filter (fun e => maxAge <? Sub now (pe_at e)) stash)).

Record echoConsume := mkConsume { ec_stale : list WireMessage; ec_pm : option pendingMsg }.

Definition set_echoes (p : PendingState) (es : list pendingEcho) : PendingState :=
  mkPendingState (TmpSeq p) (PendingReplyTo p) (LastMessageTime p) (PendingPlaceholders p) es (SeenTmpIDs p) (EchoSlot p).

Definition planEchoConsume (now : time) (username : str) (p : PendingState) (msg : WireMessage) (allowStash : bool)
    : echoConsume * PendingState :=
  let '(kept, stale) := reapStaleEchoes now (PendingEchoes p) staleAge in
  let p := set_echoes p kept in
  let mine := str_eqb (wm_DisplayName msg) username in
  let stashed :=
    if allowStash && mine && negb (wm_TmpID msg =? 0) && negb (seenTmpID (SeenTmpIDs p) (wm_TmpID msg))
    then set_echoes p (stashEcho now kept msg maxEchoes) else p in
  if negb mine || bool_decide (PendingPlaceholders p = []) then (mkConsume stale None, stashed)
  else
    match matchPendingIndex now (PendingPlaceholders p) (wm_TmpID msg) (wm_ReplyTo msg) (wm_Text msg) username (wm_DisplayName msg) with
    | None => (mkConsume stale None, stashed)
    | Some i =>
        (mkConsume stale (PendingPlaceholders p !! i),
         mkPendingState (TmpSeq p) (PendingReplyTo p) (LastMessageTime p)
           (take i (PendingPlaceholders p) ++ drop (S i) (PendingPlaceholders p)) kept
           (noteConsumedTmpID (SeenTmpIDs p) (wm_TmpID msg)) (EchoSlot p))
    end.

(** The warned ids, and the state with the slot armed on a match. *)
Definition consumeEchoLocked (now : time) (username : str) (p : PendingState) (msg : WireMessage) (allowStash : bool)
    : list Z * PendingState :=
  let '(act, p) := planEchoConsume now username p msg allowStash in
  (map wm_TmpID (ec_stale act),
   match ec_pm act with
   | Some pm => mkPendingState (TmpSeq p) (PendingReplyTo p) (LastMessageTime p) (PendingPlaceholders p)
                  (PendingEchoes p) (SeenTmpIDs p) (Some pm)
   | None => p
   end).

(** [erasePlaceholderLocked] on the chat buffer. *)
Definition erasePlaceholder (b : tabBuffer) (pm : pendingMsg) : tabBuffer :=
  if slot_holds b (pm_slot pm) then spliceOut b (sl_index (pm_slot pm)) (sl_index (pm_slot pm) + 1) else b.

(** * Sending *)

(** The signing half of a session. *)
Record TripKey := mkTripKey { tk_Seed : str; tk_Seq : Z; tk_Prev : str }.

Record Sender := mkSender {
  sd_Username : str;
  sd_ServerPub : str;          (* Challenge.ServerPubKey *)
  sd_Trip : option TripKey;    (* TripPriv with TripSeq and TripPrev *)
  sd_Pending : PendingState;
  sd_Chat : tabBuffer
}.

Inductive clientLine :=
| CTrip (e : tripEnvelope)
| CPlain (tmpID : Z) (text : str) (replyTo : Z).

Section send.
Context {U : Unicode} {E : Ed25519}.

(** The signed envelope of the next number, and the key after it. *)
Definition sign_line (username serverPub : str) (k : TripKey) (text : str) (tmpID replyTo : Z) : tripEnvelope * TripKey :=
  let seq := u32 (tk_Seq k + 1) in
  let pub := ed_pub (tk_Seed k) in
  let msgHash := sha256 text in
  let payload := CanonicalPayload (ToLower serverPub) seq (tk_Prev k) msgHash pub username tmpID replyTo in
  let sig := ed_sign (tk_Seed k) payload in
  (mkEnvelope text [] (hex_encode pub) seq (hex_encode (tk_Prev k)) (hex_encode sig) username tmpID replyTo,
   mkTripKey (tk_Seed k) seq (sha256 (tk_Prev k ++ sig ++ msgHash))).

(** The queue work of a successful send: track, bound, settle a raced echo. *)
Definition track (p : PendingState) (now : time) (pm : pendingMsg) : bool * PendingState :=
  let placeholders := lastn maxPendingPlaceholders (PendingPlaceholders p ++ [pm]) in
  let '(echoes, found) := takeStashedEcho (PendingEchoes p) (pm_tmpID pm) in
  match found with
  | Some _ =>
      let placeholders :=
        match find_index (fun q => pm_tmpID q =? pm_tmpID pm) placeholders with
        | Some i => take i placeholders ++ drop (S i) placeholders
        | None => placeholders
        end in
      (true, mkPendingState (TmpSeq p) 0 now placeholders echoes
               (noteConsumedTmpID (SeenTmpIDs p) (pm_tmpID pm)) (EchoSlot p))
  | None => (false, mkPendingState (TmpSeq p) 0 now placeholders echoes (SeenTmpIDs p) (EchoSlot p))
  end.

(** [sendMessage]: the line handed to the socket and the new state.  [sent] is
    the socket's answer, [epoch] the layout generation. *)
Definition sendMessage (now : time) (sent : bool) (epoch : Z) (s : Sender) (text : str) (slot : slotRef) (phShown : bool)
    : clientLine * Sender :=
  let p := sd_Pending s in
  let tmp := u64 (TmpSeq p + 1) in
  let '(line, key) :=
    match sd_Trip s with
    | Some k => let '(env, k') := sign_line (sd_Username s) (sd_ServerPub s) k text tmp (PendingReplyTo p) in
                (CTrip env, Some k')
    | None => (CPlain tmp text (PendingReplyTo p), None)
    end in
  if sent then
    let pm := mkPending text slot phShown epoch (match key with Some k => tk_Seq k | None => 0 end)
                (match key with Some k => hex_encode (ed_pub (tk_Seed k)) | None => [] end)
                (match key with Some _ => true | None => false end) now tmp (PendingReplyTo p) in
    let p := mkPendingState tmp (PendingReplyTo p) (LastMessageTime p) (PendingPlaceholders p) (PendingEchoes p)
               (SeenTmpIDs p) (EchoSlot p) in
    let '(raced, p) := track p now pm in
    (line, mkSender (sd_Username s) (sd_ServerPub s) key p (if raced then erasePlaceholder (sd_Chat s) pm else sd_Chat s))
  else
    (line, mkSender (sd_Username s) (sd_ServerPub s) (sd_Trip s)
             (mkPendingState (TmpSeq p) 0 now (PendingPlaceholders p) (PendingEchoes p) (SeenTmpIDs p) (EchoSlot p))
             (sd_Chat s)).
End send.

(** ** Before a send *)

(** [checkSendGuards]: whether the line may be sent. *)
Definition checkSendGuards `{Unicode} (now : time) (cfg : option Limits) (p : PendingState) (text : str) : bool :=
  match ValidateMessage text with
  | Err _ => false
  | Ok _ =>
      match cfg with
      | Some lim =>
          match ValidateMessageForSend now text (LastMessageTime p) (Some lim) false with
          | Err ErrTooFast => false
          | Err ErrTooLong => false
          | _ => true
          end
      | None => true
      end
  end.

(** * Theorems *)

(** ** Queue operations *)

Lemma find_index_Some {A} (p : A -> bool) l i :
  find_index p l = Some i <->
  exists x, l !! i = Some x /\ p x = true /\ forall j y, (j < i)%nat -> l !! j = Some y -> p y = false.
Proof.
  revert i. induction l as [|x l IH]; intros i; cbn [find_index].
  - split; [done|]. by intros (? & ? & _).
  - destruct (p x) eqn:Ex.
    + split.
      * intros [= <-]. exists x. split; [done|]. split; [done|]. intros j y Hj. lia.
      * intros (y & Hy & Hp & Hj). destruct i as [|i]; [done|]. by rewrite (Hj 0%nat x ltac:(lia) eq_refl) in Ex.
    + split.
      * intros (i' & Hi & ->)%fmap_Some. apply IH in Hi as (y & Hy & Hp & Hj). exists y. split; [done|]. split; [done|].
        intros [|j] z Hlt Hz; [by injection Hz as <-|]. apply (Hj j); [lia|done].
      * intros (y & Hy & Hp & Hj). destruct i as [|i]; [injection Hy as ->; congruence|].
        apply fmap_Some. exists i. split; [|done]. apply IH. exists y. split; [done|]. split; [done|].
        intros j z Hlt Hz. apply (Hj (S j) z); [lia|done].
Qed.

Lemma find_index_None {A} (p : A -> bool) l : find_index p l = None <-> Forall (fun x => p x = false) l.
Proof.
  induction l as [|x l IH]; cbn [find_index]; [split; [constructor|done]|]. rewrite Forall_cons.
  destruct (p x) eqn:Ex; [split; [done|by intros [? _]]|]. rewrite fmap_None, IH. tauto.
Qed.

Lemma remove_at {A} (l : list A) i x : l !! i = Some x -> l ≡ₚ x :: (take i l ++ drop (S i) l).
Proof.
  intros H. rewrite <- (take_drop_middle l i x H) at 1. by rewrite Permutation_middle.
Qed.

(** ** The client and the server stay in step *)

Section step.
Context {U : Unicode} {E : Ed25519} {L : Ed25519Laws}.

(** What [authenticateClient] reports for a key ([server/auth.go]). *)
Definition auth_tip (m : gmap str TripChain) (pubHex : str) : Z * str :=
  match m !! pubHex with
  | Some ch => (tc_Seq ch, match tc_PrevHash ch with [] => hex_encode zero32 | p => hex_encode p end)
  | None => (0, hex_encode zero32)
  end.

(** What [connect] keeps of it. *)
Definition adopt_tip (k : TripKey) (seq : Z) (prevHex : str) : TripKey :=
  mkTripKey (tk_Seed k) seq
    (match prevHex with
     | [] => tk_Prev k
     | _ => match hex_decode prevHex with
            | Some b => if slen b =? 32 then b else tk_Prev k
            | None => tk_Prev k
            end
     end).

Definition key_hex (k : TripKey) : str := hex_encode (ed_pub (tk_Seed k)).

(** The server waits for exactly the line the client signs next. *)
Definition in_step (m : gmap str TripChain) (k : TripKey) : Prop :=
  length (tk_Seed k) = 32%nat /\ length (tk_Prev k) = 32%nat /\
  expected_tip m (key_hex k) = (u32 (tk_Seq k + 1), tk_Prev k).

Lemma login_in_step m seed :
  length seed = 32%nat ->
  let k := mkTripKey seed 0 zero32 in
  in_step m (adopt_tip k (auth_tip m (key_hex k)).1 (auth_tip m (key_hex k)).2).
Proof.
  intros Hs k. unfold in_step, adopt_tip, auth_tip, key_hex, expected_tip. cbn [tk_Seed tk_Seq tk_Prev k].
  assert (hex_decode (hex_encode zero32) = Some zero32) as Hz by apply hex_decode_encode.
  assert (exists c s, hex_encode zero32 = c :: s) as (c & s & Ez) by (vm_compute; eauto).
  destruct (m !! _) as [ch|]; cbn [fst snd].
  - destruct (tc_PrevHash ch) as [|b p] eqn:Ep.
    + rewrite Ez. rewrite <- Ez, Hz. done.
    + assert (exists c' s', hex_encode (b :: p) = c' :: s') as (c' & s' & Eh) by (cbn; eauto).
      rewrite Eh. rewrite <- Eh, hex_decode_encode. destruct (slen (b :: p) =? 32) eqn:El; [|done].
      split; [done|]. split; [unfold slen in El; lia|done].
  - rewrite Ez. rewrite <- Ez, Hz. done.
Qed.

Variable serverID : option str.

Definition server_pub : str := match serverID with Some k => ToLower k | None => [] end.

(** The next signed line of a client in step is accepted, and they stay in
    step. *)
Lemma next_line_accepted (now : time) m k session_pub name sp text tmp rt :
  in_step m k -> 0 <= tk_Seq k < 2 ^ 32 - 1 -> text <> [] -> ValidateMessage text = Ok tt -> tmp <> 0 ->
  ToLower sp = server_pub -> lower_hex server_pub = true -> (server_pub = [] \/ length server_pub = 64%nat) ->
  (session_pub = [] \/ EqualFold session_pub (key_hex k) = true) ->
  exists r m', accept_signed now m session_pub name serverID (sign_line name sp k text tmp rt).1 = Ok (text, r, m') /\
    in_step m' (sign_line name sp k text tmp rt).2 /\
    tk_Seq (sign_line name sp k text tmp rt).2 = tk_Seq k + 1 /\
    tk_Seed (sign_line name sp k text tmp rt).2 = tk_Seed k.
Proof.
  intros (Hs & Hp & Hex) Hseq Ht Hval Htmp Hsp Hlow Hlen Hpub.
  unfold sign_line. cbn [fst snd tk_Seq tk_Seed]. rewrite Hsp, u32_small by (unfold is_u32; lia).
  destruct (signed_line_ok L (tk_Seed k) text name server_pub (tk_Seq k + 1) (tk_Prev k) tmp rt Hs Hp Hlen Hlow Htmp)
    as (r & Hr & _ & _ & Hnew).
  set (sig := ed_sign _ _) in *. set (pub := ed_pub (tk_Seed k)) in *.
  assert (length sig = 64%nat) as Hsl by by apply ed_sign_size.
  assert (ToLower (hex_encode pub) = hex_encode pub) as Hlp by apply lower_hex_ToLower, hex_encode_lower.
  exists r, (<[hex_encode pub := mkTip (tk_Seq k + 1) (vr_NewPrev r) now]> m). split; [|split; [|done]].
  - unfold accept_signed, env_text. cbn [te_Text te_Msg te_Pub te_Seq te_Prev te_Sig te_TmpID te_ReplyTo].
    destruct text as [|c t]; [done|]. rewrite Hval, Hlp.
    replace (negb (str_eqb session_pub []) && negb (EqualFold session_pub (hex_encode pub))) with false.
    2:{ destruct Hpub as [-> | Hpub]; [done|]. unfold key_hex in Hpub. fold pub in Hpub. rewrite Hpub. by rewrite andb_false_r. }
    unfold slen. rewrite !length_hex_encode, Hsl, Hp.
    replace (length pub) with 32%nat by (symmetry; by apply ed_pub_size).
    change (negb (Z.of_nat (2 * 32) =? 64)) with false. change (negb (Z.of_nat (2 * 64) =? 128)) with false. cbn [orb].
    unfold key_hex in Hex. fold pub in Hex. rewrite Hex, u32_small, Z.eqb_refl by (unfold is_u32; lia). cbn [negb].
    unfold EqualFold. rewrite str_eqb_refl. cbn [negb]. fold server_pub. by rewrite Hr.
  - unfold in_step, key_hex. cbn [tk_Seed tk_Seq tk_Prev]. fold pub. split; [done|]. rewrite Hnew.
    split; [apply length_sha256|]. rewrite expected_insert, str_eqb_refl by apply length_sha256. done.
Qed.

(** What the user does in a session, and the server on the other end of the
    socket: the texts it accepts, in order. *)
Record send_event := mkSend {
  se_now : time; se_sent : bool; se_epoch : Z; se_text : str; se_slot : slotRef; se_shown : bool
}.

Fixpoint converse (session_pub : str) (s : Sender) (m : gmap str TripChain) (evs : list send_event)
    : list str * Sender * gmap str TripChain :=
  match evs with
  | [] => ([], s, m)
  | ev :: evs' =>
      let '(line, s1) := sendMessage (se_now ev) (se_sent ev) (se_epoch ev) s (se_text ev) (se_slot ev) (se_shown ev) in
      let '(got, m1) :=
        match line with
        | CTrip env =>
            if se_sent ev then
              match accept_signed (se_now ev) m session_pub (sd_Username s) serverID env with
              | Ok (text, _, m1) => ([text], m1)
              | Err _ => ([], m)
              end
            else ([], m)
        | CPlain _ _ _ => ([], m)
        end in
      let '(rest, s2, m2) := converse session_pub s1 m1 evs' in
      (got ++ rest, s2, m2)
  end.

Lemma sendMessage_fields (now : time) sent epoch s text slot shown :
  0 <= TmpSeq (sd_Pending s) < 2 ^ 64 - 1 ->
  let '(line, s') := sendMessage now sent epoch s text slot shown in
  sd_Username s' = sd_Username s /\ sd_ServerPub s' = sd_ServerPub s /\
  TmpSeq (sd_Pending s') = TmpSeq (sd_Pending s) + (if sent then 1 else 0) /\
  match sd_Trip s with
  | Some k =>
      let sl := sign_line (sd_Username s) (sd_ServerPub s) k text (TmpSeq (sd_Pending s) + 1) (PendingReplyTo (sd_Pending s)) in
      line = CTrip sl.1 /\ sd_Trip s' = Some (if sent then sl.2 else k)
  | None => sd_Trip s' = None
  end.
Proof.
  intros Ht. unfold sendMessage. rewrite u64_small by (unfold is_u64; lia).
  destruct (sd_Trip s) as [k|].
  - destruct (sign_line _ _ k _ _ _) as [env k']. destruct sent; cbn [fst snd].
    + unfold track. cbn [PendingEchoes PendingPlaceholders TmpSeq SeenTmpIDs EchoSlot].
      destruct (takeStashedEcho _ _) as [es [w|]]; cbn; done.
    + cbn. rewrite Z.add_0_r. done.
  - destruct sent; cbn [fst snd].
    + unfold track. cbn [PendingEchoes PendingPlaceholders TmpSeq SeenTmpIDs EchoSlot].
      destruct (takeStashedEcho _ _) as [es [w|]]; cbn; done.
    + cbn. rewrite Z.add_0_r. done.
Qed.

Definition sent_texts (evs : list send_event) : list str := map se_text (List.filter se_sent evs).

Definition sendable (ev : send_event) : Prop := se_text ev <> [] /\ ValidateMessage (se_text ev) = Ok tt.

Lemma converse_in_step session_pub evs : forall s m k,
  sd_Trip s = Some k -> in_step m k -> Forall sendable evs ->
  0 <= tk_Seq k -> tk_Seq k + Z.of_nat (length evs) < 2 ^ 32 ->
  0 <= TmpSeq (sd_Pending s) -> TmpSeq (sd_Pending s) + Z.of_nat (length evs) < 2 ^ 64 ->
  ToLower (sd_ServerPub s) = server_pub -> lower_hex server_pub = true -> (server_pub = [] \/ length server_pub = 64%nat) ->
  (session_pub = [] \/ EqualFold session_pub (key_hex k) = true) ->
  let '(got, s', m') := converse session_pub s m evs in
  got = sent_texts evs /\ exists k', sd_Trip s' = Some k' /\ in_step m' k' /\
    tk_Seq k' = tk_Seq k + Z.of_nat (length (sent_texts evs)).
Proof.
  induction evs as [|ev evs IH]; intros s m k Hk Hst Hok Hq0 Hq Ht0 Ht Hsp Hlow Hlen Hpub.
  - cbn. split; [done|]. exists k. rewrite Z.add_0_r. done.
  - apply Forall_cons in Hok as [[Ht1 Ht2] Hok]. cbn [length] in *. cbn [converse].
    pose proof (sendMessage_fields (se_now ev) (se_sent ev) (se_epoch ev) s (se_text ev) (se_slot ev) (se_shown ev) ltac:(lia)) as Hf.
    destruct (sendMessage _ _ _ _ _ _ _) as [line s1]. rewrite Hk in Hf. destruct Hf as (F1 & F2 & F3 & -> & F4).
    unfold sent_texts in *. cbn [List.filter]. destruct (se_sent ev); cbn [map length].
    + destruct (next_line_accepted (se_now ev) m k session_pub (sd_Username s) (sd_ServerPub s) (se_text ev)
                  (TmpSeq (sd_Pending s) + 1) (PendingReplyTo (sd_Pending s)) Hst ltac:(lia) Ht1 Ht2 ltac:(lia) Hsp Hlow Hlen Hpub)
        as (r & m' & Ha & Hst' & Hq' & Hseed). rewrite Ha.
      assert (session_pub = [] \/ EqualFold session_pub (key_hex (sign_line (sd_Username s) (sd_ServerPub s) k (se_text ev)
                  (TmpSeq (sd_Pending s) + 1) (PendingReplyTo (sd_Pending s))).2) = true) as Hpub'
        by (unfold key_hex; by rewrite Hseed).
      specialize (IH s1 m' _ F4 Hst' Hok ltac:(lia) ltac:(lia) ltac:(lia) ltac:(lia) ltac:(by rewrite F2) Hlow Hlen Hpub').
      destruct (converse session_pub s1 m' evs) as [[rest s2] m2]. destruct IH as [-> (k' & K1 & K2 & K3)].
      split; [done|]. exists k'. split; [done|]. split; [done|]. lia.
    + specialize (IH s1 m k F4 Hst Hok ltac:(lia) ltac:(lia) ltac:(lia) ltac:(lia) ltac:(by rewrite F2) Hlow Hlen Hpub).
      destruct (converse session_pub s1 m evs) as [[rest s2] m2]. done.
Qed.

End step.

(** ** One confirmation per message *)

Section queue.
Context {U : Unicode} {E : Ed25519}.

(** What reaches the queue: a send, or a received line that may be an echo. *)
Inductive queue_event :=
| QSend (ev : send_event)
| QEcho (now : time) (msg : WireMessage) (allowStash : bool).

(** A step with the ids it confirms and the messages it warns about. *)
Definition queue_step (s : Sender) (ev : queue_event) : list Z * list WireMessage * Sender :=
  match ev with
  | QSend ev =>
      let s' := (sendMessage (se_now ev) (se_sent ev) (se_epoch ev) s (se_text ev) (se_slot ev) (se_shown ev)).2 in
      let tmp := u64 (TmpSeq (sd_Pending s) + 1) in
      (if se_sent ev then match (takeStashedEcho (PendingEchoes (sd_Pending s)) tmp).2 with Some _ => [tmp] | None => [] end
       else [], [], s')
  | QEcho now msg allowStash =>
      let '(act, p) := planEchoConsume now (sd_Username s) (sd_Pending s) msg allowStash in
      (match ec_pm act with Some pm => [pm_tmpID pm] | None => [] end, ec_stale act,
       mkSender (sd_Username s) (sd_ServerPub s) (sd_Trip s) p (sd_Chat s))
  end.

Fixpoint queue_run (s : Sender) (evs : list queue_event) : list Z * list WireMessage * Sender :=
  match evs with
  | [] => ([], [], s)
  | ev :: evs' =>
      let '(c1, w1, s1) := queue_step s ev in
      let '(c2, w2, s2) := queue_run s1 evs' in (c1 ++ c2, w1 ++ w2, s2)
  end.

Record queue_inv (p : PendingState) : Prop := {
  qi_seq : 0 <= TmpSeq p;
  qi_nodup : NoDup (map pm_tmpID (PendingPlaceholders p));
  qi_ids : Forall (fun i => 0 < i <= TmpSeq p) (map pm_tmpID (PendingPlaceholders p));
  qi_placeholders : (length (PendingPlaceholders p) <= maxPendingPlaceholders)%nat;
  qi_echoes : (length (PendingEchoes p) <= maxEchoes)%nat;
  qi_seen : (length (SeenTmpIDs p) <= maxSeenTmpIDs)%nat /\ NoDup (SeenTmpIDs p)
}.

Lemma NoDup_suffix {A} (l1 l2 : list A) : l1 `suffix_of` l2 -> NoDup l2 -> NoDup l1.
Proof. intros [k ->] H. by apply NoDup_app in H as (_ & _ & H). Qed.

Lemma map_lastn {A B} (f : A -> B) n l : map f (lastn n l) = lastn n (map f l).
Proof. unfold lastn. by rewrite length_map, (fmap_drop f). Qed.

Lemma noteConsumed_inv seen id : (length seen <= maxSeenTmpIDs)%nat /\ NoDup seen ->
  (length (noteConsumedTmpID seen id) <= maxSeenTmpIDs)%nat /\ NoDup (noteConsumedTmpID seen id).
Proof.
  intros [H1 H2]. unfold noteConsumedTmpID. destruct ((id =? 0) || seenTmpID seen id) eqn:E'; [done|]. split.
  - rewrite length_lastn. lia.
  - apply (NoDup_suffix _ (seen ++ [id])); [apply lastn_suffix|]. apply NoDup_app. split; [done|]. split; [|apply NoDup_singleton].
    intros x Hx ->%list_elem_of_singleton. unfold seenTmpID in E'. rewrite bool_decide_true in E' by done.
    by rewrite orb_true_r in E'.
Qed.

(** Removing one element keeps the rest. *)
Lemma removed_at (l : list pendingMsg) i pm : l !! i = Some pm ->
  map pm_tmpID l ≡ₚ pm_tmpID pm :: map pm_tmpID (take i l ++ drop (S i) l) /\
  length l = S (length (take i l ++ drop (S i) l)).
Proof.
  intros H. pose proof (remove_at l i pm H) as Hp. split.
  - by rewrite Hp at 1.
  - by rewrite Hp at 1.
Qed.

Lemma echo_step_inv (now : time) username p msg allow :
  queue_inv p ->
  let '(act, p') := planEchoConsume now username p msg allow in
  queue_inv p' /\ TmpSeq p' = TmpSeq p /\
  map pm_tmpID (PendingPlaceholders p) ≡ₚ
    match ec_pm act with Some pm => [pm_tmpID pm] | None => [] end ++ map pm_tmpID (PendingPlaceholders p').
Proof.
  intros [H1 H2 H3 H4 H5 H6]. unfold planEchoConsume, reapStaleEchoes. cbv beta iota zeta.
  set (kept := List.filter _ _). set (stale := map pe_msg _).
  assert (length kept <= maxEchoes)%nat as Hk.
  { unfold kept. pose proof (List.filter_length_le (fun e => negb (staleAge <? Sub now (pe_at e))) (PendingEchoes p)). lia. }
  assert (forall x, queue_inv (if (x : bool) then set_echoes (set_echoes p kept) (stashEcho now kept msg maxEchoes)
                               else set_echoes p kept)) as Hst.
  { intros [|]; split; cbn; try done; try lia. unfold stashEcho. rewrite length_lastn. lia. }
  assert (forall x, TmpSeq (if (x : bool) then set_echoes (set_echoes p kept) (stashEcho now kept msg maxEchoes)
                               else set_echoes p kept) = TmpSeq p /\
            PendingPlaceholders (if (x : bool) then set_echoes (set_echoes p kept) (stashEcho now kept msg maxEchoes)
                               else set_echoes p kept) = PendingPlaceholders p) as Hsame by (by intros [|]).
  destruct (negb _ || _).
  - match goal with |- context [if ?b then _ else set_echoes p kept] => destruct (Hsame b) as [E1 E2]; specialize (Hst b) end.
    split; [exact Hst|]. split; [exact E1|]. cbn [ec_pm app]. by rewrite E2.
  - destruct (matchPendingIndex _ _ _ _ _ _ _) as [i|] eqn:Em.
    + assert (exists pm, PendingPlaceholders p !! i = Some pm) as [pm Hpm].
      { unfold matchPendingIndex in Em. destruct (negb _ || _); [done|].
        destruct (negb _); apply find_index_Some in Em as (pm & Hpm & _); by exists pm. }
      cbn [set_echoes PendingPlaceholders TmpSeq SeenTmpIDs] in *. rewrite Hpm.
      destruct (removed_at _ _ _ Hpm) as [Hp Hl]. split; [|split; [done|exact Hp]].
      rewrite Hp in H2, H3. apply NoDup_cons in H2 as [_ H2]. apply Forall_cons in H3 as [_ H3].
      split; cbn; try done; [lia|]. by apply noteConsumed_inv.
    + match goal with |- context [if ?b then _ else set_echoes p kept] => destruct (Hsame b) as [E1 E2]; specialize (Hst b) end.
      split; [exact Hst|]. split; [exact E1|]. cbn [ec_pm app]. by rewrite E2.
Qed.

Lemma takeStashed_length stash id : (length (takeStashedEcho stash id).1 <= length stash)%nat.
Proof.
  unfold takeStashedEcho. destruct (find_index _ _); cbn; [|done]. rewrite length_app, length_take, length_drop. lia.
Qed.

Lemma suffix_in {A} (l1 l2 : list A) x : l1 `suffix_of` l2 -> x ∈ l1 -> x ∈ l2.
Proof. intros [k ->] H. apply elem_of_app. by right. Qed.

(** A send tracks one new id, or confirms it at once. *)
Lemma send_step_inv (s : Sender) ev :
  queue_inv (sd_Pending s) -> TmpSeq (sd_Pending s) < 2 ^ 64 - 1 ->
  let '(c, w, s') := queue_step s (QSend ev) in
  queue_inv (sd_Pending s') /\ sd_Username s' = sd_Username s /\
  TmpSeq (sd_Pending s) <= TmpSeq (sd_Pending s') <= TmpSeq (sd_Pending s) + 1 /\
  NoDup c /\ (forall x, x ∈ c -> x = TmpSeq (sd_Pending s') /\ x = TmpSeq (sd_Pending s) + 1 /\
                        x ∉ map pm_tmpID (PendingPlaceholders (sd_Pending s'))) /\
  (forall x, x ∈ map pm_tmpID (PendingPlaceholders (sd_Pending s')) ->
     x ∈ map pm_tmpID (PendingPlaceholders (sd_Pending s)) \/ x = TmpSeq (sd_Pending s) + 1).
Proof.
  intros [H1 H2 H3 H4 H5 H6] Hb. cbn [queue_step]. unfold sendMessage. set (p := sd_Pending s) in *.
  rewrite u64_small by (unfold is_u64; lia).
  set (lk := match sd_Trip s with Some k => _ | None => _ end). destruct lk as [line key].
  destruct (se_sent ev).
  2:{ cbn [snd sd_Pending sd_Username TmpSeq PendingPlaceholders]. split; [split; done|]. split; [done|]. split; [lia|].
      split; [apply NoDup_nil_2|]. split; [by intros x ?%elem_of_nil|]. by left. }
  unfold track. cbn [PendingEchoes PendingPlaceholders TmpSeq SeenTmpIDs EchoSlot pm_tmpID].
  set (pm := mkPending _ _ _ _ _ _ _ _ _ _).
  pose proof (takeStashed_length (PendingEchoes p) (TmpSeq p + 1)) as Hl.
  set (ph := lastn maxPendingPlaceholders (PendingPlaceholders p ++ [pm])) in *.
  assert (map pm_tmpID ph `suffix_of` map pm_tmpID (PendingPlaceholders p) ++ [TmpSeq p + 1]) as Hsuf.
  { unfold ph. rewrite map_lastn, map_app. apply lastn_suffix. }
  assert (NoDup (map pm_tmpID (PendingPlaceholders p) ++ [TmpSeq p + 1])) as Hnd.
  { apply NoDup_app. split; [done|]. split; [|apply NoDup_singleton]. intros x Hx ->%list_elem_of_singleton.
    rewrite Forall_forall in H3. specialize (H3 _ Hx). lia. }
  assert (forall x, x ∈ map pm_tmpID ph -> x ∈ map pm_tmpID (PendingPlaceholders p) \/ x = TmpSeq p + 1) as Hin.
  { intros x Hx. apply (suffix_in _ _ _ Hsuf), elem_of_app in Hx as [?|?%list_elem_of_singleton]; [by left|by right]. }
  assert (Forall (fun i => 0 < i <= TmpSeq p + 1) (map pm_tmpID ph)) as Hids.
  { apply Forall_forall. intros x [Hx| ->]%Hin; [|lia]. rewrite Forall_forall in H3. specialize (H3 _ Hx). lia. }
  assert (length ph <= maxPendingPlaceholders)%nat as Hlen by (unfold ph; rewrite length_lastn; lia).
  destruct (takeStashedEcho _ _) as [es [w|]]; cbn [snd sd_Pending sd_Username TmpSeq PendingPlaceholders fst] in *.
  - assert (exists i, find_index (fun q => pm_tmpID q =? TmpSeq p + 1) ph = Some i /\ ph !! i = Some pm) as (i & -> & Hi).
    { assert (exists ph', ph = ph' ++ [pm] /\ ph' `suffix_of` PendingPlaceholders p) as (ph' & Eph & Hph').
      { unfold ph. change maxPendingPlaceholders with (S 127). rewrite lastn_snoc. eexists. split; [done|]. apply lastn_suffix. }
      exists (length ph'). rewrite Eph. split; [|by rewrite list_lookup_middle].
      apply find_index_Some. exists pm. split; [by rewrite list_lookup_middle|]. split; [cbn; lia|].
      intros j q Hj Hq. rewrite lookup_app_l in Hq by done. apply list_elem_of_lookup_2, (suffix_in _ _ _ Hph') in Hq.
      rewrite Forall_forall in H3. specialize (H3 (pm_tmpID q) ltac:(by apply list_elem_of_fmap_2)). lia. }
    destruct (removed_at _ _ _ Hi) as [Hp Hl2]. pose proof (NoDup_suffix _ _ Hsuf Hnd) as Hnd'.
    rewrite Hp in Hnd', Hids. apply NoDup_cons in Hnd' as [Hnot Hnd']. apply Forall_cons in Hids as [_ Hids]. cbn [pm_tmpID pm] in Hnot.
    split; [split; cbn; [lia|done|done|lia|lia|by apply noteConsumed_inv]|]. split; [done|]. split; [lia|].
    split; [apply NoDup_singleton|]. split; [by intros x ->%list_elem_of_singleton|].
    intros x Hx. apply Hin. rewrite Hp. by right.
  - split; [split; cbn; [lia|by apply (NoDup_suffix _ _ Hsuf)|done|lia|lia|done]|]. split; [done|]. split; [lia|].
    split; [apply NoDup_nil_2|]. split; [by intros x ?%elem_of_nil|done].
Qed.

Lemma echo_step_facts (s : Sender) (now : time) msg allow :
  queue_inv (sd_Pending s) ->
  let '(c, w, s') := queue_step s (QEcho now msg allow) in
  queue_inv (sd_Pending s') /\ sd_Username s' = sd_Username s /\ TmpSeq (sd_Pending s') = TmpSeq (sd_Pending s) /\
  map pm_tmpID (PendingPlaceholders (sd_Pending s)) ≡ₚ c ++ map pm_tmpID (PendingPlaceholders (sd_Pending s')).
Proof.
  intros H. cbn [queue_step]. pose proof (echo_step_inv now (sd_Username s) (sd_Pending s) msg allow H) as Hs.
  destruct (planEchoConsume _ _ _ _ _) as [act p]. destruct Hs as (H1 & H2 & H3). done.
Qed.

Definition pending_ids (s : Sender) : list Z := map pm_tmpID (PendingPlaceholders (sd_Pending s)).

Lemma queue_run_facts evs : forall s,
  queue_inv (sd_Pending s) -> TmpSeq (sd_Pending s) + Z.of_nat (length evs) < 2 ^ 64 ->
  let '(c, w, s') := queue_run s evs in
  queue_inv (sd_Pending s') /\ TmpSeq (sd_Pending s) <= TmpSeq (sd_Pending s') /\ NoDup c /\
  (forall x, x ∈ c -> (x ∈ pending_ids s \/ TmpSeq (sd_Pending s) < x) /\ x <= TmpSeq (sd_Pending s') /\ x ∉ pending_ids s') /\
  (forall x, x ∈ pending_ids s' -> x ∈ pending_ids s \/ TmpSeq (sd_Pending s) < x).
Proof.
  induction evs as [|ev evs IH]; intros s Hi Hb.
  - cbn. split; [done|]. split; [lia|]. split; [apply NoDup_nil_2|]. split; [by intros x ?%elem_of_nil|]. by left.
  - cbn [queue_run length] in *. pose proof (qi_ids _ Hi) as Hids. rewrite Forall_forall in Hids. destruct ev as [ev|now msg allow].
    + pose proof (send_step_inv s ev Hi ltac:(lia)) as Hs. destruct (queue_step s (QSend ev)) as [[c1 w1] s1].
      destruct Hs as (Hi1 & _ & Ht & Hn & Hc & Hp). specialize (IH s1 Hi1 ltac:(lia)).
      destruct (queue_run s1 evs) as [[c2 w2] s2]. destruct IH as (I1 & I2 & I3 & I4 & I5).
      split; [done|]. split; [lia|]. split; [|split].
      * apply NoDup_app. split; [done|]. split; [|done]. intros x Hx1 Hx2. destruct (Hc x Hx1) as (E1 & E2 & E3).
        destruct (I4 x Hx2) as ([?|?] & _); [done|lia].
      * intros x [Hx|Hx]%elem_of_app.
        -- destruct (Hc x Hx) as (E1 & E2 & E3). split; [right; lia|]. split; [lia|]. intros Hx'.
           destruct (I5 x Hx') as [?|?]; [done|lia].
        -- destruct (I4 x Hx) as ([Ha|Ha] & Hb1 & Hb2); (split; [|done]).
           ++ destruct (Hp x Ha) as [?|?]; [by left|right; lia].
           ++ right. lia.
      * intros x Hx. destruct (I5 x Hx) as [Ha|Ha]; [|right; lia]. destruct (Hp x Ha) as [?|?]; [by left|right; lia].
    + pose proof (echo_step_facts s now msg allow Hi) as Hs. destruct (queue_step s (QEcho now msg allow)) as [[c1 w1] s1].
      destruct Hs as (Hi1 & _ & Ht & Hp). specialize (IH s1 Hi1 ltac:(lia)).
      destruct (queue_run s1 evs) as [[c2 w2] s2]. destruct IH as (I1 & I2 & I3 & I4 & I5).
      pose proof (qi_nodup _ Hi) as Hnd. fold (pending_ids s) in Hnd, Hids, Hp. fold (pending_ids s1) in Hp.
      rewrite Hp in Hnd. apply NoDup_app in Hnd as (Hn1 & Hn2 & _).
      assert (forall x, x ∈ c1 ++ pending_ids s1 -> x ∈ pending_ids s) as Hin by (intros x; by rewrite Hp).
      assert (forall x, x ∈ c1 -> x ∈ pending_ids s2 \/ x ∈ c2 -> False) as Hex.
      { intros x Hx Hor. assert (x <= TmpSeq (sd_Pending s1)) as Hle.
        { specialize (Hids x (Hin x ltac:(apply elem_of_app; by left))). lia. }
        destruct Hor as [Hy|Hy].
        - destruct (I5 x Hy) as [Hz|Hz]; [by apply (Hn2 x)|lia].
        - destruct (I4 x Hy) as ([Hz|Hz] & _); [by apply (Hn2 x)|lia]. }
      split; [done|]. split; [lia|]. split; [|split].
      * apply NoDup_app. split; [done|]. split; [|done]. intros x Hx1 Hx2. apply (Hex x Hx1). by right.
      * intros x [Hx|Hx]%elem_of_app.
        -- split; [left; apply Hin, elem_of_app; by left|]. split; [|intros Hx'; apply (Hex x Hx); by left].
           specialize (Hids x (Hin x ltac:(apply elem_of_app; by left))). lia.
        -- destruct (I4 x Hx) as ([Ha|Ha] & Hb1 & Hb2); (split; [|done]).
           ++ left. apply Hin, elem_of_app. by right.
           ++ right. lia.
      * intros x Hx. destruct (I5 x Hx) as [Ha|Ha]; [left; apply Hin, elem_of_app; by right|right; lia].
Qed.

(** ** What a confirmation and a warning mean *)

Lemma queue_run_app evs1 : forall s evs2,
  queue_run s (evs1 ++ evs2) =
  let '(c1, w1, s1) := queue_run s evs1 in
  let '(c2, w2, s2) := queue_run s1 evs2 in (c1 ++ c2, w1 ++ w2, s2).
Proof.
  induction evs1 as [|ev evs1 IH]; intros s evs2; cbn [app queue_run].
  - by destruct (queue_run s evs2) as [[? ?] ?].
  - destruct (queue_step s ev) as [[c w] s1]. rewrite IH. destruct (queue_run s1 evs1) as [[c1 w1] s2].
    destruct (queue_run s2 evs2) as [[c2 w2] s3]. by rewrite !app_assoc.
Qed.

Definition after (s : Sender) (evs : list queue_event) : Sender := (queue_run s evs).2.

Lemma after_snoc s evs ev : after s (evs ++ [ev]) = (queue_step (after s evs) ev).2.
Proof.
  unfold after. rewrite queue_run_app. destruct (queue_run s evs) as [[? ?] s1]. cbn [queue_run snd].
  by destruct (queue_step s1 ev) as [[? ?] ?].
Qed.

Lemma step_username s ev : sd_Username (queue_step s ev).2 = sd_Username s.
Proof.
  destruct ev as [ev|now msg allow]; cbn [queue_step].
  - unfold sendMessage. destruct (match sd_Trip s with Some k => _ | None => _ end) as [line key].
    destruct (se_sent ev); [|done]. by destruct (track _ _ _).
  - by destruct (planEchoConsume _ _ _ _ _).
Qed.

Lemma after_username s evs : sd_Username (after s evs) = sd_Username s.
Proof. induction evs as [|ev evs IH] using rev_ind; [done|]. by rewrite after_snoc, step_username. Qed.

(** A line of our own that found neither its placeholder nor a record that it
    was confirmed. *)
Definition unmatched (s : Sender) (w : WireMessage) : Prop :=
  wm_DisplayName w = sd_Username s /\ wm_TmpID w <> 0 /\ wm_TmpID w ∉ SeenTmpIDs (sd_Pending s) /\
  Forall (fun pm => ~ (pm_tmpID pm = wm_TmpID w /\ pm_replyTo pm = wm_ReplyTo w)) (PendingPlaceholders (sd_Pending s)).

Definition came_unmatched (s0 : Sender) (evs : list queue_event) (w : WireMessage) (at_ : time) : Prop :=
  exists pre post, evs = pre ++ QEcho at_ w true :: post /\ unmatched (after s0 pre) w.

Lemma came_later s0 evs ev w at_ : came_unmatched s0 evs w at_ -> came_unmatched s0 (evs ++ [ev]) w at_.
Proof. intros (pre & post & -> & H). exists pre, (post ++ [ev]). by rewrite <- app_assoc. Qed.

Lemma stash_step (s : Sender) (now : time) msg allow e :
  e ∈ PendingEchoes (sd_Pending (queue_step s (QEcho now msg allow)).2) ->
  e ∈ PendingEchoes (sd_Pending s) \/ (e = mkEcho msg now /\ allow = true /\ unmatched s msg).
Proof.
  cbn [queue_step]. unfold planEchoConsume, reapStaleEchoes. cbv beta iota zeta.
  set (kept := List.filter _ _).
  assert (forall x, x ∈ kept -> x ∈ PendingEchoes (sd_Pending s)) as Hk.
  { intros x Hx. apply list_elem_of_In, filter_In in Hx as [Hx _]. by apply list_elem_of_In. }
  set (p0 := set_echoes (sd_Pending s) kept). change (PendingPlaceholders p0) with (PendingPlaceholders (sd_Pending s)).
  change (SeenTmpIDs p0) with (SeenTmpIDs (sd_Pending s)).
  assert (forall b, e ∈ PendingEchoes (if (b : bool) then set_echoes p0 (stashEcho now kept msg maxEchoes) else p0) ->
     e ∈ PendingEchoes (sd_Pending s) \/ (b = true /\ e = mkEcho msg now)) as Hst.
  { intros [|]; cbn; [|by left; apply Hk]. intros He. apply (suffix_in _ _ _ (lastn_suffix _ _)) in He.
    apply elem_of_app in He as [He|He%list_elem_of_singleton]; [by left; apply Hk|by right]. }
  destruct (str_eqb (wm_DisplayName msg) (sd_Username s)) eqn:En.
  2:{ rewrite !andb_false_r, !andb_false_l. cbn [negb orb snd sd_Pending]. intros [?|[? _]]%(Hst false); by left. }
  pose proof En as En'. apply str_eqb_eq in En'.
  assert (forall P : Prop, (wm_TmpID msg <> 0 -> P) ->
    e ∈ PendingEchoes (if allow && true && negb (wm_TmpID msg =? 0) && negb (seenTmpID (SeenTmpIDs (sd_Pending s)) (wm_TmpID msg))
                       then set_echoes p0 (stashEcho now kept msg maxEchoes) else p0) ->
    e ∈ PendingEchoes (sd_Pending s) \/
    (e = mkEcho msg now /\ allow = true /\ wm_TmpID msg <> 0 /\ wm_TmpID msg ∉ SeenTmpIDs (sd_Pending s) /\ P)) as Hcase.
  { intros P HP [?|[Hb He]]%Hst; [by left|right]. rewrite !andb_true_iff in Hb. destruct Hb as [[[Ha _] H1] H2].
    apply negb_true_iff in H1, H2. unfold seenTmpID in H2. apply bool_decide_eq_false in H2.
    split; [done|]. split; [done|]. split; [lia|]. split; [done|]. apply HP. lia. }
  cbn [negb orb]. case_bool_decide as Hnil.
  - cbn [snd sd_Pending]. intros He.
    destruct (Hcase True ltac:(done) He) as [?|(-> & -> & ? & ? & _)]; [by left|right]. split; [done|]. split; [done|].
    unfold unmatched. rewrite Hnil. by split_and!.
  - destruct (matchPendingIndex _ _ _ _ _ _ _) as [i|] eqn:Em; cbn [snd sd_Pending PendingEchoes].
    + intros He. left. by apply Hk.
    + intros He. apply (Hcase (Forall (fun pm => ~ (pm_tmpID pm = wm_TmpID msg /\ pm_replyTo pm = wm_ReplyTo msg)) (PendingPlaceholders (sd_Pending s)))) in He.
      * destruct He as [?|(-> & -> & ? & ? & ?)]; [by left|right]. by split_and!.
      * intros Hne. unfold matchPendingIndex in Em. rewrite En', str_eqb_refl in Em. cbn [negb orb] in Em.
        rewrite bool_decide_false in Em by done. replace (wm_TmpID msg =? 0) with false in Em by lia. cbn [negb] in Em.
        apply find_index_None in Em. eapply Forall_impl; [exact Em|]. intros pm Hpm [E1 E2]. cbv beta in Hpm. lia.
Qed.

Lemma firstn_skipn_In {A} (l : list A) n x : In x (take n l) \/ In x (drop n l) -> In x l.
Proof. intros H. rewrite <- (take_drop n l). by apply in_app_iff. Qed.

Lemma stash_send (s : Sender) ev e :
  e ∈ PendingEchoes (sd_Pending (queue_step s (QSend ev)).2) -> e ∈ PendingEchoes (sd_Pending s).
Proof.
  cbn [queue_step]. unfold sendMessage. destruct (match sd_Trip s with Some k => _ | None => _ end) as [line key].
  destruct (se_sent ev); [|done]. unfold track. cbn [PendingEchoes TmpSeq PendingPlaceholders pm_tmpID].
  unfold takeStashedEcho. destruct (find_index _ _) as [i|]; cbn [fst snd sd_Pending PendingEchoes]; [|done].
  destruct (PendingEchoes (sd_Pending s) !! i); cbn [fmap option_fmap option_map snd sd_Pending PendingEchoes];
    (intros [He|He]%elem_of_app; apply list_elem_of_In in He; apply list_elem_of_In;
     [by apply (firstn_skipn_In _ i); left|by apply (firstn_skipn_In _ (S i)); right]).
Qed.

Lemma stash_provenance s0 evs e :
  PendingEchoes (sd_Pending s0) = [] ->
  e ∈ PendingEchoes (sd_Pending (after s0 evs)) -> came_unmatched s0 evs (pe_msg e) (pe_at e).
Proof.
  intros H0. revert e. induction evs as [|ev evs IH] using rev_ind; intros e.
  - unfold after. cbn. rewrite H0. by intros ?%elem_of_nil.
  - rewrite after_snoc. destruct ev as [ev|now msg allow]; intros He.
    + apply stash_send in He. by apply came_later, IH.
    + apply stash_step in He as [He|(-> & -> & He)]; [by apply came_later, IH|]. exists evs, []. by split.
Qed.

(** Echo matching confirms each message once and warns only about what it
    could not match: over any sends and received lines, no message number is
    confirmed twice, a confirmed one is no longer waiting, the queues stay
    within their bounds, and every line reported as altered is one of our own
    that arrived more than ten seconds earlier when neither a placeholder with
    its number and reply target nor a record of its confirmation existed. *)
Theorem echoes_confirm_once s0 evs :
  sd_Pending s0 = newPending -> Z.of_nat (length evs) < 2 ^ 64 ->
  let '(confirmed, _, s) := queue_run s0 evs in
  NoDup confirmed /\
  (forall i, i ∈ confirmed -> 0 < i <= TmpSeq (sd_Pending s) /\ i ∉ pending_ids s) /\
  queue_inv (sd_Pending s) /\
  (forall (now : time) msg allow w, w ∈ (queue_step s (QEcho now msg allow)).1.2 ->
     exists at_, staleAge < Sub now at_ /\ came_unmatched s0 evs w at_).
Proof.
  intros H0 Hb.
  assert (queue_inv (sd_Pending s0)) as Hi.
  { rewrite H0. split; cbn; [lia|apply NoDup_nil_2|constructor|lia|lia|split; [lia|apply NoDup_nil_2]]. }
  pose proof (queue_run_facts evs s0 Hi ltac:(rewrite H0; cbn; lia)) as Hr.
  pose proof (fun e => stash_provenance s0 evs e ltac:(by rewrite H0)) as Hp. unfold after in Hp.
  destruct (queue_run s0 evs) as [[c w] s]. destruct Hr as (R1 & R2 & R3 & R4 & R5). cbn [snd] in Hp.
  split; [done|]. split; [|split; [done|]].
  - intros i Hin. destruct (R4 i Hin) as ([Ha|Ha] & Hle & Hnot); (split; [|done]).
    + unfold pending_ids in Ha. rewrite H0 in Ha. by apply elem_of_nil in Ha.
    + rewrite H0 in Ha. cbn in Ha. lia.
  - intros now msg allow w'. cbn [queue_step]. unfold planEchoConsume, reapStaleEchoes. cbv beta iota zeta.
    set (stale := map pe_msg _). intros Hw. assert (w' ∈ stale) as Hw'.
    { destruct (negb _ || _); [exact Hw|]. by destruct (matchPendingIndex _ _ _ _ _ _ _). }
    unfold stale in Hw'. apply list_elem_of_In, in_map_iff in Hw' as (e & <- & He). apply filter_In in He as [He Hs].
    exists (pe_at e). split; [lia|]. apply Hp. by apply list_elem_of_In.
Qed.
End queue.

(** ** Concrete runs *)

Definition toy_key : TripKey := mkTripKey toy_seed 0 zero32.
Definition toy_sends : list send_event :=
  [mkSend 5 true 0 (lit "hi") (mkSlot 0 emptyEntry) true;
   mkSend 6 false 0 (lit "lost") (mkSlot 0 emptyEntry) true;
   mkSend 7 true 0 (lit "again") (mkSlot 0 emptyEntry) true].


Definition toy_sender : Sender := mkSender (lit "An") [] None newPending (newTabBuffer 0 0).
Definition toy_echo (tmp : Z) (text : str) : WireMessage :=
  mkWire (lit "chat") (lit "15:04") (lit "An") [] 0 [] 0 0 0 [] [] [] text None tmp 0 [] [] 1 2 1 [].

Lemma echoes_confirm_once_witness :
  NoDup (queue_run (U := sample_unicode) (E := toy_ed25519) toy_sender
    [QEcho 4 (toy_echo 1 (lit "hi")) true; QSend (mkSend 5 true 0 (lit "hi") (mkSlot 0 emptyEntry) true);
     QEcho 6 (toy_echo 1 (lit "hi")) true]).1.1.
Proof.
  pose proof (echoes_confirm_once (U := sample_unicode) (E := toy_ed25519) toy_sender
    [QEcho 4 (toy_echo 1 (lit "hi")) true; QSend (mkSend 5 true 0 (lit "hi") (mkSlot 0 emptyEntry) true);
     QEcho 6 (toy_echo 1 (lit "hi")) true] eq_refl ltac:(vm_compute; reflexivity)) as H.
  destruct (queue_run _ _) as [[c w] s]. exact (proj1 H).
Defined.

(** Two copies of an echo that both beat the send are both stashed, and only
    one of them is taken: the other one ages into a warning about a message
    that was confirmed. *)
Example double_race_warns :
  let run := queue_run (U := sample_unicode) (E := toy_ed25519) toy_sender
    [QEcho 1 (toy_echo 1 (lit "hi")) true; QEcho 2 (toy_echo 1 (lit "hi")) true;
     QSend (mkSend 5 true 0 (lit "hi") (mkSlot 0 emptyEntry) true);
     QEcho (11 * Second) (toy_echo 9 (lit "other")) false] in
  run.1.1 = [1] /\ map wm_TmpID run.1.2 = [1].
Proof. vm_compute. done. Qed.

(** The line limit is tested before a send, but its refusal is not acted on. *)
Lemma too_many_lines_sent `{Unicode} (now : time) lim p text :
  ValidateMessage text = Ok tt -> RuneCount text <= MaxMessageLength lim ->
  MaxMessageLine lim < count_byte (byte_of 10) text + 1 -> checkSendGuards now (Some lim) p text = true.
Proof.
  intros Hv Hl Hn. unfold checkSendGuards, ValidateMessageForSend. rewrite Hv.
  replace (MaxMessageLength lim <? RuneCount text) with false by lia.
  by replace (MaxMessageLine lim <? count_byte (byte_of 10) text + 1) with true by lia.
Qed.
