(* ===== verification/ClientChain.v ===== *)
(** The client's chain tracker ([client/chainmeta.go], with the verdicts of
    [lib/clientcore/verify.go]): the running tip, its saved copy, the check of
    one received link, the fork check against the saved tip, and the refill of
    missed lines with its timers.  The methods run under [DisplayMu]; what the
    outside decides (the disk, the socket, the configuration) is the record
    [Env], read once per call.  What a method shows or sends is appended to
    [cl_out]. *)

From Stdlib Require Import Sorted.
From stdpp Require Import sorting.
From S2P Require Import Prelude Bytes Sha2 Utf8 Wire Json ChainLink Window HistoryScan HistoryStore ChainService.
From S2P Require Import LinkedLog ClientView Outbox.
Local Open Scope Z_scope.

(** * Verdicts on one message *)

(** [ChainLinkError]: [PrevMismatch] is the [ErrPrevMismatch] value. *)
Inductive link_error := MalformedPrev | MalformedHash | HashMismatch | PrevMismatch.

Definition VerifyWireContent (msg : WireMessage) : res link_error unit :=
  match ParseHex64 (wm_ChainHash msg) with
  | None => Err MalformedHash
  | Some want =>
      match ParseHex64 (wm_ChainPrev msg) with
      | None => Err MalformedPrev
      | Some prev => if negb (VerifyWire prev msg want) then Err HashMismatch else Ok tt
      end
  end.

(** [verifyWireLink]: the new tip, or what is wrong with the link. *)
Definition verifyWireLink (msg : WireMessage) (prev : str) : res link_error str :=
  match ParseHex64 (wm_ChainPrev msg) with
  | None => Err MalformedPrev
  | Some gotPrev =>
      if negb (str_eqb gotPrev prev) then Err PrevMismatch
      else
        match ParseHex64 (wm_ChainHash msg) with
        | None => Err MalformedHash
        | Some want =>
            match VerifyWireContent msg with
            | Err e => Err e
            | Ok _ => Ok want
            end
        end
  end.

(** * The saved tip *)

Record chainTipRecord := mkTipRecord { ctr_Tip : str; ctr_Height : Z; ctr_ServerPub : str }.

Definition tip_record_fields (r : chainTipRecord) : list (str * json) :=
  fstr "tip" (ctr_Tip r) ++ fint "height" (ctr_Height r) ++ fstr "server_pub" (ctr_ServerPub r).

Definition tip_record_field (st : option chainTipRecord) (kv : str * json) : option chainTipRecord :=
  match st with
  | None => None
  | Some (mkTipRecord tip height pub) =>
      let '(k, v) := kv in
      if key_is k "tip" then x ← dstr v tip; Some (mkTipRecord x height pub)
      else if key_is k "height" then x ← duint 64 v height; Some (mkTipRecord tip x pub)
      else if key_is k "server_pub" then x ← dstr v pub; Some (mkTipRecord tip height x)
      else st
  end.

(** The bytes of the file; [saveChainTip] replaces it by a rename, so a failed
    write leaves the old one. *)
Definition tip_file (tip : str) (height : Z) (serverPub : str) : str :=
  print (JObj (tip_record_fields (mkTipRecord (hex_encode tip) height serverPub))).

Definition loadChainTip (file : option str) : option (str * Z * str) :=
  match file with
  | None => None
  | Some data =>
      match parse data with
      | Some v =>
          match dobj tip_record_field v (mkTipRecord [] 0 []) with
          | Some rec =>
              match ParseHex64 (ctr_Tip rec) with
              | Some tip => Some (tip, ctr_Height rec, ctr_ServerPub rec)
              | None => None
              end
          | None => None
          end
      | None => None
      end
  end.

(** * State *)

Record Env := mkEnv {
  e_now : time;
  e_username : str;
  e_ServerPub : str;
  e_saved : bool;          (* a tip write of this call reaches the disk *)
  e_conn : bool;           (* [s.Conn != nil] *)
  e_sent : bool;           (* [sendJSON] succeeds *)
  e_cap : Z;               (* [HistoryLiveRecoverCap], 0 without a config *)
  e_retries : Z            (* [HistoryRecoverRetries], 2 without a config *)
}.

Record TipState := mkTipState {
  t_Tip : str;
  t_Height : Z;
  t_HaveTip : bool;
  t_Warned : bool;
  t_GapWarned : bool;
  t_SinceSave : Z;
  t_File : option str
}.

(** A window under refill; [rw_ID] stands for the identity of the pointer. *)
Record recoverWindow := mkWindow {
  rw_ID : Z;
  rw_Missing : gset Z;
  rw_Known : gmap Z str;
  rw_Live : gset Z;
  rw_MaxMissing : Z;
  rw_Received : Z;
  rw_Attempts : Z;
  rw_Failed : bool
}.

(** An armed [time.AfterFunc]: the settle timeout or the delayed retry of one
    window, valid for one generation. *)
Inductive timer :=
| SettleTimer (gen id : Z)
| RetryTimer (gen id : Z).

Record RecoverState := mkRecover {
  r_InRecover : bool;
  r_Rendered : bool;
  r_Pending : option recoverWindow;
  r_Gen : Z;
  r_LiveRecovered : Z;
  r_Timers : list timer;
  r_NextID : Z
}.

Record SyncState := mkSync {
  y_InSync : bool;
  y_InOlder : bool;
  y_Loading : bool;
  y_LoadLoaded : Z;
  y_SyncHeights : gmap Z str;
  y_CatchupHold : bool;
  y_HoldGen : Z
}.

Inductive feedback :=
| FirstMalformed
| Broken (height : Z) (err : link_error)
| GapLost (from to : Z)
| StaleEcho (tmpID : Z).

Inductive output :=
| OFeedback (f : feedback)
| ORender (msg : WireMessage)             (* [renderChatBlock] *)
| ORenderInPlace (msg : WireMessage)      (* [renderRecoveredInPlace] *)
| OSendRanges (ranges : list HeightRange) (limit : Z)
| ORefilled (received : Z)
| ORefillLost (received total : Z)
| OReleaseCatchup
| ODraw (msg : WireMessage) (older : bool)   (* [renderChatBlock], spliced above when older *)
| ORaw (line : str)                          (* [emitRawLineLocked] *)
| OLoadPage (after : Z) (limit : Z)
| OOlderPage (before : Z) (limit : Z)
| OStatus (loaded : Z)
| OForkWarning (height : Z).

Record Client := mkClient {
  cl_tip : TipState;
  cl_rec : RecoverState;
  cl_sync : SyncState;
  cl_pending : PendingState;
  cl_out : list output
}.

Definition set_tip (c : Client) (t : TipState) : Client := mkClient t (cl_rec c) (cl_sync c) (cl_pending c) (cl_out c).
Definition set_rec (c : Client) (r : RecoverState) : Client := mkClient (cl_tip c) r (cl_sync c) (cl_pending c) (cl_out c).
Definition set_sync (c : Client) (y : SyncState) : Client := mkClient (cl_tip c) (cl_rec c) y (cl_pending c) (cl_out c).
Definition emit (c : Client) (o : output) : Client :=
  mkClient (cl_tip c) (cl_rec c) (cl_sync c) (cl_pending c) (cl_out c ++ [o]).

(** [consumeEchoLocked] with the warnings it prints. *)
Definition consumeEcho (env : Env) (c : Client) (msg : WireMessage) (allowStash : bool) : Client :=
  let '(stale, p) := consumeEchoLocked (e_now env) (e_username env) (cl_pending c) msg allowStash in
  mkClient (cl_tip c) (cl_rec c) (cl_sync c) p (cl_out c ++ map (fun i => OFeedback (StaleEcho i)) stale).

(** * The running tip *)

Definition tipBatchSaves : Z := 50.

Definition noteChainTip (env : Env) (t : TipState) (tip : str) (height : Z) : TipState :=
  let since := i64 (t_SinceSave t + 1) in
  if (tipBatchSaves <=? since) && e_saved env then
    mkTipState tip height true (t_Warned t) (t_GapWarned t) 0 (Some (tip_file tip height (e_ServerPub env)))
  else mkTipState tip height true (t_Warned t) (t_GapWarned t) since (t_File t).

Definition flushChainTip (env : Env) (t : TipState) : TipState :=
  if negb (t_HaveTip t) then t
  else if e_saved env then
    mkTipState (t_Tip t) (t_Height t) true (t_Warned t) (t_GapWarned t)
      (if tipBatchSaves <=? t_SinceSave t then 0 else t_SinceSave t)
      (Some (tip_file (t_Tip t) (t_Height t) (e_ServerPub env)))
  else t.

Definition note_and_flush (env : Env) (t : TipState) (tip : str) (height : Z) : TipState :=
  flushChainTip env (noteChainTip env t tip height).

Definition set_warned (t : TipState) : TipState :=
  mkTipState (t_Tip t) (t_Height t) (t_HaveTip t) true (t_GapWarned t) (t_SinceSave t) (t_File t).
Definition set_gap_warned (t : TipState) : TipState :=
  mkTipState (t_Tip t) (t_Height t) (t_HaveTip t) (t_Warned t) true (t_SinceSave t) (t_File t).

Definition warnChainGap (c : Client) (from to : Z) : Client :=
  if t_GapWarned (cl_tip c) then c
  else emit (set_tip c (set_gap_warned (cl_tip c))) (OFeedback (GapLost from to)).

(** * The refill *)

(** The runs of an ascending list of heights. *)
Fixpoint runs_of (cur : option HeightRange) (hs : list Z) : list HeightRange :=
  match hs with
  | [] => match cur with Some r => [r] | None => [] end
  | h :: hs' =>
      match cur with
      | Some r =>
          if u64 (hr_To r + 1) =? h then runs_of (Some (mkRange (hr_From r) h)) hs'
          else r :: runs_of (Some (mkRange h h)) hs'
      | None => runs_of (Some (mkRange h h)) hs'
      end
  end.

Definition missingRuns (missing : gset Z) : list HeightRange :=
  runs_of None (merge_sort Z.le (elements missing)).

(** [for h := from; h <= to; h++], for an upper bound below the largest
    height. *)
Definition heights (from to : Z) : list Z := seqZ from (to - from + 1).

(** [pruneMissing], and how many heights it gave up. *)
Definition pruneMissing (p : recoverWindow) : Z * recoverWindow :=
  fold_left (fun st run =>
    let '(lost, p) := st in
    match rw_Known p !! u64 (hr_From run - 1) with
    | Some _ => (lost, p)
    | None =>
        let hs : gset Z := list_to_set (heights (hr_From run) (hr_To run)) in
        (lost + Z.of_nat (length (heights (hr_From run) (hr_To run))),
         mkWindow (rw_ID p) (rw_Missing p ∖ hs) (rw_Known p) (rw_Live p ∖ hs) (rw_MaxMissing p)
           (rw_Received p) (rw_Attempts p) (rw_Failed p))
    end) (missingRuns (rw_Missing p)) (0, p).

Definition set_pending (r : RecoverState) (p : option recoverWindow) : RecoverState :=
  mkRecover (r_InRecover r) (r_Rendered r) p (r_Gen r) (r_LiveRecovered r) (r_Timers r) (r_NextID r).
Definition set_in (r : RecoverState) (b : bool) : RecoverState :=
  mkRecover b (r_Rendered r) (r_Pending r) (r_Gen r) (r_LiveRecovered r) (r_Timers r) (r_NextID r).
Definition set_rendered (r : RecoverState) (b : bool) : RecoverState :=
  mkRecover (r_InRecover r) b (r_Pending r) (r_Gen r) (r_LiveRecovered r) (r_Timers r) (r_NextID r).
Definition arm (r : RecoverState) (mk : Z -> timer) : RecoverState :=
  let gen := u64 (r_Gen r + 1) in
  mkRecover (r_InRecover r) (r_Rendered r) (r_Pending r) gen (r_LiveRecovered r) (r_Timers r ++ [mk gen]) (r_NextID r).

Definition sendRecoverLocked (env : Env) (c : Client) : bool * Client :=
  match r_Pending (cl_rec c) with
  | None => (false, c)
  | Some p =>
      if negb (e_conn env) then (false, c)
      else
        let p := (pruneMissing p).2 in
        let c := set_rec c (set_pending (cl_rec c) (Some p)) in
        if bool_decide (rw_Missing p = ∅) then (false, c)
        else
          let ranges := missingRuns (rw_Missing p) in
          if negb (e_sent env) then (false, c)
          else
            let p := mkWindow (rw_ID p) (rw_Missing p) (rw_Known p) (rw_Live p) (rw_MaxMissing p)
                       0 (i64 (rw_Attempts p + 1)) false in
            let r := set_pending (set_in (cl_rec c) true) (Some p) in
            (true, emit (set_rec c (arm r (fun gen => SettleTimer gen (rw_ID p))))
                     (OSendRanges ranges (Z.of_nat (size (rw_Missing p)))))
  end.

(** The size of a gap in the client's [int]. *)
Definition gap_size (from to : Z) : Z := i64 (u64 (to - from + 1)).

Definition maybeRequestRecovery (env : Env) (c : Client) (from to anchorHeight : Z) (anchorHash : str)
    : bool * Client :=
  if negb (e_conn env) || (from =? 0) || (to <? from) then (false, c)
  else
    let r := cl_rec c in
    let '(p, next) :=
      match r_Pending r with
      | Some p => (p, r_NextID r)
      | None => (mkWindow (r_NextID r) ∅ ∅ ∅ 0 0 0 false, r_NextID r + 1)
      end in
    let r := mkRecover (r_InRecover r) (r_Rendered r) (Some p) (r_Gen r) (r_LiveRecovered r) (r_Timers r) next in
    if (0 <? e_cap env) && (e_cap env <? i64 (i64 (r_LiveRecovered r + Z.of_nat (size (rw_Live p))) + gap_size from to)) then
      (false, set_rec c (set_pending r (if bool_decide (rw_Missing p = ∅) then None else Some p)))
    else
      let hs : gset Z := list_to_set (heights from to) in
      let p := mkWindow (rw_ID p) (rw_Missing p ∪ hs) (<[anchorHeight := anchorHash]> (rw_Known p)) (rw_Live p ∪ hs)
                 (Z.max (rw_MaxMissing p) to) (rw_Received p) (rw_Attempts p) (rw_Failed p) in
      let c := set_rec c (set_pending r (Some p)) in
      if rw_Attempts p =? 0 then sendRecoverLocked env c else (true, c).

(** [releaseCatchupLocked]: a held catch-up ends; the held greeting lands. *)
Definition releaseCatchup (c : Client) : Client :=
  let y := cl_sync c in
  if y_CatchupHold y then
    emit (set_sync c (mkSync (y_InSync y) (y_InOlder y) (y_Loading y) (y_LoadLoaded y) (y_SyncHeights y) false
                        (u64 (y_HoldGen y + 1)))) OReleaseCatchup
  else c.

Definition abandonRecoveryLocked (c : Client) (id : Z) : Client :=
  match r_Pending (cl_rec c) with
  | Some p =>
      if rw_ID p =? id then
        releaseCatchup (emit (set_rec c (set_in (set_pending (cl_rec c) None) false))
                (ORefillLost (rw_Received p) (rw_Received p + Z.of_nat (size (rw_Missing p)))))
      else c
  | None => c
  end.

Definition finishRecovery (env : Env) (c : Client) : Client :=
  match r_Pending (cl_rec c) with
  | None => set_rec c (set_in (cl_rec c) false)
  | Some p =>
      if bool_decide (rw_Missing p = ∅) && negb (rw_Failed p) then
        let c := set_rec c (set_in (set_pending (cl_rec c) None) false) in
        releaseCatchup (if 0 <? rw_Received p then emit c (ORefilled (rw_Received p)) else c)
      else if rw_Attempts p <=? e_retries env then
        set_rec c (arm (cl_rec c) (fun gen => RetryTimer gen (rw_ID p)))
      else abandonRecoveryLocked c (rw_ID p)
  end.

(** Whether a timer still speaks for the current window. *)
Definition timer_valid (r : RecoverState) (gen id : Z) : bool :=
  (r_Gen r =? gen) && match r_Pending r with Some p => rw_ID p =? id | None => false end.

Definition fire_timer (env : Env) (c : Client) (t : timer) : Client :=
  match t with
  | SettleTimer gen id => if timer_valid (cl_rec c) gen id then finishRecovery env c else c
  | RetryTimer gen id =>
      if timer_valid (cl_rec c) gen id then
        let '(sent, c) := sendRecoverLocked env c in
        if sent then c else abandonRecoveryLocked c id
      else c
  end.

(** * One received link *)

Definition note_sync_height (y : SyncState) (msg : WireMessage) : SyncState :=
  if y_InSync y then
    match ParseHex64 (wm_ChainHash msg) with
    | Some h => mkSync (y_InSync y) (y_InOlder y) (y_Loading y) (y_LoadLoaded y)
                  (<[wm_ChainHeight msg := h]> (y_SyncHeights y)) (y_CatchupHold y) (y_HoldGen y)
    | None => y
    end
  else y.

Definition count_loaded (y : SyncState) : SyncState :=
  if y_Loading y && y_InSync y then
    mkSync (y_InSync y) (y_InOlder y) (y_Loading y) (i64 (y_LoadLoaded y + 1)) (y_SyncHeights y) (y_CatchupHold y) (y_HoldGen y)
  else y.

(** The break path: a forward jump re-anchors, anything else warns once. *)
Definition link_broken (env : Env) (c : Client) (msg : WireMessage) (err : link_error) : Client :=
  let t := cl_tip c in
  let jump :=
    match ParseHex64 (wm_ChainHash msg), err with
    | Some parsed, PrevMismatch =>
        if t_HaveTip t && (u64 (t_Height t + 1) <? wm_ChainHeight msg) then Some parsed else None
    | _, _ => None
    end in
  match jump with
  | Some parsed =>
      let c :=
        if y_InSync (cl_sync c) then c
        else
          let '(pending, c') := maybeRequestRecovery env c (u64 (t_Height t + 1)) (u64 (wm_ChainHeight msg - 1))
                                  (t_Height t) (t_Tip t) in
          if pending then c' else warnChainGap c' (t_Height t) (wm_ChainHeight msg) in
      set_tip c (note_and_flush env (cl_tip c) parsed (wm_ChainHeight msg))
  | None =>
      let c := if t_Warned t then c
               else emit (set_tip c (set_warned t)) (OFeedback (Broken (wm_ChainHeight msg) err)) in
      set_tip c
        (match ParseHex64 (wm_ChainHash msg) with
         | Some parsed => note_and_flush env (cl_tip c) parsed (wm_ChainHeight msg)
         | None => flushChainTip env (cl_tip c)
         end)
  end.

Definition checkChainLink (env : Env) (c : Client) (msg : WireMessage) : Client :=
  match wm_ChainHash msg with
  | [] => c
  | _ =>
      let c := set_sync c (note_sync_height (cl_sync c) msg) in
      let t := cl_tip c in
      if t_HaveTip t && (wm_ChainHeight msg <=? t_Height t) then c
      else
        let c := set_sync c (count_loaded (cl_sync c)) in
        match verifyWireLink msg (t_Tip t) with
        | Ok newTip => set_tip c (noteChainTip env t newTip (wm_ChainHeight msg))
        | Err err =>
            if negb (t_HaveTip t) then
              match ParseHex64 (wm_ChainPrev msg) with
              | None => if t_Warned t then c else emit (set_tip c (set_warned t)) (OFeedback FirstMalformed)
              | Some prev =>
                  match verifyWireLink msg prev with
                  | Ok newTip => set_tip c (noteChainTip env t newTip (wm_ChainHeight msg))
                  | Err err => link_broken env c msg err
                  end
              end
            else link_broken env c msg err
        end
  end.

(** One wire of a refill; anything newer than every missing height is live
    traffic and closes the window. *)
Definition checkRecoverWire (env : Env) (c : Client) (msg : WireMessage) : Client :=
  match r_Pending (cl_rec c) with
  | None => checkChainLink env (consumeEcho env (set_rec c (set_in (cl_rec c) false)) msg false) msg
  | Some p =>
      if str_eqb (wm_ChainHash msg) [] || (rw_MaxMissing p <? wm_ChainHeight msg) then
        checkChainLink env (consumeEcho env (set_rec c (set_in (cl_rec c) false)) msg false) msg
      else
        let c := set_rec c (set_rendered (cl_rec c) true) in
        let fail := set_rec c (set_pending (cl_rec c)
                      (Some (mkWindow (rw_ID p) (rw_Missing p) (rw_Known p) (rw_Live p) (rw_MaxMissing p)
                               (rw_Received p) (rw_Attempts p) true))) in
        if negb (bool_decide (wm_ChainHeight msg ∈ rw_Missing p)) then c
        else
          match rw_Known p !! u64 (wm_ChainHeight msg - 1) with
          | None => fail
          | Some prev =>
              match verifyWireLink msg prev with
              | Err _ => fail
              | Ok h =>
                  let c := emit c (if y_CatchupHold (cl_sync c) then ORenderInPlace msg else ORender msg) in
                  let live := bool_decide (wm_ChainHeight msg ∈ rw_Live p) in
                  let p := mkWindow (rw_ID p) (rw_Missing p ∖ {[wm_ChainHeight msg]})
                             (<[wm_ChainHeight msg := h]> (rw_Known p)) (rw_Live p ∖ {[wm_ChainHeight msg]})
                             (rw_MaxMissing p) (i64 (rw_Received p + 1)) (rw_Attempts p) (rw_Failed p) in
                  let r := cl_rec c in
                  set_rec c (mkRecover (r_InRecover r) (r_Rendered r) (Some p) (r_Gen r)
                               (if live then i64 (r_LiveRecovered r + 1) else r_LiveRecovered r)
                               (r_Timers r) (r_NextID r))
              end
          end
  end.

(** [verifyReplayWire]: whether a refill already rendered the wire, and the new
    state. *)
Definition verifyReplayWire (env : Env) (c : Client) (msg : WireMessage) (allowStash : bool) : bool * Client :=
  let c := set_rec c (set_rendered (cl_rec c) false) in
  if y_InOlder (cl_sync c) then (false, c)
  else if r_InRecover (cl_rec c) then
    let c := checkRecoverWire env c msg in (r_Rendered (cl_rec c), c)
  else (false, checkChainLink env (consumeEcho env c msg (allowStash && negb (y_InSync (cl_sync c)))) msg).

(** * The fork check *)

Definition forkWarning (hs : HistorySync) (have : bool) (tip : str) (height : Z) (sync : gmap Z str) : option Z :=
  if negb have || (0 <? hs_Dropped hs) then None
  else if (height <? hs_MinHeight hs) || (hs_MaxHeight hs <? height) then None
  else
    match sync !! height with
    | Some got => if str_eqb got tip then None else Some height
    | None => None
    end.
