(* ===== verification/ClientRefill.v ===== *)
(** The refill of missed lines and the saved tip ([client/chainmeta.go]): what a
    refill may draw, that it settles, and that the saved tip survives a restart
    and exposes a rewritten log. *)

From S2P Require Import Prelude Bytes Sha2 Utf8 Wire Json ChainLink Window HistoryScan HistoryStore ChainService.
From S2P Require Import LinkedLog ClientView Outbox ClientChain ClientTrack.
Local Open Scope Z_scope.

(** * A refill draws only lines that continue a hash the client holds *)

Definition links_to (w : WireMessage) (prev x : str) : Prop :=
  ParseHex64 (wm_ChainPrev w) = Some prev /\ ParseHex64 (wm_ChainHash w) = Some x /\ VerifyWire prev w x = true.

Lemma verifyWireLink_Ok w prev x : verifyWireLink w prev = Ok x -> links_to w prev x.
Proof.
  unfold verifyWireLink, VerifyWireContent, links_to. destruct (ParseHex64 (wm_ChainPrev w)) as [p|]; [|done].
  destruct (str_eqb p prev) eqn:E; [|done]. apply str_eqb_eq in E as ->. cbn [negb].
  destruct (ParseHex64 (wm_ChainHash w)) as [y|]; [|done]. destruct (VerifyWire prev w y) eqn:Ev; [|done].
  by intros [= <-].
Qed.

(** A hash the client held as its tip, or one reached from it by verified
    lines. *)
Inductive anchored (P : Z -> str -> Prop) : Z -> str -> Prop :=
| anchor_tip height tip : P height tip -> anchored P height tip
| anchor_line height prev w x : anchored P height prev -> links_to w prev x -> anchored P (height + 1) x.

Definition refilled_of (o : output) : option WireMessage :=
  match o with ORender w | ORenderInPlace w => Some w | _ => None end.

Definition refilled (c : Client) : list WireMessage := omap refilled_of (cl_out c).

Section anchors.
Variable P : Z -> str -> Prop.

Record refill_inv (c : Client) : Prop := {
  ri_tip : t_HaveTip (cl_tip c) = true -> P (t_Height (cl_tip c)) (t_Tip (cl_tip c));
  ri_known : forall p h x, r_Pending (cl_rec c) = Some p -> rw_Known p !! h = Some x -> anchored P h x;
  ri_missing : forall p h, r_Pending (cl_rec c) = Some p -> h ∈ rw_Missing p ->
    t_HaveTip (cl_tip c) = true /\ 0 < h < t_Height (cl_tip c) /\ h ∉ map wm_ChainHeight (refilled c);
  ri_lines : Forall (fun w => t_HaveTip (cl_tip c) = true /\ wm_ChainHeight w < t_Height (cl_tip c) /\
    exists prev x, anchored P (wm_ChainHeight w - 1) prev /\ links_to w prev x) (refilled c);
  ri_once : NoDup (map wm_ChainHeight (refilled c));
  ri_height : t_HaveTip (cl_tip c) = true -> is_u64 (t_Height (cl_tip c))
}.

Lemma refilled_app c l : omap refilled_of (cl_out c ++ l) = refilled c ++ omap refilled_of l.
Proof. unfold refilled. apply omap_app. Qed.

Lemma none_refilled l :
  Forall quiet l -> omap refilled_of l = [].
Proof. induction 1 as [|o l Ho _ IH]; [done|]. by destruct o. Qed.

(** Nothing drawn, the tip alone, the window at most smaller. *)
Lemma inv_refill c c' : refill_op c c' -> refill_inv c -> refill_inv c'.
Proof.
  intros (R1 & R2 & R3 & R4 & l & R5 & R6) [H1 H2 H3 H4 H5 H6].
  assert (refilled c' = refilled c) as E by (unfold refilled at 1; rewrite R5, refilled_app, none_refilled by done; apply app_nil_r).
  split; rewrite ?R1, ?E; try done.
  - intros p' h x Hp Hx. destruct (R4 p' Hp) as (p & Hp' & Ek & _). rewrite Ek in Hx. by eapply H2.
  - intros p' h Hp Hh. destruct (R4 p' Hp) as (p & Hp' & _ & Hs). eapply H3; [exact Hp'|set_solver].
Qed.

(** Outputs other than drawn lines, and the rest of the state. *)
Lemma inv_frame c c' : cl_tip c' = cl_tip c -> r_Pending (cl_rec c') = r_Pending (cl_rec c) -> refilled c' = refilled c ->
  refill_inv c -> refill_inv c'.
Proof. intros E1 E2 E3 [H1 H2 H3 H4 H5 H6]. split; rewrite ?E1, ?E2, ?E3; done. Qed.

(** The tip moves up. *)
Lemma inv_move c c' : r_Pending (cl_rec c') = r_Pending (cl_rec c) -> refilled c' = refilled c ->
  t_HaveTip (cl_tip c') = true -> is_u64 (t_Height (cl_tip c')) -> P (t_Height (cl_tip c')) (t_Tip (cl_tip c')) ->
  (t_HaveTip (cl_tip c) = true -> t_Height (cl_tip c) <= t_Height (cl_tip c')) ->
  refill_inv c -> refill_inv c'.
Proof.
  intros E2 E3 Hh Hu Hp Hle [H1 H2 H3 H4 H5 H6]. split; rewrite ?E2, ?E3; try done.
  - intros p h Hpn Hm. destruct (H3 p h Hpn Hm) as (A & B & C). specialize (Hle A). split_and!; [done|lia..|done].
  - eapply Forall_impl; [exact H4|]. intros w (A & B & C). specialize (Hle A). split_and!; [done|lia|done].
Qed.

Lemma elem_heights h from to : h ∈ heights from to <-> from <= h <= to.
Proof. unfold heights. rewrite elem_of_seqZ. lia. Qed.

(** A gap above the tip is filed, then the tip jumps over it. *)
Lemma inv_gap env c c' next : t_HaveTip (cl_tip c) = true -> t_Height (cl_tip c) + 1 < next -> is_u64 next ->
  let c1 := (maybeRequestRecovery env c (t_Height (cl_tip c) + 1) (next - 1) (t_Height (cl_tip c)) (t_Tip (cl_tip c))).2 in
  r_Pending (cl_rec c') = r_Pending (cl_rec c1) -> refilled c' = refilled c1 ->
  t_HaveTip (cl_tip c') = true -> t_Height (cl_tip c') = next -> P next (t_Tip (cl_tip c')) ->
  refill_inv c -> refill_inv c'.
Proof.
  intros Hh Hlt Hu c1 E2 E3 Hh' Hn Hp [H1 H2 H3 H4 H5 H6].
  destruct (request_frame env c (t_Height (cl_tip c) + 1) (next - 1) (t_Height (cl_tip c)) (t_Tip (cl_tip c)))
    as (R1 & R2 & R3 & R4 & l & R5 & R6). fold c1 in R1, R4, R5.
  assert (refilled c1 = refilled c) as E4 by (unfold refilled at 1; rewrite R5, refilled_app, none_refilled by done; apply app_nil_r).
  rewrite E4 in E3. specialize (H6 Hh). unfold is_u64 in H6. split; rewrite ?E2, ?E3, ?Hn; try done.
  - intros p' h x Hp' Hx. destruct (R4 p' Hp') as (known & missing & Hk & Hkp & _).
    assert (forall h x, known !! h = Some x -> anchored P h x) as Ha.
    { destruct Hk as [[-> _]|(p & Hp0 & -> & _)]; [intros ? ?; by rewrite lookup_empty|]. intros; by eapply H2. }
    destruct Hkp as [Hkp|Hkp]; rewrite Hkp in Hx; [by apply Ha|].
    apply lookup_insert_Some in Hx as [[<- <-]|[_ Hx]]; [|by apply Ha]. apply anchor_tip. by apply H1.
  - intros p' h Hp' Hm. destruct (R4 p' Hp') as (known & missing & Hk & _ & Hs). apply Hs, elem_of_union in Hm as [Hm|Hm].
    + destruct Hk as [[_ ->]|(p & Hp0 & _ & ->)]; [set_solver|]. destruct (H3 p h Hp0 Hm) as (_ & B & C). split_and!; [done|lia..|done].
    + apply elem_of_list_to_set, elem_heights in Hm. split_and!; [done|lia|lia|]. intros Hin.
      apply list_elem_of_fmap in Hin as (w & -> & Hw). rewrite Forall_forall in H4. destruct (H4 w Hw) as (_ & B & _). lia.
  - eapply Forall_impl; [exact H4|]. intros w (A & B & C). split_and!; [done|lia|done].
Qed.

Definition tip_in (c : Client) : Prop := t_HaveTip (cl_tip c) = true -> P (t_Height (cl_tip c)) (t_Tip (cl_tip c)).

Lemma inv_check env c w : is_u64 (wm_ChainHeight w) -> refill_inv c -> tip_in (checkChainLink env c w) ->
  refill_inv (checkChainLink env c w).
Proof.
  intros Hu Hi. unfold checkChainLink. destruct (wm_ChainHash w) as [|b bs] eqn:Eh; [done|]. clear Eh.
  set (c1 := set_sync c _). assert (refill_inv c1) as Hi1 by (by apply (inv_frame c)). clearbody c1. clear Hi c.
  destruct (t_HaveTip (cl_tip c1) && (wm_ChainHeight w <=? t_Height (cl_tip c1))) eqn:Edup; [done|].
  set (c2 := set_sync c1 _). assert (cl_tip c2 = cl_tip c1) as Et by done. rewrite <- Et in *.
  assert (refill_inv c2) as Hi2 by (by apply (inv_frame c1)). clearbody c2. clear Et Hi1 c1.
  assert (t_HaveTip (cl_tip c2) = true -> t_Height (cl_tip c2) < wm_ChainHeight w) as Hlt.
  { intros E. rewrite E in Edup. cbn in Edup. lia. }
  assert (forall x, tip_in (set_tip c2 (noteChainTip env (cl_tip c2) x (wm_ChainHeight w))) ->
                    refill_inv (set_tip c2 (noteChainTip env (cl_tip c2) x (wm_ChainHeight w)))) as Hnote.
  { intros x Ht. destruct (note_fields env (cl_tip c2) x (wm_ChainHeight w)) as (F1 & F2 & F3 & F4).
    apply (inv_move c2); try done; cbn [set_tip cl_tip] in *; rewrite ?F1, ?F2, ?F3 in *; try done.
    - unfold tip_in in Ht. cbn [set_tip cl_tip] in Ht. rewrite F1, F2, F3 in Ht. by apply Ht.
    - intros E. specialize (Hlt E). lia. }
  assert (forall err, tip_in (link_broken env c2 w err) -> refill_inv (link_broken env c2 w err)) as Hbroken.
  { intros err. unfold link_broken. set (jump := match ParseHex64 (wm_ChainHash w) with Some _ => _ | None => _ end).
    assert (forall parsed, jump = Some parsed -> t_HaveTip (cl_tip c2) = true /\ u64 (t_Height (cl_tip c2) + 1) < wm_ChainHeight w) as Hj.
    { unfold jump. intros parsed. destruct (ParseHex64 _) as [y|]; [|done]. destruct err; try done.
      destruct (t_HaveTip _); [|done]. cbn [andb]. destruct (_ <? _) eqn:El; [|done]. intros _. split; [done|lia]. }
    destruct jump as [parsed|].
    - destruct (Hj parsed eq_refl) as [Hh Hgap]. cbv zeta. pose proof (ri_height _ Hi2 Hh) as Hth. specialize (Hlt Hh).
      rewrite u64_small in Hgap by (unfold is_u64 in *; lia).
      set (c3 := if y_InSync (cl_sync c2) then c2 else _). intros Ht.
      destruct (note_flush_fields env (cl_tip c3) parsed (wm_ChainHeight w)) as (F1 & F2 & F3 & F4).
      unfold tip_in in Ht. cbn [set_tip cl_tip] in Ht. rewrite F1, F2, F3 in Ht. specialize (Ht eq_refl).
      unfold c3 in *. clear c3. destruct (y_InSync (cl_sync c2)).
      + apply (inv_move c2); cbn [set_tip cl_tip]; rewrite ?F1, ?F2, ?F3; try done. intros _. lia.
      + rewrite !u64_small in * by (unfold is_u64 in *; lia).
        eapply (inv_gap env c2 _ (wm_ChainHeight w)); try done; cbn [set_tip cl_tip]; rewrite ?F1, ?F2, ?F3; try done.
        * destruct (maybeRequestRecovery _ _ _ _ _ _) as [[] c4]; [done|]. unfold warnChainGap. by destruct (t_GapWarned _).
        * destruct (maybeRequestRecovery _ _ _ _ _ _) as [[] c4]; [done|]. cbn [snd]. unfold warnChainGap.
          destruct (t_GapWarned _); [done|]. unfold refilled. cbn [emit set_tip cl_out]. rewrite omap_app. cbn. by rewrite app_nil_r.
    - set (c3 := if t_Warned (cl_tip c2) then c2 else _).
      assert (r_Pending (cl_rec c3) = r_Pending (cl_rec c2) /\ refilled c3 = refilled c2 /\
              t_HaveTip (cl_tip c3) = t_HaveTip (cl_tip c2) /\ t_Height (cl_tip c3) = t_Height (cl_tip c2) /\
              t_Tip (cl_tip c3) = t_Tip (cl_tip c2)) as (G1 & G2 & G3 & G4 & G5).
      { unfold c3. destruct (t_Warned _); [done|]. split_and!; try done. unfold refilled. cbn [emit set_tip cl_out].
        rewrite omap_app. cbn. by rewrite app_nil_r. }
      clearbody c3. destruct (ParseHex64 _) as [y|]; intros Ht.
      + destruct (note_flush_fields env (cl_tip c3) y (wm_ChainHeight w)) as (F1 & F2 & F3 & F4).
        unfold tip_in in Ht. cbn [set_tip cl_tip] in Ht. rewrite F1, F2, F3 in Ht.
        apply (inv_move c2); cbn [set_tip cl_tip]; rewrite ?F1, ?F2, ?F3; try done; [by apply Ht|].
        intros E. specialize (Hlt E). lia.
      + destruct (flush_fields env (cl_tip c3)) as (F1 & F2 & F3 & F4). destruct Hi2 as [H1 H2 H3 H4 H5 H6].
        split; cbn [set_tip cl_tip cl_rec]; rewrite ?F1, ?F2, ?F3, ?G1, ?G3, ?G4, ?G5; try done;
          change (refilled (set_tip c3 (flushChainTip env (cl_tip c3)))) with (refilled c3); by rewrite G2. }
  destruct (verifyWireLink w (t_Tip (cl_tip c2))) as [x|err]; [apply Hnote|].
  destruct (negb (t_HaveTip (cl_tip c2))); [|apply Hbroken].
  destruct (ParseHex64 (wm_ChainPrev w)) as [prev|].
  - destruct (verifyWireLink w prev) as [x|err']; [apply Hnote|apply Hbroken].
  - intros _. destruct (t_Warned (cl_tip c2)); [done|]. destruct Hi2 as [H1 H2 H3 H4 H5 H6].
    assert (refilled (emit (set_tip c2 (set_warned (cl_tip c2))) (OFeedback FirstMalformed)) = refilled c2) as E.
    { unfold refilled. cbn [emit set_tip cl_out]. rewrite omap_app. cbn. by rewrite app_nil_r. }
    split; rewrite ?E; done.
Qed.

Lemma inv_consume env c w allow : refill_inv c -> refill_inv (consumeEcho env c w allow).
Proof.
  intros Hi. destruct (consumeEcho_frame env c w allow) as (E1 & E2 & E3 & l & E4).
  apply (inv_frame c); [done|by rewrite E2| |done]. unfold refilled at 1. rewrite E4, refilled_app.
  assert (omap refilled_of (map (fun i => OFeedback (StaleEcho i)) l) = []) as -> by (clear; induction l as [|i l IH]; [done|exact IH]). apply app_nil_r.
Qed.

Lemma inv_recover env c w : is_u64 (wm_ChainHeight w) -> refill_inv c -> tip_in (checkRecoverWire env c w) ->
  refill_inv (checkRecoverWire env c w).
Proof.
  intros Hu Hi. unfold checkRecoverWire.
  assert (forall x, tip_in (checkChainLink env (consumeEcho env (set_rec c x) w false) w) -> r_Pending x = r_Pending (cl_rec c) ->
    refill_inv (checkChainLink env (consumeEcho env (set_rec c x) w false) w)) as Hlive.
  { intros x Ht Hx. apply inv_check; [done| |done]. apply inv_consume. by apply (inv_frame c). }
  destruct (r_Pending (cl_rec c)) as [p|] eqn:Ep; [|intros Ht; by apply Hlive].
  destruct (_ || _); [intros Ht; by apply Hlive|]. clear Hlive. cbv zeta.
  set (c1 := set_rec c (set_rendered (cl_rec c) true)). intros _.
  assert (refill_inv c1) as Hi1 by (by apply (inv_frame c)).
  assert (r_Pending (cl_rec c1) = Some p) as Ep1 by exact Ep. clearbody c1. clear Hi Ep c.
  assert (forall p', rw_Known p' = rw_Known p -> rw_Missing p' = rw_Missing p ->
    refill_inv (set_rec c1 (set_pending (cl_rec c1) (Some p')))) as Hfail.
  { intros p' E1 E2. eapply inv_refill; [|exact Hi1]. apply refill_refl. intros q [= <-]. exists p. by rewrite E1, E2. }
  case_bool_decide as Hm; cbn [negb]; [|done].
  destruct (ri_missing _ Hi1 p _ Ep1 Hm) as (Hh & Hlt & Hnew). pose proof (ri_height _ Hi1 Hh) as Hth.
  destruct (rw_Known p !! u64 (wm_ChainHeight w - 1)) as [prev|] eqn:Ek; [|by apply Hfail].
  rewrite u64_small in Ek by (unfold is_u64 in *; lia).
  pose proof (ri_known _ Hi1 p _ _ Ep1 Ek) as Ha.
  destruct (verifyWireLink w prev) as [x|err] eqn:Ev; [|by apply Hfail]. apply verifyWireLink_Ok in Ev.
  match goal with |- refill_inv (set_rec ?d ?r) => set (r2 := r); set (c2 := d) end.
  assert (cl_tip c2 = cl_tip c1 /\ refilled c2 = refilled c1 ++ [w]) as [Et Er].
  { unfold c2. destruct (y_CatchupHold _); (split; [done|]); unfold refilled; cbn [emit cl_out]; by rewrite omap_app. }
  assert (r_Pending r2 = Some (mkWindow (rw_ID p) (rw_Missing p ∖ {[wm_ChainHeight w]})
            (<[wm_ChainHeight w := x]> (rw_Known p)) (rw_Live p ∖ {[wm_ChainHeight w]})
            (rw_MaxMissing p) (i64 (rw_Received p + 1)) (rw_Attempts p) (rw_Failed p))) as Ep2 by done.
  clearbody c2 r2. destruct Hi1 as [H1 H2 H3 H4 H5 H6].
  assert (refilled (set_rec c2 r2) = refilled c1 ++ [w]) as Er' by exact Er.
  split; rewrite ?Er', ?map_app; cbn [set_rec cl_tip cl_rec]; rewrite ?Et; try done.
  - intros q h y Hq Hy. rewrite Ep2 in Hq. injection Hq as <-. cbn [rw_Known] in Hy.
    apply lookup_insert_Some in Hy as [[<- <-]|[_ Hy]]; [|by eapply H2].
    replace (wm_ChainHeight w) with (wm_ChainHeight w - 1 + 1) by lia. by eapply anchor_line.
  - intros q h Hq Hhm. rewrite Ep2 in Hq. injection Hq as <-. cbn [rw_Missing] in Hhm.
    apply elem_of_difference in Hhm as [Hhm Hne]. destruct (H3 p h Ep1 Hhm) as (A & B & C). split_and!; [done|lia..|].
    rewrite elem_of_app. intros [Hin|Hin]; [done|]. apply list_elem_of_singleton in Hin. set_solver.
  - apply Forall_app. split; [done|]. constructor; [|done]. split; [done|]. split; [lia|]. by exists prev, x.
  - apply NoDup_app. split; [done|]. split; [|apply NoDup_singleton]. by intros h Hin ->%list_elem_of_singleton.
Qed.

Lemma inv_step c ev : wires_ok (fun w => is_u64 (wm_ChainHeight w)) ev -> refill_inv c -> tip_in (chain_step c ev) ->
  refill_inv (chain_step c ev).
Proof.
  intros Hu Hi. destruct ev as [env w allow|env t|env|env|y]; cbn [chain_step wires_ok] in *.
  - unfold verifyReplayWire. cbv zeta. set (c1 := set_rec c _). assert (refill_inv c1) as Hi1 by (by apply (inv_frame c)).
    clearbody c1. destruct (y_InOlder _); [done|]. destruct (r_InRecover _); cbn [snd].
    + by apply inv_recover.
    + apply inv_check; [done|]. by apply inv_consume.
  - intros _. eapply inv_refill; [apply fire_op|done].
  - intros _. eapply inv_refill; [apply finish_op|]. by apply (inv_frame c).
  - intros _. destruct (flush_fields env (cl_tip c)) as (F1 & F2 & F3 & F4). destruct Hi as [H1 H2 H3 H4 H5 H6].
    split; cbn [set_tip cl_tip cl_rec]; rewrite ?F1, ?F2, ?F3; done.
  - intros _. by apply (inv_frame c).
Qed.
End anchors.

(** The tips a run passes through. *)
Definition held (c : Client) (evs : list chain_event) (height : Z) (tip : str) : Prop :=
  exists n, t_HaveTip (cl_tip (chain_run c (take n evs))) = true /\
    t_Height (cl_tip (chain_run c (take n evs))) = height /\ t_Tip (cl_tip (chain_run c (take n evs))) = tip.

(** C32. A refill shows nothing the client cannot verify: whatever the server
    sends, every line drawn by a refill hashes to its own link and continues,
    through refilled lines that were verified the same way, a hash the client
    held as its tip at an earlier height; and no height is refilled twice. *)
Theorem refill_is_anchored c evs :
  t_HaveTip (cl_tip c) = false -> r_Pending (cl_rec c) = None -> cl_out c = [] ->
  Forall (wires_ok (fun w => is_u64 (wm_ChainHeight w))) evs ->
  let lines := refilled (chain_run c evs) in
  NoDup (map wm_ChainHeight lines) /\
  Forall (fun w => exists prev x, anchored (held c evs) (wm_ChainHeight w - 1) prev /\ links_to w prev x) lines.
Proof.
  intros Hh Hp Ho Hok.
  assert (forall n, refill_inv (held c evs) (chain_run c (take n evs))) as H.
  { induction n as [|n IH].
    - change (refill_inv (held c evs) c). split; unfold refilled; rewrite ?Hh, ?Ho; try done.
      + intros p h x. by rewrite Hp.
      + intros p h. by rewrite Hp.
      + apply NoDup_nil_2.
    - destruct (evs !! n) as [ev|] eqn:E.
      + rewrite (take_S_r _ _ _ E). unfold chain_run in *. rewrite fold_left_app. cbn [fold_left]. fold (chain_run c (take n evs)) in *.
        apply inv_step; [|done|].
        * rewrite Forall_forall in Hok. apply Hok. by eapply list_elem_of_lookup_2.
        * intros Ht. exists (S n). rewrite (take_S_r _ _ _ E). unfold chain_run. rewrite fold_left_app. done.
      + apply lookup_ge_None in E. rewrite take_ge by lia. by rewrite take_ge in IH by lia. }
  specialize (H (length evs)). rewrite take_ge in H by done. destruct H as [_ _ _ H4 H5 _]. split; [done|].
  eapply Forall_impl; [exact H4|]. by intros w (_ & _ & H).
Qed.

(** * A refill settles *)

(** The newest armed timer fires. *)
Definition fire_last (env : Env) (c : Client) : Client :=
  match last (r_Timers (cl_rec c)) with Some t => fire_timer env c t | None => c end.

Definition settled (c : Client) : Prop := r_Pending (cl_rec c) = None /\ r_InRecover (cl_rec c) = false.

(** The timer that speaks for the window, and how many firings are left. *)
Inductive waiting (R : Z) (c : Client) : nat -> Prop :=
| waiting_settle p n : r_Pending (cl_rec c) = Some p -> 0 <= rw_Attempts p <= R + 1 -> Z.of_nat n = 2 * (R + 1 - rw_Attempts p) ->
    last (r_Timers (cl_rec c)) = Some (SettleTimer (r_Gen (cl_rec c)) (rw_ID p)) -> waiting R c n
| waiting_retry p n : r_Pending (cl_rec c) = Some p -> 0 <= rw_Attempts p <= R -> Z.of_nat n = 2 * (R + 1 - rw_Attempts p) - 1 ->
    last (r_Timers (cl_rec c)) = Some (RetryTimer (r_Gen (cl_rec c)) (rw_ID p)) -> waiting R c n.

Lemma release_settled c : settled c -> settled (releaseCatchup c).
Proof. unfold releaseCatchup. by destruct (y_CatchupHold _). Qed.

Lemma abandon_settled c p : r_Pending (cl_rec c) = Some p -> settled (abandonRecoveryLocked c (rw_ID p)).
Proof. intros Hp. unfold abandonRecoveryLocked. rewrite Hp, Z.eqb_refl. by apply release_settled. Qed.

Lemma valid_self c p : r_Pending (cl_rec c) = Some p -> timer_valid (cl_rec c) (r_Gen (cl_rec c)) (rw_ID p) = true.
Proof. intros Hp. unfold timer_valid. by rewrite Hp, !Z.eqb_refl. Qed.

Lemma arm_last r mk : last (r_Timers (arm r mk)) = Some (mk (r_Gen (arm r mk))).
Proof. unfold arm. cbn. by rewrite last_snoc. Qed.

Lemma fire_progress R env c n : 0 <= R < 2 ^ 62 -> e_retries env = R -> waiting R c n ->
  settled (fire_last env c) \/ exists m, (m < n)%nat /\ waiting R (fire_last env c) m.
Proof.
  intros HR He Hw. destruct Hw as [p n Hp Ha Hn Hl|p n Hp Ha Hn Hl]; unfold fire_last; rewrite Hl; cbn [fire_timer];
    rewrite (valid_self c p Hp).
  - unfold finishRecovery. rewrite Hp. destruct (_ && _).
    { left. apply release_settled. by destruct (0 <? _). }
    rewrite He. destruct (rw_Attempts p <=? R) eqn:E.
    + right. exists (Z.to_nat (2 * (R + 1 - rw_Attempts p) - 1)). split; [lia|].
      eapply (waiting_retry R _ p); [exact Hp|lia|lia|]. exact (arm_last _ (fun gen => RetryTimer gen _)).
    + left. by apply abandon_settled.
  - unfold sendRecoverLocked. rewrite Hp. destruct (e_conn env); cbn [negb]; [|left; by apply abandon_settled].
    destruct (prune_frame p) as (_ & Hid & Hat & _). cbv zeta.
    case_bool_decide; [left; rewrite <- Hid; by apply abandon_settled|].
    destruct (e_sent env); cbn [negb]; [|left; rewrite <- Hid; by apply abandon_settled].
    right. assert (i64 (rw_Attempts (pruneMissing p).2 + 1) = rw_Attempts p + 1) as Hi
      by (rewrite Hat; apply i64_small; unfold is_i64; lia).
    exists (Z.to_nat (2 * (R - rw_Attempts p))). split; [lia|].
    eapply waiting_settle; [done| | |exact (arm_last _ (fun gen => SettleTimer gen _))].
    + cbn [rw_Attempts]. rewrite Hi. lia.
    + cbn [rw_Attempts]. rewrite Hi. lia.
Qed.

(** Once settled, its old timers do nothing. *)
Lemma settled_stays env c : settled c -> settled (fire_last env c).
Proof.
  intros [H1 H2]. unfold fire_last. destruct (last _) as [[gen id|gen id]|]; [| |done];
    cbn [fire_timer]; unfold timer_valid; rewrite H1, andb_false_r; done.
Qed.

Lemma refill_settles_from R envs : 0 <= R < 2 ^ 62 -> Forall (fun env => e_retries env = R) envs ->
  forall c n, waiting R c n \/ settled c -> (n < length envs)%nat -> settled (fold_left (fun c env => fire_last env c) envs c).
Proof.
  intros HR Hall. assert (forall envs c, settled c -> settled (fold_left (fun c env => fire_last env c) envs c)) as Hdone.
  { clear. induction envs as [|env envs IH]; intros c Hs; [done|]. cbn. apply IH. by apply settled_stays. }
  induction Hall as [|env envs He _ IH]; intros c n [Hw|Hs] Hlen; try (by apply Hdone); cbn in Hlen; [lia|].
  cbn [fold_left]. destruct (fire_progress R env c n HR He Hw) as [Hs|(m & Hm & Hw')]; [by apply Hdone|].
  apply (IH _ m); [by left|lia].
Qed.

(** A refill always settles: after a request went out, if the server says
    nothing more, the timers alone retry it at most [retries] times and then
    close the window and release the display, whatever the socket answers to
    the retries. *)
Theorem refill_settles R env c envs :
  0 <= R < 2 ^ 62 -> (forall p, r_Pending (cl_rec c) = Some p -> 0 <= rw_Attempts p <= R) ->
  (sendRecoverLocked env c).1 = true ->
  Forall (fun env => e_retries env = R) envs -> 2 * (R + 1) < Z.of_nat (length envs) ->
  settled (fold_left (fun c env => fire_last env c) envs (sendRecoverLocked env c).2).
Proof.
  intros HR Hp Hs Hall Hlen. unfold sendRecoverLocked in *. destruct (r_Pending (cl_rec c)) as [p|]; [|done].
  specialize (Hp p eq_refl). destruct (e_conn env); cbn [negb] in *; [|done]. destruct (prune_frame p) as (_ & Hid & Hat & _).
  cbv zeta in *. case_bool_decide; [done|]. destruct (e_sent env); cbn [negb fst snd] in *; [|done].
  assert (i64 (rw_Attempts (pruneMissing p).2 + 1) = rw_Attempts p + 1) as Hi
    by (rewrite Hat; apply i64_small; unfold is_i64; lia).
  apply (refill_settles_from R envs HR Hall _ (Z.to_nat (2 * (R - rw_Attempts p)))); [left|lia].
  eapply waiting_settle; [done| | |exact (arm_last _ (fun gen => SettleTimer gen _))]; cbn [rw_Attempts]; rewrite Hi; lia.
Qed.

(** * The saved tip *)

(** The saved tip survives a restart: what [saveChainTip] writes,
    [loadChainTip] reads back, for every hash, height and server key. *)
Theorem saved_tip_loads tip height pub :
  length tip = 32%nat -> is_u64 height -> ValidString pub = true ->
  loadChainTip (Some (tip_file tip height pub)) = Some (tip, height, pub).
Proof.
  intros Ht Hh Hp. unfold loadChainTip, tip_file.
  pose proof (hex_valid tip) as Hv.
  rewrite (parse_fields _ 0); [| |by vm_compute|].
  - unfold dobj, tip_record_fields. cbn [ctr_Tip ctr_Height ctr_ServerPub].
    rewrite !fold_left_app.
    erewrite (fold_field (fun x => mkTipRecord x 0 []) "tip" _ dstr []); [|apply fstr_ok|intros; reflexivity].
    erewrite (fold_field (fun x => mkTipRecord (hex_encode tip) x []) "height" _ (duint 64) 0); [|by apply fuint_ok|intros; reflexivity].
    erewrite (fold_field (fun x => mkTipRecord (hex_encode tip) height x) "server_pub" _ dstr []); [|apply fstr_ok|intros; reflexivity].
    cbn [ctr_Tip ctr_Height ctr_ServerPub]. by rewrite ParseHex64_encode.
  - unfold tip_record_fields. cbn [ctr_Tip ctr_Height ctr_ServerPub]. solve_printable.
  - unfold tip_record_fields, depth_le. solve_depth.
Qed.

(** ** The fork check *)

(** The trailer a finished load checks against. *)
Definition loadTrailer : HistorySync := mkHistorySync 0 (2 ^ 64 - 1) 0 0 0 [] 0 0 0 false.

(** The hashes a load collects. *)
Definition collect (y : SyncState) (ms : list WireMessage) : SyncState := fold_left note_sync_height ms y.

Lemma note_sync_in y w x : y_InSync y = true -> ParseHex64 (wm_ChainHash w) = Some x ->
  y_InSync (note_sync_height y w) = true /\ y_SyncHeights (note_sync_height y w) = <[wm_ChainHeight w := x]> (y_SyncHeights y).
Proof. intros H1 H2. unfold note_sync_height. by rewrite H1, H2. Qed.

Lemma collect_lookup ms : forall t h y n, y_InSync y = true -> linked_log t h ms ->
  y_SyncHeights (collect y ms) !! (h + Z.of_nat n) =
  if bool_decide (0 < n <= length ms)%nat then Some (end_tip t (take n ms)) else y_SyncHeights y !! (h + Z.of_nat n).
Proof.
  induction ms as [|w ms IH]; intros t h y n Hy Hl.
  - rewrite bool_decide_false by (cbn; lia). done.
  - cbn [linked_log] in Hl. destruct Hl as (x & _ & Hh & Hx & _ & Hl).
    destruct (note_sync_in y w x Hy Hx) as [Hy' Hs]. unfold collect. cbn [fold_left]. fold (collect (note_sync_height y w) ms).
    destruct n as [|n].
    + specialize (IH x (h + 1) (note_sync_height y w)). rewrite bool_decide_false by lia.
      assert (forall ms y, y_InSync y = true -> forall t' h', linked_log t' h' ms -> forall k, k <= h' ->
        y_SyncHeights (collect y ms) !! k = y_SyncHeights y !! k) as Hlow.
      { clear. induction ms as [|w ms IH]; intros y Hy t' h' Hl k Hk; [done|]. cbn [linked_log] in Hl.
        destruct Hl as (x & _ & Hh & Hx & _ & Hl). destruct (note_sync_in y w x Hy Hx) as [Hy' Hs].
        unfold collect. cbn [fold_left]. fold (collect (note_sync_height y w) ms). rewrite (IH _ Hy' _ _ Hl k) by lia.
        rewrite Hs. apply lookup_insert_ne. lia. }
      rewrite (Hlow ms _ Hy' _ _ Hl) by lia. rewrite Hs. apply lookup_insert_ne. lia.
    + replace (h + Z.of_nat (S n)) with (h + 1 + Z.of_nat n) by lia. rewrite (IH x (h + 1) _ n Hy' Hl).
      cbn [length take end_tip]. rewrite Hx. cbn [from_option id]. destruct n as [|n].
      * rewrite bool_decide_false, bool_decide_true by lia. cbn [take end_tip]. rewrite Hs.
        rewrite Hh, Z.add_0_r. by rewrite lookup_insert_eq.
      * case_bool_decide as Hb; [by rewrite bool_decide_true by lia|]. rewrite bool_decide_false by lia.
        rewrite Hs. apply lookup_insert_ne. lia.
Qed.

(** The last lines of a linked log are a linked log. *)
Lemma lastn_linked t h ws k : linked_log t h ws ->
  exists t' h', linked_log t' h' (lastn k ws) /\ end_tip t' (lastn k ws) = end_tip t ws.
Proof.
  intros H. unfold lastn. set (i := (length ws - k)%nat). rewrite <- (take_drop i ws) in H.
  apply linked_log_app in H as [_ H]. eexists _, _. split; [exact H|]. by rewrite <- end_tip_app, take_drop.
Qed.

(** A rewritten log is noticed at the next start: when the saved tip ends
    the log the client verified before, and a load replays any linked log over
    that height, the fork check is silent exactly when the replayed log has the
    saved hash there; and then the last lines of the two logs up to that height
    have the same content, or a SHA-256 collision is exhibited. *)
Theorem fork_check_exact t h ms y t' h' old :
  linked_log t h ms -> y_InSync y = true -> linked_log t' h' old -> Forall current ms -> Forall current old ->
  let height := h' + Z.of_nat (length old) in
  let n := Z.to_nat (height - h) in
  h < height <= h + Z.of_nat (length ms) -> 0 <= height < 2 ^ 64 ->
  let silent := forkWarning loadTrailer true (end_tip t' old) height (y_SyncHeights (collect y ms)) = None in
  (silent <-> end_tip t (take n ms) = end_tip t' old) /\
  (silent -> forall k, (k <= n)%nat -> (k <= length old)%nat ->
     Forall2 same_content (lastn k (take n ms)) (lastn k old) \/ exists x y, collides x y).
Proof.
  intros Hl Hy Hl' Hc Hc' height n Hr Hu silent.
  assert (y_SyncHeights (collect y ms) !! height = Some (end_tip t (take n ms))) as Hn.
  { pose proof (collect_lookup ms t h y n Hy Hl) as Hlk. replace (h + Z.of_nat n) with height in Hlk by lia.
    rewrite bool_decide_true in Hlk by lia. exact Hlk. }
  assert (silent <-> end_tip t (take n ms) = end_tip t' old) as Hs.
  { unfold silent, forkWarning, loadTrailer. cbn [hs_Dropped hs_MinHeight hs_MaxHeight]. change (negb true || (0 <? 0)) with false.
    replace ((height <? 0) || (2 ^ 64 - 1 <? height)) with false by lia. rewrite Hn, <- str_eqb_eq.
    by destruct (str_eqb _ _). }
  split; [exact Hs|]. intros Hsil k Hk1 Hk2. apply Hs in Hsil.
  assert (linked_log t h (take n ms)) as Hlt.
  { rewrite <- (take_drop n ms) in Hl. by apply linked_log_app in Hl as [Hl _]. }
  destruct (lastn_linked _ _ _ k Hlt) as (t1 & h1 & A1 & A2), (lastn_linked _ _ _ k Hl') as (t2 & h2 & B1 & B2).
  eapply linked_agree; [exact A1|exact B1| | | |congruence].
  - rewrite !length_lastn, length_take. lia.
  - unfold lastn. by apply Forall_drop, Forall_take.
  - unfold lastn. by apply Forall_drop.
Qed.

(** ** Concrete runs *)

Definition four_ops : list log_op :=
  [OpLink (lit "t1") sample_chat; OpLink (lit "t2") sample_chat; OpLink (lit "t3") sample_chat; OpLink (lit "t4") sample_chat].
Definition four_wires : list WireMessage := Eval vm_compute in
  chained_wires (log_run (U := sample_unicode) 1000 (lit "pub") (boot (U := sample_unicode) (lit "pub") None) four_ops).1.

(** The first line, the third (a gap), then the refilled second. *)
Definition gap_events : list chain_event := map (fun w => EWire toy_env w true) (omap (fun i => four_wires !! i) [0; 2; 1]%nat).

Example gap_refilled : map wm_ChainHeight (refilled (chain_run toy_client gap_events)) = [2].
Proof. vm_compute. reflexivity. Qed.

Lemma refill_is_anchored_witness : NoDup (map wm_ChainHeight (refilled (chain_run toy_client gap_events))).
Proof.
  apply (refill_is_anchored toy_client gap_events eq_refl eq_refl eq_refl).
  unfold gap_events, four_wires. cbn [omap list_omap lookup list_lookup map].
  repeat apply Forall_cons_2; try apply Forall_nil_2; unfold wires_ok, is_u64; cbn; lia.
Defined.

Definition toy_window : Client :=
  set_rec toy_client (mkRecover false false (Some (mkWindow 0 {[5; 6]} {[4 := []]} {[5; 6]} 6 0 0 false)) 0 0 [] 1).

Lemma refill_settles_witness :
  settled (fold_left (fun c env => fire_last env c) (repeat toy_env 7) (sendRecoverLocked toy_env toy_window).2).
Proof.
  apply (refill_settles 2 toy_env toy_window).
  - lia.
  - intros p [= <-]. cbn. lia.
  - vm_compute. reflexivity.
  - apply Forall_forall. intros env He. apply list_elem_of_In, repeat_spec in He. by subst.
  - rewrite repeat_length. lia.
Defined.

Lemma saved_tip_loads_witness :
  loadChainTip (Some (tip_file toy_genesis 7 (lit "ab"))) = Some (toy_genesis, 7, lit "ab").
Proof. apply saved_tip_loads; [reflexivity|unfold is_u64; lia|reflexivity]. Defined.

Lemma four_current : Forall current four_wires.
Proof.
  unfold four_wires. repeat apply Forall_cons_2; try apply Forall_nil_2; unfold current, linkable, fits, is_u64;
    repeat split; vm_compute; congruence.
Qed.

Lemma four_linked : linked_log toy_genesis 0 four_wires.
Proof.
  cbn [linked_log four_wires]. do 4 (eexists; split_and!; [vm_compute; reflexivity..|]). exact I.
Qed.

Definition in_sync : SyncState := mkSync true false true 0 ∅ true 0.

Lemma fork_check_exact_witness :
  forkWarning loadTrailer true (end_tip toy_genesis (take 2 four_wires)) 2 (y_SyncHeights (collect in_sync four_wires)) = None.
Proof.
  assert (linked_log toy_genesis 0 (take 2 four_wires)) as Hold.
  { pose proof four_linked as H. rewrite <- (take_drop 2 four_wires) in H. by apply linked_log_app in H as [H _]. }
  apply (fork_check_exact toy_genesis 0 four_wires in_sync toy_genesis 0 (take 2 four_wires) four_linked eq_refl Hold
    four_current).
  - apply Forall_take. exact four_current.
  - cbn. lia.
  - cbn. lia.
  - reflexivity.
Defined.

(** ** Limits of the checks *)

Definition forged (height : Z) : WireMessage :=
  mkWire (lit "chat") (lit "15:04") (lit "An") [] 0 [] 0 0 0 [] [] [] (lit "forged") None 1 0
    (hex_encode (repeat nul 32)) (hex_encode (repeat nul 32)) height 2 0 [].

(** A line past the next height whose hash is not the hash of its content is
    taken as the new tip, with a loss report and no accusation. *)
Example jump_is_not_verified :
  let c := (verifyReplayWire toy_env toy_tracked (forged 9) true).2 in
  VerifyWireContent (forged 9) = Err HashMismatch /\
  t_Tip (cl_tip c) = repeat nul 32 /\ t_Height (cl_tip c) = 9 /\ t_Warned (cl_tip c) = false.
Proof. vm_compute. done. Qed.

(** A line at or below the tip is not verified at all, and the caller draws
    it. *)
Lemma below_tip_is_drawn env c msg allow :
  t_HaveTip (cl_tip c) = true -> wm_ChainHeight msg <= t_Height (cl_tip c) ->
  y_InOlder (cl_sync c) = false -> r_InRecover (cl_rec c) = false ->
  (verifyReplayWire env c msg allow).1 = false /\ t_Warned (cl_tip (verifyReplayWire env c msg allow).2) = t_Warned (cl_tip c).
Proof.
  intros Hh Hle Ho Hr. unfold verifyReplayWire. cbn [set_rec cl_sync cl_rec set_rendered r_InRecover]. rewrite Ho, Hr. split; [done|].
  cbn [snd]. destruct (consumeEcho_frame env (set_rec c (set_rendered (cl_rec c) false)) msg (allow && negb (y_InSync (cl_sync c))))
    as (E1 & _ & _ & _). set (c1 := consumeEcho _ _ _ _) in *. unfold checkChainLink. destruct (wm_ChainHash msg); [by rewrite E1|].
  cbn [set_sync cl_tip]. rewrite E1. cbn [set_rec cl_tip]. rewrite Hh. replace (wm_ChainHeight msg <=? _) with true by lia.
  cbn [andb]. cbn. by rewrite E1.
Qed.

(** The size of a gap that spans half the height range is negative, so the cap
    on automatic refills lets it through. *)
Lemma gap_size_wraps from to : from + 2 ^ 63 <= to + 1 < from + 2 ^ 64 -> gap_size from to < 0.
Proof.
  intros H. unfold gap_size, u64, i64. rewrite (Z.mod_small (to - from + 1)) by lia.
  rewrite <- (Z_mod_plus_full _ (-1) (2 ^ 64)), Z.mod_small; lia.
Qed.
