(* ===== verification/ClientPump.v ===== *)
(** The client's receive loop ([client/pump.go], with [isOlderHistoryWire],
    [isLoadHistoryWire] of [client/chainmeta.go], [requestOlder] of
    [client/dispatch.go] and the vote fold of [client/vote.go]): how a received
    line is held, verified, drawn or dropped, the client-driven load, the paging
    above it, and the trailers that settle them.  Frames are given decoded;
    what a line looks like on screen is left to the renderer, so a drawn line is
    the output [ODraw]. *)

From S2P Require Import Prelude Bytes Sha2 Utf8 Wire Json ChainLink Window HistoryScan HistoryStore ChainService Votes Trip TripChains.
From S2P Require Import LinkedLog ClientView Outbox ClientChain ClientTrack ClientRefill.
Local Open Scope Z_scope.

(** * State *)

(** [heldLine]. *)
Inductive heldLine :=
| HeldWire (msg : WireMessage)
| HeldRaw (line : str).

Record LoadState := mkLoad {
  ld_StartSeq : Z;
  ld_MaxSeq : Z;
  ld_Target : Z;
  ld_Retried : Z;
  ld_Hold : list heldLine
}.

Record OlderState := mkOlder { ol_HeightBound : Z; ol_SeqBound : Z; ol_Exhausted : bool }.

Record BannerState := mkBanner { bn_Last : str; bn_Pending : option WireMessage }.

Record Pump := mkPump {
  pu_client : Client;
  pu_load : LoadState;
  pu_older : OlderState;
  pu_banner : BannerState;
  pu_votes : gmap Z VoteScore;
  pu_showJoin : bool;
  pu_saved : option (str * Z)     (* PersistedTip and PersistedHeight *)
}.

(** The settings a call reads. *)
Record Settings := mkSettings {
  st_env : Env;
  st_initialLines : Z;     (* HistoryInitialLines, 500 without a config *)
  st_batchLines : Z;       (* HistoryBatchLines, 100 without a config *)
  st_indexCap : Z          (* the cap of the wire index *)
}.

Definition set_client (p : Pump) (c : Client) : Pump :=
  mkPump c (pu_load p) (pu_older p) (pu_banner p) (pu_votes p) (pu_showJoin p) (pu_saved p).
Definition set_load (p : Pump) (l : LoadState) : Pump :=
  mkPump (pu_client p) l (pu_older p) (pu_banner p) (pu_votes p) (pu_showJoin p) (pu_saved p).
Definition set_older (p : Pump) (o : OlderState) : Pump :=
  mkPump (pu_client p) (pu_load p) o (pu_banner p) (pu_votes p) (pu_showJoin p) (pu_saved p).
Definition set_banner (p : Pump) (b : BannerState) : Pump :=
  mkPump (pu_client p) (pu_load p) (pu_older p) b (pu_votes p) (pu_showJoin p) (pu_saved p).
Definition set_votes (p : Pump) (v : gmap Z VoteScore) : Pump :=
  mkPump (pu_client p) (pu_load p) (pu_older p) (pu_banner p) v (pu_showJoin p) (pu_saved p).

Definition out (p : Pump) (o : output) : Pump := set_client p (emit (pu_client p) o).

Definition sync (p : Pump) : SyncState := cl_sync (pu_client p).
Definition set_flags (p : Pump) (inSync inOlder loading : bool) : Pump :=
  let y := sync p in
  set_client p (set_sync (pu_client p)
    (mkSync inSync inOlder loading (y_LoadLoaded y) (y_SyncHeights y) (y_CatchupHold y) (y_HoldGen y))).
Definition set_inOlder (p : Pump) (b : bool) : Pump := set_flags p (y_InSync (sync p)) b (y_Loading (sync p)).

(** [renderChatBlock] at the place the paging flag says. *)
Definition draw (p : Pump) (msg : WireMessage) : Pump := out p (ODraw msg (y_InOlder (sync p))).

(** The wires drawn so far, oldest first: what the index was fed. *)
Definition drawn_of (o : output) : option WireMessage :=
  match o with ORender w | ORenderInPlace w | ODraw w _ => Some w | _ => None end.
Definition drawn (p : Pump) : list WireMessage := omap drawn_of (cl_out (pu_client p)).
Definition wireIdx (cfg : Settings) (p : Pump) : wireIndex :=
  fold_left wireIndex_put (drawn p) (newWireIndex (st_indexCap cfg)).

(** [initChainState]: the server's key, and the saved tip if it is this
    server's. *)
Definition initChainState `{Unicode} (pubKey : str) (file : option str) : str * option (str * Z) :=
  let pub := ToLower (TrimSpace pubKey) in
  (pub, match loadChainTip file with
        | Some (tip, height, server) => if EqualFold server pub then Some (tip, height) else None
        | None => None
        end).

(** * Classification *)

Definition isOlderHistoryWire (p : Pump) (msg : WireMessage) : bool :=
  let o := pu_older p in
  if (ol_HeightBound o =? 0) && (ol_SeqBound o =? 0) then true
  else if 0 <? wm_ChainHeight msg then wm_ChainHeight msg <? ol_HeightBound o
  else if wm_Seq msg =? 0 then false
  else wm_Seq msg <? ol_SeqBound o.

Definition isLoadHistoryWire (p : Pump) (msg : WireMessage) : bool :=
  if 0 <? wm_Seq msg then (ld_StartSeq (pu_load p) <=? wm_Seq msg) && (wm_Seq msg <=? ld_MaxSeq (pu_load p))
  else 0 <? wm_ChainHeight msg.

Definition is_type (t : string) (msg : WireMessage) : bool := str_eqb (wm_Type msg) (lit t).

Definition isVoteWire (msg : WireMessage) : bool :=
  is_type "system" msg && (0 <? wm_VoteTarget msg) && HasTag (wm_Tags msg) TagVote.

Definition parseHistoryBoundary (tags : list str) : bool * bool :=
  if negb (HasTag tags TagHistory) then (false, false)
  else (true, negb (HasAnyTag tags [TagHistoryEnd; TagHistoryExhausted])).

(** * Banners and votes *)

Definition showDateBanner (b : BannerState) (day : str) : bool * BannerState :=
  match day with
  | [] => (true, b)
  | _ => if str_eqb day (bn_Last b) then (false, b) else (true, mkBanner day (bn_Pending b))
  end.

Definition flushDateBanner (p : Pump) : Pump :=
  match bn_Pending (pu_banner p) with
  | None => p
  | Some msg =>
      let '(show, b) := showDateBanner (mkBanner (bn_Last (pu_banner p)) None) (wm_SysDate msg) in
      let p := set_banner p b in
      if show then
        if y_InOlder (sync p) && negb (isOlderHistoryWire p msg)
        then set_inOlder (draw (set_inOlder p false) msg) true
        else draw p msg
      else p
  end.

Definition drop_banner (p : Pump) : Pump := set_banner p (mkBanner (bn_Last (pu_banner p)) None).
Definition stage_banner (p : Pump) (msg : WireMessage) : Pump := set_banner p (mkBanner (bn_Last (pu_banner p)) (Some msg)).

Definition applyVoteLocked (p : Pump) (msg : WireMessage) : bool * Pump :=
  if negb (isVoteWire msg) then (false, p)
  else
    (true, set_votes p
      (if (wm_VoteUpvotes msg =? 0) && (wm_VoteDownvotes msg =? 0) then delete (wm_VoteTarget msg) (pu_votes p)
       else <[wm_VoteTarget msg := mkScore (wm_VoteUpvotes msg) (wm_VoteDownvotes msg)]> (pu_votes p))).

Definition score (v : VoteScore) : Z := vs_Upvotes v - vs_Downvotes v.

(** * One line *)

Definition verify (cfg : Settings) (p : Pump) (msg : WireMessage) (allowStash : bool) : bool * Pump :=
  let '(r, c) := verifyReplayWire (st_env cfg) (pu_client p) msg allowStash in (r, set_client p c).

Definition hidden_notice (p : Pump) (msg : WireMessage) : bool :=
  negb (pu_showJoin p) && HasAnyTag (wm_Tags msg) [TagJoin; TagLeave].

(** A verified line on its way to the screen: a date banner is staged, a muted
    notice dropped, anything else drawn after the staged banner. *)
Definition show_line (p : Pump) (msg : WireMessage) (liveOlder : bool) : Pump :=
  if is_type "system" msg && negb (pu_showJoin p) && HasTag (wm_Tags msg) TagDate && negb liveOlder then stage_banner p msg
  else if is_type "system" msg && hidden_notice p msg then p
  else draw (if liveOlder then p else flushDateBanner p) msg.

(** A chat or system line outside a whole-frame marker. *)
Definition on_wire (cfg : Settings) (p : Pump) (msg : WireMessage) : Pump :=
  if y_Loading (sync p) && y_InSync (sync p) && negb (isLoadHistoryWire p msg) then
    let l := pu_load p in
    set_load p (mkLoad (ld_StartSeq l) (ld_MaxSeq l) (ld_Target l) (ld_Retried l) (ld_Hold l ++ [HeldWire msg]))
  else
    let wasOlder := y_InOlder (sync p) in
    let liveOlder := wasOlder && negb (isOlderHistoryWire p msg) in
    let p := if liveOlder then set_inOlder (flushDateBanner p) false else p in
    let '(rendered, p) := verify cfg p msg (is_type "chat" msg) in
    let p := if rendered then p else show_line p msg liveOlder in
    set_inOlder p wasOlder.

(** * The load *)

(** The held lines, in arrival order. *)
Definition release_held (cfg : Settings) (p : Pump) (h : heldLine) : Pump :=
  match h with
  | HeldRaw line => out p (ORaw line)
  | HeldWire msg =>
      if isVoteWire msg then (applyVoteLocked p msg).2
      else if is_type "chat" msg then
        let '(rendered, p) := verify cfg p msg true in
        if rendered then p else draw (flushDateBanner p) msg
      else if negb (is_type "system" msg) then p
      else
        let '(rendered, p) := verify cfg p msg false in
        if rendered then p
        else if negb (pu_showJoin p) && HasTag (wm_Tags msg) TagDate then stage_banner p msg
        else if hidden_notice p msg then p
        else draw (flushDateBanner p) msg
  end.

Definition finishLoad (cfg : Settings) (p : Pump) : Pump :=
  let loaded := y_LoadLoaded (sync p) in
  let p := set_flags p false (y_InOlder (sync p)) false in
  let p :=
    match ld_Hold (pu_load p) with
    | [] => p
    | hold =>
        let wasOlder := y_InOlder (sync p) in
        let p := fold_left (release_held cfg) hold (set_inOlder p false) in
        let p := set_inOlder p wasOlder in
        let l := pu_load p in
        set_load p (mkLoad (ld_StartSeq l) (ld_MaxSeq l) (ld_Target l) (ld_Retried l) [])
    end in
  let p := out p (OStatus loaded) in
  let p := set_client p (releaseCatchup (pu_client p)) in
  let p :=
    match forkWarning loadTrailer (bool_decide (is_Some (pu_saved p)))
            (match pu_saved p with Some (tip, _) => tip | None => [] end)
            (match pu_saved p with Some (_, height) => height | None => 0 end) (y_SyncHeights (sync p)) with
    | Some height => let p := out p (OForkWarning height) in set_client p (set_tip (pu_client p) (flushChainTip (st_env cfg) (cl_tip (pu_client p))))
    | None => p
    end in
  let y := sync p in
  set_client p (set_sync (pu_client p) (mkSync (y_InSync y) (y_InOlder y) (y_Loading y) (y_LoadLoaded y) ∅ (y_CatchupHold y) (y_HoldGen y))).

Definition sendLoadPage (cfg : Settings) (p : Pump) (cursor : Z) : Pump :=
  if negb (e_conn (st_env cfg)) then finishLoad cfg p
  else if e_sent (st_env cfg) then out p (OLoadPage cursor (st_batchLines cfg))
  else finishLoad cfg p.

Definition handleHistoryInfo (cfg : Settings) (p : Pump) (info : HistoryInfo) : Pump :=
  if y_Loading (sync p) then p
  else
    let target := st_initialLines cfg in
    let after := if u64 target <=? hi_MaxSeq info then u64 (hi_MaxSeq info - u64 target) else 0 in
    let y := mkSync true (y_InOlder (sync p)) true 0 ∅ true (u64 (y_HoldGen (sync p) + 1)) in
    let p := set_client p (set_sync (pu_client p) y) in
    let p := set_load p (mkLoad (u64 (after + 1)) (hi_MaxSeq info) target 0 []) in
    sendLoadPage cfg p after.

(** The catch-up timer of a load. *)
Definition hold_expired (cfg : Settings) (p : Pump) (gen : Z) : Pump :=
  if (y_HoldGen (sync p) =? gen) && y_Loading (sync p) then finishLoad cfg p else p.

Definition set_retried (l : LoadState) (n : Z) : LoadState :=
  mkLoad (ld_StartSeq l) (ld_MaxSeq l) (ld_Target l) n (ld_Hold l).

Definition onLoadPage (cfg : Settings) (p : Pump) (hs : HistorySync) : Pump :=
  let l := pu_load p in
  if (0 <? hs_Dropped hs) && (ld_Retried l <? e_retries (st_env cfg)) then
    sendLoadPage cfg (set_load p (set_retried l (i64 (ld_Retried l + 1))))
      (if 0 <? hs_FirstSeq hs then u64 (hs_FirstSeq hs - 1) else 0)
  else
    let p := set_load p (set_retried l 0) in
    if hs_More hs && (y_LoadLoaded (sync p) <? ld_Target l) && (hs_NextSeq hs <? ld_MaxSeq l)
    then sendLoadPage cfg p (hs_NextSeq hs)
    else finishLoad cfg p.

(** * Paging above the load *)

Definition requestOlder (cfg : Settings) (p : Pump) (limit : Z) : bool * Pump :=
  match oldest (wireIdx cfg p) with
  | None => (false, p)
  | Some before =>
      let p := set_older (set_inOlder p true) (mkOlder before (minSeq (wireIdx cfg p)) (ol_Exhausted (pu_older p))) in
      if e_sent (st_env cfg) then (true, out p (OOlderPage before limit))
      else (true, set_older (set_inOlder p false) (mkOlder 0 0 (ol_Exhausted (pu_older p))))
  end.

Definition olderAvailable (cfg : Settings) (p : Pump) : bool :=
  match oldest (wireIdx cfg p) with
  | Some h => (1 <? h) && negb (y_InOlder (sync p)) && negb (ol_Exhausted (pu_older p))
  | None => false
  end.

(** * Trailers and markers *)

Definition finish_recovery (cfg : Settings) (p : Pump) : Pump :=
  set_client p (finishRecovery (st_env cfg) (pu_client p)).

Definition handleHistorySync (cfg : Settings) (p : Pump) (hs : HistorySync) : Pump :=
  if y_Loading (sync p) && str_eqb (hs_Direction hs) (lit "after") then onLoadPage cfg p hs
  else if y_InOlder (sync p) then
    let p := set_older (set_inOlder p false) (mkOlder 0 0 (ol_Exhausted (pu_older p))) in
    let p := drop_banner (flushDateBanner p) in
    let p := if hs_Total hs =? 0 then set_older p (mkOlder 0 0 true) else out p (OStatus (hs_Sent hs)) in
    match r_Pending (cl_rec (pu_client p)) with Some _ => finish_recovery cfg p | None => p end
  else if r_InRecover (cl_rec (pu_client p)) || bool_decide (is_Some (r_Pending (cl_rec (pu_client p)))) ||
          str_eqb (hs_Direction hs) (lit "recover") then
    finish_recovery cfg (set_client p (set_rec (pu_client p) (set_in (cl_rec (pu_client p)) false)))
  else p.

Definition trackReplayWindow (p : Pump) (tags : list str) (start : bool) : Pump :=
  if start then
    if HasTag tags TagHistoryOlder then set_inOlder p true
    else if HasTag tags TagHistoryRecover then set_client p (set_rec (pu_client p) (set_in (cl_rec (pu_client p)) true))
    else set_flags p true (y_InOlder (sync p)) (y_Loading (sync p))
  else
    let p := flushDateBanner p in
    let p := if HasTag tags TagHistoryOlder && HasTag tags TagHistoryExhausted
             then set_older p (mkOlder (ol_HeightBound (pu_older p)) (ol_SeqBound (pu_older p)) true) else p in
    let p := set_client p (set_rec (pu_client p) (set_in (cl_rec (pu_client p)) false)) in
    set_flags (drop_banner p) false false (y_Loading (sync p)).

Definition handleReplayMarker (cfg : Settings) (p : Pump) (msg : WireMessage) : Pump :=
  let '(boundary, start) := parseHistoryBoundary (wm_Tags msg) in
  if negb boundary then p
  else
    let p := trackReplayWindow p (wm_Tags msg) start in
    if negb start && HasTag (wm_Tags msg) TagHistoryRecover then finish_recovery cfg p else p.

(** * Frames *)

(** A received line, decoded: whole frames and the lines of a batch take the
    same branches, except that a whole chat frame is not looked at as a
    marker. *)
Inductive incoming :=
| InChatFrame (msg : WireMessage)
| InWire (msg : WireMessage)       (* a system frame, or a line of a batch *)
| InSync (hs : HistorySync)
| InInfo (info : HistoryInfo)
| InRaw (line : str).

Definition pump_step (cfg : Settings) (p : Pump) (i : incoming) : Pump :=
  match i with
  | InChatFrame msg => on_wire cfg p msg
  | InWire msg =>
      if HasTag (wm_Tags msg) TagHistory then handleReplayMarker cfg p msg
      else if isVoteWire msg then (applyVoteLocked p msg).2
      else on_wire cfg p msg
  | InSync hs => handleHistorySync cfg p hs
  | InInfo info => handleHistoryInfo cfg p info
  | InRaw line =>
      let p := if negb (pu_showJoin p) then flushDateBanner p else p in
      if y_Loading (sync p) && y_InSync (sync p) then
        let l := pu_load p in
        set_load p (mkLoad (ld_StartSeq l) (ld_MaxSeq l) (ld_Target l) (ld_Retried l) (ld_Hold l ++ [HeldRaw line]))
      else out p (ORaw line)
  end.

(** What drives a session: received lines, the timers of a refill and of the
    load, the user paging up, and the flush at the end. *)
Inductive pump_event :=
| PIn (i : incoming)
| PTimer (t : timer)
| PHold (gen : Z)
| POlder (limit : Z)
| PFlush.

Definition session_step (p : Pump) (ev : Settings * pump_event) : Pump :=
  let '(cfg, ev) := ev in
  match ev with
  | PIn i => pump_step cfg p i
  | PTimer t => set_client p (fire_timer (st_env cfg) (pu_client p) t)
  | PHold gen => hold_expired cfg p gen
  | POlder limit => (requestOlder cfg p limit).2
  | PFlush => set_client p (set_tip (pu_client p) (flushChainTip (st_env cfg) (cl_tip (pu_client p))))
  end.

Definition session_run (p : Pump) (evs : list (Settings * pump_event)) : Pump := fold_left session_step evs p.

(** * Theorems *)

(** ** The loop never accuses an honest server *)

Section honest_pump.
Variables (t0 : str) (h0 : Z) (ws : list WireMessage).
Hypothesis Hlink : linked_log t0 h0 ws.
Hypothesis Hbound : 0 <= h0 /\ h0 + Z.of_nat (length ws) < 2 ^ 64.

Definition logged (msg : WireMessage) : Prop := msg ∈ ws \/ wm_ChainHash msg = [].

Definition held_logged (h : heldLine) : Prop := match h with HeldWire msg => logged msg | HeldRaw _ => True end.

Record pump_inv (p : Pump) : Prop := {
  pi_client : honest_inv t0 h0 ws (pu_client p);
  pi_heights : map_Forall (on_log t0 h0 ws) (y_SyncHeights (sync p));
  pi_hold : Forall held_logged (ld_Hold (pu_load p));
  pi_saved : forall tip height, pu_saved p = Some (tip, height) -> on_log t0 h0 ws height tip
}.

Lemma inv_client p c : honest_inv t0 h0 ws c -> map_Forall (on_log t0 h0 ws) (y_SyncHeights (cl_sync c)) ->
  pump_inv p -> pump_inv (set_client p c).
Proof. intros H1 H2 [_ _ H3 H4]. by split. Qed.

Lemma inv_out p o : benign o -> pump_inv p -> pump_inv (out p o).
Proof.
  intros Ho Hp. apply inv_client; [|apply Hp|done]. destruct (pi_client _ Hp) as (H1 & H2 & H3 & H4).
  split_and!; try done. apply Forall_app. split; [done|by constructor].
Qed.

Lemma inv_flags p a b c : pump_inv p -> pump_inv (set_flags p a b c).
Proof. intros Hp. apply inv_client; [apply Hp|apply Hp|done]. Qed.

Lemma inv_older p o : pump_inv p -> pump_inv (set_older p o).
Proof. intros [H1 H2 H3 H4]. split; [exact H1|exact H2|exact H3|exact H4]. Qed.

Lemma inv_banner p b : pump_inv p -> pump_inv (set_banner p b).
Proof. intros [H1 H2 H3 H4]. split; [exact H1|exact H2|exact H3|exact H4]. Qed.

Lemma inv_votes p v : pump_inv p -> pump_inv (set_votes p v).
Proof. intros [H1 H2 H3 H4]. split; [exact H1|exact H2|exact H3|exact H4]. Qed.

Lemma inv_retried p n : pump_inv p -> pump_inv (set_load p (set_retried (pu_load p) n)).
Proof. intros [H1 H2 H3 H4]. split; [exact H1|exact H2|exact H3|exact H4]. Qed.

Lemma inv_draw p msg : pump_inv p -> pump_inv (draw p msg).
Proof. by apply inv_out. Qed.

Lemma inv_flush p : pump_inv p -> pump_inv (flushDateBanner p).
Proof.
  intros Hp. unfold flushDateBanner. destruct (bn_Pending _) as [msg|]; [|done].
  destruct (showDateBanner _ _) as [show b]. assert (pump_inv (set_banner p b)) as Hb by (by apply inv_banner).
  destruct show; [|done]. destruct (_ && _); [|by apply inv_draw]. by apply inv_flags, inv_draw, inv_flags.
Qed.

Lemma inv_show p msg lo : pump_inv p -> pump_inv (show_line p msg lo).
Proof.
  intros Hp. unfold show_line. destruct (_ && negb lo); [by apply inv_banner|]. destruct (_ && _); [done|].
  apply inv_draw. destruct lo; [done|by apply inv_flush].
Qed.

(** The hashes a line adds to the load's map. *)
Lemma check_heights env c msg :
  y_SyncHeights (cl_sync (checkChainLink env c msg)) = y_SyncHeights (cl_sync c) \/
  exists x, ParseHex64 (wm_ChainHash msg) = Some x /\
    y_SyncHeights (cl_sync (checkChainLink env c msg)) = <[wm_ChainHeight msg := x]> (y_SyncHeights (cl_sync c)).
Proof.
  unfold checkChainLink. destruct (wm_ChainHash msg) as [|b bs] eqn:Eh; [by left|]. rewrite <- Eh.
  set (c1 := set_sync c _).
  assert (y_SyncHeights (cl_sync c1) = y_SyncHeights (cl_sync c) \/ exists x, ParseHex64 (wm_ChainHash msg) = Some x /\
    y_SyncHeights (cl_sync c1) = <[wm_ChainHeight msg := x]> (y_SyncHeights (cl_sync c))) as H1.
  { unfold c1, note_sync_height. cbn [set_sync cl_sync]. destruct (y_InSync _); [|by left].
    destruct (ParseHex64 _) as [x|] eqn:Ex; [right; by exists x|by left]. }
  destruct (_ && _); [exact H1|]. set (c2 := set_sync c1 _).
  assert (y_SyncHeights (cl_sync c2) = y_SyncHeights (cl_sync c1)) as E2
    by (unfold c2, count_loaded; cbn [set_sync cl_sync]; by destruct (_ && _)).
  assert (forall c', y_SyncHeights (cl_sync c') = y_SyncHeights (cl_sync c2) ->
    y_SyncHeights (cl_sync c') = y_SyncHeights (cl_sync c) \/ exists x, ParseHex64 (wm_ChainHash msg) = Some x /\
      y_SyncHeights (cl_sync c') = <[wm_ChainHeight msg := x]> (y_SyncHeights (cl_sync c))) as Hend.
  { intros c' E. rewrite E, E2. exact H1. }
  assert (forall err, y_SyncHeights (cl_sync (link_broken env c2 msg err)) = y_SyncHeights (cl_sync c2)) as Hb.
  { intros err. unfold link_broken. destruct (match ParseHex64 _ with Some _ => _ | None => _ end) as [parsed|].
    - cbv zeta. cbn [set_tip cl_sync]. destruct (y_InSync (cl_sync c2)); [done|].
      match goal with |- context [maybeRequestRecovery ?e ?cc ?a ?b ?d ?f] =>
        destruct (request_frame e cc a b d f) as (_ & G & _); destruct (maybeRequestRecovery e cc a b d f) as [[] c4] end;
        cbn [snd] in G; [apply G|]. unfold warnChainGap. destruct (t_GapWarned _); apply G.
    - cbn [set_tip cl_sync]. by destruct (t_Warned _). }
  destruct (verifyWireLink _ _) as [x|err]; [by apply Hend|]. destruct (negb _); [|by apply Hend, Hb].
  destruct (ParseHex64 (wm_ChainPrev msg)) as [prev|]; [|apply Hend; by destruct (t_Warned _)].
  destruct (verifyWireLink _ _); [by apply Hend|by apply Hend, Hb].
Qed.

(** Every received line adds at most its own hash. *)
Lemma verify_heights env c msg allow :
  y_SyncHeights (cl_sync (verifyReplayWire env c msg allow).2) = y_SyncHeights (cl_sync c) \/
  exists x, ParseHex64 (wm_ChainHash msg) = Some x /\
    y_SyncHeights (cl_sync (verifyReplayWire env c msg allow).2) = <[wm_ChainHeight msg := x]> (y_SyncHeights (cl_sync c)).
Proof.
  assert (forall c1 al, y_SyncHeights (cl_sync c1) = y_SyncHeights (cl_sync c) ->
    y_SyncHeights (cl_sync (checkChainLink env (consumeEcho env c1 msg al) msg)) = y_SyncHeights (cl_sync c) \/
    exists x, ParseHex64 (wm_ChainHash msg) = Some x /\
      y_SyncHeights (cl_sync (checkChainLink env (consumeEcho env c1 msg al) msg)) = <[wm_ChainHeight msg := x]> (y_SyncHeights (cl_sync c))) as Hc.
  { intros c1 al E. destruct (consumeEcho_frame env c1 msg al) as (_ & _ & E3 & _).
    pose proof (check_heights env (consumeEcho env c1 msg al) msg) as H. by rewrite E3, E in H. }
  unfold verifyReplayWire. cbv zeta. set (c1 := set_rec c _). destruct (y_InOlder _); [by left|].
  destruct (r_InRecover _); cbn [snd]; [|by apply Hc]. unfold checkRecoverWire.
  destruct (r_Pending _) as [p|]; [|by apply Hc]. destruct (_ || _); [by apply Hc|]. cbv zeta.
  destruct (negb _); [by left|]. destruct (rw_Known p !! _); [|by left]. destruct (verifyWireLink _ _); [|by left].
  left. by destruct (y_CatchupHold _).
Qed.

Lemma inv_verify cfg p msg allow : logged msg -> pump_inv p -> pump_inv (verify cfg p msg allow).2.
Proof using Hlink Hbound.
  intros Hm Hp. unfold verify. pose proof (verify_heights (st_env cfg) (pu_client p) msg allow) as Hh.
  pose proof (honest_step t0 h0 ws Hlink Hbound (pu_client p) (EWire (st_env cfg) msg allow) Hm (pi_client _ Hp)) as Hs.
  cbn [chain_step] in Hs. destruct (verifyReplayWire _ _ _ _) as [r c]. cbn [snd] in *. apply inv_client; [done| |done].
  destruct Hh as [->|(x & Hx & ->)]; [apply Hp|]. apply map_Forall_insert_2; [|apply Hp].
  destruct Hm as [Hm|Hm]; [|rewrite Hm in Hx; by vm_compute in Hx].
  destruct (honest_link t0 h0 ws Hlink Hbound msg [] Hm) as (n & q & x' & _ & _ & _ & _ & Hx' & Hon & _). congruence.
Qed.

Lemma inv_wire cfg p msg : logged msg -> pump_inv p -> pump_inv (on_wire cfg p msg).
Proof using Hlink Hbound.
  intros Hm Hp. unfold on_wire. destruct (_ && negb (isLoadHistoryWire p msg)).
  { destruct Hp as [H1 H2 H3 H4]. split; try done. cbn. apply Forall_app. split; [done|by constructor]. }
  cbv zeta. set (lo := _ && negb (isOlderHistoryWire p msg)).
  assert (pump_inv (if lo then set_inOlder (flushDateBanner p) false else p)) as Hp1
    by (destruct lo; [by apply inv_flags, inv_flush|done]).
  pose proof (inv_verify cfg _ msg (is_type "chat" msg) Hm Hp1) as Hv.
  destruct (verify _ _ _ _) as [r p2]. cbn [snd] in Hv. apply inv_flags. destruct r; [done|by apply inv_show].
Qed.

Lemma inv_vote p msg : pump_inv p -> pump_inv (applyVoteLocked p msg).2.
Proof. intros Hp. unfold applyVoteLocked. destruct (negb _); [done|]. by apply inv_votes. Qed.

Lemma inv_held cfg p h : held_logged h -> pump_inv p -> pump_inv (release_held cfg p h).
Proof using Hlink Hbound.
  intros Hh Hp. destruct h as [msg|line]; cbn [release_held held_logged] in *; [|by apply inv_out].
  destruct (isVoteWire msg); [by apply inv_vote|]. destruct (is_type "chat" msg).
  { pose proof (inv_verify cfg p msg true Hh Hp) as Hv. destruct (verify _ _ _ _) as [[] p1]; [done|].
    by apply inv_draw, inv_flush. }
  destruct (negb _); [done|]. pose proof (inv_verify cfg p msg false Hh Hp) as Hv.
  destruct (verify _ _ _ _) as [[] p1]; [done|]. cbn [snd] in Hv. destruct (_ && _); [by apply inv_banner|].
  destruct (hidden_notice _ _); [done|]. by apply inv_draw, inv_flush.
Qed.

Lemma inv_release p c : refill_op (pu_client p) c -> pump_inv p -> pump_inv (set_client p c).
Proof.
  intros H Hp. apply inv_client; [by eapply honest_refill; [|apply Hp]| |done].
  destruct H as (_ & (_ & _ & _ & _ & ->) & _). apply Hp.
Qed.

(** The saved tip of the same log never looks like a fork. *)
Lemma honest_fork p : pump_inv p ->
  forkWarning loadTrailer (bool_decide (is_Some (pu_saved p)))
    (match pu_saved p with Some (tip, _) => tip | None => [] end)
    (match pu_saved p with Some (_, height) => height | None => 0 end) (y_SyncHeights (sync p)) = None.
Proof.
  intros Hp. unfold forkWarning. destruct (pu_saved p) as [[tip height]|] eqn:Es; [|done].
  rewrite bool_decide_true by eauto. destruct (negb true || _); [done|]. destruct (_ || _); [done|].
  destruct (y_SyncHeights (sync p) !! height) as [got|] eqn:Eg; [|done].
  destruct (pi_heights _ Hp _ _ Eg) as (n & _ & E1 & E2), (pi_saved _ Hp _ _ Es) as (m & _ & E3 & E4).
  assert (n = m) as -> by lia. by rewrite E2, E4, str_eqb_refl.
Qed.

Lemma inv_finishLoad cfg p : pump_inv p -> pump_inv (finishLoad cfg p).
Proof using Hlink Hbound.
  intros Hp. unfold finishLoad. cbv zeta. set (p1 := set_flags p false _ false).
  assert (pump_inv p1) as Hp1 by by apply inv_flags.
  set (p2 := match ld_Hold (pu_load p1) with [] => p1 | _ => _ end). assert (pump_inv p2) as Hp2.
  { unfold p2. destruct (ld_Hold (pu_load p1)) as [|h hs] eqn:E; [done|]. rewrite <- E.
    assert (forall l q, Forall held_logged l -> pump_inv q -> pump_inv (fold_left (release_held cfg) l q)) as Hf.
    { induction l as [|x l IH]; intros q Hl Hq; [done|]. apply Forall_cons in Hl as [? ?]. cbn. apply IH; [done|by apply inv_held]. }
    pose proof (Hf (ld_Hold (pu_load p1)) _ (pi_hold _ Hp1) (inv_flags p1 (y_InSync (sync p1)) false (y_Loading (sync p1)) Hp1)) as Hq.
    pose proof (inv_flags _ (y_InSync (sync (fold_left (release_held cfg) (ld_Hold (pu_load p1)) (set_inOlder p1 false))))
                  (y_InOlder (sync p1)) (y_Loading (sync (fold_left (release_held cfg) (ld_Hold (pu_load p1)) (set_inOlder p1 false)))) Hq) as [A B C D].
    split; [exact A|exact B|constructor|exact D]. }
  clearbody p2. pose proof (inv_out p2 (OStatus (y_LoadLoaded (sync p))) I Hp2) as Hp3.
  pose proof (inv_release _ _ (release_op (pu_client (out p2 (OStatus (y_LoadLoaded (sync p)))))) Hp3) as Hp4.
  rewrite (honest_fork _ Hp4). apply inv_client; [apply Hp4|apply map_Forall_empty|exact Hp4].
Qed.

Lemma inv_sendPage cfg p cursor : pump_inv p -> pump_inv (sendLoadPage cfg p cursor).
Proof using Hlink Hbound.
  intros Hp. unfold sendLoadPage. destruct (negb _); [by apply inv_finishLoad|].
  destruct (e_sent _); [by apply inv_out|by apply inv_finishLoad].
Qed.

Lemma inv_sync cfg p hs : pump_inv p -> pump_inv (handleHistorySync cfg p hs).
Proof using Hlink Hbound.
  intros Hp. unfold handleHistorySync. destruct (_ && _).
  { unfold onLoadPage. destruct (_ && _); [by apply inv_sendPage, inv_retried|]. cbv zeta.
    assert (pump_inv (set_load p (set_retried (pu_load p) 0))) as Hp1 by (by apply inv_retried).
    destruct (_ && _); [by apply inv_sendPage|by apply inv_finishLoad]. }
  destruct (y_InOlder _).
  { cbv zeta. set (p1 := set_older (set_inOlder p false) _). assert (pump_inv p1) as Hp1 by (by apply inv_older, inv_flags).
    assert (pump_inv (drop_banner (flushDateBanner p1))) as Hp2 by (by apply inv_banner, inv_flush).
    set (p3 := if hs_Total hs =? 0 then _ else _). assert (pump_inv p3) as Hp3.
    { unfold p3. destruct (_ =? _); [by apply inv_older|by apply inv_out]. }
    destruct (r_Pending _); [|done]. apply inv_release; [apply finish_op|done]. }
  destruct (_ || _); [|done]. unfold finish_recovery. apply inv_release; [apply finish_op|].
  apply inv_client; [apply Hp|apply Hp|done].
Qed.

(** The lines of an input come from the log. *)
Definition logged_in (i : incoming) : Prop :=
  match i with InChatFrame msg | InWire msg => logged msg | _ => True end.

Lemma inv_pump_step cfg p i : logged_in i -> pump_inv p -> pump_inv (pump_step cfg p i).
Proof using Hlink Hbound.
  intros Hi Hp. destruct i as [msg|msg|hs|info|line]; cbn [pump_step logged_in] in *.
  - by apply inv_wire.
  - destruct (HasTag _ _).
    + unfold handleReplayMarker. destruct (parseHistoryBoundary _) as [b start]. destruct (negb b); [done|]. cbv zeta.
      assert (pump_inv (trackReplayWindow p (wm_Tags msg) start)) as Ht.
      { unfold trackReplayWindow. destruct start.
        - destruct (HasTag _ TagHistoryOlder); [by apply inv_flags|]. destruct (HasTag _ TagHistoryRecover); [|by apply inv_flags].
          apply inv_client; [apply Hp|apply Hp|done].
        - cbv zeta. apply inv_flags. pose proof (inv_flush p Hp) as Hf. set (q := if _ && _ then _ else _).
          assert (pump_inv q) as Hq by (unfold q; destruct (_ && _); [by apply inv_older|done]).
          apply inv_banner, inv_client; [exact (pi_client _ Hq)|exact (pi_heights _ Hq)|exact Hq]. }
      destruct (_ && _); [|done]. apply inv_release; [apply finish_op|done].
    + destruct (isVoteWire msg); [by apply inv_vote|by apply inv_wire].
  - by apply inv_sync.
  - unfold handleHistoryInfo. destruct (y_Loading _); [done|]. cbv zeta. apply inv_sendPage.
    destruct Hp as [A B C D]. split; [exact A|apply map_Forall_empty|constructor|exact D].
  - cbv zeta. set (q := if negb _ then _ else _). assert (pump_inv q) as Hq by (unfold q; destruct (negb _); [by apply inv_flush|done]).
    destruct (_ && _); [|by apply inv_out]. destruct Hq as [H1 H2 H3 H4]. split; try done. cbn. apply Forall_app.
    split; [done|by constructor].
Qed.

Definition logged_event (ev : Settings * pump_event) : Prop := match ev.2 with PIn i => logged_in i | _ => True end.

Lemma inv_session_step p ev : logged_event ev -> pump_inv p -> pump_inv (session_step p ev).
Proof using Hlink Hbound.
  intros Hev Hp. destruct ev as [cfg [i|t|gen|limit|]]; cbn [session_step].
  - by apply inv_pump_step.
  - apply inv_release; [apply fire_op|done].
  - unfold hold_expired. destruct (_ && _); [by apply inv_finishLoad|done].
  - unfold requestOlder. destruct (oldest _) as [before|]; [|done]. cbv zeta.
    destruct (e_sent _); cbn [snd]; [apply inv_out; [done|]|]; apply inv_older; [|apply inv_flags, inv_older]; by apply inv_flags.
  - pose proof (honest_step t0 h0 ws Hlink Hbound (pu_client p) (EFlush (st_env cfg)) I (pi_client _ Hp)) as Hs.
    apply inv_client; [exact Hs|exact (pi_heights _ Hp)|exact Hp].
Qed.

Lemma inv_session evs : forall p, Forall logged_event evs -> pump_inv p -> pump_inv (session_run p evs).
Proof using Hlink Hbound.
  induction evs as [|ev evs IH]; intros p Hev Hp; [done|]. apply Forall_cons in Hev as [H1 H2]. cbn [session_run fold_left].
  apply IH; [done|]. by apply inv_session_step.
Qed.
End honest_pump.

(** C23. A client never accuses an honest server: whatever lines of the server's
    log reach its receive loop, in whatever order, repeated, dropped, held during
    the load, refilled or paged, with any trailers, markers, timers and socket
    failures in between, it never reports a broken or malformed link or a fork
    against a tip it saved from this server, and its tip is always a point of
    the server's chain. *)
Theorem session_never_accuses {U : Unicode} maxBytes pub srv ops p evs :
  c_ready srv = true -> length (c_tip srv) = 32%nat -> 0 <= c_height srv -> Forall op_ok ops ->
  c_height srv + Z.of_nat (length ops) < 2 ^ 64 ->
  let log := (log_run maxBytes pub srv ops).1 in
  let point := on_log (c_tip srv) (c_height srv) (chained_wires log) in
  fresh (pu_client p) -> y_SyncHeights (sync p) = ∅ -> ld_Hold (pu_load p) = [] ->
  (forall tip height, pu_saved p = Some (tip, height) -> point height tip) ->
  Forall (fun ev => match ev.2 with PIn (InChatFrame msg) | PIn (InWire msg) => stored_in log msg | _ => True end) evs ->
  let c := pu_client (session_run p evs) in
  t_Warned (cl_tip c) = false /\ Forall benign (cl_out c) /\
  (t_HaveTip (cl_tip c) = true -> point (t_Height (cl_tip c)) (t_Tip (cl_tip c))).
Proof.
  intros Hr Ht Hh Hok Hb log point Hf Hs Hl Hsv Hev.
  pose proof (log_run_linked maxBytes pub ops srv Hr Ht Hh Hok Hb) as Hlk.
  assert (length log = length ops) as Hlen by apply log_run_length. pose proof (chained_wires_length log) as Hle.
  unfold log in *. destruct (log_run maxBytes pub srv ops) as [lg srv']. destruct Hlk as (Hlk & _). cbn [fst] in *.
  destruct (inv_session (c_tip srv) (c_height srv) (chained_wires lg) Hlk ltac:(lia) evs p) as [(H1 & _ & H3 & H4) _ _ _]; [|split|done].
  - eapply Forall_impl; [exact Hev|]. intros [cfg [[msg|msg|hs|info|line]|t|gen|limit|]]; try done; apply stored_logged.
  - by apply fresh_honest.
  - rewrite Hs. apply map_Forall_empty.
  - rewrite Hl. constructor.
  - exact Hsv.
Qed.


(** ** The load finishes *)

(** What the lines of a page leave alone. *)
Definition same_load (p p' : Pump) : Prop :=
  y_Loading (sync p') = y_Loading (sync p) /\ ld_MaxSeq (pu_load p') = ld_MaxSeq (pu_load p) /\
  ld_Target (pu_load p') = ld_Target (pu_load p) /\ ld_Retried (pu_load p') = ld_Retried (pu_load p).

Lemma same_load_refl p : same_load p p.
Proof. done. Qed.

Lemma same_load_trans p1 p2 p3 : same_load p1 p2 -> same_load p2 p3 -> same_load p1 p3.
Proof. unfold same_load. intros (-> & -> & -> & ->) (-> & -> & -> & ->). done. Qed.

Lemma load_client p c : y_Loading (cl_sync c) = y_Loading (sync p) -> same_load p (set_client p c).
Proof. by intros H. Qed.

Lemma load_refill p c : refill_op (pu_client p) c -> same_load p (set_client p c).
Proof. intros (_ & (_ & _ & H & _) & _). by apply load_client. Qed.

Lemma check_loading env c msg : y_Loading (cl_sync (checkChainLink env c msg)) = y_Loading (cl_sync c).
Proof.
  unfold checkChainLink. destruct (wm_ChainHash msg) as [|b bs]; [done|].
  set (c1 := set_sync c _). assert (y_Loading (cl_sync c1) = y_Loading (cl_sync c)) as <-.
  { unfold c1, note_sync_height. cbn. destruct (y_InSync _); [|done]. by destruct (ParseHex64 _). }
  destruct (_ && _); [done|]. set (c2 := set_sync c1 _).
  assert (y_Loading (cl_sync c2) = y_Loading (cl_sync c1)) as <- by (unfold c2, count_loaded; cbn; by destruct (_ && _)).
  assert (forall err, y_Loading (cl_sync (link_broken env c2 msg err)) = y_Loading (cl_sync c2)) as Hb.
  { intros err. unfold link_broken. destruct (match ParseHex64 _ with Some _ => _ | None => _ end) as [parsed|].
    - cbv zeta. cbn [set_tip cl_sync]. destruct (y_InSync (cl_sync c2)); [done|].
      match goal with |- context [maybeRequestRecovery ?e ?cc ?a ?b ?d ?f] =>
        destruct (request_frame e cc a b d f) as (_ & (_ & _ & G & _) & _);
        destruct (maybeRequestRecovery e cc a b d f) as [[] c4] end; [exact G|].
      unfold warnChainGap. by destruct (t_GapWarned _).
    - cbn [set_tip cl_sync]. by destruct (t_Warned _). }
  destruct (verifyWireLink _ _) as [x|err]; [done|]. destruct (negb _); [|by apply Hb].
  destruct (ParseHex64 (wm_ChainPrev msg)) as [prev|]; [|by destruct (t_Warned _)].
  destruct (verifyWireLink _ _); [done|by apply Hb].
Qed.

Lemma verify_loading env c msg allow : y_Loading (cl_sync (verifyReplayWire env c msg allow).2) = y_Loading (cl_sync c).
Proof.
  assert (forall c1 al, cl_sync c1 = cl_sync c ->
    y_Loading (cl_sync (checkChainLink env (consumeEcho env c1 msg al) msg)) = y_Loading (cl_sync c)) as Hc.
  { intros c1 al E. rewrite check_loading. destruct (consumeEcho_frame env c1 msg al) as (_ & _ & -> & _). by rewrite E. }
  unfold verifyReplayWire. cbv zeta. set (c1 := set_rec c _). destruct (y_InOlder _); [done|].
  destruct (r_InRecover _); cbn [snd]; [|by apply Hc]. unfold checkRecoverWire.
  destruct (r_Pending _) as [p|]; [|by apply Hc]. destruct (_ || _); [by apply Hc|]. cbv zeta.
  destruct (negb _); [done|]. destruct (rw_Known p !! _); [|done]. destruct (verifyWireLink _ _); [|done].
  by destruct (y_CatchupHold _).
Qed.

Lemma load_verify cfg p msg allow : same_load p (verify cfg p msg allow).2.
Proof.
  unfold verify. pose proof (verify_loading (st_env cfg) (pu_client p) msg allow) as H.
  destruct (verifyReplayWire _ _ _ _) as [r c]. by apply load_client.
Qed.

Lemma load_flush p : same_load p (flushDateBanner p).
Proof.
  unfold flushDateBanner. destruct (bn_Pending _) as [msg|]; [|done]. destruct (showDateBanner _ _) as [show b].
  destruct show; [|done]. by destruct (_ && _).
Qed.

Lemma load_show p msg lo : same_load p (show_line p msg lo).
Proof.
  unfold show_line. destruct (_ && negb lo); [done|]. destruct (_ && _); [done|]. destruct lo; [done|].
  exact (load_flush p).
Qed.

(** A line of a page. *)
Definition is_line (i : incoming) : Prop := match i with InChatFrame _ | InWire _ | InRaw _ => True | _ => False end.

Lemma load_wire cfg p msg : same_load p (on_wire cfg p msg).
Proof.
  unfold on_wire. destruct (_ && negb (isLoadHistoryWire p msg)); [done|]. cbv zeta.
  set (lo := _ && negb (isOlderHistoryWire p msg)). set (p1 := if lo then _ else p).
  assert (same_load p p1) as H1 by (unfold p1; destruct lo; [exact (load_flush p)|done]).
  pose proof (load_verify cfg p1 msg (is_type "chat" msg)) as Hv. destruct (verify _ _ _ _) as [r p2]. cbn [snd] in Hv.
  eapply same_load_trans; [exact H1|]. eapply same_load_trans; [exact Hv|].
  destruct r; [done|]. exact (load_show p2 msg lo).
Qed.

Lemma load_line cfg p i : is_line i -> same_load p (pump_step cfg p i).
Proof.
  intros Hi. destruct i as [msg|msg|hs|info|line]; try done; cbn [pump_step].
  - apply load_wire.
  - destruct (HasTag _ _).
    + unfold handleReplayMarker. destruct (parseHistoryBoundary _) as [b start]. destruct (negb b); [done|]. cbv zeta.
      assert (same_load p (trackReplayWindow p (wm_Tags msg) start)) as Ht.
      { unfold trackReplayWindow. destruct start.
        - destruct (HasTag _ TagHistoryOlder); [done|]. by destruct (HasTag _ TagHistoryRecover).
        - cbv zeta. pose proof (load_flush p) as Hf. by destruct (_ && _). }
      destruct (_ && _); [|done]. eapply same_load_trans; [exact Ht|]. apply load_refill, finish_op.
    + destruct (isVoteWire msg); [|apply load_wire]. unfold applyVoteLocked. by destruct (negb _).
  - cbv zeta. set (q := if negb _ then _ else _). assert (same_load p q) as Hq by (unfold q; destruct (negb _); [apply load_flush|done]).
    by destruct (_ && _).
Qed.

Lemma load_lines cfg l : forall p, Forall is_line l -> same_load p (fold_left (pump_step cfg) l p).
Proof.
  induction l as [|i l IH]; intros p Hl; [done|]. apply Forall_cons in Hl as [H1 H2]. cbn [fold_left].
  eapply same_load_trans; [by apply load_line|by apply IH].
Qed.

(** The exchange: the lines of a page, then its trailer; the next request is the
    last thing the client sent. *)
Fixpoint load_loop (cfg : Settings) (lines : nat -> list incoming) (answer : nat -> Z -> HistorySync)
    (fuel : nat) (cursor : Z) (p : Pump) : Pump :=
  match fuel with
  | O => p
  | S fuel' =>
      let p := handleHistorySync cfg (fold_left (pump_step cfg) (lines fuel) p) (answer fuel cursor) in
      match last (cl_out (pu_client p)) with
      | Some (OLoadPage next _) => if y_Loading (sync p) then load_loop cfg lines answer fuel' next p else p
      | _ => p
      end
  end.

Lemma finishLoad_done cfg p : y_Loading (sync (finishLoad cfg p)) = false.
Proof.
  unfold finishLoad. cbv zeta. set (p1 := set_flags p false _ false). assert (y_Loading (sync p1) = false) as H1 by done.
  set (p2 := match ld_Hold (pu_load p1) with [] => p1 | _ => _ end). assert (y_Loading (sync p2) = false) as H2.
  { unfold p2. destruct (ld_Hold (pu_load p1)) as [|h hs]; [done|].
    assert (forall l q, y_Loading (sync q) = false -> y_Loading (sync (fold_left (release_held cfg) l q)) = false) as Hf.
    { induction l as [|x l IH]; intros q Hq; [done|]. cbn. apply IH. destruct x as [msg|line]; cbn [release_held]; [|done].
      destruct (isVoteWire msg); [unfold applyVoteLocked; by destruct (negb _)|].
      assert (forall al, y_Loading (sync (verify cfg q msg al).2) = false) as Hv by (intros al; by rewrite (proj1 (load_verify cfg q msg al))).
      destruct (is_type "chat" msg).
      - specialize (Hv true). destruct (verify _ _ _ _) as [[] q1]; [done|]. change (y_Loading (sync (flushDateBanner q1)) = false).
        by rewrite (proj1 (load_flush q1)).
      - destruct (negb _); [done|]. specialize (Hv false). destruct (verify _ _ _ _) as [[] q1]; [done|].
        destruct (_ && _); [done|]. destruct (hidden_notice _ _); [done|]. change (y_Loading (sync (flushDateBanner q1)) = false).
        by rewrite (proj1 (load_flush q1)). }
    exact (Hf (h :: hs) (set_inOlder p1 false) H1). }
  clearbody p2. set (p3 := out p2 (OStatus (y_LoadLoaded (sync p)))). set (p4 := set_client p3 (releaseCatchup (pu_client p3))).
  assert (y_Loading (sync p4) = false) as H4.
  { destruct (load_refill p3 _ (release_op (pu_client p3))) as (E & _). exact (eq_trans E H2). }
  clearbody p4. by destruct (forkWarning _ _ _ _ _).
Qed.

Lemma sendPage_cases cfg p cursor : y_Loading (sync p) = true ->
  y_Loading (sync (sendLoadPage cfg p cursor)) = false \/
  sendLoadPage cfg p cursor = out p (OLoadPage cursor (st_batchLines cfg)).
Proof.
  intros Hl. unfold sendLoadPage. destruct (negb _); [left; apply finishLoad_done|]. destruct (e_sent _); [by right|left; apply finishLoad_done].
Qed.

(** C33. The load always finishes: if every answer either ends it or moves the
    cursor forward, then whatever lines the pages carry, however many of them
    report losses, and whatever the socket does, the client asks for at most
    [(MaxSeq - cursor) * (retries + 1) + retries + 1] pages and then shows what
    it has. *)
Theorem load_finishes cfg lines answer fuel cursor p :
  y_Loading (sync p) = true -> 0 <= ld_Retried (pu_load p) <= e_retries (st_env cfg) -> e_retries (st_env cfg) < 2 ^ 62 ->
  0 <= cursor <= ld_MaxSeq (pu_load p) -> ld_MaxSeq (pu_load p) < 2 ^ 64 ->
  (forall k, Forall is_line (lines k)) ->
  (forall k a, hs_Direction (answer k a) = lit "after" /\
     (hs_More (answer k a) = true -> a < hs_NextSeq (answer k a)) /\
     (0 < hs_Dropped (answer k a) -> a < hs_FirstSeq (answer k a) <= ld_MaxSeq (pu_load p))) ->
  (ld_MaxSeq (pu_load p) - cursor) * (e_retries (st_env cfg) + 1) +
    (e_retries (st_env cfg) - ld_Retried (pu_load p)) < Z.of_nat fuel ->
  y_Loading (sync (load_loop cfg lines answer fuel cursor p)) = false.
Proof.
  set (R := e_retries (st_env cfg)). intros Hl Hr HR Hc Hm Hlines Hans Hf. revert p cursor Hl Hr Hc Hm Hans Hf.
  induction fuel as [|fuel IH]; intros p cursor Hl Hr Hc Hm Hans Hf; [nia|].
  cbn [load_loop]. destruct (load_lines cfg (lines (S fuel)) p (Hlines _)) as (L1 & L2 & L3 & L4).
  set (p0 := fold_left _ (lines (S fuel)) p) in *. destruct (Hans (S fuel) cursor) as (A1 & A2 & A3).
  set (hs := answer (S fuel) cursor) in *. unfold handleHistorySync. rewrite L1, Hl, A1, str_eqb_refl. cbn [andb].
  assert (forall q next, y_Loading (sync q) = true -> ld_MaxSeq (pu_load q) = ld_MaxSeq (pu_load p) ->
    0 <= ld_Retried (pu_load q) <= R -> 0 <= next <= ld_MaxSeq (pu_load p) ->
    (ld_MaxSeq (pu_load p) - next) * (R + 1) + (R - ld_Retried (pu_load q)) < Z.of_nat fuel ->
    y_Loading (sync (match last (cl_out (pu_client (sendLoadPage cfg q next))) with
      | Some (OLoadPage next' _) => if y_Loading (sync (sendLoadPage cfg q next)) then load_loop cfg lines answer fuel next' (sendLoadPage cfg q next)
                                    else sendLoadPage cfg q next
      | _ => sendLoadPage cfg q next end)) = false) as Hgo.
  { intros q next Hq1 Hq2 Hq3 Hq4 Hq5. destruct (sendPage_cases cfg q next Hq1) as [E|E].
    - rewrite E. by repeat case_match.
    - rewrite E. cbn [out set_client pu_client emit cl_out]. rewrite last_snoc. change (sync (out q _)) with (sync q). rewrite Hq1.
      apply IH; try done; cbn [pu_load out set_client]; rewrite ?Hq2; try done; lia. }
  unfold onLoadPage. fold R. rewrite L4, L3, L2. destruct ((0 <? hs_Dropped hs) && (ld_Retried (pu_load p) <? R)) eqn:Ed.
  - apply andb_true_iff in Ed as [Ed1 Ed2]. specialize (A3 ltac:(lia)). replace (0 <? hs_FirstSeq hs) with true by lia.
    rewrite u64_small, i64_small by (unfold is_u64, is_i64; lia).
    apply Hgo; cbn [set_load pu_load set_retried ld_MaxSeq ld_Retried]; [exact (eq_trans L1 Hl)|exact L2|lia|lia|].
    enough ((ld_MaxSeq (pu_load p) - (hs_FirstSeq hs - 1)) * (R + 1) <= (ld_MaxSeq (pu_load p) - cursor) * (R + 1)) by lia.
    apply Z.mul_le_mono_nonneg_r; lia.
  - cbv zeta. destruct (_ && (hs_NextSeq hs <? _)) eqn:En.
    + rewrite !andb_true_iff in En. destruct En as [[En1 _] En2]. specialize (A2 En1).
      apply Hgo; cbn [set_load pu_load set_retried ld_MaxSeq ld_Retried]; [exact (eq_trans L1 Hl)|exact L2|lia|lia|].
      enough ((ld_MaxSeq (pu_load p) - hs_NextSeq hs) * (R + 1) <= (ld_MaxSeq (pu_load p) - cursor - 1) * (R + 1)) by lia.
      apply Z.mul_le_mono_nonneg_r; lia.
    + match goal with |- context [finishLoad cfg ?q] => pose proof (finishLoad_done cfg q) as Hd end. rewrite Hd. by repeat case_match.
Qed.

(** ** The client's scores are the server's *)

Definition no_vote (h : heldLine) : Prop := match h with HeldWire msg => isVoteWire msg = false | HeldRaw _ => True end.

Definition keeps_votes (p p' : Pump) : Prop :=
  pu_votes p' = pu_votes p /\ (Forall no_vote (ld_Hold (pu_load p)) -> Forall no_vote (ld_Hold (pu_load p'))).

Lemma kv_trans p1 p2 p3 : keeps_votes p1 p2 -> keeps_votes p2 p3 -> keeps_votes p1 p3.
Proof. intros [E1 H1] [E2 H2]. split; [congruence|auto]. Qed.

Lemma kv_refl p : keeps_votes p p.
Proof. by split. Qed.

Lemma kv_flush p : keeps_votes p (flushDateBanner p).
Proof.
  unfold flushDateBanner. destruct (bn_Pending _) as [msg|]; [|done]. destruct (showDateBanner _ _) as [show b].
  destruct show; [|done]. by destruct (_ && _).
Qed.

Lemma kv_verify cfg p msg allow : keeps_votes p (verify cfg p msg allow).2.
Proof. unfold verify. by destruct (verifyReplayWire _ _ _ _). Qed.

Lemma kv_show p msg lo : keeps_votes p (show_line p msg lo).
Proof.
  unfold show_line. destruct (_ && negb lo); [done|]. destruct (_ && _); [done|]. destruct lo; [done|]. exact (kv_flush p).
Qed.

Lemma kv_wire cfg p msg : isVoteWire msg = false -> keeps_votes p (on_wire cfg p msg).
Proof.
  intros Hm. unfold on_wire. destruct (_ && negb (isLoadHistoryWire p msg)).
  { split; [done|]. intros H. cbn. apply Forall_app. split; [done|by constructor]. }
  cbv zeta. set (lo := _ && negb (isOlderHistoryWire p msg)). set (p1 := if lo then _ else p).
  assert (keeps_votes p p1) as H1 by (unfold p1; destruct lo; [exact (kv_flush p)|done]).
  pose proof (kv_verify cfg p1 msg (is_type "chat" msg)) as Hv. destruct (verify _ _ _ _) as [r p2]. cbn [snd] in Hv.
  eapply kv_trans; [exact H1|]. eapply kv_trans; [exact Hv|]. destruct r; [done|]. exact (kv_show p2 msg lo).
Qed.

Lemma kv_held cfg p h : no_vote h -> keeps_votes p (release_held cfg p h).
Proof.
  intros Hh. destruct h as [msg|line]; cbn [release_held no_vote] in *; [|done]. rewrite Hh. destruct (is_type "chat" msg).
  - pose proof (kv_verify cfg p msg true) as Hv. destruct (verify _ _ _ _) as [[] p1]; [done|].
    eapply kv_trans; [exact Hv|]. exact (kv_flush p1).
  - destruct (negb _); [done|]. pose proof (kv_verify cfg p msg false) as Hv. destruct (verify _ _ _ _) as [[] p1]; [done|].
    destruct (_ && _); [done|]. destruct (hidden_notice _ _); [done|]. eapply kv_trans; [exact Hv|]. exact (kv_flush p1).
Qed.

Lemma kv_finishLoad cfg p : Forall no_vote (ld_Hold (pu_load p)) -> keeps_votes p (finishLoad cfg p).
Proof.
  intros Hn. unfold finishLoad. cbv zeta. set (p1 := set_flags p false _ false).
  set (p2 := match ld_Hold (pu_load p1) with [] => p1 | _ => _ end).
  assert (pu_votes p2 = pu_votes p /\ Forall no_vote (ld_Hold (pu_load p2))) as [E2 H2].
  { unfold p2. change (ld_Hold (pu_load p1)) with (ld_Hold (pu_load p)). destruct (ld_Hold (pu_load p)) as [|h hs] eqn:Eh; [by rewrite <- Eh in Hn|].
    assert (forall l q, Forall no_vote l -> pu_votes (fold_left (release_held cfg) l q) = pu_votes q) as Hf.
    { induction l as [|x l IH]; intros q Hl; [done|]. apply Forall_cons in Hl as [Hx Hl]. cbn [fold_left].
      rewrite IH by done. apply (kv_held cfg q x Hx). }
    split; [exact (Hf (h :: hs) _ Hn)|constructor]. }
  clearbody p2. split; [|intros _]; destruct (forkWarning _ _ _ _ _); done.
Qed.

Lemma kv_sendPage cfg p cursor : Forall no_vote (ld_Hold (pu_load p)) -> keeps_votes p (sendLoadPage cfg p cursor).
Proof.
  intros Hn. unfold sendLoadPage. destruct (negb _); [by apply kv_finishLoad|]. destruct (e_sent _); [done|by apply kv_finishLoad].
Qed.

Lemma kv_sync cfg p hs : Forall no_vote (ld_Hold (pu_load p)) -> keeps_votes p (handleHistorySync cfg p hs).
Proof.
  intros Hn. unfold handleHistorySync. destruct (_ && _).
  { unfold onLoadPage. cbv zeta.
    repeat match goal with
    | |- keeps_votes _ (if ?b then _ else _) => destruct b
    | |- keeps_votes _ (sendLoadPage cfg ?q ?a) => exact (kv_sendPage cfg q a Hn)
    | |- keeps_votes _ (finishLoad cfg ?q) => exact (kv_finishLoad cfg q Hn)
    end. }
  destruct (y_InOlder _); [|by destruct (_ || _)]. cbv zeta.
  set (p2 := drop_banner (flushDateBanner (set_older (set_inOlder p false) _))).
  assert (keeps_votes p p2) as H2 by exact (kv_flush (set_older (set_inOlder p false) _)). clearbody p2.
  destruct (hs_Total hs =? 0); destruct (r_Pending _); exact H2.
Qed.

(** What a step does to the scores. *)
Definition voted (i : incoming) : option WireMessage :=
  match i with
  | InWire msg => if negb (HasTag (wm_Tags msg) TagHistory) && isVoteWire msg then Some msg else None
  | _ => None
  end.

Definition fold_vote (m : gmap Z VoteScore) (w : WireMessage) : gmap Z VoteScore :=
  if (wm_VoteUpvotes w =? 0) && (wm_VoteDownvotes w =? 0) then delete (wm_VoteTarget w) m
  else <[wm_VoteTarget w := mkScore (wm_VoteUpvotes w) (wm_VoteDownvotes w)]> m.

Definition well_framed (i : incoming) : Prop := match i with InChatFrame msg => is_type "chat" msg = true | _ => True end.

Lemma step_votes cfg p i : well_framed i -> Forall no_vote (ld_Hold (pu_load p)) ->
  pu_votes (pump_step cfg p i) = match voted i with Some w => fold_vote (pu_votes p) w | None => pu_votes p end /\
  Forall no_vote (ld_Hold (pu_load (pump_step cfg p i))).
Proof.
  intros Hi Hn.
  assert (forall p', keeps_votes p p' -> pu_votes p' = pu_votes p /\ Forall no_vote (ld_Hold (pu_load p'))) as Hk by (intros p' [? ?]; auto).
  destruct i as [msg|msg|hs|info|line]; cbn [pump_step voted well_framed] in *.
  - apply Hk, kv_wire. unfold isVoteWire, is_type in *. apply str_eqb_eq in Hi. by rewrite Hi.
  - destruct (HasTag _ TagHistory); cbn [negb andb].
    + apply Hk. unfold handleReplayMarker. destruct (parseHistoryBoundary _) as [b start]. destruct (negb b); [done|]. cbv zeta.
      assert (keeps_votes p (trackReplayWindow p (wm_Tags msg) start)) as Ht.
      { unfold trackReplayWindow. destruct start.
        - destruct (HasTag _ TagHistoryOlder); [done|]. by destruct (HasTag _ TagHistoryRecover).
        - cbv zeta. pose proof (kv_flush p) as Hf. by destruct (_ && _). }
      by destruct (_ && _).
    + destruct (isVoteWire msg) eqn:Ev; [|by apply Hk, kv_wire]. unfold applyVoteLocked. rewrite Ev. by split.
  - by apply Hk, kv_sync.
  - unfold handleHistoryInfo. destruct (y_Loading _); [done|]. cbv zeta.
    match goal with |- context [sendLoadPage cfg ?q ?a] => destruct (kv_sendPage cfg q a ltac:(constructor)) as [E H] end.
    split; [exact E|apply H; constructor].
  - cbv zeta. set (q := if negb _ then _ else _). assert (keeps_votes p q) as [Eq Hq] by (unfold q; destruct (negb _); [apply kv_flush|done]).
    destruct (_ && _); [|split; [done|by apply Hq]]. split; [done|]. cbn. apply Forall_app. split; [by apply Hq|by constructor].
Qed.

(** The lines the server broadcasts for a run of votes: one per change. *)
Definition vote_broadcasts (clock : str) (vs : list vote) (rs : list vote_result) : list WireMessage :=
  omap (fun vr => if vr_changed vr.2 then Some (vote_wire clock (v_target vr.1) (vr_up vr.2) (vr_down vr.2)) else None) (zip vs rs).

Lemma applyVote_score st (now : time) ip target direction t :
  let '(r, st') := applyVote st now ip target direction in
  score_at (VoteScores st') t =
  if (t =? target) && vr_changed r then mkScore (vr_up r) (vr_down r) else score_at (VoteScores st) t.
Proof.
  assert (forall tot dedup, score_at (VoteScores (mkVotes (<[target := tot]> (VoteScores st)) dedup)) t =
    if t =? target then tot else score_at (VoteScores st) t) as Hst.
  { intros tot dedup. cbn [VoteScores]. rewrite score_at_insert. rewrite Z.eqb_sym. by destruct (t =? target). }
  unfold applyVote, result_of. cbv zeta. repeat case_match; subst; simplify_eq; rewrite ?Hst; cbn [vr_changed vr_up vr_down];
    rewrite ?andb_true_r, ?andb_false_r; destruct (t =? target) eqn:Et; try done;
    try (by destruct (inc_up _)); try (by destruct (inc_down _)); try (by destruct (switch_vote _ _ _)); try (by destruct (dec_up _));
    try (by destruct (dec_down _)); by replace t with target by lia.
Qed.

Lemma vote_wire_voted clock target up down : 0 < target ->
  voted (InWire (vote_wire clock target up down)) = Some (vote_wire clock target up down).
Proof. intros H. unfold voted, isVoteWire, is_type, vote_wire. cbn. by replace (0 <? target) with true by lia. Qed.

Lemma score_fold m clock target up down t :
  score_at (fold_vote m (vote_wire clock target up down)) t = if t =? target then mkScore up down else score_at m t.
Proof.
  unfold fold_vote, vote_wire. cbn [wm_VoteUpvotes wm_VoteDownvotes wm_VoteTarget]. destruct (_ && _) eqn:E.
  - unfold score_at. destruct (t =? target) eqn:Et.
    + replace t with target by lia. rewrite lookup_delete_eq. cbn. unfold zeroScore. f_equal; lia.
    + by rewrite lookup_delete_ne by lia.
  - rewrite score_at_insert, Z.eqb_sym. by destruct (t =? target).
Qed.

Lemma run_step_votes cfg ins : forall p, Forall well_framed ins -> Forall no_vote (ld_Hold (pu_load p)) ->
  pu_votes (fold_left (pump_step cfg) ins p) = fold_left fold_vote (omap voted ins) (pu_votes p).
Proof.
  induction ins as [|i ins IH]; intros p Hf Hn; [done|]. apply Forall_cons in Hf as [Hi Hf].
  destruct (step_votes cfg p i Hi Hn) as [E Hn']. cbn [fold_left omap list_omap]. rewrite IH by done. rewrite E.
  by destruct (voted i).
Qed.

Lemma broadcasts_follow clock vs : forall st m, Forall (fun v => 0 < v_target v) vs ->
  (forall t, score_at m t = score_at (VoteScores st) t) ->
  forall t, score_at (fold_left fold_vote (vote_broadcasts clock vs (run_votes st vs).1) m) t =
            score_at (VoteScores (run_votes st vs).2) t.
Proof.
  induction vs as [|v vs IH]; intros st m Hv Hm t; [apply Hm|]. apply Forall_cons in Hv as [Ht Hv]. cbn [run_votes].
  pose proof (applyVote_score st (v_at v) (v_ip v) (v_target v) (v_dir v)) as Ha.
  destruct (applyVote _ _ _ _ _) as [r st1]. specialize (IH st1). destruct (run_votes st1 vs) as [rs st2]. cbn [fst snd] in *.
  unfold vote_broadcasts in *. cbn [zip zip_with omap list_omap fst snd]. destruct (vr_changed r) eqn:Ec; cbn [fold_left]; apply IH; try done.
  - intros t'. rewrite score_fold, Ha, andb_true_r. by destruct (t' =? v_target v).
  - intros t'. rewrite Ha, andb_false_r. apply Hm.
Qed.

(** Every reader sees the ledger: a client that receives the broadcasts of a
    run of votes, between any other lines, trailers and loads, shows for every
    message the totals of the ledger in which each address holds one ballot per
    message, if it showed the server's totals before. *)
Theorem client_scores_follow_ledger cfg clock scores M t0 vs ins p :
  scores_within scores M -> in_order t0 vs -> Forall valid_vote vs -> Forall (fun v => 0 < v_target v) vs ->
  M + Z.of_nat (length vs) < 2 ^ 63 -> Forall well_framed ins -> Forall no_vote (ld_Hold (pu_load p)) ->
  (forall t, score_at (pu_votes p) t = score_at scores t) ->
  omap voted ins = vote_broadcasts clock vs (run_votes (mkVotes scores ∅) vs).1 ->
  forall t, score_at (pu_votes (fold_left (pump_step cfg) ins p)) t = totals (run_ledger (mkLedger scores ∅) vs).2 t.
Proof.
  intros Hw Ho Hv Hv0 HM Hf Hn Hp Hb t. rewrite run_step_votes by done. rewrite Hb.
  destruct (run_sim vs M t0 _ _ Ho Hv HM (sim_start scores M t0 Hw)) as [_ (M' & t1 & Hs)].
  rewrite (broadcasts_follow clock vs (mkVotes scores ∅)); [apply Hs|done|done].
Qed.

(** ** Concrete runs *)

Definition toy_settings : Settings := mkSettings toy_env 500 100 1000.
Definition toy_pump : Pump :=
  mkPump toy_client (mkLoad 0 0 0 0 []) (mkOlder 0 0 false) (mkBanner [] None) ∅ true None.

(** A load of a three-line log, with a live line held in between. *)
Definition toy_session (log : list str) : list (Settings * pump_event) :=
  (toy_settings, PIn (InInfo (mkHistoryInfo 1 2 1 1 2))) ::
  map (fun w => (toy_settings, PIn (InWire w))) (omap unmarshal_wire (drop 2 log ++ log)) ++
  [(toy_settings, PIn (InSync (mkHistorySync 1 1 2 2 0 (lit "after") 1 2 2 false)))].

Lemma toy_session_stored (log log' : list str) : log' = log ->
  Forall (fun ev => match ev.2 with PIn (InChatFrame msg) | PIn (InWire msg) => stored_in log' msg | _ => True end) (toy_session log).
Proof.
  intros ->. apply Forall_forall. intros [cfg ev] Hev. unfold toy_session in Hev. rewrite elem_of_cons, elem_of_app in Hev.
  destruct Hev as [[= -> ->]|[Hev|[= -> ->]%list_elem_of_singleton]]; [exact I| |exact I].
  apply list_elem_of_In, in_map_iff in Hev as (w & [= <- <-] & Hw). apply list_elem_of_In, list_elem_of_omap in Hw as (l & Hl & Hw).
  exists l. split; [|exact Hw]. apply elem_of_app in Hl as [Hl|Hl]; [|exact Hl]. apply list_elem_of_In.
  apply (firstn_skipn_In _ 2). right. by apply list_elem_of_In.
Qed.

Lemma session_never_accuses_witness :
  t_Warned (cl_tip (pu_client (session_run toy_pump (toy_session toy_log)))) = false.
Proof.
  pose proof (session_never_accuses (U := sample_unicode) 1000 (lit "pub") (boot (U := sample_unicode) (lit "pub") None)
    sample_ops toy_pump (toy_session toy_log) eq_refl (length_sha256 _) ltac:(vm_compute; discriminate)
    sample_ops_ok ltac:(vm_compute; reflexivity)) as H.
  cbv zeta in H. pose proof (toy_session_stored toy_log
    (log_run (U := sample_unicode) 1000 (lit "pub") (boot (U := sample_unicode) (lit "pub") None) sample_ops).1 eq_refl) as Hs. revert H Hs.
  generalize (toy_session toy_log). destruct (log_run (U := sample_unicode) 1000 (lit "pub") _ sample_ops) as [log srv].
  intros evs H Hs. cbn [fst] in H, Hs.
  exact (proj1 (H ltac:(repeat split) eq_refl eq_refl ltac:(discriminate) Hs)).
Defined.

(** The held line is drawn after the history, and the load has ended. *)
Example toy_session_draws :
  let p := session_run toy_pump (toy_session toy_log) in
  map wm_ChainHeight (drawn p) = [1; 0; 2; 2] /\ y_Loading (sync p) = false.
Proof. vm_compute. done. Qed.

Definition loading_pump : Pump := handleHistoryInfo toy_settings toy_pump (mkHistoryInfo 1 2 1 1 2).

(** A server that loses a line of every page and always says there is more. *)
Definition lossy (k : nat) (a : Z) : HistorySync := mkHistorySync 0 0 1 2 1 (lit "after") (Z.min 2 (a + 1)) (a + 1) (a + 1) true.

Lemma load_finishes_witness :
  y_Loading (sync (load_loop toy_settings (fun _ => []) (fun k a => if a <? 2 then lossy k a else mkHistorySync 0 0 0 0 0 (lit "after") 0 0 0 false) 10 0 loading_pump)) = false.
Proof.
  apply load_finishes.
  - vm_compute. reflexivity.
  - vm_compute. split; discriminate.
  - cbn. lia.
  - vm_compute. split; discriminate.
  - vm_compute. reflexivity.
  - intros k. constructor.
  - intros k a. change (ld_MaxSeq (pu_load loading_pump)) with 2. destruct (a <? 2) eqn:E; cbn [lossy hs_Direction hs_More hs_NextSeq hs_Dropped hs_FirstSeq].
    + split; [reflexivity|]. split; [lia|]. lia.
    + split; [reflexivity|]. split; [discriminate|]. lia.
  - vm_compute. reflexivity.
Defined.

Lemma client_scores_follow_ledger_witness :
  let vs := [mkVote 5 (lit "a") 7 1; mkVote 6 (lit "b") 7 (-1); mkVote 9 (lit "a") 7 1] in
  let ins := map InWire (vote_broadcasts (lit "15:04") vs (run_votes (mkVotes ∅ ∅) vs).1) in
  score_at (pu_votes (fold_left (pump_step toy_settings) ins toy_pump)) 7 = totals (run_ledger (mkLedger ∅ ∅) vs).2 7.
Proof.
  cbv zeta. apply (client_scores_follow_ledger toy_settings (lit "15:04") ∅ 0 0).
  - intros t. unfold score_at. rewrite lookup_empty. cbn. lia.
  - cbn. lia.
  - repeat constructor; cbn; try lia; (left; reflexivity) || (right; left; reflexivity).
  - repeat constructor.
  - cbn. lia.
  - vm_compute. repeat constructor.
  - constructor.
  - intros t. reflexivity.
  - vm_compute. reflexivity.
Defined.

(** Two changes of one message broadcast in the other order leave every reader,
    and the totals rebuilt at a restart, at the older total. *)
Example reordered_broadcasts :
  let vs := [mkVote 5 (lit "a") 7 1; mkVote 6 (lit "b") 7 1] in
  let ws := vote_broadcasts (lit "15:04") vs (run_votes (mkVotes ∅ ∅) vs).1 in
  score_at (VoteScores (run_votes (mkVotes ∅ ∅) vs).2) 7 = mkScore 2 0 /\
  score_at (pu_votes (fold_left (pump_step toy_settings) (map InWire (reverse ws)) toy_pump)) 7 = mkScore 1 0.
Proof. vm_compute. done. Qed.

(** A page that lost a line is asked for again from its first line, and the
    lines that did arrive are drawn a second time. *)
Example retried_page_draws_twice :
  let evs := (toy_settings, PIn (InInfo (mkHistoryInfo 1 2 1 1 2))) ::
    map (fun w => (toy_settings, PIn (InWire w))) (take 1 (omap unmarshal_wire toy_log)) ++
    [(toy_settings, PIn (InSync (mkHistorySync 1 1 1 2 1 (lit "after") 1 1 2 false)))] ++
    map (fun w => (toy_settings, PIn (InWire w))) (take 2 (omap unmarshal_wire toy_log)) ++
    [(toy_settings, PIn (InSync (mkHistorySync 1 1 2 2 0 (lit "after") 1 2 2 false)))] in
  map wm_Seq (drawn (session_run toy_pump evs)) = [1; 1; 2].
Proof. vm_compute. done. Qed.
