(* ===== verification/ClientSync.v ===== *)
(** The client and the server over one refill: what the client asks for is what
    the server's range read returns, and an honest answer completes the refill. *)

From Stdlib Require Import Sorted.
From stdpp Require Import sorting.
From S2P Require Import Prelude Bytes Sha2 Utf8 Wire Json ChainLink Window HistoryScan HistoryStore ChainService History.
From S2P Require Import LinkedLog ClientView Outbox ClientChain ClientTrack ClientRefill.
Local Open Scope Z_scope.

(** * The ranges a client asks for *)

Definition covers (rs : list HeightRange) (h : Z) : Prop := exists r, r ∈ rs /\ in_range h r = true.

(** Disjoint runs in ascending order, with a hole between neighbours. *)
Definition apart (r r' : HeightRange) : Prop := hr_To r + 1 < hr_From r'.

Definition good_runs (rs : list HeightRange) : Prop :=
  Forall (fun r => 0 < hr_From r <= hr_To r) rs /\ StronglySorted apart rs.

Lemma covers_cons r rs h : covers (r :: rs) h <-> hr_From r <= h <= hr_To r \/ covers rs h.
Proof.
  unfold covers. setoid_rewrite elem_of_cons. unfold in_range. split.
  - intros (x & [->|Hx] & Hr); [left; lia|right; by exists x].
  - intros [H|(x & Hx & Hr)]; [exists r; split; [by left|lia]|exists x; split; [by right|done]].
Qed.

Lemma runs_of_spec hs : forall r, 0 < hr_From r <= hr_To r -> StronglySorted Z.lt hs ->
  Forall (fun h => hr_To r < h < 2 ^ 64) hs ->
  let rs := runs_of (Some r) hs in
  good_runs rs /\ Forall (fun x => hr_From r <= hr_From x) rs /\
  (forall h, covers rs h <-> hr_From r <= h <= hr_To r \/ h ∈ hs).
Proof.
  induction hs as [|h hs IH]; intros r Hr Hs Hh; cbv zeta.
  - cbn [runs_of]. split; [split; [by constructor|by repeat constructor]|]. split; [by constructor|].
    intros h. rewrite covers_cons. split; [|intros [?|?%elem_of_nil]; [by left|done]].
    intros [?|(x & ?%elem_of_nil & _)]; [by left|done].
  - apply StronglySorted_inv in Hs as [Hs Hlt]. apply Forall_cons in Hh as [Hh Hhs]. cbn [runs_of].
    assert (forall a, Forall (fun x => hr_To (mkRange a h) < x < 2 ^ 64) hs) as Hhs'.
    { intros a. cbn [hr_To]. rewrite Forall_forall in *. intros x Hx. specialize (Hlt x Hx). specialize (Hhs x Hx). lia. }
    destruct (u64 (hr_To r + 1) =? h) eqn:E.
    + destruct (IH (mkRange (hr_From r) h) ltac:(cbn; lia) Hs (Hhs' _)) as (I1 & I2 & I3). split; [done|]. split; [done|].
      rewrite u64_small in E by (unfold is_u64; lia). intros x. rewrite I3, elem_of_cons. cbn [hr_From hr_To]. intuition lia.
    + destruct (IH (mkRange h h) ltac:(cbn; lia) Hs (Hhs' _)) as ([I1 I1'] & I2 & I3). cbn [hr_From hr_To] in *.
      assert (hr_To r + 1 < h) as Hgap.
      { assert (h <> hr_To r + 1); [|lia]. intros ->. rewrite u64_small in E by (unfold is_u64; lia). lia. }
      split; [split|split].
      * constructor; [lia|done].
      * constructor; [done|]. eapply Forall_impl; [exact I2|]. unfold apart. intros x Hx. cbv beta in Hx. lia.
      * constructor; [lia|]. eapply Forall_impl; [exact I2|]. intros x Hx. cbv beta in Hx. lia.
      * intros x. rewrite covers_cons, I3, elem_of_cons. intuition lia.
Qed.

(** A strictly ascending list of a finite set. *)
Definition ascending (M : gset Z) : list Z := merge_sort Z.le (elements M).

Lemma ascending_spec M : StronglySorted Z.lt (ascending M) /\ (forall h, h ∈ ascending M <-> h ∈ M) /\ length (ascending M) = size M.
Proof.
  unfold ascending. pose proof (merge_sort_Permutation Z.le (elements M)) as Hp. split; [|split].
  - assert (NoDup (merge_sort Z.le (elements M))) as Hn by (rewrite Hp; apply NoDup_elements).
    pose proof (StronglySorted_merge_sort Z.le (elements M)) as Hs. revert Hn Hs.
    generalize (merge_sort Z.le (elements M)). induction l as [|x l IH]; intros Hn Hs; [constructor|].
    apply NoDup_cons in Hn as [Hx Hn]. apply StronglySorted_inv in Hs as [Hs Hle]. constructor; [by apply IH|].
    rewrite Forall_forall in *. intros y Hy. specialize (Hle y Hy). assert (x <> y) by (by intros ->). lia.
  - intros h. rewrite Hp. apply elem_of_elements.
  - by rewrite Hp.
Qed.

Lemma missingRuns_spec M : (forall h, h ∈ M -> 0 < h < 2 ^ 64) ->
  good_runs (missingRuns M) /\ (forall h, covers (missingRuns M) h <-> h ∈ M).
Proof.
  intros HM. destruct (ascending_spec M) as (H1 & H2 & _). unfold missingRuns. fold (ascending M).
  assert (Forall (fun h => 0 < h < 2 ^ 64) (ascending M)) as H3 by (apply Forall_forall; intros h Hh; by apply HM, H2).
  setoid_rewrite <- H2. destruct (ascending M) as [|h hs]; cbn [runs_of].
  - split; [split; constructor|]. intros h. split; [by intros (x & ?%elem_of_nil & _)|by intros ?%elem_of_nil].
  - apply StronglySorted_inv in H1 as [H1 Hlt]. apply Forall_cons in H3 as [H3 H4].
    destruct (runs_of_spec hs (mkRange h h) ltac:(cbn; lia) H1) as (I1 & _ & I3).
    { cbn. rewrite Forall_forall in *. intros x Hx. specialize (Hlt x Hx). specialize (H4 x Hx). lia. }
    split; [done|]. intros x. rewrite I3, elem_of_cons. cbn [hr_From hr_To]. intuition lia.
Qed.

Lemma good_runs_mono rs r r' : good_runs rs -> r ∈ rs -> r' ∈ rs -> hr_From r <= hr_From r' -> hr_To r <= hr_To r'.
Proof.
  intros [Hv Hs]. revert Hv. induction Hs as [|x l Hs IH Hx]; intros Hv; [by intros ?%elem_of_nil|].
  apply Forall_cons in Hv as [Hxv Hv]. rewrite !elem_of_cons. rewrite Forall_forall in Hx, Hv. unfold apart in Hx.
  intros [->|Hr] [->|Hr'] Hle.
  - done.
  - specialize (Hx _ Hr'). specialize (Hv _ Hr'). lia.
  - specialize (Hx _ Hr). specialize (Hv _ Hr). lia.
  - apply IH; [|done..]. by apply Forall_forall.
Qed.

(** The heights of the chained lines of a history. *)
Definition chained_heights (hist : list str) : list Z := List.filter (fun h => negb (h =? 0)) (map line_height hist).

Lemma filter_heights_le (hist : list str) (M : gset Z) : NoDup (chained_heights hist) -> 0 ∉ M ->
  (length (List.filter (fun l => bool_decide (line_height l ∈ M)) hist) <= size M)%nat.
Proof.
  intros Hn H0. set (L := List.filter _ hist).
  assert (NoDup (map line_height L)) as Hd.
  { unfold L. clear L. induction hist as [|l hist IH]; [apply NoDup_nil_2|]. unfold chained_heights in *. cbn [map List.filter] in *.
    destruct (line_height l =? 0) eqn:E; cbn [negb] in Hn.
    - specialize (IH Hn). case_bool_decide as Hin; [|done]. exfalso. apply H0. by replace 0 with (line_height l) by lia.
    - apply NoDup_cons in Hn as [Hl Hn]. specialize (IH Hn). case_bool_decide; [|done]. cbn [map]. apply NoDup_cons. split; [|done].
      intros Hin. apply Hl. apply list_elem_of_In, in_map_iff in Hin as (l' & El & Hl'). apply filter_In in Hl' as [Hl' _].
      apply list_elem_of_In, filter_In. split; [apply in_map_iff; by exists l'|]. apply negb_true_iff. lia. }
  rewrite <- (length_map line_height), <- (size_list_to_set (C := gset Z)) by done. apply subseteq_size.
  intros h Hh. apply elem_of_list_to_set, list_elem_of_In, in_map_iff in Hh as (l & <- & Hl). apply filter_In in Hl as [_ Hl].
  by apply bool_decide_eq_true in Hl.
Qed.

(** What the client asks for is what it gets: the server's answer to the request
    for the missing heights is exactly its stored lines with those heights. *)
Lemma refill_fetches c (M : gset Z) : (forall h, h ∈ M -> 0 < h < 2 ^ 64) -> M <> ∅ -> NoDup (chained_heights (c_History c)) ->
  collectRanges c (missingRuns M) (Z.of_nat (size M)) = List.filter (fun l => bool_decide (line_height l ∈ M)) (c_History c).
Proof.
  intros HM Hne Hn. destruct (missingRuns_spec M HM) as [Hg Hc]. pose proof Hg as [Hv _].
  assert (size M <> 0%nat) as Hs by (by intros ?%size_empty_inv%leibniz_equiv).
  assert (List.filter valid_range (missingRuns M) = missingRuns M) as Hf.
  { apply filter_all. intros r Hr. rewrite Forall_forall in Hv. specialize (Hv r Hr). unfold valid_range. lia. }
  rewrite collectRanges_wanted; [|lia|intros; by eapply good_runs_mono]. rewrite Hf, Nat2Z.id.
  rewrite (filter_ext _ (fun l => bool_decide (line_height l ∈ M))).
  - apply take_ge, filter_heights_le; [done|]. intros H0. specialize (HM 0 H0). lia.
  - intros l. unfold wanted. apply eq_true_iff_eq. rewrite andb_true_iff, bool_decide_eq_true, negb_true_iff, existsb_exists.
    rewrite <- Hc. unfold covers. setoid_rewrite <- list_elem_of_In. split; [naive_solver|].
    intros H. split; [|done]. specialize (proj1 (Hc _) H) as Hin. specialize (HM _ Hin). lia.
Qed.

(** * What is asked for is anchored *)

Lemma good_runs_unique rs r r' h : good_runs rs -> r ∈ rs -> r' ∈ rs -> in_range h r = true -> in_range h r' = true -> r = r'.
Proof.
  intros [_ Hs]. unfold in_range. induction Hs as [|x l Hs IH Hx]; [by intros ?%elem_of_nil|].
  rewrite !elem_of_cons. rewrite Forall_forall in Hx. unfold apart in Hx. intros [->|Hr] [->|Hr'] H1 H2.
  - done.
  - specialize (Hx _ Hr'). lia.
  - specialize (Hx _ Hr). lia.
  - by apply IH.
Qed.

Definition prune_run (st : Z * recoverWindow) (run : HeightRange) : Z * recoverWindow :=
  let '(lost, p) := st in
  match rw_Known p !! u64 (hr_From run - 1) with
  | Some _ => (lost, p)
  | None =>
      let hs : gset Z := list_to_set (heights (hr_From run) (hr_To run)) in
      (lost + Z.of_nat (length (heights (hr_From run) (hr_To run))),
       mkWindow (rw_ID p) (rw_Missing p ∖ hs) (rw_Known p) (rw_Live p ∖ hs) (rw_MaxMissing p)
         (rw_Received p) (rw_Attempts p) (rw_Failed p))
  end.

Definition anchored_run (p : recoverWindow) (run : HeightRange) : Prop := is_Some (rw_Known p !! u64 (hr_From run - 1)).

Lemma prune_fold_missing runs h : forall st,
  h ∈ rw_Missing (fold_left prune_run runs st).2 <->
  h ∈ rw_Missing st.2 /\ forall r, r ∈ runs -> in_range h r = true -> anchored_run st.2 r.
Proof.
  induction runs as [|run runs IH]; intros [lost p]; cbn [fold_left].
  - split; [intros H; split; [done|by intros r ?%elem_of_nil]|tauto].
  - rewrite IH. unfold prune_run. setoid_rewrite elem_of_cons. unfold anchored_run. unfold in_range.
    destruct (rw_Known p !! u64 (hr_From run - 1)) as [x|] eqn:E; cbn [snd rw_Missing rw_Known].
    + split; [|naive_solver]. intros [H1 H2]. split; [done|]. intros r [->|Hr] Hin; [by rewrite E|by apply H2].
    + rewrite elem_of_difference, elem_of_list_to_set, elem_heights. split.
      * intros [[H1 H3] H2]. split; [done|]. intros r [->|Hr] Hin; [lia|by apply H2].
      * intros [H1 H2]. split; [split; [done|]|intros r Hr; apply H2; by right].
        intros Hin. specialize (H2 run (or_introl eq_refl)). rewrite E in H2. destruct H2 as [? [=]]. lia.
Qed.

(** After the pruning every missing height follows a known one or a missing one. *)
Lemma prune_anchored p : (forall h, h ∈ rw_Missing p -> 0 < h < 2 ^ 64) ->
  let p' := (pruneMissing p).2 in
  forall h, h ∈ rw_Missing p' -> h - 1 ∈ rw_Missing p' \/ is_Some (rw_Known p' !! (h - 1)).
Proof.
  intros HM p' h Hh. destruct (missingRuns_spec (rw_Missing p) HM) as [Hg Hc].
  destruct (prune_frame p) as (Hk & _). unfold p'. rewrite Hk. unfold p', pruneMissing in Hh.
  apply (prune_fold_missing _ _ (0, p)) in Hh as [Hin Ha]. cbn [snd] in *.
  destruct (proj2 (Hc h) Hin) as (r & Hr & Hrange). specialize (Ha r Hr Hrange). pose proof Hrange as Hb. unfold in_range in Hb.
  destruct (decide (h = hr_From r)) as [->|Hne]; [right|left].
  - specialize (HM _ Hin). unfold anchored_run in Ha. by rewrite u64_small in Ha by (unfold is_u64; lia).
  - assert (in_range (h - 1) r = true) as Hrange' by (unfold in_range; lia).
    apply (prune_fold_missing _ _ (0, p)). cbn [snd]. split; [apply Hc; by exists r|].
    intros r' Hr' Hin'. by rewrite (good_runs_unique _ r' r _ Hg Hr' Hr Hin' Hrange').
Qed.

(** * The answer completes the refill *)

Lemma linked_ascending ws : forall t h, linked_log t h ws -> StronglySorted Z.lt (map wm_ChainHeight ws).
Proof.
  induction ws as [|w ws IH]; intros t h H; [constructor|]. pose proof H as Hl. cbn [linked_log] in H.
  destruct H as (x & _ & Hh & _ & _ & H). cbn [map]. constructor; [by eapply IH|].
  apply Forall_forall. intros y Hy. apply list_elem_of_fmap in Hy as (w' & -> & Hw').
  pose proof (linked_heights _ _ _ _ H Hw'). lia.
Qed.

Lemma ascending_NoDup l : StronglySorted Z.lt l -> NoDup l.
Proof.
  induction 1 as [|x l _ IH Hx]; [apply NoDup_nil_2|]. apply NoDup_cons. split; [|done].
  intros Hin. rewrite Forall_forall in Hx. specialize (Hx _ Hin). lia.
Qed.

Lemma line_chained l w : chained_wire l = Some w -> unmarshal_wire l = Some w /\ line_height l = wm_ChainHeight w.
Proof. unfold chained_wire, line_height. destruct (unmarshal_wire l) as [w'|]; [|done]. destruct (str_eqb _ _); [done|]. by intros [= ->]. Qed.

Section answered.
Variables (t0 : str) (h0 : Z) (hist : list str).
Hypothesis Hlink : linked_log t0 h0 (chained_wires hist).
Hypothesis Hbound : 0 <= h0 /\ h0 + Z.of_nat (length (chained_wires hist)) < 2 ^ 64.
Hypothesis Hstored : Forall (fun l => line_height l = 0 \/ is_Some (chained_wire l)) hist.

Lemma chained_heights_of : chained_heights hist = map wm_ChainHeight (chained_wires hist).
Proof using Hlink Hbound Hstored.
  assert (Forall (fun w => 0 < wm_ChainHeight w) (chained_wires hist)) as Hpos.
  { apply Forall_forall. intros w Hw. pose proof (linked_heights _ _ _ _ Hlink Hw). lia. }
  revert Hpos. clear Hlink Hbound. unfold chained_heights, chained_wires. revert Hstored.
  induction hist as [|l hist' IH]; [done|]. intros [Hl Hst]%Forall_cons. specialize (IH Hst). cbn [map List.filter omap list_omap].
  destruct (chained_wire l) as [w|] eqn:E; intros Hpos.
  - apply Forall_cons in Hpos as [Hw Hpos]. destruct (line_chained _ _ E) as [_ ->].
    replace (wm_ChainHeight w =? 0) with false by lia. cbn [negb map]. exact (f_equal _ (IH Hpos)).
  - destruct Hl as [->|[? [=]]]. by apply IH.
Qed.

Lemma answer_wires (M : gset Z) : 0 ∉ M ->
  map unmarshal_wire (List.filter (fun l => bool_decide (line_height l ∈ M)) hist) =
  map Some (List.filter (fun w => bool_decide (wm_ChainHeight w ∈ M)) (chained_wires hist)).
Proof using Hstored.
  intros H0. clear Hlink Hbound. unfold chained_wires. revert Hstored.
  induction hist as [|l hist' IH]; [done|]. intros [Hl Hst]%Forall_cons. specialize (IH Hst).
  cbn [List.filter omap list_omap]. destruct (chained_wire l) as [w|] eqn:E.
  - destruct (line_chained _ _ E) as [E1 E2]. cbn [List.filter]. rewrite E2. case_bool_decide; [|done]. cbn [map]. by rewrite E1, IH.
  - destruct Hl as [->|[? [=]]]. rewrite bool_decide_false by done. exact IH.
Qed.

(** The lines of the window in ascending order, fed one by one. *)
Definition recover_run (env : Env) (c : Client) (ms : list WireMessage) : Client :=
  fold_left (fun c w => (verifyReplayWire env c w true).2) ms c.

(** A window that waits for exactly the heights of [ms]. *)
Record refilling (c : Client) (ms : list WireMessage) (p : recoverWindow) : Prop := {
  rf_pending : r_Pending (cl_rec c) = Some p;
  rf_in : r_InRecover (cl_rec c) = true;
  rf_older : y_InOlder (cl_sync c) = false;
  rf_max : forall h, h ∈ rw_Missing p -> h <= rw_MaxMissing p;
  rf_failed : rw_Failed p = false;
  rf_known : map_Forall (on_log t0 h0 (chained_wires hist)) (rw_Known p);
  rf_missing : forall h, h ∈ rw_Missing p <-> h ∈ map wm_ChainHeight ms;
  rf_anchored : forall h, h ∈ rw_Missing p -> h - 1 ∈ rw_Missing p \/ is_Some (rw_Known p !! (h - 1))
}.

(** One line of the answer is drawn and leaves the window. *)
Lemma refill_one env c w ms p : StronglySorted Z.lt (map wm_ChainHeight (w :: ms)) ->
  w ∈ chained_wires hist -> refilling c (w :: ms) p ->
  let c' := (verifyReplayWire env c w true).2 in
  exists p', refilling c' ms p' /\ cl_tip c' = cl_tip c /\
    cl_out c' = cl_out c ++ [if y_CatchupHold (cl_sync c) then ORenderInPlace w else ORender w] /\
    cl_sync c' = cl_sync c.
Proof using Hlink Hbound.
  clear Hstored. intros Hs Hw [P1 P2 P3 P4 P5 P6 P7 P8]. cbv zeta. cbn [map] in Hs. apply StronglySorted_inv in Hs as [Hs Hlt].
  rewrite Forall_forall in Hlt. set (h := wm_ChainHeight w) in *.
  assert (h ∈ rw_Missing p) as Hin by (apply P7; cbn [map]; by left).
  destruct (honest_link t0 h0 _ Hlink Hbound w [] Hw) as (n & q & x & Hn & Hh & -> & _ & _ & Hon & _ & Hv). fold h in Hh, Hon.
  pose proof (lookup_lt_Some _ _ _ Hn) as Hnl.
  assert (rw_Known p !! (h - 1) = Some (hash_at t0 (chained_wires hist) n)) as Hprev.
  { destruct (P8 _ Hin) as [Hm|[y Hy]].
    - apply P7 in Hm. cbn [map] in Hm. apply elem_of_cons in Hm as [E|Hm]; [fold h in E; lia|]. specialize (Hlt _ Hm). lia.
    - rewrite Hy. f_equal. destruct (P6 _ _ Hy) as (m & _ & Em & ->). f_equal. lia. }
  unfold verifyReplayWire. cbn [set_rec set_rendered cl_sync cl_rec r_InRecover snd]. rewrite P3, P2. cbn [snd].
  unfold checkRecoverWire. cbn [set_rec set_rendered cl_rec r_Pending cl_sync]. rewrite P1.
  pose proof (honest_hash t0 h0 _ Hlink Hbound w Hw) as Hne. apply str_eqb_neq in Hne. rewrite Hne.
  pose proof (P4 _ Hin) as Hmax. fold h. replace (rw_MaxMissing p <? h) with false by lia. cbn [orb].
  rewrite bool_decide_true by done. cbn [negb]. rewrite u64_small by (unfold is_u64; lia). rewrite Hprev, Hv. cbv zeta.
  eexists. split; [|by destruct (y_CatchupHold (cl_sync c))]. split; try done.
  - cbn [rw_Missing rw_MaxMissing]. intros k Hk. apply P4. set_solver.
  - cbn [rw_Known]. by apply map_Forall_insert_2.
  - cbn [rw_Missing]. intros k. rewrite elem_of_difference, P7, not_elem_of_singleton. cbn [map]. rewrite elem_of_cons. fold h.
    split; [naive_solver|]. intros Hk. split; [by right|]. specialize (Hlt _ Hk). lia.
  - cbn [rw_Missing rw_Known]. intros k Hk. apply elem_of_difference in Hk as [Hk Hne'].
    destruct (decide (k - 1 = h)) as [->|Hd]; [right; by rewrite lookup_insert_eq|].
    rewrite lookup_insert_ne by done. destruct (P8 _ Hk) as [?|?]; [left; set_solver|by right].
Qed.

Lemma refill_all env ms : forall c p, StronglySorted Z.lt (map wm_ChainHeight ms) ->
  Forall (fun w => w ∈ chained_wires hist) ms -> refilling c ms p ->
  exists p', refilling (recover_run env c ms) [] p' /\ cl_tip (recover_run env c ms) = cl_tip c /\
    cl_out (recover_run env c ms) =
    cl_out c ++ map (fun w => if y_CatchupHold (cl_sync c) then ORenderInPlace w else ORender w) ms.
Proof using Hlink Hbound.
  clear Hstored. induction ms as [|w ms IH]; intros c p Hs Hms Hr.
  - exists p. cbn. by rewrite app_nil_r.
  - apply Forall_cons in Hms as [Hw Hms].
    destruct (refill_one env c w ms p Hs Hw Hr) as (p1 & Hr1 & E1 & E2 & E3). cbn [map] in Hs.
    apply StronglySorted_inv in Hs as [Hs _]. destruct (IH _ _ Hs Hms Hr1) as (p' & Hr' & E4 & E5).
    exists p'. split; [exact Hr'|]. unfold recover_run. cbn [fold_left map]. fold (recover_run env (verifyReplayWire env c w true).2 ms).
    rewrite E4, E5, E1, E2, E3, <- app_assoc. done.
Qed.
End answered.

Lemma sorted_filter_map {A} (f : A -> Z) (P : A -> bool) l :
  StronglySorted Z.lt (map f l) -> StronglySorted Z.lt (map f (List.filter P l)).
Proof.
  induction l as [|x l IH]; intros H; [constructor|]. cbn [map List.filter] in *. apply StronglySorted_inv in H as [H Hx].
  destruct (P x); [|by apply IH]. cbn [map]. constructor; [by apply IH|]. rewrite Forall_forall in *. intros y Hy. apply Hx.
  apply list_elem_of_fmap in Hy as (z & -> & Hz). apply list_elem_of_fmap. exists z. split; [done|].
  apply list_elem_of_In, filter_In in Hz as [Hz _]. by apply list_elem_of_In.
Qed.

Lemma finish_empty env c p : r_Pending (cl_rec c) = Some p -> rw_Missing p = ∅ -> rw_Failed p = false ->
  let c' := finishRecovery env c in
  r_Pending (cl_rec c') = None /\ cl_tip c' = cl_tip c /\ refilled c' = refilled c.
Proof.
  intros Hp Hm Hf. cbv zeta. unfold finishRecovery. rewrite Hp, bool_decide_true, Hf by done. cbn [andb negb].
  unfold releaseCatchup, refilled. destruct (0 <? rw_Received p); cbn [emit set_rec cl_sync]; destruct (y_CatchupHold _); cbn;
    rewrite ?omap_app; cbn; by rewrite ?app_nil_r.
Qed.

(** The request that goes out, and the state it leaves. *)
Lemma sent_request env c p : r_Pending (cl_rec c) = Some p -> (sendRecoverLocked env c).1 = true ->
  let M := rw_Missing (pruneMissing p).2 in
  let c1 := (sendRecoverLocked env c).2 in
  M <> ∅ /\ cl_out c1 = cl_out c ++ [OSendRanges (missingRuns M) (Z.of_nat (size M))] /\
  cl_tip c1 = cl_tip c /\ cl_sync c1 = cl_sync c /\ r_InRecover (cl_rec c1) = true /\
  exists p1, r_Pending (cl_rec c1) = Some p1 /\ rw_Missing p1 = M /\ rw_Known p1 = rw_Known p /\
    rw_MaxMissing p1 = rw_MaxMissing p /\ rw_Failed p1 = false.
Proof.
  intros Hp Hs. destruct (prune_frame p) as (Hk & _ & _ & Hmx & _). unfold sendRecoverLocked in *. rewrite Hp in *.
  destruct (e_conn env); cbn [negb] in *; [|done]. cbv zeta in *. case_bool_decide as Hm; [done|].
  destruct (e_sent env); cbn [negb fst snd] in *; [|done]. split; [done|]. split; [done|]. split; [done|]. split; [done|].
  split; [done|]. eexists. split; [done|]. done.
Qed.

Lemma map_omap_refill (b : bool) ms : omap refilled_of (map (fun w => if b then ORenderInPlace w else ORender w) ms) = ms.
Proof. induction ms as [|w ms IH]; [done|]. cbn. destruct b; cbn; by f_equal. Qed.


(** ** A concrete gap *)

Definition four_srv : ChainService := Eval vm_compute in
  (log_run (U := sample_unicode) 100000 (lit "pub") (boot (U := sample_unicode) (lit "pub") None) four_ops).2.

(** A reader that saw the first and the fourth line. *)
Definition gap_client : Client := Eval vm_compute in
  chain_run toy_client (map (fun w => EWire toy_env w true) (omap (fun i => four_wires !! i) [0; 3]%nat)).

Definition gap_window : recoverWindow := Eval vm_compute in
  default (mkWindow 0 ∅ ∅ ∅ 0 0 0 false) (r_Pending (cl_rec gap_client)).

Lemma four_stored : chained_wires (c_History four_srv) = four_wires.
Proof. vm_compute. reflexivity. Qed.

Lemma gap_heights h : h ∈ rw_Missing gap_window -> h = 2 \/ h = 3.
Proof.
  intros Hh. assert (rw_Missing gap_window = {[2; 3]}) as E by (apply (bool_decide_unpack _); vm_compute; reflexivity).
  rewrite E in Hh. set_solver.
Qed.

