(* ===== verification/Admit.v ===== *)
(** The door of the chat ([server/main.go] [ServeWS], [server/admit.go],
    [server/blocklist.go], and the counters of [server/auth.go] and
    [server/clientHandler.go]): the checks a dial passes before it becomes a
    socket, the per-address slots, the handshakes in flight and the ban record.
    The forwarded-address resolution, the address parsing and the blocklist
    match are arguments: their answers for the request at hand. *)

From S2P Require Import Prelude Bytes Utf8 Floats Clock Guard Abuse Attack Gate.
Local Open Scope Z_scope.

(** * State *)

Record Doors := mkDoors {
  d_IpCounts : gmap str Z;
  d_LastConnectTime : gmap str time;
  d_AuthFails : gmap str RateLimitRecord;
  d_Inflight : Z;
  d_Rejects : RejectStat
}.

Definition zeroRejects : RejectStat := mkRejects 0 0 0 0 0.
Definition NewDoors : Doors := mkDoors ∅ ∅ ∅ 0 zeroRejects.

Definition set_IpCounts (d : Doors) m := mkDoors m (d_LastConnectTime d) (d_AuthFails d) (d_Inflight d) (d_Rejects d).
Definition set_LastConnectTime (d : Doors) m := mkDoors (d_IpCounts d) m (d_AuthFails d) (d_Inflight d) (d_Rejects d).
Definition set_AuthFails (d : Doors) m := mkDoors (d_IpCounts d) (d_LastConnectTime d) m (d_Inflight d) (d_Rejects d).
Definition set_Inflight (d : Doors) n := mkDoors (d_IpCounts d) (d_LastConnectTime d) (d_AuthFails d) n (d_Rejects d).
Definition set_Rejects (d : Doors) r := mkDoors (d_IpCounts d) (d_LastConnectTime d) (d_AuthFails d) (d_Inflight d) r.
Definition countReject (d : Doors) (cause : rejectCause) : Doors := set_Rejects d (addReject (d_Rejects d) cause).

(** * Refusals *)

(** The whole seconds of the Retry-After header. *)
Definition setRetryAfter (remaining : duration) : Z :=
  let seconds := to_int (Seconds remaining) in if seconds <? 1 then 1 else seconds.

(** An answer is a status and its Retry-After. *)

Definition rejectCooldown (r : RejectStat) (meter : CooldownMap) (now : time) (clientIP : str) (window : duration)
    : (Z * option Z) * RejectStat :=
  ((429, Some (setRetryAfter (RetryAfter meter now clientIP window))), addReject r rejectCooldownCause).

Definition rejectIPBusy (d : Doors) : (Z * option Z) * Doors :=
  ((429, Some (setRetryAfter (5 * Second))), countReject d rejectPerIPCause).

(** * The ban and the connection rate *)

Definition fails_of (d : Doors) (ip : str) : RateLimitRecord := default zeroRate (d_AuthFails d !! ip).

(** [now] is the reading under the ban's lock, [now2] the one under the
    connection map's. *)
Definition server_CheckConnectionRate (d : Doors) (now now2 : time) (clientIP : str) (cooldown : duration)
    : option (Z * option Z) * Doors :=
  let rec := fails_of d clientIP in
  if IsBanned rec now then
    (Some (429, Some (setRetryAfter (Sub (UnlockTime rec) now))), countReject d rejectCooldownCause)
  else
    let slow := match d_LastConnectTime d !! clientIP with
                | Some lastTime => if (CheckConnectionRate now rec lastTime cooldown).1 then None else Some lastTime
                | None => None
                end in
    match slow with
    | Some lastTime =>
        (Some (429, Some (setRetryAfter (cooldown - Sub now2 lastTime))), countReject d rejectCooldownCause)
    | None => (None, set_LastConnectTime d (<[clientIP := now2]> (d_LastConnectTime d)))
    end.

Definition handleAuthPenalty (d : Doors) (now : time) (clientIP : str) : Doors :=
  set_AuthFails d (<[clientIP := NextPenalty (fails_of d clientIP) now]> (d_AuthFails d)).

(** The ten-minute sweep of the two maps. *)
Definition cleanup_doors (d : Doors) (now : time) (cooldown : duration) : Doors :=
  set_LastConnectTime
    (set_AuthFails d (filter (fun kv => ShouldPrune kv.2 now AuthFailTTL = false) (d_AuthFails d)))
    (filter (fun kv => (cooldown <? Sub now kv.2) = false) (d_LastConnectTime d)).

(** * Slots *)

Definition slots (d : Doors) (ip : str) : Z := default 0 (d_IpCounts d !! ip).

Definition acquireIPConnection (d : Doors) (maxPerIP : Z) (clientIP : str) : option (Z * option Z) * Doors :=
  if maxPerIP <=? slots d clientIP then let '(r, d) := rejectIPBusy d in (Some r, d)
  else (None, set_IpCounts d (<[clientIP := slots d clientIP + 1]> (d_IpCounts d))).

Definition releaseIPConnection (d : Doors) (clientIP : str) : Doors :=
  let n := slots d clientIP - 1 in
  set_IpCounts d (if n <=? 0 then delete clientIP (d_IpCounts d) else <[clientIP := n]> (d_IpCounts d)).

(** [clients]: the registered sessions. *)
Definition overCap (a : option AbuseConfig) (clients inflight : Z) : bool :=
  match a with
  | None => false
  | Some a => if ac_MaxTotalConnections a <=? 0 then false else ac_MaxTotalConnections a <=? clients + inflight
  end.

Definition enterInflight (d : Doors) : Doors := set_Inflight d (d_Inflight d + 1).
Definition releaseInflight (d : Doors) : Doors := set_Inflight d (d_Inflight d - 1).

(** * The dial *)

(** What the request shows: the resolved address and whether a strict chain
    refused it, the blocklist's and the address parser's answers, the transport,
    and the pass of the query or the header. *)
Record Dial := mkDial {
  dl_Reject : bool;
  dl_ClientIP : str;
  dl_Trusted : bool;
  dl_Blocked : bool;
  dl_IPv4 : bool;
  dl_TLS : bool;
  dl_Proto : str;           (* X-Forwarded-Proto *)
  dl_Onion : bool;          (* onionRequest *)
  dl_OnionTrusted : bool;   (* the remote address is a trusted onion hop *)
  dl_Query : str;
  dl_Header : str
}.

Record DoorConfig := mkDoorConfig {
  dc_RequireTLS : bool;
  dc_RequireIPv4 : bool;
  dc_ConnectionCooldown : duration;
  dc_MaxConnectionsPerIP : Z;
  dc_Abuse : option AbuseConfig
}.

(** What the behavior engine is told during a dial. *)
Inductive dial_note := NoteBlocklisted | NoteHTTP (status : Z).

Section dial.
Context {U : Unicode}.

Definition IsSecuredConnect (requireTLS : bool) (q : Dial) : bool :=
  if negb requireTLS then true
  else
    let isProxyTLS := dl_Trusted q && str_eqb (ToLower (dl_Proto q)) (lit "https") in
    let isLocalhost := str_eqb (dl_ClientIP q) (lit "127.0.0.1") || str_eqb (dl_ClientIP q) (lit "::1") in
    let isOnion := dl_Onion q && negb (dl_Trusted q) && (isLocalhost || dl_OnionTrusted q) in
    dl_TLS q || isProxyTLS || isLocalhost || isOnion.

Record Porch := mkPorch {
  po_Doors : Doors;
  po_Gate : option GateStore;
  po_Attack : option AttackState
}.

Definition note_attack (f : AttackState -> AttackState) (p : Porch) : Porch :=
  mkPorch (po_Doors p) (po_Gate p) (f <$> po_Attack p).
Definition with_doors (p : Porch) (d : Doors) : Porch := mkPorch d (po_Gate p) (po_Attack p).

(** The gate's part of the dial. *)
Definition pass_gate (cfg : DoorConfig) (now : time) (clients : Z) (q : Dial) (p : Porch) : bool * Porch :=
  let is_degraded := degraded (po_Attack p) now (dc_Abuse cfg) clients (d_Inflight (po_Doors p)) in
  if gateRequired (dc_Abuse cfg) (match po_Gate p with Some _ => true | None => false end) is_degraded then
    let '(ok, g, a, r) := checkGatePass (po_Gate p) (po_Attack p) (d_Rejects (po_Doors p)) now (dc_Abuse cfg)
                            (dl_ClientIP q) (dl_Query q) (dl_Header q) in
    (ok, mkPorch (set_Rejects (po_Doors p) r) g a)
  else (true, p).

Definition attempted (now : time) (q : Dial) (p : Porch) : Porch :=
  note_attack (fun a => noteAttempt a (UnixSec now) (dl_ClientIP q)) p.

(** Up to the upgrade: a refusal with its status, or [None] when the socket is
    upgraded with one slot of its address and one handshake counted.  A dial
    refused after its slot was taken gives it back (the deferred release). *)
Definition ServeWS (cfg : DoorConfig) (now now2 : time) (clients : Z) (q : Dial) (p : Porch)
    : option (Z * option Z) * Porch * list dial_note :=
  let ip := dl_ClientIP q in
  if dl_Reject q then (Some (403, None), p, [])
  else
    let p := attempted now q p in
    if dl_Blocked q then
      (Some (403, None), note_attack (fun a => noteBlock a (UnixSec now)) p, [NoteBlocklisted; NoteHTTP 403])
    else if dc_RequireIPv4 cfg && negb (dl_IPv4 q) then (Some (403, None), p, [NoteHTTP 403])
    else if negb (IsSecuredConnect (dc_RequireTLS cfg) q) then (Some (426, None), p, [NoteHTTP 426])
    else
      let '(passed, p) := pass_gate cfg now clients q p in
      if negb passed then (Some (429, Some 5), p, [NoteHTTP 429])
      else
        match server_CheckConnectionRate (po_Doors p) now now2 ip (dc_ConnectionCooldown cfg) with
        | (Some r, d) => (Some r, with_doors p d, [NoteHTTP 429])
        | (None, d) =>
            match acquireIPConnection d (dc_MaxConnectionsPerIP cfg) ip with
            | (Some r, d) => (Some r, with_doors p d, [NoteHTTP 429])
            | (None, d) =>
                if overCap (dc_Abuse cfg) clients (d_Inflight d) then
                  (Some (503, Some 5),
                   note_attack (fun a => note503 a (UnixSec now))
                     (with_doors p (releaseIPConnection (countReject d rejectFullCause) ip)),
                   [NoteHTTP 503])
                else (None, with_doors p (enterInflight d), [NoteHTTP 200])
            end
        end.
End dial.

(** * Theorems *)

(** ** Refusals *)

Lemma release_acquire d maxPerIP ip d' : acquireIPConnection d maxPerIP ip = (None, d') ->
  d_IpCounts d !! ip = None \/ (exists n, d_IpCounts d !! ip = Some n /\ 0 < n) ->
  releaseIPConnection d' ip = d.
Proof.
  unfold acquireIPConnection. destruct (_ <=? _); [done|]. intros [= <-] Hp. destruct d as [m l a i r]. unfold releaseIPConnection, slots.
  cbn [d_IpCounts set_IpCounts d_LastConnectTime d_AuthFails d_Inflight d_Rejects] in *. rewrite lookup_insert_eq. cbn [default from_option id].
  unfold set_IpCounts. cbn. f_equal. destruct Hp as [E|(n & E & Hn)]; rewrite E; cbn [default from_option id].
  - replace (0 + 1 - 1 <=? 0) with true by lia. by rewrite delete_insert_id.
  - replace (n + 1 - 1 <=? 0) with false by lia. replace (n + 1 - 1) with n by lia.
    rewrite insert_insert_eq. by rewrite insert_id.
Qed.

Lemma acquire_refused d maxPerIP ip r d' : acquireIPConnection d maxPerIP ip = (Some r, d') ->
  d_IpCounts d' = d_IpCounts d /\ d_Inflight d' = d_Inflight d.
Proof. unfold acquireIPConnection, rejectIPBusy. by destruct (_ <=? _); intros [= <- <-]. Qed.

(** Every slot count is of a live handler. *)
Definition slots_positive (d : Doors) : Prop := map_Forall (fun _ n => 0 < n) (d_IpCounts d).

Section refusals.
Context {U : Unicode}.

Definition same_but_rejects (d d' : Doors) : Prop :=
  d_IpCounts d' = d_IpCounts d /\ d_LastConnectTime d' = d_LastConnectTime d /\
  d_AuthFails d' = d_AuthFails d /\ d_Inflight d' = d_Inflight d.

Lemma pass_gate_doors cfg now clients q p : same_but_rejects (po_Doors p) (po_Doors (pass_gate cfg now clients q p).2).
Proof. unfold pass_gate. destruct (gateRequired _ _ _); [|done]. by destruct (checkGatePass _ _ _ _ _ _ _ _) as [[[ok g] a] r]. Qed.

Lemma connection_rate_doors d now now2 ip cooldown r d' : server_CheckConnectionRate d now now2 ip cooldown = (r, d') ->
  d_IpCounts d' = d_IpCounts d /\ d_Inflight d' = d_Inflight d.
Proof.
  unfold server_CheckConnectionRate. cbv zeta. destruct (IsBanned _ _); [by intros [= <- <-]|].
  by destruct (match d_LastConnectTime d !! ip with Some _ => _ | None => _ end); intros [= <- <-].
Qed.

Lemma rate_status d now now2 ip cooldown s ra d' : server_CheckConnectionRate d now now2 ip cooldown = (Some (s, ra), d') -> s = 429.
Proof.
  unfold server_CheckConnectionRate. cbv zeta. destruct (IsBanned _ _); [by intros [= <- _ _]|].
  by destruct (match d_LastConnectTime d !! ip with Some _ => _ | None => _ end); intros [= <- _ _].
Qed.

(** C8. A refusal holds nothing.  Whatever the reason a dial is refused for, it
    leaves the slots of every address and the handshakes in flight as they
    were; the refusals of the proxy chain, the blocklist, the transport and the
    gate do not stamp the connection time (so the redial after the gate is not
    slowed by the one the gate turned away); and an upgraded dial holds exactly
    one more slot of its own address, below the limit, and one handshake. *)
Theorem refusal_holds_nothing cfg now now2 clients q p r p' notes :
  ServeWS cfg now now2 clients q p = (r, p', notes) -> slots_positive (po_Doors p) ->
  match r with
  | Some (status, _) =>
      d_IpCounts (po_Doors p') = d_IpCounts (po_Doors p) /\ d_Inflight (po_Doors p') = d_Inflight (po_Doors p) /\
      (dl_Reject q = true \/ dl_Blocked q = true \/ status = 426 \/
         (pass_gate cfg now clients q (attempted now q p)).1 = false ->
       d_LastConnectTime (po_Doors p') = d_LastConnectTime (po_Doors p))
  | None =>
      slots (po_Doors p) (dl_ClientIP q) < dc_MaxConnectionsPerIP cfg /\
      overCap (dc_Abuse cfg) clients (d_Inflight (po_Doors p)) = false /\
      d_IpCounts (po_Doors p') = <[dl_ClientIP q := slots (po_Doors p) (dl_ClientIP q) + 1]> (d_IpCounts (po_Doors p)) /\
      d_Inflight (po_Doors p') = d_Inflight (po_Doors p) + 1
  end.
Proof.
  unfold ServeWS. cbv zeta. intros H Hpos. destruct (dl_Reject q); [by injection H as <- <- <-|].
  destruct (dl_Blocked q); [by injection H as <- <- <-|]. destruct (_ && _); [by injection H as <- <- <-|].
  destruct (negb (IsSecuredConnect _ _)); [by injection H as <- <- <-|].
  pose proof (pass_gate_doors cfg now clients q (attempted now q p)) as (G1 & G2 & G3 & G4).
  destruct (pass_gate _ _ _ _ _) as [passed p1]. cbn [fst snd] in *. change (po_Doors (attempted now q p)) with (po_Doors p) in *.
  destruct passed; cbn [negb] in H; [|by injection H as <- <- <-].
  destruct (server_CheckConnectionRate _ _ _ _ _) as [[[s1 ra]|] d1] eqn:Er.
  { injection H as <- <- <-. pose proof (rate_status _ _ _ _ _ _ _ _ Er) as ->. apply connection_rate_doors in Er as [R1 R2].
    cbn [po_Doors with_doors]. rewrite R1, R2, G1, G4. split; [done|]. split; [done|]. intros [?|[?|[?|?]]]; lia || done. }
  apply connection_rate_doors in Er as [R1 R2].
  assert (forall ip, slots d1 ip = slots (po_Doors p) ip) as Hs by (intros; unfold slots; by rewrite R1, G1).
  destruct (acquireIPConnection _ _ _) as [[[s2 ra2]|] d2] eqn:Ea.
  { injection H as <- <- <-. unfold acquireIPConnection in Ea. destruct (_ <=? _); [|done]. injection Ea as <- <- <-.
    cbn [po_Doors with_doors]. split; [exact (eq_trans R1 G1)|]. split; [exact (eq_trans R2 G4)|]. intros [?|[?|[?|?]]]; lia || done. }
  pose proof (release_acquire _ _ _ _ Ea) as Hr. unfold acquireIPConnection in Ea. destruct (_ <=? _) eqn:Em; [done|]. injection Ea as <-.
  rewrite Hs in Em. cbn [d_Inflight set_IpCounts] in H. rewrite R2, G4 in H. destruct (overCap _ _ _) eqn:Ec; injection H as <- <- <-.
  - cbn [po_Doors with_doors note_attack]. split; [|split; [exact (eq_trans R2 G4)|intros [?|[?|[?|?]]]; lia || done]].
    rewrite <- G1, <- R1. apply (f_equal d_IpCounts) in Hr; [exact Hr|]. rewrite R1, G1.
    destruct (d_IpCounts (po_Doors p) !! dl_ClientIP q) as [n|] eqn:En; [right; exists n; split; [done|exact (Hpos _ _ En)]|by left].
  - cbn [po_Doors with_doors]. unfold enterInflight, set_IpCounts, set_Inflight. cbn. rewrite <- Hs, R1, R2, G1, G4. rewrite Hs.
    split; [lia|done].
Qed.
End refusals.

(** ** Counting over a map *)

Section counting.
Context {A : Type}.
Implicit Types (P : A -> bool) (m : gmap nat A).

Definition count P m : Z := Z.of_nat (size (filter (fun kv => P kv.2 = true) m)).

Lemma count_empty P : count P ∅ = 0.
Proof. unfold count. by rewrite map_filter_empty, map_size_empty. Qed.

Lemma count_insert P m k x : m !! k = None -> count P (<[k := x]> m) = count P m + (if P x then 1 else 0).
Proof.
  intros Hk. unfold count. rewrite map_filter_insert. cbn [snd]. destruct (P x) eqn:E.
  - rewrite decide_True by done. rewrite map_size_insert_None by (apply map_lookup_filter_None; by left). lia.
  - rewrite decide_False by done. rewrite delete_id by done. lia.
Qed.

Lemma count_delete P m k x : m !! k = Some x -> count P (delete k m) = count P m - (if P x then 1 else 0).
Proof.
  intros Hk. pose proof (count_insert P (delete k m) k x (lookup_delete_eq m k)) as H.
  rewrite insert_delete_id in H by done. lia.
Qed.

Lemma count_update P m k x y : m !! k = Some x ->
  count P (<[k := y]> m) = count P m - (if P x then 1 else 0) + (if P y then 1 else 0).
Proof.
  intros Hk. rewrite <- insert_delete_eq, count_insert by apply lookup_delete_eq. by rewrite (count_delete P m k x).
Qed.

Lemma count_nonneg P m : 0 <= count P m.
Proof. unfold count. lia. Qed.

Lemma count_mono P Q m : (forall x, P x = true -> Q x = true) -> count P m <= count Q m.
Proof.
  intros H. induction m as [|k x m Hk IH] using map_ind; [by rewrite !count_empty|].
  rewrite !count_insert by done. specialize (H x). destruct (P x), (Q x); lia.
Qed.

Lemma count_pos P m k x : m !! k = Some x -> P x = true -> 0 < count P m.
Proof.
  intros Hk Hp. pose proof (count_nonneg P (delete k m)). rewrite (count_delete P m k x Hk), Hp in *. lia.
Qed.
End counting.

(** ** The house

    Every connection handler between the door and its end, at the grain of the
    atomic operations: the slot, the capacity check, the in-flight counter, the
    client map and the re-check after registration. *)

Inductive phase := PhArrived | PhCleared | PhHandshake | PhJoined | PhSettled | PhServing | PhLeaving.

Record House := mkHouse {
  ho_doors : Doors;
  ho_clients : gset nat;               (* Hub.Clients *)
  ho_conns : gmap nat (str * phase)    (* the running handlers *)
}.

Definition clientCount (h : House) : Z := Z.of_nat (size (ho_clients h)).

Section house.
Variable maxPerIP : Z.
Variable a : option AbuseConfig.

Definition move (h : House) (d : Doors) (cl : gset nat) (c : nat) (ip : str) (ph : phase) : House :=
  mkHouse d cl (<[c := (ip, ph)]> (ho_conns h)).

Inductive house_step : House -> House -> Prop :=
| HArrive h c ip d : ho_conns h !! c = None -> acquireIPConnection (ho_doors h) maxPerIP ip = (None, d) ->
    house_step h (move h d (ho_clients h) c ip PhArrived)
| HTurnedAway h ip r d : acquireIPConnection (ho_doors h) maxPerIP ip = (Some r, d) ->
    house_step h (mkHouse d (ho_clients h) (ho_conns h))
| HCheck h c ip : ho_conns h !! c = Some (ip, PhArrived) ->
    house_step h (if overCap a (clientCount h) (d_Inflight (ho_doors h))
                  then move h (countReject (ho_doors h) rejectFullCause) (ho_clients h) c ip PhLeaving
                  else move h (ho_doors h) (ho_clients h) c ip PhCleared)
| HEnter h c ip : ho_conns h !! c = Some (ip, PhCleared) ->
    house_step h (move h (enterInflight (ho_doors h)) (ho_clients h) c ip PhHandshake)
| HFail h c ip : ho_conns h !! c = Some (ip, PhHandshake) ->
    house_step h (move h (releaseInflight (ho_doors h)) (ho_clients h) c ip PhLeaving)
| HRegister h c ip : ho_conns h !! c = Some (ip, PhHandshake) ->
    house_step h (move h (ho_doors h) ({[c]} ∪ ho_clients h) c ip PhJoined)
| HSettle h c ip : ho_conns h !! c = Some (ip, PhJoined) ->
    house_step h (move h (releaseInflight (ho_doors h)) (ho_clients h) c ip PhSettled)
| HRecheck h c ip : ho_conns h !! c = Some (ip, PhSettled) ->
    house_step h (if overCap a (clientCount h) (d_Inflight (ho_doors h))
                  then move h (countReject (ho_doors h) rejectFullCause) (ho_clients h ∖ {[c]}) c ip PhLeaving
                  else move h (ho_doors h) (ho_clients h) c ip PhServing)
| HQuit h c ip : ho_conns h !! c = Some (ip, PhServing) ->
    house_step h (move h (ho_doors h) (ho_clients h ∖ {[c]}) c ip PhLeaving)
| HDepart h c ip : ho_conns h !! c = Some (ip, PhLeaving) ->
    house_step h (mkHouse (releaseIPConnection (ho_doors h) ip) (ho_clients h) (delete c (ho_conns h))).

Definition opened : House := mkHouse NewDoors ∅ ∅.
Definition reachable (h : House) : Prop := rtc house_step opened h.

Definition of_ip (ip : str) (x : str * phase) : bool := str_eqb x.1 ip.
Definition in_flight (x : str * phase) : bool := match x.2 with PhHandshake | PhJoined => true | _ => false end.
Definition registered (x : str * phase) : bool := match x.2 with PhJoined | PhSettled | PhServing => true | _ => false end.
Definition serving (x : str * phase) : bool := match x.2 with PhServing => true | _ => false end.

(** The counters are the headcounts they stand for. *)
Record house_inv (h : House) : Prop := {
  hi_slots : forall ip, d_IpCounts (ho_doors h) !! ip =
               (let n := count (of_ip ip) (ho_conns h) in if n =? 0 then None else Some n);
  hi_limit : forall ip, count (of_ip ip) (ho_conns h) <= Z.max 0 maxPerIP;
  hi_inflight : d_Inflight (ho_doors h) = count in_flight (ho_conns h);
  hi_clients : forall c, c ∈ ho_clients h <-> exists x, ho_conns h !! c = Some x /\ registered x = true;
  hi_seats : forall a', a = Some a' -> 0 < ac_MaxTotalConnections a' -> count serving (ho_conns h) < ac_MaxTotalConnections a'
}.

Lemma of_ip_pair ip ip' ph : of_ip ip' (ip, ph) = str_eqb ip ip'.
Proof. done. Qed.

(** A move that keeps the slots. *)
Lemma move_of_ip h d cl c ip ph ph' ip' : ho_conns h !! c = Some (ip, ph) ->
  count (of_ip ip') (ho_conns (move h d cl c ip ph')) = count (of_ip ip') (ho_conns h).
Proof. intros Hc. unfold move. cbn [ho_conns]. rewrite (count_update _ _ _ _ _ Hc). unfold of_ip. cbn [fst]. lia. Qed.

Lemma move_inv h d cl c ip ph ph' : house_inv h -> ho_conns h !! c = Some (ip, ph) ->
  d_IpCounts d = d_IpCounts (ho_doors h) ->
  d_Inflight d = d_Inflight (ho_doors h) - (if in_flight (ip, ph) then 1 else 0) + (if in_flight (ip, ph') then 1 else 0) ->
  (forall c', c' ∈ cl <-> (if decide (c' = c) then registered (ip, ph') = true else c' ∈ ho_clients h)) ->
  (serving (ip, ph') = true -> forall a', a = Some a' -> 0 < ac_MaxTotalConnections a' ->
     count serving (ho_conns h) + 1 < ac_MaxTotalConnections a') ->
  house_inv (move h d cl c ip ph').
Proof.
  intros [I1 I2 I3 I4 I5] Hc Hd Hf Hcl Hs. split.
  - intros ip'. rewrite (move_of_ip _ _ _ _ _ _ _ _ Hc). cbn [move ho_doors]. rewrite Hd. apply I1.
  - intros ip'. rewrite (move_of_ip _ _ _ _ _ _ _ _ Hc). apply I2.
  - cbn [move ho_doors ho_conns]. rewrite (count_update _ _ _ _ _ Hc). lia.
  - intros c'. cbn [move ho_clients ho_conns]. rewrite Hcl. destruct (decide (c' = c)) as [->|Hne].
    + rewrite lookup_insert_eq. split; [by intros ?; eexists|]. by intros (x & [= <-] & ?).
    + rewrite lookup_insert_ne by done. apply I4.
  - intros a' Ha Hm. cbn [move ho_conns]. rewrite (count_update _ _ _ _ _ Hc). specialize (I5 a' Ha Hm).
    destruct (serving (ip, ph')) eqn:E; [|destruct (serving (ip, ph)); lia]. specialize (Hs eq_refl a' Ha Hm).
    destruct (serving (ip, ph)); lia.
Qed.

(** The client map has one entry for each registered handler. *)
Lemma clientCount_registered h : house_inv h -> clientCount h = count registered (ho_conns h).
Proof.
  intros H. unfold clientCount, count. f_equal. rewrite <- (size_dom (filter _ _)). f_equal.
  apply set_eq. intros c. rewrite (hi_clients h H). rewrite elem_of_dom. unfold is_Some. split.
  - intros (x & Hx & Hr). exists x. by apply map_lookup_filter_Some.
  - intros (x & [Hx Hr]%map_lookup_filter_Some). by exists x.
Qed.

Definition moved_clients (h : House) (c : nat) (ip : str) (ph' : phase) (cl : gset nat) : Prop :=
  forall c', c' ∈ cl <-> (if decide (c' = c) then registered (ip, ph') = true else c' ∈ ho_clients h).

Lemma clients_same h c ip ph ph' : house_inv h -> ho_conns h !! c = Some (ip, ph) ->
  registered (ip, ph') = registered (ip, ph) -> moved_clients h c ip ph' (ho_clients h).
Proof.
  intros Hi Hc Hr c'. destruct (decide (c' = c)) as [->|Hne]; [|done]. rewrite (hi_clients h Hi), Hr. split.
  - intros (x & Hx & Hx'). rewrite Hc in Hx. by injection Hx as <-.
  - intros Hx. by exists (ip, ph).
Qed.

Lemma clients_add h c ip ph' : registered (ip, ph') = true -> moved_clients h c ip ph' ({[c]} ∪ ho_clients h).
Proof. intros Hr c'. rewrite elem_of_union, elem_of_singleton. destruct (decide (c' = c)) as [->|Hne]; naive_solver. Qed.

Lemma clients_sub h c ip ph' : registered (ip, ph') = false -> moved_clients h c ip ph' (ho_clients h ∖ {[c]}).
Proof.
  intros Hr c'. rewrite elem_of_difference, elem_of_singleton. destruct (decide (c' = c)) as [->|Hne]; [|naive_solver].
  rewrite Hr. naive_solver.
Qed.

Lemma house_step_inv h h' : house_inv h -> house_step h h' -> house_inv h'.
Proof.
  intros Hi Hst. destruct Hst as [h c ip d Hc Ha|h ip r d Ha|h c ip Hc|h c ip Hc|h c ip Hc|h c ip Hc|h c ip Hc|h c ip Hc|h c ip Hc|h c ip Hc].
  - destruct Hi as [I1 I2 I3 I4 I5]. unfold acquireIPConnection in Ha. destruct (_ <=? _) eqn:Em; [done|]. injection Ha as <-.
    assert (slots (ho_doors h) ip = count (of_ip ip) (ho_conns h)) as Hs.
    { unfold slots. rewrite I1. cbv zeta. pose proof (count_nonneg (of_ip ip) (ho_conns h)). destruct (_ =? 0) eqn:E; cbn; lia. }
    rewrite Hs in *. unfold move. split; cbn [ho_doors ho_conns ho_clients d_IpCounts d_Inflight set_IpCounts].
    + intros ip'. rewrite count_insert by done. cbv zeta. rewrite of_ip_pair. destruct (str_eqb ip ip') eqn:E.
      * apply str_eqb_eq in E as <-. rewrite lookup_insert_eq. pose proof (count_nonneg (of_ip ip) (ho_conns h)).
        by replace (_ =? 0) with false by lia.
      * apply str_eqb_neq in E. rewrite lookup_insert_ne, Z.add_0_r by done. apply I1.
    + intros ip'. rewrite count_insert by done. rewrite of_ip_pair. specialize (I2 ip').
      destruct (str_eqb ip ip') eqn:E; [apply str_eqb_eq in E as <-; lia|lia].
    + rewrite count_insert by done. cbn. lia.
    + intros c'. rewrite I4. destruct (decide (c' = c)) as [->|Hne]; [|by rewrite lookup_insert_ne].
      rewrite lookup_insert_eq. split; [intros (x & Hx & _); congruence|by intros (x & [= <-] & ?)].
    + intros a' Ha' Hm. rewrite count_insert by done. cbn. specialize (I5 a' Ha' Hm). lia.
  - apply acquire_refused in Ha as [A1 A2]. destruct Hi as [I1 I2 I3 I4 I5].
    split; cbn [ho_doors ho_conns ho_clients]; rewrite ?A1, ?A2; done.
  - destruct (overCap _ _ _); apply (move_inv _ _ _ _ _ PhArrived); try done; try (cbn; lia); by apply (clients_same _ _ _ PhArrived).
  - apply (move_inv _ _ _ _ _ PhCleared); try done; [cbn; lia|]. by apply (clients_same _ _ _ PhCleared).
  - apply (move_inv _ _ _ _ _ PhHandshake); try done; [cbn; lia|]. by apply (clients_same _ _ _ PhHandshake).
  - apply (move_inv _ _ _ _ _ PhHandshake); try done; [cbn; lia|]. by apply clients_add.
  - apply (move_inv _ _ _ _ _ PhJoined); try done; [cbn; lia|]. by apply (clients_same _ _ _ PhJoined).
  - destruct (overCap _ _ _) eqn:Eo; apply (move_inv _ _ _ _ _ PhSettled); try done; try (cbn; lia).
    + by apply clients_sub.
    + by apply (clients_same _ _ _ PhSettled).
    + intros _ a' -> Hm. unfold overCap in Eo. rewrite (clientCount_registered h Hi) in Eo.
      replace (_ <=? 0) with false in Eo by lia.
      pose proof (count_update serving _ c _ (ip, PhServing) Hc) as E1. pose proof (count_update registered _ c _ (ip, PhServing) Hc) as E2.
      pose proof (count_mono serving registered (<[c:=(ip, PhServing)]> (ho_conns h)) ltac:(by intros [? []])) as E3.
      rewrite (hi_inflight h Hi) in Eo. pose proof (count_nonneg in_flight (ho_conns h)). cbn in E1, E2. lia.
  - apply (move_inv _ _ _ _ _ PhServing); try done; [cbn; lia|]. by apply clients_sub.
  - destruct Hi as [I1 I2 I3 I4 I5].
    assert (slots (ho_doors h) ip = count (of_ip ip) (ho_conns h)) as Hs.
    { unfold slots. rewrite I1. cbv zeta. pose proof (count_nonneg (of_ip ip) (ho_conns h)). destruct (_ =? 0) eqn:E; cbn; lia. }
    unfold releaseIPConnection. rewrite Hs. cbv zeta.
    split; cbn [ho_doors ho_conns ho_clients d_IpCounts d_Inflight set_IpCounts].
    + intros ip'. rewrite (count_delete _ _ _ _ Hc), of_ip_pair. pose proof (count_nonneg (of_ip ip) (ho_conns h)).
      destruct (str_eqb ip ip') eqn:E.
      * apply str_eqb_eq in E as <-. pose proof (count_pos (of_ip ip) _ _ _ Hc (str_eqb_refl ip)).
        destruct (_ <=? 0) eqn:El; [rewrite lookup_delete_eq; by replace (_ =? 0) with true by lia|].
        rewrite lookup_insert_eq. by replace (_ =? 0) with false by lia.
      * apply str_eqb_neq in E. rewrite Z.sub_0_r. destruct (_ <=? 0); [rewrite lookup_delete_ne by done|rewrite lookup_insert_ne by done]; apply I1.
    + intros ip'. rewrite (count_delete _ _ _ _ Hc). specialize (I2 ip'). destruct (of_ip _ _); lia.
    + rewrite (count_delete _ _ _ _ Hc). cbn. lia.
    + intros c'. rewrite I4. destruct (decide (c' = c)) as [->|Hne]; [|by rewrite lookup_delete_ne].
      rewrite lookup_delete_eq, Hc. split; [|by intros (? & ? & _)]. by intros (x & [= <-] & ?).
    + intros a' Ha Hm. rewrite (count_delete _ _ _ _ Hc). specialize (I5 a' Ha Hm). destruct (serving _); lia.
Qed.
End house.

Lemma reachable_inv maxPerIP a h : reachable maxPerIP a h -> house_inv maxPerIP a h.
Proof.
  intros H. refine (rtc_ind_r (house_inv maxPerIP a) opened _ _ h H); [|intros h1 h2 _ Hs Hi; by eapply house_step_inv].
  split; unfold opened; cbn [ho_doors ho_conns ho_clients]; intros; rewrite ?count_empty; cbn; try done; try lia.
  split; [by intros ?%elem_of_empty|intros (x & Hx & _); by rewrite lookup_empty in Hx].
Qed.

(** C7. No handler leaks a slot and none is released twice.  In every reachable
    state, for any interleaving of dials, handshakes, registrations and
    departures, the count of an address is the number of its running handlers
    and never above the limit, the in-flight counter is the number of
    handshakes, the client map holds exactly the registered handlers, and when
    the last handler ends every counter is back to nothing. *)
Theorem slots_are_exact maxPerIP a h : reachable maxPerIP a h ->
  (forall ip, slots (ho_doors h) ip = count (of_ip ip) (ho_conns h) /\ slots (ho_doors h) ip <= Z.max 0 maxPerIP) /\
  d_Inflight (ho_doors h) = count in_flight (ho_conns h) /\
  clientCount h = count registered (ho_conns h) /\
  (ho_conns h = ∅ -> d_IpCounts (ho_doors h) = ∅ /\ d_Inflight (ho_doors h) = 0 /\ ho_clients h = ∅).
Proof.
  intros Hr%reachable_inv. pose proof (clientCount_registered _ _ _ Hr) as Hc. destruct Hr as [I1 I2 I3 I4 I5].
  assert (forall ip, slots (ho_doors h) ip = count (of_ip ip) (ho_conns h)) as Hs.
  { intros ip. unfold slots. rewrite I1. cbv zeta. pose proof (count_nonneg (of_ip ip) (ho_conns h)). destruct (_ =? 0) eqn:E; cbn; lia. }
  split; [intros ip; rewrite Hs; by split|]. split; [done|]. split; [done|]. intros He. rewrite He in *. split; [|split].
  - apply map_eq. intros ip. rewrite I1, lookup_empty. by rewrite count_empty.
  - by rewrite I3, count_empty.
  - apply set_eq. intros c. rewrite I4. split; [intros (x & Hx & _); by rewrite lookup_empty in Hx|by intros ?%elem_of_empty].
Qed.

(** The cap holds against bursts, one seat short.  However many dials pass
    the first check together, the handlers that pass the re-check after
    registration and serve are fewer than [MAX_TOTAL_CONNECTIONS]; the handler
    that would fill the last seat is always sent away, and with the smallest
    accepted cap, one, nobody is ever served. *)
Theorem last_seat_is_never_taken maxPerIP a h : reachable maxPerIP (Some a) h -> 0 < ac_MaxTotalConnections a ->
  count serving (ho_conns h) <= ac_MaxTotalConnections a - 1.
Proof. intros Hr%reachable_inv Hm. pose proof (hi_seats _ _ _ Hr a eq_refl Hm). lia. Qed.

Definition demo_abuse (cap : Z) : AbuseConfig :=
  mkAbuse cap (5 * Second) 50 Minute (lit "auto") (lit "under-attack") 1 4 [] Minute Second (5 * Second) Minute
    false [] (lit "under-attack") 1 Hour false None DefaultPairMaxPending DefaultSoftCapRatio.

Definition demo_doors (n : Z) (m : gmap str Z) : Doors := set_Inflight (set_IpCounts NewDoors m) n.

(** One address, one handler, from the door to its service under a cap of two. *)
Definition demo_at (inflight : Z) (cl : gset nat) (ph : phase) : House :=
  mkHouse (demo_doors inflight {[ lit "10.0.0.1" := 1 ]}) cl {[ 1%nat := (lit "10.0.0.1", ph) ]}.
Definition demo_house : House := demo_at 0 {[ 1%nat ]} PhServing.

Lemma then_step maxPerIP a h1 h2 h3 : reachable maxPerIP a h1 -> house_step maxPerIP a h1 h2 -> h2 = h3 -> reachable maxPerIP a h3.
Proof. intros H1 H2 <-. eapply rtc_r; [exact H1|exact H2]. Qed.

Lemma demo_reachable : reachable 3 (Some (demo_abuse 2)) demo_house.
Proof.
  assert (reachable 3 (Some (demo_abuse 2)) (demo_at 0 ∅ PhArrived)) as H1.
  { eapply (then_step _ _ opened); [apply rtc_refl|by apply (HArrive _ _ _ 1%nat (lit "10.0.0.1"))|by vm_compute]. }
  assert (reachable 3 (Some (demo_abuse 2)) (demo_at 0 ∅ PhCleared)) as H2.
  { eapply then_step; [exact H1|by apply (HCheck _ _ _ 1%nat (lit "10.0.0.1"))|by vm_compute]. }
  assert (reachable 3 (Some (demo_abuse 2)) (demo_at 1 ∅ PhHandshake)) as H3.
  { eapply then_step; [exact H2|by apply (HEnter _ _ _ 1%nat (lit "10.0.0.1"))|by vm_compute]. }
  assert (reachable 3 (Some (demo_abuse 2)) (demo_at 1 {[ 1%nat ]} PhJoined)) as H4.
  { eapply then_step; [exact H3|by apply (HRegister _ _ _ 1%nat (lit "10.0.0.1"))|by vm_compute]. }
  assert (reachable 3 (Some (demo_abuse 2)) (demo_at 0 {[ 1%nat ]} PhSettled)) as H5.
  { eapply then_step; [exact H4|by apply (HSettle _ _ _ 1%nat (lit "10.0.0.1"))|by vm_compute]. }
  eapply then_step; [exact H5|by apply (HRecheck _ _ _ 1%nat (lit "10.0.0.1"))|by vm_compute].
Qed.

Lemma slots_are_exact_witness : slots (ho_doors demo_house) (lit "10.0.0.1") = 1.
Proof.
  destruct (slots_are_exact 3 (Some (demo_abuse 2)) demo_house demo_reachable) as [H _].
  destruct (H (lit "10.0.0.1")) as [E _]. exact E.
Defined.

Lemma last_seat_is_never_taken_witness : count serving (ho_conns demo_house) <= 1.
Proof. apply (last_seat_is_never_taken 3 (demo_abuse 2) demo_house demo_reachable). reflexivity. Defined.

Definition demo_dial : Dial :=
  mkDial false (lit "10.0.0.1") false false true true [] false false [] [].
Definition demo_door_config : DoorConfig := mkDoorConfig true false Second 3 (Some (demo_abuse 2)).

Lemma refusal_holds_nothing_witness :
  d_Inflight (po_Doors (ServeWS (U := sample_unicode) demo_door_config 100 100 2 demo_dial (mkPorch NewDoors None None)).1.2) = 0.
Proof.
  pose proof (refusal_holds_nothing (U := sample_unicode) demo_door_config 100 100 2 demo_dial (mkPorch NewDoors None None)
    (Some (503, Some 5)) _ [NoteHTTP 503] eq_refl) as H.
  apply H. apply map_Forall_empty.
Defined.
