(* ===== verification/Passkeys.v ===== *)
(** The passkey store and its ceremonies ([server/webauthn_store.go],
    [server/webauthn_http.go], [server/passkey_lib.go]): enrollment tickets, the
    credentials of each role, the sign counters, and the checks around the
    WebAuthn library.  The file is its decoded content; a mutation loads it,
    changes it and replaces it atomically, so a failed write leaves the old
    file.  The library's own verification is a parameter. *)

From Stdlib Require Import Sorted.
From S2P Require Import Prelude Bytes Sha2 Utf8 Guard Attack Admit.
Local Open Scope Z_scope.

(** * base64.RawURLEncoding *)

Definition b64_char (n : Z) : ascii :=
  if n <? 26 then byte_of (65 + n)
  else if n <? 52 then byte_of (71 + n)
  else if n <? 62 then byte_of (n - 4)
  else if n =? 62 then "-"%char else "_"%char.

Definition b64_val (c : ascii) : option Z :=
  let v := byte_val c in
  if (65 <=? v) && (v <=? 90) then Some (v - 65)
  else if (97 <=? v) && (v <=? 122) then Some (v - 71)
  else if (48 <=? v) && (v <=? 57) then Some (v + 4)
  else if v =? 45 then Some 62 else if v =? 95 then Some 63 else None.

Fixpoint b64_encode (s : str) : str :=
  match s with
  | a :: b :: c :: t =>
      let n := byte_val a * 65536 + byte_val b * 256 + byte_val c in
      b64_char (n / 262144) :: b64_char (n / 4096 mod 64) :: b64_char (n / 64 mod 64) :: b64_char (n mod 64) :: b64_encode t
  | [a; b] =>
      let n := byte_val a * 65536 + byte_val b * 256 in
      [b64_char (n / 262144); b64_char (n / 4096 mod 64); b64_char (n / 64 mod 64)]
  | [a] => let n := byte_val a * 65536 in [b64_char (n / 262144); b64_char (n / 4096 mod 64)]
  | [] => []
  end.

(** The digits of a text; line breaks are skipped. *)
Fixpoint b64_digits (s : str) : option (list Z) :=
  match s with
  | [] => Some []
  | c :: t =>
      if (byte_val c =? 10) || (byte_val c =? 13) then b64_digits t
      else match b64_val c, b64_digits t with Some n, Some ns => Some (n :: ns) | _, _ => None end
  end.

Fixpoint b64_bytes (ns : list Z) : option str :=
  match ns with
  | a :: b :: c :: d :: t =>
      let n := a * 262144 + b * 4096 + c * 64 + d in
      match b64_bytes t with
      | Some s => Some (byte_of (n / 65536) :: byte_of (n / 256 mod 256) :: byte_of (n mod 256) :: s)
      | None => None
      end
  | [a; b; c] => let n := a * 262144 + b * 4096 + c * 64 in Some [byte_of (n / 65536); byte_of (n / 256 mod 256)]
  | [a; b] => Some [byte_of ((a * 262144 + b * 4096) / 65536)]
  | [_] => None
  | [] => Some []
  end.

Definition b64_decode (s : str) : option str := match b64_digits s with Some ns => b64_bytes ns | None => None end.

(** * The file *)

Record WAStoredCred := mkCred {
  wc_CredentialID : str;
  wc_PublicKey : str;
  wc_SignCount : Z;
  wc_BackupEligible : bool;
  wc_BackupState : bool;
  wc_Label : str;
  wc_AttFormat : str
}.

Record WAPending := mkWAPending {
  wp_Code : str;
  wp_Role : str;
  wp_Label : str;
  wp_ExpiresAt : time;
  wp_Challenge : str;
  wp_Used : bool
}.

Record webauthnFile := mkWAFile {
  wf_Pending : list WAPending;
  wf_Credentials : gmap str (list WAStoredCred)
}.

(** What is at the path: nothing (or an empty file), a file of this version, or
    one that does not parse or has another version. *)
Inductive wa_disk := WMissing | WFile (f : webauthnFile) | WRefused.

Inductive wa_error :=
| TicketUnknown
| TicketUsed
| TicketBound
| CredentialExists
| MissingRole
| EntropyFailed
| CounterNotIncreasing
| CredentialMissing
| StoreBroken
| SaveFailed
| PasskeyError.

Definition loadFile (d : wa_disk) : option webauthnFile :=
  match d with
  | WMissing => Some (mkWAFile [] ∅)
  | WFile f => Some f
  | WRefused => None
  end.

(** [saved]: the atomic write succeeds. *)
Definition mutate {A} (saved : bool) (d : wa_disk) (fn : webauthnFile -> res wa_error (A * webauthnFile))
    : res wa_error A * wa_disk :=
  match loadFile d with
  | None => (Err StoreBroken, d)
  | Some f =>
      match fn f with
      | Err e => (Err e, d)
      | Ok (a, f') => if saved then (Ok a, WFile f') else (Err SaveFailed, d)
      end
  end.

Definition findPending (now : time) (f : webauthnFile) (code : str) : res wa_error WAPending :=
  match List.find (fun p => str_eqb (wp_Code p) code) (wf_Pending f) with
  | Some p => if wp_Used p then Err TicketUsed else if After now (wp_ExpiresAt p) then Err TicketUnknown else Ok p
  | None => Err TicketUnknown
  end.

(** The first ticket or credential that matches, changed in place. *)
Fixpoint update_first {A} (p : A -> bool) (g : A -> A) (l : list A) : list A :=
  match l with
  | [] => []
  | x :: l' => if p x then g x :: l' else x :: update_first p g l'
  end.

Definition CreatePendingTicket (saved : bool) (now : time) (d : wa_disk) (role label : str) (ttl : duration) (raw : option str)
    : res wa_error str * wa_disk :=
  match role with
  | [] => (Err MissingRole, d)
  | _ =>
      match raw with
      | None => (Err EntropyFailed, d)
      | Some b =>
          let code := hex_encode b in
          mutate saved d (fun f =>
            Ok (code, mkWAFile (wf_Pending f ++ [mkWAPending code role label (Add now ttl) [] false]) (wf_Credentials f)))
      end
  end.

Definition BindChallenge (saved : bool) (now : time) (d : wa_disk) (code challengeB64 : str) : res wa_error str * wa_disk :=
  mutate saved d (fun f =>
    match findPending now f code with
    | Err e => Err e
    | Ok p =>
        match wp_Challenge p with
        | [] =>
            Ok (wp_Role p,
                mkWAFile (update_first (fun q => str_eqb (wp_Code q) code)
                            (fun q => mkWAPending (wp_Code q) (wp_Role q) (wp_Label q) (wp_ExpiresAt q) challengeB64 (wp_Used q))
                            (wf_Pending f)) (wf_Credentials f))
        | _ => Err TicketBound
        end
    end).

Definition role_creds (f : webauthnFile) (role : str) : list WAStoredCred := default [] (wf_Credentials f !! role).

Definition CompleteEnrollment (saved : bool) (now : time) (d : wa_disk) (code : str) (cred : WAStoredCred) : res wa_error unit * wa_disk :=
  mutate saved d (fun f =>
    match findPending now f code with
    | Err e => Err e
    | Ok pending =>
        let cred := mkCred (wc_CredentialID cred) (wc_PublicKey cred) (wc_SignCount cred) (wc_BackupEligible cred)
                      (wc_BackupState cred) (wp_Label pending) (wc_AttFormat cred) in
        let list := role_creds f (wp_Role pending) in
        if existsb (fun ex => str_eqb (wc_CredentialID ex) (wc_CredentialID cred)) list then Err CredentialExists
        else
          Ok (tt, mkWAFile (update_first (fun q => str_eqb (wp_Code q) code)
                              (fun q => mkWAPending (wp_Code q) (wp_Role q) (wp_Label q) (wp_ExpiresAt q) (wp_Challenge q) true)
                              (wf_Pending f))
                   (<[wp_Role pending := list ++ [cred]]> (wf_Credentials f)))
    end).

Definition PendingInfo (now : time) (d : wa_disk) (code : str) : res wa_error (str * str) :=
  match loadFile d with
  | None => Err StoreBroken
  | Some f => match findPending now f code with Ok p => Ok (wp_Role p, wp_Challenge p) | Err e => Err e end
  end.

Definition Credential (d : wa_disk) (role credentialID : str) : option WAStoredCred :=
  match loadFile d with
  | None => None
  | Some f => List.find (fun c => str_eqb (wc_CredentialID c) credentialID) (role_creds f role)
  end.

Definition set_SignCount (c : WAStoredCred) (n : Z) : WAStoredCred :=
  mkCred (wc_CredentialID c) (wc_PublicKey c) n (wc_BackupEligible c) (wc_BackupState c) (wc_Label c) (wc_AttFormat c).

Definition UpdateSignCount (saved : bool) (d : wa_disk) (role credentialID : str) (count : Z) : res wa_error unit * wa_disk :=
  mutate saved d (fun f =>
    let is_it c := str_eqb (wc_CredentialID c) credentialID in
    match List.find is_it (role_creds f role) with
    | None => Err CredentialMissing
    | Some c =>
        if negb (count =? 0) && negb (wc_SignCount c =? 0) && (count <=? wc_SignCount c) then Err CounterNotIncreasing
        else if count =? 0 then Ok (tt, f)
        else Ok (tt, mkWAFile (wf_Pending f)
                       (<[role := update_first is_it (fun c => set_SignCount c count) (role_creds f role)]> (wf_Credentials f)))
    end).

Definition PruneExpired (saved : bool) (now : time) (d : wa_disk) : wa_disk :=
  (mutate saved d (fun f =>
     Ok (tt, mkWAFile (List.filter (fun p => negb (wp_Used p || After now (wp_ExpiresAt p))) (wf_Pending f)) (wf_Credentials f)))).2.

(** * The library and its wrappers *)

(** What [go-webauthn] is asked at a login: the decoded key and id, the stored
    backup flags, the user id and challenge of the session, and the ceremony's
    three fields.  [None] is a refusal; otherwise the counter and whether the
    authenticator verified the user. *)
Record loginRequest := mkLogin {
  lq_PublicKey : str;
  lq_RawID : str;
  lq_BackupEligible : bool;
  lq_BackupState : bool;
  lq_UserID : str;
  lq_Challenge : str;
  lq_AuthData : str;
  lq_ClientData : str;
  lq_Sig : str
}.

(** A registration the library accepted: the raw id, the key, the counter, the
    backup flags and the format, and whether the user was verified. *)
Record creation := mkCreation {
  cr_ID : str;
  cr_PublicKey : str;
  cr_Counter : Z;
  cr_BackupEligible : bool;
  cr_BackupState : bool;
  cr_AttFormat : str;
  cr_UserVerified : bool
}.

Class WebAuthn := {
  ValidateLogin : loginRequest -> option (Z * bool);
  (* client data, attestation object, claimed id, session challenge, user id *)
  CreateCredential : str -> str -> str -> str -> str -> option creation
}.

Definition maxCredentialIDLen : Z := 1023.

Definition ChallengeFromNonce (nonceHex : str) : str := sha256 nonceHex.

Section ceremonies.
Context {W : WebAuthn}.
Variable enabled : bool.       (* WAConfig.Enabled, and then WebAuth != nil *)

(** The counter of a valid assertion. *)
Definition verifyAssertionLib (stored : WAStoredCred) (nonceHex authDataB64 clientDataB64 sigB64 role : str) : option Z :=
  if negb enabled then None
  else
    match b64_decode (wc_PublicKey stored), b64_decode (wc_CredentialID stored) with
    | Some key, Some rawID =>
        if (slen rawID =? 0) || (maxCredentialIDLen <? slen rawID) then None
        else
          let uid := sha256 (role ++ byte_of 0 :: wc_CredentialID stored) in
          match ValidateLogin (mkLogin key rawID (wc_BackupEligible stored) (wc_BackupState stored) uid
                                 (b64_encode (ChallengeFromNonce nonceHex)) authDataB64 clientDataB64 sigB64) with
          | Some (count, true) => Some count
          | _ => None
          end
    | _, _ => None
    end.

Definition parseCreationLib (clientDataB64 attObjB64 wantChallengeB64 claimedID : str) : option WAStoredCred :=
  if negb enabled then None
  else
    let uid := sha256 (lit "enroll" ++ byte_of 0 :: wantChallengeB64) in
    match CreateCredential clientDataB64 attObjB64 claimedID wantChallengeB64 uid with
    | None => None
    | Some cred =>
        let gotID := b64_encode (cr_ID cred) in
        if negb (str_eqb gotID claimedID) then None
        else if (slen (cr_ID cred) =? 0) || (maxCredentialIDLen <? slen (cr_ID cred)) then None
        else if negb (cr_UserVerified cred) then None
        else Some (mkCred gotID (b64_encode (cr_PublicKey cred)) (cr_Counter cred) (cr_BackupEligible cred)
                     (cr_BackupState cred) [] (cr_AttFormat cred))
    end.

(** One verified assertion against the stored counter, and the counter's new
    value on disk: the shared end of the login and of the pairing. *)
Definition accept_counter (saved : bool) (d : wa_disk) (role : str) (cred : WAStoredCred) (counter : Z)
    : res wa_error unit * wa_disk :=
  if negb ((counter =? 0) || (wc_SignCount cred =? 0) || (wc_SignCount cred <? counter)) then (Err CounterNotIncreasing, d)
  else if counter =? 0 then (Ok tt, d)
  else UpdateSignCount saved d role (wc_CredentialID cred) counter.

(** * Enrollment over HTTP *)

Definition enrollBeginCooldown : duration := 30 * Second.
Definition enrollFinishCooldown : duration := 10 * Second.

(** The statuses of [enrollFailure]. *)
Definition enrollFailure (e : wa_error) : Z :=
  match e with
  | TicketUnknown | TicketUsed | TicketBound | CredentialExists | PasskeyError => 403
  | _ => 500
  end.

(** An answer without a Retry-After. *)
Definition plain (status : Z) : Z * option Z := (status, None).

(** The gate's refusal ([checkHTTPPass]). *)
Definition gate_refusal (rj : RejectStat) : (Z * option Z) * RejectStat := ((429, Some 5), addReject rj rejectGateCause).

(** The answer, and the challenge handed out on success.  [passed] is the
    answer of the HTTP gate, [pruned] and [saved] the two writes. *)
Definition handleEnrollBegin (has_store get passed pruned saved : bool) (now : time) (d : wa_disk) (cool : CooldownMap)
    (rj : RejectStat) (ip code : str) (raw : option str)
    : (Z * option Z) * option str * wa_disk * CooldownMap * RejectStat :=
  if negb (has_store && enabled) then (plain 503, None, d, cool, rj)
  else if negb get then (plain 405, None, d, cool, rj)
  else match code with
  | [] => (plain 400, None, d, cool, rj)
  | _ =>
      let '(ok, cool) := cooldown_Allow cool now ip enrollBeginCooldown in
      if negb ok then let '(r, rj) := rejectCooldown rj cool now ip enrollBeginCooldown in (r, None, d, cool, rj)
      else if negb passed then let '(r, rj) := gate_refusal rj in (r, None, d, cool, rj)
      else
        let d := PruneExpired pruned now d in
        match raw with
        | None => (plain 500, None, d, cool, rj)
        | Some b =>
            let challenge := b64_encode b in
            match BindChallenge saved now d code challenge with
            | (Err e, d) => (plain (enrollFailure e), None, d, cool, rj)
            | (Ok _, d) => (plain 200, Some challenge, d, cool, rj)
            end
        end
  end.

Record finishRequest := mkFinish { fq_Ticket : str; fq_ID : str; fq_ClientDataJSON : str; fq_AttestationObject : str }.

Definition nonempty (s : str) : bool := match s with [] => false | _ => true end.

Definition handleEnrollFinish (has_store post passed saved : bool) (now : time) (d : wa_disk) (cool : CooldownMap)
    (rj : RejectStat) (ip : str) (payload : option finishRequest) : (Z * option Z) * wa_disk * CooldownMap * RejectStat :=
  if negb (has_store && enabled) then (plain 503, d, cool, rj)
  else if negb post then (plain 405, d, cool, rj)
  else
    let '(ok, cool) := cooldown_Allow cool now ip enrollFinishCooldown in
    if negb ok then let '(r, rj) := rejectCooldown rj cool now ip enrollFinishCooldown in (r, d, cool, rj)
    else if negb passed then let '(r, rj) := gate_refusal rj in (r, d, cool, rj)
    else
      match payload with
      | None => (plain 400, d, cool, rj)
      | Some q =>
          if negb (nonempty (fq_Ticket q) && nonempty (fq_ID q) && nonempty (fq_ClientDataJSON q) && nonempty (fq_AttestationObject q))
          then (plain 400, d, cool, rj)
          else
            match PendingInfo now d (fq_Ticket q) with
            | Err e => (plain (enrollFailure e), d, cool, rj)
            | Ok (_, bound) =>
                match parseCreationLib (fq_ClientDataJSON q) (fq_AttestationObject q) bound (fq_ID q) with
                | None => (plain (enrollFailure PasskeyError), d, cool, rj)
                | Some cred =>
                    match CompleteEnrollment saved now d (fq_Ticket q) cred with
                    | (Err e, d) => (plain (enrollFailure e), d, cool, rj)
                    | (Ok _, d) => (plain 200, d, cool, rj)
                    end
                end
            end
      end.
End ceremonies.

(** * Theorems *)

(** ** base64 *)

Lemma b64_val_char n : 0 <= n < 64 -> b64_val (b64_char n) = Some n /\ byte_val (b64_char n) <> 10 /\ byte_val (b64_char n) <> 13.
Proof.
  intros Hn. assert (forallb (fun n => match b64_val (b64_char n) with Some m => (m =? n) && negb (byte_val (b64_char n) =? 10) && negb (byte_val (b64_char n) =? 13) | None => false end)
    (map Z.of_nat (seq 0 64)) = true) as H by (vm_compute; reflexivity).
  rewrite forallb_forall in H. specialize (H n). destruct (b64_val (b64_char n)) as [m|].
  - assert (In n (map Z.of_nat (seq 0 64))) as Hin by (apply in_map_iff; exists (Z.to_nat n); split; [lia|apply in_seq; lia]).
    specialize (H Hin). split; [f_equal; lia|lia].
  - exfalso. assert (In n (map Z.of_nat (seq 0 64))) as Hin by (apply in_map_iff; exists (Z.to_nat n); split; [lia|apply in_seq; lia]).
    by specialize (H Hin).
Qed.

Lemma b64_digits_char n s : 0 <= n < 64 -> b64_digits (b64_char n :: s) = (cons n) <$> b64_digits s.
Proof.
  intros Hn. cbn [b64_digits]. destruct (b64_val_char n Hn) as (-> & H1 & H2). replace ((_ =? 10) || _) with false by lia.
  by destruct (b64_digits s).
Qed.

Lemma three_ind (P : str -> Prop) : P [] -> (forall a, P [a]) -> (forall a b, P [a; b]) -> (forall a b c t, P t -> P (a :: b :: c :: t)) ->
  forall s, P s.
Proof.
  intros H0 H1 H2 H3. fix IH 1. intros [|a [|b [|c t]]]; [exact H0|apply H1|apply H2|apply H3, IH].
Qed.

Lemma b64_decode_encode s : b64_decode (b64_encode s) = Some s.
Proof.
  unfold b64_decode.
  induction s as [|a|a b|a b c t IH] using three_ind; cbn [b64_encode]; cbv zeta; [done|..];
    rewrite ?b64_digits_char by (pose proof (byte_val_range a); try pose proof (byte_val_range b); try pose proof (byte_val_range c);
       Z.to_euclidean_division_equations; lia); cbn [b64_digits fmap option_fmap option_map].
  - cbn [b64_bytes]. do 2 f_equal. apply byte_of_eq. pose proof (byte_val_range a). Z.to_euclidean_division_equations; lia.
  - cbn [b64_bytes]. pose proof (byte_val_range a). pose proof (byte_val_range b).
    f_equal. f_equal; [|f_equal]; apply byte_of_eq; Z.to_euclidean_division_equations; lia.
  - destruct (b64_digits (b64_encode t)) as [ns|] eqn:E; [|done]. cbn [fmap option_fmap option_map]. cbn [b64_bytes]. rewrite IH.
    pose proof (byte_val_range a). pose proof (byte_val_range b). pose proof (byte_val_range c).
    set (n := byte_val a * 65536 + byte_val b * 256 + byte_val c).
    assert (n / 262144 * 262144 + n / 4096 mod 64 * 4096 + n / 64 mod 64 * 64 + n mod 64 = n) as -> by (Z.to_euclidean_division_equations; lia).
    f_equal. f_equal; [|f_equal; [|f_equal]]; apply byte_of_eq; subst n; Z.to_euclidean_division_equations; lia.
Qed.

(** ** In-place updates *)

Lemma update_first_find {A} (p q : A -> bool) (g : A -> A) l : (forall x, p (g x) = p x) -> (forall x, q (g x) = q x) ->
  (forall x, p x = true -> q x = true -> False) -> List.find p (update_first q g l) = List.find p l.
Proof.
  intros Hp Hq Hd. induction l as [|x l IH]; [done|]. cbn [update_first]. destruct (q x) eqn:Eq; cbn [List.find].
  - rewrite Hp. destruct (p x) eqn:Ep; [|done]. by destruct (Hd x).
  - destruct (p x); [done|exact IH].
Qed.

Lemma update_first_hit {A} (p : A -> bool) (g : A -> A) l x : (forall x, p (g x) = p x) -> List.find p l = Some x ->
  List.find p (update_first p g l) = Some (g x).
Proof.
  intros Hp. induction l as [|y l IH]; [done|]. cbn [List.find update_first]. destruct (p y) eqn:Ey.
  - intros [= ->]. cbn [List.find]. by rewrite Hp, Ey.
  - intros H. cbn [List.find]. rewrite Ey. by apply IH.
Qed.

Lemma update_first_map {A B} (f : A -> B) p g (l : list A) : (forall x, f (g x) = f x) -> map f (update_first p g l) = map f l.
Proof. intros Hf. induction l as [|x l IH]; [done|]. cbn [update_first]. destruct (p x); cbn [map]; [by rewrite Hf|by rewrite IH]. Qed.

Lemma find_app_some {A} (p : A -> bool) l1 l2 x : List.find p l1 = Some x -> List.find p (l1 ++ l2) = Some x.
Proof. induction l1 as [|y l1 IH]; [done|]. cbn [app List.find]. by destruct (p y). Qed.

Lemma find_elem {A} (p : A -> bool) l x : List.find p l = Some x -> x ∈ l /\ p x = true.
Proof. intros H. apply find_some in H as [H1 H2]. split; [by apply list_elem_of_In|done]. Qed.

(** ** Runs of the store *)

(** What the server and the administrator do with the store.  [ECounter] is the
    end of an assertion that verified against [cred] as it was read before. *)
Inductive wa_event :=
| ECreate (saved : bool) (now : time) (role label : str) (ttl : duration) (raw : option str)
| EBind (saved : bool) (now : time) (code challenge : str)
| EComplete (saved : bool) (now : time) (code : str) (cred : WAStoredCred)
| EPrune (saved : bool) (now : time)
| ECounter (saved : bool) (role : str) (cred : WAStoredCred) (counter : Z).

Definition wa_step (d : wa_disk) (ev : wa_event) : bool * wa_disk :=
  match ev with
  | ECreate saved now role label ttl raw => let '(r, d) := CreatePendingTicket saved now d role label ttl raw in (is_ok r, d)
  | EBind saved now code challenge => let '(r, d) := BindChallenge saved now d code challenge in (is_ok r, d)
  | EComplete saved now code cred => let '(r, d) := CompleteEnrollment saved now d code cred in (is_ok r, d)
  | EPrune saved now => (true, PruneExpired saved now d)
  | ECounter saved role cred counter => let '(r, d) := accept_counter saved d role cred counter in (is_ok r, d)
  end.

(** The events that succeeded, in order, and the final store. *)
Fixpoint wa_run (d : wa_disk) (evs : list wa_event) : list wa_event * wa_disk :=
  match evs with
  | [] => ([], d)
  | ev :: evs' =>
      let '(ok, d1) := wa_step d ev in
      let '(done_, d2) := wa_run d1 evs' in (if ok then ev :: done_ else done_, d2)
  end.

Definition stored_count (d : wa_disk) (role cid : str) : option Z := wc_SignCount <$> Credential d role cid.

(** The non-zero counters accepted for one credential. *)
Definition counters_of (role cid : str) (evs : list wa_event) : list Z :=
  omap (fun ev => match ev with
    | ECounter _ r cred n => if str_eqb r role && str_eqb (wc_CredentialID cred) cid && negb (n =? 0) then Some n else None
    | _ => None
    end) evs.

Lemma mutate_cases {A} saved d (fn : webauthnFile -> res wa_error (A * webauthnFile)) :
  (exists e, mutate saved d fn = (Err e, d)) \/
  exists f a f', loadFile d = Some f /\ fn f = Ok (a, f') /\ mutate saved d fn = (Ok a, WFile f').
Proof.
  unfold mutate. destruct (loadFile d) as [f|] eqn:El; [|left; by eexists]. destruct (fn f) as [[a f']|e] eqn:Ef; [|left; by eexists].
  destruct saved; [right; by exists f, a, f'|left; by eexists].
Qed.

Definition creds (d : wa_disk) : gmap str (list WAStoredCred) := match loadFile d with Some f => wf_Credentials f | None => ∅ end.
Definition creds_of (d : wa_disk) (role : str) : list WAStoredCred := default [] (creds d !! role).
Definition has_id (cid : str) (c : WAStoredCred) : bool := str_eqb (wc_CredentialID c) cid.

Lemma Credential_creds d role cid : Credential d role cid = List.find (has_id cid) (creds_of d role).
Proof. unfold Credential, creds_of, creds, role_creds. destruct (loadFile d); [done|]. by rewrite lookup_empty. Qed.

Lemma has_id_both cid cid' c : has_id cid c = true -> has_id cid' c = true -> cid = cid'.
Proof. unfold has_id. intros H1%str_eqb_eq H2%str_eqb_eq. congruence. Qed.

(** What one event does to the credentials. *)
Inductive creds_step (d d' : wa_disk) : wa_event -> bool -> Prop :=
| cs_same ev ok : creds d' = creds d -> (forall s n c cr, ev = EComplete s n c cr -> ok = false) ->
    (forall s r cr k, ev = ECounter s r cr k -> ok = true -> k = 0) -> creds_step d d' ev ok
| cs_enroll saved now code cred role label :
    creds d' = <[role := creds_of d role ++ [mkCred (wc_CredentialID cred) (wc_PublicKey cred) (wc_SignCount cred)
                   (wc_BackupEligible cred) (wc_BackupState cred) label (wc_AttFormat cred)]]> (creds d) ->
    Forall (fun c => has_id (wc_CredentialID cred) c = false) (creds_of d role) ->
    creds_step d d' (EComplete saved now code cred) true
| cs_count saved role cred k c :
    k <> 0 -> List.find (has_id (wc_CredentialID cred)) (creds_of d role) = Some c -> wc_SignCount c = 0 \/ wc_SignCount c < k ->
    creds d' = <[role := update_first (has_id (wc_CredentialID cred)) (fun c => set_SignCount c k) (creds_of d role)]> (creds d) ->
    creds_step d d' (ECounter saved role cred k) true.

(** Split on the outcome of the mutation in the goal. *)
Ltac split_mutate :=
  match goal with
  | |- context [mutate ?saved ?d ?fn] =>
      let E := fresh in let Hl := fresh "Hl" in let Hf := fresh "Hf" in
      destruct (mutate_cases saved d fn) as [[? E]|(? & ? & ? & Hl & Hf & E)]; rewrite E; clear E; cbn [fst snd is_ok]
  end.

Lemma step_creds d ev : creds_step d (wa_step d ev).2 ev (wa_step d ev).1.
Proof.
  destruct ev as [saved now r label ttl raw|saved now code ch|saved now code cred|saved now|saved r cred k]; cbn [wa_step].
  - unfold CreatePendingTicket. destruct r; [by apply cs_same|]. destruct raw; [|by apply cs_same]. split_mutate; [by apply cs_same|].
    injection Hf as <- <-. apply cs_same; [|done..]. unfold creds. by rewrite Hl.
  - unfold BindChallenge. split_mutate; [by apply cs_same|]. apply cs_same; [|done..].
    destruct (findPending _ _ _) as [p|]; [|done]. destruct (wp_Challenge p); [|done]. injection Hf as <- <-. unfold creds. by rewrite Hl.
  - unfold CompleteEnrollment. split_mutate; [by apply cs_same|]. destruct (findPending _ _ _) as [p|]; [|done].
    destruct (existsb _ _) eqn:Ee; [done|]. injection Hf as <- <-. eapply cs_enroll.
    + unfold creds_of, creds. rewrite Hl. cbn [loadFile wf_Credentials]. reflexivity.
    + apply Forall_forall. intros c Hc. unfold creds_of, creds in Hc. rewrite Hl in Hc. unfold has_id.
      destruct (str_eqb _ _) eqn:E; [|done]. exfalso. apply not_true_iff_false in Ee. apply Ee, existsb_exists. exists c.
      split; [by apply list_elem_of_In|exact E].
  - unfold PruneExpired. split_mutate; [by apply cs_same|]. injection Hf as <- <-. apply cs_same; [|done..]. unfold creds. by rewrite Hl.
  - unfold accept_counter. destruct (negb _); [by apply cs_same|]. destruct (k =? 0) eqn:Ek; [apply cs_same; [done..|]; intros; simplify_eq; lia|].
    unfold UpdateSignCount. cbv zeta. split_mutate; [by apply cs_same|]. rewrite Ek in Hf. cbn [negb andb] in Hf.
    destruct (List.find _ _) as [c|] eqn:Ec; [|done]. destruct (_ && _) eqn:Eg; [done|]. injection Hf as <- <-.
    apply (cs_count _ _ _ _ _ _ c); [lia| |lia|].
    + unfold creds_of, creds. rewrite Hl. exact Ec.
    + unfold creds_of, creds. rewrite Hl. reflexivity.
Qed.

(** A stored counter changes only by its own accepted assertions, upwards. *)
Lemma step_count d ev role cid n : stored_count d role cid = Some n ->
  match ev with
  | ECounter _ r cred k =>
      if str_eqb r role && str_eqb (wc_CredentialID cred) cid && negb (k =? 0) && (wa_step d ev).1
      then stored_count (wa_step d ev).2 role cid = Some k /\ (n = 0 \/ n < k)
      else stored_count (wa_step d ev).2 role cid = Some n
  | _ => stored_count (wa_step d ev).2 role cid = Some n
  end.
Proof.
  unfold stored_count. rewrite !Credential_creds. intros (c0 & Hc0 & ->)%fmap_Some.
  pose proof (step_creds d ev) as Hcs. destruct (wa_step d ev) as [ok0 d']; cbn [fst snd] in *.
  destruct Hcs as [ev0 ok Hs H1 H2|saved now code cred r label Hs Hf|saved r cred k c Hk Hc Hle Hs].
  - unfold creds_of. rewrite Hs. fold (creds_of d role). rewrite Hc0. cbn. destruct ev0; try done.
    destruct (_ && _ && _ && _) eqn:E; [|done]. apply andb_true_iff in E as [E ->]. specialize (H2 _ _ _ _ eq_refl eq_refl). lia.
  - unfold creds_of in *. rewrite Hs. destruct (decide (r = role)) as [->|Hne]; [|by rewrite lookup_insert_ne, Hc0].
    rewrite lookup_insert_eq. cbn [default from_option id]. by rewrite (find_app_some _ _ _ _ Hc0).
  - unfold creds_of in *. rewrite Hs. replace (k =? 0) with false by lia. rewrite !andb_true_r. fold (has_id cid cred).
    destruct (str_eqb r role) eqn:Er; cbn [andb].
    + apply str_eqb_eq in Er as ->. rewrite lookup_insert_eq. cbn [default from_option id]. destruct (has_id cid cred) eqn:Eid.
      * apply str_eqb_eq in Eid as <-. rewrite (update_first_hit _ _ _ c) by done. split; [done|]. congruence.
      * rewrite update_first_find, Hc0; [done..|]. intros x Hx Hx'. rewrite (has_id_both _ _ _ Hx Hx') in Eid.
        unfold has_id in Eid. by rewrite str_eqb_refl in Eid.
    + apply str_eqb_neq in Er. by rewrite lookup_insert_ne, Hc0.
Qed.

(** Counters are 32-bit. *)
Definition counted (ev : wa_event) : Prop :=
  match ev with
  | ECounter _ _ _ k => is_u32 k
  | EComplete _ _ _ cred => is_u32 (wc_SignCount cred)
  | _ => True
  end.

(** Without a stored credential no counter is accepted for it, and one appears
    by enrollment. *)
Lemma step_missing d ev role cid : counted ev -> stored_count d role cid = None ->
  match ev with
  | ECounter _ r cred k => str_eqb r role && str_eqb (wc_CredentialID cred) cid && negb (k =? 0) && (wa_step d ev).1 = false
  | _ => True
  end /\ forall n, stored_count (wa_step d ev).2 role cid = Some n -> 0 <= n.
Proof.
  unfold stored_count. rewrite !Credential_creds. intros Hev Hn%fmap_None.
  pose proof (step_creds d ev) as Hcs. destruct (wa_step d ev) as [ok0 d']; cbn [fst snd] in *.
  destruct Hcs as [ev0 ok Hs H1 H2|saved now code cred r label Hs Hf|saved r cred k c Hk Hc Hle Hs].
  - unfold creds_of in *. rewrite Hs, Hn. split; [|done]. destruct ev0; try done. destruct ok; [|by rewrite andb_false_r].
    specialize (H2 _ _ _ _ eq_refl eq_refl) as ->. by rewrite !andb_false_r.
  - split; [done|]. unfold creds_of in *. rewrite Hs. destruct (decide (r = role)) as [->|Hne]; [|by rewrite lookup_insert_ne, Hn].
    rewrite lookup_insert_eq. cbn [default from_option id]. intros n (c & Hc & ->)%fmap_Some. apply find_elem in Hc as [Hc Hp].
    apply elem_of_app in Hc as [Hc|Hc%list_elem_of_singleton].
    + pose proof (find_none _ _ Hn c (proj1 (list_elem_of_In _ _) Hc)). congruence.
    + subst c. cbn [counted] in Hev. unfold is_u32 in Hev. cbn. lia.
  - unfold creds_of in *. rewrite Hs. destruct (str_eqb r role) eqn:Er; cbn [andb].
    + apply str_eqb_eq in Er as ->. destruct (str_eqb (wc_CredentialID cred) cid) eqn:Eid; [apply str_eqb_eq in Eid as <-; congruence|].
      split; [done|]. rewrite lookup_insert_eq. cbn [default from_option id]. intros n (c' & Hc' & ->)%fmap_Some.
      rewrite update_first_find in Hc'; [congruence|done..|]. intros x Hx Hx'. pose proof (has_id_both _ _ _ Hx Hx') as ->.
      by rewrite str_eqb_refl in Eid.
    + split; [done|]. apply str_eqb_neq in Er. by rewrite lookup_insert_ne, Hn.
Qed.

Definition counter_of (role cid : str) (ev : wa_event) : option Z :=
  match ev with
  | ECounter _ r cred n => if str_eqb r role && str_eqb (wc_CredentialID cred) cid && negb (n =? 0) then Some n else None
  | _ => None
  end.

Lemma counters_cons role cid ok ev evs :
  counters_of role cid (if ok : bool then ev :: evs else evs) =
  match (if ok then counter_of role cid ev else None) with Some k => k :: counters_of role cid evs | None => counters_of role cid evs end.
Proof. by destruct ok. Qed.

Lemma counters_above role cid evs : forall d, Forall counted evs ->
  (forall n, stored_count d role cid = Some n -> 0 <= n) ->
  StronglySorted Z.lt (counters_of role cid (wa_run d evs).1) /\
  forall n, stored_count d role cid = Some n -> Forall (Z.lt n) (counters_of role cid (wa_run d evs).1).
Proof.
  induction evs as [|ev evs IH]; intros d Hev Hd; [split; [constructor|by constructor]|].
  apply Forall_cons in Hev as [Hev Hevs]. cbn [wa_run].
  destruct (stored_count d role cid) as [n|] eqn:En.
  - pose proof (step_count d ev role cid n En) as Hs. specialize (Hd n eq_refl).
    destruct (wa_step d ev) as [ok d1]. cbn [fst snd] in Hs. specialize (IH d1 Hevs). destruct (wa_run d1 evs) as [done_ d2]. cbn [fst] in *.
    rewrite counters_cons.
    assert (stored_count d1 role cid = Some n /\ (if ok then counter_of role cid ev else None) = None \/
            exists k, stored_count d1 role cid = Some k /\ (if ok then counter_of role cid ev else None) = Some k /\ n < k) as [[E1 ->]|(k & E1 & -> & Hk)].
    { destruct ev as [| | | |saved r cred k]; try (left; by destruct ok). cbn [counter_of counted] in *. unfold is_u32 in Hev.
      destruct (str_eqb r role && str_eqb (wc_CredentialID cred) cid && negb (k =? 0)) eqn:E; cbn [andb] in Hs.
      - destruct ok; [|by left]. destruct Hs as [Hs Hk]. right. exists k. split; [done|]. split; [done|]. apply andb_true_iff in E as [_ E]. lia.
      - left. by destruct ok. }
    + destruct (IH ltac:(intros m Hm; congruence)) as [I1 I2]. split; [exact I1|]. intros m [= <-]. by apply I2.
    + destruct (IH ltac:(intros m Hm; assert (m = k) by congruence; lia)) as [I1 I2]. specialize (I2 k E1). split; [by constructor|].
      intros m [= <-]. constructor; [exact Hk|]. eapply Forall_impl; [exact I2|]. intros x. lia.
  - destruct (step_missing d ev role cid Hev En) as [Hm Hn]. destruct (wa_step d ev) as [ok d1]. cbn [fst snd] in *.
    specialize (IH d1 Hevs Hn). destruct (wa_run d1 evs) as [done_ d2]. cbn [fst] in *. rewrite counters_cons.
    assert ((if ok then counter_of role cid ev else None) = None) as ->.
    { destruct ev as [| | | |saved r cred k]; try by destruct ok. destruct ok; [|done]. cbn [counter_of]. rewrite andb_true_r in Hm. by rewrite Hm. }
    destruct IH as [I1 _]. split; [exact I1|done].
Qed.

(** A copied authenticator is caught.  Whatever the interleaving of logins,
    pairings, enrollments and failed writes, and however stale the credential
    each ceremony had read, the non-zero counters accepted for one credential
    strictly increase, above the count stored at the start; so one assertion is
    never accepted twice. *)
Theorem passkey_counters_increase d evs role cid :
  Forall counted evs -> (forall n, stored_count d role cid = Some n -> 0 <= n) ->
  StronglySorted Z.lt (counters_of role cid (wa_run d evs).1) /\
  forall n, stored_count d role cid = Some n -> Forall (Z.lt n) (counters_of role cid (wa_run d evs).1).
Proof. apply counters_above. Qed.

(** A counter of zero is accepted whatever was stored: an authenticator that
    starts to answer zero is not noticed. *)
Lemma zero_counter_passes saved d role cred : accept_counter saved d role cred 0 = (Ok tt, d).
Proof. done. Qed.

(** ** Enrollment *)

Definition enrolled_code (ev : wa_event) : option str := match ev with EComplete _ _ code _ => Some code | _ => None end.
Definition created_code (ev : wa_event) : option str :=
  match ev with ECreate _ _ _ _ _ (Some raw) => Some (hex_encode raw) | _ => None end.

Definition pending_of (d : wa_disk) : list WAPending := match loadFile d with Some f => wf_Pending f | None => [] end.

(** [seen] are the codes handed out so far, [used] the ones that enrolled. *)
Record enroll_inv (seen used : list str) (l : list WAPending) : Prop := {
  en_codes : forall p, p ∈ l -> wp_Code p ∈ seen;
  en_used : forall p, p ∈ l -> wp_Code p ∈ used -> wp_Used p = true;
  en_nodup : NoDup (map wp_Code l);
  en_sub : forall code, code ∈ used -> code ∈ seen
}.

Lemma update_elem {A} (p : A -> bool) g (l : list A) y : y ∈ update_first p g l -> y ∈ l \/ exists x, x ∈ l /\ p x = true /\ y = g x.
Proof.
  induction l as [|x l IH]; cbn [update_first]; [by intros ?%elem_of_nil|]. destruct (p x) eqn:E.
  - intros [->|H]%elem_of_cons; [right; exists x; split; [by left|done]|left; by right].
  - intros [->|H]%elem_of_cons; [left; by left|]. destruct (IH H) as [?|(z & ? & ? & ?)]; [left; by right|right; exists z; split; [by right|done]].
Qed.

(** In a list without two tickets of one code, the marked ticket is the only
    one of its code. *)
Lemma update_unique code (g : WAPending -> WAPending) l : NoDup (map wp_Code l) ->
  (forall q, wp_Code (g q) = wp_Code q) ->
  forall y, y ∈ update_first (fun q => str_eqb (wp_Code q) code) g l -> wp_Code y = code -> exists x, x ∈ l /\ y = g x.
Proof.
  intros Hn Hg. induction l as [|x l IH]; cbn [update_first]; intros y; [by intros ?%elem_of_nil|].
  cbn [map] in Hn. apply NoDup_cons in Hn as [Hx Hn]. destruct (str_eqb (wp_Code x) code) eqn:E.
  - intros [->|H]%elem_of_cons Hc; [exists x; split; [by left|done]|]. exfalso. apply Hx. apply str_eqb_eq in E. rewrite E, <- Hc.
    apply list_elem_of_fmap. by exists y.
  - intros [->|H]%elem_of_cons Hc; [by rewrite Hc, str_eqb_refl in E|]. destruct (IH Hn y H Hc) as (z & Hz & ->).
    exists z. split; [by right|done].
Qed.

Lemma findPending_ok now f code p : findPending now f code = Ok p ->
  p ∈ wf_Pending f /\ wp_Code p = code /\ wp_Used p = false /\ After now (wp_ExpiresAt p) = false.
Proof.
  unfold findPending. destruct (List.find _ _) as [q|] eqn:E; [|done]. apply find_elem in E as [H1 H2%str_eqb_eq].
  destruct (wp_Used q) eqn:Eu; [done|]. destruct (After _ _) eqn:Ea; [done|]. by intros [= <-].
Qed.

Lemma NoDup_map_filter {A B} (h : A -> B) (p : A -> bool) l : NoDup (map h l) -> NoDup (map h (List.filter p l)).
Proof.
  induction l as [|x l IH]; [done|]. cbn [map List.filter]. intros [Hx Hn]%NoDup_cons.
  destruct (p x); [|by apply IH]. cbn [map]. apply NoDup_cons. split; [|by apply IH]. intros Hin. apply Hx.
  apply list_elem_of_fmap in Hin as (y & E & Hy). apply list_elem_of_In, filter_In in Hy as [Hy _].
  apply list_elem_of_fmap. exists y. split; [done|by apply list_elem_of_In].
Qed.

Lemma enroll_step seen used d ev : enroll_inv seen used (pending_of d) ->
  (forall code, created_code ev = Some code -> code ∉ seen) ->
  let seen' := match created_code ev with Some c => c :: seen | None => seen end in
  let used' := match enrolled_code ev with Some c => if (wa_step d ev).1 then c :: used else used | None => used end in
  enroll_inv seen' used' (pending_of (wa_step d ev).2) /\
  forall code, enrolled_code ev = Some code -> (wa_step d ev).1 = true -> code ∉ used.
Proof.
  intros [I1 I2 I3 I4] Hfresh. cbv zeta.
  destruct ev as [saved now r label ttl raw|saved now code ch|saved now code cred|saved now|saved r cred k]; cbn [wa_step enrolled_code created_code] in *.
  - assert (enroll_inv (match raw with Some b => hex_encode b :: seen | None => seen end) used (pending_of d)) as Hkeep.
    { destruct raw; [|by split]. split; [|done..|]; intros; right; auto. }
    split; [|done]. unfold CreatePendingTicket. destruct r; [destruct raw; exact Hkeep|]. destruct raw as [b|]; [|exact Hkeep].
    specialize (Hfresh _ eq_refl). split_mutate; [exact Hkeep|]. injection Hf as <- <-. unfold pending_of in *. rewrite Hl in *. cbn [loadFile wf_Pending].
    split.
    + intros p [Hp|Hp%list_elem_of_singleton]%elem_of_app; [right; by apply I1|subst p; by left].
    + intros p [Hp|Hp%list_elem_of_singleton]%elem_of_app Hu; [by apply I2|]. subst p. cbn [wp_Code] in Hu. by apply I4 in Hu.
    + rewrite map_app. cbn [map wp_Code]. apply NoDup_app. split; [done|]. split; [|apply NoDup_singleton].
      intros c Hc Hc'%list_elem_of_singleton. subst c. apply list_elem_of_fmap in Hc as (p & E & Hp). apply Hfresh. rewrite E. by apply I1.
    + intros c Hc. right. by apply I4.
  - split; [|done]. unfold BindChallenge. split_mutate; [by split|]. destruct (findPending _ _ _) as [p|]; [|done].
    destruct (wp_Challenge p); [|done]. injection Hf as <- <-. unfold pending_of in *. rewrite Hl in *. cbn [loadFile wf_Pending]. split.
    + intros q [Hq|(x0 & Hx0 & _ & ->)]%update_elem; [by apply I1|]. cbn. by apply I1.
    + intros q [Hq|(x0 & Hx0 & _ & ->)]%update_elem Hu; [by apply I2|]. cbn in *. by apply I2.
    + by rewrite update_first_map.
    + done.
  - unfold CompleteEnrollment. split_mutate; [split; [by split|done]|]. destruct (findPending _ _ _) as [p|] eqn:Ep; [|done].
    destruct (existsb _ _); [done|]. injection Hf as <- <-. apply findPending_ok in Ep as (P1 & P2 & P3 & _).
    unfold pending_of in *. rewrite Hl in *. cbn [loadFile wf_Pending]. split.
    + split.
      * intros q [Hq|(x' & Hx & _ & ->)]%update_elem; [by apply I1|]. cbn. by apply I1.
      * intros q Hq Hu. destruct (decide (wp_Code q = code)) as [Eq|Hne].
        -- apply (update_unique code _ _ I3) in Hq as (x' & Hx & ->); done.
        -- apply elem_of_cons in Hu as [Hu|Hu]; [done|]. apply update_elem in Hq as [Hq|(x' & Hx & Hc & ->)]; [by apply I2|done].
      * by rewrite update_first_map.
      * intros c [->|Hc]%elem_of_cons; [rewrite <- P2; by apply I1|by apply I4].
    + intros c [= <-] _ Hu. rewrite <- P2 in Hu. apply I2 in Hu; [congruence|done].
  - split; [|done]. unfold PruneExpired. split_mutate; [by split|]. injection Hf as <- <-. unfold pending_of in *. rewrite Hl in *. cbn [loadFile wf_Pending]. split.
    + intros p Hp. apply list_elem_of_In, filter_In in Hp as [Hp _]. apply I1. by apply list_elem_of_In.
    + intros p Hp. apply list_elem_of_In, filter_In in Hp as [Hp _]. apply I2. by apply list_elem_of_In.
    + by apply NoDup_map_filter.
    + done.
  - split; [|done]. unfold accept_counter. destruct (negb _); [by split|]. destruct (k =? 0); [by split|]. unfold UpdateSignCount. cbv zeta.
    split_mutate; [by split|]. destruct (List.find _ _); [|done]. destruct (_ && _); [done|].
    unfold pending_of in *. rewrite Hl in *. destruct (k =? 0); injection Hf as <- <-; by split.
Qed.

Definition created_codes (evs : list wa_event) : list str := omap created_code evs.
Definition enrolled_codes (evs : list wa_event) : list str := omap enrolled_code evs.

Lemma enrolled_run evs : forall seen used d, enroll_inv seen used (pending_of d) -> NoDup (created_codes evs) ->
  (forall c, c ∈ created_codes evs -> c ∉ seen) ->
  NoDup (enrolled_codes (wa_run d evs).1) /\
  forall c, c ∈ enrolled_codes (wa_run d evs).1 -> (c ∉ used) /\ (c ∈ seen \/ c ∈ created_codes evs).
Proof.
  induction evs as [|ev evs IH]; intros seen used d Hi Hn Hf; [split; [apply NoDup_nil_2|by intros c ?%elem_of_nil]|].
  assert (forall code, created_code ev = Some code -> code ∉ seen) as Hf1.
  { intros code E. apply Hf. unfold created_codes. cbn [omap list_omap]. rewrite E. by left. }
  destruct (enroll_step seen used d ev Hi Hf1) as [Hi1 Hu]. cbn [wa_run].
  destruct (wa_step d ev) as [ok d1]. cbn [fst snd] in *.
  assert (NoDup (created_codes evs) /\ forall c, c ∈ created_codes evs ->
            c ∉ match created_code ev with Some c0 => c0 :: seen | None => seen end) as [Hn1 Hf2].
  { unfold created_codes in *. cbn [omap list_omap] in *. destruct (created_code ev) as [c0|]; [|by split].
    apply NoDup_cons in Hn as [Hc Hn]. split; [done|]. intros c Hin [->|Hc']%elem_of_cons; [done|]. by apply (Hf c); [right|]. }
  destruct (IH _ _ _ Hi1 Hn1 Hf2) as [J1 J2]. destruct (wa_run d1 evs) as [done_ d2]. cbn [fst] in *.
  assert (forall c, c ∈ match created_code ev with Some c0 => c0 :: seen | None => seen end \/ c ∈ created_codes evs ->
            c ∈ seen \/ c ∈ created_codes (ev :: evs)) as Hs.
  { intros c. unfold created_codes. cbn [omap list_omap]. destruct (created_code ev); rewrite ?elem_of_cons; naive_solver. }
  destruct ok; [|split; [done|]; intros c Hc; destruct (J2 c Hc) as [K1 K2]; split; [by destruct (enrolled_code ev)|by apply Hs]].
  unfold enrolled_codes in *. cbn [omap list_omap]. destruct (enrolled_code ev) as [c0|] eqn:Ec.
  - specialize (Hu c0 eq_refl eq_refl). split.
    + apply NoDup_cons. split; [|done]. intros Hin. apply J2 in Hin as [K1 _]. apply K1. by left.
    + intros c [->|Hc]%elem_of_cons.
      * split; [done|]. apply Hs. left. eapply en_sub; [exact Hi1|by left].
      * destruct (J2 c Hc) as [K1 K2]. split; [|by apply Hs]. intros Hin. apply K1. by right.
  - split; [done|]. intros c Hc. destruct (J2 c Hc) as [K1 K2]. split; [done|by apply Hs].
Qed.

(** An enrollment ticket enrols one authenticator.  From an empty store,
    whatever the interleaving of tickets, challenges, enrollments, logins,
    prunings and failed writes, no ticket enrols twice and none that was not
    created enrols at all, provided the random codes differ. *)
Theorem passkeys_are_enrolled_once evs : NoDup (created_codes evs) ->
  NoDup (enrolled_codes (wa_run WMissing evs).1) /\
  forall code, code ∈ enrolled_codes (wa_run WMissing evs).1 -> code ∈ created_codes evs.
Proof.
  intros Hn. destruct (enrolled_run evs [] [] WMissing) as [H1 H2].
  - split; try (intros ? ?%elem_of_nil; done). apply NoDup_nil_2.
  - done.
  - by intros c _ ?%elem_of_nil.
  - split; [done|]. intros code Hc. by destruct (H2 code Hc) as [_ [?%elem_of_nil|?]].
Qed.

Definition demo_cred (cid : str) : WAStoredCred := mkCred cid (lit "key") 5 false false [] (lit "packed").

Definition demo_events : list wa_event :=
  [ECreate true 0 (lit "admin") (lit "phone") 1000 (Some (lit "r1"));
   EBind true 1 (hex_encode (lit "r1")) (lit "challenge");
   EComplete true 2 (hex_encode (lit "r1")) (demo_cred (lit "id"));
   EComplete true 3 (hex_encode (lit "r1")) (demo_cred (lit "id2"));
   ECounter true (lit "admin") (demo_cred (lit "id")) 7;
   ECounter true (lit "admin") (demo_cred (lit "id")) 7;
   ECounter true (lit "admin") (demo_cred (lit "id")) 9].

Lemma passkeys_are_enrolled_once_witness :
  enrolled_codes (wa_run WMissing demo_events).1 = [hex_encode (lit "r1")] /\
  NoDup (enrolled_codes (wa_run WMissing demo_events).1).
Proof.
  split; [by vm_compute|]. apply (passkeys_are_enrolled_once demo_events).
  vm_compute. apply NoDup_singleton.
Defined.

Lemma passkey_counters_increase_witness :
  counters_of (lit "admin") (lit "id") (wa_run WMissing demo_events).1 = [7; 9] /\
  StronglySorted Z.lt (counters_of (lit "admin") (lit "id") (wa_run WMissing demo_events).1).
Proof.
  split; [vm_compute; reflexivity|]. apply (passkey_counters_increase WMissing demo_events).
  - repeat constructor; by vm_compute.
  - vm_compute. discriminate.
Defined.
