(* ===== verification/Pair.v ===== *)
(** Desktop passkey pairing ([server/pair.go], [server/pair_request.go],
    [server/pair_status.go], [server/pair_submit.go]): the ticket a desktop asks
    for, the browser ceremony that proves it, the poll, and the login that
    spends it.  Every operation of the ticket store runs under its mutex; the
    submission reads the ticket, verifies the assertion outside the lock and
    marks the ticket in a second step. *)

From S2P Require Import Prelude Bytes Sha2 Guard Abuse Attack Admit Passkeys.
Local Open Scope Z_scope.

(** * The ticket store *)

Definition pairTicketTTL : duration := 5 * Minute.

Record pairTicket := mkTicket {
  pk_ExpiresAt : time;
  pk_Role : str;
  pk_IP : str;
  pk_Verified : bool;
  pk_Consumed : bool
}.

Inductive pair_error := PairCapacity | PairExpired | PairUnknown | PairEntropy.

Abbreviation PairTickets := (gmap str pairTicket).

Definition pairMaxPending (a : option AbuseConfig) : Z :=
  match a with
  | Some a => if 0 <? ac_PairMaxPending a then ac_PairMaxPending a else DefaultPairMaxPending
  | None => DefaultPairMaxPending
  end.

Definition prunePairTicketsLocked (m : PairTickets) (now : time) : PairTickets :=
  filter (fun kv => After now (pk_ExpiresAt kv.2) = false) m.

(** [now] reads the clock for the sweep, [now2] for the new ticket. *)
Definition issuePairTicket (max : Z) (m : PairTickets) (now now2 : time) (role clientIP : str) (raw : option str)
    : res pair_error str * PairTickets :=
  let m := prunePairTicketsLocked m now in
  if max <=? Z.of_nat (size m) then (Err PairCapacity, m)
  else
    match raw with
    | None => (Err PairEntropy, m)
    | Some b =>
        let ticket := hex_encode b in
        (Ok ticket, <[ticket := mkTicket (Add now2 pairTicketTTL) role clientIP false false]> m)
    end.

Definition livePairTicketLocked (m : PairTickets) (now : time) (ticket clientIP : str) : res pair_error pairTicket * PairTickets :=
  match m !! ticket with
  | None => (Err PairUnknown, m)
  | Some t =>
      if pk_Consumed t then (Err PairUnknown, m)
      else if After now (pk_ExpiresAt t) then (Err PairExpired, delete ticket m)
      else if negb (str_eqb (pk_IP t) clientIP) then (Err PairUnknown, m)
      else (Ok t, m)
  end.

Definition pairTicketState := livePairTicketLocked.

Definition pairTicketFor (m : PairTickets) (now : time) (ticket clientIP : str) : option pairTicket * PairTickets :=
  match pairTicketState m now ticket clientIP with
  | (Ok t, m) => (Some t, m)
  | (Err _, m) => (None, m)
  end.

Definition set_Verified (t : pairTicket) : pairTicket := mkTicket (pk_ExpiresAt t) (pk_Role t) (pk_IP t) true (pk_Consumed t).
Definition set_Consumed (t : pairTicket) : pairTicket := mkTicket (pk_ExpiresAt t) (pk_Role t) (pk_IP t) (pk_Verified t) true.

Definition markPairVerified (m : PairTickets) (now : time) (ticket : str) : bool * PairTickets :=
  match m !! ticket with
  | None => (false, m)
  | Some t =>
      if pk_Consumed t || After now (pk_ExpiresAt t) then (false, m)
      else (true, <[ticket := set_Verified t]> m)
  end.

Definition takeVerifiedPairTicket (m : PairTickets) (now : time) (ticket clientIP : str) : res pair_error pairTicket * PairTickets :=
  match livePairTicketLocked m now ticket clientIP with
  | (Err e, m) => (Err e, m)
  | (Ok t, m) => if pk_Verified t then (Ok (set_Consumed t), <[ticket := set_Consumed t]> m) else (Err PairUnknown, m)
  end.

(** * The endpoints *)

Definition pairRequestCooldown : duration := 5 * Second.
Definition pairStatusCooldown : duration := Second.
Definition pairSubmitCooldown : duration := 10 * Second.

Record pairOffer := mkPairOffer { po_Ticket : str; po_URL : str; po_TTLSec : Z }.

(** [role]: the decoded body. *)
Definition handlePairRequest (post enabled : bool) (origin : str) (max : Z) (exists_role : str -> bool)
    (now now2 : time) (clientIP : str) (role : option str) (raw : option str)
    (m : PairTickets) (cool : CooldownMap) (rj : RejectStat)
    : (Z * option Z) * option pairOffer * PairTickets * CooldownMap * RejectStat :=
  if negb post then (plain 405, None, m, cool, rj)
  else if negb enabled then (plain 503, None, m, cool, rj)
  else
    match role with
    | None => (plain 400, None, m, cool, rj)
    | Some [] => (plain 400, None, m, cool, rj)
    | Some role =>
        if negb (exists_role role) then (plain 404, None, m, cool, rj)
        else
          let '(ok, cool) := cooldown_Allow cool now clientIP pairRequestCooldown in
          if negb ok then let '(r, rj) := rejectCooldown rj cool now clientIP pairRequestCooldown in (r, None, m, cool, rj)
          else
            match issuePairTicket max m now now2 role clientIP raw with
            | (Err PairCapacity, m) => (plain 503, None, m, cool, addReject rj rejectFullCause)
            | (Err _, m) => (plain 500, None, m, cool, rj)
            | (Ok ticket, m) =>
                (plain 201, Some (mkPairOffer ticket (origin ++ lit "/web/#pair=" ++ ticket) (pairTicketTTL / Second)), m, cool, rj)
            end
    end.

(** The state told to the desktop: whether the ticket is verified. *)
Definition handlePairStatus (get : bool) (now : time) (clientIP ticket : str) (m : PairTickets) (cool : CooldownMap) (rj : RejectStat)
    : (Z * option Z) * option bool * PairTickets * CooldownMap * RejectStat :=
  if negb get then (plain 405, None, m, cool, rj)
  else
    let '(ok, cool) := cooldown_Allow cool now clientIP pairStatusCooldown in
    if negb ok then let '(r, rj) := rejectCooldown rj cool now clientIP pairStatusCooldown in (r, None, m, cool, rj)
    else
      match ticket with
      | [] => (plain 400, None, m, cool, rj)
      | _ =>
          match pairTicketFor m now ticket clientIP with
          | (None, m) => (plain 410, None, m, cool, rj)
          | (Some t, m) => (plain 200, Some (pk_Verified t), m, cool, rj)
          end
      end.

Record pairSubmission := mkSubmission { sb_Ticket : str; sb_PasskeyID : str; sb_AuthData : str; sb_ClientData : str; sb_Sig : str }.

Section submit.
Context {W : WebAuthn}.
Variable enabled : bool.

(** The first half: a refusal, or the live ticket the submission goes on with. *)
Definition submit_lookup (has_store post : bool) (now : time) (clientIP : str) (payload : option pairSubmission)
    (m : PairTickets) (cool : CooldownMap) (rj : RejectStat)
    : ((Z * option Z) + (pairSubmission * pairTicket)) * PairTickets * CooldownMap * RejectStat :=
  if negb (has_store && enabled) then (inl (plain 503), m, cool, rj)
  else if negb post then (inl (plain 405), m, cool, rj)
  else
    let '(ok, cool) := cooldown_Allow cool now clientIP pairSubmitCooldown in
    if negb ok then let '(r, rj) := rejectCooldown rj cool now clientIP pairSubmitCooldown in (inl r, m, cool, rj)
    else
      match payload with
      | None => (inl (plain 400), m, cool, rj)
      | Some sub =>
          if negb (nonempty (sb_Ticket sub) && nonempty (sb_PasskeyID sub) && nonempty (sb_AuthData sub)
                   && nonempty (sb_ClientData sub) && nonempty (sb_Sig sub)) then (inl (plain 400), m, cool, rj)
          else
            match pairTicketFor m now (sb_Ticket sub) clientIP with
            | (None, m) => (inl (plain 410), m, cool, rj)
            | (Some t, m) => (inr (sub, t), m, cool, rj)
            end
      end.

(** The ceremony between the two locks: the credential, the assertion over the
    ticket, and the counter. *)
Definition submit_verify (saved : bool) (d : wa_disk) (sub : pairSubmission) (role : str) : bool * wa_disk :=
  match Credential d role (sb_PasskeyID sub) with
  | None => (false, d)
  | Some cred =>
      match verifyAssertionLib enabled cred (sb_Ticket sub) (sb_AuthData sub) (sb_ClientData sub) (sb_Sig sub) role with
      | None => (false, d)
      | Some counter =>
          match accept_counter saved d role cred counter with
          | (Ok _, d) => (true, d)
          | (Err _, d) => (false, d)
          end
      end
  end.

(** The whole handler when nothing interleaves; [now2] is the clock at the mark. *)
Definition handlePairSubmit (has_store post saved : bool) (now now2 : time) (clientIP : str) (payload : option pairSubmission)
    (d : wa_disk) (m : PairTickets) (cool : CooldownMap) (rj : RejectStat)
    : (Z * option Z) * wa_disk * PairTickets * CooldownMap * RejectStat :=
  match submit_lookup has_store post now clientIP payload m cool rj with
  | (inl r, m, cool, rj) => (r, d, m, cool, rj)
  | (inr (sub, t), m, cool, rj) =>
      match submit_verify saved d sub (pk_Role t) with
      | (false, d) => (plain 403, d, m, cool, rj)
      | (true, d) => (plain 202, d, (markPairVerified m now2 (sb_Ticket sub)).2, cool, rj)
      end
  end.
End submit.

(** * Theorems *)

(** ** What happened to the store

    The states the endpoints, the sweep and the login can reach, with what they
    did, newest first.  A submission is in flight between its two locks, with
    the role its ticket had; the credential file changes freely meanwhile. *)

Inductive pair_label :=
| LIssued (ticket role ip : str) (expires : time)
| LProved (ticket role : str) (d : wa_disk) (sub : pairSubmission)
| LTaken (ticket role ip : str) (now : time).

Record PState := mkPState {
  ps_tickets : PairTickets;
  ps_disk : wa_disk;
  ps_flights : list (pairSubmission * str);
  ps_proved : list (str * str)
}.

Section pairing.
Context {W : WebAuthn}.
Variable enabled : bool.
Variable max : Z.

Definition with_tickets (s : PState) (m : PairTickets) : PState := mkPState m (ps_disk s) (ps_flights s) (ps_proved s).

Inductive pair_reach : PState -> list pair_label -> Prop :=
| PrStart d : pair_reach (mkPState ∅ d [] []) []
| PrIssue s h now now2 role ip raw tk m : pair_reach s h ->
    issuePairTicket max (ps_tickets s) now now2 role ip raw = (Ok tk, m) ->
    pair_reach (with_tickets s m) (LIssued tk role ip (Add now2 pairTicketTTL) :: h)
| PrIssueFails s h now now2 role ip raw e m : pair_reach s h ->
    issuePairTicket max (ps_tickets s) now now2 role ip raw = (Err e, m) -> pair_reach (with_tickets s m) h
| PrPoll s h now tk ip r m : pair_reach s h ->
    pairTicketFor (ps_tickets s) now tk ip = (r, m) -> pair_reach (with_tickets s m) h
| PrSubmit s h now ip sub t m : pair_reach s h ->
    pairTicketFor (ps_tickets s) now (sb_Ticket sub) ip = (Some t, m) ->
    pair_reach (mkPState m (ps_disk s) ((sub, pk_Role t) :: ps_flights s) (ps_proved s)) h
| PrVerify s h saved sub role d : pair_reach s h -> (sub, role) ∈ ps_flights s ->
    submit_verify enabled saved (ps_disk s) sub role = (true, d) ->
    pair_reach (mkPState (ps_tickets s) d (ps_flights s) ((sb_Ticket sub, role) :: ps_proved s))
      (LProved (sb_Ticket sub) role (ps_disk s) sub :: h)
| PrMark s h now tk role : pair_reach s h -> (tk, role) ∈ ps_proved s ->
    pair_reach (with_tickets s (markPairVerified (ps_tickets s) now tk).2) h
| PrDisk s h d : pair_reach s h -> pair_reach (mkPState (ps_tickets s) d (ps_flights s) (ps_proved s)) h
| PrPrune s h now : pair_reach s h -> pair_reach (with_tickets s (prunePairTicketsLocked (ps_tickets s) now)) h
| PrTake s h now tk ip t m : pair_reach s h ->
    takeVerifiedPairTicket (ps_tickets s) now tk ip = (Ok t, m) ->
    pair_reach (with_tickets s m) (LTaken tk (pk_Role t) ip now :: h)
| PrTakeFails s h now tk ip e m : pair_reach s h ->
    takeVerifiedPairTicket (ps_tickets s) now tk ip = (Err e, m) -> pair_reach (with_tickets s m) h.

Definition issued (h : list pair_label) : list str := omap (fun l => match l with LIssued tk _ _ _ => Some tk | _ => None end) h.
Definition taken (h : list pair_label) : list str := omap (fun l => match l with LTaken tk _ _ _ => Some tk | _ => None end) h.

Definition was_proved (tk role : str) (h : list pair_label) : Prop := exists d sub, LProved tk role d sub ∈ h.

Lemma was_proved_cons l tk role h : was_proved tk role h -> was_proved tk role (l :: h).
Proof. intros (d & sub & H). exists d, sub. by right. Qed.

(** What the tickets say of the history. *)
Record pair_inv (s : PState) (h : list pair_label) : Prop := {
  pi_issued : forall tk t, ps_tickets s !! tk = Some t -> LIssued tk (pk_Role t) (pk_IP t) (pk_ExpiresAt t) ∈ h;
  pi_verified : forall tk t, ps_tickets s !! tk = Some t -> pk_Verified t = true -> was_proved tk (pk_Role t) h;
  pi_flight : forall sub role, (sub, role) ∈ ps_flights s -> exists ip e, LIssued (sb_Ticket sub) role ip e ∈ h;
  pi_proved : forall tk role, (tk, role) ∈ ps_proved s -> was_proved tk role h /\ exists ip e, LIssued tk role ip e ∈ h;
  pi_consumed : forall tk t, tk ∈ taken h -> ps_tickets s !! tk = Some t -> pk_Consumed t = true;
  pi_taken : forall tk, tk ∈ taken h -> tk ∈ issued h;
  pi_proof : forall tk role d sub, LProved tk role d sub ∈ h ->
    sb_Ticket sub = tk /\ exists saved d', submit_verify enabled saved d sub role = (true, d')
}.

Lemma issued_elem tk role ip e h : LIssued tk role ip e ∈ h -> tk ∈ issued h.
Proof. intros H. apply list_elem_of_omap. by exists (LIssued tk role ip e). Qed.

(** A ticket is issued for one role. *)
Lemma issued_once h tk role role' ip ip' e e' : NoDup (issued h) ->
  LIssued tk role ip e ∈ h -> LIssued tk role' ip' e' ∈ h -> role = role' /\ ip = ip' /\ e = e'.
Proof.
  induction h as [|l h IH]; [by intros _ ?%elem_of_nil|]. intros Hn H1 H2.
  assert (NoDup (issued h)) as Hn'.
  { unfold issued in *. cbn [omap list_omap] in Hn. destruct l; [by apply NoDup_cons in Hn as [_ ?]|done|done]. }
  apply elem_of_cons in H1 as [E1|H1]; apply elem_of_cons in H2 as [E2|H2].
  - rewrite <- E1 in E2. by injection E2.
  - subst l. unfold issued in Hn. cbn in Hn. apply NoDup_cons in Hn as [Hx _]. by apply issued_elem in H2.
  - subst l. unfold issued in Hn. cbn in Hn. apply NoDup_cons in Hn as [Hx _]. by apply issued_elem in H1.
  - by apply IH.
Qed.

(** The store shrinks, or one ticket changes in place. *)
Lemma live_cases m now tk ip :
  (exists t, livePairTicketLocked m now tk ip = (Ok t, m) /\ m !! tk = Some t /\ pk_Consumed t = false /\
     After now (pk_ExpiresAt t) = false /\ pk_IP t = ip) \/
  (exists e, livePairTicketLocked m now tk ip = (Err e, m)) \/
  (exists e, livePairTicketLocked m now tk ip = (Err e, delete tk m)).
Proof.
  unfold livePairTicketLocked. destruct (m !! tk) as [t|] eqn:Et; [|right; left; by eexists].
  destruct (pk_Consumed t) eqn:Ec; [right; left; by eexists|]. destruct (After _ _) eqn:Ea; [right; right; by eexists|].
  destruct (str_eqb _ _) eqn:Ei; cbn [negb]; [left|right; left; by eexists]. apply str_eqb_eq in Ei. by exists t.
Qed.

Lemma pair_sub s h m : pair_inv s h -> m ⊆ ps_tickets s -> pair_inv (with_tickets s m) h.
Proof.
  intros [I1 I2 I3 I4 I5 I6 I7] Hm. split; cbn [with_tickets ps_tickets ps_flights ps_proved]; try done.
  - intros tk t Ht. apply I1. by eapply lookup_weaken.
  - intros tk t Ht. apply I2. by eapply lookup_weaken.
  - intros tk t Hk Ht. eapply I5; [done|]. by eapply lookup_weaken.
Qed.

Lemma live_sub m now tk ip : (livePairTicketLocked m now tk ip).2 ⊆ m.
Proof. destruct (live_cases m now tk ip) as [(t & -> & _)|[(e & ->)|(e & ->)]]; cbn; [done|done|apply delete_subseteq]. Qed.

Lemma for_sub m now tk ip : (pairTicketFor m now tk ip).2 ⊆ m.
Proof.
  unfold pairTicketFor, pairTicketState. pose proof (live_sub m now tk ip). by destruct (livePairTicketLocked _ _ _ _) as [[?|?] ?].
Qed.

(** One ticket replaced by a version of itself with the same owner. *)
Lemma inv_insert s h tk t t' : pair_inv s h -> ps_tickets s !! tk = Some t ->
  pk_Role t' = pk_Role t -> pk_IP t' = pk_IP t -> pk_ExpiresAt t' = pk_ExpiresAt t ->
  (pk_Verified t' = true -> was_proved tk (pk_Role t) h) -> (tk ∈ taken h -> pk_Consumed t' = true) ->
  pair_inv (with_tickets s (<[tk := t']> (ps_tickets s))) h.
Proof.
  intros [I1 I2 I3 I4 I5 I6 I7] Ht E1 E2 E3 Hv Hc. split; cbn [with_tickets ps_tickets ps_flights ps_proved]; try done.
  - intros tk' u [[<- <-]|[Hne Hu]]%lookup_insert_Some; [rewrite E1, E2, E3|]; by apply I1.
  - intros tk' u [[<- <-]|[Hne Hu]]%lookup_insert_Some; [by rewrite E1|]. by apply I2.
  - intros tk' u Hk [[<- <-]|[Hne Hu]]%lookup_insert_Some; [by apply Hc|]. by eapply I5.
Qed.

(** A new label that neither issues nor spends. *)
Lemma inv_cons s h l : pair_inv s h -> (forall tk role ip e, l <> LIssued tk role ip e) -> (forall tk role ip e, l <> LTaken tk role ip e) ->
  (forall tk role d sub, l = LProved tk role d sub ->
     sb_Ticket sub = tk /\ exists saved d', submit_verify enabled saved d sub role = (true, d')) ->
  pair_inv s (l :: h).
Proof.
  intros [I1 I2 I3 I4 I5 I6 I7] Hi Ht Hp.
  assert (taken (l :: h) = taken h /\ issued (l :: h) = issued h) as [Et Ei].
  { unfold taken, issued. cbn [omap list_omap]. destruct l; [by edestruct Hi|done|by edestruct Ht]. }
  split; rewrite ?Et, ?Ei; try done.
  - intros tk t Hk. right. by apply I1.
  - intros tk t Hk Hv. by apply was_proved_cons, I2.
  - intros sub role Hf. destruct (I3 _ _ Hf) as (ip & e & H). exists ip, e. by right.
  - intros tk role Hf. destruct (I4 _ _ Hf) as (Hw' & ip & e & H). split; [by apply was_proved_cons|]. exists ip, e. by right.
  - intros tk role d sub [E|H]%elem_of_cons; [by apply Hp|by eapply I7].
Qed.

(** A fresh ticket. *)
Lemma inv_issue s h tk role ip e : pair_inv s h -> tk ∉ issued h ->
  pair_inv (with_tickets s (<[tk := mkTicket e role ip false false]> (ps_tickets s))) (LIssued tk role ip e :: h).
Proof.
  intros [I1 I2 I3 I4 I5 I6 I7] Hfresh. split; cbn [with_tickets ps_tickets ps_flights ps_proved].
  - intros tk' t [[<- <-]|[Hne Ht]]%lookup_insert_Some; [by left|right; by apply I1].
  - intros tk' t [[<- <-]|[Hne Ht]]%lookup_insert_Some; [done|]. intros Hv. by apply was_proved_cons, I2.
  - intros sub role' Hf. destruct (I3 _ _ Hf) as (ip' & e' & H). exists ip', e'. by right.
  - intros tk' role' Hf. destruct (I4 _ _ Hf) as (Hp & ip' & e' & H). split; [by apply was_proved_cons|]. exists ip', e'. by right.
  - intros tk' t Hk [[<- <-]|[Hne Ht]]%lookup_insert_Some; [|by eapply I5]. by apply I6 in Hk.
  - intros tk' Hk. right. by apply I6.
  - intros tk' role' d sub [?|H]%elem_of_cons; [done|by eapply I7].
Qed.

(** A spent ticket. *)
Lemma inv_take s h tk t ip now : pair_inv s h -> ps_tickets s !! tk = Some t -> pk_Verified t = true ->
  pair_inv (with_tickets s (<[tk := set_Consumed t]> (ps_tickets s))) (LTaken tk (pk_Role t) ip now :: h).
Proof.
  intros IH Ht Ev. destruct (inv_insert s h tk t (set_Consumed t) IH Ht) as [I1 I2 I3 I4 I5 I6 I7]; try done; [intros _; by eapply pi_verified|].
  cbn [with_tickets ps_tickets ps_flights ps_proved] in *. split; cbn [with_tickets ps_tickets ps_flights ps_proved].
  - intros tk' u Hu. right. by apply I1.
  - intros tk' u Hu Hv. by apply was_proved_cons, I2.
  - intros sub role' Hf. destruct (I3 _ _ Hf) as (ip' & e & H). exists ip', e. by right.
  - intros tk' role' Hf. destruct (I4 _ _ Hf) as (Hp & ip' & e & H). split; [by apply was_proved_cons|]. exists ip', e. by right.
  - unfold taken. cbn [omap list_omap]. intros tk' u [->|Hk]%elem_of_cons Hu; [|by eapply I5].
    rewrite lookup_insert_eq in Hu. by injection Hu as <-.
  - unfold taken, issued. cbn [omap list_omap]. intros tk' [->|Hk]%elem_of_cons; [|by apply I6].
    eapply issued_elem, (pi_issued _ _ IH), Ht.
  - intros tk' role' d sub [?|H]%elem_of_cons; [done|by eapply I7].
Qed.

Lemma pair_reach_inv s h : pair_reach s h -> NoDup (issued h) -> pair_inv s h.
Proof.
  induction 1 as [d|s h now now2 role ip raw tk m Hr IH Ho|s h now now2 role ip raw e m Hr IH Ho|s h now tk ip r m Hr IH Ho
    |s h now ip sub t m Hr IH Ho|s h saved sub role d Hr IH Hf Ho|s h now tk role Hr IH Hp|s h d Hr IH|s h now Hr IH
    |s h now tk ip t m Hr IH Ho|s h now tk ip e m Hr IH Ho]; intros Hn.
  - split; cbn; intros; match goal with
      | H : _ ∈ [] |- _ => by apply elem_of_nil in H
      | H : ∅ !! _ = Some _ |- _ => by rewrite lookup_empty in H
      end.
  - unfold issued in Hn. cbn [omap list_omap] in Hn. apply NoDup_cons in Hn as [Hfresh Hn]. specialize (IH Hn).
    unfold issuePairTicket in Ho. destruct (max <=? _); [done|]. destruct raw as [b|]; [|done]. injection Ho as Htk Hm. subst m. rewrite Htk.
    assert (pair_inv (with_tickets s (prunePairTicketsLocked (ps_tickets s) now)) h) as IH' by (apply pair_sub; [done|apply map_filter_subseteq]).
    by apply (inv_issue (with_tickets s (prunePairTicketsLocked (ps_tickets s) now))).
  - specialize (IH Hn). apply pair_sub; [done|]. unfold issuePairTicket in Ho.
    destruct (max <=? _); [|destruct raw; [done|]]; injection Ho as _ <-; apply map_filter_subseteq.
  - specialize (IH Hn). pose proof (for_sub (ps_tickets s) now tk ip) as Hs. rewrite Ho in Hs. by apply pair_sub.
  - specialize (IH Hn). unfold pairTicketFor, pairTicketState in Ho.
    destruct (live_cases (ps_tickets s) now (sb_Ticket sub) ip) as [(t' & E & Ht & _)|[(e & E)|(e & E)]]; rewrite E in Ho; [|done..].
    injection Ho as <- <-. destruct IH as [I1 I2 I3 I4 I5 I6 I7]. split; cbn [ps_tickets ps_flights ps_proved]; try done.
    intros sub' role' [[= -> ->]|Hf]%elem_of_cons; [|by apply I3]. eexists _, _. by apply I1.
  - specialize (IH Hn). pose proof (pi_flight _ _ IH _ _ Hf) as (ip & e & Hi).
    assert (pair_inv s (LProved (sb_Ticket sub) role (ps_disk s) sub :: h)) as [I1 I2 I3 I4 I5 I6 I7].
    { apply inv_cons; [done..|]. intros tk role' d' sub' [= <- <- <- <-]. split; [done|]. by exists saved, d. }
    split; cbn [ps_tickets ps_flights ps_proved]; try done.
    intros tk role' [[= -> ->]|Hp]%elem_of_cons; [|by apply I4]. split; [|exists ip, e; by right]. exists (ps_disk s), sub. by left.
  - specialize (IH Hn). unfold markPairVerified. destruct (ps_tickets s !! tk) as [t|] eqn:Et; [|by apply pair_sub].
    destruct (_ || _) eqn:Ec; [by apply pair_sub|]. cbn [snd]. apply orb_false_iff in Ec as [Ec _].
    apply (inv_insert s h tk t); try done.
    + intros _. destruct (pi_proved _ _ IH _ _ Hp) as (Hw & ip & e & Hi).
      by destruct (issued_once _ _ _ _ _ _ _ _ Hn Hi (pi_issued _ _ IH _ _ Et)) as (<- & _).
    + intros Hk. cbn. by eapply pi_consumed.
  - specialize (IH Hn). by destruct IH as [I1 I2 I3 I4 I5 I6 I7].
  - specialize (IH Hn). apply pair_sub; [done|apply map_filter_subseteq].
  - specialize (IH Hn). unfold takeVerifiedPairTicket in Ho.
    destruct (live_cases (ps_tickets s) now tk ip) as [(t' & E & Ht & Hc & Ha & Hi)|[(e & E)|(e & E)]]; rewrite E in Ho; [|done..].
    destruct (pk_Verified t') eqn:Ev; [|done]. injection Ho as <- <-.
    change (pk_Role (set_Consumed t')) with (pk_Role t'). by apply inv_take.
  - specialize (IH Hn). apply pair_sub; [done|]. unfold takeVerifiedPairTicket in Ho. pose proof (live_sub (ps_tickets s) now tk ip) as Hs.
    destruct (livePairTicketLocked _ _ _ _) as [[t|e'] m']; cbn [snd] in Hs; [destruct (pk_Verified t); [done|]|]; by injection Ho as _ <-.
Qed.

(** What an accepted submission proves: the assertion the library verified was
    over the hash of the ticket, for a credential stored under the role. *)
Lemma submit_verify_ok saved d sub role d' : submit_verify enabled saved d sub role = (true, d') ->
  exists cred key id n, Credential d role (sb_PasskeyID sub) = Some cred /\
    ValidateLogin (mkLogin key id (wc_BackupEligible cred) (wc_BackupState cred)
      (sha256 (role ++ byte_of 0 :: wc_CredentialID cred)) (b64_encode (sha256 (sb_Ticket sub)))
      (sb_AuthData sub) (sb_ClientData sub) (sb_Sig sub)) = Some (n, true).
Proof.
  unfold submit_verify. destruct (Credential _ _ _) as [cred|]; [|done]. unfold verifyAssertionLib.
  destruct (negb enabled); [done|]. destruct (b64_decode _) as [key|]; [|done]. destruct (b64_decode _) as [id|]; [|done].
  destruct (_ || _); [done|]. cbv zeta. destruct (ValidateLogin _) as [[n []]|] eqn:E; [|done..]. intros _.
  exists cred, key, id, n. by split.
Qed.

(** C6. A ticket becomes a session only as it should.  In any interleaving of
    requests, polls, submissions, sweeps and logins, with the credential file
    changing freely, and provided the random tickets differ: the login that
    spends a ticket comes from the address that asked for it, within its
    lifetime, with the role it was asked for, after an assertion over this very
    ticket verified for a credential of that role; and no ticket is spent
    twice. *)
Theorem pairing_proves_the_role s h tk role ip now : pair_reach s (LTaken tk role ip now :: h) -> NoDup (issued h) ->
  (exists e, LIssued tk role ip e ∈ h /\ now <= e) /\
  (exists d sub cred key id n, LProved tk role d sub ∈ h /\ Credential d role (sb_PasskeyID sub) = Some cred /\
     ValidateLogin (mkLogin key id (wc_BackupEligible cred) (wc_BackupState cred)
       (sha256 (role ++ byte_of 0 :: wc_CredentialID cred)) (b64_encode (sha256 tk))
       (sb_AuthData sub) (sb_ClientData sub) (sb_Sig sub)) = Some (n, true)) /\
  tk ∉ taken h.
Proof.
  intros Hr Hn. remember (LTaken tk role ip now :: h) as h' eqn:Eh. revert h Eh Hn.
  induction Hr as [d|s h now0 now2 role0 ip0 raw tk0 m Hr IH Ho|s h now0 now2 role0 ip0 raw e m Hr IH Ho|s h now0 tk0 ip0 r m Hr IH Ho
    |s h now0 ip0 sub t m Hr IH Ho|s h saved sub role0 d Hr IH Hf Ho|s h now0 tk0 role0 Hr IH Hp|s h d Hr IH|s h now0 Hr IH
    |s h now0 tk0 ip0 t m Hr IH Ho|s h now0 tk0 ip0 e m Hr IH Ho]; intros h0 Eh Hn; try done; try (by eapply IH).
  injection Eh as -> <- -> -> ->. pose proof (pair_reach_inv _ _ Hr Hn) as Hi. unfold takeVerifiedPairTicket in Ho.
  destruct (live_cases (ps_tickets s) now tk ip) as [(t' & E & Ht & Hc & Ha & Hip)|[(e & E)|(e & E)]]; rewrite E in Ho; [|done..].
  destruct (pk_Verified t') eqn:Ev; [|done]. injection Ho as <- <-. cbn [pk_Role set_Consumed]. split; [|split].
  - exists (pk_ExpiresAt t'). rewrite <- Hip. split; [by apply (pi_issued _ _ Hi)|]. unfold After in Ha. lia.
  - destruct (pi_verified _ _ Hi _ _ Ht Ev) as (d & sub & Hp). destruct (pi_proof _ _ Hi _ _ _ _ Hp) as (<- & saved & d' & Hs).
    destruct (submit_verify_ok _ _ _ _ _ Hs) as (cred & key & id & n & H1 & H2). by exists d, sub, cred, key, id, n.
  - intros Hk. pose proof (pi_consumed _ _ Hi _ _ Hk Ht). congruence.
Qed.

(** Waiting costs memory only up to the ceiling: whatever the endpoints are
    asked, the store never holds more tickets than [PAIR_MAX_PENDING]. *)
Theorem pair_store_bounded s h : pair_reach s h -> 0 <= max -> Z.of_nat (size (ps_tickets s)) <= max.
Proof.
  intros Hr Hm.
  assert (forall m m' : PairTickets, m ⊆ m' -> Z.of_nat (size m') <= max -> Z.of_nat (size m) <= max) as Hsub.
  { intros m m' Hs Hb. pose proof (map_subseteq_size _ _ Hs). lia. }
  assert (forall (m : PairTickets) tk t t', m !! tk = Some t -> Z.of_nat (size m) <= max -> Z.of_nat (size (<[tk := t']> m)) <= max) as Hin.
  { intros m tk t t' Ht Hb. rewrite map_size_insert_Some; [done|by eexists]. }
  induction Hr as [d|s h now now2 role ip raw tk m Hr IH Ho|s h now now2 role ip raw e m Hr IH Ho|s h now tk ip r m Hr IH Ho
    |s h now ip sub t m Hr IH Ho|s h saved sub role d Hr IH Hf Ho|s h now tk role Hr IH Hp|s h d Hr IH|s h now Hr IH
    |s h now tk ip t m Hr IH Ho|s h now tk ip e m Hr IH Ho]; cbn [with_tickets ps_tickets]; try done.
  - unfold issuePairTicket in Ho. destruct (max <=? _) eqn:E; [done|]. destruct raw as [b|]; [|done]. injection Ho as <- <-.
    rewrite map_size_insert. destruct (_ !! _); unfold id; lia.
  - apply (Hsub _ (ps_tickets s)); [|done]. unfold issuePairTicket in Ho.
    destruct (max <=? _); [|destruct raw; [done|]]; injection Ho as _ <-; apply map_filter_subseteq.
  - apply (Hsub _ (ps_tickets s)); [|done]. pose proof (for_sub (ps_tickets s) now tk ip) as Hs. by rewrite Ho in Hs.
  - apply (Hsub _ (ps_tickets s)); [|done]. pose proof (for_sub (ps_tickets s) now (sb_Ticket sub) ip) as Hs. by rewrite Ho in Hs.
  - unfold markPairVerified. destruct (_ !! _) eqn:Et; [|done]. destruct (_ || _); [done|]. by eapply Hin.
  - apply (Hsub _ (ps_tickets s)); [apply map_filter_subseteq|done].
  - unfold takeVerifiedPairTicket in Ho.
    destruct (live_cases (ps_tickets s) now tk ip) as [(t' & E & Ht & _)|[(e & E)|(e & E)]]; rewrite E in Ho; [|done..].
    destruct (pk_Verified t'); [|done]. injection Ho as <- <-. by eapply Hin.
  - apply (Hsub _ (ps_tickets s)); [|done]. unfold takeVerifiedPairTicket in Ho. pose proof (live_sub (ps_tickets s) now tk ip) as Hs.
    destruct (livePairTicketLocked _ _ _ _) as [[t|e'] m']; cbn [snd] in Hs; [destruct (pk_Verified t); [done|]|]; by injection Ho as _ <-.
Qed.
End pairing.

(** A library that accepts one signature. *)
Definition demo_webauthn : WebAuthn := {|
  ValidateLogin q := if str_eqb (lq_Sig q) (lit "good") then Some (7, true) else None;
  CreateCredential _ _ _ _ _ := None
|}.

Definition demo_store (count : Z) : wa_disk :=
  WFile (mkWAFile [] {[ lit "admin" := [mkCred (lit "aWQx") (lit "a2V5") count false false [] (lit "packed")] ]}).
Definition demo_ip : str := lit "10.0.0.1".
Definition demo_tk : str := hex_encode (lit "random").
Definition demo_sub : pairSubmission := mkSubmission demo_tk (lit "aWQx") (lit "a") (lit "c") (lit "good").
Definition demo_ticket (verified consumed : bool) : pairTicket :=
  mkTicket (Add 100 pairTicketTTL) (lit "admin") demo_ip verified consumed.

Definition demo_history : list pair_label :=
  [LProved demo_tk (lit "admin") (demo_store 3) demo_sub; LIssued demo_tk (lit "admin") demo_ip (Add 100 pairTicketTTL)].

Definition demo_map (verified consumed : bool) : PairTickets := {[ demo_tk := demo_ticket verified consumed ]}.
Definition demo_issued : list pair_label := [LIssued demo_tk (lit "admin") demo_ip (Add 100 pairTicketTTL)].

Lemma demo_ops :
  issuePairTicket 10 ∅ 100 100 (lit "admin") demo_ip (Some (lit "random")) = (Ok demo_tk, demo_map false false) /\
  pairTicketFor (demo_map false false) 110 demo_tk demo_ip = (Some (demo_ticket false false), demo_map false false) /\
  submit_verify (W := demo_webauthn) true true (demo_store 3) demo_sub (lit "admin") = (true, demo_store 7) /\
  (markPairVerified (demo_map false false) 150 demo_tk).2 = demo_map true false /\
  takeVerifiedPairTicket (demo_map true false) 200 demo_tk demo_ip = (Ok (demo_ticket true true), demo_map true true).
Proof. repeat split; by vm_compute. Qed.

Lemma demo_paired : pair_reach (W := demo_webauthn) true 10
  (mkPState (demo_map true true) (demo_store 7) [(demo_sub, lit "admin")] [(demo_tk, lit "admin")])
  (LTaken demo_tk (lit "admin") demo_ip 200 :: demo_history).
Proof.
  destruct demo_ops as (E1 & E2 & E3 & E4 & E5).
  pose proof (PrIssue (W := demo_webauthn) true 10 _ _ 100 100 _ _ _ _ _ (PrStart true 10 (demo_store 3)) E1) as H1.
  pose proof (PrSubmit (W := demo_webauthn) true 10 _ _ 110 demo_ip demo_sub _ _ H1 E2) as H2.
  pose proof (PrVerify (W := demo_webauthn) true 10 _ _ true demo_sub (lit "admin") _ H2 ltac:(by left) E3) as H3.
  pose proof (PrMark (W := demo_webauthn) true 10 _ _ 150 demo_tk (lit "admin") H3 ltac:(by left)) as H4.
  unfold with_tickets in H4. cbn [ps_tickets ps_disk ps_flights ps_proved with_tickets] in H4. rewrite E4 in H4.
  exact (PrTake (W := demo_webauthn) true 10 _ _ 200 demo_tk demo_ip _ _ H4 E5).
Qed.

Lemma pairing_proves_the_role_witness :
  exists e, LIssued demo_tk (lit "admin") demo_ip e ∈ demo_history /\ 200 <= e.
Proof.
  refine (proj1 (pairing_proves_the_role (W := demo_webauthn) true 10 _ demo_history demo_tk (lit "admin") demo_ip 200 demo_paired _)).
  apply NoDup_singleton.
Defined.

Lemma pair_store_bounded_witness : Z.of_nat (size (demo_map true true)) <= 10.
Proof. by apply (pair_store_bounded (W := demo_webauthn) true 10 _ _ demo_paired). Defined.
