(* ===== verification/Auth.v ===== *)
(** The handshake ([server/auth.go], [server/auth_errors.go]): the nonce, the
    three proofs of a role (pair ticket, passkey, key file), the ban rule, the
    display name and the session.  The socket's part is an argument: what the
    client's packet read as; the concurrent-login alert of a key login is
    [handshake_alert] of Hub. *)

From S2P Require Import Prelude Bytes Sha2 Utf8 Wire Filter Guard Crypto ChainLink TripChains Behavior Attack Outbox Admit Passkeys Pair.
Local Open Scope Z_scope.

(** * Data *)

Record Identity := mkIdentity { id_PublicKey : str; id_HmacShield : str; id_ServerPubKey : str }.
Record RoleDefinition := mkRole { rd_Identities : list Identity; rd_Permission : Permission }.
Record NonceMeta := mkNonceMeta { nm_ExpiresAt : time; nm_IP : str }.
Record ServerIdentity := mkServerIdentity { si_PublicKey : str; si_PrivateKey : str }.

(** The sentinels, and what a failed read of the packet is: the peer gone (a
    timeout or an end of file), the peer's socket closed (the library's
    [CloseError]), or bytes that do not decode. *)
Inductive auth_error :=
| ErrEntropyExhaustion
| ErrPayloadTooLarge
| ErrInvalidRoleLength
| ErrInvalidNonce
| ErrExpiredNonce
| ErrIPMismatch
| ErrPasskeyDisabled
| ErrInvalidRole
| ErrVerificationFailed
| ErrInvalidSignature
| ErrTripcodeTooLong
| ErrPairExpired
| ErrPairUnknown
| ErrReadGone
| ErrReadClosed
| ErrReadMalformed.

Definition GetDefaultPermission : Permission := mkPermission false [].

(** What the handshake reads of the configuration and the server. *)
Record AuthEnv := mkAuthEnv {
  ae_Roles : gmap str RoleDefinition;
  ae_ServerID : option ServerIdentity;
  ae_PasskeyEnabled : bool;           (* WAConfig.Enabled *)
  ae_OnionAllowPasskey : bool;
  ae_HasStore : bool;                 (* s.WebAuthn != nil *)
  ae_MaxUsernameLength : Z;
  ae_MaxTripcodeLength : Z;
  ae_TripSalt : str
}.

(** What it changes. *)
Record AuthState := mkAuthState {
  au_Nonces : gmap str NonceMeta;     (* ActiveNonces *)
  au_Tickets : PairTickets;
  au_Disk : wa_disk
}.

Definition set_Role (p : AuthPacket) (r : str) : AuthPacket :=
  match p with mkAuthPacket a _ c d e f g h i j k l m n o q => mkAuthPacket a r c d e f g h i j k l m n o q end.
Definition set_IdentityPub (p : AuthPacket) (v : str) : AuthPacket :=
  match p with mkAuthPacket a b c d e f g h i j k _ m n o q => mkAuthPacket a b c d e f g h i j k v m n o q end.
Definition set_AuthType (p : AuthPacket) (v : str) : AuthPacket :=
  match p with mkAuthPacket a b c d e f g h i j k l _ n o q => mkAuthPacket a b c d e f g h i j k l v n o q end.

(** * The challenge *)

Definition nonceTTL : duration := 10 * Second.

Record AuthChallenge := mkAuthChallenge {
  ch_Nonce : str; ch_ServerPubKey : str; ch_ServerSig : str; ch_ServerHost : str; ch_TripSalt : str
}.

Definition issue_nonce (nonces : gmap str NonceMeta) (now : time) (clientIP nonceHex : str) : gmap str NonceMeta :=
  <[nonceHex := mkNonceMeta (Add now nonceTTL) clientIP]> nonces.

Definition consumeNonce (nonces : gmap str NonceMeta) (now : time) (clientIP nonceHex : str) : res auth_error unit * gmap str NonceMeta :=
  match nonces !! nonceHex with
  | None => (Err ErrInvalidNonce, nonces)
  | Some meta =>
      (if After now (nm_ExpiresAt meta) then Err ErrExpiredNonce
       else if negb (str_eqb (nm_IP meta) clientIP) then Err ErrIPMismatch
       else Ok tt, delete nonceHex nonces)
  end.

(** The half-minute sweep. *)
Definition sweep_nonces (nonces : gmap str NonceMeta) (now : time) : gmap str NonceMeta :=
  filter (fun kv => After now (nm_ExpiresAt kv.2) = false) nonces.

Definition server_pub (env : AuthEnv) : str := match ae_ServerID env with Some s => si_PublicKey s | None => [] end.

Section auth.
Context {U : Unicode} {E : Ed25519} {W : WebAuthn}.

Definition server_proof (nonceHex serverHost : str) : str := lit "V2V-SERVER-v1" ++ nul :: nonceHex ++ nul :: serverHost.

Definition auth_challenge (env : AuthEnv) (nonceHex serverHost : str) : AuthChallenge :=
  let sig := match ae_ServerID env with
             | Some s =>
                 match hex_decode (si_PrivateKey s) with
                 | Some priv => if slen priv =? 64 then hex_encode (ed_sign (take 32 priv) (server_proof nonceHex serverHost)) else []
                 | None => []
                 end
             | None => []
             end in
  mkAuthChallenge nonceHex (server_pub env) sig serverHost (ae_TripSalt env).

(** The first half of [HandleAuth]: the nonce is stored and the challenge sent. *)
Definition start_auth (env : AuthEnv) (st : AuthState) (now : time) (clientIP serverHost : str) (raw : option str)
    : res auth_error AuthChallenge * AuthState :=
  match raw with
  | None => (Err ErrEntropyExhaustion, st)
  | Some b =>
      let nonceHex := hex_encode b in
      (Ok (auth_challenge env nonceHex serverHost),
       mkAuthState (issue_nonce (au_Nonces st) now clientIP nonceHex) (au_Tickets st) (au_Disk st))
  end.

(** * The proofs *)

Definition loginWithPairTicket (env : AuthEnv) (st : AuthState) (now : time) (clientIP : str) (req : AuthPacket)
    : res auth_error Permission * AuthPacket * AuthState :=
  match takeVerifiedPairTicket (au_Tickets st) now (ap_PairTicket req) clientIP with
  | (Err e, m) =>
      (Err (match e with PairExpired => ErrPairExpired | _ => ErrPairUnknown end), req, mkAuthState (au_Nonces st) m (au_Disk st))
  | (Ok t, m) =>
      let st := mkAuthState (au_Nonces st) m (au_Disk st) in
      match ae_Roles env !! pk_Role t with
      | None => (Err ErrInvalidRole, req, st)
      | Some roleDef => (Ok (rd_Permission roleDef), set_AuthType (set_Role req (pk_Role t)) (lit "passkey"), st)
      end
  end.

Definition passkeyDisabledForOnion (env : AuthEnv) (onion : bool) : bool := onion && negb (ae_OnionAllowPasskey env).

Definition login_passkey (env : AuthEnv) (st : AuthState) (onion saved : bool) (resp : AuthPacket)
    : res auth_error Permission * AuthPacket * AuthState :=
  if negb (ae_PasskeyEnabled env) then (Err ErrPasskeyDisabled, resp, st)
  else if passkeyDisabledForOnion env onion then (Err ErrPasskeyDisabled, resp, st)
  else
    match ae_Roles env !! ap_Role resp with
    | None => (Err ErrInvalidRole, resp, st)
    | Some roleDef =>
        if negb (ae_HasStore env) then (Err ErrVerificationFailed, resp, st)
        else
          match Credential (au_Disk st) (ap_Role resp) (ap_PasskeyID resp) with
          | None => (Err ErrVerificationFailed, resp, st)
          | Some cred =>
              match verifyAssertionLib (ae_PasskeyEnabled env) cred (ap_Nonce resp) (ap_PasskeyAuthData resp)
                      (ap_PasskeyClientData resp) (ap_PasskeySig resp) (ap_Role resp) with
              | None => (Err ErrVerificationFailed, resp, st)
              | Some counter =>
                  match accept_counter saved (au_Disk st) (ap_Role resp) cred counter with
                  | (Err _, d) => (Err ErrVerificationFailed, resp, mkAuthState (au_Nonces st) (au_Tickets st) d)
                  | (Ok _, d) =>
                      (Ok (rd_Permission roleDef), set_AuthType resp (lit "passkey"), mkAuthState (au_Nonces st) (au_Tickets st) d)
                  end
              end
          end
    end.

Definition signedData (nonceHex role username serverPub : str) : str :=
  nonceHex ++ "|"%char :: role ++ "|"%char :: username ++ "|"%char :: serverPub.

(** One key-file identity: whether its key and pin may be tried, and whether the
    signature and the HMAC of the packet are its own. *)
Definition id_usable (id : Identity) (serverPub : str) : option str :=
  match hex_decode (id_PublicKey id) with
  | Some pub =>
      if negb (slen pub =? PublicKeySize) then None
      else if nonempty (id_ServerPubKey id) && negb (EqualFold (TrimSpace (id_ServerPubKey id)) serverPub) then None
      else Some pub
  | None => None
  end.

Definition hmac_ok (id : Identity) (sig nonceHex hmacHex : str) : bool :=
  match hex_decode hmacHex with
  | Some b => str_eqb (hmac_sha512 (id_HmacShield id) (sig ++ nonceHex)) b
  | None => false
  end.

Fixpoint try_identities (ids : list Identity) (nonceHex serverPub sig signed : str) (resp : AuthPacket) : bool * AuthPacket :=
  match ids with
  | [] => (false, resp)
  | id :: ids =>
      match id_usable id serverPub with
      | None => try_identities ids nonceHex serverPub sig signed resp
      | Some pub =>
          if ed_verify pub signed sig then
            let resp := set_IdentityPub resp (id_PublicKey id) in
            if hmac_ok id sig nonceHex (ap_Hmac resp) then (true, resp)
            else try_identities ids nonceHex serverPub sig signed resp
          else try_identities ids nonceHex serverPub sig signed resp
      end
  end.

(** [nonceHex] is the connection's own nonce. *)
Definition login_key (env : AuthEnv) (nonceHex : str) (resp : AuthPacket) : res auth_error Permission * AuthPacket :=
  match ae_Roles env !! ap_Role resp with
  | None => (Err ErrInvalidRole, resp)
  | Some roleDef =>
      match hex_decode (ap_Signature resp) with
      | Some sig =>
          if negb (slen sig =? SignatureSize) then (Err ErrInvalidSignature, resp)
          else
            let serverPub := server_pub env in
            match try_identities (rd_Identities roleDef) nonceHex serverPub sig
                    (signedData nonceHex (ap_Role resp) (ap_Username resp) serverPub) resp with
            | (true, resp) => (Ok (rd_Permission roleDef), set_AuthType resp (lit "ed25519"))
            | (false, resp) => (Err ErrVerificationFailed, resp)
            end
      | None => (Err ErrInvalidSignature, resp)
      end
  end.

(** The packet as read: a failed read may still have filled some fields. *)
Inductive packet_read := ReadOk (p : AuthPacket) | ReadErr (e : auth_error) (p : AuthPacket).

(** The identity is not a field of the wire. *)
Definition of_wire (p : AuthPacket) : AuthPacket := set_IdentityPub p [].

(** [HandleAuth] after the challenge: [now] is the clock at the nonce, [now2] at
    the ticket. *)
Definition HandleAuth (env : AuthEnv) (st : AuthState) (now now2 : time) (clientIP nonceHex : str) (onion saved : bool)
    (read : packet_read) : res auth_error Permission * AuthPacket * AuthState :=
  match read with
  | ReadErr e p => (Err e, of_wire p, st)
  | ReadOk p =>
      let resp := of_wire p in
      if ae_MaxUsernameLength env <? RuneCount (ap_Username resp) then (Err ErrPayloadTooLarge, resp, st)
      else if 64 <? slen (ap_Role resp) then (Err ErrInvalidRoleLength, resp, st)
      else
        let '(r, nonces) := consumeNonce (au_Nonces st) now clientIP (ap_Nonce resp) in
        let st := mkAuthState nonces (au_Tickets st) (au_Disk st) in
        match r with
        | Err e => (Err e, resp, st)
        | Ok _ =>
            if nonempty (ap_PairTicket resp) then loginWithPairTicket env st now2 clientIP resp
            else if nonempty (ap_PasskeyID resp) || nonempty (ap_PasskeySig resp) then login_passkey env st onion saved resp
            else
              match ap_Role resp with
              | [] => (Ok GetDefaultPermission, resp, st)
              | _ => let '(r, resp) := login_key env nonceHex resp in (r, resp, st)
              end
        end
  end.
End auth.

(** * The ban *)

Definition authErrIsProbe (e : auth_error) : bool :=
  match e with
  | ErrReadGone | ErrPairExpired | ErrEntropyExhaustion | ErrPasskeyDisabled => false
  | _ => true
  end.

Definition penalizeAuthFailure (resp : AuthPacket) (e : auth_error) : bool :=
  match ap_Role resp with [] => false | _ => authErrIsProbe e end.

(** * The display name *)

Abbreviation DisplayNames := (gmap str Z).

Definition display_hash (salt clientIP : str) (clients : Z) : str :=
  let total := clients + 1 in
  let hashLen := if 800 <? total then 6%nat else if 100 <? total then 5%nat else 4%nat in
  take hashLen (hex_encode (match salt with [] => sha256 clientIP | _ => hmac_sha256 salt clientIP end)).

Section session.
Context {U : Unicode} {E : Ed25519} {W : WebAuthn}.

(** [maxLen]: the configured limit, when a configuration is loaded. *)
Definition sanitize_name (username : str) (maxLen : option Z) : str :=
  let username := if is_ok (ValidateDisplayName username) then username else lit "Anonymous" in
  let name := TrimSpace username in
  let name := match name with [] => lit "Anonymous" | _ => name end in
  match maxLen with
  | Some n => if (0 <? n) && (n <? RuneCount name) then encode (take (Z.to_nat n) (runes name)) else name
  | None => name
  end.

Definition base_display (username salt clientIP : str) (perms : Permission) (clients : Z) (maxLen : option Z) : str :=
  let name := sanitize_name username maxLen in
  let prefix := if is_ok (ValidateDisplayPrefix (CustomPrefix perms)) then CustomPrefix perms else [] in
  prefix ++ name ++ "#"%char :: display_hash salt clientIP clients.

Definition serial_name (base : str) (serial : Z) : str := base ++ "-"%char :: itoa serial.

(** The serials 2 to 999. *)
Definition serials : list Z := map Z.of_nat (seq 2 998).

(** The name, and whether it was registered; [nanos] is the clock of the
    fallback. *)
Definition claim_name (names : DisplayNames) (base : str) (nanos : Z) : str * DisplayNames :=
  match names !! base with
  | None => (base, <[base := 1]> names)
  | Some _ =>
      match List.find (fun n => match names !! serial_name base n with None => true | Some _ => false end) serials with
      | Some n => (serial_name base n, <[serial_name base n := 1]> names)
      | None => (serial_name base (Z.rem nanos 1000), names)
      end
  end.

Definition generateDisplayName (names : DisplayNames) (username salt clientIP : str) (perms : Permission) (clients : Z)
    (maxLen : option Z) (nanos : Z) : str * DisplayNames :=
  claim_name names (base_display username salt clientIP perms clients maxLen) nanos.

Definition releaseDisplayName (names : DisplayNames) (name : str) : DisplayNames := delete name names.

(** * The session *)

Record ClientSession := mkSession {
  cs_DisplayName : str;
  cs_Tripcode : str;
  cs_TripPub : str;
  cs_TripBadge : str;
  cs_Host : str;
  cs_Perms : Permission;
  cs_WantJoins : bool;
  cs_IP : str;
  cs_AuthType : str;
  cs_IdentityPub : str;
  cs_Platform : str
}.

(** The trip sync of the answer: the key, its badge, and the tip to continue. *)
Definition auth_trip (chains : gmap str TripChain) (tripPubHex : str) : str * str * Z * str :=
  match tripPubHex with
  | [] => ([], [], 0, [])
  | _ =>
      match hex_decode tripPubHex with
      | Some b =>
          if negb (slen b =? PublicKeySize) then ([], [], 0, [])
          else
            let tripPub := ToLower tripPubHex in
            let '(seq, prev) := auth_tip chains tripPub in
            (tripPub, TripBadgeFromPubHex tripPub, seq, prev)
      | None => ([], [], 0, [])
      end
  end.

Record AuthSuccess := mkSuccess {
  sc_Username : str; sc_Role : str; sc_AuthType : str; sc_Perms : Permission;
  sc_TripPub : str; sc_TripSeq : Z; sc_TripPrev : str
}.

(** What the handshake leaves behind it: the refusal sent, or the answer and
    the session. *)
Inductive auth_outcome :=
| AuthFailed (e : auth_error)
| AuthUnsent                                  (* auth_success could not be written *)
| AuthAccepted (answer : AuthSuccess) (session : ClientSession).

(** [sent]: the success packet was written.  The observation is the error
    the behavior engine records. *)
Definition authenticateClient (env : AuthEnv) (st : AuthState) (doors : Doors) (names : DisplayNames)
    (chains : gmap str TripChain) (salt : str) (clients : Z) (maxLen : option Z)
    (now now2 : time) (nanos : Z) (clientIP expectedHost nonceHex : str) (onion saved sent : bool) (read : packet_read)
    : auth_outcome * option auth_error * AuthState * Doors * DisplayNames :=
  match HandleAuth env st now now2 clientIP nonceHex onion saved read with
  | (Err e, packet, st) =>
      (AuthFailed e, if authErrIsProbe e then Some e else None, st,
       if penalizeAuthFailure packet e then handleAuthPenalty doors now clientIP else doors, names)
  | (Ok perms, packet, st) =>
      if ae_MaxTripcodeLength env <? slen (ap_Tripcode packet) then
        (AuthFailed ErrTripcodeTooLong, Some ErrTripcodeTooLong, st, doors, names)
      else
        let doors := match ap_Role packet with
                     | [] => doors
                     | _ => set_AuthFails doors (delete clientIP (d_AuthFails doors))
                     end in
        let authType := match ap_AuthType packet with [] => lit "guest" | t => t end in
        let '(finalUsername, names) := generateDisplayName names (ap_Username packet) salt clientIP perms clients maxLen nanos in
        let '(tripPub, tripBadge, tripSeq, tripPrev) := auth_trip chains (ap_TripPub packet) in
        if negb sent then (AuthUnsent, None, st, doors, releaseDisplayName names finalUsername)
        else
          let badge := match tripBadge with [] => GenerateTripcode (ap_Tripcode packet) 8 | b => b end in
          (AuthAccepted
             (mkSuccess finalUsername (ap_Role packet) authType perms tripPub tripSeq tripPrev)
             (mkSession finalUsername badge tripPub badge expectedHost perms (ap_HistoryJoins packet) clientIP authType
                (ap_IdentityPub packet) (ap_Platform packet)),
           None, st, doors, names)
  end.

(** The rank the behavior engine gives a session ([server/observe.go]). *)
Definition sessionIdentityKind (s : ClientSession) : IdentityKind :=
  if nonempty (cs_IdentityPub s) || str_eqb (cs_AuthType s) (lit "passkey") then IdKey
  else if nonempty (cs_TripPub s) then IdTrip
  else IdGuest.
End session.

(** * Theorems *)

(** ** A role needs its proof *)

Section proofs.
Context {U : Unicode} {E : Ed25519} {W : WebAuthn}.

(** What the handshake accepts as a proof of a role, for the packet [p] of a
    connection whose own nonce is [nonceHex]. *)
Inductive role_proof (env : AuthEnv) (st : AuthState) (now : time) (clientIP nonceHex : str) (p : AuthPacket)
    : str -> Permission -> Prop :=
| ProofNone : ap_PairTicket p = [] -> ap_Role p = [] -> role_proof env st now clientIP nonceHex p [] GetDefaultPermission
| ProofPair t def : au_Tickets st !! ap_PairTicket p = Some t -> pk_Consumed t = false -> pk_Verified t = true ->
    pk_IP t = clientIP -> now <= pk_ExpiresAt t -> ae_Roles env !! pk_Role t = Some def ->
    role_proof env st now clientIP nonceHex p (pk_Role t) (rd_Permission def)
| ProofPasskey cred key id n def : ae_PasskeyEnabled env = true ->
    Credential (au_Disk st) (ap_Role p) (ap_PasskeyID p) = Some cred ->
    ValidateLogin (mkLogin key id (wc_BackupEligible cred) (wc_BackupState cred)
      (sha256 (ap_Role p ++ byte_of 0 :: wc_CredentialID cred)) (b64_encode (sha256 (ap_Nonce p)))
      (ap_PasskeyAuthData p) (ap_PasskeyClientData p) (ap_PasskeySig p)) = Some (n, true) ->
    n = 0 \/ wc_SignCount cred = 0 \/ wc_SignCount cred < n ->
    ae_Roles env !! ap_Role p = Some def -> role_proof env st now clientIP nonceHex p (ap_Role p) (rd_Permission def)
| ProofKey def id pub sig mac : ae_Roles env !! ap_Role p = Some def -> id ∈ rd_Identities def ->
    hex_decode (id_PublicKey id) = Some pub -> hex_decode (ap_Signature p) = Some sig -> hex_decode (ap_Hmac p) = Some mac ->
    ed_verify pub (signedData nonceHex (ap_Role p) (ap_Username p) (server_pub env)) sig = true ->
    mac = hmac_sha512 (id_HmacShield id) (sig ++ nonceHex) ->
    (id_ServerPubKey id = [] \/ EqualFold (TrimSpace (id_ServerPubKey id)) (server_pub env) = true) ->
    role_proof env st now clientIP nonceHex p (ap_Role p) (rd_Permission def).

Lemma try_identities_ok ids nonceHex serverPub sig signed resp resp' :
  try_identities ids nonceHex serverPub sig signed resp = (true, resp') ->
  ap_Role resp' = ap_Role resp /\
  exists id pub mac, id ∈ ids /\ hex_decode (id_PublicKey id) = Some pub /\ ed_verify pub signed sig = true /\
    hex_decode (ap_Hmac resp) = Some mac /\ mac = hmac_sha512 (id_HmacShield id) (sig ++ nonceHex) /\
    (id_ServerPubKey id = [] \/ EqualFold (TrimSpace (id_ServerPubKey id)) serverPub = true).
Proof.
  revert resp. induction ids as [|id ids IH]; intros resp; [done|]. cbn [try_identities].
  assert (forall r, ap_Hmac (set_IdentityPub r (id_PublicKey id)) = ap_Hmac r /\ ap_Role (set_IdentityPub r (id_PublicKey id)) = ap_Role r) as Hset
    by (by intros []).
  destruct (id_usable id serverPub) as [pub|] eqn:Eu; [destruct (ed_verify _ _ _) eqn:Ev; [destruct (hmac_ok _ _ _ _) eqn:Eh|]|].
  - intros [= <-]. destruct (Hset resp) as [F1 F2]. rewrite F2. split; [done|]. unfold hmac_ok in Eh. rewrite F1 in Eh.
    destruct (hex_decode (ap_Hmac resp)) as [mac|]; [|done]. apply str_eqb_eq in Eh as <-.
    unfold id_usable in Eu. destruct (hex_decode (id_PublicKey id)) as [pub'|] eqn:Ep; [|done].
    destruct (negb (slen pub' =? _)); [done|]. destruct (_ && _) eqn:Epin; [done|]. injection Eu as ->.
    eexists id, pub, _. split; [by left|]. split; [done|]. split; [done|]. split; [done|]. split; [done|].
    unfold nonempty in Epin. destruct (id_ServerPubKey id); [by left|right]. by apply negb_false_iff in Epin.
  - intros H. destruct (IH _ H) as (E1 & id' & pub' & mac & Hin & E2). destruct (Hset resp) as [F1 F2]. rewrite F1, F2 in *.
    split; [done|]. exists id', pub', mac. split; [by right|done].
  - intros H. destruct (IH _ H) as (E1 & id' & pub' & mac & Hin & E2). split; [done|]. exists id', pub', mac. split; [by right|done].
  - intros H. destruct (IH _ H) as (E1 & id' & pub' & mac & Hin & E2). split; [done|]. exists id', pub', mac. split; [by right|done].
Qed.

Lemma consume_ok nonces now ip n nonces' : consumeNonce nonces now ip n = (Ok tt, nonces') ->
  (exists meta, nonces !! n = Some meta /\ nm_IP meta = ip /\ now <= nm_ExpiresAt meta) /\ nonces' = delete n nonces.
Proof.
  unfold consumeNonce. destruct (nonces !! n) as [meta|]; [|done]. destruct (After _ _) eqn:Ea; [done|].
  destruct (str_eqb _ _) eqn:Ei; cbn [negb]; [|done]. intros [= <-]. apply str_eqb_eq in Ei. unfold After in Ea.
  split; [exists meta; split; [done|split; [done|lia]]|done].
Qed.

Lemma pair_login_ok env st now ip nonceHex p perms packet st' : loginWithPairTicket env st now ip (of_wire p) = (Ok perms, packet, st') ->
  au_Nonces st' = au_Nonces st /\ role_proof env st now ip nonceHex p (ap_Role packet) perms.
Proof.
  unfold loginWithPairTicket, takeVerifiedPairTicket.
  assert (ap_PairTicket (of_wire p) = ap_PairTicket p) as -> by by destruct p.
  destruct (live_cases (au_Tickets st) now (ap_PairTicket p) ip) as [(t & -> & Ht & Hc & Ha & Hip)|[(e & ->)|(e & ->)]]; [|done..].
  destruct (pk_Verified t) eqn:Ev; [|done]. cbn [pk_Role set_Consumed]. destruct (ae_Roles env !! pk_Role t) as [def|] eqn:Er; [|done].
  intros H. injection H as <- Hpk <-. split; [done|]. assert (ap_Role packet = pk_Role t) as -> by (rewrite <- Hpk; by destruct p).
  eapply ProofPair; try done. unfold After in Ha. lia.
Qed.

Lemma passkey_login_ok env st now ip nonceHex onion saved p perms packet st' : login_passkey env st onion saved (of_wire p) = (Ok perms, packet, st') ->
  au_Nonces st' = au_Nonces st /\ role_proof env st now ip nonceHex p (ap_Role packet) perms.
Proof.
  unfold login_passkey. destruct (ae_PasskeyEnabled env) eqn:Een; [|done]. cbn [negb]. destruct (passkeyDisabledForOnion _ _); [done|].
  assert (ap_Role (of_wire p) = ap_Role p /\ ap_PasskeyID (of_wire p) = ap_PasskeyID p /\ ap_Nonce (of_wire p) = ap_Nonce p /\
    ap_PasskeyAuthData (of_wire p) = ap_PasskeyAuthData p /\ ap_PasskeyClientData (of_wire p) = ap_PasskeyClientData p /\
    ap_PasskeySig (of_wire p) = ap_PasskeySig p) as (-> & -> & -> & -> & -> & ->) by by destruct p.
  destruct (ae_Roles env !! ap_Role p) as [def|] eqn:Er; [|done]. destruct (negb _); [done|].
  destruct (Credential _ _ _) as [cred|] eqn:Ec; [|done]. unfold verifyAssertionLib. cbn [negb].
  destruct (b64_decode _) as [key|]; [|done]. destruct (b64_decode _) as [id|]; [|done]. destruct (_ || _); [done|]. cbv zeta.
  destruct (ValidateLogin _) as [[n []]|] eqn:Ev; [|done..]. destruct (accept_counter _ _ _ _ _) as [[?|?] d] eqn:Ea; [|done].
  intros H. injection H as <- Hpk <-. split; [done|]. assert (ap_Role packet = ap_Role p) as -> by (rewrite <- Hpk; by destruct p).
  eapply (ProofPasskey _ _ _ _ _ _ cred key id n); try done. unfold accept_counter in Ea. destruct (negb _) eqn:En; [done|]. lia.
Qed.

Lemma key_login_ok env st now ip nonceHex p perms packet : login_key env nonceHex (of_wire p) = (Ok perms, packet) ->
  role_proof env st now ip nonceHex p (ap_Role packet) perms.
Proof.
  unfold login_key.
  assert (ap_Role (of_wire p) = ap_Role p /\ ap_Signature (of_wire p) = ap_Signature p /\ ap_Username (of_wire p) = ap_Username p /\
    ap_Hmac (of_wire p) = ap_Hmac p) as (Er & -> & -> & Eh) by by destruct p. rewrite Er.
  destruct (ae_Roles env !! ap_Role p) as [def|] eqn:Ed; [|done]. destruct (hex_decode (ap_Signature p)) as [sig|] eqn:Es; [|done].
  destruct (negb _); [done|]. cbv zeta. destruct (try_identities _ _ _ _ _ _) as [[] resp] eqn:Et; [|done]. intros H. injection H as <- Hpk.
  apply try_identities_ok in Et as (E1 & id & pub & mac & Hin & Hp & Hv & Hm & E2 & Hpin). rewrite Eh in Hm.
  assert (ap_Role packet = ap_Role p) as -> by (rewrite <- Hpk; destruct resp; cbn in *; congruence).
  by eapply ProofKey.
Qed.

(** C5. A role needs its proof.  A handshake succeeds only on a live nonce issued
    to this address, which is spent; and the permission it grants is the default
    one without a role, or that of the role by exactly one of the three proofs:
    a verified unspent pair ticket of this address, whose role replaces the
    packet's; an assertion over the packet's nonce by a passkey of the role with
    an advancing counter; or a signature over this connection's own nonce, the
    role and the name by a key of the role that is not pinned to another server,
    with the HMAC of its shield. *)
Theorem role_needs_proof env st now now2 clientIP nonceHex onion saved p perms packet st' :
  HandleAuth env st now now2 clientIP nonceHex onion saved (ReadOk p) = (Ok perms, packet, st') ->
  (exists meta, au_Nonces st !! ap_Nonce p = Some meta /\ nm_IP meta = clientIP /\ now <= nm_ExpiresAt meta) /\
  au_Nonces st' = delete (ap_Nonce p) (au_Nonces st) /\
  role_proof env st now2 clientIP nonceHex p (ap_Role packet) perms.
Proof.
  unfold HandleAuth. destruct (_ <? _); [done|]. destruct (_ <? _); [done|].
  assert (ap_Nonce (of_wire p) = ap_Nonce p /\ ap_PairTicket (of_wire p) = ap_PairTicket p) as [-> Ep] by by destruct p.
  destruct (consumeNonce _ _ _ _) as [[[]|e] nonces] eqn:Ec; [|done]. apply consume_ok in Ec as [Hm ->]. intros H. split; [exact Hm|].
  set (st1 := mkAuthState _ _ _) in H. change (delete (ap_Nonce p) (au_Nonces st)) with (au_Nonces st1).
  assert (forall role, role_proof env st1 now2 clientIP nonceHex p role perms -> role_proof env st now2 clientIP nonceHex p role perms) as Hst.
  { intros role Hp. destruct Hp; [by apply ProofNone|by eapply ProofPair|by eapply ProofPasskey|by eapply ProofKey]. }
  destruct (nonempty (ap_PairTicket (of_wire p))) eqn:En; [|destruct (_ || _)].
  - eapply pair_login_ok in H as [-> H]. split; [done|by apply Hst].
  - eapply passkey_login_ok in H as [-> H]. split; [done|by apply Hst].
  - destruct (ap_Role (of_wire p)) eqn:Er.
    + injection H as <- <- <-. split; [done|]. rewrite Er. apply ProofNone; [|by destruct p].
      rewrite Ep in En. unfold nonempty in En. by destruct (ap_PairTicket p).
    + destruct (login_key _ _ _) as [r resp] eqn:Ek. injection H as -> <- <-. split; [done|]. by apply Hst, key_login_ok.
Qed.
End proofs.

(** ** Display names *)

(** The names of the live sessions, as sessions claim and release them.  At most
    999 sessions are live at a time. *)
Inductive names_reach : DisplayNames -> list str -> Prop :=
| NamesNone : names_reach ∅ []
| NamesClaim names live base nanos : names_reach names live -> (length live < 999)%nat ->
    names_reach (claim_name names base nanos).2 ((claim_name names base nanos).1 :: live)
| NamesRelease names l1 n l2 : names_reach names (l1 ++ n :: l2) -> names_reach (releaseDisplayName names n) (l1 ++ l2).

Lemma serial_inj base m n : serial_name base m = serial_name base n -> m = n.
Proof. unfold serial_name. intros H%app_inv_head. injection H as H. by apply itoa_inj. Qed.

(** One of the 999 candidates is free. *)
Lemma free_serial (names : DisplayNames) live base : NoDup live -> (forall n, is_Some (names !! n) <-> n ∈ live) -> (length live < 999)%nat ->
  is_Some (names !! base) ->
  exists n, List.find (fun n => match names !! serial_name base n with None => true | Some _ => false end) serials = Some n.
Proof.
  intros Hn Hd Hl Hb. destruct (List.find _ _) as [n|] eqn:Ef; [by exists n|]. exfalso.
  assert (NoDup (base :: map (serial_name base) serials)) as Hc.
  { apply NoDup_cons. split.
    - intros (n & E & _)%list_elem_of_fmap. apply (f_equal length) in E. unfold serial_name in E. rewrite length_app in E. cbn in E. lia.
    - apply NoDup_fmap_2; [intros ??; apply serial_inj|]. apply NoDup_fmap_2; [intros ??; lia|]. apply NoDup_ListNoDup, seq_NoDup. }
  assert (forall x, x ∈ base :: map (serial_name base) serials -> x ∈ live) as Hs.
  { intros x [->|(n & -> & Hin)%list_elem_of_fmap]%elem_of_cons; apply Hd; [done|].
    pose proof (find_none _ _ Ef n (proj1 (list_elem_of_In _ _) Hin)) as E. cbv beta in E. destruct (names !! serial_name base n) as [v|]; [by exists v|done]. }
  pose proof (NoDup_submseteq _ _ Hc Hs) as H%submseteq_length. cbn [length] in H. rewrite length_map in H.
  replace (length serials) with 998%nat in H by reflexivity. lia.
Qed.

Lemma names_inv names live : names_reach names live -> NoDup live /\ forall n, is_Some (names !! n) <-> n ∈ live.
Proof.
  induction 1 as [|names live base nanos Hr [Hn Hd] Hl|names l1 n l2 Hr [Hn Hd]].
  - split; [apply NoDup_nil_2|]. intros n. rewrite lookup_empty. split; [by intros [? ?]|by intros ?%elem_of_nil].
  - assert (exists n, claim_name names base nanos = (n, <[n := 1]> names) /\ names !! n = None) as (n & -> & Hfree).
    { unfold claim_name. destruct (names !! base) as [v|] eqn:Eb; [|by exists base].
      destruct (free_serial names live base Hn Hd Hl ltac:(by eexists)) as [n En]. rewrite En. exists (serial_name base n). split; [done|].
      apply find_some in En as [_ En]. by destruct (names !! serial_name base n). }
    cbn [fst snd]. split.
    + apply NoDup_cons. split; [|done]. intros Hin%Hd. rewrite Hfree in Hin. by destruct Hin.
    + intros m. rewrite elem_of_cons. destruct (decide (m = n)) as [->|Hne].
      * rewrite lookup_insert_eq. split; [by left|by eexists].
      * rewrite lookup_insert_ne by done. rewrite Hd. naive_solver.
  - unfold releaseDisplayName. apply NoDup_app in Hn as (N1 & N2 & N3). apply NoDup_cons in N3 as [N3 N4]. split.
    + apply NoDup_app. split; [done|]. split; [|done]. intros x Hx Hx2. apply (N2 x Hx). by right.
    + intros m. destruct (decide (m = n)) as [->|Hne].
      * rewrite lookup_delete_eq, elem_of_app. split; [by intros [? ?]|]. intros [H|H]; [|done]. exfalso. apply (N2 n H). by left.
      * rewrite lookup_delete_ne by done. rewrite Hd, !elem_of_app, elem_of_cons. naive_solver.
Qed.

(** No two sessions show one name.  While fewer than a thousand sessions are
    live, the names handed out to them are all different, whatever the order of
    logins and departures, and the registry holds exactly the live names: a
    departure frees its own name and no other. *)
Theorem names_distinct names live : names_reach names live ->
  NoDup live /\ forall n, is_Some (names !! n) <-> n ∈ live.
Proof. apply names_inv. Qed.

(** The fallback past the last serial is not registered: it can repeat a live
    name, whose slot its own departure would free. *)
Lemma fallback_repeats names base nanos : is_Some (names !! base) ->
  (forall n, In n serials -> is_Some (names !! serial_name base n)) -> 2 <= Z.rem nanos 1000 <= 999 ->
  claim_name names base nanos = (serial_name base (Z.rem nanos 1000), names) /\
  is_Some (names !! serial_name base (Z.rem nanos 1000)).
Proof.
  intros [v Hb] Hs Hr. unfold claim_name. rewrite Hb. destruct (List.find _ _) as [n|] eqn:Ef.
  - apply find_some in Ef as [Hin E]. destruct (Hs n Hin) as [w Hw]. by rewrite Hw in E.
  - split; [done|]. apply Hs. unfold serials. apply in_map_iff. exists (Z.to_nat (Z.rem nanos 1000)). split; [lia|]. apply in_seq. lia.
Qed.

Lemma names_distinct_witness : NoDup [lit "an#1f2e-2"; lit "an#1f2e"].
Proof.
  assert (names_reach (claim_name (claim_name ∅ (lit "an#1f2e") 0).2 (lit "an#1f2e") 0).2
            ((claim_name (claim_name ∅ (lit "an#1f2e") 0).2 (lit "an#1f2e") 0).1 :: [(claim_name ∅ (lit "an#1f2e") 0).1])) as H.
  { apply NamesClaim; [apply NamesClaim; [apply NamesNone|cbn; lia]|cbn; lia]. }
  assert (E : (claim_name (claim_name ∅ (lit "an#1f2e") 0).2 (lit "an#1f2e") 0).1 :: [(claim_name ∅ (lit "an#1f2e") 0).1]
              = [lit "an#1f2e-2"; lit "an#1f2e"]) by (vm_compute; reflexivity).
  rewrite <- E. exact (proj1 (names_distinct _ _ H)).
Defined.

(** ** The ban *)

(** What the client says of itself ranks it.  A login without a role or a
    proof gets the default permission, but keeps the authentication type of its
    own packet: claiming [passkey], it is a key-holder to the behavior engine. *)
Theorem guest_ranked_as_key `{U : Unicode, E : Ed25519, W : WebAuthn} env st doors names chains salt clients maxLen now now2 nanos clientIP host
    nonceHex onion saved p meta :
  ap_PairTicket p = [] -> ap_PasskeyID p = [] -> ap_PasskeySig p = [] -> ap_Role p = [] -> ap_AuthType p = lit "passkey" ->
  RuneCount (ap_Username p) <= ae_MaxUsernameLength env -> slen (ap_Tripcode p) <= ae_MaxTripcodeLength env ->
  au_Nonces st !! ap_Nonce p = Some meta -> nm_IP meta = clientIP -> now <= nm_ExpiresAt meta ->
  exists answer session st' names',
    authenticateClient env st doors names chains salt clients maxLen now now2 nanos clientIP host nonceHex onion saved true (ReadOk p)
      = (AuthAccepted answer session, None, st', doors, names') /\
    cs_Perms session = GetDefaultPermission /\ cs_IdentityPub session = [] /\ sessionIdentityKind session = IdKey.
Proof.
  intros H1 H2 H3 H4 H5 H6 H7 H8 H9 H10. unfold authenticateClient, HandleAuth.

  destruct p as [a b c d e f g h i j k l m n o q]. cbn [of_wire set_IdentityPub ap_PairTicket ap_PasskeyID ap_PasskeySig ap_Role ap_AuthType
    ap_Username ap_Tripcode ap_Nonce ap_TripPub ap_IdentityPub] in *. subst.
  replace (_ <? RuneCount e) with false by lia. cbn [slen length]. replace (64 <? _) with false by reflexivity.
  unfold consumeNonce. rewrite H8. unfold After. replace (_ <? now) with false by lia. rewrite str_eqb_refl. cbn [negb nonempty orb].
  cbn [ap_Tripcode]. replace (_ <? slen f) with false by lia.
  destruct (generateDisplayName _ _ _ _ _ _ _ _) as [fin names'] eqn:Eg. destruct (auth_trip _ _) as [[[tp tb] ts] tprev] eqn:Et.
  cbn [negb]. eexists _, _, _, _. split; [reflexivity|]. done.
Qed.

Definition demo_pub : str := repeat (byte_of 7) 32.
Definition demo_identity : Identity := mkIdentity (hex_encode demo_pub) (lit "shield") [].
Definition demo_env : AuthEnv :=
  mkAuthEnv {[ lit "admin" := mkRole [demo_identity] (mkPermission true (lit "* ")) ]} None false false false 32 64 [].
Definition demo_nonce : str := hex_encode (lit "nonce").
Definition demo_auth : AuthState := mkAuthState {[ demo_nonce := mkNonceMeta 100 (lit "10.0.0.1") ]} ∅ WMissing.
Definition demo_sig : str := sha512 (demo_pub ++ signedData demo_nonce (lit "admin") (lit "An") []).
Definition demo_packet : AuthPacket :=
  mkAuthPacket demo_nonce (lit "admin") (hex_encode demo_sig) (hex_encode (hmac_sha512 (lit "shield") (demo_sig ++ demo_nonce)))
    (lit "An") [] [] [] [] [] [] [] [] false [] [].

Lemma role_needs_proof_witness :
  au_Nonces (HandleAuth (E := toy_ed25519) (W := demo_webauthn)
               demo_env demo_auth 50 50 (lit "10.0.0.1") demo_nonce false true (ReadOk demo_packet)).2 = ∅.
Proof.
  destruct (HandleAuth (E := toy_ed25519) (W := demo_webauthn)
               demo_env demo_auth 50 50 (lit "10.0.0.1") demo_nonce false true (ReadOk demo_packet)) as [[[perms|e] packet] st'] eqn:H.
  - destruct (role_needs_proof _ _ _ _ _ _ _ _ _ _ _ _ H) as (_ & E & _). cbn [snd]. rewrite E. by vm_compute.
  - apply (f_equal (fun x => is_ok x.1.1)) in H. revert H. vm_compute. discriminate.
Defined.

Definition demo_guest : AuthPacket :=
  mkAuthPacket demo_nonce [] [] [] (lit "An") [] [] [] [] [] [] [] (lit "passkey") false [] [].

Lemma guest_ranked_as_key_witness : exists answer session,
  (authenticateClient (U := sample_unicode) (E := toy_ed25519) (W := demo_webauthn) demo_env demo_auth NewDoors ∅ ∅ [] 0 (Some 32)
     50 50 0 (lit "10.0.0.1") (lit "host") demo_nonce false true true (ReadOk demo_guest)).1.1.1.1 = AuthAccepted answer session /\
  sessionIdentityKind session = IdKey.
Proof.
  destruct (guest_ranked_as_key (U := sample_unicode) (E := toy_ed25519) (W := demo_webauthn) demo_env demo_auth NewDoors ∅ ∅ [] 0 (Some 32)
     50 50 0 (lit "10.0.0.1") (lit "host") demo_nonce false true demo_guest (mkNonceMeta 100 (lit "10.0.0.1"))
     eq_refl eq_refl eq_refl eq_refl eq_refl ltac:(vm_compute; discriminate) ltac:(vm_compute; discriminate) ltac:(by vm_compute) eq_refl
     ltac:(vm_compute; discriminate)) as (answer & session & st' & names' & -> & _ & _ & Hk).
  by exists answer, session.
Defined.
