(* ===== verification/Hub.v ===== *)
(** Presence and delivery ([server/clientHandler.go], the fanout of
    [server/history.go], [alertConcurrentIdentity] of [server/auth.go]): the
    client map, the 256-frame send queues, the identity slots, the date banner
    and the join and leave lines.  The queue of a session is its channel; the
    write pump takes frames from its head. *)

From S2P Require Import Prelude Bytes Utf8 Wire Json Filter ChainLink ChainService History Attack Admit Auth.
Local Open Scope Z_scope.

(** * Queues *)

(** What a frame carries: a chained line as it is linked, an unchained stored
    line, or something for this session only. *)
Inductive frame := Live (line : str) | Stored (line : str) | Direct (data : str).

(** A session object: its queue, what the write pump has sent, whether its
    channel was closed, and how many chained lines were shed for it. *)
Record Peer := mkPeer {
  pe_session : ClientSession;
  pe_queue : list frame;
  pe_sent : list frame;
  pe_closed : bool;
  pe_missed : Z
}.

Definition sendCap : nat := 256.

Definition new_peer (s : ClientSession) : Peer := mkPeer s [] [] false 0.

Definition set_queue (p : Peer) (q : list frame) : Peer := mkPeer (pe_session p) q (pe_sent p) (pe_closed p) (pe_missed p).

(** One frame of the write pump. *)
Definition pump (p : Peer) : Peer :=
  match pe_queue p with
  | [] => p
  | f :: q => mkPeer (pe_session p) q (pe_sent p ++ [f]) (pe_closed p) (pe_missed p)
  end.

Definition full (p : Peer) : bool := (sendCap <=? length (pe_queue p))%nat.

Definition shed (p : Peer) (f : frame) : Peer :=
  mkPeer (pe_session p) (pe_queue p) (pe_sent p) (pe_closed p) (match f with Live _ => pe_missed p + 1 | _ => pe_missed p end).

(** [select { case Send <- f: default: }]; the flag is a drop. *)
Definition try_send (p : Peer) (f : frame) : Peer * bool :=
  if full p then (shed p f, true) else (set_queue p (pe_queue p ++ [f]), false).

(** [drained]: the pump freed a place within the 20 milliseconds. *)
Definition sendWithRetry (drained : bool) (p : Peer) (f : frame) (isSystem : bool) : Peer * bool :=
  if full p && isSystem && drained then try_send (pump p) f else try_send p f.

(** * The hub *)

Record Hub := mkHub {
  hb_chain : ChainService;
  hb_Clients : gset nat;
  hb_peers : gmap nat Peer;            (* every session object, by its socket *)
  hb_ActiveIdentities : gmap str nat;
  hb_DisplayNameCount : DisplayNames;
  hb_LastMessageDate : str;
  hb_stat : RejectStat
}.

Definition with_chain (h : Hub) (c : ChainService) : Hub :=
  mkHub c (hb_Clients h) (hb_peers h) (hb_ActiveIdentities h) (hb_DisplayNameCount h) (hb_LastMessageDate h) (hb_stat h).
Definition with_clients (h : Hub) (cl : gset nat) : Hub :=
  mkHub (hb_chain h) cl (hb_peers h) (hb_ActiveIdentities h) (hb_DisplayNameCount h) (hb_LastMessageDate h) (hb_stat h).
Definition with_peers (h : Hub) (ps : gmap nat Peer) (st : RejectStat) : Hub :=
  mkHub (hb_chain h) (hb_Clients h) ps (hb_ActiveIdentities h) (hb_DisplayNameCount h) (hb_LastMessageDate h) st.
Definition with_identities (h : Hub) (m : gmap str nat) : Hub :=
  mkHub (hb_chain h) (hb_Clients h) (hb_peers h) m (hb_DisplayNameCount h) (hb_LastMessageDate h) (hb_stat h).
Definition with_names (h : Hub) (m : DisplayNames) : Hub :=
  mkHub (hb_chain h) (hb_Clients h) (hb_peers h) (hb_ActiveIdentities h) m (hb_LastMessageDate h) (hb_stat h).
Definition with_date (h : Hub) (d : str) : Hub :=
  mkHub (hb_chain h) (hb_Clients h) (hb_peers h) (hb_ActiveIdentities h) (hb_DisplayNameCount h) d (hb_stat h).

(** One non-blocking send to a session object. *)
Definition send_to (h : Hub) (c : nat) (f : frame) : Hub :=
  match hb_peers h !! c with
  | None => h
  | Some p =>
      let '(p, dropped) := try_send p f in
      with_peers h (<[c := p]> (hb_peers h)) (if dropped then addDrop (hb_stat h) else hb_stat h)
  end.

(** The place of one peer in a fanout: whether it is a client, the sender, and
    echoed to. *)
Definition fan_one (h : Hub) (drain : nat -> bool) (f : frame) (sender : option nat) (isSystem echo : bool) (c : nat) (p : Peer) : Peer * bool :=
  if bool_decide (c ∈ hb_Clients h) then
    if bool_decide (sender = Some c) then (if echo then try_send p f else (p, false))
    else sendWithRetry (drain c) p f isSystem
  else (p, false).

Definition drops_of (h : Hub) (drain : nat -> bool) f sender isSystem echo : nat :=
  size (filter (fun kv => (fan_one h drain f sender isSystem echo kv.1 kv.2).2 = true) (hb_peers h)).

Definition fanout (h : Hub) (drain : nat -> bool) (f : frame) (sender : option nat) (isSystem echo : bool) : Hub :=
  with_peers h (map_imap (fun c p => Some (fan_one h drain f sender isSystem echo c p).1) (hb_peers h))
    (Nat.iter (drops_of h drain f sender isSystem echo) addDrop (hb_stat h)).

(** [unicastData]: only while the session is registered. *)
Definition unicastData (h : Hub) (c : nat) (data : str) : Hub :=
  if bool_decide (c ∈ hb_Clients h) then send_to h c (Direct data) else h.

Definition unicastNotice (h : Hub) (clock : str) (c : nat) (text : str) (leaves : list str) : Hub :=
  unicastData h c (marshal_wire (noticeWire clock text leaves)).

Section hub.
Context {U : Unicode}.
Variable maxBytes : Z.       (* the RAM history bound *)

(** The unchained lines: stored under the chain's lock, then fanned out. *)
Definition hub_BroadcastNotice (h : Hub) (drain : nat -> bool) (clock ts text : str) (leaves : list str) (sender : option nat) : Hub :=
  let '(data, c) := BroadcastNotice maxBytes clock ts (hb_chain h) text leaves in
  fanout (with_chain h c) drain (Stored data) sender true false.

Definition hub_BroadcastDate (h : Hub) (drain : nat -> bool) (clock ts text day : str) : Hub :=
  let '(data, c) := BroadcastDate maxBytes clock ts (hb_chain h) text day in
  fanout (with_chain h c) drain (Stored data) None true false.

Definition hub_BroadcastVote (h : Hub) (drain : nat -> bool) (clock ts : str) (target upvotes downvotes : Z) : Hub :=
  let '(data, c) := BroadcastVote maxBytes clock ts (hb_chain h) target upvotes downvotes in
  fanout (with_chain h c) drain (Stored data) None true false.

(** The chained line: linked and fanned out under [BroadcastMu], echoed to its
    sender. *)
Definition hub_BroadcastWire (h : Hub) (drain : nat -> bool) (ts : str) (w : WireMessage) (sender : nat) (serverPub : str) : Hub :=
  let '(data, c) := BroadcastWire maxBytes ts (hb_chain h) w serverPub in
  fanout (with_chain h c) drain (Live data) (Some sender) false true.

(** The clock readings a broadcast formats: the wall clock, the record's
    timestamp, the banner's day and the machine's day. *)
Record Stamp := mkStamp { st_Clock : str; st_TS : str; st_Date : str; st_Day : str }.

Definition grey (s : str) : str := ESC :: lit "[90m" ++ s ++ ESC :: lit "[0m".
Definition cyan (s : str) : str := ESC :: lit "[36m" ++ s ++ ESC :: lit "[0m".

Definition CheckAndBroadcastDate (h : Hub) (drain : nat -> bool) (now : Stamp) : Hub :=
  if str_eqb (hb_LastMessageDate h) [] || negb (str_eqb (hb_LastMessageDate h) (st_Date now)) then
    hub_BroadcastDate (with_date h (st_Date now)) drain (st_Clock now) (st_TS now)
      (cyan (lit "--- Ngày " ++ st_Date now ++ lit " ---")) (st_Day now)
  else h.

Definition info_fields (i : HistoryInfo) : list (str * json) :=
  fstr "type" (lit "history_info") ++ oint "min_seq" (hi_MinSeq i) ++ oint "max_seq" (hi_MaxSeq i) ++
  oint "min_height" (hi_MinHeight i) ++ oint "max_height" (hi_MaxHeight i) ++ oint "count" (hi_Count i).

Definition info_frame (c : ChainService) : str := print (JObj (info_fields (historyInfo c))).

Definition concurrent_text (newClientIP : str) : str :=
  grey (lit "[He thong]: Danh tinh cua ban vua duoc dang nhap tu " ++ newClientIP ++ lit ".").

Definition alertConcurrentIdentity (h : Hub) (clock identityPubHex newClientIP : str) : Hub :=
  match hb_ActiveIdentities h !! identityPubHex with
  | None => h
  | Some prev =>
      if bool_decide (prev ∈ hb_Clients h)
      then send_to h prev (Direct (marshal_wire (noticeWire clock (concurrent_text newClientIP) [TagAuth])))
      else h
  end.

(** The alert a key-file login raises inside the handshake.  Only that path
    leaves an identity in an accepted packet. *)
Definition handshake_alert (h : Hub) (clock clientIP : str) (r : res auth_error Permission) (packet : AuthPacket) : Hub :=
  match r, ap_IdentityPub packet with
  | Err _, _ | _, [] => h
  | Ok _, identityPub => alertConcurrentIdentity h clock identityPub clientIP
  end.

Definition join_text (clock name : str) : str := grey clock ++ lit " [Hệ thống]: " ++ name ++ lit " đã tham gia phòng chat!".
Definition leave_text (clock name : str) : str := grey clock ++ lit " [Hệ thống]: " ++ name ++ lit " đã rời phòng chat.".

(** The identity slot of a new session: the newest login owns it. *)
Definition claim_identity (h : Hub) (clock : str) (c : nat) (identityPub clientIP : str) : Hub :=
  match identityPub with
  | [] => h
  | _ =>
      match hb_ActiveIdentities h !! identityPub with
      | None => with_identities h (<[identityPub := c]> (hb_ActiveIdentities h))
      | Some old =>
          if bool_decide (old = c) then h
          else
            let h := alertConcurrentIdentity h clock identityPub clientIP in
            with_identities h (<[identityPub := c]> (hb_ActiveIdentities h))
      end
  end.

(** The window frame, the date and the join line, under [BroadcastMu]. *)
Definition announce (h : Hub) (drain : nat -> bool) (now : Stamp) (c : nat) (name : str) : Hub :=
  let h := send_to h c (Direct (info_frame (hb_chain h))) in
  let h := CheckAndBroadcastDate h drain now in
  hub_BroadcastNotice h drain (st_Clock now) (st_TS now) (join_text (st_Clock now) name) [TagJoin] None.

Definition registerClient (h : Hub) (drain : nat -> bool) (now : Stamp) (c : nat) (session : ClientSession) (clientIP : str) : Hub :=
  let h := with_clients h ({[c]} ∪ hb_Clients h) in
  let h := claim_identity h (st_Clock now) c (cs_IdentityPub session) clientIP in
  announce h drain now c (cs_DisplayName session).

Definition close_peer (h : Hub) (c : nat) : Hub :=
  with_peers h (alter (fun p => mkPeer (pe_session p) (pe_queue p) (pe_sent p) true (pe_missed p)) c (hb_peers h)) (hb_stat h).

Definition release_identity (h : Hub) (c : nat) (identityPub : str) : Hub :=
  match identityPub with
  | [] => h
  | _ => if bool_decide (hb_ActiveIdentities h !! identityPub = Some c)
         then with_identities h (delete identityPub (hb_ActiveIdentities h)) else h
  end.

Definition unregisterClient (h : Hub) (drain : nat -> bool) (now : Stamp) (c : nat) (session : ClientSession) : Hub :=
  if negb (bool_decide (c ∈ hb_Clients h)) then h
  else
    let h := with_clients h (hb_Clients h ∖ {[c]}) in
    let h := release_identity h c (cs_IdentityPub session) in
    let h := with_names h (releaseDisplayName (hb_DisplayNameCount h) (cs_DisplayName session)) in
    let h := close_peer h c in
    let h := CheckAndBroadcastDate h drain now in
    hub_BroadcastNotice h drain (st_Clock now) (st_TS now) (leave_text (st_Clock now) (cs_DisplayName session)) [TagLeave] None.
End hub.

(** * Theorems *)

(** ** What a send does to a queue *)

Lemma sublist_full {A} (l k : list A) : l `sublist_of` k -> length l = length k -> l = k.
Proof.
  induction 1 as [|x l k H IH|x l k H IH]; cbn; [done|..]; intros E.
  - f_equal. apply IH. lia.
  - apply sublist_length in H. lia.
Qed.


Definition live_of (p : Peer) : list str :=
  omap (fun f => match f with Live l => Some l | _ => None end) (pe_sent p ++ pe_queue p).

Definition live_line (f : frame) : list str := match f with Live l => [l] | _ => [] end.

Lemma live_pump p : live_of (pump p) = live_of p.
Proof. unfold live_of, pump. destruct (pe_queue p) as [|f q] eqn:E; [by rewrite E|]. cbn [pe_sent pe_queue]. by rewrite <- app_assoc. Qed.

Lemma live_try_send p f :
  let '(p', dropped) := try_send p f in
  live_of p' = live_of p ++ (if dropped : bool then [] else live_line f) /\
  pe_missed p' = pe_missed p + (if dropped then match f with Live _ => 1 | _ => 0 end else 0) /\
  pe_closed p' = pe_closed p /\ pe_session p' = pe_session p /\
  (length (pe_queue p) <= sendCap -> length (pe_queue p') <= sendCap)%nat.
Proof.
  unfold try_send, full. destruct (sendCap <=? length (pe_queue p))%nat eqn:E.
  - unfold live_of, shed. cbn. rewrite app_nil_r. destruct f; repeat split; try done; lia.
  - unfold live_of, set_queue. cbn [pe_sent pe_queue pe_missed pe_closed pe_session]. rewrite app_assoc, omap_app. split; [|repeat split; try done; try lia].
    + f_equal. by destruct f.
    + intros _. rewrite length_app. cbn. apply Nat.leb_gt in E. lia.
Qed.

Lemma live_retry drained p f sys :
  let '(p', dropped) := sendWithRetry drained p f sys in
  live_of p' = live_of p ++ (if dropped : bool then [] else live_line f) /\
  pe_missed p' = pe_missed p + (if dropped then match f with Live _ => 1 | _ => 0 end else 0) /\
  pe_closed p' = pe_closed p /\ pe_session p' = pe_session p /\
  (length (pe_queue p) <= sendCap -> length (pe_queue p') <= sendCap)%nat.
Proof.
  unfold sendWithRetry. destruct (_ && _); [|apply live_try_send].
  pose proof (live_try_send (pump p) f) as H. destruct (try_send (pump p) f) as [p' dropped]. rewrite live_pump in H.
  assert (pe_missed (pump p) = pe_missed p /\ pe_closed (pump p) = pe_closed p /\ pe_session (pump p) = pe_session p /\
    (length (pe_queue (pump p)) <= length (pe_queue p))%nat) as (E1 & E2 & E3 & E4).
  { unfold pump. destruct (pe_queue p) eqn:E; cbn; rewrite ?E; repeat split; cbn; lia. }
  rewrite E1, E2, E3 in H. destruct H as (H1 & H2 & H3 & H4 & H5). repeat split; try done. intros Hl. apply H5. lia.
Qed.

Lemma live_fan_one h drain f sender sys echo c p : (c ∈ hb_Clients h -> sender <> Some c \/ echo = true) ->
  let '(p', dropped) := fan_one h drain f sender sys echo c p in
  let tried := bool_decide (c ∈ hb_Clients h) in
  live_of p' = live_of p ++ (if tried && negb dropped then live_line f else []) /\
  pe_missed p' = pe_missed p + (if tried && dropped then match f with Live _ => 1 | _ => 0 end else 0) /\
  pe_closed p' = pe_closed p /\ pe_session p' = pe_session p /\
  (length (pe_queue p) <= sendCap -> length (pe_queue p') <= sendCap)%nat.
Proof.
  intros Hs. unfold fan_one. destruct (bool_decide (c ∈ hb_Clients h)) eqn:Ec; cbn [andb].
  - apply bool_decide_eq_true in Ec. specialize (Hs Ec). destruct (bool_decide (sender = Some c)) eqn:Es.
    + apply bool_decide_eq_true in Es. destruct Hs as [?| ->]; [done|].
      pose proof (live_try_send p f) as H. destruct (try_send p f) as [p' []]; exact H.
    + pose proof (live_retry (drain c) p f sys) as H. destruct (sendWithRetry _ _ _ _) as [p' []]; exact H.
  - rewrite app_nil_r. repeat split; try done. lia.
Qed.

(** ** The hub at work

    The steps of the goroutines at the grain of their locks: a chained line is
    linked and then fanned out while [BroadcastMu] is held; an unchained line is
    stored and fanned out by itself; sessions come, go and drain their queues;
    a replay sends straight to its session.  A replay that finds the channel
    closed panics: the server survives it, and the lock is released only where
    the unlock was deferred. *)

Inductive lock := Free | Pending (line : str) (sender : nat) | Stuck.

Record HubRun := mkRun {
  hr_hub : Hub;
  hr_lock : lock;
  hr_links : list str;          (* the chained lines, in the order they were linked *)
  hr_fanned : nat;              (* how many of them were fanned out *)
  hr_since : gmap nat nat       (* that number when the session registered *)
}.

Section machine.
Context {U : Unicode}.
Variable maxBytes : Z.
Variable serverPub : str.

Definition on_hub (r : HubRun) (h : Hub) : HubRun := mkRun h (hr_lock r) (hr_links r) (hr_fanned r) (hr_since r).

Definition is_closed (h : Hub) (c : nat) : bool := match hb_peers h !! c with Some p => pe_closed p | None => false end.

Inductive hub_step : HubRun -> HubRun -> Prop :=
| SLink r ts w sender data c : hr_lock r = Free -> BroadcastWire maxBytes ts (hb_chain (hr_hub r)) w serverPub = (data, c) ->
    hub_step r (mkRun (with_chain (hr_hub r) c) (Pending data sender) (hr_links r ++ [data]) (hr_fanned r) (hr_since r))
| SFan r drain data sender : hr_lock r = Pending data sender ->
    hub_step r (mkRun (fanout (hr_hub r) drain (Live data) (Some sender) false true) Free (hr_links r) (S (hr_fanned r)) (hr_since r))
| SStored r drain ts w sender data c : storeSystem maxBytes ts (hb_chain (hr_hub r)) w = (data, c) ->
    hub_step r (on_hub r (fanout (with_chain (hr_hub r) c) drain (Stored data) sender true false))
| SDirect r c data : hub_step r (on_hub r (unicastData (hr_hub r) c data))
| SRegister r c s : hb_peers (hr_hub r) !! c = None ->
    hub_step r (mkRun (with_clients (with_peers (hr_hub r) (<[c := new_peer s]> (hb_peers (hr_hub r))) (hb_stat (hr_hub r)))
                         ({[c]} ∪ hb_Clients (hr_hub r)))
                  (hr_lock r) (hr_links r) (hr_fanned r) (<[c := hr_fanned r]> (hr_since r)))
| SUnlist r c : hub_step r (on_hub r (with_clients (hr_hub r) (hb_Clients (hr_hub r) ∖ {[c]})))
| SClose r c : c ∉ hb_Clients (hr_hub r) -> hub_step r (on_hub r (close_peer (hr_hub r) c))
| SPump r c : hub_step r (on_hub r (with_peers (hr_hub r) (alter pump c (hb_peers (hr_hub r))) (hb_stat (hr_hub r))))
| SBook r ids names date : hub_step r (on_hub r (with_date (with_names (with_identities (hr_hub r) ids) names) date))
| SReplay r c data : hr_lock r = Free -> is_closed (hr_hub r) c = false -> hub_step r (on_hub r (send_to (hr_hub r) c (Direct data)))
| SReplayPanic r c (deferred : bool) : hr_lock r = Free -> is_closed (hr_hub r) c = true ->
    hub_step r (mkRun (hr_hub r) (if deferred then Free else Stuck) (hr_links r) (hr_fanned r) (hr_since r)).

Definition hub_reach_from : HubRun -> HubRun -> Prop := rtc hub_step.

Definition hub_start (c : ChainService) : HubRun := mkRun (mkHub c ∅ ∅ ∅ ∅ [] zeroRejects) Free [] 0 ∅.

Definition pending_links (l : lock) : nat := match l with Pending _ _ => 1 | _ => 0 end.

(** One peer against the lines fanned out since it registered. *)
Record peer_inv (r : HubRun) (c : nat) (p : Peer) (n : nat) : Prop := {
  pv_since : (n <= hr_fanned r)%nat;
  pv_order : live_of p `sublist_of` drop n (take (hr_fanned r) (hr_links r));
  pv_count : c ∈ hb_Clients (hr_hub r) -> Z.of_nat (length (live_of p)) + pe_missed p = Z.of_nat (hr_fanned r - n);
  pv_missed : 0 <= pe_missed p;
  pv_cap : (length (pe_queue p) <= sendCap)%nat
}.

Record hub_inv (r : HubRun) : Prop := {
  hv_links : length (hr_links r) = (hr_fanned r + pending_links (hr_lock r))%nat;
  hv_pending : forall data sender, hr_lock r = Pending data sender -> hr_links r = take (hr_fanned r) (hr_links r) ++ [data];
  hv_peers : forall c p, hb_peers (hr_hub r) !! c = Some p -> exists n, hr_since r !! c = Some n /\ peer_inv r c p n;
  hv_open : forall c, c ∈ hb_Clients (hr_hub r) -> exists p, hb_peers (hr_hub r) !! c = Some p /\ pe_closed p = false
}.

(** A step that keeps what the sessions received of the chain. *)
Record same_peer (p p' : Peer) : Prop := {
  sp_live : live_of p' = live_of p;
  sp_missed : pe_missed p' = pe_missed p;
  sp_cap : (length (pe_queue p) <= sendCap -> length (pe_queue p') <= sendCap)%nat
}.

Lemma same_peer_refl p : same_peer p p.
Proof. by split. Qed.

Lemma hub_inv_mono r h : hub_inv r -> hb_Clients h ⊆ hb_Clients (hr_hub r) ->
  (forall c p', hb_peers h !! c = Some p' -> exists p, hb_peers (hr_hub r) !! c = Some p /\ same_peer p p') ->
  (forall c, c ∈ hb_Clients h -> exists p', hb_peers h !! c = Some p' /\ pe_closed p' = false) ->
  hub_inv (on_hub r h).
Proof.
  intros [I1 I2 I3 I4] Hcl Hp Ho. split; cbn [on_hub hr_hub hr_lock hr_links hr_fanned hr_since]; try done.
  intros c p' Hp'. destruct (Hp c p' Hp') as (p & Hpp & [S1 S2 S3]). destruct (I3 c p Hpp) as (n & Hn & [P1 P2 P3 P4 P5]).
  exists n. split; [done|]. split; cbn [on_hub hr_hub hr_links hr_fanned]; rewrite ?S1, ?S2; auto.
Qed.

Lemma send_to_same h c data c' p' : hb_peers (send_to h c (Direct data)) !! c' = Some p' ->
  exists p, hb_peers h !! c' = Some p /\ same_peer p p' /\ pe_closed p' = pe_closed p.
Proof.
  unfold send_to. destruct (hb_peers h !! c) as [p|] eqn:Ep; [|intros H; exists p'; by split_and!].
  pose proof (live_try_send p (Direct data)) as H. destruct (try_send p (Direct data)) as [q dropped]. cbn [with_peers hb_peers].
  destruct H as (H1 & H2 & H3 & H4 & H5). intros [[<- <-]|[Hne Hp]]%lookup_insert_Some; [|by exists p'; split_and!].
  exists p. split; [done|]. split; [|done]. split; [|destruct dropped; lia|done].
  rewrite H1. destruct dropped; by rewrite app_nil_r.
Qed.

Lemma send_to_present h c data c' : is_Some (hb_peers h !! c') -> is_Some (hb_peers (send_to h c (Direct data)) !! c').
Proof.
  unfold send_to. destruct (hb_peers h !! c) as [p|] eqn:Ep; [|done]. destruct (try_send p _) as [q dropped]. cbn [with_peers hb_peers].
  intros H. rewrite lookup_insert_is_Some. destruct (decide (c = c')); [by left|by right].
Qed.

Lemma send_to_clients h c f : hb_Clients (send_to h c f) = hb_Clients h.
Proof. unfold send_to. destruct (_ !! _); [|done]. by destruct (try_send _ _). Qed.

Lemma inv_send r c data : hub_inv r -> hub_inv (on_hub r (send_to (hr_hub r) c (Direct data))).
Proof.
  intros Hi. apply hub_inv_mono; [done|by rewrite send_to_clients|..].
  - intros c' p' (p & H1 & H2 & _)%send_to_same. by exists p.
  - intros c'. rewrite send_to_clients. intros Hc. destruct (hv_open r Hi c' Hc) as (p & Hp & Hcl).
    destruct (send_to_present (hr_hub r) c data c' ltac:(by eexists)) as [p' Hp']. exists p'. split; [done|].
    apply send_to_same in Hp' as (p0 & Hp0 & _ & E). rewrite E. congruence.
Qed.

Lemma fanout_lookup h drain f sender sys echo c : hb_peers (fanout h drain f sender sys echo) !! c =
  (fun p => (fan_one h drain f sender sys echo c p).1) <$> hb_peers h !! c.
Proof. unfold fanout. cbn [with_peers hb_peers]. rewrite map_lookup_imap. by destruct (hb_peers h !! c). Qed.

Lemma inv_stored r drain line sender c : hub_inv r ->
  hub_inv (on_hub r (fanout (with_chain (hr_hub r) c) drain (Stored line) sender true false)).
Proof.
  intros Hi. apply hub_inv_mono; [done|done|..].
  - intros c' p'. rewrite fanout_lookup. intros (p & Hp & ->)%fmap_Some. exists p. split; [done|].
    unfold fan_one. destruct (bool_decide (c' ∈ _)); [|apply same_peer_refl]. destruct (bool_decide (sender = _)); [apply same_peer_refl|].
    pose proof (live_retry (drain c') p (Stored line) true) as H. destruct (sendWithRetry _ _ _ _) as [q dropped]. cbn [fst].
    destruct H as (H1 & H2 & _ & _ & H5). split; [rewrite H1; destruct dropped; by rewrite app_nil_r|destruct dropped; lia|done].
  - intros c' Hc. destruct (hv_open r Hi c' Hc) as (p & Hp & Hcl). rewrite fanout_lookup. cbn [with_chain hb_peers]. rewrite Hp. cbn [fmap option_fmap option_map].
    eexists. split; [reflexivity|]. unfold fan_one. destruct (bool_decide (c' ∈ _)); [|done]. destruct (bool_decide (sender = _)); [done|].
    pose proof (live_retry (drain c') p (Stored line) true) as H. destruct (sendWithRetry _ _ _ _) as [q dropped]. cbn [fst].
    destruct H as (_ & _ & -> & _). done.
Qed.

Lemma inv_link r w_data sender c : hub_inv r -> hr_lock r = Free ->
  hub_inv (mkRun (with_chain (hr_hub r) c) (Pending w_data sender) (hr_links r ++ [w_data]) (hr_fanned r) (hr_since r)).
Proof.
  intros [I1 I2 I3 I4] Hl. rewrite Hl in I1. cbn [pending_links] in I1.
  assert (take (hr_fanned r) (hr_links r ++ [w_data]) = hr_links r) as Ht by (rewrite take_app_le by lia; apply take_ge; lia).
  split; cbn [hr_hub hr_lock hr_links hr_fanned hr_since pending_links].
  - rewrite length_app. cbn. lia.
  - intros data s [= <- <-]. by rewrite Ht.
  - intros c' p Hp. destruct (I3 c' p Hp) as (n & Hn & [P1 P2 P3 P4 P5]). exists n. split; [done|].
    split; cbn [hr_hub hr_links hr_fanned]; try done. rewrite Ht. by rewrite take_ge in P2 by lia.
  - done.
Qed.

Lemma inv_fan r drain data sender : hub_inv r -> hr_lock r = Pending data sender ->
  hub_inv (mkRun (fanout (hr_hub r) drain (Live data) (Some sender) false true) Free (hr_links r) (S (hr_fanned r)) (hr_since r)).
Proof.
  intros [I1 I2 I3 I4] Hl. pose proof (I2 _ _ Hl) as Hlinks. rewrite Hl in I1. cbn [pending_links] in I1.
  assert (take (S (hr_fanned r)) (hr_links r) = take (hr_fanned r) (hr_links r) ++ [data]) as Ht by (rewrite <- Hlinks; apply take_ge; lia).
  assert (length (take (hr_fanned r) (hr_links r)) = hr_fanned r) as Hlen by (rewrite length_take; lia).
  split; cbn [hr_hub hr_lock hr_links hr_fanned hr_since pending_links]; [lia|done|..].
  - intros c p'. rewrite fanout_lookup. intros (p & Hp & ->)%fmap_Some. destruct (I3 c p Hp) as (n & Hn & [P1 P2 P3 P4 P5]). exists n. split; [done|].
    pose proof (live_fan_one (hr_hub r) drain (Live data) (Some sender) false true c p ltac:(by right)) as H.
    destruct (fan_one _ _ _ _ _ _ _ _) as [q dropped]. cbn [fst]. destruct H as (H1 & H2 & H3 & H4 & H5). cbn [live_line] in H1.
    split; cbn [hr_hub hr_links hr_fanned]; [lia|..].
    + rewrite Ht, drop_app_le by lia. rewrite H1. apply sublist_app; [done|]. destruct (_ && _); [done|apply sublist_nil_l].
    + unfold fanout. cbn [with_peers hb_Clients]. intros Hc. specialize (P3 Hc). rewrite H1, H2, length_app. rewrite bool_decide_true by done.
      cbn [andb]. destruct dropped; cbn [negb length]; lia.
    + rewrite H2. clear -P4. destruct (_ && dropped); lia.
    + auto.
  - intros c Hc. destruct (I4 c Hc) as (p & Hp & Hcl). rewrite fanout_lookup, Hp. cbn [fmap option_fmap option_map]. eexists. split; [reflexivity|].
    pose proof (live_fan_one (hr_hub r) drain (Live data) (Some sender) false true c p ltac:(by right)) as H.
    destruct (fan_one _ _ _ _ _ _ _ _) as [q dropped]. cbn [fst]. destruct H as (_ & _ & -> & _). done.
Qed.

Lemma inv_register r c s : hub_inv r -> hb_peers (hr_hub r) !! c = None ->
  hub_inv (mkRun (with_clients (with_peers (hr_hub r) (<[c := new_peer s]> (hb_peers (hr_hub r))) (hb_stat (hr_hub r)))
                    ({[c]} ∪ hb_Clients (hr_hub r)))
             (hr_lock r) (hr_links r) (hr_fanned r) (<[c := hr_fanned r]> (hr_since r))).
Proof.
  intros [I1 I2 I3 I4] Hc. split; cbn [hr_hub hr_lock hr_links hr_fanned hr_since with_clients with_peers hb_peers hb_Clients]; try done.
  - intros c' p [[<- <-]|[Hne Hp]]%lookup_insert_Some.
    + exists (hr_fanned r). rewrite lookup_insert_eq. split; [done|]. split; cbn [hr_hub hr_links hr_fanned]; try done.
      * apply sublist_nil_l.
      * intros _. cbn. lia.
      * cbn. unfold sendCap. lia.
    + destruct (I3 c' p Hp) as (n & Hn & [P1 P2 P3 P4 P5]). exists n. rewrite lookup_insert_ne by done. split; [done|].
      split; cbn [hr_hub hr_links hr_fanned with_clients hb_Clients]; try done. intros [->%elem_of_singleton|Hc']%elem_of_union; [done|by apply P3].
  - intros c' [->%elem_of_singleton|Hc']%elem_of_union; [exists (new_peer s); by rewrite lookup_insert_eq|].
    destruct (I4 c' Hc') as (p & Hp & Hcl). exists p. rewrite lookup_insert_ne by congruence. done.
Qed.

Lemma inv_alter r c g : hub_inv r -> (forall p, same_peer p (g p)) -> (forall p, c ∈ hb_Clients (hr_hub r) -> pe_closed (g p) = pe_closed p) ->
  hub_inv (on_hub r (with_peers (hr_hub r) (alter g c (hb_peers (hr_hub r))) (hb_stat (hr_hub r)))).
Proof.
  intros Hi Hg Hcl. apply hub_inv_mono; [done|done|..]; cbn [with_peers hb_peers hb_Clients].
  - intros c' p'. destruct (decide (c' = c)) as [->|Hne]; [|rewrite lookup_alter_ne by done; intros H; exists p'; split; [done|apply same_peer_refl]].
    rewrite lookup_alter_eq. intros (p & Hp & ->)%fmap_Some. by exists p.
  - intros c' Hc'. destruct (hv_open r Hi c' Hc') as (p & Hp & Ho). destruct (decide (c' = c)) as [->|Hne].
    + exists (g p). rewrite lookup_alter_eq, Hp. split; [done|]. by rewrite Hcl.
    + exists p. by rewrite lookup_alter_ne.
Qed.

Lemma hub_step_inv r r' : hub_inv r -> hub_step r r' -> hub_inv r'.
Proof.
  intros Hi Hs. destruct Hs.
  - by apply inv_link.
  - by eapply inv_fan.
  - by apply inv_stored.
  - unfold unicastData. destruct (bool_decide _); [by apply inv_send|by destruct r].
  - by apply inv_register.
  - apply hub_inv_mono; [done|cbn; set_solver|..]; cbn [with_clients hb_peers hb_Clients].
    + intros c' p' Hp. exists p'. split; [done|apply same_peer_refl].
    + intros c' [Hc' _]%elem_of_difference. by apply (hv_open r Hi).
  - apply inv_alter; [done|by split|done].
  - apply inv_alter; [done|..].
    + intros p. split; [apply live_pump|by unfold pump; destruct (pe_queue p)|]. unfold pump. destruct (pe_queue p) eqn:E; rewrite ?E; cbn; lia.
    + intros p _. unfold pump. by destruct (pe_queue p).
  - by apply hub_inv_mono; [|done|intros c' p' Hp; exists p'; split; [done|apply same_peer_refl]|apply (hv_open r Hi)].
  - by apply inv_send.
  - destruct Hi as [I1 I2 I3 I4]. split; cbn [hr_hub hr_lock hr_links hr_fanned hr_since]; try done.
    + match goal with H : hr_lock r = Free |- _ => rewrite H in I1 end. by destruct deferred.
    + by destruct deferred.
    + intros c' p Hp. destruct (I3 c' p Hp) as (n & Hn & [P1 P2 P3 P4 P5]). exists n. by split.
Qed.

Definition hub_reach (c : ChainService) : HubRun -> Prop := rtc hub_step (hub_start c).

Lemma hub_reach_inv c r : hub_reach c r -> hub_inv r.
Proof.
  intros H. refine (rtc_ind_r hub_inv _ _ _ r H); [|intros r1 r2 _ Hs Hi; by eapply hub_step_inv].
  unfold hub_start. split; cbn; try done.
Qed.

(** *** The handlers are runs of these steps *)

Definition steps_to (r : HubRun) (h : Hub) : Prop :=
  exists r', rtc hub_step r r' /\ hr_hub r' = h /\ hr_lock r' = hr_lock r /\ hr_links r' = hr_links r /\ hr_fanned r' = hr_fanned r.

Lemma steps_refl r : steps_to r (hr_hub r).
Proof. by exists r. Qed.

Lemma steps_trans r h h' : steps_to r h -> (forall r', hub_reach_from r r' -> hr_hub r' = h -> hr_lock r' = hr_lock r -> steps_to r' h') -> steps_to r h'.
Proof.
  intros (r1 & H1 & E1 & E2 & E3 & E4) H. destruct (H r1 H1 E1 E2) as (r2 & H2 & F1 & F2 & F3 & F4).
  exists r2. split; [by etrans|]. repeat split; congruence.
Qed.

Lemma steps_one r h : hub_step r (on_hub r h) -> steps_to r h.
Proof. intros H. exists (on_hub r h). split; [by apply rtc_once|done]. Qed.

Lemma notice_steps r drain clock ts text leaves sender :
  steps_to r (hub_BroadcastNotice maxBytes (hr_hub r) drain clock ts text leaves sender).
Proof.
  unfold hub_BroadcastNotice, BroadcastNotice, broadcastSystem. destruct (storeSystem _ _ _ _) as [data c] eqn:E.
  apply steps_one. by eapply SStored.
Qed.

Lemma hub_eta h : with_date (with_names (with_identities h (hb_ActiveIdentities h)) (hb_DisplayNameCount h)) (hb_LastMessageDate h) = h.
Proof. by destruct h. Qed.

Lemma identities_steps r m : steps_to r (with_identities (hr_hub r) m).
Proof.
  apply steps_one. replace (with_identities (hr_hub r) m) with
    (with_date (with_names (with_identities (hr_hub r) m) (hb_DisplayNameCount (hr_hub r))) (hb_LastMessageDate (hr_hub r)))
    by by destruct (hr_hub r). apply SBook.
Qed.

Lemma names_steps r m : steps_to r (with_names (hr_hub r) m).
Proof.
  apply steps_one. replace (with_names (hr_hub r) m) with
    (with_date (with_names (with_identities (hr_hub r) (hb_ActiveIdentities (hr_hub r))) m) (hb_LastMessageDate (hr_hub r)))
    by by destruct (hr_hub r). apply SBook.
Qed.

Lemma date_steps r drain now : steps_to r (CheckAndBroadcastDate maxBytes (hr_hub r) drain now).
Proof.
  unfold CheckAndBroadcastDate. destruct (_ || _); [|apply steps_refl].
  eapply (steps_trans r (with_date (hr_hub r) (st_Date now))).
  - apply steps_one. replace (with_date (hr_hub r) (st_Date now)) with
      (with_date (with_names (with_identities (hr_hub r) (hb_ActiveIdentities (hr_hub r))) (hb_DisplayNameCount (hr_hub r))) (st_Date now))
      by by destruct (hr_hub r). apply SBook.
  - intros r1 _ <- _. unfold hub_BroadcastDate, BroadcastDate, broadcastSystem. destruct (storeSystem _ _ _ _) as [data c] eqn:E.
    apply steps_one. by eapply SStored.
Qed.

Lemma unlist_peers r c : steps_to r (with_clients (hr_hub r) (hb_Clients (hr_hub r) ∖ {[c]})).
Proof. apply steps_one, SUnlist. Qed.

(** The departure handler is a run of the steps, whatever the state it
    starts in: the client is taken off the map before its channel is closed, so
    no fanout can meet the closed channel. *)
Theorem unregister_is_steps r drain now c s : steps_to r (unregisterClient maxBytes (hr_hub r) drain now c s).
Proof.
  unfold unregisterClient. destruct (negb _); [apply steps_refl|].
  eapply steps_trans; [apply (unlist_peers r c)|]. intros r1 _ H1 _. cbv zeta. rewrite <- H1.
  assert (c ∉ hb_Clients (hr_hub r1)) as Hc by (rewrite H1; cbn; set_solver).
  eapply (steps_trans r1 (release_identity (hr_hub r1) c (cs_IdentityPub s))).
  { unfold release_identity. destruct (cs_IdentityPub s); [apply steps_refl|].
    destruct (bool_decide _); [apply identities_steps|apply steps_refl]. }
  intros r2 _ H2 _. rewrite <- H2.
  assert (c ∉ hb_Clients (hr_hub r2)) as Hc2.
  { rewrite H2. unfold release_identity. destruct (cs_IdentityPub s); [done|]. by destruct (bool_decide _). }
  eapply steps_trans; [apply (names_steps r2)|]. intros r3 _ H3 _. rewrite <- H3.
  eapply (steps_trans r3 (close_peer (hr_hub r3) c)).
  { apply steps_one, SClose. by rewrite H3. }
  intros r4 _ H4 _. rewrite <- H4.
  eapply steps_trans; [apply (date_steps r4 drain now)|]. intros r5 _ H5 _. rewrite <- H5. apply notice_steps.
Qed.

Lemma claim_steps r clock c pub ip : steps_to r (claim_identity (hr_hub r) clock c pub ip).
Proof.
  unfold claim_identity. destruct pub as [|x pub]; [apply steps_refl|]. destruct (_ !! _) as [old|] eqn:E; [|apply identities_steps].
  destruct (bool_decide (old = c)); [apply steps_refl|]. cbv zeta.
  eapply (steps_trans r (alertConcurrentIdentity (hr_hub r) clock (x :: pub) ip)).
  - unfold alertConcurrentIdentity. rewrite E.
    pose proof (SDirect r old (marshal_wire (noticeWire clock (concurrent_text ip) [TagAuth]))) as H. unfold unicastData in H.
    destruct (bool_decide _); [by apply steps_one|apply steps_refl].
  - intros r1 _ <- _. apply identities_steps.
Qed.

Lemma alert_clients h clock pub ip : hb_Clients (alertConcurrentIdentity h clock pub ip) = hb_Clients h.
Proof. unfold alertConcurrentIdentity. destruct (_ !! _); [|done]. destruct (bool_decide _); [apply send_to_clients|done]. Qed.

Lemma claim_clients h clock c pub ip : hb_Clients (claim_identity h clock c pub ip) = hb_Clients h.
Proof.
  unfold claim_identity. destruct pub; [done|]. destruct (_ !! _); [|done]. destruct (bool_decide _); [done|].
  cbv zeta. cbn [with_identities hb_Clients]. apply alert_clients.
Qed.

Lemma steps_inv r r' : hub_inv r -> rtc hub_step r r' -> hub_inv r'.
Proof. intros Hi H. revert Hi. induction H as [|r1 r2 r3 H1 H2 IH]; [done|]. intros Hi. by eapply IH, hub_step_inv. Qed.

(** The arrival handler is a run of the steps, for a new session while no
    chained line is pending: the concurrent-login alert, the window frame, the
    date and the join line meet no closed channel either. *)
Theorem register_is_steps c0 r drain now c s ip : hub_reach c0 r -> hr_lock r = Free -> hb_peers (hr_hub r) !! c = None ->
  steps_to r (registerClient maxBytes
    (with_peers (hr_hub r) (<[c := new_peer s]> (hb_peers (hr_hub r))) (hb_stat (hr_hub r))) drain now c s ip).
Proof.
  intros Hi%hub_reach_inv Hl Hc. unfold registerClient. cbv zeta. set (h1 := with_clients _ _).
  eapply (steps_trans r h1); [eexists; split; [by apply rtc_once, (SRegister r c s)|done]|].
  intros r1 R1 H1 L1. rewrite <- H1. eapply steps_trans; [apply claim_steps|]. intros r2 R2 H2 L2. rewrite <- H2. unfold announce. cbv zeta.
  assert (c ∈ hb_Clients (hr_hub r2)) as Hin by (rewrite H2, claim_clients, H1; apply elem_of_union_l, elem_of_singleton; done).
  assert (hub_inv r2) as Hi2 by (eapply steps_inv; [exact Hi|]; etrans; [exact R1|exact R2]).
  eapply (steps_trans r2 (send_to (hr_hub r2) c (Direct (info_frame (hb_chain (hr_hub r2)))))).
  { apply steps_one, SReplay; [congruence|]. destruct (hv_open r2 Hi2 c Hin) as (p & Hp & Ho). unfold is_closed. by rewrite Hp. }
  intros r3 _ H3 _. rewrite <- H3. eapply steps_trans; [apply (date_steps r3 drain now)|]. intros r4 _ H4 _. rewrite <- H4. apply notice_steps.
Qed.


(** Broadcasts and notices never hit a closed channel, but a replay can.
    Every registered session's channel is open, so the fanout and the unicast
    notices are safe.  A replay does not ask: when the screener kicks a session
    while its read loop serves a history request for a future height, the send
    panics with [BroadcastMu] held; the server survives, and from then on no
    chained line is ever linked again. *)
Theorem kicked_replay_wedges_the_room c r : hub_reach c r ->
  (forall k, k ∈ hb_Clients (hr_hub r) -> is_closed (hr_hub r) k = false) /\
  (forall k, hr_lock r = Free -> is_closed (hr_hub r) k = true ->
     exists r', hub_step r r' /\ forall r'', rtc hub_step r' r'' -> hr_links r'' = hr_links r /\ hr_fanned r'' = hr_fanned r).
Proof.
  intros Hi%hub_reach_inv. split.
  - intros k Hk. destruct (hv_open r Hi k Hk) as (p & Hp & Hcl). unfold is_closed. by rewrite Hp.
  - intros k Hl Hc. exists (mkRun (hr_hub r) Stuck (hr_links r) (hr_fanned r) (hr_since r)). split; [by apply (SReplayPanic r k false)|].
    intros r'' Hr. refine (proj2 (rtc_ind_r (fun x => hr_lock x = Stuck /\ hr_links x = hr_links r /\ hr_fanned x = hr_fanned r) _ _ _ r'' Hr)); [done|].
    intros r1 r2 _ Hs (E1 & E2 & E3). destruct Hs; cbn; try done; congruence.
Qed.
End machine.

(** A session that registers, a line linked and fanned out, and a kick. *)
Definition demo_wire : WireMessage :=
  mkWire (lit "chat") (lit "15:04") (lit "An#a1b2") [] 0 [] 0 0 0 [] [] [] (lit "hi") None 1 0 [] [] 0 0 0 [].
Definition demo_session : ClientSession :=
  mkSession (lit "An#a1b2") [] [] [] [] GetDefaultPermission false (lit "10.0.0.1") (lit "guest") [] [].

Section demo.
Let U := sample_unicode.

Lemma demo_delivered : exists r p line, hub_reach (U := U) 1000 [] (newChain None) r /\ hb_peers (hr_hub r) !! 1%nat = Some p /\
  1%nat ∈ hb_Clients (hr_hub r) /\ live_of p = [line] /\ pe_missed p = 0.
Proof.
  destruct (BroadcastWire (U := U) 1000 [] (newChain None) demo_wire []) as [line c'] eqn:El.
  do 2 eexists. exists line. split.
  - unfold hub_reach. eapply rtc_l; [by apply (SRegister _ _ (hub_start (newChain None)) 1 demo_session)|].
    eapply rtc_l; [eapply (SLink _ _ _ [] demo_wire 1%nat); [done|exact El]|].
    eapply rtc_l; [by eapply (SFan _ _ _ (fun _ => false))|]. apply rtc_refl.
  - split; [|split]; [cbn [hr_hub]; rewrite fanout_lookup; cbn [with_chain with_clients with_peers hr_hub hub_start hb_peers];
      rewrite lookup_insert_eq; reflexivity|by apply elem_of_union_l, elem_of_singleton|].
    unfold fan_one. rewrite bool_decide_true by (by apply elem_of_union_l, elem_of_singleton). rewrite bool_decide_true by done. split; reflexivity.
Qed.


Lemma demo_kicked : exists r, hub_reach (U := U) 1000 [] (newChain None) r /\ hr_lock r = Free /\ is_closed (hr_hub r) 1 = true.
Proof.
  eexists. split.
  - unfold hub_reach. eapply rtc_l; [by apply (SRegister _ _ (hub_start (newChain None)) 1 demo_session)|].
    eapply rtc_l; [by apply (SUnlist _ _ _ 1%nat)|]. eapply rtc_l; [apply (SClose _ _ _ 1%nat); cbn; set_solver|]. apply rtc_refl.
  - split; [done|]. reflexivity.
Qed.

Lemma kicked_replay_wedges_the_room_witness : exists r r', hub_reach (U := U) 1000 [] (newChain None) r /\ hub_step (U := U) 1000 [] r r' /\
  forall r'', rtc (hub_step (U := U) 1000 []) r' r'' -> hr_links r'' = hr_links r.
Proof.
  destruct demo_kicked as (r & Hr & Hl & Hc).
  destruct (proj2 (kicked_replay_wedges_the_room (U := U) 1000 [] (newChain None) r Hr) 1%nat Hl Hc) as (r' & Hs & H).
  exists r, r'. split; [done|]. split; [done|]. intros r'' Hr''. exact (proj1 (H r'' Hr'')).
Defined.
End demo.
