(* ===== verification/ReadPump.v ===== *)
(** The read loop of a session ([server/clientHandler.go] [ReadPump],
    [server/vote.go], [server/observe.go]): one frame of a client from its raw
    bytes to its effects: the type probe, history requests, proof-of-work
    answers, votes, seed reveals, and the chat pipeline with every check in its
    order.  A frame is handled as one step; what other sessions do in between
    changes the room, never the loop's own variables. *)

From S2P Require Import Prelude Bytes Sha2 Utf8 Wire Json Floats Filter Guard Crypto Trip ChainLink ChainService History Votes TripChains Behavior Abuse Engine Attack Screener Admit Passkeys Auth Hub.
Local Open Scope Z_scope.

(** * Texts *)

(** [fmt]'s [%v] of a [time.Duration]. *)
Fixpoint frac_digits (prec : nat) (v : Z) (acc : str) : str * Z :=
  match prec with
  | O => (acc, v)
  | S prec =>
      let d := v mod 10 in
      frac_digits prec (v / 10) (match acc with [] => if d =? 0 then [] else [hex_digit d] | _ => hex_digit d :: acc end)
  end.

Definition frac (prec : nat) (v : Z) : str * Z :=
  let '(ds, v) := frac_digits prec v [] in (match ds with [] => [] | _ => "."%char :: ds end, v).

Definition duration_string (d : duration) : str :=
  let u := Z.abs d in
  let body :=
    if u =? 0 then lit "0s"
    else if u <? 1000 then utoa u ++ lit "ns"
    else if u <? 1000000 then let '(f, v) := frac 3 u in utoa v ++ f ++ lit "µs"
    else if u <? 1000000000 then let '(f, v) := frac 6 u in utoa v ++ f ++ lit "ms"
    else
      let '(f, v) := frac 9 u in
      let secs := utoa (v mod 60) ++ f ++ lit "s" in
      let m := v / 60 in
      if m =? 0 then secs
      else if m / 60 =? 0 then utoa (m mod 60) ++ "m"%char :: secs
      else utoa (m / 60) ++ "h"%char :: utoa (m mod 60) ++ "m"%char :: secs in
  if d <? 0 then "-"%char :: body else body.

Example duration_ex :
  map duration_string [0; 1500; 1000 * Millisecond; 1500 * Millisecond; 90 * Second; 3661 * Second; -5]
  = map lit ["0s"; "1.5µs"; "1s"; "1.5s"; "1m30s"; "1h1m1s"; "-5ns"]%string.
Proof. vm_compute. reflexivity. Qed.

(** [%04X] of a rune. *)
Definition upper_hex (n : Z) : ascii := if n <? 10 then byte_of (48 + n) else byte_of (55 + n).
Definition rune_code (r : Z) : str :=
  let digits := [r / 1048576; r / 65536 mod 16; r / 4096 mod 16; r / 256 mod 16; r / 16 mod 16; r mod 16] in
  let digits := if r <? 65536 then drop 2 digits else if r <? 1048576 then drop 1 digits else digits in
  lit "U+" ++ map upper_hex digits.

(** The error texts of [ValidateMessage]. *)
Definition filter_text (e : char_error) : str :=
  lit "message contains invalid character: " ++
  match e with
  | InvalidUtf8 => lit "invalid utf8"
  | BadFFFD => lit "U+FFFD"
  | BadCf r => lit "Cf " ++ rune_code r
  | BadMnMe r => lit "Mn/Me " ++ rune_code r
  | BadZlZp r => lit "Zl/Zp " ++ rune_code r
  | NonGraphic r => lit "non-graphic " ++ rune_code r
  | BadRune r => rune_code r
  | NoLetterOrDigit => lit "no letter or digit"
  end.

(** [strings.Contains]. *)
Fixpoint contains (s p : str) : bool :=
  has_prefix s p || match s with [] => false | _ :: s' => contains s' p end.

(** * Configuration ([lib/config]) *)

Record DynamicConfig := mkDynamic {
  StatusURL : str;
  DownloadURL : str;
  HomepageURL : str;
  MaxConnectionsPerIP : Z;
  dyn_MaxMessageLength : Z;
  dyn_MaxMessageLine : Z;
  dyn_MessageCooldown : duration;
  IdleChatTimeout : duration;
  MaxHistoryBytes : Z;
  MaxHistorySend : Z;
  HistoryBudgetBurst : Z;
  HistoryBudgetPerSec : Z;
  HistoryRefillMaxRanges : Z;
  HistoryReplayBatchLines : Z;
  HistoryReplayBatchBytes : Z;
  HistoryDiskLookup : Z;
  MaxUsernameLength : Z;
  MaxTripcodeLength : Z;
  ConnectionCooldown : duration
}.

Definition limits_of (cfg : DynamicConfig) : Limits :=
  mkLimits (dyn_MaxMessageLength cfg) (dyn_MaxMessageLine cfg) (dyn_MessageCooldown cfg).

Definition readLimitFor (maxMessageLength : Z) : Z :=
  let limit := i64 (maxMessageLength * 3) in if limit <? 0 then 0 else limit.

(** * Frames *)

(** The probe of [ReadPump]. *)
Record Probe := mkProbe {
  pf_Type : str;
  pf_Before : Z;
  pf_Limit : Z;
  pf_AfterSeq : option Z;
  pf_BeforeSeq : option Z;
  pf_Ranges : list HeightRange;
  pf_Target : Z;
  pf_Direction : Z;
  pf_Seed : str;
  pf_Sig : str
}.

Definition zeroProbe : Probe := mkProbe [] 0 0 None None [] 0 0 [] [].

(** A pointer field: [null] clears it. *)
Definition dptr (v : json) (cur : option Z) : option (option Z) :=
  match v with JNull => Some None | _ => x ← duint 64 v 0; Some (Some x) end.

Definition range_field (st : option HeightRange) (kv : str * json) : option HeightRange :=
  match st with
  | None => None
  | Some (mkRange a b) =>
      let '(key, v) := kv in
      if key_is key "from" then x ← duint 64 v a; Some (mkRange x b)
      else if key_is key "to" then x ← duint 64 v b; Some (mkRange a x)
      else st
  end.

(** A slice field: a second array is read over the elements of the first. *)
Fixpoint dranges_list (l : list json) (cur : list HeightRange) : option (list HeightRange) :=
  match l with
  | [] => Some []
  | v :: l' =>
      x ← dobj range_field v (default (mkRange 0 0) (head cur));
      r ← dranges_list l' (tail cur);
      Some (x :: r)
  end.
Definition dranges (v : json) (cur : list HeightRange) : option (list HeightRange) :=
  match v with JArr l => dranges_list l cur | JNull => Some [] | _ => None end.

Definition probe_field (st : option Probe) (kv : str * json) : option Probe :=
  match st with
  | None => None
  | Some (mkProbe a b c d e f g h i j) =>
      let '(key, v) := kv in
      if key_is key "type" then x ← dstr v a; Some (mkProbe x b c d e f g h i j)
      else if key_is key "before" then x ← duint 64 v b; Some (mkProbe a x c d e f g h i j)
      else if key_is key "limit" then x ← dint v c; Some (mkProbe a b x d e f g h i j)
      else if key_is key "after_seq" then x ← dptr v d; Some (mkProbe a b c x e f g h i j)
      else if key_is key "before_seq" then x ← dptr v e; Some (mkProbe a b c d x f g h i j)
      else if key_is key "ranges" then x ← dranges v f; Some (mkProbe a b c d e x g h i j)
      else if key_is key "target" then x ← duint 64 v g; Some (mkProbe a b c d e f x h i j)
      else if key_is key "dir" then x ← dint v h; Some (mkProbe a b c d e f g x i j)
      else if key_is key "seed" then x ← dstr v i; Some (mkProbe a b c d e f g h x j)
      else if key_is key "sig" then x ← dstr v j; Some (mkProbe a b c d e f g h i x)
      else st
  end.

Definition read_json {A} (field : option A -> str * json -> option A) (zero : A) (raw : str) : option A :=
  match parse raw with Some v => dobj field v zero | None => None end.

Definition read_probe : str -> option Probe := read_json probe_field zeroProbe.

Definition zeroEnvelope : tripEnvelope := mkEnvelope [] [] [] 0 [] [] [] 0 0.

Definition envelope_field (st : option tripEnvelope) (kv : str * json) : option tripEnvelope :=
  match st with
  | None => None
  | Some (mkEnvelope a b c d e f g h i) =>
      let '(key, v) := kv in
      if key_is key "text" then x ← dstr v a; Some (mkEnvelope x b c d e f g h i)
      else if key_is key "msg" then x ← dstr v b; Some (mkEnvelope a x c d e f g h i)
      else if key_is key "pub" then x ← dstr v c; Some (mkEnvelope a b x d e f g h i)
      else if key_is key "seq" then x ← duint 32 v d; Some (mkEnvelope a b c x e f g h i)
      else if key_is key "prev" then x ← dstr v e; Some (mkEnvelope a b c d x f g h i)
      else if key_is key "sig" then x ← dstr v f; Some (mkEnvelope a b c d e x g h i)
      else if key_is key "display_name" then x ← dstr v g; Some (mkEnvelope a b c d e f x h i)
      else if key_is key "tmp_id" then x ← duint 64 v h; Some (mkEnvelope a b c d e f g x i)
      else if key_is key "reply_to" then x ← duint 64 v i; Some (mkEnvelope a b c d e f g h x)
      else st
  end.

Definition read_envelope : str -> option tripEnvelope := read_json envelope_field zeroEnvelope.

Definition result_field (st : option PowResult) (kv : str * json) : option PowResult :=
  match st with
  | None => None
  | Some (mkPowResult a b c) =>
      let '(key, v) := kv in
      if key_is key "type" then x ← dstr v a; Some (mkPowResult x b c)
      else if key_is key "challenge_id" then x ← dstr v b; Some (mkPowResult a x c)
      else if key_is key "nonce" then x ← duint 64 v c; Some (mkPowResult a b x)
      else st
  end.

Definition decline_field (st : option PowDecline) (kv : str * json) : option PowDecline :=
  match st with
  | None => None
  | Some (mkPowDecline a b) =>
      let '(key, v) := kv in
      if key_is key "type" then x ← dstr v a; Some (mkPowDecline x b)
      else if key_is key "challenge_id" then x ← dstr v b; Some (mkPowDecline a x)
      else st
  end.

(** * State *)

(** What a loop shares with the rest of the server. *)
Record Room := mkRoom {
  rm_Hub : Hub;
  rm_Trips : TripState;
  rm_Votes : VoteState;
  rm_HistoryBudget : BudgetMap;
  rm_VoteCooldown : CooldownMap;
  rm_SlowCooldown : option CooldownMap;
  rm_Screener : option PowScreener;
  rm_Behavior : option BehaviorEngine
}.

(** The loop's variables, with the session it may give a badge. *)
Record Loop := mkLoop {
  lp_session : ClientSession;
  lp_lastChatActivity : time;
  lp_lastMessageTime : time;
  lp_deadline : time
}.

Abbreviation Desk := (Loop * Room)%type.

(** What one frame reads: the clock and its formats, the configurations, the
    attack state and the handshakes in flight, the server key, the connection,
    the slow peers of a fanout, and whether the write pump makes room for each
    frame of a replay. *)
Record Env := mkEnv {
  ev_now : time;
  ev_stamp : Stamp;
  ev_SentAt : str;
  ev_cfg : DynamicConfig;
  ev_abuse : option AbuseConfig;
  ev_attack : option AttackState;
  ev_inflight : Z;
  ev_serverID : option str;
  ev_conn : nat;
  ev_IP : str;
  ev_order : MapOrder;
  ev_drain : nat -> bool;
  ev_drained : nat -> bool
}.

Definition on_room (f : Room -> Room) (d : Desk) : Desk := (d.1, f d.2).
Definition set_hub (r : Room) (h : Hub) : Room :=
  mkRoom h (rm_Trips r) (rm_Votes r) (rm_HistoryBudget r) (rm_VoteCooldown r) (rm_SlowCooldown r) (rm_Screener r) (rm_Behavior r).
Definition set_trips (r : Room) (t : TripState) : Room :=
  mkRoom (rm_Hub r) t (rm_Votes r) (rm_HistoryBudget r) (rm_VoteCooldown r) (rm_SlowCooldown r) (rm_Screener r) (rm_Behavior r).
Definition set_votes (r : Room) (v : VoteState) : Room :=
  mkRoom (rm_Hub r) (rm_Trips r) v (rm_HistoryBudget r) (rm_VoteCooldown r) (rm_SlowCooldown r) (rm_Screener r) (rm_Behavior r).
Definition set_budget (r : Room) (b : BudgetMap) : Room :=
  mkRoom (rm_Hub r) (rm_Trips r) (rm_Votes r) b (rm_VoteCooldown r) (rm_SlowCooldown r) (rm_Screener r) (rm_Behavior r).
Definition set_voteCooldown (r : Room) (c : CooldownMap) : Room :=
  mkRoom (rm_Hub r) (rm_Trips r) (rm_Votes r) (rm_HistoryBudget r) c (rm_SlowCooldown r) (rm_Screener r) (rm_Behavior r).
Definition set_slowCooldown (r : Room) (c : CooldownMap) : Room :=
  mkRoom (rm_Hub r) (rm_Trips r) (rm_Votes r) (rm_HistoryBudget r) (rm_VoteCooldown r) (Some c) (rm_Screener r) (rm_Behavior r).
Definition set_screener (r : Room) (s : PowScreener) : Room :=
  mkRoom (rm_Hub r) (rm_Trips r) (rm_Votes r) (rm_HistoryBudget r) (rm_VoteCooldown r) (rm_SlowCooldown r) (Some s) (rm_Behavior r).
Definition set_behavior (r : Room) (e : BehaviorEngine) : Room :=
  mkRoom (rm_Hub r) (rm_Trips r) (rm_Votes r) (rm_HistoryBudget r) (rm_VoteCooldown r) (rm_SlowCooldown r) (rm_Screener r) (Some e).

Definition chain_of (r : Room) : ChainService := hb_chain (rm_Hub r).
Definition unlimited (l : Loop) : bool := CanMessageUnlimited (cs_Perms (lp_session l)).

(** What a frame came to. *)
Inductive frame_event :=
| EvBlank
| EvHistory (answer : option replay)
| EvPow (o : pow_frame_outcome)
| EvVoted (target upvotes downvotes : Z)
| EvRevealed (notice : WireMessage)
| EvNoticed (text : str) (tag : str)
| EvPublished (w : WireMessage).

(** * Observations ([server/observe.go]) *)

Definition observe_with (f : BehaviorEngine -> BehaviorEngine) (r : Room) : Room :=
  match rm_Behavior r with Some e => set_behavior r (f e) | None => r end.

Definition observeErr (env : Env) (code : str) : Room -> Room :=
  observe_with (fun e => ObserveErr e (ev_order env) (ev_IP env) code (ev_now env)).
Definition observeHistory (env : Env) : Room -> Room :=
  observe_with (fun e => ObserveHistory e (ev_order env) (ev_IP env) (ev_now env)).
Definition observeChallenge (env : Env) (ip : str) : Room -> Room :=
  observe_with (fun e => ObserveChallenge e (ev_order env) ip (ev_now env)).

(** A session that sent its share of messages is re-scored at the next tick. *)
Definition observeMessage (env : Env) (r : Room) : Room :=
  match rm_Behavior r with
  | None => r
  | Some e =>
      let plain := set_behavior r (ObserveMessage e (ev_order env) (ev_IP env) (ev_now env)) in
      match rm_Screener r, ev_abuse env with
      | Some sc, Some a =>
          match ac_Behavior a with
          | Some bc =>
              if bc_ScoreEveryNMsgs bc <? 1 then plain
              else
                let '(due, e) := ObserveMessageAndDue e (ev_order env) (ev_IP env) (ev_now env) (bc_ScoreEveryNMsgs bc) in
                let r := set_behavior r e in
                if due then set_screener r (Defer sc (ev_IP env) (ev_now env)) else r
          | None => plain
          end
      | _, _ => plain
      end
  end.

(** * Shared steps *)

Definition pongWait : duration := 60 * Second.

(** The deadline of the next read. *)
Definition next_deadline (env : Env) (lastChat : time) : time :=
  let deadline := Add (ev_now env) pongWait in
  if 0 <? IdleChatTimeout (ev_cfg env) then
    let idleDeadline := Add lastChat (IdleChatTimeout (ev_cfg env)) in
    if Before idleDeadline deadline then idleDeadline else deadline
  else deadline.

Definition updateReadDeadline (env : Env) (d : Desk) : Desk :=
  (mkLoop (lp_session d.1) (lp_lastChatActivity d.1) (lp_lastMessageTime d.1) (next_deadline env (lp_lastChatActivity d.1)), d.2).

Definition stamp_message (env : Env) (d : Desk) : Desk :=
  (mkLoop (lp_session d.1) (lp_lastChatActivity d.1) (ev_now env) (lp_deadline d.1), d.2).

Definition tell (env : Env) (text tag : str) (r : Room) : Room :=
  set_hub r (unicastNotice (rm_Hub r) (st_Clock (ev_stamp env)) (ev_conn env) text [tag]).

(** A notice to the session ends the frame. *)
Definition refuse (env : Env) (text tag : str) (r : Room) : frame_event * Room := (EvNoticed text tag, tell env text tag r).

Definition is_muted (env : Env) (r : Room) : bool :=
  match rm_Screener r with Some sc => IsMuted sc (Z.of_nat (ev_conn env)) | None => false end.

Definition muted_text : str := lit "[Hệ thống]: Chat của bạn tạm dừng chờ xác minh. Hoàn thành thử thách PoW để tiếp tục.".

Definition allowHistoryRequest (env : Env) (cost : Z) (r : Room) : bool * Room :=
  let charged := of_int cost in
  let clients := Z.of_nat (size (hb_Clients (rm_Hub r))) in
  let charged := if degraded (ev_attack env) (ev_now env) (ev_abuse env) clients (ev_inflight env)
                 then fmul charged (of_int 2) else charged in
  let '(ok, b) := budget_Allow (rm_HistoryBudget r) (ev_now env) (ev_IP env) charged
                    (of_int (HistoryBudgetBurst (ev_cfg env))) (of_int (HistoryBudgetPerSec (ev_cfg env))) in
  (ok, set_budget r b).

(** The tier slowmode: a refusal has told the session. *)
Definition allowSlowSend (env : Env) (unlimited : bool) (base : duration) (r : Room) : option (str * str) * Room :=
  if unlimited then (None, r)
  else
    match rm_Behavior r, rm_SlowCooldown r with
    | Some e, Some slow =>
        match engine_Tier e (ev_IP env) with
        | None => (None, r)
        | Some tier =>
            if tier <? 2 then (None, r)
            else
              let mult := match ev_abuse env with
                          | Some a => match ac_Behavior a with Some b => SlowMult (Some b) tier | None => 1 end
                          | None => 1
                          end in
              if mult <=? 1 then (None, r)
              else
                let d := i64 (base * mult) in
                let '(ok, slow) := cooldown_Allow slow (ev_now env) (ev_IP env) d in
                let r := set_slowCooldown r slow in
                if ok then (None, r)
                else
                  let text := lit "[Hệ thống]: Kênh đang ở chế độ chậm (tier " ++ itoa tier ++ lit "). Vui lòng đợi "
                              ++ duration_string d ++ lit "." in
                  (Some (text, TagLimit), tell env text TagLimit r)
        end
    | _, _ => (None, r)
    end.

(** * History requests *)

(** Room for the [i]-th frame of a replay: a free place, or one the write pump
    frees in time. *)
Definition replay_room (env : Env) (h : Hub) (i : nat) : bool :=
  match hb_peers h !! ev_conn env with
  | Some p => (length (pe_queue p) + i <? sendCap)%nat || ev_drained env i
  | None => false
  end.

Definition enqueue_frame (c : nat) (h : Hub) (data : str) : Hub :=
  with_peers h (alter (fun p => let p := if full p then pump p else p in set_queue p (pe_queue p ++ [Direct data])) c (hb_peers h))
    (hb_stat h).

Definition send_replay (env : Env) (h : Hub) (answer : option replay) : Hub :=
  match answer with Some rp => fold_left (enqueue_frame (ev_conn env)) (rp_frames rp) h | None => h end.

Definition batch_of (n def : Z) : Z := if 0 <? n then n else def.

Definition history_answer (env : Env) (l : Loop) (h : Hub) (p : Probe) (limit : Z) : option replay :=
  let accept := replay_room env h in
  let lines := batch_of (HistoryReplayBatchLines (ev_cfg env)) 32 in
  let bytes := batch_of (HistoryReplayBatchBytes (ev_cfg env)) 16384 in
  let joins := cs_WantJoins (lp_session l) in
  match pf_Ranges p, pf_AfterSeq p, pf_BeforeSeq p with
  | _ :: _, _, _ => serveHistoryRanges accept lines bytes (HistoryRefillMaxRanges (ev_cfg env)) (hb_chain h) joins (pf_Ranges p) limit
  | [], None, None => serveHistorySegment accept lines bytes (HistoryDiskLookup (ev_cfg env)) (hb_chain h) joins (pf_Before p) limit
  | [], _, _ => serveHistorySeq accept lines bytes (hb_chain h) joins (pf_AfterSeq p) (pf_BeforeSeq p) limit
  end.

Definition history_limit (env : Env) (p : Probe) : Z :=
  let most := MaxHistorySend (ev_cfg env) in if (pf_Limit p <=? 0) || (most <? pf_Limit p) then most else pf_Limit p.

Definition history_cost (env : Env) (p : Probe) (limit : Z) : Z :=
  match pf_Ranges p, pf_AfterSeq p, pf_BeforeSeq p with
  | [], None, None => i64 (limit * (1 + HistoryDiskLookup (ev_cfg env)))
  | _, _, _ => limit
  end.

Definition history_request (env : Env) (l : Loop) (p : Probe) (r : Room) : frame_event * Room :=
  let limit := history_limit env p in
  let '(ok, r) := allowHistoryRequest env (history_cost env p limit) r in
  if negb ok then refuse env (lit "[Hệ thống]: Yêu cầu lịch sử quá nhanh, thử lại sau.") TagLimit r
  else
    let answer := history_answer env l (rm_Hub r) p limit in
    (EvHistory answer, observeHistory env (set_hub r (send_replay env (rm_Hub r) answer))).

(** * Proof-of-work answers, votes and reveals *)

Section pump.
Context {U : Unicode} {E : Ed25519} {A2 : Argon2}.

Definition hub_do (f : Hub -> Hub) (r : Room) : Room := set_hub r (f (rm_Hub r)).

Definition pow_frame (env : Env) (l : Loop) (raw : str) (r : Room) : frame_event * Room :=
  match rm_Screener r with
  | None => (EvPow FrameIgnored, r)
  | Some sc =>
      let '(o, sc) := handlePowFrame sc (ev_now env) (Z.of_nat (ev_conn env))
                        (contains raw (quote_b :: lit "pow_result" ++ [quote_b]))
                        (read_json result_field (mkPowResult [] [] 0) raw)
                        (contains raw (quote_b :: lit "pow_decline" ++ [quote_b]))
                        (read_json decline_field (mkPowDecline [] []) raw) in
      let r := set_screener r sc in
      (EvPow o,
       match o with
       | FrameIgnored => r
       | FramePassed => tell env (lit "[Hệ thống]: Xác minh PoW xong, chat mở lại bình thường.") TagPowScreen r
       | FrameWrong => tell env (lit "[Hệ thống]: Đáp án PoW không hợp lệ, bạn sẽ nhận thử thách mới.") TagPowScreen r
       | FrameDeclined =>
           tell env (lit "[Hệ thống]: Đã ghi nhận từ chối, chat tạm dừng cho tới khi xác minh.") TagPowScreen
             (observeChallenge env (cs_IP (lp_session l)) r)
       end)
  end.

Definition direction_known (d : Z) : bool := (d =? DirUpvote) || (d =? DirDownvote) || (d =? DirWithdraw).

Definition handleVote (env : Env) (l : Loop) (target direction : Z) (r : Room) : frame_event * Room :=
  let c := chain_of r in
  if negb (direction_known direction) then
    refuse env (lit "[Hệ thống]: Hướng vote không hợp lệ.") TagEnvelope (observeErr env (lit "vote:direction") r)
  else if target =? 0 then
    refuse env (lit "[Hệ thống]: Tin vote không hợp lệ.") TagEnvelope (observeErr env (lit "vote:target") r)
  else if c_ready c && (c_height c <? target) then
    refuse env (lit "[Hệ thống]: Tin vote dẫn tới ID chưa tồn tại.") TagEnvelope (observeErr env (lit "vote:future") r)
  else if is_muted env r then refuse env muted_text TagPowGate r
  else
    let '(ok, r) := allowHistoryRequest env 1 r in
    if negb ok then refuse env (lit "[Hệ thống]: Vote quá nhanh, thử lại sau.") TagLimit r
    else
      let '(ok, cool) := cooldown_Allow (rm_VoteCooldown r) (ev_now env) (ev_IP env) (dyn_MessageCooldown (ev_cfg env)) in
      let r := set_voteCooldown r cool in
      if negb ok then refuse env (lit "[Hệ thống]: Bạn đang vote quá nhanh, thử lại sau.") TagLimit r
      else
        match allowSlowSend env (unlimited l) (dyn_MessageCooldown (ev_cfg env)) r with
        | (Some (text, tag), r) => (EvNoticed text tag, r)
        | (None, r) =>
            let r := observeMessage env r in
            let '(v, votes) := applyVote (rm_Votes r) (ev_now env) (ev_IP env) target direction in
            let r := set_votes r votes in
            if negb (vr_changed v) then
              refuse env (lit "[Hệ thống]: Chưa có vote để hủy.") TagLimit
                (if vr_dup v then observeErr env (lit "vote:dup") r else r)
            else
              (EvVoted target (vr_up v) (vr_down v),
               hub_do (fun h => hub_BroadcastVote (MaxHistoryBytes (ev_cfg env)) h (ev_drain env) (st_Clock (ev_stamp env))
                                  (st_TS (ev_stamp env)) target (vr_up v) (vr_down v)) r)
        end.

(** [BroadcastTripReveal]. *)
Definition broadcast_reveal (env : Env) (notice : WireMessage) (h : Hub) : Hub :=
  let '(data, c) := storeSystem (MaxHistoryBytes (ev_cfg env)) (st_TS (ev_stamp env)) (hb_chain h) notice in
  fanout (with_chain h c) (ev_drain env) (Stored data) None true false.

(** The history budget is only charged when [handleTripReveal] asks it. *)
Definition trip_reveal (env : Env) (l : Loop) (seed sig : str) (r : Room) : frame_event * Room :=
  let '(ok, charged) := allowHistoryRequest env 1 r in
  let '(o, registry) := TripChains.handleTripReveal (ev_now env) (st_Clock (ev_stamp env)) (is_muted env r) ok
                          (ExposedTrips (rm_Trips r)) (cs_TripPub (lp_session l)) (cs_TripBadge (lp_session l)) seed sig in
  let keep r := set_trips r (mkTrips (TripChains (rm_Trips r)) registry) in
  match o with
  | NoTripcode => refuse env (lit "[Hệ thống]: Phiên này không dùng tripcode.") TagTripReveal (keep r)
  | SeedMismatch =>
      refuse env (lit "[Hệ thống]: Seed không khớp danh tính của phiên này.") TagTripReveal (observeErr env (lit "reveal:seed") (keep r))
  | RevealSigBad =>
      refuse env (lit "[Hệ thống]: Chữ ký công bố không hợp lệ.") TagTripReveal (observeErr env (lit "reveal:sig") (keep r))
  | AlreadyExposed => refuse env (lit "[Hệ thống]: Danh tính này đã được ghi nhận là lộ seed.") TagTripReveal (keep r)
  | RevealMuted => refuse env muted_text TagPowGate (keep r)
  | RevealLimited => refuse env (lit "[Hệ thống]: Thao tác quá nhanh, thử lại sau.") TagLimit (keep charged)
  | Revealed notice => (EvRevealed notice, hub_do (broadcast_reveal env notice) (keep (observeMessage env charged)))
  end.

(** * Chat lines *)

Inductive chat_refusal :=
| ChatMuted
| OldFormat
| NoTmpID
| ReplyFuture
| EmptyText
| BadText (e : char_error)
| MustSign
| BadTrip (seq : Z) (e : signed_refusal).

Definition filter_notice (e : char_error) : str :=
  lit "[Hệ thống]: Tin nhắn chứa ký tự không hợp lệ và đã bị từ chối (" ++ filter_text e ++ lit ").".

(** The notice and its tag, and the observed code if there is one. *)
Definition refusal_notice (e : chat_refusal) : str * str * option str :=
  match e with
  | ChatMuted => (muted_text, TagPowGate, None)
  | OldFormat => (lit "[Hệ thống]: Định dạng tin nhắn cũ không còn hỗ trợ. Hãy update client bản mới.", TagEnvelope, None)
  | NoTmpID => (lit "[Hệ thống]: Tin nhắn thiếu ID phiên (tmp_id). Hãy update client bản mới.", TagEnvelope, Some (lit "env:tmpid-missing"))
  | ReplyFuture => (lit "[Hệ thống]: Tin reply dẫn tới ID chưa tồn tại.", TagEnvelope, Some (lit "env:reply-future"))
  | EmptyText => (lit "[Hệ thống]: Tin nhắn trống.", TagEnvelope, None)
  | BadText e | BadTrip _ (SignedFilter e) => (filter_notice e, TagFilter, Some (lit "proto:filter-reject"))
  | MustSign => (lit "[Hệ thống]: Tin nhắn trip phải được ký.", TagTrip, None)
  | BadTrip _ SignedEmpty => (lit "[Hệ thống]: Tin nhắn trip thiếu nội dung.", TagTrip, None)
  | BadTrip _ PubMismatch => (lit "[Hệ thống]: Pubkey trip không khớp phiên đăng nhập.", TagTrip, Some (lit "proto:trip-pub"))
  | BadTrip _ BadSizes => (lit "[Hệ thống]: Chữ ký trip không hợp lệ.", TagTrip, None)
  | BadTrip seq (BadSeq expected) =>
      (lit "[Hệ thống]: Sai thứ tự trip seq " ++ itoa seq ++ lit ", mong đợi " ++ itoa expected ++ lit ".", TagTrip, Some (lit "proto:trip-seq"))
  | BadTrip _ PrevMismatch => (lit "[Hệ thống]: Chuỗi trip bị đứt (prev không khớp).", TagTrip, Some (lit "proto:trip-prev"))
  | BadTrip _ BadSignature => (lit "[Hệ thống]: Chữ ký trip không hợp lệ.", TagTrip, Some (lit "proto:trip-sig"))
  end.

(** A line that passed: its text and ids, and for a signed one what was
    verified. *)
Record ChatLine := mkLine { cl_env : tripEnvelope; cl_text : str; cl_trip : option VerifyResult }.

Definition is_chat (e : tripEnvelope) : bool :=
  nonempty (te_Sig e) || negb (te_TmpID e =? 0) || nonempty (TrimSpace (te_Text e ++ te_Msg e)).

(** From the mute gate to the last check of the text, in order; an accepted
    signed line advances its key's tip. *)
Definition check_line (env : Env) (l : Loop) (r : Room) (raw : str) : res chat_refusal (ChatLine * gmap str TripChain) :=
  let tips := TripChains (rm_Trips r) in
  let session := lp_session l in
  let c := chain_of r in
  if is_muted env r then Err ChatMuted
  else
    match read_envelope raw with
    | None => Err OldFormat
    | Some e =>
        if negb (is_chat e) then Err OldFormat
        else if te_TmpID e =? 0 then Err NoTmpID
        else if negb (te_ReplyTo e =? 0) && c_ready c && (c_height c <? te_ReplyTo e) then Err ReplyFuture
        else
          match te_Sig e with
          | [] =>
              match env_text e with
              | [] => Err EmptyText
              | text =>
                  match ValidateMessage text with
                  | Err err => Err (BadText err)
                  | Ok _ => if nonempty (cs_TripPub session) then Err MustSign else Ok (mkLine e text None, tips)
                  end
              end
          | _ =>
              match accept_signed (ev_now env) tips (cs_TripPub session) (cs_DisplayName session) (ev_serverID env) e with
              | Err err => Err (BadTrip (te_Seq e) err)
              | Ok (text, v, tips) => Ok (mkLine e text (Some v), tips)
              end
          end
    end.

(** A session without a badge takes the one of the key it signed with. *)
Definition take_badge (s : ClientSession) (v : VerifyResult) : ClientSession :=
  match cs_TripBadge s with
  | [] => mkSession (cs_DisplayName s) (vr_Badge v) (vr_PubHex v) (vr_Badge v) (cs_Host s) (cs_Perms s) (cs_WantJoins s)
            (cs_IP s) (cs_AuthType s) (cs_IdentityPub s) (cs_Platform s)
  | _ => s
  end.

(** The line counts as activity whatever the send guards say next. *)
Definition accept_line (env : Env) (line : ChatLine) (tips : gmap str TripChain) (d : Desk) : Desk :=
  let session := match cl_trip line with Some v => take_badge (lp_session d.1) v | None => lp_session d.1 end in
  updateReadDeadline env
    (mkLoop session (ev_now env) (lp_lastMessageTime d.1) (lp_deadline d.1),
     set_trips d.2 (mkTrips tips (ExposedTrips (rm_Trips d.2)))).

Definition guard_notice (cfg : DynamicConfig) (e : send_error) : str * str :=
  match e with
  | ErrTooLong => (lit "[Hệ thống]: Tin nhắn của bạn quá dài (tối đa " ++ itoa (dyn_MaxMessageLength cfg) ++ lit " ký tự).", TagLimit)
  | ErrTooManyLines => (lit "[Hệ thống]: Tin nhắn chứa quá nhiều dòng. Vui lòng gộp lại!", TagLimit)
  | ErrTooFast => (lit "[Hệ thống]: Bạn đang chat quá nhanh! Vui lòng đợi " ++ duration_string (dyn_MessageCooldown cfg) ++ lit ".", TagLimit)
  | ErrText e => (filter_notice e, TagFilter)
  end.

(** The signature data of the line, with its exposed flag read at this moment. *)
Definition line_meta (env : Env) (name : str) (line : ChatLine) (r : Room) : option TripMeta * Room :=
  match cl_trip line with
  | None => (None, r)
  | Some v =>
      let '(flag, registry) := isTripExposed (ev_now env) (ExposedTrips (rm_Trips r)) (vr_PubHex v) in
      (Some (meta_of name (cl_env line) v flag), set_trips r (mkTrips (TripChains (rm_Trips r)) registry))
  end.

Definition publish (env : Env) (session : ClientSession) (line : ChatLine) (r : Room) : frame_event * Room :=
  let r := observeMessage env r in
  let r := hub_do (fun h => CheckAndBroadcastDate (MaxHistoryBytes (ev_cfg env)) h (ev_drain env) (ev_stamp env)) r in
  let '(meta, r) := line_meta env (cs_DisplayName session) line r in
  let w := chat_wire (st_Clock (ev_stamp env)) (cs_DisplayName session) (cl_text line) meta
             (te_TmpID (cl_env line)) (te_ReplyTo (cl_env line)) (ev_SentAt env) in
  (EvPublished w,
   hub_do (fun h => hub_BroadcastWire (MaxHistoryBytes (ev_cfg env)) h (ev_drain env) (st_TS (ev_stamp env)) w (ev_conn env)
                      (default [] (ev_serverID env))) r).

Definition with_room (l : Loop) (er : frame_event * Room) : frame_event * Desk := (er.1, (l, er.2)).

Definition chat_frame (env : Env) (raw : str) (d : Desk) : frame_event * Desk :=
  match check_line env d.1 d.2 raw with
  | Err e =>
      let '(text, tag, code) := refusal_notice e in
      let r := match code with Some code => observeErr env code d.2 | None => d.2 end in
      (EvNoticed text tag, updateReadDeadline env (d.1, tell env text tag r))
  | Ok (line, tips) =>
      let d := accept_line env line tips d in
      match ValidateMessageForSend (ev_now env) (cl_text line) (lp_lastMessageTime d.1) (Some (limits_of (ev_cfg env))) (unlimited d.1) with
      | Err e =>
          let d := match e with ErrTooFast => stamp_message env d | _ => d end in
          let '(text, tag) := guard_notice (ev_cfg env) e in
          with_room d.1 (refuse env text tag d.2)
      | Ok _ =>
          match allowSlowSend env (unlimited d.1) (dyn_MessageCooldown (ev_cfg env)) d.2 with
          | (Some (text, tag), r) => (EvNoticed text tag, updateReadDeadline env (d.1, r))
          | (None, r) =>
              let d := stamp_message env (d.1, r) in
              with_room d.1 (publish env (lp_session d.1) line d.2)
          end
      end
  end.

(** * One frame *)

Definition then_deadline (env : Env) (l : Loop) (er : frame_event * Room) : frame_event * Desk :=
  (er.1, updateReadDeadline env (l, er.2)).

Definition read_frame (env : Env) (raw : str) (d : Desk) : frame_event * Desk :=
  let '(l, r) := d in
  match TrimSpace raw with
  | [] => (EvBlank, updateReadDeadline env d)
  | _ =>
      match read_probe raw with
      | None => chat_frame env raw d
      | Some p =>
          if str_eqb (pf_Type p) (lit "history_request") then then_deadline env l (history_request env l p r)
          else if str_eqb (pf_Type p) (lit "pow_result") || str_eqb (pf_Type p) (lit "pow_decline") then
            then_deadline env l (pow_frame env l raw r)
          else if str_eqb (pf_Type p) (lit "vote") then then_deadline env l (handleVote env l (pf_Target p) (pf_Direction p) r)
          else if str_eqb (pf_Type p) (lit "trip_reveal") then then_deadline env l (trip_reveal env l (pf_Seed p) (pf_Sig p) r)
          else chat_frame env raw d
      end
  end.

(** The loop before its first frame. *)
Definition start_loop (env : Env) (session : ClientSession) (r : Room) : Desk :=
  updateReadDeadline env (mkLoop session (ev_now env) 0 0, r).

(** The deferred end of the loop. *)
Definition end_loop (env : Env) (d : Desk) : Room :=
  let r := hub_do (fun h => unregisterClient (MaxHistoryBytes (ev_cfg env)) h (ev_drain env) (ev_stamp env) (ev_conn env) (lp_session d.1)) d.2 in
  let r := observe_with (fun e => ObserveDisconnect e (ev_order env) (ev_IP env) (ev_now env)) r in
  match rm_Screener r with
  | Some sc => set_screener r (ForgetCheck (DropConn sc (Z.of_nat (ev_conn env))) (ev_IP env))
  | None => r
  end.
End pump.

(** * Theorems *)

(** ** One effect per frame *)

Section effects.
Context {U : Unicode} {E : Ed25519} {A2 : Argon2}.

Lemma hub_observe_with f r : rm_Hub (observe_with f r) = rm_Hub r.
Proof. unfold observe_with. by destruct (rm_Behavior r). Qed.

Lemma hub_observeMessage env r : rm_Hub (observeMessage env r) = rm_Hub r.
Proof.
  unfold observeMessage. destruct (rm_Behavior r); [|done]. destruct (rm_Screener r); [|done].
  destruct (ev_abuse env) as [a|]; [|done]. destruct (ac_Behavior a); [|done]. destruct (_ <? 1); [done|].
  destruct (ObserveMessageAndDue _ _ _ _ _) as [[] e]; done.
Qed.

Lemma hub_allow env cost r ok r' : allowHistoryRequest env cost r = (ok, r') -> rm_Hub r' = rm_Hub r.
Proof. unfold allowHistoryRequest. cbv zeta. destruct (budget_Allow _ _ _ _ _ _). by injection 1 as <- <-. Qed.

(** What slowmode answers, and what it did to the hub. *)
Definition told_hub (env : Env) (h : Hub) (o : option (str * str)) : Hub :=
  match o with Some (text, tag) => unicastNotice h (st_Clock (ev_stamp env)) (ev_conn env) text [tag] | None => h end.

Lemma hub_slow env u base r o r' : allowSlowSend env u base r = (o, r') -> rm_Hub r' = told_hub env (rm_Hub r) o.
Proof.
  unfold allowSlowSend. destruct u; [by injection 1 as <- <-|]. destruct (rm_Behavior r); [|by injection 1 as <- <-].
  destruct (rm_SlowCooldown r); [|by injection 1 as <- <-]. destruct (engine_Tier _ _) as [tier|]; [|by injection 1 as <- <-].
  destruct (tier <? 2); [by injection 1 as <- <-|]. cbv zeta. destruct (_ <=? 1); [by injection 1 as <- <-|].
  destruct (cooldown_Allow _ _ _ _) as [[] slow]; by injection 1 as <- <-.
Qed.

(** The effect of a frame on presence, queues and the log, by its outcome. *)
Definition hub_effect (env : Env) (ev : frame_event) (h : Hub) : Hub :=
  let clock := st_Clock (ev_stamp env) in
  let ts := st_TS (ev_stamp env) in
  let max := MaxHistoryBytes (ev_cfg env) in
  let say text tag := unicastNotice h clock (ev_conn env) text [tag] in
  match ev with
  | EvBlank | EvPow FrameIgnored => h
  | EvHistory answer => send_replay env h answer
  | EvPow FramePassed => say (lit "[Hệ thống]: Xác minh PoW xong, chat mở lại bình thường.") TagPowScreen
  | EvPow FrameWrong => say (lit "[Hệ thống]: Đáp án PoW không hợp lệ, bạn sẽ nhận thử thách mới.") TagPowScreen
  | EvPow FrameDeclined => say (lit "[Hệ thống]: Đã ghi nhận từ chối, chat tạm dừng cho tới khi xác minh.") TagPowScreen
  | EvNoticed text tag => say text tag
  | EvVoted target up down => hub_BroadcastVote max h (ev_drain env) clock ts target up down
  | EvRevealed notice => broadcast_reveal env notice h
  | EvPublished w =>
      hub_BroadcastWire max (CheckAndBroadcastDate max h (ev_drain env) (ev_stamp env)) (ev_drain env) ts w (ev_conn env)
        (default [] (ev_serverID env))
  end.

Definition explained (env : Env) (r : Room) (er : frame_event * Room) : Prop := rm_Hub er.2 = hub_effect env er.1 (rm_Hub r).

Lemma explained_refuse env text tag r r0 : rm_Hub r = rm_Hub r0 -> explained env r0 (refuse env text tag r).
Proof. unfold explained, refuse, tell. cbn. by intros ->. Qed.

Lemma explained_history env l p r : explained env r (history_request env l p r).
Proof.
  unfold history_request. cbv zeta. destruct (allowHistoryRequest _ _ _) as [ok r1] eqn:Ha. apply hub_allow in Ha.
  destruct (negb ok); [by apply explained_refuse|]. unfold explained, observeHistory. cbn. rewrite hub_observe_with. cbn. by rewrite Ha.
Qed.

Lemma explained_pow env l raw r : explained env r (pow_frame env l raw r).
Proof.
  unfold pow_frame. destruct (rm_Screener r); [|done]. destruct (handlePowFrame _ _ _ _ _ _ _) as [[] sc']; unfold explained; try done.
  cbn. unfold observeChallenge. by rewrite hub_observe_with.
Qed.

Lemma explained_vote env l target direction r : explained env r (handleVote env l target direction r).
Proof.
  unfold handleVote. cbv zeta.
  destruct (negb (direction_known _)); [by apply explained_refuse, hub_observe_with|].
  destruct (target =? 0); [by apply explained_refuse, hub_observe_with|].
  destruct (_ && _); [by apply explained_refuse, hub_observe_with|].
  destruct (is_muted env r); [by apply explained_refuse|].
  destruct (allowHistoryRequest _ _ _) as [ok r1] eqn:Ha. apply hub_allow in Ha.
  destruct (negb ok); [by apply explained_refuse|].
  destruct (cooldown_Allow _ _ _ _) as [ok2 cool]. destruct (negb ok2); [by apply explained_refuse|].
  destruct (allowSlowSend _ _ _ _) as [o r2] eqn:Hs. apply hub_slow in Hs. cbn in Hs. rewrite Ha in Hs.
  destruct o as [[text tag]|]; [exact Hs|]. cbn in Hs.
  destruct (applyVote _ _ _ _ _) as [v votes]. destruct (negb (vr_changed v)).
  - apply explained_refuse. destruct (vr_dup v); unfold observeErr; rewrite ?hub_observe_with; cbn; by rewrite hub_observeMessage, Hs.
  - unfold explained. cbn. by rewrite hub_observeMessage, Hs.
Qed.

Lemma explained_reveal env l seed sig r : explained env r (trip_reveal env l seed sig r).
Proof.
  unfold trip_reveal. destruct (allowHistoryRequest _ _ _) as [ok r1] eqn:Ha. apply hub_allow in Ha.
  destruct (TripChains.handleTripReveal _ _ _ _ _ _ _ _ _) as [o registry]. cbv zeta.
  destruct o; try (apply explained_refuse; unfold observeErr; rewrite ?hub_observe_with; done).
  unfold explained. cbn. by rewrite hub_observeMessage, Ha.
Qed.

Lemma hub_line_meta env name line r m r' : line_meta env name line r = (m, r') -> rm_Hub r' = rm_Hub r.
Proof.
  unfold line_meta. destruct (cl_trip line); [|by injection 1 as <- <-].
  destruct (isTripExposed _ _ _). by injection 1 as <- <-.
Qed.

Lemma explained_publish env session line r : explained env r (publish env session line r).
Proof.
  unfold publish. cbv zeta. destruct (line_meta _ _ _ _) as [meta r1] eqn:Hm. apply hub_line_meta in Hm.
  unfold explained. cbn. rewrite Hm. cbn. by rewrite hub_observeMessage.
Qed.

Lemma explained_chat env raw d : rm_Hub (chat_frame env raw d).2.2 = hub_effect env (chat_frame env raw d).1 (rm_Hub d.2).
Proof.
  unfold chat_frame. destruct (check_line _ _ _ _) as [[line tips]|e].
  - set (d1 := accept_line env line tips d). assert (rm_Hub d1.2 = rm_Hub d.2) as H1 by done. clearbody d1.
    destruct (ValidateMessageForSend _ _ _ _ _) as [|e].
    + destruct (allowSlowSend _ _ _ _) as [[[text tag]|] r2] eqn:Hs; apply hub_slow in Hs; cbn in Hs; rewrite H1 in Hs; [done|].
      etrans; [apply (explained_publish env (lp_session (stamp_message env (d1.1, r2)).1) line r2)|]. f_equal. exact Hs.
    + destruct (guard_notice _ e) as [text tag]. cbn. destruct e; cbn; by rewrite H1.
  - destruct (refusal_notice e) as [[text tag] code]. cbn. destruct code; cbn; [unfold observeErr; by rewrite hub_observe_with|done].
Qed.

(** C10. Every frame has exactly one effect on the room: whatever bytes arrive,
    the queues and the log change as its outcome says and in no other way: a
    refusal is one notice to the session and nothing else, a history answer goes
    to the session only, a vote or a reveal is one stored line, a published line
    is at most a date banner and that line. *)
Theorem one_effect_per_frame env raw d : rm_Hub (read_frame env raw d).2.2 = hub_effect env (read_frame env raw d).1 (rm_Hub d.2).
Proof.
  unfold read_frame. destruct d as [l r]. destruct (TrimSpace raw); [done|].
  destruct (read_probe raw) as [p|]; [|apply explained_chat].
  repeat match goal with |- context [if ?b then _ else _] => destruct b end; cbn [then_deadline fst snd updateReadDeadline].
  - apply explained_history.
  - apply explained_pow.
  - apply explained_vote.
  - apply explained_reveal.
  - apply explained_chat.
Qed.
End effects.

(** ** What is published *)

Section published.
Context {U : Unicode} {E : Ed25519} {A2 : Argon2}.

(** What an accepted line has passed, read off the session and the room. *)
Record checked (env : Env) (l : Loop) (r : Room) (raw : str) (line : ChatLine) (tips : gmap str TripChain) : Prop := {
  ck_muted : is_muted env r = false;
  ck_env : read_envelope raw = Some (cl_env line);
  ck_id : te_TmpID (cl_env line) <> 0;
  ck_reply : te_ReplyTo (cl_env line) = 0 \/ c_ready (chain_of r) = false \/ te_ReplyTo (cl_env line) <= c_height (chain_of r);
  ck_text : cl_text line = env_text (cl_env line) /\ cl_text line <> [];
  ck_valid : ValidateMessage (cl_text line) = Ok tt;
  ck_trip : match cl_trip line with
            | None => te_Sig (cl_env line) = [] /\ cs_TripPub (lp_session l) = [] /\ tips = TripChains (rm_Trips r)
            | Some v => te_Sig (cl_env line) <> [] /\
                accept_signed (ev_now env) (TripChains (rm_Trips r)) (cs_TripPub (lp_session l)) (cs_DisplayName (lp_session l))
                  (ev_serverID env) (cl_env line) = Ok (cl_text line, v, tips)
            end
}.

Lemma accept_signed_text now m sp sn sid e text v m' : accept_signed now m sp sn sid e = Ok (text, v, m') ->
  text = env_text e /\ text <> [] /\ ValidateMessage text = Ok tt.
Proof.
  unfold accept_signed. destruct (env_text e) as [|c t] eqn:Ht; [done|]. destruct (ValidateMessage (c :: t)) as [[]|] eqn:Hv; [|done].
  destruct (_ && _); [done|]. cbv zeta. destruct (_ || _ || _); [done|]. destruct (expected_tip _ _) as [es ep].
  destruct (negb _); [done|]. destruct (negb _); [done|]. destruct (trip_Verify _) as [r|]; [|done]. by intros [= <- <- <-].
Qed.

Lemma check_line_ok env l r raw line tips : check_line env l r raw = Ok (line, tips) -> checked env l r raw line tips.
Proof.
  unfold check_line. cbv zeta. destruct (is_muted env r) eqn:Hm; [done|]. destruct (read_envelope raw) as [e|] eqn:He; [|done].
  destruct (is_chat e); cbn [negb]; [|done]. destruct (te_TmpID e =? 0) eqn:Hid; [done|].
  destruct (negb (te_ReplyTo e =? 0) && _ && _) eqn:Hr; [done|].
  assert (te_ReplyTo e = 0 \/ c_ready (chain_of r) = false \/ te_ReplyTo e <= c_height (chain_of r)) as Hrep.
  { destruct (c_ready (chain_of r)); [|by right; left]. destruct (te_ReplyTo e =? 0) eqn:H0; [left; lia|right; right; cbn in Hr; lia]. }
  destruct (te_Sig e) as [|b sig] eqn:Hs.
  - destruct (env_text e) as [|c t] eqn:Ht; [done|]. destruct (ValidateMessage (c :: t)) as [[]|] eqn:Hv; [|done].
    destruct (nonempty _) eqn:Hp; [done|]. intros [= <- <-]. destruct (cs_TripPub (lp_session l)) eqn:Hpub; [|done]. split; cbn; try done; lia.
  - destruct (accept_signed _ _ _ _ _ _) as [[[text v] tips']|] eqn:Ha; [|done]. intros [= <- <-].
    destruct (accept_signed_text _ _ _ _ _ _ _ _ _ Ha) as (H1 & H2 & H3). split; cbn; try done; try lia; try congruence.
    split; [by rewrite Hs|exact Ha].
Qed.

Lemma publish_event env session line r : exists meta, (publish env session line r).1 =
    EvPublished (chat_wire (st_Clock (ev_stamp env)) (cs_DisplayName session) (cl_text line) meta
      (te_TmpID (cl_env line)) (te_ReplyTo (cl_env line)) (ev_SentAt env)) /\
  match cl_trip line with None => meta = None | Some v => exists flag, meta = Some (meta_of (cs_DisplayName session) (cl_env line) v flag) end.
Proof.
  unfold publish. cbv zeta. destruct (line_meta _ _ _ _) as [meta r1] eqn:Hm. exists meta. split; [done|].
  unfold line_meta in Hm. destruct (cl_trip line) as [v|]; [|by injection Hm as <- _].
  destruct (isTripExposed _ _ _) as [flag reg]. injection Hm as <- _. by exists flag.
Qed.

Lemma accept_line_room env line tips d : (accept_line env line tips d).2 = set_trips d.2 (mkTrips tips (ExposedTrips (rm_Trips d.2))).
Proof. done. Qed.

Lemma accept_line_loop env line tips d : let l := (accept_line env line tips d).1 in
  lp_lastMessageTime l = lp_lastMessageTime d.1 /\ lp_lastChatActivity l = ev_now env /\ unlimited l = unlimited d.1 /\
  cs_DisplayName (lp_session l) = cs_DisplayName (lp_session d.1).
Proof. cbn. unfold unlimited, take_badge. cbn. destruct (cl_trip line); [|done]. by destruct (cs_TripBadge _). Qed.

(** How a chat frame ends, from the checks on. *)
Lemma chat_published env raw d w d' : chat_frame env raw d = (EvPublished w, d') ->
  exists line tips meta, check_line env d.1 d.2 raw = Ok (line, tips) /\
    w = chat_wire (st_Clock (ev_stamp env)) (cs_DisplayName (lp_session d.1)) (cl_text line) meta
          (te_TmpID (cl_env line)) (te_ReplyTo (cl_env line)) (ev_SentAt env) /\
    match cl_trip line with None => meta = None
    | Some v => exists flag, meta = Some (meta_of (cs_DisplayName (lp_session d.1)) (cl_env line) v flag) end /\
    ValidateMessageForSend (ev_now env) (cl_text line) (lp_lastMessageTime d.1) (Some (limits_of (ev_cfg env))) (unlimited d.1) = Ok tt /\
    lp_lastMessageTime d'.1 = ev_now env.
Proof.
  unfold chat_frame. destruct (check_line _ _ _ _) as [[line tips]|e] eqn:Hc.
  2:{ destruct (refusal_notice e) as [[text tag] code]. done. }
  destruct (accept_line_loop env line tips d) as (Hl & _ & Hu & Hn). cbv zeta in *.
  set (d1 := accept_line env line tips d) in *. rewrite Hl, Hu.
  destruct (ValidateMessageForSend _ _ _ _ _) as [[]|e] eqn:Hv; [|by destruct (guard_notice _ e)].
  destruct (allowSlowSend _ _ _ _) as [[[text tag]|] r2]; [done|].
  destruct (publish_event env (lp_session (stamp_message env (d1.1, r2)).1) line (stamp_message env (d1.1, r2)).2) as (meta & Hp & Hm).
  unfold with_room. rewrite Hp. cbn [stamp_message fst snd lp_session] in *. rewrite Hn in *. intros [= <- <-]. by exists line, tips, meta.
Qed.

(** The other frames publish nothing. *)
Definition quiet (ev : frame_event) : Prop := forall w, ev <> EvPublished w.

Lemma quiet_history env l p r : quiet (history_request env l p r).1.
Proof. unfold history_request. cbv zeta. by destruct (allowHistoryRequest _ _ _) as [[] r1]. Qed.

Lemma quiet_pow env l raw r : quiet (pow_frame env l raw r).1.
Proof. unfold pow_frame. destruct (rm_Screener r); [|done]. by destruct (handlePowFrame _ _ _ _ _ _ _) as [[] sc']. Qed.

Lemma quiet_vote env l target direction r : quiet (handleVote env l target direction r).1.
Proof.
  unfold handleVote. cbv zeta. repeat (match goal with |- context [if ?b then _ else _] => destruct b; [done|] end).
  destruct (allowHistoryRequest _ _ _) as [[] r1]; cbn [negb]; [|done]. destruct (cooldown_Allow _ _ _ _) as [[] cool]; cbn [negb]; [|done].
  destruct (allowSlowSend _ _ _ _) as [[[text tag]|] r2]; [done|]. destruct (applyVote _ _ _ _ _) as [v votes].
  by destruct (negb (vr_changed v)).
Qed.

Lemma quiet_reveal env l seed sig r : quiet (trip_reveal env l seed sig r).1.
Proof.
  unfold trip_reveal. destruct (allowHistoryRequest _ _ _) as [ok r1].
  by destruct (TripChains.handleTripReveal _ _ _ _ _ _ _ _ _) as [[] registry].
Qed.

Lemma frame_published env raw d w d' : read_frame env raw d = (EvPublished w, d') -> chat_frame env raw d = (EvPublished w, d').
Proof.
  unfold read_frame. destruct d as [l r]. destruct (TrimSpace raw); [done|]. destruct (read_probe raw) as [p|]; [|done].
  repeat (match goal with |- context [if ?b then _ else _] => destruct b end); try done; unfold then_deadline; intros [= H _]; exfalso.
  - by apply quiet_history in H.
  - by apply quiet_pow in H.
  - by apply quiet_vote in H.
  - by apply quiet_reveal in H.
Qed.

End published.

(** ** The log grows by published lines only *)

Section log.
Context {U : Unicode} {E : Ed25519} {A2 : Argon2}.

(** Same chain position. *)
Definition same_tip (c c' : ChainService) : Prop :=
  c_tip c' = c_tip c /\ c_height c' = c_height c /\ c_ready c' = c_ready c.

Lemma same_tip_trans c1 c2 c3 : same_tip c1 c2 -> same_tip c2 c3 -> same_tip c1 c3.
Proof. unfold same_tip. intros (A & B & C) (D & F & G). by rewrite D, F, G. Qed.

Lemma storeSystem_tip max ts c w : same_tip c (storeSystem max ts c w).2.
Proof.
  unfold storeSystem. cbn [assignSeqLocked]. set (c1 := mkChain _ _ _ _ _ _ _). set (m := set_Seq _ _). cbn [snd].
  destruct (append_fields max c1 (marshal_wire m)) as (A & B & _ & C & _).
  destruct (enqueue_fields (appendMessageLocked max c1 (marshal_wire m)) m ts) as (A' & B' & _ & C' & _).
  unfold same_tip. rewrite A', B', C', A, B, C. done.
Qed.

Lemma tip_send_to h c f : same_tip (hb_chain h) (hb_chain (send_to h c f)).
Proof. unfold send_to. destruct (hb_peers h !! c) as [p|]; [|done]. by destruct (try_send p f). Qed.

Lemma tip_say h clock c text tags : same_tip (hb_chain h) (hb_chain (unicastNotice h clock c text tags)).
Proof. unfold unicastNotice, unicastData. destruct (bool_decide _); [|done]. apply tip_send_to. Qed.

Lemma tip_replay env h a : same_tip (hb_chain h) (hb_chain (send_replay env h a)).
Proof. unfold send_replay. destruct a as [rp|]; [|done]. generalize (rp_frames rp). intros l. revert h. induction l as [|f l IH]; intros h; [done|]. cbn. apply (same_tip_trans _ (hb_chain (enqueue_frame (ev_conn env) h f))); [done|apply IH]. Qed.

Lemma tip_stored max h drain ts w sender : same_tip (hb_chain h)
  (hb_chain (let '(data, c) := storeSystem max ts (hb_chain h) w in fanout (with_chain h c) drain (Stored data) sender true false)).
Proof. pose proof (storeSystem_tip max ts (hb_chain h) w). by destruct (storeSystem _ _ _ _) as [data c]. Qed.

Lemma tip_date max h drain now : same_tip (hb_chain h) (hb_chain (CheckAndBroadcastDate max h drain now)).
Proof. unfold CheckAndBroadcastDate. destruct (_ || _); [|done]. unfold hub_BroadcastDate, BroadcastDate, broadcastSystem. apply (tip_stored max (with_date h (st_Date now))). Qed.

Definition content (w : WireMessage) := (wm_Text w, wm_DisplayName w, wm_TmpID w, wm_ReplyTo w, wm_Trip w).

Lemma content_linked w prev h height ver seq : content (set_Seq (set_link w prev h height ver) seq) = content w.
Proof. by destruct w. Qed.

Lemma link_content max ts c w pub : content (linkAndStore max ts c w pub).1.1 = content w.
Proof. unfold linkAndStore. cbn [assignSeqLocked fst]. apply content_linked. Qed.

(** C11. The chain moves by published lines only: a frame that is not published
    leaves the tip and the height where they were; a published line becomes the
    next link, whose stored form verifies against the old tip, carries the very
    text, name, ids and signature data that were checked, and is the last line of
    the log. *)
Theorem chain_grows_by_published_lines env raw d : c_ready (chain_of d.2) = true ->
  let '(ev, d') := read_frame env raw d in
  match ev with
  | EvPublished w =>
      exists w' before,
        VerifyWire (c_tip (chain_of d.2)) w' (c_tip (chain_of d'.2)) = true /\
        c_height (chain_of d'.2) = u64 (c_height (chain_of d.2) + 1) /\ wm_ChainHeight w' = c_height (chain_of d'.2) /\
        content w' = content w /\
        c_History (chain_of d'.2) `suffix_of` before ++ [marshal_wire w']
  | _ => same_tip (chain_of d.2) (chain_of d'.2)
  end.
Proof.
  intros Hr. pose proof (one_effect_per_frame env raw d) as He. destruct (read_frame env raw d) as [ev d']. cbn [fst snd] in He.
  unfold chain_of in *. rewrite He. clear He. destruct ev as [|a|o|target up down|notice|text tag|w]; cbn [hub_effect].
  - done.
  - apply tip_replay.
  - destruct o; try done; apply tip_say.
  - unfold hub_BroadcastVote, BroadcastVote. apply tip_stored.
  - unfold broadcast_reveal. apply tip_stored.
  - apply tip_say.
  - set (h1 := CheckAndBroadcastDate _ _ _ _).
    destruct (tip_date (MaxHistoryBytes (ev_cfg env)) (rm_Hub d.2) (ev_drain env) (ev_stamp env)) as (T1 & T2 & T3). fold h1 in T1, T2, T3.
    pose proof (linkAndStore_continues (MaxHistoryBytes (ev_cfg env)) (default [] (ev_serverID env)) (st_TS (ev_stamp env)) (hb_chain h1) w) as HL.
    rewrite T3 in HL. specialize (HL Hr). unfold hub_BroadcastWire, BroadcastWire.
    destruct (linkAndStore _ _ _ _ _) as [[w' data] c'] eqn:Hlink. destruct HL as (_ & _ & L3 & L4 & _ & _ & _ & L8 & -> & L10).
    exists w', (c_History (hb_chain h1)). cbn [hb_chain with_chain fanout with_peers]. rewrite <- T1, <- T2.
    split_and!; try done; [congruence|].
    pose proof (link_content (MaxHistoryBytes (ev_cfg env)) (st_TS (ev_stamp env)) (hb_chain h1) w (default [] (ev_serverID env))) as Hc.
    rewrite Hlink in Hc. exact Hc.
Qed.
End log.

(** ** A session over time *)

Section session.
Context {U : Unicode} {E : Ed25519} {A2 : Argon2}.

(** A frame arrives in the room as the other sessions left it. *)
Record Arrival := mkArrival { ar_env : Env; ar_raw : str; ar_room : Room }.

(** Whether the frame is a chat line that passes every check of its text. *)
Definition is_activity (env : Env) (raw : str) (d : Desk) : bool :=
  match TrimSpace raw with
  | [] => false
  | _ =>
      let typed := match read_probe raw with
                   | None => false
                   | Some p => existsb (str_eqb (pf_Type p)) (map lit ["history_request"; "pow_result"; "pow_decline"; "vote"; "trip_reveal"]%string)
                   end in
      negb typed && is_ok (check_line env d.1 d.2 raw)
  end.

Record Moment := mkMoment { mo_at : time; mo_event : frame_event; mo_active : bool }.

Fixpoint run_session (l : Loop) (arrivals : list Arrival) : list Moment * Loop :=
  match arrivals with
  | [] => ([], l)
  | a :: rest =>
      let d := (l, ar_room a) in
      let '(ev, d') := read_frame (ar_env a) (ar_raw a) d in
      let '(ms, l') := run_session d'.1 rest in
      (mkMoment (ev_now (ar_env a)) ev (is_activity (ar_env a) (ar_raw a) d) :: ms, l')
  end.

(** What one frame does to the loop's variables. *)
Record loop_step (env : Env) (active : bool) (ev : frame_event) (l l' : Loop) : Prop := {
  st_deadline : lp_deadline l' = next_deadline env (lp_lastChatActivity l');
  st_chat : lp_lastChatActivity l' = if active then ev_now env else lp_lastChatActivity l;
  st_last : lp_lastMessageTime l' = lp_lastMessageTime l \/ lp_lastMessageTime l' = ev_now env;
  st_unlimited : unlimited l' = unlimited l;
  st_published : forall w, ev = EvPublished w -> lp_lastMessageTime l' = ev_now env /\
    (unlimited l = false -> dyn_MessageCooldown (ev_cfg env) <= Sub (ev_now env) (lp_lastMessageTime l))
}.

Lemma step_other env l er : quiet er.1 -> loop_step env false (then_deadline env l er).1 l (then_deadline env l er).2.1.
Proof. intros H. split; cbn; try done; [by left|]. intros w Hw. by destruct (H w). Qed.

Lemma step_chat env raw d : loop_step env (is_ok (check_line env d.1 d.2 raw)) (chat_frame env raw d).1 d.1 (chat_frame env raw d).2.1.
Proof.
  destruct (chat_frame env raw d) as [ev d'] eqn:Hf. cbn [fst snd].
  assert (forall w, ev = EvPublished w -> lp_lastMessageTime d'.1 = ev_now env /\
    (unlimited d.1 = false -> dyn_MessageCooldown (ev_cfg env) <= Sub (ev_now env) (lp_lastMessageTime d.1))) as Hp.
  { intros w ->. destruct (chat_published _ _ _ _ _ Hf) as (line & tips & meta & _ & _ & _ & Hv & Hl). split; [done|].
    apply ValidateMessageForSend_spec in Hv as [_ Hv]. intros Hu. by destruct (Hv Hu _ eq_refl) as (_ & _ & ?). }
  revert Hf. unfold chat_frame. destruct (check_line _ _ _ _) as [[line tips]|e]; cbn [is_ok].
  2:{ destruct (refusal_notice e) as [[text tag] code]. intros [= <- <-]. split; cbn; try done. by left. }
  destruct (accept_line_loop env line tips d) as (Hl & Hc & Hu & _). cbv zeta in *.
  assert (lp_deadline (accept_line env line tips d).1 = next_deadline env (ev_now env)) as Hd by done.
  set (d1 := accept_line env line tips d) in *. clearbody d1.
  destruct (ValidateMessageForSend _ _ _ _ _) as [u|e].
  - destruct (allowSlowSend _ _ _ _) as [[[text tag]|] r2]; intros [= <- <-]; (split; [| | | |exact Hp]); cbn; rewrite ?Hc; try done.
    + by left.
    + by right.
  - destruct (guard_notice _ e) as [text tag]. intros [= <- <-].
    destruct e; (split; [| | | |exact Hp]); cbn; rewrite ?Hc, ?Hl; try done; try (by left); by right.
Qed.

Lemma frame_step env raw l r : loop_step env (is_activity env raw (l, r)) (read_frame env raw (l, r)).1 l (read_frame env raw (l, r)).2.1.
Proof.
  pose proof (step_chat env raw (l, r)) as Hc. cbn [fst snd] in Hc. unfold is_activity, read_frame. destruct (TrimSpace raw).
  { split; cbn; try done. by left. }
  destruct (read_probe raw) as [p|]; [|exact Hc]. cbn [map existsb fst snd]. unfold orb at 1.
  destruct (str_eqb (pf_Type p) (lit "history_request")); [apply step_other, quiet_history|].
  destruct (str_eqb (pf_Type p) (lit "pow_result")); [apply step_other, quiet_pow|].
  destruct (str_eqb (pf_Type p) (lit "pow_decline")); [apply step_other, quiet_pow|].
  destruct (str_eqb (pf_Type p) (lit "vote")); [apply step_other, quiet_vote|].
  destruct (str_eqb (pf_Type p) (lit "trip_reveal")); [apply step_other, quiet_reveal|]. exact Hc.
Qed.

Lemma run_session_cons l a rest : run_session l (a :: rest) =
  let env := ar_env a in
  let active := is_activity env (ar_raw a) (l, ar_room a) in
  let '(ev, d) := read_frame env (ar_raw a) (l, ar_room a) in
  let '(ms, l') := run_session d.1 rest in (mkMoment (ev_now env) ev active :: ms, l').
Proof. done. Qed.

(** The clock does not run backwards from [t]. *)
Fixpoint clock_from (t : time) (arrivals : list Arrival) : Prop :=
  match arrivals with [] => True | a :: rest => t <= ev_now (ar_env a) /\ clock_from (ev_now (ar_env a)) rest end.

Lemma paced_from arrivals : forall l t, lp_lastMessageTime l <= t -> clock_from t arrivals -> unlimited l = false ->
  forall j m w a, (run_session l arrivals).1 !! j = Some m -> arrivals !! j = Some a -> mo_event m = EvPublished w ->
  dyn_MessageCooldown (ev_cfg (ar_env a)) <= Sub (mo_at m) (lp_lastMessageTime l).
Proof.
  induction arrivals as [|a0 rest IH]; intros l t Ht Hck Hu j m w a Hj Ha Hw; [by destruct j|].
  rewrite run_session_cons in Hj. cbv zeta in Hj. destruct Hck as [Hck1 Hck2].
  pose proof (frame_step (ar_env a0) (ar_raw a0) l (ar_room a0)) as [_ _ S3 S4 S5].
  destruct (read_frame _ _ _) as [ev [l1 r1]]. cbn [fst snd] in *. destruct (run_session l1 rest) as [ms l'] eqn:Hr.
  destruct j as [|j]; cbn in Hj, Ha.
  - injection Hj as <-. injection Ha as <-. cbn in *. by apply (S5 w).
  - assert (lp_lastMessageTime l <= lp_lastMessageTime l1 <= ev_now (ar_env a0)) as Hl by (destruct S3 as [-> | ->]; lia).
    assert (unlimited l1 = false) as Hu1 by congruence.
    specialize (IH l1 (ev_now (ar_env a0)) ltac:(lia) Hck2 Hu1 j m w a). rewrite Hr in IH. specialize (IH Hj Ha Hw).
    etrans; [exact IH|]. unfold Sub. lia.
Qed.

(** The pace of a session: whatever it sends and whatever happens in the room
    between its frames, two published lines of a session without the unlimited
    role are at least the cooldown in force at the second one apart. *)
Theorem published_lines_are_paced arrivals : forall l, lp_lastMessageTime l <= 0 -> clock_from 0 arrivals -> unlimited l = false ->
  forall i j mi mj wi wj a, (i < j)%nat ->
  (run_session l arrivals).1 !! i = Some mi -> (run_session l arrivals).1 !! j = Some mj -> arrivals !! j = Some a ->
  mo_event mi = EvPublished wi -> mo_event mj = EvPublished wj ->
  dyn_MessageCooldown (ev_cfg (ar_env a)) <= Sub (mo_at mj) (mo_at mi).
Proof.
  intros l Ht. revert l Ht. generalize 0 as t.
  induction arrivals as [|a0 rest IH]; intros t l Ht Hck Hu i j mi mj wi wj a Hij Hi Hj Ha Hwi Hwj; [by destruct i|].
  rewrite run_session_cons in Hi, Hj. cbv zeta in Hi, Hj. destruct Hck as [Hck1 Hck2].
  pose proof (frame_step (ar_env a0) (ar_raw a0) l (ar_room a0)) as [_ _ S3 S4 S5].
  destruct (read_frame _ _ _) as [ev [l1 r1]]. cbn [fst snd] in *. destruct (run_session l1 rest) as [ms l'] eqn:Hr.
  destruct j as [|j]; [lia|]. cbn in Hj, Ha.
  assert (lp_lastMessageTime l1 <= ev_now (ar_env a0)) as Hl by (destruct S3 as [-> | ->]; lia).
  assert (unlimited l1 = false) as Hu1 by congruence.
  destruct i as [|i]; cbn in Hi.
  - injection Hi as <-. cbn in *. destruct (S5 wi Hwi) as [<- _].
    apply (paced_from rest l1 (ev_now (ar_env a0)) Hl Hck2 Hu1 j mj wj a); [by rewrite Hr|done|done].
  - specialize (IH (ev_now (ar_env a0)) l1 Hl Hck2 Hu1 i j mi mj wi wj a ltac:(lia)). rewrite Hr in IH. by apply IH.
Qed.

End session.

(** ** A refused signed line *)

Section holes.
Context {U : Unicode} {E : Ed25519} {A2 : Argon2}.

(** A signed line the send guards refuse still spends its number: the tip of
    its key advances to the refused line, the session gets a notice and the chain
    does not move, so the next published line of the key refers to a line nobody
    has seen. *)
Theorem refused_line_spends_its_number env raw d line tips v e :
  check_line env d.1 d.2 raw = Ok (line, tips) -> cl_trip line = Some v ->
  ValidateMessageForSend (ev_now env) (cl_text line) (lp_lastMessageTime d.1) (Some (limits_of (ev_cfg env))) (unlimited d.1) = Err e ->
  let '(ev, d') := chat_frame env raw d in
  (exists text tag, ev = EvNoticed text tag) /\
  TripChains (rm_Trips d'.2) !! ToLower (te_Pub (cl_env line)) = Some (mkTip (te_Seq (cl_env line)) (vr_NewPrev v) (ev_now env)) /\
  same_tip (chain_of d.2) (chain_of d'.2).
Proof.
  intros Hc Hv He. destruct (check_line_ok _ _ _ _ _ _ Hc) as [_ _ _ _ _ _ Ht]. rewrite Hv in Ht. destruct Ht as [_ Ha].
  assert (tips !! ToLower (te_Pub (cl_env line)) = Some (mkTip (te_Seq (cl_env line)) (vr_NewPrev v) (ev_now env))) as Hl.
  { revert Ha. unfold accept_signed. repeat (step_if; try done). intros [= _ <- <-]. by rewrite lookup_insert_eq. }
  unfold chat_frame. rewrite Hc. destruct (accept_line_loop env line tips d) as (H1 & _ & H2 & _). cbv zeta in *.
  pose proof (accept_line_room env line tips d) as H3. set (d1 := accept_line env line tips d) in *. clearbody d1. rewrite H1, H2, He.
  destruct (guard_notice _ e) as [text tag]. split; [by exists text, tag|].
  assert ((match e with ErrTooFast => stamp_message env d1 | _ => d1 end).2 = d1.2) as Hd by by destruct e.
  unfold with_room, refuse. cbn [fst snd]. rewrite Hd, H3. split; [exact Hl|]. apply tip_say.
Qed.
End holes.

(** ** Concrete frames *)

Definition is_published (ev : frame_event) : bool := match ev with EvPublished _ => true | _ => false end.

Lemma is_published_true ev : is_published ev = true -> exists w, ev = EvPublished w.
Proof. destruct ev; try done. by eexists. Qed.

Definition demo_config : DynamicConfig :=
  mkDynamic [] [] [] 2 5000 50 Second (30 * Minute) 10485760 500 1000 500 64 32 16384 0 12 64 (5 * Second).
Definition demo_frame (now : time) : Env :=
  mkEnv now (mkStamp (lit "15:04") (lit "t") (lit "01-01") (lit "day")) (lit "sent") demo_config None None 0 None 1%nat (lit "10.0.0.1")
    [] (fun _ => false) (fun _ => false).
Definition demo_raw : str := jlit "{`text`:`hi`,`tmp_id`:1}".
Definition demo_room : Room :=
  mkRoom (mkHub (boot (U := sample_unicode) [] None) {[1%nat]} {[1%nat := new_peer demo_session]} ∅ ∅ [] zeroRejects)
    (mkTrips ∅ ∅) (mkVotes ∅ ∅) ∅ ∅ None None None.
Definition demo_loop : Loop := mkLoop demo_session 0 0 0.

Section witnesses.
Let U := sample_unicode.
Let E := toy_ed25519.
Let A2 := toy_argon2.

Lemma demo_sent : is_published (read_frame (U := U) (E := E) (A2 := A2) (demo_frame (100 * Second)) demo_raw (demo_loop, demo_room)).1 = true.
Proof. vm_compute. reflexivity. Qed.


Lemma chain_grows_by_published_lines_witness : exists ev d,
  read_frame (U := U) (E := E) (A2 := A2) (demo_frame (100 * Second)) demo_raw (demo_loop, demo_room) = (ev, d) /\
  c_height (chain_of d.2) = 1.
Proof.
  pose proof (chain_grows_by_published_lines (U := U) (E := E) (A2 := A2) (demo_frame (100 * Second)) demo_raw (demo_loop, demo_room) eq_refl) as H.
  pose proof demo_sent as Hs. destruct (read_frame _ _ _) as [ev d]. exists ev, d. split; [done|].
  destruct (is_published_true ev Hs) as [w ->]. destruct H as (w' & before & _ & H & _). rewrite H. by vm_compute.
Defined.

Definition demo_arrivals : list Arrival :=
  [mkArrival (demo_frame (100 * Second)) demo_raw demo_room; mkArrival (demo_frame (101 * Second)) demo_raw demo_room].

Lemma published_lines_are_paced_witness : exists mi mj,
  (run_session (U := U) (E := E) (A2 := A2) demo_loop demo_arrivals).1 = [mi; mj] /\ Second <= Sub (mo_at mj) (mo_at mi).
Proof.
  pose proof (published_lines_are_paced (U := U) (E := E) (A2 := A2) demo_arrivals demo_loop ltac:(by vm_compute) ltac:(by vm_compute) eq_refl 0%nat 1%nat) as H.
  assert (map (fun m => is_published (mo_event m)) (run_session (U := U) (E := E) (A2 := A2) demo_loop demo_arrivals).1 = [true; true]) as Hm by (vm_compute; reflexivity).
  destruct (run_session _ _).1 as [|mi [|mj [|? ?]]]; try done. injection Hm as H1 H2.
  destruct (is_published_true _ H1) as [wi Hi], (is_published_true _ H2) as [wj Hj]. exists mi, mj. split; [done|].
  exact (H mi mj wi wj (mkArrival (demo_frame (101 * Second)) demo_raw demo_room) ltac:(lia) eq_refl eq_refl eq_refl Hi Hj).
Defined.

(** A page request every minute keeps the socket, not the seat. *)
Definition demo_idle : list Arrival :=
  map (fun t => mkArrival (demo_frame (t * Minute)) (jlit "{`type`:`history_request`,`limit`:1}") demo_room) [10; 20; 29; 30].


(** Too fast by a millisecond: the tip of the key moves, the line is dropped. *)
Definition demo_signed : str :=
  let pub := ed_pub (Ed25519 := E) toy_seed in
  let sig := ed_sign (Ed25519 := E) toy_seed (CanonicalPayload [] 1 zero32 (sha256 (lit "hi")) pub (lit "An#a1b2") 7 0) in
  print (JObj (fstr "text" (lit "hi") ++ fstr "pub" (hex_encode pub) ++ fint "seq" 1 ++ fstr "prev" (hex_encode zero32) ++
               fstr "sig" (hex_encode sig) ++ fint "tmp_id" 7)).
Definition demo_hasty : Loop := mkLoop demo_session 0 (100 * Second) 0.

Lemma refused_line_spends_its_number_witness : exists ev d,
  chat_frame (U := U) (E := E) (demo_frame (100 * Second + Millisecond)) demo_signed (demo_hasty, demo_room) = (ev, d) /\
  is_published ev = false /\ c_height (chain_of d.2) = 0 /\ size (TripChains (rm_Trips d.2)) = 1%nat.
Proof.
  pose (facts := fun x : res chat_refusal (ChatLine * gmap str TripChain) =>
    match x with Ok (l, _) => bool_decide (is_Some (cl_trip l)) && str_eqb (cl_text l) (lit "hi") | Err _ => false end).
  assert (facts (check_line (U := U) (E := E) (demo_frame (100 * Second + Millisecond)) demo_hasty demo_room demo_signed) = true) as Hx
    by (vm_compute; reflexivity).
  destruct (check_line (U := U) (E := E) (demo_frame (100 * Second + Millisecond)) demo_hasty demo_room demo_signed) as [[line tips]|e] eqn:Hc; [|done].
  apply andb_true_iff in Hx as [[v Hv]%bool_decide_eq_true Ht%str_eqb_eq].
  pose proof (refused_line_spends_its_number (U := U) (E := E) (demo_frame (100 * Second + Millisecond)) demo_signed (demo_hasty, demo_room)
    line tips v ErrTooFast Hc Hv ltac:(rewrite Ht; by vm_compute)) as H.
  destruct (chat_frame _ _ _) as [ev d] eqn:Hf. exists ev, d. destruct H as ((text & tag & ->) & _ & _ & Hh & _). split; [reflexivity|]. split; [reflexivity|].
  split; [rewrite Hh; by vm_compute|]. apply (f_equal (fun x => size (TripChains (rm_Trips x.2.2)))) in Hf. cbn [snd] in Hf. rewrite <- Hf. vm_compute. reflexivity.
Defined.
End witnesses.
