(* ===== verification/EnvMerge.v ===== *)
(** The overlay of a new [.env] template on the operator's file
    ([internal/configmerge/merge.go], the env part): parsing, the merge of the
    two, the renderer that walks the template, and the removal of keys.  Where
    the code ranges over a map its results are sorted afterwards. *)

From stdpp Require Import sorting.
From S2P Require Import Prelude Bytes Utf8 Json HistoryScan.
Local Open Scope Z_scope.

(** * Strings *)

Definition space : ascii := " "%char.
Definition tab : ascii := byte_of 9.
Definition hash : ascii := "#"%char.
Definition eq_b : ascii := "="%char.
Definition squote : ascii := byte_of 39.

(** [strings.ReplaceAll] of a two-byte pattern by one byte. *)
Fixpoint replace2 (a b c : ascii) (s : str) : str :=
  match s with
  | x :: (y :: s2) as s1 => if byte_eqb x a && byte_eqb y b then c :: replace2 a b c s2 else x :: replace2 a b c s1
  | _ => s
  end.

(** And of one byte by that byte escaped. *)
Definition escape (q : ascii) (s : str) : str := flat_map (fun c => if byte_eqb c q then [bslash; c] else [c]) s.

(** What comes before the first occurrence of the two bytes. *)
Fixpoint before2 (a b : ascii) (s : str) : option str :=
  match s with
  | x :: (y :: _) as s1 => if byte_eqb x a && byte_eqb y b then Some [] else (fun r => x :: r) <$> before2 a b s1
  | _ => None
  end.

(** [strings.TrimLeft] with a cutset. *)
Fixpoint trim_left (cut : list ascii) (s : str) : str :=
  match s with
  | c :: s' => if existsb (byte_eqb c) cut then trim_left cut s' else s
  | [] => []
  end.

(** [strings.Join] with line feeds. *)
Fixpoint join_lf (ls : list str) : str :=
  match ls with
  | [] => []
  | [l] => l
  | l :: ls' => l ++ nl :: join_lf ls'
  end.

(** The order of [sort.Strings]. *)
Fixpoint str_leb (s t : str) : bool :=
  match s, t with
  | [], _ => true
  | _, [] => false
  | a :: s', b :: t' => if byte_val a <? byte_val b then true else if byte_val b <? byte_val a then false else str_leb s' t'
  end.
Definition str_le (s t : str) : Prop := str_leb s t = true.
#[export] Instance str_le_dec : RelDecision str_le := fun s t => decide (str_leb s t = true).
Definition sort_strings (l : list str) : list str := merge_sort str_le l.

(** * Lines *)

Definition quoted (val : str) : option str :=
  match val with
  | q :: (_ :: _) as rest =>
      if (byte_eqb q quote_b || byte_eqb q squote) && byte_eqb (List.last rest q) q then Some (removelast rest) else None
  | _ => None
  end.

Definition unquoteEnv (val : str) : str :=
  match quoted val with
  | Some inner => replace2 bslash squote squote (replace2 bslash quote_b quote_b inner)
  | None => match before2 space hash val with Some v => TrimSpace v | None => val end
  end.

Definition bad_key_byte (c : ascii) : bool := byte_eqb c space || byte_eqb c tab || byte_eqb c hash.

Definition nonblank (s : str) : bool := match s with [] => false | _ => true end.
Definition is_comment (trimmed : str) : bool := match trimmed with c :: _ => byte_eqb c hash | [] => false end.

Definition export_prefix : str := lit "export ".

Definition strip_export (trimmed : str) : str :=
  if has_prefix trimmed export_prefix then TrimSpace (drop (length export_prefix) trimmed) else trimmed.

Definition parseEnvLine (line : str) : option (str * str) :=
  let trimmed := TrimSpace line in
  if negb (nonblank trimmed) || is_comment trimmed then None
  else
    match cut_byte eq_b (strip_export trimmed) with
    | None => None
    | Some (k, v) =>
        let key := TrimSpace k in
        if negb (nonblank key) || existsb bad_key_byte key then None else Some (key, unquoteEnv (TrimSpace v))
    end.

Definition parseCommentedEnvLine (line : str) : option (str * str) :=
  let trimmed := TrimSpace line in
  if is_comment trimmed then parseEnvLine (TrimSpace (trim_left [hash] trimmed)) else None.

(** * Files *)

Record envFile := mkEnvFile {
  ef_order : list str;
  ef_values : gmap str str;
  ef_raws : gmap str str;
  ef_comments : gmap str (list str);
  ef_commented : gmap str str;
  ef_commentedRaws : gmap str str
}.

Definition zeroEnvFile : envFile := mkEnvFile [] ∅ ∅ ∅ ∅ ∅.

(** One line, with the comment lines pending above it. *)
Definition env_line (st : envFile * list str) (line : str) : envFile * list str :=
  let '(f, pending) := st in
  let trimmed := TrimSpace line in
  if negb (nonblank trimmed) then (f, match pending, ef_order f with _ :: _, [] => pending ++ [line] | _, _ => pending end)
  else
      match parseEnvLine line with
      | Some (key, value) =>
          (mkEnvFile (match ef_values f !! key with Some _ => ef_order f | None => ef_order f ++ [key] end)
             (<[key := value]> (ef_values f)) (<[key := line]> (ef_raws f))
             (match pending with [] => ef_comments f | _ => <[key := pending]> (ef_comments f) end)
             (ef_commented f) (ef_commentedRaws f), [])
      | None =>
          if is_comment trimmed then
            let f := match parseCommentedEnvLine line with
                     | Some (key, value) =>
                         match ef_values f !! key, ef_commented f !! key with
                         | None, None =>
                             mkEnvFile (ef_order f) (ef_values f) (ef_raws f) (ef_comments f)
                               (<[key := value]> (ef_commented f)) (<[key := line]> (ef_commentedRaws f))
                         | _, _ => f
                         end
                     | None => f
                     end in
            (f, pending ++ [line])
          else (f, [])
      end.

Definition parse_lines (lines : list str) : envFile := (fold_left env_line lines (zeroEnvFile, [])).1.
Definition parseEnv (data : str) : envFile := parse_lines (split_nl data).

Definition EnvKeys (data : str) : list str := ef_order (parseEnv data).

(** The order collapses with the sort, so a map's own order does not show. *)
Definition EnvAllKeys (data : str) : list str :=
  let f := parseEnv data in
  sort_strings (elements ((list_to_set (ef_order f) : gset str) ∪ dom (ef_commented f))).

(** * The overlay *)

Record EnvResult := mkEnvResult {
  er_Values : gmap str str;
  er_Added : list str;
  er_Kept : list str;
  er_ChangedUpstream : list str;
  er_Orphaned : list str;
  er_Order : list str;
  er_Comments : gmap str (list str);
  er_LocalRaw : gmap str str;
  er_NewRaw : gmap str str;
  er_Activated : gmap str str;
  er_LocalCommented : gmap str str
}.

(** The three loops fill this much of the result. *)
Record overlay := mkOverlay {
  ov_Values : gmap str str;
  ov_Added : list str;
  ov_Kept : list str;
  ov_Changed : list str;
  ov_Orphaned : list str;
  ov_localOnly : list str;
  ov_Activated : gmap str str
}.

(** A key of the template. *)
Definition overlay_new (local new : envFile) (o : overlay) (key : str) : overlay :=
  let newVal := default [] (ef_values new !! key) in
  match ef_values local !! key with
  | None => mkOverlay (<[key := newVal]> (ov_Values o)) (ov_Added o ++ [key]) (ov_Kept o) (ov_Changed o) (ov_Orphaned o) (ov_localOnly o) (ov_Activated o)
  | Some localVal =>
      mkOverlay (<[key := localVal]> (ov_Values o)) (ov_Added o) (ov_Kept o ++ [key])
        (if str_eqb localVal newVal then ov_Changed o else ov_Changed o ++ [key]) (ov_Orphaned o) (ov_localOnly o) (ov_Activated o)
  end.

(** A key of the local file. *)
Definition overlay_local (new : envFile) (o : overlay) (kv : str * str) : overlay :=
  let '(key, localVal) := kv in
  match ef_values new !! key, ef_commented new !! key with
  | None, None =>
      mkOverlay (<[key := localVal]> (ov_Values o)) (ov_Added o) (ov_Kept o ++ [key]) (ov_Changed o) (ov_Orphaned o ++ [key])
        (ov_localOnly o ++ [key]) (ov_Activated o)
  | _, _ => o
  end.

(** A commented default of the template. *)
Definition overlay_commented (local : envFile) (o : overlay) (kv : str * str) : overlay :=
  let key := kv.1 in
  match ef_values local !! key, ov_Values o !! key with
  | Some localVal, None =>
      mkOverlay (<[key := localVal]> (ov_Values o)) (ov_Added o) (ov_Kept o ++ [key]) (ov_Changed o ++ [key]) (ov_Orphaned o)
        (ov_localOnly o) (<[key := localVal]> (ov_Activated o))
  | _, _ => o
  end.

Definition overlay_files (local new : envFile) : overlay :=
  let o := fold_left (overlay_new local new) (ef_order new) (mkOverlay ∅ [] [] [] [] [] ∅) in
  let o := fold_left (overlay_local new) (map_to_list (ef_values local)) o in
  fold_left (overlay_commented local) (map_to_list (ef_commented new)) o.

Definition overlay_comments (local new : envFile) (order : list str) : gmap str (list str) :=
  fold_left (fun m key =>
    match ef_comments new !! key, ef_comments local !! key with
    | Some c, _ | None, Some c => <[key := c]> m
    | None, None => m
    end) order ∅.

Definition OverlayEnv (localData newData : str) : EnvResult :=
  let local := parseEnv localData in
  let new := parseEnv newData in
  let o := overlay_files local new in
  let order := ef_order new ++ sort_strings (ov_localOnly o) in
  mkEnvResult (ov_Values o) (sort_strings (ov_Added o)) (sort_strings (ov_Kept o)) (sort_strings (ov_Changed o))
    (sort_strings (ov_Orphaned o)) order (overlay_comments local new order) (ef_raws local) (ef_raws new) (ov_Activated o)
    (ef_commentedRaws local).

(** * Rendering *)

Definition is_blank (c : ascii) : bool := byte_eqb c space || byte_eqb c tab.

(** The value part split at a comment outside quotes: [quote] is the open quote,
    [prev] the byte before. *)
Fixpoint unquotedHash (quote : option ascii) (prev : option ascii) (s : str) : option (str * str) :=
  match s with
  | [] => None
  | c :: s' =>
      let go quote := (fun r => (c :: r.1, r.2)) <$> unquotedHash quote (Some c) s' in
      match quote with
      | Some q =>
          if byte_eqb c bslash then
            match s' with
            | [] => None
            | d :: s2 => (fun r => (c :: d :: r.1, r.2)) <$> unquotedHash quote (Some d) s2
            end
          else go (if byte_eqb c q then None else quote)
      | None =>
          if byte_eqb c quote_b || byte_eqb c squote then go (Some c)
          else if byte_eqb c hash && match prev with Some p => is_blank p | None => false end then Some ([], s)
          else go None
      end
  end.

Definition needs_quote_byte (c : ascii) : bool :=
  byte_eqb c space || byte_eqb c tab || byte_eqb c hash || byte_eqb c quote_b || byte_eqb c squote.
Definition needsQuoting (val : str) : bool := existsb needs_quote_byte val.

(** The value in the quoting style of the old one. *)
Definition styled_value (restTrim val : str) : str :=
  match restTrim, quoted restTrim with
  | q :: _, Some _ => q :: escape q val ++ [q]
  | _, _ => if needsQuoting val then quote_b :: escape quote_b val ++ [quote_b] else val
  end.

Definition substituteEnvValue (raw val : str) : str :=
  match parseEnvLine raw with
  | None => raw
  | Some (_, oldVal) =>
      if str_eqb oldVal val then raw
      else
        match cut_byte eq_b raw with
        | None => raw
        | Some (prefix, rest) =>
            let '(rest, trailer) := match unquotedHash None None rest with Some (r, t) => (r, TrimSpace t) | None => (rest, []) end in
            let styled := styled_value (TrimSpace rest) val in
            prefix ++ eq_b :: styled ++ match trailer with [] => [] | _ => space :: trailer end
        end
  end.

(** The leading blanks and the rest. *)
Fixpoint indent_of (raw : str) : str * str :=
  match raw with
  | c :: raw' => if is_blank c then let '(i, r) := indent_of raw' in (c :: i, r) else ([], raw)
  | [] => ([], [])
  end.

Definition activateEnvLine (raw val : str) : str :=
  let '(indent, body) := indent_of raw in
  let rest := trim_left [space; tab] (trim_left [hash] body) in
  match parseEnvLine rest with
  | None => raw
  | Some _ => indent ++ substituteEnvValue rest val
  end.

Definition commentEnvLine (raw : str) : str := let '(indent, body) := indent_of raw in indent ++ hash :: body.

(** The lines of a template, without the end of the last one. *)
Definition template_lines (data : str) : list str :=
  let lines := split_nl data in match List.last lines [nl] with [] => removelast lines | _ => lines end.

(** A template line, and the key it emits. *)
Definition render_line (res : EnvResult) (commentOnAdd : gset str) (line : str) : str * option str :=
  match parseEnvLine line with
  | Some (key, _) =>
      (if bool_decide (key ∈ commentOnAdd) && bool_decide (key ∈ er_Added res)
       then default (commentEnvLine line) (er_LocalCommented res !! key)
       else match er_Values res !! key with Some val => substituteEnvValue line val | None => line end,
       Some key)
  | None =>
      match parseCommentedEnvLine line with
      | Some (key, _) =>
          match er_Activated res !! key with
          | Some val => (activateEnvLine line val, Some key)
          | None => (line, None)
          end
      | None => (line, None)
      end
  end.

Definition render_extra (res : EnvResult) (st : list str * gset str) (key : str) : list str * gset str :=
  let '(out, emitted) := st in
  if bool_decide (key ∈ emitted) then st
  else
    match er_Values res !! key with
    | None => st
    | Some val =>
        (out ++ default [] (er_Comments res !! key) ++ [default (key ++ eq_b :: val) (er_LocalRaw res !! key)], {[key]} ∪ emitted)
    end.

Definition render_lines (res : EnvResult) (commentOnAdd : gset str) (lines : list str) : list str :=
  let rendered := map (render_line res commentOnAdd) lines in
  (fold_left (render_extra res) (er_Order res) (map fst rendered, list_to_set (omap snd rendered))).1.

Definition RenderEnvWithPolicy (res : EnvResult) (newData : str) (commentOnAdd : gset str) : str :=
  join_lf (render_lines res commentOnAdd (template_lines newData)) ++ [nl].

Definition RenderEnv (res : EnvResult) (newData : str) : str := RenderEnvWithPolicy res newData ∅.

(** * Dropping keys *)

Definition dropped_key (drop : gset str) (line : str) : option str :=
  let pick o := match o with Some (k, _) => if bool_decide (k ∈ drop) then Some k else None | None => None end in
  match pick (parseEnvLine line) with Some k => Some k | None => pick (parseCommentedEnvLine line) end.

Definition DropEnvKeys (data : str) (drop : gset str) : str * list str :=
  if bool_decide (drop = ∅) then (data, [])
  else
    let lines := split_nl data in
    (join_lf (List.filter (fun l => match dropped_key drop l with Some _ => false | None => true end) lines),
     sort_strings (elements (list_to_set (omap (dropped_key drop) lines) : gset str))).

Example overlay_ex :
  RenderEnv (OverlayEnv (lit "A=1" ++ [nl] ++ lit "X='u v'" ++ [nl] ++ lit "C=on")
                        (lit "# top" ++ [nl] ++ lit "A=0" ++ [nl] ++ lit "B=2 # two" ++ [nl] ++ lit "#C=off" ++ [nl]))
            (lit "# top" ++ [nl] ++ lit "A=0" ++ [nl] ++ lit "B=2 # two" ++ [nl] ++ lit "#C=off" ++ [nl])
  = lit "# top" ++ [nl] ++ lit "A=1" ++ [nl] ++ lit "B=2 # two" ++ [nl] ++ lit "C=on" ++ [nl] ++ lit "X='u v'" ++ [nl].
Proof. vm_compute. reflexivity. Qed.

(** * Theorems *)

Lemma elem_of_sort k l : k ∈ sort_strings l <-> k ∈ l.
Proof. unfold sort_strings. by rewrite merge_sort_Permutation. Qed.

(** ** What a file's lines say *)

(** The values the lines give a key, in order. *)
Definition active (k : str) (line : str) : option str :=
  match parseEnvLine line with Some (k', v) => if bool_decide (k' = k) then Some v else None | None => None end.
Definition values_at (k : str) (lines : list str) : list str := omap (active k) lines.

Record env_inv (lines : list str) (f : envFile) : Prop := {
  ev_values : forall k, ef_values f !! k = last (values_at k lines);
  ev_order : forall k, k ∈ ef_order f <-> is_Some (ef_values f !! k);
  ev_nodup : NoDup (ef_order f);
  ev_raws : forall k raw, ef_raws f !! k = Some raw -> raw ∈ lines /\ active k raw = ef_values f !! k /\ is_Some (active k raw);
  ev_rawed : forall k, is_Some (ef_raws f !! k) <-> is_Some (ef_values f !! k);
  ev_commented : forall k, is_Some (ef_commented f !! k) -> exists l v, l ∈ lines /\ parseCommentedEnvLine l = Some (k, v);
  ev_comments : forall k ls, ef_comments f !! k = Some ls -> Forall (fun l => parseEnvLine l = None /\ l ∈ lines) ls
}.

Lemma values_at_snoc k lines line : values_at k (lines ++ [line]) = values_at k lines ++ match active k line with Some v => [v] | None => [] end.
Proof. unfold values_at. rewrite omap_app. by f_equal. Qed.

Lemma last_values_snoc k lines line : last (values_at k (lines ++ [line])) =
  match active k line with Some v => Some v | None => last (values_at k lines) end.
Proof. rewrite values_at_snoc. destruct (active k line); [apply last_snoc|by rewrite app_nil_r]. Qed.

Lemma active_None line k : parseEnvLine line = None -> active k line = None.
Proof. unfold active. by intros ->. Qed.

Lemma blank_line line : nonblank (TrimSpace line) = false -> parseEnvLine line = None.
Proof. unfold parseEnvLine. by intros ->. Qed.

(** A line that is not an entry only touches the comments. *)
Lemma env_inv_same lines line f f' : env_inv lines f -> parseEnvLine line = None ->
  ef_order f' = ef_order f -> ef_values f' = ef_values f -> ef_raws f' = ef_raws f -> ef_comments f' = ef_comments f ->
  (forall k, is_Some (ef_commented f' !! k) -> is_Some (ef_commented f !! k) \/ exists v, parseCommentedEnvLine line = Some (k, v)) ->
  env_inv (lines ++ [line]) f'.
Proof.
  intros [I1 I2 I3 I4 I5 I6 I7] Hp E1 E2 E3 E4 Hc.
  split; rewrite ?E1, ?E2, ?E3; try done.
  - intros k. rewrite last_values_snoc, active_None by done. apply I1.
  - intros k raw Hr. destruct (I4 k raw Hr) as (H1 & H2 & H3). split; [set_solver|done].
  - intros k Hk. destruct (Hc k Hk) as [H|[v Hv]].
    + destruct (I6 k H) as (l & v & Hl & Hv). exists l, v. set_solver.
    + exists line, v. set_solver.
  - intros k ls. rewrite E4. intros H. eapply Forall_impl; [by apply (I7 k)|]. cbn. set_solver.
Qed.

Definition pending_ok (lines pending : list str) : Prop := Forall (fun l => parseEnvLine l = None /\ l ∈ lines) pending.

Lemma pending_more lines line pending : pending_ok lines pending -> pending_ok (lines ++ [line]) pending.
Proof. intros H. eapply Forall_impl; [exact H|]. cbn. set_solver. Qed.

Lemma pending_snoc lines line pending : parseEnvLine line = None -> pending_ok lines pending -> pending_ok (lines ++ [line]) (pending ++ [line]).
Proof. intros Hp H. apply Forall_app. split; [by apply pending_more|]. apply Forall_singleton. set_solver. Qed.

Lemma env_line_inv lines line f pending : env_inv lines f -> pending_ok lines pending ->
  let '(f', pending') := env_line (f, pending) line in env_inv (lines ++ [line]) f' /\ pending_ok (lines ++ [line]) pending'.
Proof.
  intros Hi Hp. pose proof Hi as [I1 I2 I3 I4 I5 I6 I7]. unfold env_line. cbv zeta. destruct (nonblank (TrimSpace line)) eqn:Hb; cbn [negb].
  2:{ apply blank_line in Hb. split; [by apply (env_inv_same lines line f); auto|].
      destruct pending as [|p ps]; [by apply Forall_nil_2|]. destruct (ef_order f); [by apply pending_snoc|by apply pending_more]. }
  destruct (parseEnvLine line) as [[key value]|] eqn:Hl.
  - split; [|by apply Forall_nil_2].
    assert (forall k, active k line = if bool_decide (key = k) then Some value else None) as Ha by (intros k; unfold active; by rewrite Hl).
    split; cbn [ef_order ef_values ef_raws ef_comments ef_commented].
    + intros k. rewrite last_values_snoc, Ha, lookup_insert. by destruct (decide (key = k)); rewrite ?bool_decide_true, ?bool_decide_false by done.
    + intros k. rewrite lookup_insert. destruct (decide (key = k)) as [->|Hn].
      * split; [done|]. intros _. destruct (ef_values f !! k) eqn:E; [apply I2; by rewrite E|set_solver].
      * rewrite <- I2. destruct (ef_values f !! key); set_solver.
    + destruct (ef_values f !! key) eqn:E; [done|]. apply NoDup_app. split; [done|]. split; [|apply NoDup_singleton].
      intros k Hk ->%list_elem_of_singleton. apply I2 in Hk. rewrite E in Hk. by destruct Hk.
    + intros k raw. rewrite !lookup_insert. destruct (decide (key = k)) as [->|Hn].
      * intros [= <-]. rewrite Ha, bool_decide_true by done. split; [set_solver|done].
      * intros Hr. destruct (I4 k raw Hr) as (H1 & H2 & H3). split; [set_solver|done].
    + intros k. rewrite !lookup_insert. destruct (decide (key = k)); [split; by eexists|apply I5].
    + intros k Hk. destruct (I6 k Hk) as (l & v & Hin & Hv). exists l, v. set_solver.
    + intros k ls. intros H. apply pending_more. destruct pending as [|p ps]; [by apply (I7 k)|].
      rewrite lookup_insert in H. destruct (decide (key = k)); [by injection H as <-|by apply (I7 k)].
  - destruct (is_comment (TrimSpace line)).
    + split; [|by apply pending_snoc]. destruct (parseCommentedEnvLine line) as [[key value]|] eqn:Hc; [|by apply (env_inv_same lines line f); auto].
      destruct (ef_values f !! key) eqn:E1; [by apply (env_inv_same lines line f); auto|].
      destruct (ef_commented f !! key) eqn:E2; [by apply (env_inv_same lines line f); auto|].
      apply (env_inv_same lines line f); auto. cbn. intros k. rewrite lookup_insert.
      destruct (decide (key = k)) as [->|]; [right; by exists value|by left].
    + split; [by apply (env_inv_same lines line f); auto|by apply Forall_nil_2].
Qed.

Lemma parse_lines_inv lines : env_inv lines (parse_lines lines).
Proof.
  unfold parse_lines.
  assert (env_inv lines (fold_left env_line lines (zeroEnvFile, [])).1 /\ pending_ok lines (fold_left env_line lines (zeroEnvFile, [])).2) as [H _]; [|exact H].
  induction lines as [|line lines IH] using rev_ind.
  - split; [|by apply Forall_nil_2]. split; cbn; try (intros k; rewrite ?lookup_empty; done); try (by apply NoDup_nil_2).
    intros k. rewrite lookup_empty. split; [by intros ?%not_elem_of_nil|by intros [? ?]].
  - rewrite fold_left_app. cbn [fold_left]. destruct IH as [H1 H2]. destruct (fold_left env_line lines (zeroEnvFile, [])) as [f pending].
    cbn in H1, H2. pose proof (env_line_inv lines line f pending H1 H2) as H. by destruct (env_line (f, pending) line).
Qed.

Lemma parseEnv_inv data : env_inv (split_nl data) (parseEnv data).
Proof. apply parse_lines_inv. Qed.

(** ** The overlay *)

Section overlay.
Context (local new : envFile).

(** What the three loops have done, over the keys they have seen. *)
Lemma overlay_new_spec ks o : let o' := fold_left (overlay_new local new) ks o in
  (forall k, ov_Values o' !! k = if bool_decide (k ∈ ks) then Some (default (default [] (ef_values new !! k)) (ef_values local !! k)) else ov_Values o !! k) /\
  (forall k, k ∈ ov_Added o' <-> k ∈ ov_Added o \/ k ∈ ks /\ ef_values local !! k = None) /\
  (forall k, k ∈ ov_Kept o' <-> k ∈ ov_Kept o \/ k ∈ ks /\ is_Some (ef_values local !! k)) /\
  (forall k, k ∈ ov_Changed o' <-> k ∈ ov_Changed o \/ k ∈ ks /\ exists v, ef_values local !! k = Some v /\ v <> default [] (ef_values new !! k)) /\
  ov_Orphaned o' = ov_Orphaned o /\ ov_localOnly o' = ov_localOnly o /\ ov_Activated o' = ov_Activated o.
Proof.
  revert o. induction ks as [|key ks IH]; intros o; cbn [fold_left].
  - cbv zeta. split_and!; try done; intros k; rewrite elem_of_nil; naive_solver.
  - destruct (IH (overlay_new local new o key)) as (H1 & H2 & H3 & H4 & H5 & H6 & H7). cbv zeta in *. clear IH.
    assert (forall k, (if bool_decide (k ∈ ks) then Some (default (default [] (ef_values new !! k)) (ef_values local !! k))
                       else (<[key := default (default [] (ef_values new !! key)) (ef_values local !! key)]> (ov_Values o)) !! k)
              = if bool_decide (k ∈ key :: ks) then Some (default (default [] (ef_values new !! k)) (ef_values local !! k)) else ov_Values o !! k) as Hv.
    { intros k. destruct (decide (key = k)) as [->|Hn].
      - rewrite (bool_decide_true (k ∈ k :: ks)) by left. case_bool_decide; [done|]. by rewrite lookup_insert_eq.
      - rewrite lookup_insert_ne by done. rewrite (bool_decide_ext (k ∈ key :: ks) (k ∈ ks)); [done|]. rewrite elem_of_cons. naive_solver. }
    unfold overlay_new in *. destruct (ef_values local !! key) as [v|] eqn:Hl; cbn [ov_Values ov_Added ov_Kept ov_Changed ov_Orphaned ov_localOnly ov_Activated default] in *.
    + split_and!; try done; intros k; rewrite ?elem_of_cons.
      * by rewrite H1, Hv.
      * rewrite H2. naive_solver congruence.
      * rewrite H3, elem_of_app, list_elem_of_singleton. naive_solver.
      * rewrite H4. destruct (str_eqb v _) eqn:Ev; [apply str_eqb_eq in Ev|apply str_eqb_neq in Ev; rewrite elem_of_app, list_elem_of_singleton]; naive_solver congruence.
    + split_and!; try done; intros k; rewrite ?elem_of_cons.
      * by rewrite H1, Hv.
      * rewrite H2, elem_of_app, list_elem_of_singleton. naive_solver.
      * rewrite H3. split; [naive_solver|]. intros [?|[[->|?] [w Hw]]]; [by left|congruence|right; eauto].
      * rewrite H4. split; [naive_solver|]. intros [?|[[->|?] (w & Hw & Hn)]]; [by left|congruence|right; eauto].
Qed.

Definition only_local (k : str) : Prop := ef_values new !! k = None /\ ef_commented new !! k = None.

Lemma overlay_local_spec l o : (forall k v, (k, v) ∈ l -> ef_values local !! k = Some v) ->
  let o' := fold_left (overlay_local new) l o in
  (forall k, (k ∈ l.*1 /\ only_local k -> ov_Values o' !! k = ef_values local !! k) /\
             (~ (k ∈ l.*1 /\ only_local k) -> ov_Values o' !! k = ov_Values o !! k)) /\
  (forall k, k ∈ ov_Kept o' <-> k ∈ ov_Kept o \/ k ∈ l.*1 /\ only_local k) /\
  (forall k, k ∈ ov_Orphaned o' <-> k ∈ ov_Orphaned o \/ k ∈ l.*1 /\ only_local k) /\
  (forall k, k ∈ ov_localOnly o' <-> k ∈ ov_localOnly o \/ k ∈ l.*1 /\ only_local k) /\
  ov_Added o' = ov_Added o /\ ov_Changed o' = ov_Changed o /\ ov_Activated o' = ov_Activated o.
Proof.
  revert o. induction l as [|[key v] l IH]; intros o Hl; cbn [fold_left].
  - cbv zeta. split_and!; try done; try (intros k; set_solver).
  - destruct (IH (overlay_local new o (key, v)) ltac:(set_solver)) as (H1 & H2 & H3 & H4 & H5 & H6 & H7). cbv zeta in *. clear IH.
    assert (ef_values local !! key = Some v) as Hv by (apply Hl; left).
    unfold overlay_local in *. cbn [fmap list_fmap fst].
    destruct (ef_values new !! key) eqn:E1; [|destruct (ef_commented new !! key) eqn:E2];
      cbn [ov_Values ov_Added ov_Kept ov_Changed ov_Orphaned ov_localOnly ov_Activated] in *.
    1,2: assert (~ only_local key) as Hno by (unfold only_local; intros [? ?]; congruence);
      split_and!; try done; [|intros k; rewrite ?H2, ?H3, ?H4, elem_of_cons; naive_solver..];
      intros k; destruct (H1 k) as [A B]; split; [intros [[->|?]%elem_of_cons ?]; naive_solver|intros Hn; apply B; set_solver].
    assert (only_local key) as Ho by done.
    split_and!; try done; [|intros k; rewrite ?H2, ?H3, ?H4, elem_of_app, list_elem_of_singleton, elem_of_cons; naive_solver..].
    intros k. destruct (H1 k) as [A B]. split.
    + intros [Hk Hok]. destruct (decide (k ∈ l.*1)) as [Hin|Hin]; [by apply A|]. apply elem_of_cons in Hk as [->|?]; [|done].
      rewrite B by tauto. by rewrite lookup_insert_eq.
    + intros Hn. rewrite B by set_solver. apply lookup_insert_ne. intros <-. apply Hn. split; [set_solver|done].
Qed.

Lemma overlay_commented_spec l o : let o' := fold_left (overlay_commented local) l o in
  (forall k, ov_Values o' !! k = match ov_Values o !! k with Some v => Some v | None => if decide (k ∈ l.*1) then ef_values local !! k else None end) /\
  (forall k, k ∈ ov_Kept o' <-> k ∈ ov_Kept o \/ k ∈ l.*1 /\ is_Some (ef_values local !! k) /\ ov_Values o !! k = None) /\
  (forall k, k ∈ ov_Changed o' <-> k ∈ ov_Changed o \/ k ∈ l.*1 /\ is_Some (ef_values local !! k) /\ ov_Values o !! k = None) /\
  (forall k, ov_Activated o' !! k = if decide (k ∈ l.*1 /\ is_Some (ef_values local !! k) /\ ov_Values o !! k = None) then ef_values local !! k else ov_Activated o !! k) /\
  ov_Added o' = ov_Added o /\ ov_Orphaned o' = ov_Orphaned o /\ ov_localOnly o' = ov_localOnly o.
Proof.
  revert o. induction l as [|[key c] l IH]; intros o; cbn [fold_left].
  - cbv zeta. split_and!; try done; try (intros k; set_solver).
    intros k. rewrite decide_False by apply not_elem_of_nil. by destruct (ov_Values o !! k).
  - destruct (IH (overlay_commented local o (key, c))) as (H1 & H2 & H3 & H4 & H5 & H6 & H7). cbv zeta in *. clear IH.
    unfold overlay_commented in *. cbn [fmap list_fmap fst] in *.
    destruct (ef_values local !! key) as [v|] eqn:Hl; [destruct (ov_Values o !! key) as [w|] eqn:Ho|];
      cbn [ov_Values ov_Added ov_Kept ov_Changed ov_Orphaned ov_localOnly ov_Activated] in *.
    + split_and!; try done.
      * intros k. rewrite H1. destruct (ov_Values o !! k) eqn:E; [done|]. assert (k <> key) by congruence. apply decide_ext. rewrite elem_of_cons. naive_solver.
      * intros k. rewrite H2, elem_of_cons. naive_solver.
      * intros k. rewrite H3, elem_of_cons. naive_solver.
      * intros k. rewrite H4. apply decide_ext. rewrite elem_of_cons. naive_solver.
    + split_and!; try done.
      * intros k. rewrite H1, lookup_insert. destruct (decide (key = k)) as [->|Hn].
        -- rewrite Ho, Hl. by rewrite decide_True by left.
        -- destruct (ov_Values o !! k); [done|]. apply decide_ext. set_solver.
      * intros k. rewrite H2, elem_of_app, list_elem_of_singleton, elem_of_cons, lookup_insert. destruct (decide (key = k)) as [->|]; naive_solver.
      * intros k. rewrite H3, elem_of_app, list_elem_of_singleton, elem_of_cons, lookup_insert. destruct (decide (key = k)) as [->|]; naive_solver.
      * intros k. rewrite H4, !lookup_insert. destruct (decide (key = k)) as [->|Hn].
        -- rewrite decide_False by naive_solver. rewrite decide_True; [by rewrite Hl|]. split; [left|]. split; [by rewrite Hl|done].
        -- apply decide_ext. rewrite elem_of_cons. naive_solver.
    + split_and!; try done.
      * intros k. rewrite H1. destruct (ov_Values o !! k) eqn:E; [done|]. destruct (decide (k = key)) as [->|Hn].
        -- rewrite Hl. by do 2 destruct (decide _).
        -- apply decide_ext. rewrite elem_of_cons. naive_solver.
      * intros k. rewrite H2, elem_of_cons. split; [naive_solver|]. intros [?|([->|?] & [? ?] & ?)]; [by left|congruence|right; eauto].
      * intros k. rewrite H3, elem_of_cons. split; [naive_solver|]. intros [?|([->|?] & [? ?] & ?)]; [by left|congruence|right; eauto].
      * intros k. rewrite H4. apply decide_ext. rewrite elem_of_cons. split; [naive_solver|]. intros ([->|?] & [? ?] & ?); [congruence|eauto].
Qed.
End overlay.

Lemma keys_of_map (m : gmap str str) k : k ∈ (map_to_list m).*1 <-> is_Some (m !! k).
Proof.
  rewrite list_elem_of_fmap. split; [intros ([k' v] & -> & H%elem_of_map_to_list); by exists v|].
  intros [v H]. exists (k, v). split; [done|by apply elem_of_map_to_list].
Qed.

Section loops.
Context (local new : envFile) (Ho : forall k, k ∈ ef_order new <-> is_Some (ef_values new !! k)).

Definition first_loop : overlay := fold_left (overlay_new local new) (ef_order new) (mkOverlay ∅ [] [] [] [] [] ∅).
Definition second_loop : overlay := fold_left (overlay_local new) (map_to_list (ef_values local)) first_loop.

(** After the second loop: the lists without the commented defaults. *)
Lemma second_loop_spec :
  (forall k, ov_Values second_loop !! k = match ef_values new !! k with
     | Some w => Some (default w (ef_values local !! k))
     | None => if decide (ef_commented new !! k = None) then ef_values local !! k else None end) /\
  (forall k, k ∈ ov_Added second_loop <-> is_Some (ef_values new !! k) /\ ef_values local !! k = None) /\
  (forall k, k ∈ ov_Kept second_loop <-> is_Some (ef_values local !! k) /\ (is_Some (ef_values new !! k) \/ only_local new k)) /\
  (forall k, k ∈ ov_Changed second_loop <-> exists v w, ef_values local !! k = Some v /\ ef_values new !! k = Some w /\ v <> w) /\
  (forall k, k ∈ ov_Orphaned second_loop <-> is_Some (ef_values local !! k) /\ only_local new k) /\
  (forall k, k ∈ ov_localOnly second_loop <-> is_Some (ef_values local !! k) /\ only_local new k) /\
  ov_Activated second_loop = ∅.
Proof.
  destruct (overlay_new_spec local new (ef_order new) (mkOverlay ∅ [] [] [] [] [] ∅)) as (A1 & A2 & A3 & A4 & A5 & A6 & A7).
  destruct (overlay_local_spec local new (map_to_list (ef_values local)) first_loop) as (B1 & B2 & B3 & B4 & B5 & B6 & B7);
    [by intros k v ?%elem_of_map_to_list|].
  fold first_loop second_loop in *. cbv zeta in *. cbn [ov_Values ov_Added ov_Kept ov_Changed ov_Orphaned ov_localOnly ov_Activated] in *.
  split_and!; [intros k..|by rewrite B7].
  - destruct (B1 k) as [Ba Bb]. rewrite keys_of_map in Ba, Bb. unfold only_local in *. destruct (ef_values new !! k) as [w|] eqn:E.
    + rewrite Bb by naive_solver. rewrite A1, bool_decide_true by (apply Ho; by rewrite E). by rewrite E.
    + assert (ov_Values first_loop !! k = None) as H1 by (rewrite A1, bool_decide_false; [done|rewrite Ho, E; by intros [? ?]]).
      destruct (decide (ef_commented new !! k = None)) as [Hc|Hc]; [|rewrite Bb by naive_solver; done].
      destruct (ef_values local !! k) eqn:El; [by apply Ba|]. rewrite Bb by (intros [[? ?] _]; congruence). done.
  - rewrite B5, A2, Ho, elem_of_nil. naive_solver.
  - rewrite B2, A3, keys_of_map, Ho, elem_of_nil. naive_solver.
  - rewrite B6, A4, Ho, elem_of_nil. split; [intros [[]|[[w Hw] (v & Hv & Hn)]]; rewrite Hw in Hn; eauto|].
    intros (v & w & Hv & Hw & Hn). right. split; [by exists w|]. exists v. by rewrite Hw.
  - rewrite B3, A5, keys_of_map, elem_of_nil. naive_solver.
  - rewrite B4, A6, keys_of_map, elem_of_nil. naive_solver.
Qed.
End loops.

(** The eight states of a key in the two files. *)
Local Ltac by_cases local new k :=
  generalize (ef_values local !! k) (ef_values new !! k) (ef_commented new !! k); clear;
  intros [v|] [w|] [c|]; cbn; try case_decide; naive_solver.

(** The operator's settings win and none is lost.  In the merge of any two
    files every key of the local file keeps its local value and every other key
    of the template gets the template's; the report is exact: added keys are the
    template's alone, kept ones all the local ones, orphaned ones those the
    template does not know even as a commented default, changed ones those whose
    template value differs or is commented out, which are then activated. *)
Lemma overlay_local_wins localData newData :
  let local := parseEnv localData in
  let new := parseEnv newData in
  let res := OverlayEnv localData newData in
  (forall k, er_Values res !! k = match ef_values local !! k with Some v => Some v | None => ef_values new !! k end) /\
  (forall k, k ∈ er_Added res <-> ef_values local !! k = None /\ is_Some (ef_values new !! k)) /\
  (forall k, k ∈ er_Kept res <-> is_Some (ef_values local !! k)) /\
  (forall k, k ∈ er_Orphaned res <-> is_Some (ef_values local !! k) /\ ef_values new !! k = None /\ ef_commented new !! k = None) /\
  (forall k, k ∈ er_ChangedUpstream res <->
     exists v, ef_values local !! k = Some v /\ ef_values new !! k <> Some v /\ (is_Some (ef_values new !! k) \/ is_Some (ef_commented new !! k))) /\
  (forall k, er_Activated res !! k = if decide (ef_values new !! k = None /\ is_Some (ef_commented new !! k)) then ef_values local !! k else None) /\
  (forall k, k ∈ er_Order res <-> is_Some (ef_values new !! k) \/ k ∈ er_Orphaned res).
Proof.
  intros local new res. subst res. unfold OverlayEnv. fold local new.
  cbn [er_Values er_Added er_Kept er_Orphaned er_ChangedUpstream er_Activated er_Order].
  destruct (parseEnv_inv newData) as [_ No _ _ _ _ _]. fold new in No.
  destruct (second_loop_spec local new No) as (B1 & B2 & B3 & B4 & B5 & B6 & B7).
  destruct (overlay_commented_spec local (map_to_list (ef_commented new)) (second_loop local new)) as (C1 & C2 & C3 & C4 & C5 & C6 & C7).
  change (fold_left (overlay_commented local) (map_to_list (ef_commented new)) (second_loop local new)) with (overlay_files local new) in *.
  unfold only_local in *.
  split_and!; intros k; rewrite ?elem_of_sort, ?elem_of_app, ?elem_of_sort.
  - rewrite C1, B1. pose proof (keys_of_map (ef_commented new) k) as Hk. destruct (ef_values new !! k) as [w|]; [by destruct (ef_values local !! k)|].
    destruct (decide (ef_commented new !! k = None)) as [Hc|Hc]; [destruct (ef_values local !! k); [done|]; by destruct (decide _)|].
    rewrite decide_True by (by apply Hk, not_eq_None_Some). by destruct (ef_values local !! k).
  - rewrite C5, B2. naive_solver.
  - rewrite C2, B3, keys_of_map, B1. by_cases local new k.
  - rewrite C6, B5. naive_solver.
  - rewrite C3, B4, keys_of_map, B1. by_cases local new k.
  - rewrite C4, B7, lookup_empty. destruct (decide (k ∈ _ /\ _)) as [(H1%keys_of_map & H2 & H3)|Hn].
    + rewrite B1 in H3. rewrite decide_True; [done|]. by destruct (ef_values new !! k).
    + case_decide as Hd; [|done]. destruct (ef_values local !! k) as [v|] eqn:El; [|done]. destruct Hn. destruct Hd as [H1 H2].
      split_and!; [by apply keys_of_map|done|]. rewrite B1, H1. destruct H2 as [c ->]. done.
  - rewrite No, C7, B6, C6, B5. naive_solver.
Qed.
