(* ===== verification/EnvRender.v ===== *)
(** What the rendered [.env] file says ([internal/configmerge/merge.go]): the
    theorems on the renderer of EnvMerge.  A line is read and rewritten byte by
    byte, so most of the file is about where a line splits and what trimming,
    quoting and commenting do to its halves. *)

From S2P Require Import Prelude Bytes Utf8 Json HistoryScan EnvMerge.
Local Open Scope Z_scope.

(** ** Lines and files *)

Lemma join_lf_cons l ls : ls <> [] -> join_lf (l :: ls) = l ++ nl :: join_lf ls.
Proof. by destruct ls. Qed.

Lemma split_join ls : ls <> [] -> Forall (fun l => nl ∉ l) ls -> split_nl (join_lf ls) = ls.
Proof.
  induction ls as [|l ls IH]; [done|]. intros _ [Hl Hls]%Forall_cons.
  destruct ls as [|l2 ls]; [by apply split_nl_clean|]. rewrite join_lf_cons by done.
  rewrite split_nl_line, split_nl_clean by done. by rewrite IH.
Qed.

Lemma join_split d : join_lf (split_nl d) = d.
Proof.
  induction d as [|c d IH]; [done|]. cbn [split_nl]. pose proof (split_nl_nonempty d) as Hn. unfold byte_eqb. case_bool_decide as Hc.
  - subst c. rewrite join_lf_cons by done. by rewrite IH.
  - destruct (split_nl d) as [|x xs]; [done|]. destruct xs as [|y ys]; [by rewrite <- IH|].
    rewrite join_lf_cons in IH by done. rewrite join_lf_cons by done. by rewrite <- IH.
Qed.

Lemma split_nl_free d : Forall (fun l => nl ∉ l) (split_nl d).
Proof.
  induction d as [|c d IH]; [apply Forall_singleton; apply not_elem_of_nil|]. cbn [split_nl]. unfold byte_eqb. case_bool_decide as Hc.
  - apply Forall_cons_2; [apply not_elem_of_nil|done].
  - destruct (split_nl d) as [|x xs]; [apply Forall_singleton; set_solver|]. apply Forall_cons in IH as [Hx Hxs].
    apply Forall_cons_2; [set_solver|done].
Qed.

Lemma template_lines_snoc d : template_lines (d ++ [nl]) = split_nl d.
Proof.
  unfold template_lines. rewrite split_nl_line. change (split_nl []) with [[] : str]. by rewrite List.last_last, removelast_last.
Qed.

Lemma parse_lines_blank lines : ef_values (parse_lines (lines ++ [[]])) = ef_values (parse_lines lines).
Proof.
  apply map_eq. intros k. rewrite (ev_values _ _ (parse_lines_inv _)), (ev_values _ _ (parse_lines_inv lines)).
  rewrite last_values_snoc. done.
Qed.

(** ** Merging a template with itself *)

(** No key is set twice to different values. *)
Definition consistent (lines : list str) : bool :=
  forallb (fun line => match parseEnvLine line with Some (k, v) => bool_decide (last (values_at k lines) = Some v) | None => true end) lines.

Lemma consistent_spec lines line k v : consistent lines = true -> line ∈ lines -> parseEnvLine line = Some (k, v) ->
  last (values_at k lines) = Some v.
Proof.
  unfold consistent. rewrite forallb_forall. intros H Hl%list_elem_of_In Hp. specialize (H line Hl). rewrite Hp in H.
  by apply bool_decide_eq_true in H.
Qed.

Lemma render_extra_done res ks : forall st, (forall k, k ∈ ks -> k ∈ st.2 \/ er_Values res !! k = None) -> fold_left (render_extra res) ks st = st.
Proof.
  induction ks as [|k ks IH]; intros [out emitted] H; [done|]. cbn [fold_left].
  assert (render_extra res (out, emitted) k = (out, emitted)) as ->; [|apply IH; intros k' ?; apply H; by right].
  unfold render_extra. destruct (H k ltac:(left)) as [He|Hv]; [by rewrite bool_decide_true|]. rewrite Hv. by destruct (bool_decide _).
Qed.

Lemma substitute_same line k v : parseEnvLine line = Some (k, v) -> substituteEnvValue line v = line.
Proof. intros H. unfold substituteEnvValue. by rewrite H, str_eqb_refl. Qed.

Lemma active_in k lines v : v ∈ values_at k lines <-> exists line, line ∈ lines /\ parseEnvLine line = Some (k, v).
Proof.
  unfold values_at. rewrite list_elem_of_omap. unfold active. split.
  - intros (line & Hl & Ha). exists line. split; [done|]. destruct (parseEnvLine line) as [[k' v']|]; [|done]. by case_bool_decide; simplify_eq.
  - intros (line & Hl & Ha). exists line. rewrite Ha. split; [done|]. by rewrite bool_decide_true.
Qed.

(** Merging a template with itself reproduces it byte for byte: for any file
    that ends its last line and sets no key twice to different values, comments,
    blank lines, quoting, indentation, commented defaults and all. *)
Theorem self_merge_is_identity d : consistent (split_nl d) = true ->
  let t := d ++ [nl] in RenderEnv (OverlayEnv t t) t = t.
Proof.
  intros Hcons t. subst t. set (t := d ++ [nl]). set (res := OverlayEnv t t).
  destruct (overlay_local_wins t t) as (V & _ & _ & O & _ & A & Ord). cbv zeta in V, O, A, Ord. fold res in V, O, A, Ord.
  assert (forall k, ef_values (parseEnv t) !! k = last (values_at k (split_nl d))) as Hval.
  { intros k. unfold parseEnv, t. rewrite split_nl_line. change (split_nl []) with [[] : str]. rewrite parse_lines_blank.
    apply (ev_values _ _ (parse_lines_inv _)). }
  assert (forall k, er_Values res !! k = last (values_at k (split_nl d))) as HV by (intros k; rewrite V, Hval; by destruct (last _)).
  assert (map (fun l => (render_line res ∅ l).1) (split_nl d) = split_nl d) as Hl.
  { rewrite <- (map_id (split_nl d)) at 2. apply map_ext_in. intros line Hin%list_elem_of_In. unfold render_line.
    destruct (parseEnvLine line) as [[k v]|] eqn:Hp.
    - cbn [fst]. rewrite bool_decide_false by apply not_elem_of_empty. cbn [andb]. rewrite HV, (consistent_spec _ line k v Hcons Hin Hp). by eapply substitute_same.
    - destruct (parseCommentedEnvLine line) as [[k v]|]; [|done]. rewrite A. case_decide as Hd; [|done]. destruct Hd as [-> _]. done. }
  assert (template_lines t = split_nl d) as Ht by apply template_lines_snoc.
  unfold RenderEnv, RenderEnvWithPolicy, render_lines. rewrite Ht. rewrite render_extra_done.
  - cbn [fst]. rewrite map_map, Hl, join_split. done.
  - intros k Hk. cbn [snd]. left. apply elem_of_list_to_set, list_elem_of_omap. apply Ord in Hk as [Hk|Hk].
    + rewrite Hval in Hk. destruct Hk as [v Hv]. apply last_Some_elem_of, active_in in Hv as (line & Hin & Hp).
      exists (render_line res ∅ line). split; [by apply (list_elem_of_fmap_2 (render_line res ∅))|]. unfold render_line. by rewrite Hp.
    + apply O in Hk as ([v Hv] & Hn & _). congruence.
Qed.

Definition template_ex : str :=
  lit "# where it listens" ++ nl :: lit "export PORT='80 81'  # both" ++ nl :: nl :: lit "#DEBUG=on" ++ nl :: lit "  HOST = here".

Lemma self_merge_is_identity_witness :
  let t := template_ex ++ [nl] in
  RenderEnv (OverlayEnv t t) t = t /\ ef_values (parseEnv t) !! lit "PORT" = Some (squote :: lit "80 81'").
Proof.
  split; [|vm_compute; reflexivity]. apply (self_merge_is_identity template_ex). vm_compute. reflexivity.
Defined.

(** A key set twice is rewritten. *)
Lemma self_merge_rewrites_duplicates :
  let t := lit "A=1" ++ nl :: lit "A=2" ++ [nl] in RenderEnv (OverlayEnv t t) t = lit "A=2" ++ nl :: lit "A=2" ++ [nl].
Proof. vm_compute. reflexivity. Qed.

(** ** Tidy lines

    Bytes below 128 without control bytes other than tabs: trimming works on
    bytes, and only blanks are spaces. *)

Definition tidy_byte (c : ascii) : bool := is_ascii c && ((32 <=? byte_val c) || is_blank c).
Definition tidy (s : str) : bool := forallb tidy_byte s.

Fixpoint ltrim (s : str) : str := match s with c :: s' => if is_blank c then ltrim s' else s | [] => [] end.
Definition rtrim (s : str) : str := reverse (ltrim (reverse s)).
Definition trim (s : str) : str := rtrim (ltrim s).

Lemma blank_space c : tidy_byte c = true -> IsSpace (byte_val c) = is_blank c.
Proof.
  destruct c as [[] [] [] [] [] [] [] []]; try reflexivity; vm_compute; discriminate.
Qed.

Lemma tidy_app a b : tidy (a ++ b) = tidy a && tidy b.
Proof. apply forallb_app. Qed.

Lemma tidy_ascii s : tidy s = true -> forallb is_ascii s = true.
Proof. unfold tidy. rewrite !forallb_forall. intros H c Hc. specialize (H c Hc). unfold tidy_byte in H. by apply andb_true_iff in H as [? _]. Qed.

Lemma tidy_reverse s : tidy (reverse s) = tidy s.
Proof. induction s as [|c s IH]; [done|]. rewrite reverse_cons, tidy_app, IH. cbn. rewrite andb_true_r. apply andb_comm. Qed.

Lemma tidy_ltrim s : tidy s = true -> tidy (ltrim s) = true.
Proof. induction s as [|c s IH]; [done|]. cbn. intros [Hc Hs]%andb_true_iff. destruct (is_blank c); [by apply IH|]. cbn. by rewrite Hc. Qed.

Lemma tidy_rtrim s : tidy s = true -> tidy (rtrim s) = true.
Proof. intros H. unfold rtrim. rewrite tidy_reverse. apply tidy_ltrim. by rewrite tidy_reverse. Qed.

Lemma drop_spaces_tidy s : tidy s = true -> drop_spaces (map (fun c => Seg (byte_val c) [c]) s) = map (fun c => Seg (byte_val c) [c]) (ltrim s).
Proof.
  induction s as [|c s IH]; [done|]. cbn. intros [Hc Hs]%andb_true_iff. rewrite (blank_space c Hc).
  destruct (is_blank c); [by apply IH|done].
Qed.

Lemma bytes_of_segs s : flat_map seg_bytes (map (fun c => Seg (byte_val c) [c]) s) = s.
Proof. induction s as [|c s IH]; [done|]. cbn. by rewrite IH. Qed.

Lemma TrimSpace_tidy s : tidy s = true -> TrimSpace s = trim s.
Proof.
  intros H. unfold TrimSpace, trim, rtrim. rewrite (segs_ascii s) by by apply tidy_ascii. rewrite drop_spaces_tidy by done.
  assert (forall (f : ascii -> seg) l, reverse (map f l) = map f (reverse l)) as Hr by (intros f l; symmetry; apply (fmap_reverse f)).
  rewrite Hr, drop_spaces_tidy by by rewrite tidy_reverse, tidy_ltrim. by rewrite Hr, bytes_of_segs.
Qed.

Lemma ltrim_stop p c r : is_blank c = false -> ltrim (p ++ c :: r) = ltrim p ++ c :: r.
Proof. intros Hc. induction p as [|d p IH]; cbn; [by rewrite Hc|]. by destruct (is_blank d). Qed.

Lemma rtrim_stop p c r : is_blank c = false -> rtrim (p ++ c :: r) = p ++ c :: rtrim r.
Proof.
  intros Hc. unfold rtrim. rewrite reverse_app, reverse_cons, <- app_assoc. cbn. rewrite ltrim_stop by done.
  rewrite reverse_app, reverse_cons, reverse_involutive, <- app_assoc. done.
Qed.

Lemma ltrim_head s : ltrim s = [] \/ exists c r, ltrim s = c :: r /\ is_blank c = false.
Proof. induction s as [|c s IH]; [by left|]. cbn. destruct (is_blank c) eqn:E; [done|]. right. by exists c, s. Qed.

Lemma ltrim_idem s : ltrim (ltrim s) = ltrim s.
Proof. destruct (ltrim_head s) as [->|(c & r & -> & Hc)]; [done|]. cbn. by rewrite Hc. Qed.

Lemma rtrim_idem s : rtrim (rtrim s) = rtrim s.
Proof. unfold rtrim. by rewrite reverse_involutive, ltrim_idem. Qed.

Lemma rtrim_ltrim s : rtrim (ltrim s) = ltrim (rtrim s).
Proof.
  destruct (ltrim_head s) as [E|(c & r & E & Hc)].
  - assert (forall x, ltrim x = [] -> ltrim (reverse x) = []) as Hr.
    { intros x Hx. assert (Forall (fun c => is_blank c = true) x) as Hb.
      { induction x as [|c x IH]; [apply Forall_nil_2|]. cbn in Hx. destruct (is_blank c) eqn:Ec; [apply Forall_cons_2; auto|done]. }
      apply Forall_reverse in Hb. clear Hx. induction Hb as [|c l Hc _ IH]; [done|]. cbn. by rewrite Hc. }
    rewrite E. unfold rtrim. by rewrite (Hr s E).
  - assert (exists b, s = b ++ c :: r /\ ltrim b = []) as (b & -> & Hb).
    { clear Hc. revert E. induction s as [|d s IH]; [done|]. cbn. destruct (is_blank d) eqn:Ed; [|by intros [= -> ->]; exists []].
      intros E. destruct (IH E) as (b & -> & Hb). exists (d :: b). split; [done|]. cbn. by rewrite Ed. }
    rewrite E. rewrite (rtrim_stop b c r Hc), ltrim_stop, Hb by done. apply (rtrim_stop [] c r Hc).
Qed.

Lemma trim_idem s : trim (trim s) = trim s.
Proof. unfold trim. by rewrite <- rtrim_ltrim, ltrim_idem, rtrim_idem. Qed.

Lemma trim_stop p c r : is_blank c = false -> trim (p ++ c :: r) = ltrim p ++ c :: rtrim r.
Proof. intros Hc. unfold trim. rewrite ltrim_stop by done. by apply rtrim_stop. Qed.

Lemma tidy_trim s : tidy s = true -> tidy (trim s) = true.
Proof. intros H. by apply tidy_rtrim, tidy_ltrim. Qed.

Lemma in_ltrim c s : c ∈ ltrim s -> c ∈ s.
Proof. induction s as [|d s IH]; [done|]. cbn. destruct (is_blank d); [|done]. intros ?. right. by apply IH. Qed.

Lemma in_trim s c : c ∈ trim s -> c ∈ s.
Proof. unfold trim, rtrim. rewrite elem_of_reverse. intros H%in_ltrim. rewrite elem_of_reverse in H. by apply in_ltrim. Qed.

(** ** Where an entry splits *)

(** What the part before the first equals sign makes of the line. *)
Definition key_of (p : str) : option str :=
  let lp := ltrim p in
  if is_comment lp then None
  else
    let lp := if has_prefix lp export_prefix then ltrim (drop (length export_prefix) lp) else lp in
    let key := TrimSpace lp in
    if negb (nonblank key) || existsb bad_key_byte key then None else Some key.

Lemma has_prefix_stop lp x pat : eq_b ∉ pat -> has_prefix (lp ++ eq_b :: x) pat = has_prefix lp pat.
Proof.
  revert lp. induction pat as [|c pat IH]; intros lp Hp; [by destruct lp|]. apply not_elem_of_cons in Hp as [Hc Hp].
  destruct lp as [|d lp]; cbn; [|by rewrite IH]. unfold byte_eqb. by rewrite bool_decide_false.
Qed.

Lemma cut_byte_app p x : eq_b ∉ p -> cut_byte eq_b (p ++ eq_b :: x) = Some (p, x).
Proof.
  induction p as [|c p IH]; intros H; cbn; [by rewrite byte_eqb_refl|]. apply not_elem_of_cons in H as [Hc Hp].
  unfold byte_eqb at 1. rewrite bool_decide_false by done. by rewrite IH.
Qed.

Lemma parse_split p r : tidy (p ++ eq_b :: r) = true -> eq_b ∉ p ->
  parseEnvLine (p ++ eq_b :: r) = ((fun k => (k, unquoteEnv (trim r))) <$> key_of p).
Proof.
  intros Ht Hp. unfold parseEnvLine, key_of. cbv zeta. rewrite TrimSpace_tidy, trim_stop by done.
  assert (tidy p = true /\ tidy r = true) as [Tp Tr] by (rewrite tidy_app in Ht; cbn in Ht; by apply andb_true_iff in Ht).
  assert (nonblank (ltrim p ++ eq_b :: rtrim r) = true) as -> by by destruct (ltrim p). cbn [negb orb].
  assert (is_comment (ltrim p ++ eq_b :: rtrim r) = is_comment (ltrim p)) as -> by by destruct (ltrim p).
  destruct (is_comment (ltrim p)); [done|].
  assert (eq_b ∉ ltrim p) as Hl by (intros H; by apply Hp, in_ltrim).
  set (lp := if has_prefix (ltrim p) export_prefix then ltrim (drop (length export_prefix) (ltrim p)) else ltrim p).
  assert (strip_export (ltrim p ++ eq_b :: rtrim r) = lp ++ eq_b :: rtrim r /\ eq_b ∉ lp) as [-> Hlp].
  { unfold strip_export, lp. rewrite has_prefix_stop by (vm_compute; set_solver).
    destruct (has_prefix (ltrim p) export_prefix) eqn:Hx; [|done]. apply has_prefix_spec in Hx as [lp2 E]. rewrite E, <- app_assoc, !drop_app_length.
    assert (tidy lp2 = true) as T2 by (apply tidy_ltrim in Tp; rewrite E, tidy_app in Tp; by apply andb_true_iff in Tp as [_ ?]).
    split; [|intros H%in_ltrim; apply Hl; rewrite E; set_solver].
    rewrite TrimSpace_tidy by (rewrite tidy_app, T2; cbn; by apply tidy_rtrim). rewrite trim_stop by done. by rewrite rtrim_idem. }
  rewrite cut_byte_app by done. destruct (negb (nonblank (TrimSpace lp)) || _); [done|]. cbn.
  rewrite (TrimSpace_tidy (rtrim r)) by by apply tidy_rtrim. unfold trim at 1. by rewrite rtrim_ltrim, rtrim_idem, <- rtrim_ltrim.
Qed.

(** Only the trimmed line matters. *)
Lemma parse_ext a b : TrimSpace a = TrimSpace b -> parseEnvLine a = parseEnvLine b.
Proof. unfold parseEnvLine. by intros ->. Qed.

Lemma parse_has_eq line k v : tidy line = true -> parseEnvLine line = Some (k, v) ->
  exists p r, line = (p ++ eq_b :: r) /\ (eq_b ∉ p) /\ key_of p = Some k /\ v = unquoteEnv (trim r).
Proof.
  intros Ht Hp. destruct (cut_byte eq_b line) as [[p r]|] eqn:Hc.
  - apply cut_byte_Some in Hc as [-> Hn]. exists p, r. rewrite parse_split in Hp by done. destruct (key_of p); [|done]. by injection Hp as <- <-.
  - exfalso. assert (eq_b ∉ line) as Hn.
    { clear -Hc. induction line as [|c line IH]; [apply not_elem_of_nil|]. cbn in Hc. unfold byte_eqb in Hc. case_bool_decide; [done|].
      destruct (cut_byte eq_b line) as [[a b]|]; [done|]. apply not_elem_of_cons. by split; [|apply IH]. }
    pose proof in_trim as Htr.
    unfold parseEnvLine in Hp. cbv zeta in Hp. destruct (_ || _); [done|]. destruct (cut_byte _ _) as [[a b]|] eqn:Hx; [|done].
    apply cut_byte_Some in Hx as [Hx _]. assert (eq_b ∈ strip_export (TrimSpace line)) as Hin by (rewrite Hx; set_solver).
    rewrite TrimSpace_tidy in Hin by done. apply Hn, Htr. unfold strip_export in Hin. destruct (has_prefix _ _) eqn:Hh; [|done].
    apply has_prefix_spec in Hh as [l2 E]. rewrite E, drop_app_length in Hin. rewrite E.
    rewrite TrimSpace_tidy in Hin; [apply Htr in Hin; set_solver|].
    pose proof (tidy_trim _ Ht) as T2. rewrite E, tidy_app in T2. by apply andb_true_iff in T2 as [_ ?].
Qed.

(** ** Quoting *)

Definition plain (c : ascii) : bool := negb (byte_eqb c bslash).

Lemma replace2_step a b c x s : x <> a -> replace2 a b c (x :: s) = x :: replace2 a b c s.
Proof. intros H. destruct s as [|y s]; [done|]. cbn [replace2]. unfold byte_eqb at 1. by rewrite bool_decide_false. Qed.

Lemma replace2_skip a b c y s : y <> b -> replace2 a b c (a :: y :: s) = a :: replace2 a b c (y :: s).
Proof. intros H. cbn [replace2]. unfold byte_eqb at 2. by rewrite bool_decide_false, andb_false_r. Qed.

Lemma replace2_id a b c s : a ∉ s -> replace2 a b c s = s.
Proof.
  induction s as [|x s IH]; intros H; [done|]. apply not_elem_of_cons in H as [Hx Hs]. rewrite replace2_step by done. by rewrite IH.
Qed.

Lemma escape_cons q c s : escape q (c :: s) = (if byte_eqb c q then [bslash; c] else [c]) ++ escape q s.
Proof. done. Qed.

Lemma unescape q s : bslash ∉ s -> replace2 bslash q q (escape q s) = s.
Proof.
  induction s as [|c s IH]; intros H; [done|]. apply not_elem_of_cons in H as [Hc Hs]. rewrite escape_cons. unfold byte_eqb.
  case_bool_decide as E; cbn [app].
  - subst c. cbn [replace2]. rewrite !byte_eqb_refl. cbn [andb]. by rewrite IH.
  - rewrite replace2_step by done. by rewrite IH.
Qed.

Lemma unescape_other q q' s : q <> q' -> q <> bslash -> bslash ∉ s -> replace2 bslash q' q' (escape q s) = escape q s.
Proof.
  intros Hq Hb. induction s as [|c s IH]; intros H; [done|]. apply not_elem_of_cons in H as [Hc Hs]. rewrite escape_cons. unfold byte_eqb.
  case_bool_decide as E; cbn [app].
  - subst c. rewrite replace2_skip, replace2_step by done. by rewrite IH.
  - rewrite replace2_step by done. by rewrite IH.
Qed.

Lemma quoted_around q s : q = quote_b \/ q = squote -> quoted (q :: s ++ [q]) = Some s.
Proof.
  intros Hq. unfold quoted. destruct (s ++ [q]) as [|x l] eqn:E; [by destruct s|]. rewrite <- E, List.last_last, removelast_last, byte_eqb_refl, andb_true_r.
  by destruct Hq as [-> | ->].
Qed.

Lemma unquote_around q s : q = quote_b \/ q = squote -> bslash ∉ s -> unquoteEnv (q :: escape q s ++ [q]) = s.
Proof.
  intros Hq Hs. unfold unquoteEnv. rewrite quoted_around by done.
  destruct Hq as [-> | ->]; [rewrite unescape by done; by apply replace2_id|rewrite unescape_other by done; by apply unescape].
Qed.

Lemma quote_not_blank q : q = quote_b \/ q = squote -> is_blank q = false.
Proof. by intros [-> | ->]. Qed.

Lemma trim_around q s : is_blank q = false -> trim (q :: s ++ [q]) = q :: s ++ [q].
Proof.
  intros Hq. unfold trim. cbn [ltrim]. rewrite Hq. change (q :: s ++ [q]) with ((q :: s) ++ q :: []). by rewrite rtrim_stop.
Qed.

(** A value that needs no quoting has no byte that means anything. *)
Lemma bare_free s c : needsQuoting s = false -> needs_quote_byte c = true -> c ∉ s.
Proof.
  unfold needsQuoting. intros H Hc Hin%list_elem_of_In. assert (existsb needs_quote_byte s = true); [|congruence].
  apply existsb_exists. by exists c.
Qed.

Lemma ltrim_free s : space ∉ s -> tab ∉ s -> ltrim s = s.
Proof.
  destruct s as [|c s]; [done|]. intros [H1 _]%not_elem_of_cons [H2 _]%not_elem_of_cons. cbn. unfold is_blank, byte_eqb.
  by rewrite !bool_decide_false.
Qed.

Lemma rtrim_free s : space ∉ s -> tab ∉ s -> rtrim s = s.
Proof. intros H1 H2. unfold rtrim. rewrite ltrim_free by by rewrite elem_of_reverse. apply reverse_involutive. Qed.

Lemma trim_free s : space ∉ s -> tab ∉ s -> trim s = s.
Proof. intros H1 H2. unfold trim. rewrite ltrim_free by done. by apply rtrim_free. Qed.

Lemma quoted_bare q s r : q <> quote_b -> q <> squote -> quoted (q :: s ++ r) = None.
Proof.
  intros H1 H2. unfold quoted. destruct (s ++ r); [done|]. unfold byte_eqb. by rewrite !(bool_decide_false (q = _)) by done.
Qed.

Lemma before2_step a b x s : x <> a -> before2 a b (x :: s) = ((fun r => x :: r) <$> before2 a b s).
Proof. intros H. destruct s as [|y s]; [done|]. cbn [before2]. unfold byte_eqb at 1. by rewrite bool_decide_false. Qed.

Lemma before2_none a b s : a ∉ s -> before2 a b s = None.
Proof.
  induction s as [|x s IH]; intros H; [done|]. apply not_elem_of_cons in H as [Hx Hs]. rewrite before2_step by done. by rewrite IH.
Qed.

Lemma before2_at a b s r : a ∉ s -> before2 a b (s ++ a :: b :: r) = Some s.
Proof.
  induction s as [|x s IH]; intros H; [cbn; by rewrite !byte_eqb_refl|]. apply not_elem_of_cons in H as [Hx Hs].
  rewrite <- app_comm_cons, before2_step by done. by rewrite IH.
Qed.

(** ** A rewritten entry *)

Lemma unquotedHash_splits n s : (length s <= n)%nat -> forall q prev a b, unquotedHash q prev s = Some (a, b) ->
  s = a ++ b /\ exists t, b = hash :: t.
Proof.
  revert s. induction n as [|n IH]; intros [|c s] Hn q prev a b; cbn [length] in Hn; try (done || lia).
  assert (forall q' d, (fun r => (c :: r.1, r.2)) <$> unquotedHash q' (Some d) s = Some (a, b) -> c :: s = a ++ b /\ exists t, b = hash :: t) as Hgo.
  { intros q' d H. apply fmap_Some in H as ([a0 b0] & H & [= -> ->]). destruct (IH s ltac:(lia) _ _ _ _ H) as [-> ?]. done. }
  cbn [unquotedHash]. destruct q as [q|].
  - destruct (byte_eqb c bslash); [|apply Hgo]. destruct s as [|d s]; [done|]. intros H. apply fmap_Some in H as ([a0 b0] & H & [= -> ->]).
    cbn [length] in Hn. destruct (IH s ltac:(lia) _ _ _ _ H) as [-> ?]. done.
  - destruct (_ || _); [apply Hgo|]. unfold byte_eqb. case_bool_decide as Hc; cbn [andb]; [|apply Hgo].
    destruct (match prev with Some _ => _ | None => _ end); [|apply Hgo]. intros [= <- <-]. subst c. split; [done|by exists s].
Qed.

(** The lines and values the rewriting is safe on: no bytes that trimming or
    quoting treat specially, and, where the line has a comment of its own, a value
    that needs no quotes on a line that has none. *)
Definition writable (raw val : str) : bool :=
  tidy raw && tidy val && forallb plain val &&
  match cut_byte eq_b raw with
  | Some (_, rest) =>
      match unquotedHash None None rest with
      | Some (r, _) => nonblank val && negb (needsQuoting val) && match quoted (TrimSpace r) with None => true | Some _ => false end
      | None => true
      end
  | None => false
  end.

Lemma plain_no_bslash s : forallb plain s = true -> bslash ∉ s.
Proof. rewrite forallb_forall. intros H Hin%list_elem_of_In. by apply H in Hin. Qed.

Lemma bare_parts val : needsQuoting val = false ->
  (space ∉ val) /\ (tab ∉ val) /\ (hash ∉ val) /\ (quote_b ∉ val) /\ (squote ∉ val).
Proof. intros H. split_and!; by apply (bare_free _ _ H). Qed.

Lemma quoted_bare_val val : needsQuoting val = false -> quoted val = None.
Proof.
  intros H. destruct (bare_parts val H) as (_ & _ & _ & H4 & H5). destruct val as [|c val]; [done|].
  rewrite <- (app_nil_r val). apply quoted_bare; intros ->; [apply H4|apply H5]; left.
Qed.

Lemma unquote_bare val : needsQuoting val = false -> unquoteEnv val = val.
Proof.
  intros H. unfold unquoteEnv. rewrite quoted_bare_val by done. rewrite before2_none; [done|]. by apply bare_parts.
Qed.

Lemma unquote_commented val t : val <> [] -> tidy val = true -> needsQuoting val = false ->
  unquoteEnv (trim (val ++ space :: hash :: t)) = val.
Proof.
  intros Hv Ht H. destruct (bare_parts val H) as (H1 & H2 & _ & H4 & H5).
  replace (trim (val ++ space :: hash :: t)) with (val ++ space :: hash :: rtrim t).
  - unfold unquoteEnv. destruct val as [|c v] eqn:E; [done|]. rewrite <- app_comm_cons, quoted_bare; [|intros ->; apply H4; left|intros ->; apply H5; left].
    rewrite app_comm_cons, before2_at by done. rewrite TrimSpace_tidy by done. by apply trim_free.
  - unfold trim. assert (ltrim (val ++ space :: hash :: t) = val ++ space :: hash :: t) as ->.
    { destruct val as [|c val]; [done|]. cbn. unfold is_blank, byte_eqb. rewrite !bool_decide_false; [done|intros ->; apply H2; left|intros ->; apply H1; left]. }
    change (space :: hash :: t) with ([space] ++ hash :: t). by rewrite app_assoc, rtrim_stop, <- app_assoc.
Qed.

(** The quoting style never loses a clean value. *)
Lemma styled_reads rest val : tidy val = true -> forallb plain val = true ->
  unquoteEnv (trim (styled_value rest val)) = val.
Proof.
  intros Ht Hp%plain_no_bslash. unfold styled_value.
  assert (forall q, q = quote_b \/ q = squote -> unquoteEnv (trim (q :: escape q val ++ [q])) = val) as Hq.
  { intros q Hq. rewrite trim_around by by apply quote_not_blank. by apply unquote_around. }
  assert (unquoteEnv (trim (if needsQuoting val then quote_b :: escape quote_b val ++ [quote_b] else val)) = val) as Hb.
  { destruct (needsQuoting val) eqn:Hn; [apply Hq; by left|]. destruct (bare_parts val Hn) as (H1 & H2 & _).
    rewrite trim_free by done. by apply unquote_bare. }
  destruct rest as [|q rest]; [done|]. destruct (quoted (q :: rest)) as [inner|] eqn:E; [|done].
  apply Hq. unfold quoted in E. destruct rest; [done|]. destruct (_ && _) eqn:Hc; [|done]. apply andb_true_iff in Hc as [Hc _].
  apply orb_true_iff in Hc as [Hc|Hc]; apply bool_decide_eq_true in Hc; subst q; [by left|by right].
Qed.

Lemma tidy_escape q s : tidy_byte q = true -> tidy s = true -> tidy (escape q s) = true.
Proof.
  intros Hq. induction s as [|c s IH]; [done|]. rewrite escape_cons, tidy_app. cbn [tidy forallb]. intros [Hc Hs]%andb_true_iff.
  rewrite IH by done. unfold byte_eqb, tidy. case_bool_decide; cbn [forallb]; by rewrite Hc.
Qed.

Lemma tidy_styled rest val : tidy val = true -> tidy (styled_value rest val) = true.
Proof.
  intros Ht. unfold styled_value.
  assert (forall q, tidy_byte q = true -> tidy (q :: escape q val ++ [q]) = true) as Hq.
  { intros q Hq. cbn [tidy forallb]. fold (tidy (escape q val ++ [q])). rewrite Hq, tidy_app, tidy_escape by done. cbn. by rewrite Hq. }
  assert (tidy (if needsQuoting val then quote_b :: escape quote_b val ++ [quote_b] else val) = true) as Hb.
  { destruct (needsQuoting val); [by apply Hq|done]. }
  destruct rest as [|q rest]; [done|]. destruct (quoted (q :: rest)) as [inner|] eqn:E; [|done].
  apply Hq. unfold quoted in E. destruct rest; [done|]. destruct (_ && _) eqn:Hc; [|done]. apply andb_true_iff in Hc as [Hc _].
  apply orb_true_iff in Hc as [Hc|Hc]; apply bool_decide_eq_true in Hc; by subst q.
Qed.

Lemma tidy_nl s : tidy s = true -> nl ∉ s.
Proof. unfold tidy. rewrite forallb_forall. intros H Hin%list_elem_of_In. by apply H in Hin. Qed.

Lemma unfold_tidy_cons c s : tidy (c :: s) = tidy_byte c && tidy s.
Proof. done. Qed.

(** A line the renderer rewrites, as it comes out. *)
Lemma substitute_writable raw val k old : parseEnvLine raw = Some (k, old) -> writable raw val = true ->
  tidy (substituteEnvValue raw val) = true /\ parseEnvLine (substituteEnvValue raw val) = Some (k, val).
Proof.
  intros Hp Hw. unfold writable in Hw. apply andb_true_iff in Hw as [[[Hr Hv]%andb_true_iff Hpl]%andb_true_iff Hw].
  unfold substituteEnvValue. rewrite Hp. unfold str_eqb. case_bool_decide as Ho; [by subst old|]. clear Ho.
  destruct (cut_byte eq_b raw) as [[p rest]|] eqn:Hc; [|done]. apply cut_byte_Some in Hc as [-> Hn].
  rewrite tidy_app, unfold_tidy_cons in Hr. apply andb_true_iff in Hr as [Hp1 [_ Hr]%andb_true_iff].
  rewrite parse_split in Hp by (try done; by rewrite tidy_app, unfold_tidy_cons, Hp1, Hr). apply fmap_Some in Hp as (k0 & Hk & [= <- _]).
  assert (forall s, tidy s = true -> unquoteEnv (trim s) = val ->
    tidy (p ++ eq_b :: s) = true /\ parseEnvLine (p ++ eq_b :: s) = Some (k, val)) as Hout.
  { intros s Hs Hu. assert (tidy (p ++ eq_b :: s) = true) as Ht by by rewrite tidy_app, unfold_tidy_cons, Hp1, Hs.
    split; [done|]. rewrite parse_split by done. rewrite Hk. cbn. by rewrite Hu. }
  destruct (unquotedHash None None rest) as [[r t]|] eqn:Hh.
  - apply (unquotedHash_splits (length rest)) in Hh as [-> [t0 ->]]; [|done]. rewrite tidy_app, unfold_tidy_cons in Hr.
    apply andb_true_iff in Hr as [Hr1 [_ Ht0]%andb_true_iff]. apply andb_true_iff in Hw as [[Hnb Hq%negb_true_iff]%andb_true_iff Hu].
    rewrite (TrimSpace_tidy (hash :: t0)) by done.
    change (trim (hash :: t0)) with (trim ([] ++ hash :: t0)). rewrite trim_stop by done. cbn [ltrim app].
    destruct (quoted (TrimSpace r)) eqn:Eq; [done|].
    assert (styled_value (TrimSpace r) val = val) as -> by (unfold styled_value; destruct (TrimSpace r); rewrite ?Eq, Hq; done).
    apply Hout; [by rewrite tidy_app, !unfold_tidy_cons, Hv, tidy_rtrim|]. apply unquote_commented; [by destruct val|done..].
  - rewrite app_nil_r. apply Hout; [by apply tidy_styled|by apply styled_reads].
Qed.

(** Rewriting an entry line keeps its key and makes it say the new value: a
    line whose value is kept comes out unchanged, and one whose value changes reads
    back as the new one, in the quoting style of the line, a trailing comment kept. *)
Theorem substituted_line_reads_back raw val k old : parseEnvLine raw = Some (k, old) -> old = val \/ writable raw val = true ->
  parseEnvLine (substituteEnvValue raw val) = Some (k, val).
Proof.
  intros Hp [->|Hw]; [by rewrite (substitute_same raw k val)|]. by eapply substitute_writable.
Qed.

Lemma substituted_line_reads_back_witness :
  let raw := lit "  export NAME=old # the name" in
  substituteEnvValue raw (lit "new") = lit "  export NAME=new # the name" /\
  parseEnvLine (substituteEnvValue raw (lit "new")) = Some (lit "NAME", lit "new").
Proof.
  split; [vm_compute; reflexivity|].
  apply (substituted_line_reads_back _ _ _ (lit "old")); [vm_compute; reflexivity|right; vm_compute; reflexivity].
Defined.

(** A comment on the line does not survive a value that needs quotes: the line
    written for [n w] reads back with the quotes and the comment as its value. *)
Lemma quoted_value_before_comment :
  let raw := lit "NAME=old # the name" in
  substituteEnvValue raw (lit "n w") = lit "NAME=" ++ quote_b :: lit "n w" ++ quote_b :: lit " # the name" /\
  parseEnvLine (substituteEnvValue raw (lit "n w")) = Some (lit "NAME", quote_b :: lit "n w" ++ [quote_b]).
Proof. by vm_compute. Qed.

(** Nor does an empty value: the comment becomes the value. *)
Lemma empty_value_before_comment :
  parseEnvLine (substituteEnvValue (lit "NAME=old # the name") []) = Some (lit "NAME", lit "# the name").
Proof. by vm_compute. Qed.

(** ** Activated comments *)

Lemma trim_left_blanks s : trim_left [space; tab] s = ltrim s.
Proof. induction s as [|c s IH]; [done|]. cbn. rewrite orb_false_r. unfold is_blank. destruct (_ || _); [done|done]. Qed.

Lemma indent_of_spec s : (indent_of s).2 = ltrim s /\ (indent_of s).1 ++ (indent_of s).2 = s /\ forall x, ltrim ((indent_of s).1 ++ x) = ltrim x.
Proof.
  induction s as [|c s (I1 & I2 & I3)]; [done|]. cbn. destruct (is_blank c) eqn:Hc; [|done]. destruct (indent_of s) as [i r]. cbn in *.
  split; [done|]. split; [by rewrite I2|]. intros x. by rewrite Hc.
Qed.

Lemma rtrim_prefix s : exists t, s = rtrim s ++ t.
Proof.
  unfold rtrim. assert (forall x, exists b, x = b ++ ltrim x) as H.
  { induction x as [|c x [b Hb]]; [by exists []|]. cbn. destruct (is_blank c); [exists (c :: b); cbn; by f_equal|by exists []]. }
  destruct (H (reverse s)) as [b Hb]. exists (reverse b). rewrite <- (reverse_involutive s) at 1. rewrite Hb at 1. apply reverse_app.
Qed.

Lemma trim_rtrim s : trim (rtrim s) = trim s.
Proof. unfold trim. by rewrite <- rtrim_ltrim, rtrim_idem. Qed.

Lemma trim_ltrim s : trim (ltrim s) = trim s.
Proof. unfold trim. by rewrite ltrim_idem. Qed.

Lemma trim_left_hash c s : trim_left [hash] (c :: s) = if bool_decide (c = hash) then trim_left [hash] s else c :: s.
Proof. cbn. rewrite orb_false_r. done. Qed.

(** Trimming the end does not get in the way of the hashes at the front. *)
Lemma trim_hashes s : trim (trim_left [hash] (rtrim s)) = trim (trim_left [hash] s).
Proof.
  induction s as [|c s IH]; [done|]. rewrite trim_left_hash. case_bool_decide as Hc.
  - subst c. change (hash :: s) with ([] ++ hash :: s). rewrite rtrim_stop by done. cbn [app]. by rewrite trim_left_hash, bool_decide_true.
  - rewrite <- (trim_rtrim (c :: s)). destruct (rtrim_prefix (c :: s)) as [t Ht]. destruct (rtrim (c :: s)) as [|d r]; [done|].
    injection Ht as -> _. rewrite trim_left_hash, bool_decide_false by done. done.
Qed.

Lemma tidy_trim_left cut s : tidy s = true -> tidy (trim_left cut s) = true.
Proof. induction s as [|c s IH]; [done|]. cbn [trim_left]. intros H. destruct (existsb _ _); [|done]. apply IH. by apply andb_true_iff in H as [_ ?]. Qed.

(** A commented entry without its comment mark, as the activation takes it off. *)
Definition uncommented (raw : str) : str := trim_left [space; tab] (trim_left [hash] (indent_of raw).2).

Lemma tidy_uncommented raw : tidy raw = true -> tidy (uncommented raw) = true.
Proof.
  intros H. unfold uncommented. destruct (indent_of_spec raw) as (-> & _). by apply tidy_trim_left, tidy_trim_left, tidy_ltrim.
Qed.

Lemma uncommented_reads raw k d : tidy raw = true -> parseCommentedEnvLine raw = Some (k, d) -> parseEnvLine (uncommented raw) = Some (k, d).
Proof.
  intros Ht Hp. pose proof (tidy_uncommented raw Ht) as Tu. unfold parseCommentedEnvLine in Hp. cbv zeta in Hp.
  destruct (is_comment _); [|done]. rewrite <- Hp. apply parse_ext. rewrite (TrimSpace_tidy raw) by done.
  assert (tidy (trim_left [hash] (trim raw)) = true) as T2 by by apply tidy_trim_left, tidy_trim.
  rewrite !TrimSpace_tidy by (try done; rewrite ?TrimSpace_tidy by done; by apply tidy_trim). rewrite trim_idem.
  unfold uncommented. destruct (indent_of_spec raw) as (-> & _). rewrite trim_left_blanks, trim_ltrim. unfold trim at 3. by rewrite trim_hashes.
Qed.

(** An activated default is an entry that says the value. *)
Lemma activate_reads raw k d val : tidy raw = true -> parseCommentedEnvLine raw = Some (k, d) ->
  d = val \/ writable (uncommented raw) val = true ->
  tidy (activateEnvLine raw val) = true /\ parseEnvLine (activateEnvLine raw val) = Some (k, val).
Proof.
  intros Ht Hp Hw. pose proof (uncommented_reads _ _ _ Ht Hp) as Hu. unfold activateEnvLine. unfold uncommented in *.
  destruct (indent_of_spec raw) as (_ & Hi & Hx). pose proof (tidy_uncommented raw Ht) as Tu. unfold uncommented in Tu.
  destruct (indent_of raw) as [indent body]. cbn [fst snd] in *. rewrite Hu.
  assert (tidy indent = true) as Tn by (rewrite <- Hi, tidy_app in Ht; by apply andb_true_iff in Ht as [? _]).
  set (rest := trim_left [space; tab] (trim_left [hash] body)) in *.
  assert (tidy (substituteEnvValue rest val) = true /\ parseEnvLine (substituteEnvValue rest val) = Some (k, val)) as [T2 P2].
  { destruct Hw as [->|Hw]; [by rewrite (substitute_same rest k val)|by apply (substitute_writable _ _ _ d)]. }
  assert (tidy (indent ++ substituteEnvValue rest val) = true) as T3 by by rewrite tidy_app, Tn, T2.
  split; [done|]. rewrite <- P2. apply parse_ext. rewrite !TrimSpace_tidy by done. unfold trim. by rewrite Hx.
Qed.

(** ** The whole file *)

(** What the renderer may have to write into a template line is safe there. *)
Definition line_ok (res : EnvResult) (line : str) : bool :=
  match parseEnvLine line with
  | Some (key, old) => match er_Values res !! key with Some val => str_eqb old val || writable line val | None => true end
  | None =>
      match parseCommentedEnvLine line with
      | Some (key, d) =>
          match er_Activated res !! key with
          | Some val => tidy line && (str_eqb d val || writable (uncommented line) val)
          | None => true
          end
      | None => true
      end
  end.

Lemma eqb_or a b w : str_eqb a b || w = true -> a = b \/ w = true.
Proof. unfold str_eqb. case_bool_decide; auto. Qed.

(** A line that only sets keys to their merged values. *)
Definition says (vals : gmap str str) (line : str) : Prop :=
  (nl ∉ line) /\ forall k v, parseEnvLine line = Some (k, v) -> vals !! k = Some v.

Lemma says_comment vals line : nl ∉ line -> parseEnvLine line = None -> says vals line.
Proof. intros Hn Hp. split; [done|]. intros k v. by rewrite Hp. Qed.

Lemma says_entry vals line k v : nl ∉ line -> parseEnvLine line = Some (k, v) -> vals !! k = Some v -> says vals line.
Proof. intros Hn Hp Hv. split; [done|]. intros k' v'. rewrite Hp. by intros [= <- <-]. Qed.

Definition sets (k : str) (lines : list str) : Prop := exists line v, line ∈ lines /\ parseEnvLine line = Some (k, v).

Lemma substitute_says vals line k old val : nl ∉ line -> parseEnvLine line = Some (k, old) -> vals !! k = Some val ->
  old = val \/ writable line val = true ->
  says vals (substituteEnvValue line val) /\ parseEnvLine (substituteEnvValue line val) = Some (k, val).
Proof.
  intros Hn Hp Hv [->|Hw].
  - rewrite (substitute_same line k val) by done. split; [by eapply says_entry|done].
  - destruct (substitute_writable line val k old Hp Hw) as [Ht Hr]. split; [|done]. by eapply says_entry; [apply tidy_nl| |].
Qed.

(** A rendered template line sets only what the merge says, and the key it is
    said to emit. *)
Lemma render_line_says res line : nl ∉ line -> line_ok res line = true ->
  (forall k v, parseEnvLine line = Some (k, v) -> is_Some (er_Values res !! k)) ->
  (forall k v, er_Activated res !! k = Some v -> er_Values res !! k = Some v) ->
  let r := render_line res ∅ line in
  says (er_Values res) r.1 /\ forall k, r.2 = Some k -> exists v, parseEnvLine r.1 = Some (k, v).
Proof.
  intros Hn Hok Hin Hact. cbv zeta. unfold line_ok in Hok. unfold render_line. destruct (parseEnvLine line) as [[k old]|] eqn:Hp.
  - rewrite (bool_decide_false (k ∈ ∅)) by apply not_elem_of_empty. cbn [andb fst snd]. destruct (Hin k old eq_refl) as [val Hv].
    rewrite Hv in *. apply eqb_or in Hok. destruct (substitute_says _ _ _ _ _ Hn Hp Hv Hok) as [S P]. split; [done|]. intros k' [= <-]. by exists val.
  - assert (says (er_Values res) line) as Hs by by apply says_comment.
    destruct (parseCommentedEnvLine line) as [[k d]|] eqn:Hc; [|done]. destruct (er_Activated res !! k) as [val|] eqn:Ha; [|done].
    apply andb_true_iff in Hok as [Ht Hok%eqb_or]. destruct (activate_reads line k d val Ht Hc Hok) as [T P]. cbn [fst snd]. split.
    + eapply says_entry; [by apply tidy_nl|exact P|by apply Hact].
    + intros k' [= <-]. by exists val.
Qed.

(** The appended keys: each is set to its merged value, with comments above. *)
Definition extra_ok (res : EnvResult) (emitted : gset str) (k : str) : Prop :=
  k ∈ emitted \/ er_Values res !! k = None \/
  exists v raw, er_Values res !! k = Some v /\ er_LocalRaw res !! k = Some raw /\ (nl ∉ raw) /\ parseEnvLine raw = Some (k, v).

Definition comments_ok (res : EnvResult) : Prop :=
  forall k c, er_Comments res !! k = Some c -> Forall (fun l => (nl ∉ l) /\ parseEnvLine l = None) c.

Lemma render_extra_says res ks : comments_ok res -> forall out emitted,
  (forall k, k ∈ ks -> extra_ok res emitted k) -> Forall (says (er_Values res)) out -> (forall k, k ∈ emitted -> sets k out) ->
  let r := fold_left (render_extra res) ks (out, emitted) in
  Forall (says (er_Values res)) r.1 /\ forall k, k ∈ emitted \/ (k ∈ ks /\ is_Some (er_Values res !! k)) -> sets k r.1.
Proof.
  intros Hcm. induction ks as [|k ks IH]; intros out emitted Hks Hout Hem; cbv zeta.
  { split; [done|]. intros k [?|[Hk _]]; [by apply Hem|by apply not_elem_of_nil in Hk]. }
  cbn [fold_left]. unfold render_extra at 2 4. destruct (decide (k ∈ emitted)) as [He|He].
  { rewrite bool_decide_true by done. destruct (IH out emitted) as [A B]; [intros; apply Hks; by right|done..|]. split; [done|].
    intros k' [?|[Hk Hv]]; [by apply B; left|]. apply elem_of_cons in Hk as [->|Hk]; apply B; [by left|by right]. }
  rewrite bool_decide_false by done. destruct (Hks k ltac:(left)) as [?|[Hn|(v & raw & Hv & Hr & Hnl & Hp)]]; [done| |].
  { rewrite Hn. destruct (IH out emitted) as [A B]; [intros; apply Hks; by right|done..|]. split; [done|].
    intros k' [?|[Hk Hv]]; [by apply B; left|]. apply elem_of_cons in Hk as [->|Hk]; [rewrite Hn in Hv; by destruct Hv|]. apply B; by right. }
  rewrite Hv, Hr. cbn [default]. set (out' := out ++ default [] (er_Comments res !! k) ++ [raw]).
  destruct (IH out' ({[k]} ∪ emitted)) as [A B].
  - intros k' Hk'. destruct (Hks k' ltac:(by right)) as [?|?]; [left; set_solver|by right].
  - unfold out'. rewrite !Forall_app. split; [done|]. split; [|apply Forall_singleton; by eapply says_entry].
    destruct (er_Comments res !! k) as [c|] eqn:Hc; [|by apply Forall_nil_2]. eapply Forall_impl; [by apply (Hcm k)|]. cbn. intros l [? ?]. by apply says_comment.
  - intros k' [->%elem_of_singleton|Hk']%elem_of_union; [exists raw, v; unfold out'; set_solver|].
    destruct (Hem k' Hk') as (l & w & Hl & Hw). exists l, w. unfold out'. set_solver.
  - split; [done|]. intros k' [?|[Hk Hs]]; [apply B; left; set_solver|]. apply elem_of_cons in Hk as [->|Hk]; apply B; [left; set_solver|by right].
Qed.

Lemma values_of_says vals ls k : Forall (says vals) ls -> (is_Some (vals !! k) -> sets k ls) -> last (values_at k ls) = vals !! k.
Proof.
  intros Hs Hk. destruct (last (values_at k ls)) as [v|] eqn:Hl.
  - apply last_Some_elem_of, active_in in Hl as (line & Hin & Hp). rewrite Forall_forall in Hs. symmetry. by apply (Hs line Hin).
  - destruct (vals !! k) as [v|]; [|done]. destruct (Hk ltac:(by eexists)) as (line & w & Hin & Hp). apply last_None in Hl.
    assert (w ∈ values_at k ls) as Hw by (apply active_in; by exists line). rewrite Hl in Hw. by apply not_elem_of_nil in Hw.
Qed.

Lemma values_of_file ls : Forall (fun l => nl ∉ l) ls -> ef_values (parseEnv (join_lf ls ++ [nl])) = ef_values (parse_lines ls).
Proof.
  intros Hn. unfold parseEnv. rewrite split_nl_line. change (split_nl []) with [[] : str]. rewrite parse_lines_blank.
  destruct ls as [|l ls]; [|by rewrite split_join]. change (split_nl (join_lf [])) with ([] ++ [[] : str]). apply parse_lines_blank.
Qed.

(** The template without its last line end has the same entries. *)
Lemma template_lines_in d l : l ∈ template_lines d -> l ∈ split_nl d.
Proof.
  unfold template_lines. destruct (List.last (split_nl d) [nl]) eqn:E; [|done]. intros H.
  rewrite (app_removelast_last [nl] (split_nl_nonempty d)). set_solver.
Qed.

Lemma template_lines_all d l : l ∈ split_nl d -> l <> [] -> l ∈ template_lines d.
Proof.
  unfold template_lines. destruct (List.last (split_nl d) [nl]) eqn:E; [|done]. intros H Hl.
  rewrite (app_removelast_last [nl] (split_nl_nonempty d)), E in H. set_solver.
Qed.

Lemma entry_nonempty l k v : parseEnvLine l = Some (k, v) -> l <> [].
Proof. by intros H ->. Qed.

Lemma overlay_comments_from local new ks k c : overlay_comments local new ks !! k = Some c ->
  ef_comments new !! k = Some c \/ ef_comments local !! k = Some c.
Proof.
  induction ks as [|k' ks IH] using rev_ind; unfold overlay_comments in *; [done|]. rewrite fold_left_app. cbn [fold_left].
  destruct (ef_comments new !! k') eqn:E1; [|destruct (ef_comments local !! k') eqn:E2; [|done]];
    destruct (decide (k' = k)) as [->|]; rewrite ?lookup_insert_eq, ?lookup_insert_ne by done; try done; intros [= ->]; auto.
Qed.

Lemma overlay_comments_ok localData newData : comments_ok (OverlayEnv localData newData).
Proof.
  intros k c H. cbn in H. assert (forall d, ef_comments (parseEnv d) !! k = Some c -> Forall (fun l => (nl ∉ l) /\ parseEnvLine l = None) c) as Hd.
  { intros d Hc. eapply Forall_impl; [by apply (ev_comments _ _ (parseEnv_inv d) k)|]. cbn. intros l [? Hl]. split; [|done].
    pose proof (split_nl_free d) as Hf. rewrite Forall_forall in Hf. by apply Hf. }
  apply overlay_comments_from in H as [H|H]; by eapply Hd.
Qed.

Lemma commented_not_entry l k d : parseCommentedEnvLine l = Some (k, d) -> parseEnvLine l = None.
Proof.
  unfold parseCommentedEnvLine. cbv zeta. destruct (is_comment (TrimSpace l)) eqn:E; [|done]. intros _. unfold parseEnvLine. cbv zeta.
  by rewrite E, orb_true_r.
Qed.

(** A key the template does not emit comes from the operator's own line. *)
Lemma overlay_extra_ok localData newData k emitted :
  (is_Some (ef_values (parseEnv newData) !! k) -> k ∈ emitted) -> extra_ok (OverlayEnv localData newData) emitted k.
Proof.
  intros Hem. destruct (overlay_local_wins localData newData) as (V & _). cbv zeta in V. unfold extra_ok.
  rewrite V. destruct (parseEnv_inv localData) as [L1 _ _ L4 L5 _ _]. destruct (ef_values (parseEnv localData) !! k) as [v|] eqn:Hl.
  - right. right. destruct (proj2 (L5 k) ltac:(by rewrite Hl)) as [raw Hr]. destruct (L4 k raw Hr) as (Hin & Ha & _). exists v, raw.
    split; [done|]. split; [done|]. pose proof (split_nl_free localData) as Hf. rewrite Forall_forall in Hf. split; [by apply Hf|].
    rewrite Hl in Ha. unfold active in Ha. destruct (parseEnvLine raw) as [[k' v']|]; [|done]. case_bool_decide; [|done]. by simplify_eq.
  - destruct (ef_values (parseEnv newData) !! k) as [v|]; [left; apply Hem; by eexists|by right; left].
Qed.

(** C18. What the operator gets is what the merge decided: for any local file and
    any template whose lines can take the values put into them, the rendered file,
    parsed again, sets exactly the merged values: the operator's where the operator
    has one, the template's otherwise, activated defaults and the operator's own
    keys appended at the end included, and nothing else. *)
Theorem rendered_file_says_the_merge localData newData :
  let res := OverlayEnv localData newData in
  forallb (line_ok res) (template_lines newData) = true ->
  forall k, ef_values (parseEnv (RenderEnv res newData)) !! k =
    match ef_values (parseEnv localData) !! k with Some v => Some v | None => ef_values (parseEnv newData) !! k end.
Proof.
  intros res Hok k. destruct (overlay_local_wins localData newData) as (V & _ & _ & O & _ & A & Ord). cbv zeta in V, O, A, Ord. fold res in V, O, A, Ord.
  rewrite <- V. rewrite forallb_forall in Hok. pose proof (split_nl_free newData) as Hf. rewrite Forall_forall in Hf.
  destruct (parseEnv_inv newData) as [N1 _ _ _ _ N6 _].
  assert (forall l k v, l ∈ split_nl newData -> parseEnvLine l = Some (k, v) -> is_Some (ef_values (parseEnv newData) !! k)) as Hset.
  { intros l k' v Hl Hp. rewrite N1. destruct (last (values_at k' (split_nl newData))) eqn:E; [done|]. apply last_None in E.
    assert (v ∈ values_at k' (split_nl newData)) as Hv by (apply active_in; by exists l). rewrite E in Hv. by apply not_elem_of_nil in Hv. }
  assert (forall l, l ∈ template_lines newData -> says (er_Values res) (render_line res ∅ l).1 /\
    forall k, (render_line res ∅ l).2 = Some k -> exists v, parseEnvLine (render_line res ∅ l).1 = Some (k, v)) as Hline.
  { intros l Hl. apply render_line_says; [by apply Hf, template_lines_in|by apply Hok, list_elem_of_In| |].
    - intros k' v Hp. rewrite V. destruct (ef_values (parseEnv localData) !! k'); [done|]. eapply Hset; [by apply template_lines_in|done].
    - intros k' v. rewrite A, V. case_decide; [|done]. by intros ->. }
  unfold RenderEnv, RenderEnvWithPolicy, render_lines. set (rendered := map (render_line res ∅) (template_lines newData)).
  destruct (render_extra_says res (er_Order res) (overlay_comments_ok _ _) (map fst rendered) (list_to_set (omap snd rendered))) as [S E].
  - intros k' _. apply overlay_extra_ok. intros [v Hv]. rewrite N1 in Hv. apply last_Some_elem_of, active_in in Hv as (l & Hl & Hp).
    apply elem_of_list_to_set, list_elem_of_omap. exists (render_line res ∅ l). split; [|unfold render_line; by rewrite Hp].
    apply list_elem_of_fmap_2, template_lines_all; [done|by eapply entry_nonempty].
  - unfold rendered. rewrite map_map. apply Forall_map, Forall_forall. intros l Hl. by apply Hline.
  - intros k' Hk'. apply elem_of_list_to_set, list_elem_of_omap in Hk' as (r & Hr & Hk'). apply list_elem_of_fmap in Hr as (l & -> & Hl).
    destruct (proj2 (Hline l Hl) k' Hk') as [v Hv]. exists (render_line res ∅ l).1, v. split; [|done].
    unfold rendered. rewrite map_map. by apply (list_elem_of_fmap_2 (fun l => (render_line res ∅ l).1)).
  - rewrite values_of_file by (eapply Forall_impl; [exact S|]; cbn; by intros l [? _]).
    rewrite (ev_values _ _ (parse_lines_inv _)). apply values_of_says; [done|]. intros Hk. apply E.
    destruct (decide (k ∈ (list_to_set (omap snd rendered) : gset str))) as [|Hne]; [by left|]. right. split; [|done]. apply Ord.
    destruct (decide (is_Some (ef_values (parseEnv newData) !! k))) as [|Hnew]; [by left|]. right. apply O.
    apply eq_None_not_Some in Hnew. rewrite V, Hnew in Hk. destruct (ef_values (parseEnv localData) !! k) as [w|] eqn:Hloc; [|by destruct Hk].
    split; [done|]. split; [done|]. apply eq_None_not_Some. intros Hc. apply Hne. destruct (N6 k Hc) as (l & d & Hl & Hp).
    apply elem_of_list_to_set, list_elem_of_omap. exists (render_line res ∅ l). split.
    + apply list_elem_of_fmap_2, template_lines_all; [done|by intros ->].
    + unfold render_line. rewrite (commented_not_entry l k d) by done. by rewrite Hp, A, decide_True, Hloc.
Qed.

Definition local_ex : str :=
  lit "PORT=8080" ++ nl :: lit "DEBUG=all of it" ++ nl :: lit "# mine" ++ nl :: lit "NICK='me'".
Definition shipped_ex : str :=
  lit "# where it listens" ++ nl :: lit "PORT=80 # plain" ++ nl :: lit "#DEBUG=on" ++ nl :: lit "HOST=here" ++ [nl].

Lemma rendered_file_says_the_merge_witness :
  let res := OverlayEnv local_ex shipped_ex in
  RenderEnv res shipped_ex =
    lit "# where it listens" ++ nl :: lit "PORT=8080 # plain" ++ nl :: (lit "DEBUG=" ++ quote_b :: lit "all of it" ++ [quote_b]) ++ nl
      :: lit "HOST=here" ++ nl :: lit "# mine" ++ nl :: lit "NICK='me'" ++ [nl] /\
  ef_values (parseEnv (RenderEnv res shipped_ex)) !! lit "DEBUG" = Some (lit "all of it") /\
  ef_values (parseEnv (RenderEnv res shipped_ex)) !! lit "HOST" = Some (lit "here").
Proof.
  split; [vm_compute; reflexivity|].
  split; (etransitivity; [apply (rendered_file_says_the_merge local_ex shipped_ex); vm_compute; reflexivity|vm_compute; reflexivity]).
Defined.
