(* ===== verification/FloatWait.v ===== *)
(** Bounds on [Duration.Seconds] (file Floats).  The whole seconds of a wait are
    cut from a float; for a wait below a second at most one is left.  The quotient
    is bounded through the two roundings of the result. *)

From Stdlib Require Import SpecFloat.
From S2P Require Import Prelude Floats.
Local Open Scope Z_scope.

Lemma shr_1_m r : 0 <= shr_m r -> shr_m (shr_1 r) = shr_m r / 2.
Proof.
  destruct r as [m r s]. cbn [shr_m]. intros Hm. destruct m as [|[p|p|]|p]; cbn [shr_1 shr_m]; try done; try lia.
  - rewrite Pos2Z.inj_xI. Z.to_euclidean_division_equations. lia.
  - rewrite Pos2Z.inj_xO. Z.to_euclidean_division_equations. lia.
Qed.

Lemma shr_iter_m n : forall r, 0 <= shr_m r ->
  0 <= shr_m (SpecFloat.iter_pos shr_1 n r) /\ shr_m (SpecFloat.iter_pos shr_1 n r) * 2 ^ Z.pos n <= shr_m r.
Proof.
  assert (forall r, 0 <= shr_m r -> 0 <= shr_m (shr_1 r) /\ shr_m (shr_1 r) * 2 <= shr_m r) as H1.
  { intros r Hr. rewrite shr_1_m by done. split; [apply Z.div_pos; lia|]. pose proof (Z.mul_div_le (shr_m r) 2 ltac:(lia)). lia. }
  assert (forall p, 2 ^ Z.pos p~0 = 2 ^ Z.pos p * 2 ^ Z.pos p) as H2 by (intros p; rewrite <- Z.pow_add_r by lia; f_equal; lia).
  induction n as [n IH|n IH|]; intros r Hr; cbn [SpecFloat.iter_pos]; [| |by apply H1].
  - destruct (H1 r Hr) as [A1 A2]. destruct (IH _ A1) as [B1 B2]. destruct (IH _ B1) as [C1 C2]. split; [done|].
    replace (Z.pos n~1) with (Z.pos n~0 + 1) by lia. rewrite Z.pow_add_r, H2, Z.pow_1_r by lia. nia.
  - destruct (IH r Hr) as [B1 B2]. destruct (IH _ B1) as [C1 C2]. split; [done|]. rewrite H2. nia.
Qed.

(** [m * 2 ^ e <= 1]. *)
Definition below_one (m e : Z) : Prop := 0 <= m /\ e <= 0 /\ m <= 2 ^ (- e).

Lemma digits_bound m k : 0 <= m -> 0 <= k -> m <= 2 ^ k -> Zdigits2 m <= k + 1.
Proof.
  intros Hm Hk. destruct m as [|p|p]; cbn [Zdigits2]; [lia| |lia]. clear Hm. revert k Hk.
  induction p as [p IH|p IH|]; intros k Hk Hp; cbn [digits2_pos]; [| |lia];
    (destruct (Z.eq_dec k 0) as [->|]; [rewrite Z.pow_0_r in Hp; lia|]);
    replace k with (Z.succ (k - 1)) in Hp by lia; rewrite Z.pow_succ_r in Hp by lia;
    rewrite Pos2Z.inj_succ; specialize (IH (k - 1) ltac:(lia) ltac:(lia)); lia.
Qed.

Lemma pow_split e n : e + Z.pos n <= 0 -> 2 ^ (- e) = 2 ^ (- (e + Z.pos n)) * 2 ^ Z.pos n.
Proof. intros H. rewrite <- Z.pow_add_r by lia. f_equal. lia. Qed.

Lemma shr_below m e l : below_one m e ->
  let '(r, e') := shr_fexp f64_prec f64_emax m e l in
  below_one (shr_m r) e' /\ (m < 2 ^ (- e) -> shr_m r < 2 ^ (- e')).
Proof.
  intros (Hm & He & Hb). unfold shr_fexp, shr. pose proof (digits_bound m (- e) Hm ltac:(lia) Hb) as Hd.
  assert (shr_m (shr_record_of_loc m l) = m) as Er by (by destruct l as [|[]]).
  destruct (fexp f64_prec f64_emax (Zdigits2 m + e) - e) as [|n|n] eqn:En; [by rewrite Er| |by rewrite Er].
  destruct (shr_iter_m n (shr_record_of_loc m l)) as [H1 H2]; [by rewrite Er|]. rewrite Er in H2.
  assert (e + Z.pos n < 0) as Hneg by (unfold fexp, emin, f64_prec, f64_emax in En; lia).
  rewrite (pow_split e n) in * by lia. pose proof (Z.pow_pos_nonneg 2 (Z.pos n) ltac:(lia) ltac:(lia)).
  unfold below_one. split; [split; [done|]; split; [lia|]|]; [|intros ?]; nia.
Qed.

Lemma round_aux_below m e l : below_one m e -> m < 2 ^ (- e) -> to_int (binary_round_aux f64_prec f64_emax false m e l) <= 1.
Proof.
  intros Hb Hs. unfold binary_round_aux. pose proof (shr_below m e l Hb) as H1. destruct (shr_fexp _ _ m e l) as [r1 e1].
  destruct H1 as [(B1 & B2 & B3) B4]. specialize (B4 Hs). set (m2 := round_nearest_even _ _).
  assert (below_one m2 e1) as Hb2.
  { unfold below_one, m2, round_nearest_even. destruct (loc_of_shr_record r1) as [|[]]; [lia| |lia|lia]. destruct (Z.even _); lia. }
  pose proof (shr_below m2 e1 loc_Exact Hb2) as H2. destruct (shr_fexp _ _ m2 e1 loc_Exact) as [r2 e2].
  destruct H2 as [(C1 & C2 & C3) _]. destruct (shr_m r2) as [|p|p]; [done| |done].
  destruct (_ <=? _); [|done]. unfold to_int. replace (if 0 <=? e2 then Z.pos p * 2 ^ e2 else Z.pos p / 2 ^ (- e2)) with (Z.pos p / 2 ^ (- e2)).
  - assert (Z.pos p / 2 ^ (- e2) <= 1) as Hq by (apply Z.div_le_upper_bound; [apply Z.pow_pos_nonneg|]; lia).
    destruct (_ && _); lia.
  - destruct (Z.leb_spec 0 e2) as [|]; [|done]. replace e2 with 0 by lia. cbn. rewrite Z.div_1_r. lia.
Qed.

Lemma digits_iter p k : digits2_pos (Pos.iter xO p k) = (digits2_pos p + k)%positive.
Proof. induction k as [|k IH] using Pos.peano_ind; [cbn; lia|]. rewrite Pos.iter_succ. cbn [digits2_pos]. rewrite IH. lia. Qed.

Lemma iter_value p k : Z.pos (Pos.iter xO p k) = Z.pos p * 2 ^ Z.pos k.
Proof.
  induction k as [|k IH] using Pos.peano_ind; [cbn; lia|]. rewrite Pos.iter_succ, Pos2Z.inj_xO, IH, Pos2Z.inj_succ, Z.pow_succ_r; lia.
Qed.

Lemma shr_fexp_same m e : fexp f64_prec f64_emax (Z.pos (digits2_pos m) + e) = e ->
  shr_fexp f64_prec f64_emax (Z.pos m) e loc_Exact = (Build_shr_record (Z.pos m) false false, e).
Proof. intros H. unfold shr_fexp. cbn [Zdigits2]. rewrite H, Z.sub_diag. done. Qed.

(** A small integer is exact. *)
Lemma of_int_small p : Z.pos p < 2 ^ 30 ->
  exists m e, of_int (Z.pos p) = S754_finite false m e /\ e < 0 /\ Z.pos m = Z.pos p * 2 ^ (- e) /\ Z.pos (digits2_pos m) = 53 /\ -52 <= e <= -23.
Proof.
  intros Hp.
  assert (Z.pos (digits2_pos p) <= 30) as Hd.
  { assert (forall q k, 0 <= k -> Z.pos q < 2 ^ k -> Z.pos (digits2_pos q) <= k) as H; [|by apply H].
    induction q as [q IH|q IH|]; intros k Hk Hq; cbn [digits2_pos]; (destruct (Z.eq_dec k 0) as [->|]; [rewrite Z.pow_0_r in Hq; lia|]); [| |lia];
      replace k with (Z.succ (k - 1)) in Hq by lia; rewrite Z.pow_succ_r in Hq by lia; rewrite Pos2Z.inj_succ;
      specialize (IH (k - 1) ltac:(lia) ltac:(lia)); lia. }
  unfold of_int, binary_normalize, binary_round, shl_align. set (d := digits2_pos p) in *.
  assert (fexp f64_prec f64_emax (Z.pos d + 0) = Z.pos d - 53) as Hf by (unfold fexp, emin, f64_prec, f64_emax; lia). rewrite Hf.
  destruct (Z.pos d - 53 - 0) as [|k|k] eqn:Ek; [lia|lia|].
  assert (Z.pos (digits2_pos (Pos.iter xO p k)) = 53) as Hdk by (rewrite digits_iter; fold d; lia).
  unfold binary_round_aux. rewrite shr_fexp_same by (rewrite Hdk; unfold fexp, emin, f64_prec, f64_emax; lia).
  cbn [shr_m loc_of_shr_record round_nearest_even]. rewrite shr_fexp_same by (rewrite Hdk; unfold fexp, emin, f64_prec, f64_emax; lia).
  cbn [shr_m]. replace (Z.pos d - 53 <=? f64_emax - f64_prec) with true by (unfold f64_prec, f64_emax; lia).
  exists (Pos.iter xO p k), (Z.pos d - 53). split; [done|]. split; [lia|]. split; [rewrite iter_value; f_equal; f_equal; lia|]. split; [done|]. lia.
Qed.

Lemma short_wait d : 0 <= d < Second -> to_int (Seconds d) <= 1.
Proof.
  intros Hd. unfold Seconds. rewrite Z.quot_small, Z.rem_small by (unfold Second in *; lia).
  change (of_int 0) with (S754_zero false). destruct d as [|p|p]; [by vm_compute| |lia].
  destruct (of_int_small p) as (m & e & -> & He & Hm & Hdig & Hr); [unfold Second in Hd; lia|].
  destruct (of_int_small 1000000000) as (m2 & e2 & H2 & He2 & Hm2 & Hdig2 & Hr2); [done|]. change (of_int Second) with (of_int (Z.pos 1000000000)).
  rewrite H2. unfold fdiv, SFdiv, SFdiv_core_binary. cbn [Zdigits2]. rewrite Hdig, Hdig2.
  set (e' := Z.min _ _). assert (e' <= -1) as He' by (unfold e', fexp, emin, f64_prec, f64_emax; lia).
  set (m' := match e - e2 - e' with Z0 => _ | _ => _ end).
  assert (m' = Z.pos m * 2 ^ (e - e2 - e')) as Hm'.
  { assert (0 <= e - e2 - e') as Hs by (unfold e'; lia). unfold m'. destruct (e - e2 - e') as [|s|s]; [lia| |lia]. by rewrite Z.shiftl_mul_pow2 by lia. }
  destruct (Z.div_eucl m' (Z.pos m2)) as [q r] eqn:Eq.
  assert (q = m' / Z.pos m2) as -> by (unfold Z.div; by rewrite Eq). set (q := m' / Z.pos m2).
  assert (0 <= q < 2 ^ (- e')) as Hq.
  { split; [apply Z.div_pos; [rewrite Hm'; apply Z.mul_nonneg_nonneg; [lia|apply Z.pow_nonneg; lia]|lia]|].
    apply Z.div_lt_upper_bound; [lia|]. rewrite Hm', Hm, Hm2, <- Z.mul_assoc, <- Z.pow_add_r by (unfold e'; lia).
    rewrite <- Z.mul_assoc, <- Z.pow_add_r by lia. replace (- e + (e - e2 - e')) with (- e2 + - e') by lia.
    apply Z.mul_lt_mono_pos_r; [apply Z.pow_pos_nonneg; lia|]. unfold Second in Hd. lia. }
  pose proof (round_aux_below q e' (new_location (Z.pos m2) r) ltac:(unfold below_one; lia) ltac:(lia)) as Hround.
  change (xorb false false) with false. destruct (binary_round_aux _ _ _ _ _ _); try done; unfold fadd, SFadd; try done.
  by destruct s.
Qed.
