(* ===== verification/ClientGate.v ===== *)
(** The client's side of the join gate ([lib/clientcore/gate.go],
    [lib/clientcore/dial.go], [client/powclient.go]) against the endpoint of
    Gate ([server/gate.go] [handleJoinGate]), byte for byte over HTTP.  The
    round tripper, the solver and the clock are the caller's, as in the code: they
    are operations on a world [W]. *)

From S2P Require Import Prelude Bytes Sha2 Utf8 Floats Crypto Filter Guard Json Pow Clock Behavior Abuse Engine Attack Gate ReadPump.
Local Open Scope Z_scope.

(** * What the client parses *)

(** [GateChallenge] of the client; Gate has the server's. *)
Record Bundle := mkBundle {
  bu_ID : str;
  bu_Tier : Z;
  bu_Preset : Preset;
  bu_Salt : str;
  bu_Earliest : time;
  bu_Expires : time;
  bu_Ticket : str;
  bu_OfferSig : str;
  bu_ServerPub : str
}.

Definition pow_field (st : option Preset) (kv : str * json) : option Preset :=
  match st with
  | None => None
  | Some (mkPreset t m p d) =>
      let '(key, v) := kv in
      if key_is key "t" then x ← dint v t; Some (mkPreset x m p d)
      else if key_is key "m" then x ← dint v m; Some (mkPreset t x p d)
      else if key_is key "p" then x ← dint v p; Some (mkPreset t m x d)
      else if key_is key "difficulty" then x ← duint 64 v d; Some (mkPreset t m p x)
      else st
  end.

(** The raw struct: the two times are still Unix seconds. *)
Definition bundle_field (st : option Bundle) (kv : str * json) : option Bundle :=
  match st with
  | None => None
  | Some (mkBundle a b c d e f g h i) =>
      let '(key, v) := kv in
      if key_is key "challenge_id" then x ← dstr v a; Some (mkBundle x b c d e f g h i)
      else if key_is key "tier" then x ← dint v b; Some (mkBundle a x c d e f g h i)
      else if key_is key "pow" then x ← dobj pow_field v c; Some (mkBundle a b x d e f g h i)
      else if key_is key "salt" then x ← dstr v d; Some (mkBundle a b c x e f g h i)
      else if key_is key "earliest" then x ← dint v e; Some (mkBundle a b c d x f g h i)
      else if key_is key "expires" then x ← dint v f; Some (mkBundle a b c d e x g h i)
      else if key_is key "ticket" then x ← dstr v g; Some (mkBundle a b c d e f x h i)
      else if key_is key "offer_sig" then x ← dstr v h; Some (mkBundle a b c d e f g x i)
      else if key_is key "server_pub" then x ← dstr v i; Some (mkBundle a b c d e f g h x)
      else st
  end.

Definition zeroBundle : Bundle := mkBundle [] 0 (mkPreset 0 0 0 0) [] 0 0 [] [] [].

Definition ParseGateChallenge (body : str) : option Bundle :=
  match read_json bundle_field zeroBundle body with
  | None => None
  | Some raw =>
      match bu_ID raw, bu_Salt raw, bu_Ticket raw with
      | [], _, _ | _, [], _ | _, _, [] => None
      | _, _, _ =>
          Some (mkBundle (bu_ID raw) (bu_Tier raw) (bu_Preset raw) (bu_Salt raw) (Unix (bu_Earliest raw)) (Unix (bu_Expires raw))
                  (bu_Ticket raw) (bu_OfferSig raw) (bu_ServerPub raw))
      end
  end.

Definition PlatformName (wasm : bool) : str := if wasm then lit "web" else lit "native".

(** [wire.PowOffer] and the caller's arguments; the offer's own public key is
    never read. *)
Record PowOffer := mkPowOffer {
  po_Tier : Z; po_Preset : Preset; po_Salt : str; po_Expires : Z; po_ChallengeID : str; po_OfferSig : str; po_ServerPub : str
}.

Definition signed_part (o : PowOffer) : Offer := mkOffer (po_Tier o) (po_Preset o) (po_Salt o) (po_Expires o) (po_ChallengeID o).

Inductive offer_error := BadServerPin | BadOfferSignature | OfferMismatch.

Definition VerifyPowOffer `{Ed25519} (o : PowOffer) (pin : str) (wasm : bool) : res offer_error Preset :=
  let accept := Ok (Clamp (po_Preset o) wasm).1 in
  match pin with
  | [] => accept
  | _ =>
      match hex_decode pin with
      | None => Err BadServerPin
      | Some pub =>
          if negb (slen pub =? PublicKeySize) then Err BadServerPin
          else match hex_decode (po_OfferSig o) with
          | None => Err BadOfferSignature
          | Some sig => if VerifyOffer pub (signed_part o) sig then accept else Err OfferMismatch
          end
      end
  end.

Definition DecideOffer (tier maxTier : Z) : bool := tier <=? maxTier.

(** ** URLs *)

(** What comes before and after the first occurrence of [pat]. *)
Fixpoint cut_str (pat s : str) : option (str * str) :=
  if has_prefix s pat then Some ([], drop (length pat) s)
  else match s with
  | [] => None
  | c :: s' => (fun r => (c :: r.1, r.2)) <$> cut_str pat s'
  end.

Definition has_suffix (s suf : str) : bool := has_prefix (reverse s) (reverse suf).

Fixpoint trim_slashes (s : str) : str :=
  match s with
  | [] => []
  | c :: s' => match trim_slashes s' with [] => if byte_eqb c "/"%char then [] else [c] | r => c :: r end
  end.

Definition GateHTTPBase (wsURL : str) : str :=
  let base :=
    match cut_str (lit "://") wsURL with
    | Some (scheme, rest) =>
        (if str_eqb scheme (lit "wss") || str_eqb scheme (lit "https") then lit "https" else lit "http") ++ lit "://" ++ rest
    | None => wsURL
    end in
  let base := trim_slashes base in
  match cut_byte "/"%char base with
  | Some _ => if has_suffix base (lit "/ws") then take (length base - 3) base else base
  | None => base
  end.

Example base_ex : map GateHTTPBase [lit "wss://chat.example/ws"; lit "ws://h:1/sub/ws/"; lit "h/ws"; lit "wss://h/room"]
  = [lit "https://chat.example"; lit "http://h:1/sub"; lit "h"; lit "https://h/room"].
Proof. vm_compute. reflexivity. Qed.

(** * The gate flow *)

(** The client's clock and its sleep. *)
Class World (W : Type) := { w_now : W -> time; w_sleep : duration -> W -> W }.

(** URL, body and timeout to a status and a body, or a failure. *)
Definition RoundTripper (W : Type) : Type := str -> str -> duration -> W -> option (Z * str) * W.

Inductive GateEvent :=
| GateChallengeFailed (status : Z)
| GateChallengeMalformed
| GateOfferInvalid (e : offer_error)
| GateTierRefused (tier cap : Z)
| GateSolving (tier : Z)
| GateSolveFailed
| GateWaiting (wait : duration)
| GateSubmitFailed
| GatePassMalformed
| GateRefused (status : Z).

Record GateConfig (W : Type) := mkGateConfig {
  cfg_Transport : option (W -> option (RoundTripper W) * W);
  cfg_Pin : str;
  cfg_WASM : bool;
  cfg_MaxTier : Z;
  cfg_MaxCostMs : Z;
  cfg_Solve : option (Preset -> str -> Z -> W -> option Z * W)
}.
Arguments mkGateConfig {W}.
Arguments cfg_Transport {W}.
Arguments cfg_Pin {W}.
Arguments cfg_WASM {W}.
Arguments cfg_MaxTier {W}.
Arguments cfg_MaxCostMs {W}.
Arguments cfg_Solve {W}.

Definition StatusOK : Z := 200.
Definition StatusTooManyRequests : Z := 429.

(** [json.Marshal] of a map writes the keys in order. *)
Definition step_body (step : string) (wasm : bool) : str := print (JObj (fstr "step" (lit step) ++ fstr "ui" (PlatformName wasm))).
Definition submit_body (id : str) (nonce : Z) (ticket : str) : str :=
  print (JObj (fstr "challenge_id" id ++ fint "nonce" nonce ++ fstr "step" (lit "submit") ++ fstr "ticket" ticket)).

Definition required_field (st : option bool) (kv : str * json) : option bool :=
  match st with Some b => if key_is kv.1 "required" then dbool kv.2 b else st | None => None end.
Definition pass_field (st : option str) (kv : str * json) : option str :=
  match st with Some s => if key_is kv.1 "pass" then dstr kv.2 s else st | None => None end.
Definition retry_field (st : option Z) (kv : str * json) : option Z :=
  match st with Some n => if key_is kv.1 "retry_after" then dint kv.2 n else st | None => None end.

(** 64 KiB, both ways. *)
Definition maxGateBody : nat := 64 * 1024.

Section flow.
Context {W : Type} `{World W} `{Ed25519}.

(** The status and at most 64 KiB of the answer. *)
Definition post (cfg : GateConfig W) (url body : str) (timeout : duration) (w : W) : option (str * Z) * W :=
  match cfg_Transport cfg with
  | None => (None, w)
  | Some transport =>
      match transport w with
      | (None, w) => (None, w)
      | (Some rt, w) =>
          match rt url body timeout w with
          | (None, w) => (None, w)
          | (Some (status, out), w) => (Some (take maxGateBody out, status), w)
          end
      end
  end.

Definition gate_url (httpBase : str) : str := httpBase ++ lit "/api/join-gate".

Definition GateRequiredNow (httpBase : str) (cfg : GateConfig W) (w : W) : bool * W :=
  match post cfg (gate_url httpBase) (step_body "status" (cfg_WASM cfg)) (15 * Second) w with
  | (None, w) => (false, w)
  | (Some (body, status), w) =>
      (if negb (status =? StatusOK) then false else default false (read_json required_field false body), w)
  end.

(** [time.Until] and the sleep. *)
Definition wait_for (earliest : time) (w : W) : list GateEvent * W :=
  let wait := Sub earliest (w_now w) in if 0 <? wait then ([GateWaiting wait], w_sleep wait w) else ([], w).

Definition offer_of (c : Bundle) : PowOffer :=
  mkPowOffer (bu_Tier c) (bu_Preset c) (bu_Salt c) (UnixSec (bu_Expires c)) (bu_ID c) (bu_OfferSig c) (bu_ServerPub c).

(** What an answer to a submission means: a pass, another try after so many
    seconds, or the end. *)
Inductive submit_answer := Passed (pass : str) | RetryIn (secs : Z) | GaveUp (e : GateEvent).

Definition read_submit (first : bool) (status : Z) (body : str) : submit_answer :=
  if status =? StatusOK then
    match read_json pass_field [] body with
    | Some ((_ :: _) as pass) => Passed pass
    | _ => GaveUp GatePassMalformed
    end
  else
    match (if status =? StatusTooManyRequests then read_json retry_field 0 body else None) with
    | Some secs => if (0 <? secs) && first then RetryIn secs else GaveUp (GateRefused status)
    | None => GaveUp (GateRefused status)
    end.

(** The loop over [attempt], two rounds at most. *)
Fixpoint submit_loop (rounds : nat) (first : bool) (cfg : GateConfig W) (httpBase : str) (c : Bundle) (nonce : Z) (w : W)
    : option str * list GateEvent * W :=
  match rounds with
  | O => (None, [], w)
  | S rounds' =>
      let '(waited, w) := wait_for (bu_Earliest c) w in
      match post cfg (gate_url httpBase) (submit_body (bu_ID c) nonce (bu_Ticket c)) (30 * Second) w with
      | (None, w) => (None, waited ++ [GateSubmitFailed], w)
      | (Some (body, status), w) =>
          match read_submit first status body with
          | Passed pass => (Some pass, waited, w)
          | RetryIn secs =>
              let '(pass, evs, w) := submit_loop rounds' false cfg httpBase c nonce (w_sleep (i64 (secs * Second)) w) in
              (pass, waited ++ evs, w)
          | GaveUp e => (None, waited ++ [e], w)
          end
      end
  end.

Definition RunGateFlow (httpBase : str) (cfg : GateConfig W) (w : W) : option str * list GateEvent * W :=
  match post cfg (gate_url httpBase) (step_body "challenge" (cfg_WASM cfg)) (30 * Second) w with
  | (None, w) => (None, [GateChallengeFailed 0], w)
  | (Some (body, status), w) =>
      if negb (status =? StatusOK) then (None, [GateChallengeFailed status], w)
      else match ParseGateChallenge body with
      | None => (None, [GateChallengeMalformed], w)
      | Some c =>
          match VerifyPowOffer (offer_of c) (cfg_Pin cfg) (cfg_WASM cfg) with
          | Err e => (None, [GateOfferInvalid e], w)
          | Ok preset =>
              if negb (DecideOffer (bu_Tier c) (cfg_MaxTier cfg)) then (None, [GateTierRefused (bu_Tier c) (cfg_MaxTier cfg)], w)
              else match cfg_Solve cfg with
              | None => (None, [GateSolving (bu_Tier c); GateSolveFailed], w)
              | Some solve =>
                  match solve preset (bu_Salt c) (cfg_MaxCostMs cfg) w with
                  | (None, w) => (None, [GateSolving (bu_Tier c); GateSolveFailed], w)
                  | (Some nonce, w) =>
                      let '(pass, evs, w) := submit_loop 2 true cfg httpBase c nonce w in
                      (pass, GateSolving (bu_Tier c) :: evs, w)
                  end
              end
          end
      end
  end.

(** * The dial *)

Definition defaultGateAttempts : Z := 3.
Definition defaultReadLimit : Z := 2 ^ 20.
Definition dialErrorBody : nat := 256 * 1024.

(** A connection with its read limit, or the failed upgrade's answer. *)
Inductive dial_result := Connected | Refused (resp : option (Z * str)).

Inductive DialEvent := DialUpgraded (url : str) | DialGateRequired | DialFailed (status : Z) (body : str).

Record Dialer := mkDialer {
  dl_Dial : str -> W -> dial_result * W;
  dl_Gate : option ((str -> W -> str * W) * (str -> str -> W -> option str * W));   (* Pass and Solve *)
  dl_Pin : str;                                                                     (* IdentityPin of the key file *)
  dl_ReadLimit : Z;
  dl_MaxAttempts : Z
}.

Inductive dial_outcome := DialConn (url : str) (read_limit : Z) | DialError (url : str) | DialExhausted (url : str).

Definition with_pass (url pass : str) : str :=
  match pass with
  | [] => url
  | _ => url ++ (match cut_str (lit "?") url with Some _ => lit "&" | None => lit "?" end) ++ lit "gate_pass=" ++ pass
  end.

Definition gateChallengeBody `{Unicode} (resp : option (Z * str)) : str * bool :=
  match resp with
  | None => ([], false)
  | Some (status, body) =>
      let bytes := take dialErrorBody body in
      (SanitizeForDisplay (TrimSpace bytes),
       (status =? StatusTooManyRequests) && default false (read_json required_field false bytes))
  end.

Definition must_upgrade (resp : option (Z * str)) (url : str) (upgraded : bool) : bool :=
  match resp with Some (status, _) => (status =? 426) && has_prefix url (lit "ws://") && negb upgraded | None => false end.

Fixpoint dial_loop `{Unicode} (attempts : nat) (d : Dialer) (upgraded : bool) (url pass : str) (w : W)
    : dial_outcome * list DialEvent * W :=
  match attempts with
  | O => (DialExhausted url, [], w)
  | S attempts' =>
      let dialURL := with_pass url pass in
      match dl_Dial d dialURL w with
      | (Connected, w) => (DialConn dialURL (if dl_ReadLimit d <=? 0 then defaultReadLimit else dl_ReadLimit d), [], w)
      | (Refused resp, w) =>
          if must_upgrade resp url upgraded then
            let url := lit "wss://" ++ drop 5 url in
            let '(r, evs, w) := dial_loop attempts' d true url pass w in (r, DialUpgraded url :: evs, w)
          else
            let '(body, isGate) := gateChallengeBody resp in
            if negb isGate then
              (DialError url, [DialFailed (match resp with Some (status, _) => status | None => 0 end) body], w)
            else match dl_Gate d with
            | None => (DialError url, [], w)
            | Some (_, solve) =>
                match solve url (dl_Pin d) w with
                | (None, w) => (DialError url, [DialGateRequired], w)
                | (Some next, w) =>
                    let '(r, evs, w) := dial_loop attempts' d upgraded url next w in (r, DialGateRequired :: evs, w)
                end
            end
      end
  end.

Definition DialManaged `{Unicode} (d : Dialer) (wsURL : str) (w : W) : dial_outcome * list DialEvent * W :=
  let attempts := if dl_MaxAttempts d <? 1 then defaultGateAttempts else dl_MaxAttempts d in
  let '(pass, w) := match dl_Gate d with Some (Pass, _) => Pass wsURL w | None => ([], w) end in
  dial_loop (Z.to_nat attempts) d false wsURL pass w.
End flow.

(** The client's own gate ([powclient.go]): it holds no pass before the dial
    outside the browser, and solves with the local budget. *)
Definition powLocalCap (cfg : option (Z * Z)) : Z * Z :=
  match cfg with
  | Some (maxTier, maxCostMs) => (if 0 <? maxTier then maxTier else 3, if 0 <? maxCostMs then maxCostMs else 120000)
  | None => (3, 120000)
  end.

(** * The endpoint's side *)

Definition zeroRequest : gateRequest := mkGateRequest [] [] [] 0 [].

Definition request_field (st : option gateRequest) (kv : str * json) : option gateRequest :=
  match st with
  | None => None
  | Some (mkGateRequest a b c d e) =>
      let '(key, v) := kv in
      if key_is key "step" then x ← dstr v a; Some (mkGateRequest x b c d e)
      else if key_is key "ui" then x ← dstr v b; Some (mkGateRequest a x c d e)
      else if key_is key "challenge_id" then x ← dstr v c; Some (mkGateRequest a b x d e)
      else if key_is key "nonce" then x ← duint 64 v d; Some (mkGateRequest a b c x e)
      else if key_is key "ticket" then x ← dstr v e; Some (mkGateRequest a b c d x)
      else st
  end.

(** [json.NewDecoder(r.Body).Decode]: the first value of at most 64 KiB. *)
Definition decode_request (body : str) : option gateRequest :=
  match read_value (S (length body)) 0 (take maxGateBody body) with
  | Some (v, _) => dobj request_field v zeroRequest
  | None => None
  end.

Definition error_json (e : string) : json := JObj (fstr "error" (lit e)).

Definition preset_fields (p : Preset) : list (str * json) :=
  fint "difficulty" (p_Difficulty p) ++ fint "m" (p_Memory p) ++ fint "p" (p_Threads p) ++ fint "t" (p_Time p).

Definition challenge_json (c : GateChallenge) (tier : Z) (preset : Preset) (sig serverPub : str) : json :=
  JObj (fstr "challenge_id" (gc_ID c) ++ fint "earliest" (UnixSec (gc_Earliest c)) ++ fint "expires" (UnixSec (gc_Expires c)) ++
        fstr "offer_sig" sig ++ [(lit "pow", JObj (preset_fields preset))] ++ fstr "salt" (gc_Salt c) ++
        fstr "server_pub" serverPub ++ fstr "ticket" (gc_Ticket c) ++ fint "tier" tier).

(** [Encoder.Encode] ends the line. *)
Definition encoded_line (j : json) : str := print j ++ [nl].

(** The status and body of an answer; [priv] is the server's signing seed.  The
    texts of [http.Error] end their line too. *)
Definition answer_http `{Ed25519} (priv : option str) (serverPub : str) (r : gate_response) : Z * str :=
  match r with
  | MethodNotAllowed => (405, lit "method not allowed" ++ [nl])
  | UntrustedProxy => (403, lit "Untrusted proxy." ++ [nl])
  | GateUnavailable => (503, lit "gate unavailable" ++ [nl])
  | BadRequest => (400, lit "bad request" ++ [nl])
  | StatusSlowDown => (429, encoded_line (error_json "slow down"))
  | StatusAnswer required => (200, encoded_line (JObj [(lit "required", JBool required)]))
  | ChallengeTooSoon => (429, encoded_line (error_json "challenge too soon, slow down"))
  | ChallengeIssued tier c offer =>
      let sig := match priv with Some seed => hex_encode (SignOffer seed offer) | None => [] end in
      (200, encoded_line (challenge_json c tier (o_Preset offer) sig serverPub))
  | PassIssued token expires => (200, encoded_line (JObj (fint "expires" expires ++ fstr "pass" token)))
  | TooEarly retry => (429, encoded_line (JObj (fstr "error" (lit "too early") ++ fint "retry_after" retry)))
  | ChallengeGone => (410, encoded_line (error_json "challenge expired or consumed"))
  | InvalidSolution => (400, encoded_line (error_json "invalid solution"))
  | UnknownStep => (400, lit "unknown step" ++ [nl])
  end.

(** What a refused handshake carries ([checkGatePass]). *)
Definition handshake_refusal : Z * str :=
  (429, encoded_line (JObj (fstr "gate" (lit "/api/join-gate") ++ [(lit "required", JBool true)]))).
