(* ===== verification/GateSession.v ===== *)
(** The theorems of the join gate as a conversation of ClientGate with Gate: what
    each side prints the other reads; the solver is only put to work on bounded,
    accepted and (with a pin) signed offers; and against an honest server a client
    gets its pass. *)

From S2P Require Import Prelude Bytes Sha2 Utf8 Floats FloatWait Crypto Filter Guard Json Pow Clock Behavior Abuse Engine Attack Gate ReadPump ClientGate.
Local Open Scope Z_scope.

Lemma fits_gate n : Z.of_nat n <= 65536 -> (n <= maxGateBody)%nat.
Proof. unfold maxGateBody. lia. Qed.

Opaque maxGateBody dialErrorBody.

(** ** On the wire *)

Lemma parse_encoded l n : fields_printable l = true -> 0 <= n < maxNestingDepth -> depth_le n l -> parse (encoded_line (JObj l)) = Some (JObj l).
Proof.
  intros Hp Hn Hd. pose proof (depth_le_obj n l ltac:(lia) Hd). unfold parse, encoded_line.
  rewrite (read_value_print (JObj l) _ 0 [nl]); [done|exact Hp|lia|done|rewrite length_app; cbn; lia].
Qed.

Lemma read_encoded {A} (field : option A -> str * json -> option A) zero l n x :
  fields_printable l = true -> 0 <= n < maxNestingDepth -> depth_le n l -> fold_left field l (Some zero) = Some x ->
  read_json field zero (encoded_line (JObj l)) = Some x.
Proof. intros Hp Hn Hd Hf. unfold read_json. by rewrite (parse_encoded l n). Qed.

Lemma decode_printed l x : fields_printable l = true -> depth_le 0 l -> (length (print (JObj l)) <= maxGateBody)%nat ->
  fold_left request_field l (Some zeroRequest) = Some x -> decode_request (print (JObj l)) = Some x.
Proof.
  intros Hp Hd Hl Hf. unfold decode_request. rewrite take_ge by done.
  pose proof (read_value_print (JObj l) (S (length (print (JObj l)))) 0 []) as Hr. rewrite app_nil_r in Hr.
  pose proof (depth_le_obj 0 l ltac:(lia) Hd). rewrite Hr; [done|exact Hp|unfold maxNestingDepth; lia|done|lia].
Qed.

Lemma step_decodes step wasm : (length (step_body step wasm) <= maxGateBody)%nat -> ValidString (lit step) = true ->
  decode_request (step_body step wasm) = Some (mkGateRequest (lit step) (PlatformName wasm) [] 0 []).
Proof.
  intros Hl Hv. apply decode_printed; [|unfold depth_le; solve_depth|done|].
  - solve_printable. by destruct wasm.
  - done.
Qed.

Lemma submit_decodes id nonce ticket : (length (submit_body id nonce ticket) <= maxGateBody)%nat ->
  ValidString id = true -> ValidString ticket = true -> is_u64 nonce ->
  decode_request (submit_body id nonce ticket) = Some (mkGateRequest (lit "submit") [] id nonce ticket).
Proof.
  intros Hl Hi Ht Hn. apply decode_printed; [|unfold depth_le; solve_depth|done|].
  - solve_printable.
  - unfold is_u64 in Hn. rewrite !fold_left_app. unfold zeroRequest.
    rewrite (fold_field (fun y => mkGateRequest [] [] y 0 []) "challenge_id" (fstr "challenge_id") dstr []) by solve_field.
    rewrite (fold_field (fun y => mkGateRequest [] [] id y []) "nonce" (fint "nonce") (duint 64) 0) by solve_field.
    rewrite (fold_field (fun y => mkGateRequest y [] id nonce []) "step" (fstr "step") dstr []) by solve_field.
    by rewrite (fold_field (fun y => mkGateRequest (lit "submit") [] id nonce y) "ticket" (fstr "ticket") dstr []) by solve_field.
Qed.

Definition preset_ranges (p : Preset) : Prop :=
  is_i64 (p_Time p) /\ is_i64 (p_Memory p) /\ is_i64 (p_Threads p) /\ is_u64 (p_Difficulty p).

Lemma preset_reads p : preset_ranges p -> dobj pow_field (JObj (preset_fields p)) (mkPreset 0 0 0 0) = Some p.
Proof.
  destruct p as [t m th d]. intros (H1 & H2 & H3 & H4). unfold is_u64 in H4. cbn [dobj]. unfold preset_fields.
  cbn [p_Time p_Memory p_Threads p_Difficulty] in *. rewrite !fold_left_app.
  assert (forall k x, is_i64 x -> field_ok (fint k) dint k 0 x) as Hi by (intros k x Hx; right; eexists; split; [done|by apply dint_itoa]).
  rewrite (fold_field (fun y => mkPreset 0 0 0 y) "difficulty" (fint "difficulty") (duint 64) 0) by solve_field.
  rewrite (fold_field (fun y => mkPreset 0 y 0 d) "m" (fint "m") dint 0) by (first [by apply Hi|intros; reflexivity]).
  rewrite (fold_field (fun y => mkPreset 0 m y d) "p" (fint "p") dint 0) by (first [by apply Hi|intros; reflexivity]).
  by rewrite (fold_field (fun y => mkPreset y m th d) "t" (fint "t") dint 0) by (first [by apply Hi|intros; reflexivity]).
Qed.

Lemma fint_reads k x : is_i64 x -> field_ok (fint k) dint k 0 x.
Proof. intros Hx. right. eexists. split; [done|by apply dint_itoa]. Qed.

Lemma preset_printable p : printable (JObj (preset_fields p)) = true.
Proof.
  change (fields_printable (preset_fields p) = true). unfold preset_fields. solve_printable.
Qed.

Lemma preset_depth p : jdepth (JObj (preset_fields p)) <= 1.
Proof. apply (depth_le_obj 0); [lia|]. unfold preset_fields, depth_le. solve_depth. Qed.

Lemma fp_preset p : fields_printable [(lit "pow", JObj (preset_fields p))] = true.
Proof. apply fp_one; [reflexivity|apply preset_printable]. Qed.

(** The bundle the endpoint prints is the one the client parses, the times cut to
    seconds. *)
Lemma challenge_reads c tier preset sig pub :
  gc_ID c <> [] -> gc_Salt c <> [] -> gc_Ticket c <> [] ->
  ValidString (gc_ID c) = true -> ValidString (gc_Salt c) = true -> ValidString (gc_Ticket c) = true ->
  ValidString sig = true -> ValidString pub = true -> is_i64 tier -> preset_ranges preset ->
  (length (encoded_line (challenge_json c tier preset sig pub)) <= maxGateBody)%nat ->
  ParseGateChallenge (take maxGateBody (encoded_line (challenge_json c tier preset sig pub))) =
  Some (mkBundle (gc_ID c) tier preset (gc_Salt c) (Unix (UnixSec (gc_Earliest c))) (Unix (UnixSec (gc_Expires c))) (gc_Ticket c) sig pub).
Proof.
  intros N1 N2 N3 V1 V2 V3 V4 V5 Ht Hp Hl. rewrite take_ge by done. unfold ParseGateChallenge.
  set (sec := UnixSec (gc_Earliest c)) in *. set (sec2 := UnixSec (gc_Expires c)) in *.
  assert (is_i64 sec /\ is_i64 sec2) as [I1 I2] by (split; apply i64_range).
  unfold challenge_json. rewrite (read_encoded _ _ _ 1 (mkBundle (gc_ID c) tier preset (gc_Salt c) sec sec2 (gc_Ticket c) sig pub)).
  - cbn [bu_ID bu_Salt bu_Ticket bu_Tier bu_Preset bu_Earliest bu_Expires bu_OfferSig bu_ServerPub].
    destruct (gc_ID c), (gc_Salt c), (gc_Ticket c); done.
  - solve_printable. apply fp_preset.
  - done.
  - unfold depth_le. solve_depth. apply (preset_depth preset).
  - rewrite !fold_left_app. unfold zeroBundle. set (q0 := mkPreset 0 0 0 0).
    rewrite (fold_field (fun y => mkBundle y 0 q0 [] 0 0 [] [] []) "challenge_id" (fstr "challenge_id") dstr []) by solve_field.
    rewrite (fold_field (fun y => mkBundle (gc_ID c) 0 q0 [] y 0 [] [] []) "earliest" (fint "earliest") dint 0) by (first [by apply fint_reads|intros; reflexivity]).
    rewrite (fold_field (fun y => mkBundle (gc_ID c) 0 q0 [] sec y [] [] []) "expires" (fint "expires") dint 0) by (first [by apply fint_reads|intros; reflexivity]).
    rewrite (fold_field (fun y => mkBundle (gc_ID c) 0 q0 [] sec sec2 [] y []) "offer_sig" (fstr "offer_sig") dstr []) by solve_field.
    rewrite (fold_field (fun y => mkBundle (gc_ID c) 0 y [] sec sec2 [] sig []) "pow" (fun q => [(lit "pow", JObj (preset_fields q))]) (dobj pow_field) q0)
      by (first [right; eexists; split; [done|by apply preset_reads]|intros; reflexivity]).
    rewrite (fold_field (fun y => mkBundle (gc_ID c) 0 preset y sec sec2 [] sig []) "salt" (fstr "salt") dstr []) by solve_field.
    rewrite (fold_field (fun y => mkBundle (gc_ID c) 0 preset (gc_Salt c) sec sec2 [] sig y) "server_pub" (fstr "server_pub") dstr []) by solve_field.
    rewrite (fold_field (fun y => mkBundle (gc_ID c) 0 preset (gc_Salt c) sec sec2 y sig pub) "ticket" (fstr "ticket") dstr []) by solve_field.
    by rewrite (fold_field (fun y => mkBundle (gc_ID c) y preset (gc_Salt c) sec sec2 (gc_Ticket c) sig pub) "tier" (fint "tier") dint 0) by (first [by apply fint_reads|intros; reflexivity]).
Qed.

(** A pass, and an early answer. *)
Lemma pass_reads token expires first : token <> [] -> ValidString token = true ->
  (length (encoded_line (JObj (fint "expires" expires ++ fstr "pass" token))) <= maxGateBody)%nat ->
  read_submit first StatusOK (take maxGateBody (encoded_line (JObj (fint "expires" expires ++ fstr "pass" token)))) = Passed token.
Proof.
  intros Hn Hv Hl. rewrite take_ge by done. unfold read_submit. change (StatusOK =? StatusOK) with true. cbv iota.
  rewrite (read_encoded _ _ _ 0 token); [by destruct token|solve_printable|done|unfold depth_le; solve_depth|done].
Qed.

Lemma early_reads retry : 0 < retry -> is_i64 retry ->
  (length (encoded_line (JObj (fstr "error" (lit "too early") ++ fint "retry_after" retry))) <= maxGateBody)%nat ->
  read_submit true StatusTooManyRequests (take maxGateBody (encoded_line (JObj (fstr "error" (lit "too early") ++ fint "retry_after" retry)))) = RetryIn retry.
Proof.
  intros Hr Hi Hl. rewrite take_ge by done. unfold read_submit. change (StatusTooManyRequests =? StatusOK) with false.
  change (StatusTooManyRequests =? StatusTooManyRequests) with true. cbv iota.
  rewrite (read_encoded _ _ _ 0 retry); [by replace (0 <? retry) with true by lia|solve_printable|done|unfold depth_le; solve_depth|].
  rewrite fold_left_app. change (fold_left retry_field (fstr "error" (lit "too early")) (Some 0)) with (Some 0).
  apply (fold_field (fun y => y) "retry_after" (fint "retry_after") dint 0); [by apply fint_reads|intros v; cbn; by destruct (dint v 0)].
Qed.

(** ** Sizes

    Both sides read at most 64 KiB. *)

Lemma escape_size c : is_ascii c = true -> (length (escape_seg (Seg (byte_val c) [c])) <= 6)%nat.
Proof. destruct c as [[] [] [] [] [] [] [] []]; intros H; vm_compute in H; try done; vm_compute; lia. Qed.

Lemma print_str_size s : forallb is_ascii s = true -> (length (print_str s) <= 6 * length s + 2)%nat.
Proof.
  intros H. unfold print_str. rewrite segs_ascii by done. cbn [length]. rewrite length_app. cbn [length].
  enough (length (flat_map escape_seg (map (fun c => Seg (byte_val c) [c]) s)) <= 6 * length s)%nat by lia.
  induction s as [|c s IH]; [done|]. cbn [forallb] in H. apply andb_true_iff in H as [Hc Hs]. cbn [map flat_map]. rewrite length_app.
  pose proof (escape_size c Hc). specialize (IH Hs). cbn [length]. lia.
Qed.

Lemma dec_size fuel : forall n acc k, 0 <= n < 10 ^ Z.of_nat (S k) -> (length (dec_digits fuel n acc) <= length acc + S k)%nat.
Proof.
  induction fuel as [|fuel IH]; intros n acc k Hn; cbn [dec_digits]; [lia|].
  destruct (Z.ltb_spec n 10) as [|Hge]; [cbn [length]; lia|]. destruct k as [|k]; [cbn in Hn; lia|].
  etransitivity; [apply (IH _ _ k)|cbn [length]; lia]. rewrite (Nat2Z.inj_succ (S k)), Z.pow_succ_r in Hn by lia.
  split; [apply Z.div_pos; lia|apply Z.div_lt_upper_bound; lia].
Qed.

Lemma itoa_size n : - 2 ^ 63 <= n < 2 ^ 64 -> (length (itoa n) <= 21)%nat.
Proof.
  intros Hn. unfold itoa, utoa. destruct (n <? 0) eqn:E; cbn [length].
  - pose proof (dec_size (S (Z.to_nat (Z.log2 (- n)))) (- n) [] 18). cbn [length] in *. change (10 ^ Z.of_nat 19) with 10000000000000000000 in *. lia.
  - pose proof (dec_size (S (Z.to_nat (Z.log2 n))) n [] 19). cbn [length] in *. change (10 ^ Z.of_nat 20) with 100000000000000000000 in *. lia.
Qed.

Fixpoint members_size (l : list (str * json)) : nat :=
  match l with [] => 0 | kv :: l' => length (print_member kv) + 1 + members_size l' end.

Lemma obj_size l : (length (print (JObj l)) <= 2 + members_size l)%nat.
Proof.
  rewrite print_obj. cbn [length]. rewrite length_app. change (length (lit "}")) with 1%nat.
  enough (length (join (map print_member l)) <= members_size l)%nat by lia.
  induction l as [|kv l IH]; [done|]. cbn [map members_size]. destruct (map print_member l) as [|x y] eqn:E; [cbn [join]; lia|].
  rewrite join_cons, length_app. cbn [length]. lia.
Qed.

Lemma str_member_size k s : forallb is_ascii s = true ->
  Z.of_nat (length (print_member (lit k, JStr s))) <= slen (print_str (lit k)) + 3 + 6 * slen s.
Proof.
  intros H. unfold print_member, slen. cbn [fst snd print]. rewrite length_app. cbn [length]. pose proof (print_str_size s H). lia.
Qed.

Lemma int_member_size k n : - 2 ^ 63 <= n < 2 ^ 64 -> Z.of_nat (length (print_member (lit k, JNum (itoa n)))) <= slen (print_str (lit k)) + 22.
Proof.
  intros H. unfold print_member, slen. cbn [fst snd print]. rewrite length_app. cbn [length]. pose proof (itoa_size n H). lia.
Qed.

Lemma obj_fits l : Z.of_nat (members_size l) <= 65000 -> (length (print (JObj l)) <= maxGateBody)%nat /\ (length (encoded_line (JObj l)) <= maxGateBody)%nat.
Proof.
  intros H. pose proof (obj_size l). unfold encoded_line. rewrite length_app. change (length [nl]) with 1%nat. split; apply fits_gate; lia.
Qed.

Ltac size_members :=
  repeat match goal with
  | |- context [print_member (lit ?k, JStr ?s)] =>
      let H := fresh in pose proof (str_member_size k s ltac:(first [done | by rewrite ?forallb_app])) as H;
      let v := eval vm_compute in (slen (print_str (lit k))) in change (slen (print_str (lit k))) with v in H;
      generalize dependent (length (print_member (lit k, JStr s))); intros
  | |- context [print_member (lit ?k, JNum (itoa ?n))] =>
      let H := fresh in pose proof (int_member_size k n ltac:(unfold is_i64, is_u64 in *; lia)) as H;
      let v := eval vm_compute in (slen (print_str (lit k))) in change (slen (print_str (lit k))) with v in H;
      generalize dependent (length (print_member (lit k, JNum (itoa n)))); intros
  end;
  repeat match goal with
  | H : context [slen (lit ?k)] |- _ => let v := eval vm_compute in (slen (lit k)) in change (slen (lit k)) with v in H
  end.

Lemma submit_fits id nonce tk : forallb is_ascii id = true -> forallb is_ascii tk = true -> slen id <= 2048 -> slen tk <= 64 -> is_u64 nonce ->
  (length (submit_body id nonce tk) <= maxGateBody)%nat.
Proof.
  intros H1 H2 H3 H4 H5. apply obj_fits. unfold fstr, fint. cbn [app members_size]. size_members. lia.
Qed.
Lemma step_fits step wasm : forallb is_ascii (lit step) = true -> slen (lit step) <= 10 -> (length (step_body step wasm) <= maxGateBody)%nat.
Proof.
  intros H1 H2. apply obj_fits. unfold fstr. cbn [app members_size].
  assert (forallb is_ascii (PlatformName wasm) = true /\ slen (PlatformName wasm) <= 10) as [H3 H4] by by destruct wasm.
  size_members. lia.
Qed.

Lemma pass_fits token expires : forallb is_ascii token = true -> slen token <= 2048 -> is_i64 expires ->
  (length (encoded_line (JObj (fint "expires" expires ++ fstr "pass" token))) <= maxGateBody)%nat.
Proof. intros H1 H2 H3. apply obj_fits. unfold fstr, fint. cbn [app members_size]. size_members. lia. Qed.

Lemma early_fits retry : is_i64 retry -> (length (encoded_line (JObj (fstr "error" (lit "too early") ++ fint "retry_after" retry))) <= maxGateBody)%nat.
Proof. intros H1. apply obj_fits. unfold fstr, fint. cbn [app members_size]. size_members. lia. Qed.

Lemma preset_member_size p : preset_ranges p -> Z.of_nat (length (print_member (lit "pow", JObj (preset_fields p)))) <= 200.
Proof.
  intros (H1 & H2 & H3 & H4). unfold print_member. cbn [fst snd]. rewrite length_app. cbn [length].
  pose proof (obj_size (preset_fields p)). assert (Z.of_nat (members_size (preset_fields p)) <= 150).
  { unfold preset_fields, fint. cbn [app members_size]. size_members. lia. }
  change (length (print_str (lit "pow"))) with 5%nat. lia.
Qed.

Lemma challenge_fits c tier preset sig pub :
  forallb is_ascii (gc_ID c) = true -> forallb is_ascii (gc_Salt c) = true -> forallb is_ascii (gc_Ticket c) = true ->
  forallb is_ascii sig = true -> forallb is_ascii pub = true ->
  slen (gc_ID c) <= 2048 -> slen (gc_Salt c) <= 5000 -> slen (gc_Ticket c) <= 64 -> slen sig <= 128 -> slen pub <= 1024 ->
  is_i64 tier -> preset_ranges preset ->
  (length (encoded_line (challenge_json c tier preset sig pub)) <= maxGateBody)%nat.
Proof.
  intros. assert (is_i64 (UnixSec (gc_Earliest c)) /\ is_i64 (UnixSec (gc_Expires c))) as [I1 I2] by (split; apply i64_range).
  pose proof (preset_member_size preset ltac:(done)) as Hp. apply obj_fits. unfold fstr, fint. cbn [app members_size].
  generalize dependent (length (print_member (lit "pow", JObj (preset_fields preset)))). intros npow Hp.
  generalize dependent (UnixSec (gc_Earliest c)). intros s1 I1. generalize dependent (UnixSec (gc_Expires c)). intros s2 I2.
  size_members. lia.
Qed.
(** ** The solver is protected *)

(** An offer the client may work on: inside the safe envelope, within its own cap
    and, when it holds a pin, signed by the pinned key over exactly the tier, the
    preset, the salt, the time and the challenge. *)
Definition acceptable `{Ed25519} (pin : str) (wasm : bool) (maxTier : Z) (p : Preset) (salt : str) : Prop :=
  in_envelope p wasm /\ exists o, po_Salt o = salt /\ po_Tier o <= maxTier /\ p = (Clamp (po_Preset o) wasm).1 /\
    (pin <> [] -> exists pub sig, hex_decode pin = Some pub /\ slen pub = PublicKeySize /\ hex_decode (po_OfferSig o) = Some sig /\
       VerifyOffer pub (signed_part o) sig = true).

Lemma verified_acceptable `{Ed25519} o pin wasm maxTier p : VerifyPowOffer o pin wasm = Ok p -> po_Tier o <= maxTier ->
  acceptable pin wasm maxTier p (po_Salt o).
Proof.
  intros Hv Ht. pose proof (Clamp_spec (po_Preset o) wasm) as Hc. destruct (Clamp (po_Preset o) wasm) as [q ch] eqn:Ec.
  destruct Hc as (He & _). unfold VerifyPowOffer in Hv. rewrite Ec in Hv. cbn [fst] in Hv.
  destruct pin as [|c pin]; [injection Hv as <-; split; [done|]; exists o; rewrite Ec; by split_and!|].
  destruct (hex_decode (c :: pin)) as [pub|] eqn:E1; [|done]. destruct (slen pub =? PublicKeySize) eqn:E2; [|done]. cbn [negb] in Hv.
  destruct (hex_decode (po_OfferSig o)) as [sig|] eqn:E3; [|done]. destruct (VerifyOffer pub (signed_part o) sig) eqn:E4; [|done].
  injection Hv as <-. split; [done|]. exists o. rewrite Ec. split_and!; [done..|]. intros _. exists pub, sig. apply Z.eqb_eq in E2. done.
Qed.

Definition with_solver {W} (cfg : GateConfig W) (solve : Preset -> str -> Z -> W -> option Z * W) : GateConfig W :=
  mkGateConfig (cfg_Transport cfg) (cfg_Pin cfg) (cfg_WASM cfg) (cfg_MaxTier cfg) (cfg_MaxCostMs cfg) (Some solve).

Lemma loop_solver {W} `{World W} (cfg : GateConfig W) s1 s2 n first base c nonce w :
  submit_loop n first (with_solver cfg s1) base c nonce w = submit_loop n first (with_solver cfg s2) base c nonce w.
Proof.
  revert first w. induction n as [|n IH]; intros first w; [done|]. cbn [submit_loop]. destruct (wait_for (bu_Earliest c) w) as [evs w1].
  change (post (with_solver cfg s1)) with (post cfg). change (post (with_solver cfg s2)) with (post cfg).
  destruct (post cfg _ _ _ w1) as [[[body status]|] w2]; [|done]. destruct (read_submit first status body); [done| |done]. by rewrite IH.
Qed.

(** Whatever a server answers, the machine is only put to work on acceptable
    offers with the local budget: two solvers that agree there make the same
    conversation, so nothing the server sends reaches the solver outside the safe
    envelope, above the tier cap or, with a pin, without the pinned key's
    signature. *)
Theorem solver_only_sees_acceptable_offers {W} `{World W} `{Ed25519} (cfg : GateConfig W) base s1 s2 w :
  (forall p salt w, acceptable (cfg_Pin cfg) (cfg_WASM cfg) (cfg_MaxTier cfg) p salt ->
     s1 p salt (cfg_MaxCostMs cfg) w = s2 p salt (cfg_MaxCostMs cfg) w) ->
  RunGateFlow base (with_solver cfg s1) w = RunGateFlow base (with_solver cfg s2) w.
Proof.
  intros Hs. unfold RunGateFlow. change (post (with_solver cfg s1)) with (post cfg). change (post (with_solver cfg s2)) with (post cfg).
  destruct (post cfg _ _ _ w) as [[[body status]|] w1]; [|done]. destruct (negb _); [done|].
  destruct (ParseGateChallenge body) as [c|]; [|done]. cbn [cfg_Pin cfg_WASM cfg_MaxTier cfg_MaxCostMs cfg_Solve with_solver].
  destruct (VerifyPowOffer (offer_of c) (cfg_Pin cfg) (cfg_WASM cfg)) as [p|e] eqn:Hv; [|done].
  unfold DecideOffer. destruct (bu_Tier c <=? cfg_MaxTier cfg) eqn:Ht; cbn [negb]; [|done].
  rewrite (Hs p (bu_Salt c) w1) by (apply (verified_acceptable (offer_of c)); [done|cbn; lia]).
  destruct (s2 p (bu_Salt c) (cfg_MaxCostMs cfg) w1) as [[nonce|] w2]; [|done].
  by rewrite (loop_solver cfg s1 s2).
Qed.

(** ** An honest server

    The world is the server's store and its clock.  Every request takes [up] on its
    way and [down] back, a sleep runs [late], and [others] is whatever the rest of
    the world does to the store in between.  The client's clock is [skew] away from
    the server's. *)

Record GateWorld := mkGateWorld { gw_store : GateStore; gw_clock : time }.

Record GateServer := mkGateServer {
  gs_abuse : AbuseConfig;
  gs_attack : time -> option AttackState;
  gs_degraded : time -> bool;
  gs_pub : str;
  gs_priv : option str;
  gs_draw1 : time -> option str;
  gs_draw2 : time -> option str;
  gs_up : time -> duration;
  gs_down : time -> duration;
  gs_late : time -> duration;
  gs_others : time -> GateStore -> GateStore;
  gs_skew : duration
}.

Section honest.
Context `{Argon2} `{Ed25519} (srv : GateServer) (ip base : str).

Definition pass_time (d : duration) (w : GateWorld) : GateWorld :=
  let t := gw_clock w + d in mkGateWorld (gs_others srv t (gw_store w)) t.

#[local] Instance gate_world : World GateWorld := {
  w_now w := gw_clock w + gs_skew srv;
  w_sleep d w := if 0 <? d then pass_time (d + gs_late srv (gw_clock w)) w else w
}.

Definition round_trip : RoundTripper GateWorld := fun url body timeout w =>
  let w1 := pass_time (gs_up srv (gw_clock w)) w in
  if negb (str_eqb url (gate_url base)) then (None, w1)
  else
    let t := gw_clock w1 in
    let '(resp, g) := handleJoinGate (gw_store w1) t true true (Some (gs_abuse srv)) (gs_attack srv t) (gs_degraded srv t) ip (gs_pub srv)
                        (decode_request body) (gs_draw1 srv t) (gs_draw2 srv t) in
    let w2 := pass_time (gs_down srv t) (mkGateWorld g t) in
    (if timeout <? gw_clock w2 - gw_clock w then None else Some (answer_http (gs_priv srv) (gs_pub srv) resp), w2).

(** The others leave a live challenge and a live pass alone. *)
Definition kept (t : time) (g g' : GateStore) : Prop :=
  g_key g' = g_key g /\
  (forall id c, g_challenges g !! id = Some c -> t <= gc_Expires c -> g_challenges g' !! id = Some c) /\
  (forall tok p, g_passes g !! tok = Some p -> t <= gp_Expires p -> g_passes g' !! tok = Some p).

Variables (D S : duration).

Record honest : Prop := {
  ho_up t : 0 <= gs_up srv t <= D;
  ho_down t : 0 <= gs_down srv t <= D;
  ho_late t : 0 <= gs_late srv t <= D;
  ho_others t g : kept t g (gs_others srv t g);
  ho_timeout : 2 * D <= 30 * Second;
  ho_skew : gs_skew srv <= 0
}.

Context (Ho : honest).

Lemma kept_refl t g : kept t g g.
Proof. by split_and!. Qed.

Lemma kept_trans t1 t2 g1 g2 g3 : t1 <= t2 -> kept t1 g1 g2 -> kept t2 g2 g3 -> kept t2 g1 g3.
Proof.
  intros Ht (A1 & A2 & A3) (B1 & B2 & B3). split; [congruence|]. split; intros; [apply B2|apply B3]; try done; [apply A2|apply A3]; try done; lia.
Qed.

(** Time passes and nothing alive is lost. *)
Definition later (w w' : GateWorld) : Prop := gw_clock w <= gw_clock w' /\ kept (gw_clock w') (gw_store w) (gw_store w').

Lemma later_refl w : later w w.
Proof. split; [lia|apply kept_refl]. Qed.

Lemma later_trans w1 w2 w3 : later w1 w2 -> later w2 w3 -> later w1 w3.
Proof. intros [A1 A2] [B1 B2]. split; [lia|]. by eapply kept_trans. Qed.

Lemma pass_time_later d w : 0 <= d -> later w (pass_time d w).
Proof. intros Hd. split; [cbn; lia|]. apply (ho_others Ho). Qed.

Lemma sleep_later d w : later w (w_sleep d w) /\
  (if 0 <? d then gw_clock w + d <= gw_clock (w_sleep d w) <= gw_clock w + d + D else gw_clock (w_sleep d w) = gw_clock w).
Proof.
  cbn [w_sleep gate_world]. pose proof (ho_late Ho (gw_clock w)). destruct (0 <? d) eqn:E; [|split; [apply later_refl|done]].
  split; [apply pass_time_later; lia|]. cbn. lia.
Qed.

(** A challenge kept for the client until the server's clock passes its end. *)
Definition holds (w : GateWorld) (key : str) (c : GateChallenge) : Prop :=
  g_key (gw_store w) = key /\ g_challenges (gw_store w) !! gc_ID c = Some c.

Lemma holds_later w w' key c : later w w' -> gw_clock w' <= gc_Expires c -> holds w key c -> holds w' key c.
Proof. intros [_ (K1 & K2 & _)] Ht [H1 H2]. split; [congruence|]. by apply K2. Qed.

(** ** One request *)

Variables (pin : str) (wasm : bool) (maxTier maxCost : Z) (solve : Preset -> str -> Z -> GateWorld -> option Z * GateWorld).

Definition honest_client : GateConfig GateWorld :=
  mkGateConfig (Some (fun w => (Some round_trip, w))) pin wasm maxTier maxCost (Some solve).

(** When a request sent now is handled. *)
Definition handled (w : GateWorld) : time := gw_clock w + gs_up srv (gw_clock w).

Lemma exchange body w :
  let t := handled w in
  let '(resp, g) := handleJoinGate (gs_others srv t (gw_store w)) t true true (Some (gs_abuse srv)) (gs_attack srv t) (gs_degraded srv t)
                      ip (gs_pub srv) (decode_request body) (gs_draw1 srv t) (gs_draw2 srv t) in
  post honest_client (gate_url base) body (30 * Second) w =
  (Some (take maxGateBody (answer_http (gs_priv srv) (gs_pub srv) resp).2, (answer_http (gs_priv srv) (gs_pub srv) resp).1),
   pass_time (gs_down srv t) (mkGateWorld g t)).
Proof.
  cbv zeta. destruct (handleJoinGate _ _ _ _ _ _ _ _ _ _ _ _) as [resp g] eqn:Hh. unfold post, honest_client, cfg_Transport.
  cbv beta iota. unfold round_trip. rewrite str_eqb_refl. cbn [negb]. cbv zeta.
  change (gw_store (pass_time (gs_up srv (gw_clock w)) w)) with (gs_others srv (handled w) (gw_store w)).
  change (gw_clock (pass_time (gs_up srv (gw_clock w)) w)) with (handled w). rewrite Hh.
  pose proof (ho_up Ho (gw_clock w)). pose proof (ho_down Ho (handled w)). pose proof (ho_timeout Ho).
  replace (30 * Second <? _) with false by (symmetry; apply Z.ltb_ge; cbn [pass_time gw_clock]; unfold handled in *; lia).
  by destruct (answer_http _ _ _).
Qed.

(** A challenge as the server made it for this client. *)
Record served (key : str) (c : GateChallenge) : Prop := {
  sv_used : gc_Used c = false;
  sv_ticket : gc_Ticket c = hex_encode (hmac_sha256 key (ticket_input ip (gc_ID c) (gc_Earliest c)));
  sv_id : forallb is_ascii (gc_ID c) = true;
  sv_len : slen (gc_ID c) <= 2048
}.

Lemma hex_ascii b : forallb is_ascii (hex_encode b) = true.
Proof.
  pose proof (hex_encode_lower b) as Hh. unfold lower_hex, is_digit in Hh. rewrite forallb_forall in *. intros c Hc. specialize (Hh c Hc).
  unfold is_ascii. lia.
Qed.

Lemma ticket_size key m : slen (hex_encode (hmac_sha256 key m)) = 64.
Proof. unfold slen, hmac_sha256. rewrite length_hex_encode. unfold hmac_sha256, hmac. by rewrite length_sha256. Qed.

(** The retry a wait below a second leads to. *)
Lemma retry_range d : 0 < d < Second -> let r := to_int (Seconds d) + 1 in 1 <= (if r <? 1 then 1 else r) <= 2.
Proof. intros Hd. cbv zeta. pose proof (short_wait d ltac:(lia)). destruct (_ <? 1) eqn:E; lia. Qed.

Section submission.
Variables (key : str) (c : GateChallenge) (nonce : Z).
Context (Hs : served key c) (Hn : is_u64 nonce) (Hv : Verify (gc_Preset c) (gc_Salt c) nonce = true).

Lemma submit_request : decode_request (submit_body (gc_ID c) nonce (gc_Ticket c)) = Some (mkGateRequest (lit "submit") [] (gc_ID c) nonce (gc_Ticket c)).
Proof.
  destruct Hs as [_ Ht Hi Hl]. apply submit_decodes; [|by apply ascii_valid|rewrite Ht; apply ascii_valid, hex_ascii|done].
  apply submit_fits; [done|rewrite Ht; apply hex_ascii|done|rewrite Ht, ticket_size; lia|done].
Qed.

Lemma submit_handled w : holds w key c -> handled w <= gc_Expires c ->
  let g := gs_others srv (handled w) (gw_store w) in
  g_challenges g !! gc_ID c = Some c /\ gc_Ticket c = ticket g ip (gc_ID c) (gc_Earliest c).
Proof.
  intros [H1 H2] Ht. destruct (ho_others Ho (handled w) (gw_store w)) as (K1 & K2 & _). split; [by apply K2|].
  destruct Hs as [_ Htk _ _]. unfold ticket. by rewrite Htk, K1, H1.
Qed.

(** The answer to the submission, up to the test of the time. *)
Ltac open_submit srv c nonce w Hs Hh g Hp Hc Htk :=
  pose proof (exchange (submit_body (gc_ID c) nonce (gc_Ticket c)) w) as Hp; cbv zeta in Hp;
  rewrite submit_request in Hp; destruct (submit_handled w Hh ltac:(lia)) as [Hc Htk]; set (g := gs_others srv (handled w) (gw_store w)) in *;
  unfold handleJoinGate in Hp; cbn [negb gr_Step gr_ChallengeID gr_Nonce gr_Ticket] in Hp;
  change (str_eqb (lit "submit") (lit "status")) with false in Hp; change (str_eqb (lit "submit") (lit "challenge")) with false in Hp;
  change (str_eqb (lit "submit") (lit "submit")) with true in Hp; cbv iota in Hp;
  unfold Submit in Hp; rewrite Hc, (sv_used _ _ Hs) in Hp; unfold After in Hp; replace (gc_Expires c <? handled w) with false in Hp by lia;
  cbn [orb] in Hp; rewrite <- Htk, str_eqb_refl in Hp; cbn [negb] in Hp; unfold Before in Hp.

(** Too early by less than a second: a retry in one or two. *)
Lemma submit_early w : holds w key c -> handled w < gc_Earliest c -> handled w <= gc_Expires c -> gc_Earliest c - handled w < Second ->
  exists body status secs w', post honest_client (gate_url base) (submit_body (gc_ID c) nonce (gc_Ticket c)) (30 * Second) w = (Some (body, status), w') /\
    read_submit true status body = RetryIn secs /\ 1 <= secs <= 2 /\
    handled w <= gw_clock w' <= handled w + D /\ (gw_clock w' <= gc_Expires c -> holds w' key c).
Proof.
  intros Hh He Hx Hd. open_submit srv c nonce w Hs Hh g Hp Hc Htk. replace (handled w <? gc_Earliest c) with true in Hp by lia.
  unfold ChallengeEarliest in Hp. rewrite Hc, (sv_used _ _ Hs) in Hp. cbn [default id] in Hp.
  rewrite (proj1 (Z.eqb_eq (Sub (gc_Earliest c) (handled w)) (gc_Earliest c - handled w))) in Hp
    by (apply Z.eqb_eq; unfold Sub, min_duration, max_duration, Second in *; lia).
  set (r := if _ <? 1 then 1 else _) in Hp. pose proof (retry_range (gc_Earliest c - handled w) ltac:(lia)) as Hr. cbv zeta in Hr. fold r in Hr.
  assert (is_i64 r) as Hi by (unfold is_i64; lia).
  pose proof (ho_down Ho (handled w)). eexists _, _, r, _. split; [exact Hp|]. cbn [answer_http fst snd].
  split; [apply early_reads; [lia|done|by apply early_fits]|]. split; [done|]. cbn [pass_time gw_clock]. split; [lia|].
  intros Hle. destruct Hh as [Hk _]. destruct (ho_others Ho (handled w) (gw_store w)) as (K1 & _).
  apply (holds_later (mkGateWorld g (handled w))); [apply pass_time_later; lia|done|]. split; [unfold g; cbn; congruence|done].
Qed.

(** A pass of this client's address that will outlast one more trip. *)
Definition valid_pass (w : GateWorld) (token : str) : Prop :=
  exists p, g_passes (gw_store w) !! token = Some p /\ gp_IP p = ip /\ gw_clock w + D <= gp_Expires p.

(** In time: a pass, good for this address when it arrives. *)
Lemma submit_passes w first : holds w key c -> gc_Earliest c <= handled w <= gc_Expires c ->
  (forall t, exists raw, gs_draw1 srv t = Some raw /\ raw <> [] /\ slen raw <= 1024) -> 2 * D <= ac_PassTTL (gs_abuse srv) ->
  exists body status token w', post honest_client (gate_url base) (submit_body (gc_ID c) nonce (gc_Ticket c)) (30 * Second) w = (Some (body, status), w') /\
    read_submit first status body = Passed token /\ token <> [] /\ valid_pass w' token.
Proof.
  intros Hh He Hdraw Hpt. open_submit srv c nonce w Hs Hh g Hp Hc Htk. replace (handled w <? gc_Earliest c) with false in Hp by lia.
  rewrite Hv in Hp. cbn [negb] in Hp. destruct (Hdraw (handled w)) as (raw & Hraw & Hne & Hlen). rewrite Hraw in Hp. cbv zeta in Hp. cbn [gp_Token gp_Expires] in Hp.
  set (p := mkPass _ _ _) in Hp. pose proof (ho_down Ho (handled w)) as Hdown. eexists _, _, (hex_encode raw), _. split; [exact Hp|]. cbn [answer_http fst snd]. split.
  - apply pass_reads; [by destruct raw|apply ascii_valid, hex_ascii|]. apply pass_fits; [apply hex_ascii| |apply i64_range].
    unfold slen in *. rewrite length_hex_encode. lia.
  - split; [by destruct raw|]. exists p. cbn [pass_time gw_store gw_clock]. split; [|split; [done|unfold p, Add; cbn [gp_Expires]; lia]].
    destruct (ho_others Ho (handled w + gs_down srv (handled w)) (mkGate (g_key (drop_challenge g (gc_ID c))) (g_challenges (drop_challenge g (gc_ID c)))
        (<[hex_encode raw := p]> (g_passes (drop_challenge g (gc_ID c)))) (g_cooldown (drop_challenge g (gc_ID c))) (g_statusCooldown (drop_challenge g (gc_ID c)))))
      as (_ & _ & K3).
    apply (K3 (hex_encode raw) p); [apply lookup_insert_eq|unfold p, Add; cbn [gp_Expires]; lia].
Qed.

(** The wait for the announced second. *)
Lemma wait_spec F w : - max_duration < F - (gw_clock w + gs_skew srv) < max_duration ->
  let '(evs, w') := wait_for F w in
  later w w' /\ F <= gw_clock w' + gs_skew srv /\ gw_clock w' <= Z.max (gw_clock w) (F - gs_skew srv + D).
Proof.
  intros Hr. unfold wait_for. change (w_now w) with (gw_clock w + gs_skew srv).
  assert (Sub F (gw_clock w + gs_skew srv) = F - (gw_clock w + gs_skew srv)) as -> by (unfold Sub, min_duration, max_duration in *; lia).
  set (wait := F - (gw_clock w + gs_skew srv)). pose proof (sleep_later wait w) as [Hl Hc].
  destruct (0 <? wait) eqn:Hw; [|split; [apply later_refl|]; unfold wait in *; lia]. split; [done|]. unfold wait in *. lia.
Qed.

Variables (b : Bundle).
Context (Hb : bu_ID b = gc_ID c /\ bu_Ticket b = gc_Ticket c).
Context (HF : bu_Earliest b <= gc_Earliest c < bu_Earliest b + Second).
Context (Hdraw : forall t, exists raw, gs_draw1 srv t = Some raw /\ raw <> [] /\ slen raw <= 1024).
Context (Hpt : 2 * D <= ac_PassTTL (gs_abuse srv)).

Definition passed (r : option str * list GateEvent * GateWorld) : Prop :=
  exists token evs w', r = (Some token, evs, w') /\ token <> [] /\ valid_pass w' token.

(** A round in time ends with a pass. *)
Lemma loop_in_time n first w : holds w key c -> - max_duration < bu_Earliest b - (gw_clock w + gs_skew srv) < max_duration ->
  gc_Earliest c <= gw_clock w -> Z.max (gw_clock w) (bu_Earliest b - gs_skew srv + D) + D <= gc_Expires c ->
  passed (submit_loop (Datatypes.S n) first honest_client base b nonce w).
Proof.
  intros Hh Hr He Hx. cbn [submit_loop]. pose proof (wait_spec (bu_Earliest b) w Hr) as Hw. destruct (wait_for (bu_Earliest b) w) as [evs w1].
  destruct Hw as (Hl & Hf & Hm). pose proof (ho_up Ho (gw_clock w1)) as Hu. pose proof (proj1 Hl).
  destruct Hb as [-> ->]. destruct (submit_passes w1 first) as (body & status & token & w2 & -> & Hread & Huse);
    [eapply holds_later; [done|lia|done]|unfold handled; lia|done|done|]. rewrite Hread. by exists token, evs, w2.
Qed.

(** Two rounds are enough. *)
Lemma loop_passes w : holds w key c -> - max_duration < bu_Earliest b - (gw_clock w + gs_skew srv) < max_duration ->
  Z.max (gw_clock w) (bu_Earliest b - gs_skew srv + D) + D <= gc_Expires c -> gc_Earliest c + 2 * Second + 3 * D <= gc_Expires c ->
  gs_skew srv <= 0 -> - gs_skew srv < 2 ^ 62 ->
  passed (submit_loop 2 true honest_client base b nonce w).
Proof.
  intros Hh Hr Hx1 Hx2 Hk Hk2. cbn [submit_loop]. pose proof (wait_spec (bu_Earliest b) w Hr) as Hw. destruct (wait_for (bu_Earliest b) w) as [evs w1].
  destruct Hw as (Hl & Hf & Hm). pose proof (ho_up Ho (gw_clock w1)) as Hu. pose proof (proj1 Hl). assert (0 <= D) by (pose proof (ho_up Ho 0); lia).
  destruct Hb as [Eid Etk]. rewrite Eid, Etk. assert (holds w1 key c) as Hh1 by (eapply holds_later; [done|lia|done]).
  destruct (Z.lt_ge_cases (handled w1) (gc_Earliest c)) as [Hearly|Hon].
  - destruct (submit_early w1 Hh1 Hearly ltac:(unfold handled in *; lia) ltac:(unfold handled in *; lia))
      as (body & status & secs & w2 & -> & -> & Hsecs & Hc2 & Hh2).
    assert (i64 (secs * Second) = secs * Second) as -> by (apply i64_small; unfold is_i64, Second; lia).
    destruct (sleep_later (secs * Second) w2) as [Hl3 Hc3]. replace (0 <? secs * Second) with true in Hc3 by (unfold Second; lia).
    set (w3 := w_sleep (secs * Second) w2) in *. assert (handled w1 <= gw_clock w2 <= handled w1 + D) by lia. unfold handled in *.
    destruct (loop_in_time 0 false w3) as (token & evs3 & w4 & E & Huse).
    + eapply holds_later; [done| |apply Hh2]; unfold Second in *; lia.
    + pose proof (ho_timeout Ho). unfold max_duration, Second in *. lia.
    + unfold Second in *. lia.
    + unfold Second in *. lia.
    + cbn [submit_loop] in E. rewrite Eid, Etk in E. rewrite E. by exists token, (evs ++ evs3), w4.
  - destruct (submit_passes w1 true Hh1 ltac:(unfold handled in *; lia) Hdraw Hpt) as (body & status & token & w2 & -> & -> & Huse).
    by exists token, evs, w2.
Qed.
End submission.

(** ** The whole flow *)

Definition the_tier (w : GateWorld) : Z := gateTier (Some (gs_abuse srv)) (gs_attack srv (handled w)).
Definition the_preset (w : GateWorld) : Preset := tier_preset (gs_abuse srv) (the_tier w) wasm.
Definition the_salt (w : GateWorld) : str :=
  lit "v1|" ++ gs_pub srv ++ "|"%char :: ip ++ "|"%char :: hex_encode (default [] (gs_draw1 srv (handled w))).

(** What the client, the server and the network are like: the tier is within the
    client's cap, the address may ask, random bytes come, the keys match, and the
    times leave room: the challenge outlives the solving and the two round trips,
    and a pass its way back. *)
Record invited (w : GateWorld) : Prop := {
  in_tier : is_i64 (the_tier w) /\ the_tier w <= maxTier;
  in_difficulty : 0 <= p_Difficulty (the_preset w);
  in_cooldown : (cooldown_Allow (g_cooldown (gs_others srv (handled w) (gw_store w))) (handled w) ip gateChallengeCooldown).1 = true;
  in_draw1 : forall t, exists raw, gs_draw1 srv t = Some raw /\ raw <> [] /\ slen raw <= 1024;
  in_draw2 : match gs_draw2 srv (handled w) with Some b => be_int64 b <> - 2 ^ 63 | None => True end;
  in_wait : 0 <= ac_JoinWaitMin (gs_abuse srv) < 2 ^ 61 /\ ac_JoinWaitMax (gs_abuse srv) < 2 ^ 61;
  in_ttl : 2 * D + S <= ac_PowTTL (gs_abuse srv) < 2 ^ 61 /\ 2 * D - gs_skew srv <= ac_PowTTL (gs_abuse srv) /\
           2 * Second + 3 * D <= ac_PowTTL (gs_abuse srv) /\ 2 * D <= ac_PassTTL (gs_abuse srv);
  in_text : forallb is_ascii ip = true /\ forallb is_ascii (gs_pub srv) = true /\ slen ip <= 1024 /\ slen (gs_pub srv) <= 1024;
  in_seed : match gs_priv srv with Some seed => length seed = 32%nat | None => True end;
  in_pin : pin = [] \/ exists seed, gs_priv srv = Some seed /\ pin = hex_encode (ed_pub seed);
  in_clock : 0 <= gw_clock w < 2 ^ 61 * Second
}.

(** The solver finds a nonce for this work within its time. *)
Definition solves (p : Preset) (salt : str) : Prop := forall w, exists nonce w',
  solve p salt maxCost w = (Some nonce, w') /\ is_u64 nonce /\ Verify p salt nonce = true /\
  later w w' /\ gw_clock w' <= gw_clock w + S.

Lemma request_wait w : invited w ->
  let a := gs_abuse srv in
  let wait := if ac_JoinWaitMin a <? ac_JoinWaitMax a then i64 (ac_JoinWaitMin a + randInt63n (i64 (ac_JoinWaitMax a - ac_JoinWaitMin a)) (gs_draw2 srv (handled w)))
              else ac_JoinWaitMin a in 0 <= wait < 2 ^ 61.
Proof.
  intros Hi. pose proof (in_wait _ Hi) as [H1 H2]. cbv zeta. destruct (_ <? _) eqn:E; [|lia].
  rewrite (i64_small (_ - _)) by (unfold is_i64; lia). pose proof (randInt63n_range (ac_JoinWaitMax (gs_abuse srv) - ac_JoinWaitMin (gs_abuse srv)) _ ltac:(lia) (in_draw2 _ Hi)).
  rewrite i64_small by (unfold is_i64; lia). lia.
Qed.

Lemma tier_preset_ranges w : invited w -> preset_ranges (the_preset w) /\ in_envelope (the_preset w) wasm /\ (Clamp (the_preset w) wasm).1 = the_preset w.
Proof.
  intros Hi. pose proof (in_difficulty _ Hi) as Hd. unfold the_preset, tier_preset in *. cbv zeta in *. set (q := if _ && _ then _ else _) in *.
  pose proof (Clamp_spec q wasm) as Hc. destruct (Clamp q wasm) as [p ch] eqn:Ec. cbn [fst] in *. destruct Hc as (He & _ & _ & Hc). rewrite Hc.
  split; [|done]. destruct He as (E1 & E2 & E3 & E4 & _).
  unfold preset_ranges, is_i64, is_u64, MinTime, MaxTime, MinMemoryKiB, MaxMemoryKiB, MinThreads, MaxThreads, MaxDifficulty in *. lia.
Qed.

Lemma Unix_floor t : 0 <= t < 2 ^ 62 * Second -> Unix (UnixSec t) <= t < Unix (UnixSec t) + Second.
Proof.
  intros Ht. unfold Unix, UnixSec. assert (0 <= t / Second < 2 ^ 62) as Hq.
  { split; [apply Z.div_pos; unfold Second in *; lia|apply Z.div_lt_upper_bound; unfold Second in *; lia]. }
  rewrite (i64_small (t / Second - _)) by (unfold is_i64; lia). rewrite i64_small by (unfold is_i64; lia).
  pose proof (Z.div_mod t Second ltac:(done)). pose proof (Z.mod_pos_bound t Second ltac:(done)). lia.
Qed.

Lemma Unix_again t : 0 <= t < 2 ^ 62 * Second -> UnixSec (Unix (UnixSec t)) = UnixSec t.
Proof.
  intros Ht. unfold Unix, UnixSec. assert (0 <= t / Second < 2 ^ 62) as Hq.
  { split; [apply Z.div_pos; unfold Second in *; lia|apply Z.div_lt_upper_bound; unfold Second in *; lia]. }
  rewrite (i64_small (t / Second - _)) by (unfold is_i64; lia). rewrite (i64_small (_ + _)) by (unfold is_i64; lia).
  rewrite Z.div_mul by done. rewrite i64_small by (unfold is_i64; lia). lia.
Qed.

Definition server_offer (c : GateChallenge) (tier : Z) (preset : Preset) : Offer := mkOffer tier preset (gc_Salt c) (UnixSec (gc_Expires c)) (gc_ID c).
Definition server_sig (o : Offer) : str := match gs_priv srv with Some seed => hex_encode (SignOffer seed o) | None => [] end.

(** The challenge as it is made and sent. *)
Lemma challenge_exchange w : invited w ->
  exists c wait w',
    post honest_client (gate_url base) (step_body "challenge" wasm) (30 * Second) w =
      (Some (take maxGateBody (encoded_line (challenge_json c (the_tier w) (the_preset w) (server_sig (server_offer c (the_tier w) (the_preset w))) (gs_pub srv))), StatusOK), w') /\
    served (g_key (gw_store w)) c /\ gc_ID c <> [] /\ slen (gc_Salt c) <= 5000 /\ gc_Salt c <> [] /\ forallb is_ascii (gc_Salt c) = true /\
    gc_Salt c = the_salt w /\ gc_Preset c = the_preset w /\ 0 <= wait < 2 ^ 61 /\ gc_Earliest c = handled w + wait /\ gc_Expires c = gc_Earliest c + ac_PowTTL (gs_abuse srv) /\
    (gw_clock w' <= gc_Expires c -> holds w' (g_key (gw_store w)) c) /\ handled w <= gw_clock w' <= handled w + D.
Proof.
  intros Hi. pose proof (request_wait w Hi) as Hw. cbv zeta in Hw.
  pose proof (exchange (step_body "challenge" wasm) w) as Hp. cbv zeta in Hp.
  rewrite (step_decodes "challenge" wasm) in Hp by (try done; apply step_fits; done).
  set (g := gs_others srv (handled w) (gw_store w)) in *.
  assert (g_key g = g_key (gw_store w)) as Hk by apply (ho_others Ho).
  unfold handleJoinGate in Hp. cbn [negb gr_Step gr_UI] in Hp.
  change (str_eqb (lit "challenge") (lit "status")) with false in Hp. change (str_eqb (lit "challenge") (lit "challenge")) with true in Hp. cbv iota in Hp.
  assert (str_eqb (PlatformName wasm) (lit "web") = wasm) as Hweb by by destruct wasm. rewrite Hweb in Hp.
  change (gateTier (Some (gs_abuse srv)) (gs_attack srv (handled w))) with (the_tier w) in Hp.
  change (tier_preset (gs_abuse srv) (the_tier w) wasm) with (the_preset w) in Hp.
  unfold Request in Hp. pose proof (in_cooldown _ Hi) as Hcd. fold g in Hcd. destruct (cooldown_Allow (g_cooldown g) (handled w) ip gateChallengeCooldown) as [ok cd].
  cbn [fst] in Hcd. subst ok. cbn [negb] in Hp. destruct (in_draw1 _ Hi (handled w)) as (raw & Hraw & Hne & Hlen). rewrite Hraw in Hp. cbv zeta in Hp.
  set (wait := if ac_JoinWaitMin _ <? ac_JoinWaitMax _ then _ else _) in *.
  set (c := mkGateChallenge _ _ _ _ _ _ _ _) in Hp. pose proof (ho_down Ho (handled w)) as Hdn.
  destruct (in_text _ Hi) as (T1 & T2 & T3 & T4).
  exists c, wait. eexists. split; [exact Hp|]. assert (slen (hex_encode raw) <= 2048) as Hidl by (unfold slen in *; rewrite length_hex_encode; lia).
  split; [split; [done|cbn [gc_Ticket c gc_ID gc_Earliest]; unfold ticket; cbn [g_key]; by rewrite Hk|apply hex_ascii|done]|].
  split; [by destruct raw|]. split.
  { cbn [gc_Salt c]. unfold slen in *. rewrite !length_app. cbn [length]. rewrite length_app. cbn [length]. change (length (lit "v1|")) with 3%nat. lia. }
  split; [done|]. split; [cbn [gc_Salt c]; rewrite !forallb_app; cbn [forallb]; rewrite forallb_app, T1, T2; cbn [forallb]; by rewrite hex_ascii|].
  split; [unfold the_salt; rewrite Hraw; done|].
  split; [done|]. split; [exact Hw|]. split; [done|]. split; [done|]. split; [|cbn [pass_time gw_clock]; lia].
  intros Hle. apply (holds_later (mkGateWorld (mkGate (g_key g) (<[hex_encode raw := c]> (g_challenges g)) (g_passes g) cd (g_statusCooldown g)) (handled w)));
    [apply pass_time_later; lia|done|]. split; [exact Hk|apply lookup_insert_eq].
Qed.

Lemma offer_accepted `{!Ed25519Laws} w c wait : invited w -> 0 <= wait < 2 ^ 61 -> gc_Earliest c = handled w + wait ->
  gc_Expires c = gc_Earliest c + ac_PowTTL (gs_abuse srv) -> gc_Preset c = the_preset w ->
  let o := server_offer c (the_tier w) (the_preset w) in
  let b := mkBundle (gc_ID c) (the_tier w) (the_preset w) (gc_Salt c) (Unix (UnixSec (gc_Earliest c))) (Unix (UnixSec (gc_Expires c))) (gc_Ticket c)
             (server_sig o) (gs_pub srv) in
  VerifyPowOffer (offer_of b) pin wasm = Ok (the_preset w).
Proof.
  intros Hi Hw HE HX HP o b. destruct (tier_preset_ranges w Hi) as (_ & _ & Hcl). pose proof (in_clock _ Hi) as Hclk.
  pose proof (ho_up Ho (gw_clock w)) as Hu. pose proof (ho_timeout Ho) as Hto. destruct (in_ttl _ Hi) as (Httl & _ & Httl3 & _).
  assert (signed_part (offer_of b) = o) as Hso.
  { unfold signed_part, offer_of, b. cbn [po_Tier po_Preset po_Salt po_Expires po_ChallengeID bu_Tier bu_Preset bu_Salt bu_Expires bu_ID].
    rewrite Unix_again by (unfold handled, Second in *; lia). done. }
  unfold VerifyPowOffer. change (po_Preset (offer_of b)) with (the_preset w). rewrite Hcl, Hso. destruct (in_pin _ Hi) as [->|(seed & Hs & ->)]; [done|].
  pose proof (in_seed _ Hi) as Hl. rewrite Hs in Hl. rewrite hex_decode_encode. change (po_OfferSig (offer_of b)) with (server_sig o).
  unfold server_sig, slen. rewrite Hs, hex_decode_encode, ed_pub_size by done. change (Z.of_nat 32 =? PublicKeySize) with true. cbn [negb].
  unfold VerifyOffer, SignOffer. rewrite ed_verify_sign by done.
  destruct (hex_encode (ed_pub seed)) eqn:E; [|done]. done.
Qed.

Lemma flow_passes `{!Ed25519Laws} w : solves (the_preset w) (the_salt w) -> invited w -> passed (RunGateFlow base honest_client w).
Proof.
  intros Hsol Hi. destruct (challenge_exchange w Hi) as (c & wait & w1 & Hp & Hsv & Hid & Hsl & Hsn & Hsa & HS & HP & Hw & HE & HX & Hh & Hc1).
  destruct (tier_preset_ranges w Hi) as (Hpr & Henv & _). destruct (in_text _ Hi) as (T1 & T2 & T3 & T4).
  pose proof (in_clock _ Hi) as Hclk. pose proof (ho_up Ho (gw_clock w)) as Hu. pose proof (ho_timeout Ho) as Hto. pose proof (ho_skew Ho) as Hsk.
  destruct (in_ttl _ Hi) as (Ht1 & Ht2 & Ht3 & Ht4). set (o := server_offer c (the_tier w) (the_preset w)) in *.
  assert (forallb is_ascii (server_sig o) = true /\ slen (server_sig o) <= 128) as [Hsg Hsgl].
  { unfold server_sig. pose proof (in_seed _ Hi) as Hl. destruct (gs_priv srv) as [seed|]; [|done]. split; [apply hex_ascii|].
    unfold slen, SignOffer. rewrite length_hex_encode, ed_sign_size by done. done. }
  assert (forallb is_ascii (gc_Ticket c) = true /\ slen (gc_Ticket c) = 64) as [Htk Htkl] by (rewrite (sv_ticket _ _ Hsv); split; [apply hex_ascii|apply ticket_size]).
  pose proof (in_tier _ Hi) as [Hti Htm].
  unfold RunGateFlow. change (cfg_WASM honest_client) with wasm. rewrite Hp. change (StatusOK =? StatusOK) with true. cbn [negb].
  rewrite challenge_reads; [|done|done|by intros E; rewrite E in Htkl|by apply ascii_valid, (sv_id _ _ Hsv)|by apply ascii_valid|by apply ascii_valid|by apply ascii_valid
    |by apply ascii_valid|done|done|apply challenge_fits; try done; [apply (sv_id _ _ Hsv)|apply (sv_len _ _ Hsv)|lia]].
  set (b := mkBundle _ _ _ _ _ _ _ _ _). change (cfg_Pin honest_client) with pin. 
  assert (VerifyPowOffer (offer_of b) pin wasm = Ok (the_preset w)) as -> by exact (offer_accepted w c wait Hi Hw HE HX HP).
  unfold DecideOffer. change (bu_Tier b) with (the_tier w). change (cfg_MaxTier honest_client) with maxTier. replace (the_tier w <=? maxTier) with true by lia.
  cbn [negb cfg_Solve honest_client cfg_MaxCostMs]. change (bu_Salt b) with (gc_Salt c). rewrite HS.
  destruct (Hsol w1) as (nonce & w2 & -> & Hn & Hver & Hl2 & Hc2).
  assert (holds w2 (g_key (gw_store w)) c) as Hh2 by (eapply holds_later; [done|lia|apply Hh; lia]).
  pose proof (Unix_floor (gc_Earliest c) ltac:(unfold handled, Second in *; lia)) as HF. pose proof (proj1 Hl2).
  destruct (loop_passes (g_key (gw_store w)) c nonce Hsv Hn ltac:(by rewrite HP, HS) b ltac:(done) HF (in_draw1 _ Hi) Ht4 w2 Hh2) as (token & evs & w3 & E & Hv).
  - cbn [b bu_Earliest] in *. unfold max_duration, handled, Second in *. lia.
  - cbn [b bu_Earliest] in *. lia.
  - lia.
  - done.
  - lia.
  - unfold honest_client in *. rewrite E. by exists token, (GateSolving (the_tier w) :: evs), w3.
Qed.

(** ** The dial *)

(** The handshake of this server with the gate up ([checkGatePass]); [query] reads
    the pass of a URL, as [net/url] does. *)
Definition handshake (query : str -> str) (url : str) (w : GateWorld) : dial_result * GateWorld :=
  let w1 := pass_time (gs_up srv (gw_clock w)) w in
  let t := gw_clock w1 in
  let '(ok, g, _, _) := checkGatePass (Some (gw_store w1)) None (mkRejects 0 0 0 0 0) t (Some (gs_abuse srv)) ip (query url) [] in
  (if ok then Connected else Refused (Some handshake_refusal), pass_time (gs_down srv t) (mkGateWorld (default (gw_store w1) g) t)).

(** The client's gate: no pass in hand, and the flow against the dialled host. *)
Definition gate_pass (url : str) (w : GateWorld) : str * GateWorld := ([], w).
Definition gate_solve (url server_pin : str) (w : GateWorld) : option str * GateWorld :=
  let '(pass, _, w) := RunGateFlow (GateHTTPBase url) honest_client w in (pass, w).

Definition dialer (query : str -> str) (limit attempts : Z) : Dialer (W := GateWorld) :=
  mkDialer (handshake query) (Some (gate_pass, gate_solve)) pin limit attempts.

Lemma handshake_accepts query url w : valid_pass w (query url) -> query url <> [] -> (handshake query url w).1 = Connected.
Proof.
  intros (p & Hp & Hip & Hx) Hne. unfold handshake. cbv zeta. cbn [pass_time gw_store gw_clock]. pose proof (ho_up Ho (gw_clock w)).
  destruct (ho_others Ho (gw_clock w + gs_up srv (gw_clock w)) (gw_store w)) as (_ & _ & K3).
  unfold checkGatePass, token_of, UsePass. destruct (query url) as [|ch q] eqn:E; [done|]. rewrite (K3 _ p Hp) by lia.
  rewrite Hip, str_eqb_refl. unfold After. replace (gp_Expires p <? _) with false by lia. done.
Qed.

Lemma refusal_is_gate `{Unicode} : (gateChallengeBody (Some handshake_refusal)).2 = true.
Proof.
  unfold gateChallengeBody, handshake_refusal. cbn [snd]. change (429 =? StatusTooManyRequests) with true. cbn [andb].
  rewrite take_ge by (apply Nat2Z.inj_le; change (Z.of_nat dialErrorBody) with 262144; vm_compute; discriminate).
  by rewrite (read_encoded _ _ _ 0 true) by (first [reflexivity|unfold depth_le; solve_depth|done]).
Qed.
End honest.


(** A server with a pinned key and a tier of four bits, a network of 20 to 30
    milliseconds and a client clock 300 milliseconds behind; the first submission
    is early. *)
Definition demo_gate_seed : str := take 32 (sha512 (lit "gate")).
Definition demo_server : GateServer :=
  mkGateServer
    (mkAbuse 0 (5 * Second) 50 Minute (lit "auto") (lit "always") 1 2 [mkPowTier 1 8192 1 0 0; mkPowTier 1 8192 1 4 0] Minute Second Second Minute
       false [] (lit "under-attack") 1 Hour true None DefaultPairMaxPending DefaultSoftCapRatio)
    (fun _ => None) (fun _ => true) (hex_encode (sha256 demo_gate_seed)) (Some demo_gate_seed)
    (fun _ => Some (lit "0123456789abcdef")) (fun _ => None)
    (fun _ => 20 * Millisecond) (fun _ => 30 * Millisecond) (fun _ => 5 * Millisecond) (fun _ g => g) (- (300 * Millisecond)).
Definition demo_gate_world : GateWorld := mkGateWorld (NewGateStore (lit "boot key")) ((62135596800 + 1750000000) * Second + 700 * Millisecond).
Definition demo_query (url : str) : str := match cut_str (lit "gate_pass=") url with Some (_, tok) => tok | None => [] end.
Definition demo_solve `{Argon2} (p : Preset) (salt : str) (ms : Z) (w : GateWorld) : option Z * GateWorld :=
  match Solve 1000 p salt (fun _ => false) with Some (Ok n) => (Some n, w) | _ => (None, w) end.
Definition demo_url : str := lit "wss://chat.example/ws".

Lemma demo_solves : let w := (handshake demo_server (lit "10.0.0.1") demo_query demo_url demo_gate_world).2 in
  solves (H := toy_argon2) Second 120000 (demo_solve (H := toy_argon2)) (the_preset demo_server false w) (the_salt demo_server (lit "10.0.0.1") w).
Proof.
  intros w w0. set (p := the_preset demo_server false w). set (salt := the_salt demo_server (lit "10.0.0.1") w).
  assert (exists n, Solve (A := toy_argon2) 1000 p salt (fun _ => false) = Some (Ok n) /\ is_u64 n /\ Verify (A := toy_argon2) p salt n = true) as (n & H1 & H2 & H3).
  { eexists. split; [vm_compute; reflexivity|]. split; [unfold is_u64; lia|vm_compute; reflexivity]. }
  exists n, w0. unfold demo_solve. rewrite H1. split; [done|]. split; [done|]. split; [done|]. split; [apply later_refl|unfold Second; lia].
Qed.

Lemma demo_honest : honest demo_server (50 * Millisecond).
Proof.
  split; intros; cbn [gs_up gs_down gs_late gs_others gs_skew demo_server]; unfold Millisecond, Second; try lia. apply kept_refl.
Qed.

Lemma demo_invited : let w := (handshake demo_server (lit "10.0.0.1") demo_query demo_url demo_gate_world).2 in
  invited (H0 := toy_ed25519) demo_server (lit "10.0.0.1") (50 * Millisecond) Second (hex_encode (sha256 demo_gate_seed)) false 3 w.
Proof.
  split.
  - unfold is_i64. vm_compute. repeat split; discriminate.
  - by vm_compute.
  - by vm_compute.
  - intros t. exists (lit "0123456789abcdef"). by vm_compute.
  - done.
  - by vm_compute.
  - by vm_compute.
  - by vm_compute.
  - by vm_compute.
  - right. exists demo_gate_seed. split; [reflexivity|]. unfold ed_pub, toy_ed25519. reflexivity.
  - by vm_compute.
Qed.


(** Two solvers that only differ outside the envelope. *)
Lemma solver_only_sees_acceptable_offers_witness :
  let s (n : Z) (p : Preset) (salt : str) (ms : Z) (w : GateWorld) := (Some (if p_Memory p <=? MaxMemoryKiB then 0 else n), w) in
  let cfg := honest_client (H := toy_argon2) (H0 := toy_ed25519) demo_server (lit "10.0.0.1") (lit "https://chat.example")
    (hex_encode (sha256 demo_gate_seed)) false 3 120000 (demo_solve (H := toy_argon2)) in
  RunGateFlow (H := gate_world demo_server) (H0 := toy_ed25519) (lit "https://chat.example") (with_solver cfg (s 1)) demo_gate_world =
  RunGateFlow (H := gate_world demo_server) (H0 := toy_ed25519) (lit "https://chat.example") (with_solver cfg (s 2)) demo_gate_world.
Proof.
  intros s cfg. apply (solver_only_sees_acceptable_offers (H := gate_world demo_server) (H0 := toy_ed25519) cfg).
  intros p salt w [(_ & [_ Hm] & _) _]. unfold s. by replace (p_Memory p <=? MaxMemoryKiB) with true by lia.
Defined.
