(* ===== verification/Notices.v ===== *)
(** Which notices a client shows ([lib/clientcore/notices.go], [client/notify.go],
    the [ui.notify] gates of [lib/config/config.go]): muted tag subtrees and the
    floor of the proof-of-work notices, before and in a session.  Where the code
    ranges over a decoded object the order is that of the list argument. *)

From S2P Require Import Prelude Bytes Utf8 Wire Json.
Local Open Scope Z_scope.

(** * The gate state *)

Record Notices := mkNotices { nt_Muted : gmap str bool; nt_PowMinTier : Z }.

Definition TagsAllowed (n : Notices) (tags : list str) : bool :=
  match BlockedBy tags (nt_Muted n) with [] => true | _ => false end.

Definition PowAllowed (n : Notices) (tier : Z) : bool := nt_PowMinTier n <=? tier.

Definition PowLive (n : Notices) (tier : Z) : bool := TagsAllowed n [TagPow] && PowAllowed n tier.

Definition TagsForWire (msg : WireMessage) : list str :=
  if negb (str_eqb (wm_Type msg) (lit "system")) then []
  else match wm_Tags msg with [] => WithTags [TagRoot] | tags => tags end.

Definition WireAllowed (n : Notices) (msg : WireMessage) : bool :=
  let tags := TagsForWire msg in
  if negb (TagsAllowed n tags) then false
  else if negb (HasTag tags TagPow) then true
  else if wm_SysPowTier msg <=? 0 then true
  else PowAllowed n (wm_SysPowTier msg).

(** * The config's gates *)

Definition legacyNotifyTags (key : str) : option (list str) :=
  if str_eqb key (lit "pow") then Some [lit "system.pow"]
  else if str_eqb key (lit "history") then Some [lit "system.history"]
  else if str_eqb key (lit "join") then Some [lit "system.join"; lit "system.leave"]
  else if str_eqb key (lit "leave") then Some [lit "system.leave"]
  else if str_eqb key (lit "date") then Some [lit "system.date"]
  else None.

Definition is_legacy (key : str) : bool := match legacyNotifyTags key with Some _ => true | None => false end.

Definition gate_legacy (on : bool) (gates : gmap str bool) (tag : str) : gmap str bool :=
  match gates !! tag with Some _ => gates | None => <[tag := on]> gates end.

(** The [set] closure; [null] decodes to [false]. *)
Definition gate_set (gates : gmap str bool) (kv : str * json) : gmap str bool :=
  match dbool kv.2 false with
  | None => gates
  | Some on =>
      match legacyNotifyTags kv.1 with
      | Some tags => fold_left (gate_legacy on) tags gates
      | None => <[kv.1 := on]> gates
      end
  end.

(** [raw]: the entries of the decoded object, each key once, in the order the map
    yields them. *)
Definition NotifyGates (raw : list (str * json)) : gmap str bool :=
  let gates := fold_left gate_set (List.filter (fun kv => negb (is_legacy kv.1)) raw) ∅ in
  fold_left gate_set (List.filter (fun kv => is_legacy kv.1) raw) gates.

(** What the client reads of its config here. *)
Record UIConfig := mkUI { ui_Notify : gmap str bool; ui_PowMinTier : option Z }.

Definition NotifyTag (cfg : option UIConfig) (tag : str) : bool :=
  match cfg with None => true | Some c => default true (ui_Notify c !! tag) end.

Definition NotifyPowMinTier (cfg : option UIConfig) : Z :=
  match cfg with Some c => default 1 (ui_PowMinTier c) | None => 1 end.

Definition mute (muted : gmap str bool) (tag : str) : gmap str bool := <[tag := true]> muted.

Definition configMutedTags (cfg : option UIConfig) : gmap str bool :=
  fold_left mute (List.filter (fun tag => negb (NotifyTag cfg tag)) AllTags) ∅.

Definition notifyStateFromConfig (cfg : option UIConfig) : Notices := mkNotices (configMutedTags cfg) (NotifyPowMinTier cfg).

(** * The --quiet flag *)

Section switches.
Context `{U : Unicode}.

Fixpoint quietTagNames (quiet : list str) : list str :=
  match quiet with
  | [] => []
  | raw :: quiet' =>
      let name := ToLower (TrimSpace raw) in
      if str_eqb name (lit "all") then [[]]
      else if HasTag AllTags name
           then match quietTagNames quiet' with [[]] => [[]] | rest => name :: rest end
           else quietTagNames quiet'
  end.

Definition quietNames (quiet : list str) : gmap str bool :=
  fold_left (fun muted name => match name with [] => fold_left mute AllTags muted | _ => mute muted name end) (quietTagNames quiet) ∅.

(** The notice of the join gate, before there is a session. *)
Definition notifyPowWanted (cfg : option UIConfig) (quiet : list str) (tier : Z) : bool :=
  let muted := match cfg with
               | Some _ => configMutedTags cfg ∪ quietNames quiet
               | None => quietNames quiet
               end in
  match BlockedBy (WithTags [TagPow]) muted with
  | [] => match cfg with None => true | Some _ => NotifyPowMinTier cfg <=? tier end
  | _ => false
  end.

(** * The runtime switches *)

Definition notifySetTag (n : Notices) (tag : str) (on : bool) : bool * Notices :=
  if negb (HasTag AllTags tag) then (false, n)
  else (true, mkNotices (if on then delete tag (nt_Muted n) else mute (nt_Muted n) tag) (nt_PowMinTier n)).

Definition notifySetAll (n : Notices) (on : bool) : Notices :=
  mkNotices (if on then ∅ else fold_left mute AllTags ∅) (nt_PowMinTier n).

Definition notifyTagEnabled (n : Notices) (tag : str) : bool :=
  match BlockedBy (WithTags [tag]) (nt_Muted n) with [] => true | _ => false end.

Definition notifySetPowMinTier (n : Notices) (tier : Z) : Notices := mkNotices (nt_Muted n) tier.

Definition apply_quiet (n : Notices) (name : str) : Notices :=
  match name with [] => notifySetAll n false | _ => (notifySetTag n name false).2 end.

Definition applyQuietFlags (n : Notices) (quiet : list str) : Notices := fold_left apply_quiet (quietTagNames quiet) n.

Definition notifyTagsAllowed (n : Notices) (tags : list str) : bool := match tags with [] => true | _ => TagsAllowed n tags end.

Definition notifyWireAllowed (n : Notices) (msg : WireMessage) : bool :=
  match TagsForWire msg with [] => true | _ => WireAllowed n msg end.

Definition parseOnOff (v : str) : option bool :=
  let v := ToLower v in
  if str_eqb v (lit "on") || str_eqb v (lit "true") then Some true
  else if str_eqb v (lit "off") || str_eqb v (lit "false") then Some false
  else None.
End switches.

(** * Theorems *)

Lemma mute_all l m t : fold_left mute l m !! t = if decide (t ∈ l) then Some true else m !! t.
Proof.
  revert m. induction l as [|x l IH]; intros m; cbn [fold_left]; [done|]. rewrite IH. unfold mute.
  destruct (decide (t = x)) as [->|Hx].
  - rewrite lookup_insert_eq. rewrite (decide_True (P := x ∈ x :: l)) by left. by case_decide.
  - rewrite lookup_insert_ne by done. apply decide_ext. set_solver.
Qed.

(** ** The gates do not depend on the map's order *)

Definition gives (tags : list str) (kv : str * json) (b : bool) (tag : str) : Prop := dbool kv.2 false = Some b /\ tag ∈ tags.

Definition tags_of (key : str) : list str := default [key] (legacyNotifyTags key).

Lemma gate_legacy_fold on tags gates t :
  fold_left (gate_legacy on) tags gates !! t = match gates !! t with Some b => Some b | None => if decide (t ∈ tags) then Some on else None end.
Proof.
  revert gates. induction tags as [|x tags IH]; intros gates; cbn [fold_left]; [by destruct (gates !! t)|]. rewrite IH. unfold gate_legacy.
  destruct (decide (t = x)) as [->|Hx].
  - rewrite (decide_True (P := x ∈ x :: tags)) by left. destruct (gates !! x) eqn:E; [by rewrite E|]. by rewrite lookup_insert_eq.
  - assert ((match gates !! x with Some _ => gates | None => <[x := on]> gates end) !! t = gates !! t) as -> by (destruct (gates !! x); [done|by rewrite lookup_insert_ne]).
    destruct (gates !! t); [done|]. apply decide_ext. set_solver.
Qed.

(** One entry, in the pass it belongs to. *)
Lemma gate_set_lookup gates kv t :
  gate_set gates kv !! t =
    match dbool kv.2 false with
    | None => gates !! t
    | Some on => if is_legacy kv.1 then match gates !! t with Some b => Some b | None => if decide (t ∈ tags_of kv.1) then Some on else None end
                 else if decide (t ∈ tags_of kv.1) then Some on else gates !! t
    end.
Proof.
  destruct kv as [k v]. unfold gate_set, is_legacy, tags_of. cbn [fst snd]. destruct (dbool v false) as [on|]; [|done].
  destruct (legacyNotifyTags k) as [tags|]; [apply gate_legacy_fold|]. cbn [default].
  destruct (decide (t = k)) as [->|]; [rewrite lookup_insert_eq; by rewrite decide_True by left|].
  rewrite lookup_insert_ne by done. rewrite decide_False; [done|]. set_solver.
Qed.

(** The entries with a value for [t]. *)
Definition speaks (t : str) (kv : str * json) (b : bool) : Prop := dbool kv.2 false = Some b /\ t ∈ tags_of kv.1.
Definition agree (t : str) (l : list (str * json)) : Prop :=
  forall kv kv' b b', kv ∈ l -> kv' ∈ l -> speaks t kv b -> speaks t kv' b' -> b = b'.

Lemma legacy_pass l t : (forall kv, kv ∈ l -> is_legacy kv.1 = true) -> agree t l -> forall gates b,
  fold_left gate_set l gates !! t = Some b <-> gates !! t = Some b \/ (gates !! t = None /\ exists kv, kv ∈ l /\ speaks t kv b).
Proof.
  induction l as [|kv l IH]; intros Hl Ha gates b; cbn [fold_left].
  { split; [by left|]. intros [?|(_ & kv & Hkv & _)]; [done|by apply not_elem_of_nil in Hkv]. }
  rewrite IH; [|intros; apply Hl; by right|intros k1 k2 b1 b2 ? ?; apply Ha; by right]. rewrite gate_set_lookup, Hl by left.
  destruct (gates !! t) as [x|] eqn:E.
  { assert (match dbool kv.2 false with Some _ => Some x | None => Some x end = Some x) as -> by by destruct (dbool _ _). naive_solver. }
  destruct (dbool kv.2 false) as [on|] eqn:Ed; [destruct (decide (t ∈ tags_of kv.1)) as [Ht|Ht]|].
  - split; [|intros [?|(_ & kv' & Hin & Hs)]; [done|left; f_equal; eapply (Ha kv kv'); [left|done|by split|done]]].
    intros [[= ->]|[? _]]; [|done]. right. split; [done|]. exists kv. split; [left|by split].
  - split; (intros [?|(_ & kv' & Hin & Hs)]; [done|right; split; [done|exists kv'; split; [|done]]]); [by right|].
    apply elem_of_cons in Hin as [->|?]; [|done]. by destruct Hs.
  - split; (intros [?|(_ & kv' & Hin & Hs)]; [done|right; split; [done|exists kv'; split; [|done]]]); [by right|].
    apply elem_of_cons in Hin as [->|?]; [|done]. destruct Hs as [Hs _]. by rewrite Ed in Hs.
Qed.

Lemma plain_pass l t : (forall kv, kv ∈ l -> is_legacy kv.1 = false) -> agree t l -> forall gates b,
  fold_left gate_set l gates !! t = Some b <-> (exists kv, kv ∈ l /\ speaks t kv b) \/ (gates !! t = Some b /\ forall kv b', kv ∈ l -> ~ speaks t kv b').
Proof.
  induction l as [|kv l IH]; intros Hl Ha gates b; cbn [fold_left].
  { split; [intros ?; right; split; [done|]; intros kv b' Hkv; by apply not_elem_of_nil in Hkv|].
    intros [(kv & Hkv & _)|[? _]]; [by apply not_elem_of_nil in Hkv|done]. }
  rewrite IH; [|intros; apply Hl; by right|intros k1 k2 b1 b2 ? ?; apply Ha; by right]. rewrite gate_set_lookup, Hl by left.
  assert (forall b', speaks t kv b' <-> dbool kv.2 false = Some b' /\ t ∈ tags_of kv.1) as Hs by done.
  split.
  - intros [(kv' & Hin & Hsp)|[Hg Hno]]; [left; exists kv'; split; [by right|done]|].
    destruct (dbool kv.2 false) as [on|] eqn:Ed; [destruct (decide (t ∈ tags_of kv.1))|].
    + left. exists kv. injection Hg as ->. split; [left|]. by apply Hs.
    + right. split; [done|]. intros kv' b' [->|Hin]%elem_of_cons; [|by apply Hno]. intros [_ ?]. done.
    + right. split; [done|]. intros kv' b' [->|Hin]%elem_of_cons; [|by apply Hno]. intros [Hx _]. by rewrite Ed in Hx.
  - intros [(kv' & Hin & Hsp)|[Hg Hno]].
    + destruct (decide (Exists (fun kv => t ∈ tags_of kv.1 /\ is_Some (dbool kv.2 false)) l)) as [Hex|Hne].
      * apply Exists_exists in Hex as (k2 & Hk2 & Ht2 & [b2 Hb2]). left. exists k2. split; [done|].
        assert (b2 = b) as <- by (eapply (Ha k2 kv'); [by right|done|by split|done]). by split.
      * right. assert (kv' = kv) as ->.
        { apply elem_of_cons in Hin as [->|Hin]; [done|]. exfalso. apply Hne, Exists_exists. exists kv'. destruct Hsp as [H1 H2]. split; [done|]. split; [done|by eexists]. }
        destruct Hsp as [H1 H2]. rewrite H1, decide_True by done. split; [done|]. intros k2 b2 Hk2 [H3 H4]. apply Hne, Exists_exists. exists k2.
        split; [done|]. split; [done|by eexists].
    + right. split; [|intros; apply Hno; by right]. destruct (dbool kv.2 false) as [on|] eqn:Ed; [|done]. rewrite decide_False; [done|].
      intros Ht. apply (Hno kv on); [left|by split].
Qed.

(** Which legacy name speaks for which tag. *)
Definition legacy_pairs : list (str * str) :=
  [(lit "pow", lit "system.pow"); (lit "history", lit "system.history"); (lit "join", lit "system.join"); (lit "join", lit "system.leave");
   (lit "leave", lit "system.leave"); (lit "date", lit "system.date")].

Lemma legacy_pair k t tags : legacyNotifyTags k = Some tags -> t ∈ tags -> (k, t) ∈ legacy_pairs.
Proof.
  unfold legacyNotifyTags, str_eqb. intros H Ht.
  repeat (case_bool_decide as E; [subst k; injection H as <-; repeat (apply elem_of_cons in Ht as [->|Ht]; [apply (bool_decide_unpack _); vm_compute; exact I|]);
    by apply not_elem_of_nil in Ht|clear E]).
  done.
Qed.

Lemma pairs_clash : forallb (fun p => forallb (fun q => negb (str_eqb p.2 q.2) || str_eqb p.1 q.1 ||
    (str_eqb p.1 (lit "join") && str_eqb q.1 (lit "leave")) || (str_eqb p.1 (lit "leave") && str_eqb q.1 (lit "join"))) legacy_pairs) legacy_pairs = true.
Proof. vm_compute. reflexivity. Qed.

Lemma same_key (l : list (str * json)) kv kv' : NoDup (map fst l) -> kv ∈ l -> kv' ∈ l -> kv.1 = kv'.1 -> kv = kv'.
Proof.
  induction l as [|x l IH]; [intros _ H; by apply not_elem_of_nil in H|]. cbn [map]. intros [Hx Hl]%NoDup_cons H1 H2 E.
  apply elem_of_cons in H1 as [->|H1]; apply elem_of_cons in H2 as [->|H2]; [done| | |by apply IH]; exfalso; apply Hx.
  - rewrite E. by apply (list_elem_of_fmap_2 fst).
  - rewrite <- E. by apply (list_elem_of_fmap_2 fst).
Qed.

Lemma entries_agree raw l t : NoDup (map fst raw) -> ~ (lit "join" ∈ map fst raw /\ lit "leave" ∈ map fst raw) -> (forall kv, kv ∈ l -> kv ∈ raw) ->
  (forall kv kv', kv ∈ l -> kv' ∈ l -> is_legacy kv.1 = is_legacy kv'.1) -> agree t l.
Proof.
  intros Hnd Hjl Hsub Hsame kv kv' b b' Hin Hin' [H1 H2] [H3 H4].
  assert (kv.1 = kv'.1) as E; [|assert (kv = kv') as <- by (apply (same_key raw); auto); congruence].
  specialize (Hsame kv kv' Hin Hin'). unfold is_legacy, tags_of in *.
  destruct (legacyNotifyTags kv.1) as [tags|] eqn:E1, (legacyNotifyTags kv'.1) as [tags'|] eqn:E2; try done; cbn [default id] in *.
  - pose proof pairs_clash as Hc. rewrite forallb_forall in Hc. specialize (Hc _ (proj1 (list_elem_of_In _ _) (legacy_pair _ _ _ E1 H2))).
    rewrite forallb_forall in Hc. specialize (Hc _ (proj1 (list_elem_of_In _ _) (legacy_pair _ _ _ E2 H4))). cbn [fst snd] in Hc.
    rewrite str_eqb_refl in Hc. cbn [negb orb] in Hc. assert (forall x, x ∈ raw -> x.1 ∈ map fst raw) as Hm by (intros x Hx; by apply (list_elem_of_fmap_2 fst)).
    apply orb_true_iff in Hc as [Hc|[Ha%str_eqb_eq Hb%str_eqb_eq]%andb_true_iff].
    + apply orb_true_iff in Hc as [Hc%str_eqb_eq|[Ha%str_eqb_eq Hb%str_eqb_eq]%andb_true_iff]; [done|]. exfalso. apply Hjl.
      rewrite <- Ha, <- Hb. split; apply Hm; auto.
    + exfalso. apply Hjl. rewrite <- Ha, <- Hb. split; apply Hm; auto.
  - apply list_elem_of_singleton in H2, H4. congruence.
Qed.

(** The muted kinds of a config do not depend on the order a map yields its
    entries in: any two orders of the same object give the same gates, an explicit
    tag winning over an old kind name, as long as the object does not use both old
    names that speak for the leave notices. *)
Theorem gates_ignore_map_order raw raw' : Permutation raw raw' -> NoDup (map fst raw) ->
  ~ (lit "join" ∈ map fst raw /\ lit "leave" ∈ map fst raw) -> NotifyGates raw = NotifyGates raw'.
Proof.
  intros Hp Hnd Hjl. assert (NoDup (map fst raw')) as Hnd' by (by rewrite <- Hp).
  assert (~ (lit "join" ∈ map fst raw' /\ lit "leave" ∈ map fst raw')) as Hjl' by (by rewrite <- Hp).
  assert (forall p (kv : str * json), kv ∈ List.filter p raw <-> kv ∈ List.filter p raw') as Hin.
  { intros p kv. rewrite !list_elem_of_In, !filter_In, <- !list_elem_of_In. by rewrite Hp. }
  assert (forall p (l : list (str * json)) kv, kv ∈ List.filter p l -> kv ∈ l /\ p kv = true) as Hf.
  { intros p l kv. rewrite list_elem_of_In, filter_In, <- list_elem_of_In. done. }
  assert (forall r b t, NoDup (map fst r) -> ~ (lit "join" ∈ map fst r /\ lit "leave" ∈ map fst r) ->
    agree t (List.filter (fun kv => Bool.eqb (is_legacy kv.1) b) r)) as Hag.
  { intros r b t H1 H2. apply (entries_agree r); [done|done|intros kv H; by apply Hf in H as [? _]|].
    intros kv kv' [_ E1]%Hf [_ E2]%Hf. apply Bool.eqb_prop in E1, E2. congruence. }
  assert (forall r, NotifyGates r = fold_left gate_set (List.filter (fun kv => Bool.eqb (is_legacy kv.1) true) r)
                       (fold_left gate_set (List.filter (fun kv => Bool.eqb (is_legacy kv.1) false) r) ∅)) as Hn.
  { intros r. unfold NotifyGates. rewrite (filter_ext (fun kv => negb (is_legacy kv.1)) (fun kv => Bool.eqb (is_legacy kv.1) false)) by (intros kv; by destruct (is_legacy kv.1)).
    by rewrite (filter_ext (fun kv : str * json => is_legacy kv.1) (fun kv => Bool.eqb (is_legacy kv.1) true)) by (intros kv; by destruct (is_legacy kv.1)). }
  assert (forall r kv b, kv ∈ List.filter (fun kv : str * json => Bool.eqb (is_legacy kv.1) b) r -> is_legacy kv.1 = b) as Hleg
    by (intros r kv b [_ E]%Hf; by apply Bool.eqb_prop in E).
  rewrite !Hn. apply map_eq. intros t. apply option_eq. intros b.
  assert (forall b, fold_left gate_set (List.filter (fun kv => Bool.eqb (is_legacy kv.1) false) raw) ∅ !! t = Some b <->
                    fold_left gate_set (List.filter (fun kv => Bool.eqb (is_legacy kv.1) false) raw') ∅ !! t = Some b) as Hplain.
  { intros b'. rewrite !(plain_pass (List.filter _ _)) by (try (by apply Hag); intros kv; apply Hleg). setoid_rewrite Hin. done. }
  pose proof (legacy_pass _ t (fun kv => Hleg raw kv true) (Hag raw true t Hnd Hjl)) as L1.
  pose proof (legacy_pass _ t (fun kv => Hleg raw' kv true) (Hag raw' true t Hnd' Hjl')) as L2.
  rewrite L1, L2. setoid_rewrite Hin. rewrite Hplain.
  assert (forall o o' : option bool, (forall b, o = Some b <-> o' = Some b) -> (o = None <-> o' = None)) as Hnone.
  { intros [x|] [y|] H; try done; [by pose proof (proj1 (H x) eq_refl)|by pose proof (proj2 (H y) eq_refl)]. }
  by rewrite (Hnone _ _ Hplain).
Qed.

Lemma gates_ignore_map_order_witness :
  let raw := [(lit "pow", JBool true); (lit "system.pow", JBool false); (lit "join", JBool false); (lit "date", JStr (lit "x"))] in
  NotifyGates raw = NotifyGates (rev raw) /\ NotifyGates raw !! lit "system.pow" = Some false /\ NotifyGates raw !! lit "system.leave" = Some false.
Proof.
  cbv zeta. split; [|by vm_compute]. apply gates_ignore_map_order.
  - apply Permutation_rev.
  - apply (bool_decide_unpack _). vm_compute. exact I.
  - apply (bool_decide_unpack _). vm_compute. exact I.
Defined.

(** With both names the order decides. *)
Lemma join_and_leave_race :
  let raw := [(lit "join", JBool false); (lit "leave", JBool true)] in
  NotifyGates raw !! lit "system.leave" = Some false /\ NotifyGates (rev raw) !! lit "system.leave" = Some true.
Proof. by vm_compute. Qed.

(** [null] is not skipped: it mutes. *)
Lemma null_mutes : NotifyGates [(lit "system.vote", JNull)] !! lit "system.vote" = Some false.
Proof. by vm_compute. Qed.

(** ** One switch, before and in a session *)

Lemma quiet_names_shape `{Unicode} quiet : quietTagNames quiet = [[]] \/ Forall (fun name => name <> [] /\ name ∈ AllTags) (quietTagNames quiet).
Proof.
  induction quiet as [|raw quiet IH]; [by right|]. cbn [quietTagNames]. cbv zeta. destruct (str_eqb _ (lit "all")); [by left|].
  destruct (HasTag AllTags (ToLower (TrimSpace raw))) eqn:Ht; [|done]. apply HasTag_spec in Ht.
  assert (ToLower (TrimSpace raw) <> []) as Hne by by apply tagTree_nonempty.
  destruct IH as [->|IH]; [by left|]. destruct (quietTagNames quiet) as [|[|c n] [|m l]] eqn:E; try (right; by apply Forall_cons_2).
  by left.
Qed.

Lemma quiet_names_muted `{Unicode} quiet x : quietNames quiet !! x = Some true <-> quietTagNames quiet = [[]] /\ x ∈ AllTags \/ quietTagNames quiet <> [[]] /\ x ∈ quietTagNames quiet.
Proof.
  unfold quietNames. destruct (quiet_names_shape quiet) as [->|Hf].
  - cbn [fold_left]. rewrite mute_all. case_decide; [|rewrite lookup_empty]; naive_solver.
  - assert (forall l m, Forall (fun name => name <> [] /\ name ∈ AllTags) l ->
      fold_left (fun muted name => match name with [] => fold_left mute AllTags muted | _ => mute muted name end) l m = fold_left mute l m) as ->.
    { induction l as [|n l IH]; intros m Hl; [done|]. apply Forall_cons in Hl as [[Hn _] Hl]. cbn [fold_left]. rewrite <- IH by done. by destruct n. }
    + rewrite mute_all. assert (quietTagNames quiet <> [[]]) by (intros E; rewrite E in Hf; by apply Forall_singleton in Hf as [? _]).
      case_decide; [|rewrite lookup_empty]; naive_solver.
    + done.
Qed.

Lemma config_muted cfg x : configMutedTags cfg !! x = Some true <-> x ∈ AllTags /\ NotifyTag cfg x = false.
Proof.
  unfold configMutedTags. rewrite mute_all. destruct (decide (x ∈ List.filter _ _)) as [Hx|Hx]; rewrite list_elem_of_In, filter_In, <- list_elem_of_In, negb_true_iff in Hx; [done|].
  rewrite lookup_empty. naive_solver.
Qed.

Lemma config_muted_only cfg x b : configMutedTags cfg !! x = Some b -> b = true.
Proof. unfold configMutedTags. rewrite mute_all. case_decide; [congruence|by rewrite lookup_empty]. Qed.

Lemma apply_quiet_muted `{Unicode} n quiet x : (forall x, nt_Muted n !! x = Some true -> x ∈ AllTags) ->
  nt_PowMinTier (applyQuietFlags n quiet) = nt_PowMinTier n /\
  (nt_Muted (applyQuietFlags n quiet) !! x = Some true <-> nt_Muted n !! x = Some true \/ quietNames quiet !! x = Some true).
Proof.
  intros Hn. rewrite quiet_names_muted. unfold applyQuietFlags. destruct (quiet_names_shape quiet) as [->|Hf].
  - cbn [fold_left apply_quiet notifySetAll nt_Muted nt_PowMinTier]. split; [done|]. rewrite mute_all. specialize (Hn x). case_decide; [|rewrite lookup_empty]; naive_solver.
  - assert (quietTagNames quiet <> [[]]) as Hne by (intros E; rewrite E in Hf; by apply Forall_singleton in Hf as [? _]).
    revert Hne Hf. generalize (quietTagNames quiet). intros l Hne Hf.
    assert (fold_left apply_quiet l n = mkNotices (fold_left mute l (nt_Muted n)) (nt_PowMinTier n)) as ->.
    { clear Hne Hn. revert n. induction Hf as [|nm l [Hnm Hin] _ IH]; intros n; [by destruct n|]. cbn [fold_left].
      destruct nm as [|c nm]; [done|]. unfold apply_quiet at 2, notifySetTag. apply HasTag_spec in Hin. rewrite Hin. cbn [negb snd]. by rewrite IH. }
    cbn [nt_Muted nt_PowMinTier]. split; [done|]. rewrite mute_all. case_decide; naive_solver.
Qed.

Lemma blocked_ext tags tags' m m' : tags <> [] -> tags' <> [] -> (forall x, tag_node tags x <-> tag_node tags' x) ->
  (forall x, m !! x = Some true <-> m' !! x = Some true) ->
  match BlockedBy tags m with [] => true | _ => false end = match BlockedBy tags' m' with [] => true | _ => false end.
Proof.
  intros H1 H2 Hn Hm. destruct (BlockedBy_spec tags m) as [_ S1]. destruct (BlockedBy_spec tags' m') as [_ S2].
  destruct (BlockedBy tags m) as [|x l], (BlockedBy tags' m') as [|y k]; try done; exfalso.
  - apply (not_elem_of_nil y), S1. destruct (proj1 (S2 y) ltac:(left)) as (_ & A & B). split; [done|]. split; [by apply Hm|by apply Hn].
  - apply (not_elem_of_nil x), S2. destruct (proj1 (S1 x) ltac:(left)) as (_ & A & B). split; [done|]. split; [by apply Hm|by apply Hn].
Qed.

(** One switch rules the notice about solving a challenge: before there is a
    session the join gate shows it exactly when the session that is then built from
    the same config and the same --quiet names would, subtree rule, "all" and tier
    floor included. *)
Theorem gate_notice_follows_the_session `{Unicode} cfg quiet tier : is_Some cfg \/ 1 <= tier ->
  notifyPowWanted cfg quiet tier = PowLive (applyQuietFlags (notifyStateFromConfig cfg) quiet) tier.
Proof.
  intros Hc. destruct (apply_quiet_muted (notifyStateFromConfig cfg) quiet TagRoot) as [Hp _]; [intros x Hx; by apply config_muted in Hx as [? _]|].
  unfold notifyPowWanted, PowLive, PowAllowed, TagsAllowed. rewrite Hp. cbn [notifyStateFromConfig nt_PowMinTier].
  set (muted := match cfg with Some _ => _ | None => _ end).
  assert (forall x, muted !! x = Some true <-> nt_Muted (applyQuietFlags (notifyStateFromConfig cfg) quiet) !! x = Some true) as Hm.
  { intros x. destruct (apply_quiet_muted (notifyStateFromConfig cfg) quiet x) as [_ ->]; [intros y Hy; by apply config_muted in Hy as [? _]|].
    cbn [notifyStateFromConfig nt_Muted]. unfold muted. destruct cfg as [c|].
    - rewrite lookup_union_Some_raw. pose proof (config_muted_only (Some c) x) as Ho. destruct (configMutedTags (Some c) !! x) as [b|]; [rewrite (Ho b eq_refl)|]; naive_solver.
    - split; [by right|]. intros [[_ Hx]%config_muted|]; [done|done]. }
  assert (forall x, tag_node (WithTags [TagPow]) x <-> tag_node [TagPow] x) as Hn.
  { intros x. change (WithTags [TagPow]) with [TagRoot; TagPow]. unfold tag_node. split; intros (t & Ht & Hx); exists t; (split; [|exact Hx]); rewrite ?elem_of_cons in *; naive_solver. }
  rewrite <- (blocked_ext (WithTags [TagPow]) [TagPow] muted _ ltac:(done) ltac:(done) Hn Hm).
  destruct (BlockedBy (WithTags [TagPow]) muted); [|done]. cbn [andb]. destruct cfg; [done|]. destruct Hc as [[? [=]]|Hc]. cbn. symmetry. apply Z.leb_le. lia.
Qed.

Lemma gate_notice_follows_the_session_witness :
  let cfg := Some (mkUI {[ lit "system.pow" := false ]} (Some 2)) in
  notifyPowWanted (U := sample_unicode) cfg [] 3 = PowLive (applyQuietFlags (U := sample_unicode) (notifyStateFromConfig cfg) []) 3 /\
  notifyPowWanted (U := sample_unicode) cfg [] 3 = false /\ notifyPowWanted (U := sample_unicode) (Some (mkUI ∅ (Some 2))) [lit "System.Vote"] 3 = true.
Proof.
  cbv zeta. split; [|by vm_compute]. apply (gate_notice_follows_the_session (H := sample_unicode)). left. by eexists.
Defined.

(** Without a config a tier below one is announced by the gate and not by a
    session. *)
Lemma gate_notice_without_config `{Unicode} : notifyPowWanted None [] 0 = true /\ PowLive (notifyStateFromConfig None) 0 = false.
Proof. by vm_compute. Qed.
