(* ===== verification/NetIP.v ===== *)
(** IP addresses as Go's [net] and [net/netip] have them: parsing, printing,
    masks, networks and [SplitHostPort], with the round trip of an address through
    its text and the case-blindness of the parser. *)

From S2P Require Import Prelude Bytes Utf8.
Local Open Scope Z_scope.

(** * Addresses *)

(** [net.IP]: 4 or 16 byte values. *)
Abbreviation IP := (list Z).

Definition is_byte (z : Z) : Prop := 0 <= z < 256.
Definition v4InV6Prefix : IP := [0; 0; 0; 0; 0; 0; 0; 0; 0; 0; 255; 255].

Definition To4 (ip : IP) : option IP :=
  if (length ip =? 4)%nat then Some ip
  else if (length ip =? 16)%nat && bool_decide (take 12 ip = v4InV6Prefix) then Some (drop 12 ip)
  else None.

(** ** Parsing ([netip.ParseAddr]) *)

Fixpoint v4_fields (prev : option ascii) (s : str) (fields : list Z) (val : Z) (digLen : nat) : option (list Z) :=
  match s with
  | [] => if (length fields <? 3)%nat then None else Some (fields ++ [val])
  | c :: s' =>
      if is_digit c then
        if (digLen =? 1)%nat && (val =? 0) then None
        else let val := val * 10 + (byte_val c - 48) in
             if 255 <? val then None else v4_fields (Some c) s' fields val (S digLen)
      else if byte_eqb c "."%char then
        match prev, s' with
        | None, _ | _, [] => None
        | Some p, _ =>
            if byte_eqb p "."%char then None
            else if (length fields =? 3)%nat then None
            else v4_fields (Some c) s' (fields ++ [val]) 0 0
        end
      else None
  end.

Definition parse4 (s : str) : option (list Z) := v4_fields None s [] 0 0.

(** At most four hex digits: how many, their value and what follows. *)
Fixpoint hex_run (off : nat) (acc : Z) (s : str) : option (nat * Z * str) :=
  match s with
  | c :: s' =>
      match hex_val c with
      | Some d => if (3 <? off)%nat then None else hex_run (S off) (acc * 16 + d) s'
      | None => Some (off, acc, s)
      end
  | [] => Some (off, acc, s)
  end.

(** The groups of an IPv6 address: the bytes read, the place of the ellipsis and
    the rest.  Each round but the last reads two bytes, so eight fill sixteen. *)
Fixpoint v6_groups (fuel : nat) (ip : list Z) (ellipsis : option nat) (s : str) : option (list Z * option nat * str) :=
  match fuel with
  | O => Some (ip, ellipsis, s)
  | S fuel' =>
      match hex_run 0 0 s with
      | None | Some (O, _, _) => None
      | Some (_, acc, rest) =>
          let ip' := ip ++ [acc / 256; acc mod 256] in
          match rest with
          | [] => Some (ip', ellipsis, [])
          | c :: s1 =>
              if byte_eqb c "."%char then
                if match ellipsis with None => negb (length ip =? 12)%nat | Some _ => false end then None
                else if (16 <? length ip + 4)%nat then None
                else match parse4 s with Some f => Some (ip ++ f, ellipsis, []) | None => None end
              else if negb (byte_eqb c ":"%char) then None
              else match s1 with
              | [] => None
              | d :: s2 =>
                  if byte_eqb d ":"%char then
                    match ellipsis with
                    | Some _ => None
                    | None => match s2 with
                              | [] => Some (ip', Some (length ip'), [])
                              | _ => v6_groups fuel' ip' (Some (length ip')) s2
                              end
                    end
                  else v6_groups fuel' ip' ellipsis s1
              end
          end
      end
  end.

Definition expand (ip : list Z) (ellipsis : option nat) : option IP :=
  if (length ip <? 16)%nat then
    match ellipsis with
    | None => None
    | Some e => Some (take e ip ++ replicate (16 - length ip) 0 ++ drop e ip)
    end
  else match ellipsis with Some _ => None | None => Some ip end.

(** An address without a zone; a zone is refused by every caller here. *)
Definition parse6 (s : str) : option IP :=
  match cut_byte "%"%char s with
  | Some _ => None
  | None =>
      let groups := match s with
                    | c :: d :: s' =>
                        if byte_eqb c ":"%char && byte_eqb d ":"%char then
                          match s' with [] => Some ([], Some O, []) | _ => v6_groups 8 [] (Some O) s' end
                        else v6_groups 8 [] None s
                    | _ => v6_groups 8 [] None s
                    end in
      match groups with
      | Some (ip, ellipsis, []) => expand ip ellipsis
      | _ => None
      end
  end.

Inductive Addr := Addr4 (b : list Z) | Addr6 (b : IP).

(** The first dot or colon decides the family. *)
Fixpoint addr_family (s : str) : option bool :=
  match s with
  | [] => None
  | c :: s' =>
      if byte_eqb c "."%char then Some true
      else if byte_eqb c ":"%char then Some false
      else if byte_eqb c "%"%char then None
      else addr_family s'
  end.

Definition ParseAddr (s : str) : option Addr :=
  match addr_family s with
  | Some true => Addr4 <$> parse4 s
  | Some false => Addr6 <$> parse6 s
  | None => None
  end.

Definition As16 (a : Addr) : IP := match a with Addr4 b => v4InV6Prefix ++ b | Addr6 b => b end.
Definition BitLen (a : Addr) : Z := match a with Addr4 _ => 32 | Addr6 _ => 128 end.

Definition ParseIP (s : str) : option IP := As16 <$> ParseAddr s.

(** ** Printing ([IP.String]) *)

Definition dotted (b : list Z) : str :=
  match b with
  | [a; b; c; d] => utoa a ++ "."%char :: utoa b ++ "."%char :: utoa c ++ "."%char :: utoa d
  | _ => []
  end.

Definition hex16 (x : Z) : str :=
  (if 4096 <=? x then [hex_digit (x / 4096)] else []) ++
  (if 256 <=? x then [hex_digit (x / 256 mod 16)] else []) ++
  (if 16 <=? x then [hex_digit (x / 16 mod 16)] else []) ++
  [hex_digit (x mod 16)].

Fixpoint groups_of (ip : IP) : list Z :=
  match ip with a :: b :: ip' => a * 256 + b :: groups_of ip' | _ => [] end.

Fixpoint zero_run (g : list Z) : nat := match g with x :: g' => if x =? 0 then S (zero_run g') else O | [] => O end.

(** The first of the longest runs of two or more zero groups, as [zeroStart] and
    [zeroEnd]; both are 255 when there is none. *)
Fixpoint longest_zeros (i : nat) (g : list Z) (best : nat * nat) : nat * nat :=
  match g with
  | [] => best
  | _ :: g' =>
      let l := zero_run g in
      longest_zeros (S i) g' (if (2 <=? l)%nat && (best.2 - best.1 <? l)%nat then (i, i + l)%nat else best)
  end.

(** The loop over [i], eight rounds at most. *)
Fixpoint write6 (fuel : nat) (zs ze i : nat) (g : list Z) : str :=
  match fuel with
  | O => []
  | S fuel' =>
      if (8 <=? i)%nat then []
      else if (i =? zs)%nat then
        lit "::" ++ (if (8 <=? ze)%nat then [] else hex16 (nth ze g 0) ++ write6 fuel' zs ze (S ze) g)
      else (if (0 <? i)%nat then lit ":" else []) ++ hex16 (nth i g 0) ++ write6 fuel' zs ze (S i) g
  end.

Definition string6 (ip : IP) : str :=
  let g := groups_of ip in
  let '(zs, ze) := longest_zeros 0 g (255, 255)%nat in write6 8 zs ze 0 g.

Definition IP_String (ip : IP) : str := match To4 ip with Some b => dotted b | None => string6 ip end.

(** ** Networks *)

Fixpoint mask_bytes (l : nat) (n : Z) : list Z :=
  match l with
  | O => []
  | S l' => if 8 <=? n then 255 :: mask_bytes l' (n - 8) else 255 - Z.shiftr 255 n :: mask_bytes l' 0
  end.

Definition CIDRMask (ones : Z) (bits : Z) : list Z := mask_bytes (Z.to_nat (bits / 8)) ones.

Definition and_bytes (a b : list Z) : list Z := zip_with Z.land a b.

(** [IP.Mask]; a nil result is [None]. *)
Definition Mask (ip : IP) (mask : list Z) : option IP :=
  let mask := if (length mask =? 16)%nat && (length ip =? 4)%nat && bool_decide (take 12 mask = replicate 12 255) then drop 12 mask else mask in
  let ip := if (length mask =? 4)%nat && (length ip =? 16)%nat && bool_decide (take 12 ip = v4InV6Prefix) then drop 12 ip else ip in
  if (length ip =? length mask)%nat then Some (and_bytes ip mask) else None.

Record IPNet := mkIPNet { n_IP : IP; n_Mask : list Z }.

(** A count below [0xFFFFFF], and what follows its digits. *)
Fixpoint dtoi (i : nat) (n : Z) (s : str) : option (Z * nat * str) :=
  match s with
  | c :: s' =>
      if is_digit c then let n := n * 10 + (byte_val c - 48) in if 16777215 <=? n then None else dtoi (S i) n s'
      else Some (n, i, s)
  | [] => Some (n, i, s)
  end.

Definition ParseCIDR (s : str) : option (IP * IPNet) :=
  match cut_byte "/"%char s with
  | None => None
  | Some (addr, mask) =>
      match ParseAddr addr with
      | None => None
      | Some a =>
          match dtoi 0 0 mask with
          | Some (n, S _, []) =>
              if BitLen a <? n then None
              else let m := CIDRMask n (BitLen a) in Some (As16 a, mkIPNet (default [] (Mask (As16 a) m)) m)
          | _ => None
          end
      end
  end.

(** [networkNumberAndMask]. *)
Definition net_number (n : IPNet) : option (IP * list Z) :=
  match (match To4 (n_IP n) with Some b => Some b | None => if (length (n_IP n) =? 16)%nat then Some (n_IP n) else None end) with
  | None => None
  | Some ip =>
      if (length (n_Mask n) =? 4)%nat then if (length ip =? 4)%nat then Some (ip, n_Mask n) else None
      else if (length (n_Mask n) =? 16)%nat then Some (ip, if (length ip =? 4)%nat then drop 12 (n_Mask n) else n_Mask n)
      else None
  end.

Definition Contains (n : IPNet) (ip : IP) : bool :=
  let ip := default ip (To4 ip) in
  match net_number n with
  | Some (nn, m) => (length ip =? length nn)%nat && bool_decide (and_bytes nn m = and_bytes ip m)
  | None => (length ip =? 0)%nat
  end.

(** ** [SplitHostPort], for its host; [None] is an error. *)
Definition has_byte (c : ascii) (s : str) : bool := match cut_byte c s with Some _ => true | None => false end.

Definition SplitHost (hostport : str) : option str :=
  match cut_last_byte ":"%char hostport with
  | None => None
  | Some (before, port) =>
      match hostport with
      | c :: rest =>
          if byte_eqb c "["%char then
            match cut_byte "]"%char rest with
            | None => None
            | Some (host, after) =>
                (* the first bracket just before the last colon *)
                if str_eqb after (":"%char :: port) && negb (has_byte "["%char rest) && negb (has_byte "]"%char port) then Some host else None
            end
          else if has_byte ":"%char before || has_byte "["%char hostport || has_byte "]"%char hostport then None
          else Some before
      | [] => None
      end
  end.

Example parse_ip_ex : map ParseIP [lit "1.2.3.4"; lit "1.2.3.04"; lit "::ffff:10.0.0.1"; lit "2606:4700::1"; lit "1::2::3"; lit "1:2:3:4:5:6:7::"; lit "fe80::1%eth0"; lit "::"]
  = [Some (v4InV6Prefix ++ [1; 2; 3; 4]); None; Some (v4InV6Prefix ++ [10; 0; 0; 1]); Some ([38; 6; 71; 0] ++ replicate 11 0 ++ [1]); None;
     Some [0; 1; 0; 2; 0; 3; 0; 4; 0; 5; 0; 6; 0; 7; 0; 0]; None; Some (replicate 16 0)].
Proof. vm_compute. reflexivity. Qed.

Example string_ex : map (fun s => IP_String <$> ParseIP s) [lit "2001:DB8:0:0:1:0:0:1"; lit "::ffff:7f00:1"; lit "0:0:0:0:0:0:0:0"; lit "1:0:2:0:0:0:3:4"; lit "1:2:3:4:5:6:0:0"; lit "1:2:3:4:5:6:7:0"]
  = [Some (lit "2001:db8::1:0:0:1"); Some (lit "127.0.0.1"); Some (lit "::"); Some (lit "1:0:2::3:4"); Some (lit "1:2:3:4:5:6::"); Some (lit "1:2:3:4:5:6:7:0")].
Proof. vm_compute. reflexivity. Qed.

Example split_ex : map SplitHost [lit "1.2.3.4:80"; lit "[::1]:443"; lit "::1:443"; lit "@"; lit "[::1]"] = [Some (lit "1.2.3.4"); Some (lit "::1"); None; None; None].
Proof. vm_compute. reflexivity. Qed.

Example contains_ex : match ParseCIDR (lit "173.245.48.0/20") with
  | Some (_, n) => map (fun s => Contains n (default [] (ParseIP s))) [lit "173.245.63.255"; lit "173.245.64.0"; lit "::ffff:173.245.48.1"; lit "::1"] = [true; false; true; false]
  | None => False end.
Proof. vm_compute. reflexivity. Qed.

(** * An address and its text *)

Lemma octet_text a : 0 <= a < 256 -> exists p n, is_digit p = true /\ forall prev t f, v4_fields prev (utoa a ++ t) f 0 0 = v4_fields (Some p) t f a n.
Proof.
  intros Ha. assert (a ∈ map Z.of_nat (seq 0 256)) as Hin by (apply list_elem_of_In, in_map_iff; exists (Z.to_nat a); split; [lia|apply in_seq; lia]).
  assert (Forall (fun a => exists p n, is_digit p = true /\ forall prev t f, v4_fields prev (utoa a ++ t) f 0 0 = v4_fields (Some p) t f a n) (map Z.of_nat (seq 0 256))) as H.
  { let l := eval vm_compute in (map Z.of_nat (seq 0 256)) in change (map Z.of_nat (seq 0 256)) with l.
    repeat (apply Forall_cons; split; [match goal with |- context [utoa ?a] => let u := eval vm_compute in (utoa a) in change (utoa a) with u end;
      do 2 eexists; split; [|intros; cbn; reflexivity]; reflexivity|]). apply Forall_nil. done. }
  by apply (proj1 (Forall_forall _ _) H).
Qed.

Lemma dot_step p t f v n : is_digit p = true -> t <> [] -> (length f <> 3)%nat ->
  v4_fields (Some p) ("."%char :: t) f v n = v4_fields (Some "."%char) t (f ++ [v]) 0 0.
Proof.
  intros Hp Ht Hf. cbn [v4_fields]. change (is_digit ".") with false. rewrite byte_eqb_refl. destruct t; [done|].
  rewrite byte_eqb_neq by (intros ->; done). by apply Nat.eqb_neq in Hf as ->.
Qed.

Lemma utoa_app_nonempty a t : utoa a ++ t <> [].
Proof. pose proof (utoa_nonempty a). destruct (utoa a); [done|]. done. Qed.

Lemma parse4_dotted b : length b = 4%nat -> Forall is_byte b -> parse4 (dotted b) = Some b.
Proof.
  destruct b as [|a [|b [|c [|d [|]]]]]; try done. intros _ H. apply Forall_cons in H as [Ha H]. apply Forall_cons in H as [Hb H].
  apply Forall_cons in H as [Hc H]. apply Forall_cons in H as [Hd _]. unfold parse4, dotted.
  destruct (octet_text a Ha) as (pa & na & Hpa & ->). rewrite dot_step by (done || apply utoa_app_nonempty).
  destruct (octet_text b Hb) as (pb & nb & Hpb & ->). rewrite dot_step by (done || apply utoa_app_nonempty).
  destruct (octet_text c Hc) as (pc & nc & Hpc & ->). rewrite dot_step by (done || apply utoa_nonempty).
  destruct (octet_text d Hd) as (pd & nd & Hpd & Hd'). specialize (Hd' (Some "."%char) []). rewrite app_nil_r in Hd'. by rewrite Hd'.
Qed.

Definition is_u16 (x : Z) : Prop := 0 <= x < 65536.

Definition not_hex_head (t : str) : Prop := match t with [] => True | c :: _ => hex_val c = None end.

Lemma hex_run_hex16 x t : is_u16 x -> not_hex_head t -> exists n, hex_run 0 0 (hex16 x ++ t) = Some (S n, x, t).
Proof.
  intros Hx Ht. assert (forall off acc, hex_run off acc t = Some (off, acc, t)) as Hend by (intros; destruct t as [|c t]; [done|]; cbn [hex_run]; by rewrite Ht).
  unfold is_u16 in Hx. unfold hex16.
  destruct (4096 <=? x) eqn:E1; [|destruct (256 <=? x) eqn:E2; [|destruct (16 <=? x) eqn:E3]].
  - replace (256 <=? x) with true by lia. replace (16 <=? x) with true by lia. cbn [app hex_run].
    rewrite !hex_val_digit by (Z.to_euclidean_division_equations; lia). cbn [Nat.ltb Nat.leb]. rewrite Hend. eexists. do 3 f_equal. Z.to_euclidean_division_equations; lia.
  - replace (16 <=? x) with true by lia. cbn [app hex_run].
    rewrite !hex_val_digit by (Z.to_euclidean_division_equations; lia). cbn [Nat.ltb Nat.leb]. rewrite Hend. eexists. do 3 f_equal. Z.to_euclidean_division_equations; lia.
  - cbn [app hex_run]. rewrite !hex_val_digit by (Z.to_euclidean_division_equations; lia). cbn [Nat.ltb Nat.leb]. rewrite Hend. eexists. do 3 f_equal. Z.to_euclidean_division_equations; lia.
  - cbn [app hex_run]. rewrite !hex_val_digit by (Z.to_euclidean_division_equations; lia). cbn [Nat.ltb Nat.leb]. rewrite Hend. eexists. do 3 f_equal. Z.to_euclidean_division_equations; lia.
Qed.

Definition hex_char (c : ascii) : bool := match hex_val c with Some _ => true | None => false end.

Lemma hex16_chars x : is_u16 x -> forallb hex_char (hex16 x) = true /\ hex16 x <> [].
Proof.
  intros Hx. unfold is_u16 in Hx. assert (forall n, 0 <= n < 16 -> hex_char (hex_digit n) = true) as H by (intros; unfold hex_char; by rewrite hex_val_digit).
  unfold hex16. split; [|by repeat step_if].
  rewrite !forallb_app. repeat (apply andb_true_iff; split); repeat step_if; cbn [forallb]; rewrite ?H by (Z.to_euclidean_division_equations; lia); done.
Qed.

(** ** Groups between colons *)

Fixpoint colon_join (gs : list Z) : str :=
  match gs with [] => [] | [x] => hex16 x | x :: gs' => hex16 x ++ ":"%char :: colon_join gs' end.

Definition group_bytes (gs : list Z) : list Z := flat_map (fun x => [x / 256; x mod 256]) gs.

Lemma colon_join_head gs : gs <> [] -> Forall is_u16 gs -> exists c t, colon_join gs = c :: t /\ byte_eqb c ":"%char = false /\ hex_char c = true.
Proof.
  destruct gs as [|x gs]; [done|]. intros _ H. apply Forall_cons in H as [Hx _]. destruct (hex16_chars x Hx) as [Hc Hn].
  assert (exists t, colon_join (x :: gs) = hex16 x ++ t) as [t ->] by (destruct gs; [exists []; by rewrite app_nil_r|by eexists]).
  destruct (hex16 x) as [|c h]; [done|]. exists c, (h ++ t). cbn in Hc. apply andb_true_iff in Hc as [Hc _]. split; [done|]. split; [|done].
  apply byte_eqb_neq. by intros ->.
Qed.

Lemma colon_join_cons x gs : gs <> [] -> colon_join (x :: gs) = hex16 x ++ ":"%char :: colon_join gs.
Proof. by destruct gs. Qed.

(** One group followed by a colon and more. *)
Lemma group_step fuel ip ell x c t : is_u16 x -> byte_eqb c ":"%char = false ->
  v6_groups (S fuel) ip ell (hex16 x ++ ":"%char :: c :: t) = v6_groups fuel (ip ++ [x / 256; x mod 256]) ell (c :: t).
Proof.
  intros Hx Hc. destruct (hex_run_hex16 x (":"%char :: c :: t) Hx) as [n Hr]; [done|]. cbn [v6_groups]. rewrite Hr.
  rewrite (byte_eqb_neq ":" ".") by done. rewrite byte_eqb_refl. cbn [negb]. by rewrite Hc.
Qed.

Lemma v6_tail gs : gs <> [] -> Forall is_u16 gs -> forall fuel ip ell, (length gs <= fuel)%nat ->
  v6_groups fuel ip ell (colon_join gs) = Some (ip ++ group_bytes gs, ell, []).
Proof.
  induction gs as [|x gs IH]; [done|]. intros _ H fuel ip ell Hf. apply Forall_cons in H as [Hx H]. destruct fuel as [|fuel]; [cbn in Hf; lia|].
  destruct (decide (gs = [])) as [->|Hg].
  - cbn [colon_join]. destruct (hex_run_hex16 x [] Hx I) as [n Hr]. rewrite app_nil_r in Hr. cbn [v6_groups]. by rewrite Hr.
  - rewrite colon_join_cons by done. destruct (colon_join_head gs Hg H) as (c & t & E & Hc & _). rewrite E, group_step, <- E by done.
    rewrite IH by (done || (cbn in Hf; lia)). by rewrite <- app_assoc.
Qed.

Lemma v6_head gs1 gs2 : gs1 <> [] -> Forall is_u16 gs1 -> Forall is_u16 gs2 -> forall fuel ip, (length gs1 + length gs2 <= fuel)%nat ->
  v6_groups fuel ip None (colon_join gs1 ++ lit "::" ++ colon_join gs2) = Some (ip ++ group_bytes gs1 ++ group_bytes gs2, Some (length ip + length (group_bytes gs1))%nat, []).
Proof.
  intros Hn H1 H2. induction gs1 as [|x gs1 IH]; [done|]. intros fuel ip Hf. apply Forall_cons in H1 as [Hx H1]. destruct fuel as [|fuel]; [cbn in Hf; lia|].
  destruct (decide (gs1 = [])) as [->|Hg].
  - cbn [colon_join app]. destruct (hex_run_hex16 x (lit "::" ++ colon_join gs2) Hx) as [n Hr]; [done|]. cbn [v6_groups]. rewrite Hr. cbn [lit String.list_ascii_of_string app].
    rewrite (byte_eqb_neq ":" ".") by done. rewrite byte_eqb_refl. cbn [negb].
    assert (length (ip ++ [x / 256; x mod 256]) = (length ip + length (group_bytes [x]))%nat) as Hl by (rewrite length_app; done). rewrite Hl.
    destruct (decide (gs2 = [])) as [->|Hg2]; [done|]. destruct (colon_join_head gs2 Hg2 H2) as (c & t & E & _). rewrite E, <- E.
    rewrite v6_tail by (done || (cbn in Hf; lia)). by rewrite <- app_assoc.
  - rewrite colon_join_cons by done. destruct (colon_join_head gs1 Hg H1) as (c & t & E & Hc & _). rewrite <- app_assoc, E. cbn [app].
    rewrite group_step by done. change (c :: t ++ lit "::" ++ colon_join gs2) with ((c :: t) ++ lit "::" ++ colon_join gs2). rewrite <- E, IH by (done || (cbn in Hf; lia)).
    rewrite length_app, <- app_assoc. cbn [group_bytes flat_map app length]. fold (group_bytes gs1).
    by rewrite <- Nat.add_assoc.
Qed.

(** ** The longest run of zeros *)

Lemma zero_run_spec g : exists g', g = replicate (zero_run g) 0 ++ g'.
Proof.
  induction g as [|x g [g' IH]]; [by exists []|]. cbn [zero_run]. destruct (x =? 0) eqn:E; [|by eexists]. exists g'. cbn [replicate app]. rewrite <- IH. f_equal. lia.
Qed.

Definition zero_gap (G : list Z) (z : nat * nat) : Prop :=
  z = (255, 255)%nat \/ exists g1 n g2, G = g1 ++ replicate (S (S n)) 0 ++ g2 /\ z = (length g1, length g1 + S (S n))%nat.

Lemma longest_zeros_gap pre g best : zero_gap (pre ++ g) best -> zero_gap (pre ++ g) (longest_zeros (length pre) g best).
Proof.
  revert pre best. induction g as [|x g IH]; intros pre best H; [done|]. cbn [longest_zeros].
  replace (pre ++ x :: g) with ((pre ++ [x]) ++ g) in * by by rewrite <- app_assoc.
  replace (S (length pre)) with (length (pre ++ [x])) by (rewrite length_app; cbn; lia).
  apply IH. destruct (_ && _) eqn:E; [|done]. right. destruct (zero_run_spec (x :: g)) as [g' Hg]. apply andb_true_iff in E as [E _]. apply Nat.leb_le in E.
  destruct (zero_run (x :: g)) as [|[|n]] eqn:Ez; [lia|lia|]. exists pre, n, g'. rewrite <- Hg, <- app_assoc. split; [done|]. done.
Qed.

(** What the loop writes. *)
Lemma write6_plain g : length g = 8%nat -> write6 8 255 255 0 g = colon_join g.
Proof.
  destruct g as [|a [|b [|c [|d [|e [|f [|h [|i [|]]]]]]]]]; try done. intros _. cbn. by rewrite app_nil_r, <- ?app_assoc.
Qed.

Lemma write6_gap g zs ze : length g = 8%nat -> (S (S zs) <= ze <= 8)%nat ->
  write6 8 zs ze 0 g = colon_join (take zs g) ++ lit "::" ++ colon_join (drop ze g).
Proof.
  destruct g as [|a [|b [|c [|d [|e [|f [|h [|i [|]]]]]]]]]; try done. intros _ H.
  destruct zs as [|[|[|[|[|[|[|]]]]]]]; try lia; destruct ze as [|[|[|[|[|[|[|[|[|]]]]]]]]]; try lia; cbn -[hex16]; repeat (progress (rewrite ?app_nil_r, <- ?app_assoc; cbn [app])); reflexivity.
Qed.

(** ** IPv6 *)

Lemma groups_of_spec ip : length ip = 16%nat -> Forall is_byte ip ->
  length (groups_of ip) = 8%nat /\ Forall is_u16 (groups_of ip) /\ group_bytes (groups_of ip) = ip.
Proof.
  intros Hl H. do 16 (destruct ip as [|? ip]; [done|]). destruct ip; [|done]. clear Hl. cbn [groups_of]. split; [done|].
  repeat (apply Forall_cons in H as [? H]). unfold is_byte in *. split.
  - repeat (apply Forall_cons_2; [unfold is_u16; lia|]). by apply Forall_nil.
  - cbn [group_bytes flat_map app]. assert (forall a b, 0 <= b < 256 -> (a * 256 + b) / 256 = a /\ (a * 256 + b) mod 256 = b) as Hp by (intros; Z.to_euclidean_division_equations; lia).
    repeat (match goal with |- context [(?a * 256 + ?b) / 256] => destruct (Hp a b) as [-> ->]; [done|] end). done.
Qed.

Lemma group_bytes_length g : length (group_bytes g) = (2 * length g)%nat.
Proof. unfold group_bytes. induction g as [|x g IH]; [done|]. cbn [flat_map]. rewrite length_app, IH. cbn [length]. lia. Qed.

Lemma group_bytes_app g1 g2 : group_bytes (g1 ++ g2) = group_bytes g1 ++ group_bytes g2.
Proof. apply flat_map_app. Qed.

Lemma group_bytes_zeros n : group_bytes (replicate n 0) = replicate (2 * n) 0.
Proof. induction n as [|n IH]; [done|]. cbn [replicate]. replace (2 * S n)%nat with (S (S (2 * n))) by lia. cbn [replicate]. rewrite <- IH. done. Qed.

(** The two texts of an address: its groups, or its groups around a gap. *)
Lemma string6_shape ip : length ip = 16%nat -> Forall is_byte ip -> exists g1 n g2, Forall is_u16 (g1 ++ g2) /\ ip = group_bytes (g1 ++ replicate n 0 ++ g2) /\
  (length g1 + n + length g2 = 8)%nat /\ ((n = 0%nat /\ g2 = [] /\ string6 ip = colon_join g1) \/ (2 <= n)%nat /\ string6 ip = colon_join g1 ++ lit "::" ++ colon_join g2).
Proof.
  intros Hl Hb. destruct (groups_of_spec ip Hl Hb) as (Hg & Hu & Hi). unfold string6.
  destruct (longest_zeros_gap [] (groups_of ip) (255, 255)%nat ltac:(by left)) as [E|(g1 & n & g2 & E & Ez)]; cbn [app length] in *.
  - rewrite E. exists (groups_of ip), 0%nat, []. rewrite !app_nil_r, write6_plain by done. split; [done|]. split; [done|]. cbn. split; [lia|]. by left.
  - rewrite Ez. exists g1, (S (S n)), g2. rewrite E in Hg, Hu, Hi. rewrite !length_app, length_replicate in Hg. apply Forall_app in Hu as [Hu1 Hu]. apply Forall_app in Hu as [_ Hu2].
    split; [by apply Forall_app|]. split; [done|]. split; [lia|]. right. split; [lia|].
    rewrite write6_gap by (rewrite ?E, ?length_app, ?length_replicate; lia). rewrite E, take_app_length. do 2 f_equal.
    rewrite app_assoc, drop_app_length'; [done|]. rewrite length_app, length_replicate. lia.
Qed.

Definition addr_char (c : ascii) : bool := hex_char c || byte_eqb c ":"%char || byte_eqb c "."%char.
Definition group_char (c : ascii) : bool := hex_char c || byte_eqb c ":"%char.

Lemma colon_join_chars g : Forall is_u16 g -> forallb group_char (colon_join g) = true.
Proof.
  induction g as [|x g IH]; [done|]. intros H. apply Forall_cons in H as [Hx H]. destruct (hex16_chars x Hx) as [Hc _].
  assert (forallb group_char (hex16 x) = true) as Hc' by (apply forallb_forall; intros c Hin; unfold group_char; apply (proj1 (forallb_forall _ _) Hc) in Hin; by rewrite Hin).
  destruct (decide (g = [])) as [->|Hg]; [done|]. rewrite colon_join_cons by done. rewrite forallb_app. cbn [forallb]. by rewrite Hc', IH.
Qed.

Lemma string6_chars ip : length ip = 16%nat -> Forall is_byte ip -> forallb group_char (string6 ip) = true /\ ":"%char ∈ string6 ip.
Proof.
  intros Hl Hb. destruct (string6_shape ip Hl Hb) as (g1 & n & g2 & Hu & _ & Hlen & Hs). apply Forall_app in Hu as [Hu1 Hu2].
  destruct Hs as [(-> & -> & ->)|[_ ->]].
  - split; [by apply colon_join_chars|]. destruct g1 as [|x [|y g1]]; try (cbn in Hlen; lia). rewrite colon_join_cons by done. apply elem_of_app. right. left.
  - rewrite !forallb_app, !colon_join_chars by done. split; [done|]. apply elem_of_app. right. left.
Qed.

Lemma family6 s : forallb group_char s = true -> ":"%char ∈ s -> addr_family s = Some false.
Proof.
  induction s as [|c s IH]; [intros _ H; by apply not_elem_of_nil in H|]. cbn [forallb addr_family]. intros [Hc Hs]%andb_true_iff H.
  rewrite (byte_eqb_neq c ".") by (intros ->; done). destruct (byte_eqb c ":") eqn:E; [done|]. rewrite (byte_eqb_neq c "%") by (intros ->; done).
  apply IH; [done|]. apply elem_of_cons in H as [<-|H]; [by rewrite byte_eqb_refl in E|done].
Qed.

Lemma no_byte c s : c ∉ s -> cut_byte c s = None.
Proof.
  induction s as [|d s IH]; [done|]. intros [H1 H2]%not_elem_of_cons. cbn [cut_byte]. rewrite byte_eqb_neq by done. by rewrite IH.
Qed.

Lemma parse6_string6 ip : length ip = 16%nat -> Forall is_byte ip -> parse6 (string6 ip) = Some ip.
Proof.
  intros Hl Hb. destruct (string6_chars ip Hl Hb) as [Hc _]. destruct (string6_shape ip Hl Hb) as (g1 & n & g2 & Hu & Hip & Hlen & Hs).
  unfold parse6. rewrite no_byte by (intros Hin; apply list_elem_of_In in Hin; by apply (proj1 (forallb_forall _ _) Hc) in Hin).
  apply Forall_app in Hu as [Hu1 Hu2]. rewrite !group_bytes_app, group_bytes_zeros in Hip.
  assert (forall c s, byte_eqb c ":" = false -> (match c :: s with c :: d :: s' => if byte_eqb c ":" && byte_eqb d ":" then match s' with [] => Some ([], Some 0%nat, []) | _ => v6_groups 8 [] (Some 0%nat) s' end
    else v6_groups 8 [] None (c :: s) | _ => v6_groups 8 [] None (c :: s) end) = v6_groups 8 [] None (c :: s)) as Hplain by (intros c [|d s] E; [done|]; by rewrite E).
  destruct Hs as [(-> & -> & ->)|[Hn ->]].
  - assert (g1 <> []) as Hg1 by (intros ->; cbn in Hlen; lia). destruct (colon_join_head g1 Hg1 Hu1) as (c & t & E & Ec & _).
    rewrite E. rewrite Hplain by done. rewrite <- E, v6_tail by (done || (cbn in Hlen; lia)). cbn [app replicate group_bytes flat_map] in *. rewrite app_nil_r in Hip.
    unfold expand. rewrite <- Hip, Hl. done.
  - assert (expand (group_bytes g1 ++ group_bytes g2) (Some (length (group_bytes g1))) = Some ip) as Hex.
    { unfold expand. rewrite length_app, !group_bytes_length. destruct (Nat.ltb_spec (2 * length g1 + 2 * length g2) 16); [|lia]. rewrite <- (group_bytes_length g1), take_app_length, drop_app_length.
      rewrite Hip. do 3 f_equal. rewrite group_bytes_length. f_equal. lia. }
    destruct (decide (g1 = [])) as [->|Hg1].
    + cbn [colon_join app lit String.list_ascii_of_string]. rewrite !byte_eqb_refl. cbn [andb]. destruct (decide (g2 = [])) as [->|Hg2]; [done|].
      destruct (colon_join_head g2 Hg2 Hu2) as (c & t & E & _). rewrite E, <- E. by rewrite v6_tail by (done || (cbn in Hlen; lia)).
    + destruct (colon_join_head g1 Hg1 Hu1) as (c & t & E & Ec & _). rewrite E. cbn [app]. rewrite Hplain by done.
      change (c :: t ++ lit "::" ++ colon_join g2) with ((c :: t) ++ lit "::" ++ colon_join g2). rewrite <- E, v6_head by (done || lia). done.
Qed.

(** ** Any address *)

Definition is_ip (ip : IP) : Prop := length ip = 16%nat /\ Forall is_byte ip.

Lemma family4 b : length b = 4%nat -> Forall is_byte b -> addr_family (dotted b) = Some true.
Proof.
  destruct b as [|a [|b [|c [|d [|]]]]]; try done. intros _ H. apply Forall_cons in H as [Ha _]. unfold dotted.
  pose proof (utoa_digits a ltac:(unfold is_byte in Ha; lia)) as Hd. induction (utoa a) as [|x s IH]; [done|]. apply Forall_cons in Hd as [Hx Hs].
  cbn [app addr_family]. rewrite !byte_eqb_neq by (intros ->; done). by apply IH.
Qed.

Lemma To4_spec ip b : length ip = 16%nat -> To4 ip = Some b -> ip = v4InV6Prefix ++ b /\ length b = 4%nat.
Proof.
  intros Hl. unfold To4. rewrite Hl. cbn [Nat.eqb andb]. case_bool_decide as E; [|done]. intros [= <-]. rewrite <- E, take_drop, length_drop, Hl. done.
Qed.

Lemma ParseIP_String ip : is_ip ip -> ParseIP (IP_String ip) = Some ip.
Proof.
  intros [Hl Hb]. unfold IP_String, ParseIP, ParseAddr. destruct (To4 ip) as [b|] eqn:E.
  - destruct (To4_spec ip b Hl E) as [-> Hb4]. apply Forall_app in Hb as [_ Hb]. by rewrite family4, parse4_dotted.
  - destruct (string6_chars ip Hl Hb) as [Hc Hin]. by rewrite family6, parse6_string6.
Qed.

Lemma IP_String_inj ip ip' : is_ip ip -> is_ip ip' -> IP_String ip = IP_String ip' -> ip = ip'.
Proof. intros H H' E. apply (f_equal ParseIP) in E. rewrite !ParseIP_String in E by done. by simplify_eq. Qed.

(** ** What parses is an address, in characters of its own *)

Lemma digit_hex c : is_digit c = true -> hex_char c = true.
Proof. unfold is_digit, hex_char, hex_val. intros ->. done. Qed.

Lemma v4_fields_spec prev s : forall f v n r, 0 <= v < 256 -> Forall is_byte f -> (length f <= 3)%nat -> v4_fields prev s f v n = Some r ->
  length r = 4%nat /\ Forall is_byte r /\ forallb addr_char s = true.
Proof.
  revert prev. induction s as [|c s IH]; intros prev f v n r Hv Hf Hl; cbn [v4_fields forallb].
  - destruct (length f <? 3)%nat eqn:E; [done|]. apply Nat.ltb_ge in E. intros [= <-]. rewrite length_app. cbn. split; [lia|]. split; [|done].
    apply Forall_app; split; [done|]. by apply Forall_singleton.
  - unfold addr_char at 1. destruct (is_digit c) eqn:Ed.
    + step_if; [done|]. destruct (255 <? _) eqn:E; [done|]. intros H. apply IH in H as (? & ? & ->); [by rewrite digit_hex|unfold is_digit in Ed; lia|done|done].
    + destruct (byte_eqb c ".") eqn:E; [|done]. rewrite orb_true_r. destruct prev as [p|]; [|done]. destruct s as [|d s]; [done|]. destruct (byte_eqb p "."); [done|].
      destruct (length f =? 3)%nat eqn:E3; [done|]. apply Nat.eqb_neq in E3. intros H. apply IH in H; [done|lia|by apply Forall_app; split; [|apply Forall_singleton]|rewrite length_app; cbn; lia].
Qed.

Lemma parse4_spec s r : parse4 s = Some r -> length r = 4%nat /\ Forall is_byte r /\ forallb addr_char s = true.
Proof. intros H. eapply v4_fields_spec in H; [done|lia|by apply Forall_nil|cbn; lia]. Qed.

Lemma hex_val_range c d : hex_val c = Some d -> 0 <= d < 16.
Proof. unfold hex_val. repeat step_if; try done; intros [= <-]; lia. Qed.

Lemma hex_run_spec s : forall off acc n x rest, (off <= 4)%nat -> 0 <= acc < 16 ^ Z.of_nat off -> hex_run off acc s = Some (n, x, rest) ->
  exists h, s = h ++ rest /\ forallb hex_char h = true /\ 0 <= x < 65536 /\ not_hex_head rest /\ n = (off + length h)%nat.
Proof.
  induction s as [|c s IH]; intros off acc n x rest Ho Ha; cbn [hex_run].
  - intros [= <- <- <-]. exists []. cbn. repeat split; try lia. apply Z.lt_le_trans with (16 ^ Z.of_nat off); [lia|]. change 65536 with (16 ^ 4). apply Z.pow_le_mono_r; lia.
  - destruct (hex_val c) as [d|] eqn:Ec.
    + destruct (3 <? off)%nat eqn:E; [done|]. apply Nat.ltb_ge in E. apply hex_val_range in Ec as Hd. intros H. apply IH in H as (h & -> & Hh & Hx & Hr & ->); [|lia|rewrite Nat2Z.inj_succ, Z.pow_succ_r by lia; lia].
      exists (c :: h). split; [done|]. cbn [forallb length]. unfold hex_char at 1. rewrite Ec, Hh. split; [done|]. split; [lia|]. split; [done|lia].
    + intros [= <- <- <-]. exists []. cbn. repeat split; try lia; [|done]. apply Z.lt_le_trans with (16 ^ Z.of_nat off); [lia|]. change 65536 with (16 ^ 4). apply Z.pow_le_mono_r; lia.
Qed.

Lemma hex_addr h : forallb hex_char h = true -> forallb addr_char h = true.
Proof. intros H. apply forallb_forall. intros c Hc. unfold addr_char. apply (proj1 (forallb_forall _ _) H) in Hc. by rewrite Hc. Qed.

Lemma v6_groups_spec fuel : forall ip ell s ip' ell', Forall is_byte ip -> (length ip + 2 * fuel = 16)%nat -> (match ell with Some e => e <= length ip | None => True end)%nat ->
  v6_groups fuel ip ell s = Some (ip', ell', []) ->
  Forall is_byte ip' /\ (length ip' <= 16)%nat /\ (match ell' with Some e => e <= length ip' | None => True end)%nat /\ forallb addr_char s = true.
Proof.
  induction fuel as [|fuel IH]; intros ip ell s ip' ell' Hip Hl He; cbn [v6_groups]; [intros [= <- <- ->]; repeat split; [done|lia|done]|].
  destruct (hex_run 0 0 s) as [[[[|n] x] rest]|] eqn:Eh; [done| |done]. apply hex_run_spec in Eh as (h & -> & Hh & Hx & _ & _); [|lia|cbn; lia].
  assert (Forall is_byte (ip ++ [x / 256; x mod 256])) as Hip'.
  { apply Forall_app; split; [done|]. apply Forall_cons_2; [unfold is_byte; Z.to_euclidean_division_equations; lia|]. apply Forall_singleton. unfold is_byte. Z.to_euclidean_division_equations; lia. }
  rewrite forallb_app, (hex_addr h Hh). cbn [andb]. destruct rest as [|c s1]; [intros [= <- <-]; rewrite length_app; cbn; repeat split; [done|lia|by destruct ell; [lia|]]|].
  cbn [forallb]. destruct (byte_eqb c ".") eqn:Ed.
  - step_if; [done|]. destruct (16 <? _)%nat eqn:E; [done|]. apply Nat.ltb_ge in E. destruct (parse4 (h ++ c :: s1)) as [f|] eqn:Ep; [|done]. apply parse4_spec in Ep as (Hf & Hfb & Hc).
    intros [= <- <-]. rewrite length_app, Hf. rewrite forallb_app, (hex_addr h Hh) in Hc. cbn [forallb andb] in Hc. repeat split; [by apply Forall_app|lia| |done]. destruct ell; [lia|done].
  - destruct (byte_eqb c ":") eqn:Ec; [|done]. cbn [negb]. assert (addr_char c = true) as -> by (unfold addr_char; by rewrite Ec, orb_true_r). cbn [andb]. destruct s1 as [|d s2]; [done|].
    assert ((length (ip ++ [x / 256; x mod 256]%Z) + 2 * fuel)%nat = 16%nat) as Hl' by (rewrite length_app; cbn; lia).
    destruct (byte_eqb d ":") eqn:Edd.
    + destruct ell; [done|]. cbn [forallb]. assert (addr_char d = true) as -> by (unfold addr_char; by rewrite Edd, orb_true_r). cbn [andb].
      destruct s2 as [|e s2]; [intros [= <- <-]; repeat split; [done|lia|lia]|]. intros H. apply IH in H; [done|done|done|lia].
    + intros H. apply IH in H; [done|done|done|]. destruct ell; [rewrite length_app; lia|done].
Qed.

Lemma expand_spec ip ell r : Forall is_byte ip -> (length ip <= 16)%nat -> (match ell with Some e => e <= length ip | None => True end)%nat -> expand ip ell = Some r -> is_ip r.
Proof.
  intros Hb Hl He. unfold expand. destruct (Nat.ltb_spec (length ip) 16).
  - destruct ell as [e|]; [|done]. intros [= <-]. split.
    + rewrite !length_app, length_take, length_replicate, length_drop. lia.
    + apply Forall_app; split; [by apply Forall_take|]. apply Forall_app; split; [|by apply Forall_drop]. apply Forall_replicate. unfold is_byte. lia.
  - destruct ell; [done|]. intros [= <-]. split; [lia|done].
Qed.

Lemma parse6_spec s ip : parse6 s = Some ip -> is_ip ip /\ forallb addr_char s = true.
Proof.
  unfold parse6. destruct (cut_byte "%" s); [done|].
  assert (forall ell s', match v6_groups 8 [] ell s' with Some (ip, e, []) => expand ip e | _ => None end = Some ip -> (match ell with Some e => e <= 0 | None => True end)%nat ->
    is_ip ip /\ forallb addr_char s' = true) as Hg.
  { intros ell s'. destruct (v6_groups 8 [] ell s') as [[[i e] [|]]|] eqn:E; try done. intros Hx He. apply v6_groups_spec in E as (H1 & H2 & H3 & H4); [|by apply Forall_nil|done|by destruct ell].
    split; [by eapply expand_spec|done]. }
  destruct s as [|c [|d s]]; [intros H; by apply (Hg None [])|intros H; by apply (Hg None [c])|]. destruct (byte_eqb c ":" && byte_eqb d ":") eqn:E; [|intros H; by apply (Hg None (c :: d :: s))].
  apply andb_true_iff in E as [Ec Ed]. cbn [forallb]. unfold addr_char at 1 2. rewrite Ec, Ed, !orb_true_r. cbn [orb andb].
  destruct s as [|e s]; [intros H; split; [|done]; eapply expand_spec; [| | |exact H]; [by apply Forall_nil|cbn; lia|cbn; lia]|]. intros H. by apply (Hg (Some 0%nat)) in H.
Qed.

Definition is_addr (a : Addr) : Prop := match a with Addr4 b => length b = 4%nat /\ Forall is_byte b | Addr6 b => is_ip b end.

Lemma ParseAddr_spec s a : ParseAddr s = Some a -> is_addr a /\ forallb addr_char s = true.
Proof.
  unfold ParseAddr. destruct (addr_family s) as [[]|]; [| |done].
  - intros (b & Hb & ->)%fmap_Some. apply parse4_spec in Hb as (? & ? & ?). done.
  - intros (b & Hb & ->)%fmap_Some. by apply parse6_spec in Hb.
Qed.

Lemma As16_ip a : is_addr a -> is_ip (As16 a).
Proof.
  destruct a as [b|b]; [|done]. intros [Hl Hb]. split; [by cbn; rewrite Hl|]. apply Forall_app; split; [|done].
  unfold v4InV6Prefix, is_byte. repeat (apply Forall_cons_2; [lia|]). by apply Forall_nil.
Qed.

Lemma ParseIP_spec s ip : ParseIP s = Some ip -> is_ip ip /\ forallb addr_char s = true.
Proof. intros (a & Ha & ->)%fmap_Some. apply ParseAddr_spec in Ha as [Ha ?]. split; [by apply As16_ip|done]. Qed.

(** ** Letter case *)

Lemma lower_facts c : hex_val (lower_ascii c) = hex_val c /\ is_digit (lower_ascii c) = is_digit c /\ (is_digit c = true -> lower_ascii c = c) /\
  byte_eqb (lower_ascii c) "." = byte_eqb c "." /\ byte_eqb (lower_ascii c) ":" = byte_eqb c ":" /\ byte_eqb (lower_ascii c) "%" = byte_eqb c "%" /\
  byte_eqb (lower_ascii c) "/" = byte_eqb c "/" /\ byte_eqb (lower_ascii c) "#" = byte_eqb c "#".
Proof. destruct c as [[] [] [] [] [] [] [] []]; (repeat split; try reflexivity; try discriminate). Qed.

Ltac lower_tac c := destruct (lower_facts c) as (?Hhx & ?Hdg & ?Hid & ?Hdot & ?Hcol & ?Hpct & ?Hsl & ?Hsh).

Lemma v4_fields_lower s : forall prev f v n, v4_fields (lower_ascii <$> prev) (map lower_ascii s) f v n = v4_fields prev s f v n.
Proof.
  induction s as [|c s IH]; [done|]. intros prev f v n. cbn [map v4_fields]. lower_tac c. rewrite Hdg, Hdot. destruct (is_digit c) eqn:Ed.
  - rewrite Hid by done. rewrite <- (IH (Some c)). cbn. by rewrite Hid.
  - destruct (byte_eqb c "."); [|done]. destruct prev as [p|]; [|done]. destruct s as [|d s]; [done|]. cbn [fmap option_fmap option_map].
    lower_tac p. rewrite Hdot0. destruct (byte_eqb p "."); [done|]. destruct (length f =? 3)%nat; [done|]. by rewrite <- (IH (Some c)).
Qed.

Lemma parse4_lower s : parse4 (map lower_ascii s) = parse4 s.
Proof. apply (v4_fields_lower s None). Qed.

Lemma hex_run_lower s : forall off acc, hex_run off acc (map lower_ascii s) = (fun r => (r.1, map lower_ascii r.2)) <$> hex_run off acc s.
Proof.
  induction s as [|c s IH]; [done|]. intros off acc. cbn [map hex_run]. lower_tac c. rewrite Hhx. destruct (hex_val c); [|done]. destruct (3 <? off)%nat; [done|]. apply IH.
Qed.

Lemma v6_groups_lower fuel : forall ip ell s, v6_groups fuel ip ell (map lower_ascii s) = (fun r => (r.1, map lower_ascii r.2)) <$> v6_groups fuel ip ell s.
Proof.
  induction fuel as [|fuel IH]; intros ip ell s; [done|]. cbn [v6_groups]. rewrite hex_run_lower. destruct (hex_run 0 0 s) as [[[[|n] x] rest]|]; [done| |done].
  cbn [fmap option_fmap option_map fst snd]. destruct rest as [|c s1]; [done|]. cbn [map]. lower_tac c. rewrite Hdot, Hcol. destruct (byte_eqb c ".").
  - rewrite parse4_lower. step_if; [done|]. destruct (16 <? _)%nat; [done|]. by destruct (parse4 s).
  - destruct (negb _); [done|]. destruct s1 as [|d s2]; [done|]. cbn [map]. lower_tac d. rewrite Hcol0. destruct (byte_eqb d ":").
    + destruct ell; [done|]. destruct s2; [done|]. cbn [map]. apply (IH _ _ (_ :: _)).
    + apply (IH _ _ (_ :: _)).
Qed.

Lemma cut_byte_lower x s : (forall c, byte_eqb (lower_ascii c) x = byte_eqb c x) ->
  cut_byte x (map lower_ascii s) = (fun r => (map lower_ascii r.1, map lower_ascii r.2)) <$> cut_byte x s.
Proof.
  intros Hx. induction s as [|c s IH]; [done|]. cbn [map cut_byte]. rewrite Hx. destruct (byte_eqb c x); [done|]. rewrite IH. by destruct (cut_byte x s) as [[]|].
Qed.

Lemma parse6_lower s : parse6 (map lower_ascii s) = parse6 s.
Proof.
  unfold parse6. rewrite cut_byte_lower by (intros c; by lower_tac c). destruct (cut_byte "%" s); [done|]. cbn [fmap option_fmap option_map].
  assert (forall ell s', match v6_groups 8 [] ell (map lower_ascii s') with Some (ip, e, []) => expand ip e | _ => None end =
    match v6_groups 8 [] ell s' with Some (ip, e, []) => expand ip e | _ => None end) as Hg by (intros; rewrite v6_groups_lower; by destruct (v6_groups 8 [] ell s') as [[[] []]|]).
  destruct s as [|c [|d s]]; [done|apply (Hg None [c])|]. cbn [map]. lower_tac c. lower_tac d. rewrite Hcol, Hcol0. destruct (_ && _); [|apply (Hg None (_ :: _ :: _))].
  destruct s as [|e s]; [done|]. apply (Hg _ (_ :: _)).
Qed.

Lemma ParseAddr_lower s : ParseAddr (map lower_ascii s) = ParseAddr s.
Proof.
  unfold ParseAddr. rewrite parse4_lower, parse6_lower. assert (addr_family (map lower_ascii s) = addr_family s) as ->; [|done].
  induction s as [|c s IH]; [done|]. cbn [map addr_family]. lower_tac c. by rewrite Hdot, Hcol, Hpct, IH.
Qed.

Lemma ParseIP_lower s : ParseIP (map lower_ascii s) = ParseIP s.
Proof. unfold ParseIP. by rewrite ParseAddr_lower. Qed.

Lemma dtoi_lower s : forall i n, dtoi i n (map lower_ascii s) = (fun r => (r.1, map lower_ascii r.2)) <$> dtoi i n s.
Proof.
  induction s as [|c s IH]; [done|]. intros i n. cbn [map dtoi]. lower_tac c. rewrite Hdg. destruct (is_digit c); [|done]. rewrite Hid by done. destruct (16777215 <=? _); [done|]. apply IH.
Qed.

Lemma ParseCIDR_lower s : ParseCIDR (map lower_ascii s) = ParseCIDR s.
Proof.
  unfold ParseCIDR. rewrite cut_byte_lower by (intros c; by lower_tac c). destruct (cut_byte "/" s) as [[a m]|]; [|done]. cbn [fmap option_fmap option_map fst snd].
  rewrite ParseAddr_lower, dtoi_lower. destruct (ParseAddr a); [|done]. by destruct (dtoi 0 0 m) as [[[? []] []]|].
Qed.
