(* ===== verification/TrustList.v ===== *)
(** Address lists of an operator ([internal/trustedproxy/list.go],
    [server/blocklist.go]) and their upgrade from a new template
    ([internal/configmerge/merge.go], the trust branch of
    [cmd/v2vctl/config.go] [planMerges]): what a list trusts, and that an upgraded
    list trusts exactly what the two lists did. *)

From S2P Require Import Prelude Bytes Utf8 Json HistoryScan ClientGate EnvMerge EnvRender NetIP.
Local Open Scope Z_scope.

(** * Loading *)

Section unicode.
Context {U : Unicode}.

(** A trimmed line that is neither blank nor a comment. *)
Definition trust_line_text (line : str) : option str :=
  match TrimSpace line with
  | [] => None
  | c :: s => if byte_eqb c hash then None else Some (c :: s)
  end.

Definition trust_entry (trimmed : str) : option IPNet :=
  match ParseCIDR trimmed with
  | Some (_, parsed) => Some parsed
  | None =>
      match ParseIP trimmed with
      | Some ip => let bits := match To4 ip with Some _ => 32 | None => 128 end in Some (mkIPNet ip (CIDRMask bits bits))
      | None => None
      end
  end.

(** The networks of the lines, or the number of the first bad one. *)
Fixpoint trust_lines (i : nat) (lines : list str) : res nat (list IPNet) :=
  match lines with
  | [] => Ok []
  | line :: lines' =>
      match trust_line_text line with
      | None => trust_lines (S i) lines'
      | Some trimmed =>
          match trust_entry trimmed with
          | None => Err (S i)
          | Some n => match trust_lines (S i) lines' with Ok ns => Ok (n :: ns) | Err e => Err e end
          end
      end
  end.

Definition parse_trust (data : str) : res nat (list IPNet) := trust_lines 0 (split_nl data).

(** A path as the loader finds it: absent, unreadable, or a file with its
    permission bits. *)
Inductive trust_file := NoFile | Unreadable | File (perm : Z) (data : str).
Inductive load_error := NotExist | ReadFailed | WritableByOthers | BadEntry (line : nat).

Definition loadTrustFile (f : trust_file) : res load_error (list IPNet) :=
  match f with
  | NoFile => Err NotExist
  | Unreadable => Err ReadFailed
  | File perm data =>
      if negb (Z.land perm 18 =? 0) then Err WritableByOthers
      else match parse_trust data with Ok nets => Ok nets | Err line => Err (BadEntry line) end
  end.

Definition containsIP (nets : list IPNet) (raw : str) : bool :=
  match ParseIP (TrimSpace raw) with None => false | Some ip => existsb (fun n => Contains n ip) nets end.

(** ** The blocklist *)

(** The networks, and whether a missing file disabled matching. *)
Definition loadBlocklist (f : trust_file) : res load_error (list IPNet * bool) :=
  match loadTrustFile f with
  | Ok nets => Ok (nets, false)
  | Err NotExist => Ok ([], true)
  | Err e => Err e
  end.

Definition blocklisted (nets : list IPNet) (ip : str) : bool := containsIP nets ip.

Definition isIPv4 (ip : str) : bool :=
  match ParseIP (TrimSpace ip) with Some parsed => match To4 parsed with Some _ => true | None => false end | None => false end.

(** * Upgrading a list *)

Definition normalizeTrustLine (line : str) : option str := ToLower <$> trust_line_text line.

Definition trustSet (data : str) : gset str := list_to_set (omap normalizeTrustLine (split_nl data)).

(** The entries in order, each once. *)
Fixpoint trust_order (seen : gset str) (lines : list str) : list str :=
  match lines with
  | [] => []
  | line :: lines' =>
      match normalizeTrustLine line with
      | None => trust_order seen lines'
      | Some e => if bool_decide (e ∈ seen) then trust_order seen lines' else e :: trust_order ({[e]} ∪ seen) lines'
      end
  end.
Definition trustOrder (data : str) : list str := trust_order ∅ (split_nl data).

Definition TrustEntries (data : str) : list str := sort_strings (elements (trustSet data)).

Record TrustResult := mkTrustResult { tr_Entries : list str; tr_Added : list str; tr_Kept : list str; tr_Orphaned : list str }.

(** One pass over a list of entries; [new] tells the template's pass from the
    local one. *)
Fixpoint overlay_entries (new : bool) (localSet : gset str) (order : list str) (st : gset str * TrustResult) : gset str * TrustResult :=
  match order with
  | [] => st
  | e :: order' =>
      let '(seen, r) := st in
      overlay_entries new localSet order'
        (if bool_decide (e ∈ seen) then st
         else ({[e]} ∪ seen,
               if new then
                 if bool_decide (e ∈ localSet) then mkTrustResult (tr_Entries r ++ [e]) (tr_Added r) (tr_Kept r ++ [e]) (tr_Orphaned r)
                 else mkTrustResult (tr_Entries r ++ [e]) (tr_Added r ++ [e]) (tr_Kept r) (tr_Orphaned r)
               else mkTrustResult (tr_Entries r ++ [e]) (tr_Added r) (tr_Kept r ++ [e]) (tr_Orphaned r ++ [e])))
  end.

Definition OverlayTrust (localData newData : str) : TrustResult :=
  let localSet := trustSet localData in
  let st := overlay_entries true localSet (trustOrder newData) (∅, mkTrustResult [] [] [] []) in
  let r := (overlay_entries false localSet (trustOrder localData) st).2 in
  mkTrustResult (tr_Entries r) (sort_strings (tr_Added r)) (sort_strings (tr_Kept r)) (sort_strings (tr_Orphaned r)).

Definition RenderTrust (res : TrustResult) (newData : str) : str :=
  let inMerged : gset str := list_to_set (tr_Entries res) in
  let lines := template_lines newData in
  let out := List.filter (fun line => match normalizeTrustLine line with Some e => bool_decide (e ∈ inMerged) | None => true end) lines in
  let emitted : gset str := list_to_set (List.filter (fun e => bool_decide (e ∈ inMerged)) (omap normalizeTrustLine lines)) in
  join_lf (out ++ List.filter (fun e => bool_decide (e ∉ emitted)) (tr_Entries res)) ++ [nl].

(** One file of a trust directory: the operator's, the template's and whether the
    operator asked to take the template's; [None] refuses to wipe a list. *)
Definition merge_trust_file (take : bool) (cur tpl : str) : option (TrustResult * str) :=
  let base := match tpl with [] => cur | _ => tpl end in
  if take && match TrustEntries tpl with [] => true | _ => false end then None
  else let res := OverlayTrust (if take then [] else cur) tpl in Some (res, RenderTrust res base).

(** The check of the rendered file before it is written. *)
Definition verifyTrustOut (out : str) (want : list str) : bool :=
  let got : gset str := list_to_set (omap (fun line => ToLower <$> trust_line_text line) (split_nl out)) in
  forallb (fun e => bool_decide (e ∈ got)) want.
End unicode.

Example merge_trust_ex :
  let cur := lit "10.0.0.0/8" ++ [nl] ++ lit "2001:DB8::/32" ++ [nl] in
  let tpl := lit "# ranges" ++ [nl] ++ lit "10.0.0.0/8" ++ [nl] ++ lit "192.0.2.7" ++ [nl] in
  snd <$> merge_trust_file (U := sample_unicode) false cur tpl = Some (lit "# ranges" ++ [nl] ++ lit "10.0.0.0/8" ++ [nl] ++ lit "192.0.2.7" ++ [nl] ++ lit "2001:db8::/32" ++ [nl]).
Proof. vm_compute. reflexivity. Qed.

(** * Theorems *)

Section laws.
Context {U : Unicode}.

(** ** A list, line by line *)

Definition line_net (line : str) : option IPNet := trust_line_text line ≫= trust_entry.

Definition good_line (line : str) : Prop := forall t, trust_line_text line = Some t -> is_Some (trust_entry t).

Lemma trust_lines_good lines : forall i, Forall good_line lines -> trust_lines i lines = Ok (omap line_net lines).
Proof.
  induction lines as [|line lines IH]; [done|]. intros i [Hl Hs]%Forall_cons. cbn [trust_lines omap list_omap]. unfold line_net at 1.
  destruct (trust_line_text line) as [t|] eqn:E; [|by apply IH]. destruct (Hl t E) as [n Hn]. cbn [mbind option_bind]. rewrite Hn, IH; done.
Qed.

Lemma trust_lines_ok lines : forall i nets, trust_lines i lines = Ok nets -> Forall good_line lines /\ nets = omap line_net lines.
Proof.
  induction lines as [|line lines IH]; intros i nets; cbn [trust_lines omap list_omap]; [intros [= <-]; by split|]. unfold line_net at 1.
  destruct (trust_line_text line) as [t|] eqn:E; cbn [mbind option_bind].
  - destruct (trust_entry t) as [n|] eqn:En; [|done]. destruct (trust_lines (S i) lines) as [ns|] eqn:Es; [|done]. intros [= <-].
    destruct (IH _ _ Es) as [Hg ->]. split; [|done]. apply Forall_cons_2; [|done]. intros t' Ht. rewrite E in Ht. injection Ht as <-. by eexists.
  - intros H. destruct (IH _ _ H) as [Hg ->]. split; [|done]. apply Forall_cons_2; [|done]. intros t' Ht. by rewrite E in Ht.
Qed.

Definition trusted_by (lines : list str) (ip : IP) : Prop := exists line n, line ∈ lines /\ line_net line = Some n /\ Contains n ip = true.

Lemma containsIP_spec lines raw : containsIP (omap line_net lines) raw = true <-> exists ip, ParseIP (TrimSpace raw) = Some ip /\ trusted_by lines ip.
Proof.
  unfold containsIP. destruct (ParseIP (TrimSpace raw)) as [ip|]; [|split; [done|by intros (? & ? & _)]]. rewrite existsb_exists. split.
  - intros (n & Hin & Hc). apply list_elem_of_In, list_elem_of_omap in Hin as (line & Hl & Hn). exists ip. split; [done|]. by exists line, n.
  - intros (ip' & [= <-] & line & n & Hl & Hn & Hc). exists n. split; [|done]. apply list_elem_of_In, list_elem_of_omap. by exists line.
Qed.

(** ** The normal form of an entry *)

Definition entry_char (c : ascii) : bool := addr_char c || byte_eqb c "/"%char.

Lemma addr_entry s : forallb addr_char s = true -> forallb entry_char s = true.
Proof. intros H. apply forallb_forall. intros c Hc. unfold entry_char. apply (proj1 (forallb_forall _ _) H) in Hc. by rewrite Hc. Qed.

Lemma dtoi_chars s : forall i n m k, dtoi i n s = Some (m, k, []) -> forallb hex_char s = true.
Proof.
  induction s as [|c s IH]; intros i n m k; cbn [dtoi forallb]; [done|]. destruct (is_digit c) eqn:E; [|done]. destruct (16777215 <=? _); [done|].
  intros H. rewrite digit_hex by done. by eapply IH.
Qed.

Lemma trust_entry_chars t n : trust_entry t = Some n -> forallb entry_char t = true.
Proof.
  unfold trust_entry. destruct (ParseCIDR t) as [[ip c]|] eqn:E.
  - intros _. unfold ParseCIDR in E. destruct (cut_byte "/" t) as [[a m]|] eqn:Ec; [|done]. apply cut_byte_Some in Ec as [-> _].
    destruct (ParseAddr a) eqn:Ea; [|done]. apply ParseAddr_spec in Ea as [_ Ha]. destruct (dtoi 0 0 m) as [[[? [|k]] [|]]|] eqn:Ed; try done. apply dtoi_chars in Ed.
    rewrite forallb_app. cbn [forallb]. rewrite !addr_entry; [done|by apply hex_addr|done].
  - destruct (ParseIP t) as [ip|] eqn:Ei; [|done]. intros _. apply ParseIP_spec in Ei as [_ Hc]. by apply addr_entry.
Qed.

Lemma entry_char_facts c : entry_char c = true -> is_ascii c = true /\ IsSpace (byte_val c) = false /\ byte_eqb c hash = false /\ byte_eqb c nl = false /\ entry_char (lower_ascii c) = true.
Proof. destruct c as [[] [] [] [] [] [] [] []]; first [discriminate|intros _; repeat split; reflexivity]. Qed.

Lemma entry_trimmed t : forallb entry_char t = true -> TrimSpace t = t /\ ToLower t = map lower_ascii t /\ nl ∉ t /\ (forall c s, t = c :: s -> byte_eqb c hash = false).
Proof.
  intros H. assert (forallb is_ascii t = true) as Ha by (apply forallb_forall; intros c Hc; by apply entry_char_facts, (proj1 (forallb_forall _ _) H)).
  split; [|split; [|split]].
  - apply TrimSpace_id. unfold runes. rewrite segs_ascii, map_map by done. apply forallb_forall. intros r (c & <- & Hc)%in_map_iff. cbn [seg_rune].
    apply (proj1 (forallb_forall _ _) H), entry_char_facts in Hc as (_ & -> & _). done.
  - unfold ToLower. by rewrite Ha.
  - intros Hin. apply list_elem_of_In in Hin. apply (proj1 (forallb_forall _ _) H), entry_char_facts in Hin as (_ & _ & _ & Hn & _). by rewrite byte_eqb_refl in Hn.
  - intros c s ->. cbn in H. apply andb_true_iff in H as [Hc _]. by apply entry_char_facts in Hc as (_ & _ & ? & _).
Qed.

Lemma entry_text_chars e : forallb entry_char e = true -> e <> [] -> trust_line_text e = Some e.
Proof.
  intros He Hn. unfold trust_line_text. destruct (entry_trimmed e He) as (-> & _ & _ & Hh). destruct e as [|c e]; [done|]. by rewrite (Hh c e eq_refl).
Qed.

Lemma entry_text_nonempty line t : trust_line_text line = Some t -> t <> [].
Proof. unfold trust_line_text. destruct (TrimSpace line) as [|c s]; [done|]. destruct (byte_eqb c hash); [done|]. by intros [= <-]. Qed.

(** The normal form of a good line is a line that trusts the same network. *)
Lemma normal_form line n : line_net line = Some n -> exists e, normalizeTrustLine line = Some e /\ normalizeTrustLine e = Some e /\ line_net e = Some n /\ nl ∉ e /\ e <> [].
Proof.
  unfold line_net, normalizeTrustLine. intros (t & Ht & Hn)%bind_Some. apply trust_entry_chars in Hn as Hc. rewrite Ht. cbn [fmap option_fmap option_map].
  destruct (entry_trimmed t Hc) as (_ & Hlow & _). rewrite Hlow. pose proof (entry_text_nonempty _ _ Ht) as Hne.
  assert (forallb entry_char (map lower_ascii t) = true) as Hc'.
  { apply forallb_forall. intros c (d & <- & Hd)%in_map_iff. by apply (proj1 (forallb_forall _ _) Hc), entry_char_facts in Hd as (_ & _ & _ & _ & ?). }
  assert (map lower_ascii t <> []) as Hne' by by destruct t.
  destruct (entry_trimmed _ Hc') as (_ & Hlow' & Hnl & _). exists (map lower_ascii t). rewrite (entry_text_chars _ Hc' Hne'). cbn [fmap option_fmap option_map mbind option_bind].
  split; [done|]. split; [f_equal; rewrite Hlow', map_map; apply map_ext; intros c; by destruct c as [[] [] [] [] [] [] [] []]|]. split; [|done].
  unfold trust_entry in *. by rewrite ParseCIDR_lower, ParseIP_lower.
Qed.

Lemma normal_good line e : good_line line -> normalizeTrustLine line = Some e -> exists n, line_net line = Some n /\ line_net e = Some n /\ normalizeTrustLine e = Some e /\ nl ∉ e.
Proof.
  intros Hg He. assert (exists n, line_net line = Some n) as [n Hl].
  { unfold normalizeTrustLine in He. apply fmap_Some in He as (t & Ht & _). destruct (Hg t Ht) as [n Hn]. exists n. unfold line_net. by rewrite Ht. }
  destruct (normal_form line n Hl) as (e' & H1 & H2 & H3 & H4 & _). rewrite He in H1. injection H1 as <-. by exists n.
Qed.

(** ** The merged entries *)

Definition entries (data : str) : list str := omap normalizeTrustLine (split_nl data).

Lemma trust_order_elem lines : forall seen e, e ∈ trust_order seen lines <-> e ∉ seen /\ e ∈ omap normalizeTrustLine lines.
Proof.
  induction lines as [|line lines IH]; intros seen e; cbn [trust_order omap list_omap].
  - split; [intros H; by apply not_elem_of_nil in H|intros [_ H]; by apply not_elem_of_nil in H].
  - destruct (normalizeTrustLine line) as [x|]; [|apply IH]. case_bool_decide as Hx.
    + rewrite IH, elem_of_cons. split; [naive_solver|]. intros [He [->|?]]; done.
    + rewrite !elem_of_cons, IH, elem_of_union, elem_of_singleton. destruct (decide (e = x)) as [->|]; naive_solver.
Qed.

Lemma overlay_entries_elem new localSet order : forall seen r, (forall e, e ∈ seen <-> e ∈ tr_Entries r) ->
  let st := overlay_entries new localSet order (seen, r) in
  (forall e, e ∈ st.1 <-> e ∈ tr_Entries st.2) /\ (forall e, e ∈ tr_Entries st.2 <-> e ∈ tr_Entries r \/ e ∈ order).
Proof.
  induction order as [|x order IH]; intros seen r Hs; cbn [overlay_entries].
  - split; [done|]. intros e. split; [by left|]. intros [?|H]; [done|by apply not_elem_of_nil in H].
  - case_bool_decide as Hx.
    + destruct (IH seen r Hs) as [H1 H2]. split; [done|]. intros e. rewrite H2, elem_of_cons. split; [naive_solver|]. intros [?|[->|?]]; [by left|left; by apply Hs|by right].
    + match goal with |- context [overlay_entries _ _ _ (_, ?r')] => assert (tr_Entries r' = tr_Entries r ++ [x]) as Hr by (destruct new; [case_bool_decide|]; done); destruct (IH ({[x]} ∪ seen) r') as [H1 H2] end.
      { intros e. rewrite Hr, elem_of_union, elem_of_singleton, elem_of_app, list_elem_of_singleton, Hs. naive_solver. }
      split; [done|]. intros e. rewrite H2, Hr, elem_of_app, list_elem_of_singleton, elem_of_cons. naive_solver.
Qed.

Lemma merged_entries cur tpl e : e ∈ tr_Entries (OverlayTrust cur tpl) <-> e ∈ entries tpl \/ e ∈ entries cur.
Proof.
  unfold OverlayTrust. cbv zeta. cbn [tr_Entries].
  destruct (overlay_entries_elem true (trustSet cur) (trustOrder tpl) ∅ (mkTrustResult [] [] [] [])) as [H1 H2]; [intros x; cbn; split; [set_solver|intros H; by apply not_elem_of_nil in H]|].
  destruct (overlay_entries true _ _ _) as [seen r]. destruct (overlay_entries_elem false (trustSet cur) (trustOrder cur) seen r H1) as [_ H3].
  cbn [fst snd] in *. rewrite H3, H2. unfold trustOrder. rewrite !trust_order_elem. unfold entries. cbn [tr_Entries]. rewrite elem_of_nil. set_solver.
Qed.

(** ** The rendered lines *)

Lemma file_lines ls : Forall (fun l => nl ∉ l) ls -> exists pre, split_nl (join_lf ls ++ [nl]) = pre ++ [[]] /\ (pre = ls \/ ls = [] /\ pre = [[]]).
Proof.
  intros H. destruct (decide (ls = [])) as [->|Hn]; [by exists [[]]; split; [|right]|]. exists ls. split; [|by left].
  rewrite <- (split_join ls) at 2 by done. assert (forall d, split_nl (d ++ [nl]) = split_nl d ++ [[]]) as ->; [|done].
  induction d as [|c d IH]; [done|]. cbn [app split_nl]. rewrite IH. destruct (byte_eqb c nl); [done|]. pose proof (split_nl_nonempty d). by destruct (split_nl d).
Qed.

Definition rendered (entries_ : list str) (base : list str) (emitted : gset str) : list str := base ++ List.filter (fun e => bool_decide (e ∉ emitted)) entries_.

(** With every template entry merged, no template line is dropped. *)
Lemma render_keeps res base : (forall e, e ∈ entries base -> e ∈ tr_Entries res) -> exists emitted : gset str,
  (forall e, e ∈ emitted -> e ∈ omap normalizeTrustLine (template_lines base)) /\
  RenderTrust res base = join_lf (rendered (tr_Entries res) (template_lines base) emitted) ++ [nl].
Proof.
  intros He. unfold RenderTrust. cbv zeta. eexists. split; [|unfold rendered; do 3 f_equal].
  - intros e Hin. apply elem_of_list_to_set, list_elem_of_In, filter_In in Hin as [Hin _]. by apply list_elem_of_In.
  - apply forallb_filter_id, forallb_forall. intros line Hl. destruct (normalizeTrustLine line) as [e|] eqn:E; [|done]. apply bool_decide_eq_true, elem_of_list_to_set, He.
    apply list_elem_of_omap. exists line. split; [|done]. apply template_lines_in. by apply list_elem_of_In.
Qed.

Section merge.
Variables (lines base es : list str) (emitted : gset str).
Context (Hgood : Forall good_line lines) (Hbase : forall line, line ∈ base -> line ∈ lines)
        (Hes : forall e, e ∈ es <-> e ∈ omap normalizeTrustLine lines) (Hem : forall e, e ∈ emitted -> e ∈ omap normalizeTrustLine base).

Lemma entry_good e : e ∈ es -> exists line n, line ∈ lines /\ normalizeTrustLine line = Some e /\ line_net line = Some n /\ line_net e = Some n /\ normalizeTrustLine e = Some e /\ nl ∉ e.
Proof.
  intros He. apply Hes, list_elem_of_omap in He as (line & Hl & Hn). destruct (normal_good line e) as (n & H1 & H2 & H3 & H4); [by apply (proj1 (Forall_forall _ _) Hgood)|done|].
  by exists line, n.
Qed.

Lemma rendered_elem line : line ∈ rendered es base emitted <-> line ∈ base \/ line ∈ es /\ line ∉ emitted.
Proof. unfold rendered. rewrite elem_of_app, (list_elem_of_In (List.filter _ _) _), filter_In, <- list_elem_of_In, bool_decide_eq_true. done. Qed.

Lemma rendered_good : Forall good_line (rendered es base emitted).
Proof.
  apply Forall_forall. intros line [H|[H _]]%rendered_elem; [by apply (proj1 (Forall_forall _ _) Hgood), Hbase|]. destruct (entry_good line H) as (_ & n & _ & _ & _ & Hn & _).
  intros t Ht. unfold line_net in Hn. rewrite Ht in Hn. by eexists.
Qed.

Lemma rendered_has e : e ∈ es -> exists line, line ∈ rendered es base emitted /\ normalizeTrustLine line = Some e.
Proof.
  intros He. destruct (entry_good e He) as (_ & _ & _ & _ & _ & _ & Hn & _). destruct (decide (e ∈ emitted)) as [Hin|Hin].
  - apply Hem, list_elem_of_omap in Hin as (line & Hl & Hn'). exists line. split; [|done]. apply rendered_elem. by left.
  - exists e. split; [|done]. apply rendered_elem. by right.
Qed.

Lemma rendered_trusts ip : trusted_by (rendered es base emitted) ip <-> trusted_by lines ip.
Proof.
  split.
  - intros (line & n & [H|[H _]]%rendered_elem & Hn & Hc); [exists line, n; split; [by apply Hbase|done]|].
    destruct (entry_good line H) as (l & m & Hl & _ & Hm & Hm' & _). exists l, n. split; [done|]. split; [|done]. rewrite Hm' in Hn. congruence.
  - intros (line & n & Hl & Hn & Hc). destruct (normal_form line n Hn) as (e & He & _ & Hen & _).
    destruct (rendered_has e) as (l & Hin & Hle); [apply Hes, list_elem_of_omap; by exists line|]. exists l, n. split; [done|]. split; [|done].
    destruct (entry_good e) as (_ & _ & _ & _ & _ & _ & _); [apply Hes, list_elem_of_omap; by exists line|].
    assert (good_line l) as Hg by by apply (proj1 (Forall_forall _ _) rendered_good). destruct (normal_good l e Hg Hle) as (m & Hm & Hm' & _). congruence.
Qed.

Lemma rendered_free : Forall (fun l => nl ∉ l) base -> Forall (fun l => nl ∉ l) (rendered es base emitted).
Proof.
  intros Hb. apply Forall_forall. intros line [H|[H _]]%rendered_elem; [by apply (proj1 (Forall_forall _ _) Hb)|]. by destruct (entry_good line H) as (_ & _ & _ & _ & _ & _ & _ & ?).
Qed.
End merge.

Lemma blank_list_line : trust_line_text [] = None.
Proof. reflexivity. Qed.

Lemma parse_file ls : Forall (fun l => nl ∉ l) ls -> Forall good_line ls ->
  parse_trust (join_lf ls ++ [nl]) = Ok (omap line_net ls) /\ forall e line, line ∈ ls -> normalizeTrustLine line = Some e -> e ∈ entries (join_lf ls ++ [nl]).
Proof.
  intros Hf Hg. destruct (file_lines ls Hf) as (pre & E & Hp). unfold parse_trust, entries. rewrite E.
  assert (good_line []) as Hb by done.
  assert (omap line_net (pre ++ [[]]) = omap line_net ls) as Ho by (rewrite omap_app; cbn; rewrite app_nil_r; by destruct Hp as [->|[-> ->]]).
  split.
  - rewrite trust_lines_good, Ho; [done|]. apply Forall_app; split; [|by apply Forall_singleton]. by destruct Hp as [->|[-> ->]]; [|apply Forall_singleton].
  - intros e line Hl He. apply list_elem_of_omap. exists line. split; [|done]. apply elem_of_app. left. destruct Hp as [->|[-> _]]; [done|]. by apply not_elem_of_nil in Hl.
Qed.

Lemma template_lines_free d : Forall (fun l => nl ∉ l) (template_lines d).
Proof. apply Forall_forall. intros l Hl%template_lines_in. by apply (proj1 (Forall_forall _ _) (split_nl_free d)). Qed.

(** C15. An upgrade of an address list neither withdraws nor grants trust: when the
    operator's file and the template both load, the merged file is written, passes
    its own check, loads, and holds exactly the addresses of the two files (of the
    template alone when the operator takes it), whatever their comments, spelling,
    letter case and order. *)
Theorem merged_list_trusts_the_same take cur tpl L N :
  parse_trust cur = Ok L -> parse_trust tpl = Ok N -> (take = true -> TrustEntries tpl <> []) ->
  exists res out M, merge_trust_file take cur tpl = Some (res, out) /\ verifyTrustOut out (tr_Entries res) = true /\ parse_trust out = Ok M /\
    forall raw, containsIP M raw = containsIP N raw || (negb take && containsIP L raw).
Proof.
  intros HL HN Ht. apply trust_lines_ok in HL as [HgL ->]. apply trust_lines_ok in HN as [HgN ->].
  set (kept := if take then [] else cur). set (res := OverlayTrust kept tpl). set (base := match tpl with [] => cur | _ => tpl end).
  assert (merge_trust_file take cur tpl = Some (res, RenderTrust res base)) as Hm.
  { unfold merge_trust_file. destruct take; [|done]. specialize (Ht eq_refl). destruct (TrustEntries tpl); [done|]. done. }
  set (lines := split_nl tpl ++ split_nl kept).
  assert (Forall good_line lines) as Hg by (apply Forall_app; split; [done|]; unfold kept; destruct take; [by apply Forall_singleton|done]).
  assert (forall e, e ∈ tr_Entries res <-> e ∈ omap normalizeTrustLine lines) as Hes by (intros e; unfold res, lines; rewrite merged_entries, omap_app, elem_of_app; done).
  assert (base = tpl \/ base = kept) as Hb.
  { unfold base, kept. destruct tpl as [|c tpl]; [|by left]. right. destruct take; [|done]. by specialize (Ht eq_refl). }
  assert (forall line, line ∈ template_lines base -> line ∈ lines) as Hbase.
  { intros line Hl%template_lines_in. unfold lines. apply elem_of_app. destruct Hb as [-> | ->]; [by left|by right]. }
  destruct (render_keeps res base) as (emitted & Hem & Hr).
  { intros e He. apply Hes. unfold lines. rewrite omap_app, elem_of_app. destruct Hb as [-> | ->]; [by left|by right]. }
  set (R := rendered (tr_Entries res) (template_lines base) emitted) in *.
  pose proof (rendered_good _ _ _ emitted Hg Hbase Hes) as HgR. pose proof (rendered_free _ (template_lines base) _ emitted Hg Hes (template_lines_free _)) as HfR.
  destruct (parse_file R HfR HgR) as [Hparse Hentries].
  exists res, (RenderTrust res base), (omap line_net R). split; [done|]. rewrite Hr. split; [|split; [done|]].
  - apply forallb_forall. intros e He%list_elem_of_In. apply bool_decide_eq_true, elem_of_list_to_set. destruct (rendered_has _ (template_lines base) _ emitted Hg Hes Hem e He) as (line & Hl & Hn).
    by eapply Hentries.
  - intros raw. apply eq_bool_prop_intro. rewrite !Is_true_true, orb_true_iff, andb_true_iff, negb_true_iff, !containsIP_spec.
    assert (forall ip, trusted_by lines ip <-> trusted_by (split_nl tpl) ip \/ take = false /\ trusted_by (split_nl cur) ip) as Hsplit.
    { intros ip. unfold trusted_by, lines. split.
      - intros (line & n & [Hl|Hl]%elem_of_app & Hn & Hc); [left; by exists line, n|]. right. unfold kept in Hl. destruct take; [|split; [done|by exists line, n]].
        apply list_elem_of_singleton in Hl as ->. done.
      - intros [(line & n & Hl & ?)|[-> (line & n & Hl & ?)]]; exists line, n; (split; [apply elem_of_app|done]); [by left|by right]. }
    assert (forall ip, trusted_by R ip <-> trusted_by (split_nl tpl) ip \/ take = false /\ trusted_by (split_nl cur) ip) as HR by (intros ip; rewrite <- Hsplit; apply (rendered_trusts _ _ _ emitted Hg Hbase Hes Hem)).
    setoid_rewrite HR. naive_solver.
Qed.
End laws.

Definition demo_list : str := lit "10.0.0.0/8" ++ [nl] ++ lit " 2001:DB8::1 " ++ [nl].
Definition demo_template : str := lit "# ranges" ++ [nl] ++ lit "192.0.2.0/24" ++ [nl].

Lemma merged_list_trusts_the_same_witness :
  exists L N, parse_trust demo_list = Ok L /\ parse_trust demo_template = Ok N /\ containsIP L (lit "2001:db8:0:0::1") = true /\
    exists res out M, merge_trust_file (U := sample_unicode) false demo_list demo_template = Some (res, out) /\
      verifyTrustOut (U := sample_unicode) out (tr_Entries res) = true /\ parse_trust out = Ok M /\
      forall raw, containsIP M raw = containsIP N raw || (negb false && containsIP L raw).
Proof.
  do 2 eexists. split; [vm_compute; reflexivity|]. split; [vm_compute; reflexivity|]. split; [vm_compute; reflexivity|].
  refine (merged_list_trusts_the_same (U := sample_unicode) false demo_list demo_template _ _ _ _ _); [vm_compute; reflexivity|vm_compute; reflexivity|intros [=]].
Defined.
