(* ===== verification/ProxyTrust.v ===== *)
(** Who a request comes from ([internal/trustedproxy], [server/proxyguard.go], the
    chain part of [internal/serverconfig/load.go], the onion part of
    [internal/serverconfig/config.go] and [server/main.go]): the configured chain
    of proxies, the client address it resolves, and the dial of Admit computed
    from a request. *)

From S2P Require Import Prelude Bytes Utf8 Wire Json Filter ClientGate EnvMerge NetIP TrustList Guard Behavior Abuse Engine Attack Gate Admit.
Local Open Scope Z_scope.

(** * Requests *)

(** What the code reads of an [http.Request]; [rq_Header] is [Header.Get] and
    [rq_Pass] the [gate_pass] of the query. *)
Record HTTPRequest := mkHTTPRequest {
  rq_RemoteAddr : str;
  rq_Host : str;
  rq_TLS : bool;
  rq_Header : str -> str;
  rq_Pass : str
}.

(** [strings.Split] at a one-byte separator. *)
Fixpoint split_on (x : ascii) (s : str) : list str :=
  match s with
  | [] => [[]]
  | c :: s' => if byte_eqb c x then [] :: split_on x s' else match split_on x s' with [] => [[c]] | y :: ys => (c :: y) :: ys end
  end.

Section unicode.
Context {U : Unicode}.

(** * Providers *)

Record Provider := mkProvider {
  pv_Name : str;
  pv_HeaderTrust : bool;
  pv_NeedsFile : bool;
  pv_Trusted : str -> bool;
  pv_ClientIP : HTTPRequest -> option str
}.

Definition cf_header : str := lit "Cf-Connecting-Ip".

Definition cloudflare_ClientIP (r : HTTPRequest) : option str :=
  match TrimSpace (rq_Header r cf_header) with
  | [] => None
  | raw => IP_String <$> ParseIP raw
  end.

Definition cloudflare (trust : list IPNet) : Provider := mkProvider (lit "cloudflare") true true (containsIP trust) cloudflare_ClientIP.
Definition direct (trust : list IPNet) : Provider := mkProvider (lit "direct") false false (containsIP trust) (fun _ => None).
Definition none (_ : list IPNet) : Provider := mkProvider (lit "none") false false (fun _ => true) (fun _ => None).

(** The registry after every [init]. *)
Definition registry (name : str) : option (list IPNet -> Provider) :=
  if str_eqb name (lit "cloudflare") then Some cloudflare
  else if str_eqb name (lit "direct") then Some direct
  else if str_eqb name (lit "none") then Some none
  else None.

(** * The chain *)

Inductive chain_error := ProviderRequired | UnknownProvider (part : str) | EmptyTrustSet (name : str) | NothingUsable | NilProvider.

Fixpoint parse_names (seen : list str) (parts : list str) : res chain_error (list str) :=
  match parts with
  | [] => Ok []
  | part :: parts' =>
      let name := ToLower (TrimSpace part) in
      if match name with [] => true | _ => bool_decide (name ∈ seen) end then parse_names seen parts'
      else match registry name with
      | None => Err (UnknownProvider part)
      | Some _ => match parse_names (name :: seen) parts' with Ok names => Ok (name :: names) | Err e => Err e end
      end
  end.

Definition ParseChain (raw : str) : res chain_error (list str) :=
  let lowered := ToLower (TrimSpace raw) in
  if match lowered with [] => true | _ => str_eqb lowered (lit "false") end then Err ProviderRequired
  else match parse_names [] (split_on ","%char raw) with
  | Ok [] => Err ProviderRequired
  | r => r
  end.

Record Chain := mkChain { ch_order : list Provider; ch_names : list str }.

Definition nets_of (sets : gmap str (list IPNet)) (name : str) : list IPNet := default [] (sets !! name).

(** The header providers in listed order; an unregistered name calls a nil
    function. *)
Fixpoint header_providers (sets : gmap str (list IPNet)) (names : list str) : res chain_error (list Provider) :=
  match names with
  | [] => Ok []
  | name :: names' =>
      match registry name with
      | None => Err NilProvider
      | Some build =>
          if pv_HeaderTrust (build []) then
            match nets_of sets name with
            | [] => Err (EmptyTrustSet name)
            | nets => match header_providers sets names' with Ok ps => Ok (build nets :: ps) | Err e => Err e end
            end
          else header_providers sets names'
      end
  end.

Definition fallback (sets : gmap str (list IPNet)) (names : list str) (name : str) : list Provider :=
  if bool_decide (name ∈ names) then match registry name with Some build => [build (nets_of sets name)] | None => [] end else [].

Definition NewChain (names : list str) (sets : gmap str (list IPNet)) : res chain_error Chain :=
  match header_providers sets names with
  | Err e => Err e
  | Ok ps =>
      match ps ++ fallback sets names (lit "direct") ++ fallback sets names (lit "none") with
      | [] => Err NothingUsable
      | order => Ok (mkChain order names)
      end
  end.

Record Outcome := mkOutcome {
  oc_ClientIP : str; oc_RemoteIP : str; oc_Provider : str; oc_Trusted : bool; oc_Reject : bool; oc_Reason : str
}.

Fixpoint resolve_in (order : list Provider) (remoteIP : str) (r : HTTPRequest) : Outcome :=
  match order with
  | [] => mkOutcome [] remoteIP [] false true (lit "no trusted provider")
  | p :: order' =>
      if negb (pv_Trusted p remoteIP) then resolve_in order' remoteIP r
      else if negb (pv_HeaderTrust p) then mkOutcome remoteIP remoteIP (pv_Name p) false false []
      else match pv_ClientIP p r with
      | Some ip => mkOutcome ip remoteIP (pv_Name p) true false []
      | None => mkOutcome [] remoteIP (pv_Name p) false true (lit "invalid proxy header")
      end
  end.

Definition remote_ip (r : HTTPRequest) : str := default [] (SplitHost (rq_RemoteAddr r)).

Definition Chain_Resolve (c : Chain) (r : HTTPRequest) : Outcome := resolve_in (ch_order c) (remote_ip r) r.

(** * The trust directory *)

Definition maxTrustDirEntries : nat := 128.
Definition maxExtraWarnNames : nat := 10.
Definition maxWarnNameLen : nat := 64.

(** A set and whether its file was missing; the path is left out. *)
Record TrustSet := mkTrustSet { ts_Nets : list IPNet; ts_Missing : bool }.

Definition Clip (s : str) (n : nat) : str :=
  let rs := runes s in if (length rs <=? n)%nat then s else encode (take n rs) ++ lit "…".

Fixpoint join_comma (ls : list str) : str :=
  match ls with [] => [] | [l] => l | l :: ls' => l ++ lit ", " ++ join_comma ls' end.

Definition extraWarning (extra : list str) : str :=
  match extra with
  | [] => []
  | _ =>
      let more := if (maxExtraWarnNames <? length extra)%nat
                  then lit ", ... and " ++ itoa (Z.of_nat (length extra - maxExtraWarnNames)) ++ lit " more" else [] in
      lit "extra trust files ignored: " ++ itoa (Z.of_nat (length extra)) ++ lit " (" ++
        join_comma (map (fun name => Clip name maxWarnNameLen) (take maxExtraWarnNames extra)) ++ more ++ lit ")"
  end.

(** A directory listing ([name], [IsDir]), or why there is none. *)
Inductive trust_dir := NoDir | BadDir | Dir (entries : list (str * bool)).
Inductive dir_warning := NoWarning | DirAbsent | ExtraFiles (line : str).

Definition txt (name : str) : str := name ++ lit ".txt".

Fixpoint load_sets (files : str -> trust_file) (active : list str) (required : gset str) : res load_error (gmap str TrustSet) :=
  match active with
  | [] => Ok ∅
  | name :: active' =>
      let rest set := match load_sets files active' required with Ok sets => Ok (<[name := set]> sets) | Err e => Err e end in
      match loadTrustFile (files (txt name)) with
      | Ok nets => rest (mkTrustSet nets false)
      | Err NotExist => if bool_decide (name ∈ required) then Err NotExist else rest (mkTrustSet [] true)
      | Err e => Err e
      end
  end.

Definition stray (active : list str) (entry : str * bool) : bool :=
  negb entry.2 && has_suffix entry.1 (lit ".txt") && negb (bool_decide (take (length entry.1 - 4) entry.1 ∈ active)).

Definition LoadTrustDir (dir : trust_dir) (files : str -> trust_file) (active : list str) (required : gset str)
    : res load_error (gmap str TrustSet * dir_warning) :=
  match dir with
  | NoDir => if bool_decide (required = ∅) then Ok (list_to_map (map (fun name => (name, mkTrustSet [] true)) active), DirAbsent) else Err NotExist
  | BadDir => Err ReadFailed
  | Dir entries =>
      match load_sets files active required with
      | Err e => Err e
      | Ok sets =>
          Ok (sets, match map fst (List.filter (stray active) (take maxTrustDirEntries entries)) with
                    | [] => NoWarning
                    | extra => ExtraFiles (extraWarning extra)
                    end)
      end
  end.

Inductive proxy_error := LoadError (e : load_error) | ChainError (e : chain_error).

Record ProxyEntry := mkProxyEntry { pe_Name : str; pe_Count : Z; pe_Missing : bool }.
Record ProxyChainInfo := mkProxyChainInfo { pi_Chain : Chain; pi_Names : list str; pi_Entries : list ProxyEntry; pi_AllowsDirect : bool; pi_Warning : dir_warning }.

Definition needs_file (name : str) : bool := match registry name with Some build => pv_NeedsFile (build []) | None => false end.

Definition LoadProxyChain (dir : trust_dir) (files : str -> trust_file) (names : list str) : res proxy_error ProxyChainInfo :=
  let required : gset str := list_to_set (List.filter needs_file names) in
  match LoadTrustDir dir files names required with
  | Err e => Err (LoadError e)
  | Ok (sets, warn) =>
      match NewChain names (ts_Nets <$> sets) with
      | Err e => Err (ChainError e)
      | Ok chain =>
          let entry name := let set := default (mkTrustSet [] false) (sets !! name) in mkProxyEntry name (Z.of_nat (length (ts_Nets set))) (ts_Missing set) in
          Ok (mkProxyChainInfo chain names (map entry names) (existsb (fun name => str_eqb name (lit "none") || str_eqb name (lit "direct")) names) warn)
      end
  end.

(** * The server's side *)

(** [ProxyChain], or the chain of [none] when the server never built one. *)
Definition proxyChainOrDirect (chain : option Chain) : Chain := default (mkChain [none []] [lit "none"]) chain.

Definition resolveClientIP (chain : option Chain) (r : HTTPRequest) : Outcome := Chain_Resolve (proxyChainOrDirect chain) r.
Definition getClientIP (chain : option Chain) (r : HTTPRequest) : str := oc_ClientIP (resolveClientIP chain r).
Definition rejectUntrustedProxy (chain : option Chain) (r : HTTPRequest) : bool := oc_Reject (resolveClientIP chain r).

Fixpoint join_space (ls : list str) : str :=
  match ls with [] => [] | [l] => l | l :: ls' => l ++ lit " " ++ join_space ls' end.

(** The received proxy headers for the log; the names as the code spells them. *)
Definition proxyHeadersForLog (r : HTTPRequest) : str :=
  join_space (omap (fun h : str * str => match rq_Header r h.2 with [] => None | v => Some (h.1 ++ lit "=" ++ Clip v 200) end)
    [(lit "CF-Connecting-IP", cf_header); (lit "X-Forwarded-For", lit "X-Forwarded-For"); (lit "X-Real-IP", lit "X-Real-Ip")]).

(** * Onion ingress *)

(** [strings.Trim(s, "[]")]. *)
Definition is_bracket (c : ascii) : bool := byte_eqb c "["%char || byte_eqb c "]"%char.
Fixpoint drop_while (p : ascii -> bool) (s : str) : str := match s with c :: s' => if p c then drop_while p s' else s | [] => [] end.
Definition trim_brackets (s : str) : str := reverse (drop_while is_bracket (reverse (drop_while is_bracket s))).

Definition trim_suffix (s suf : str) : str := if has_suffix s suf then take (length s - length suf) s else s.

Definition normalizeOnionHost (host : str) : str :=
  match TrimSpace (ToLower host) with
  | [] => []
  | host => match SplitHost host with Some h => h | None => trim_suffix (trim_brackets host) (lit ".") end
  end.

Fixpoint parse_onions (seen : list str) (parts : list str) : option (list str) :=
  match parts with
  | [] => Some []
  | part :: parts' =>
      match normalizeOnionHost part with
      | [] => parse_onions seen parts'
      | name => if negb (has_suffix name (lit ".onion")) then None
                else if bool_decide (name ∈ seen) then parse_onions seen parts'
                else names ← parse_onions (name :: seen) parts'; Some (name :: names)
      end
  end.
Definition ParseOnionHosts (raw : str) : option (list str) := parse_onions [] (split_on ","%char raw).

Definition OnionEnabled (hosts : list str) : bool := negb (bool_decide (hosts = [])).
Definition IsOnionHost (hosts : list str) (host : str) : bool :=
  match hosts, normalizeOnionHost host with
  | [], _ | _, [] => false
  | _, name => bool_decide (name ∈ hosts)
  end.
Definition onionRequest (hosts : list str) (r : HTTPRequest) : bool := OnionEnabled hosts && IsOnionHost hosts (rq_Host r).

(** The hops, and whether a missing file left only loopback. *)
Definition LoadOnionTrust (f : trust_file) : res load_error (list IPNet * bool) :=
  match loadTrustFile f with
  | Ok nets => Ok (nets, false)
  | Err NotExist => Ok ([], true)
  | Err e => Err e
  end.

(** * A dial *)

(** The server's network policy. *)
Record NetPolicy := mkNetPolicy { np_Chain : option Chain; np_Blocklist : list IPNet; np_OnionHosts : list str; np_OnionTrust : list IPNet }.

(** What [ServeWS] reads of the request. *)
Definition dial_of (np : NetPolicy) (r : HTTPRequest) : Dial :=
  let outcome := resolveClientIP (np_Chain np) r in
  mkDial (oc_Reject outcome) (oc_ClientIP outcome) (oc_Trusted outcome) (blocklisted (np_Blocklist np) (oc_ClientIP outcome)) (isIPv4 (oc_ClientIP outcome))
    (rq_TLS r) (rq_Header r (lit "X-Forwarded-Proto")) (onionRequest (np_OnionHosts np) r) (containsIP (np_OnionTrust np) (oc_RemoteIP outcome))
    (rq_Pass r) (rq_Header r (lit "X-V2v-Pass")).

Definition serve_request (np : NetPolicy) (cfg : DoorConfig) (now now2 : time) (clients : Z) (r : HTTPRequest) (p : Porch) :=
  ServeWS cfg now now2 clients (dial_of np r) p.
End unicode.

Section laws.
Context {U : Unicode}.

(** * The shape of a chain *)

Definition known (name : str) : Prop := name = lit "cloudflare" \/ name = lit "direct" \/ name = lit "none".

Lemma registry_known name b : registry name = Some b -> known name.
Proof.
  unfold registry, str_eqb, known. case_bool_decide; [by left|]. case_bool_decide; [right; by left|]. case_bool_decide; [right; by right|done].
Qed.

Lemma parse_names_known parts : forall seen names, parse_names seen parts = Ok names -> Forall known names /\ NoDup names /\ forall x, x ∈ names -> x ∉ seen.
Proof.
  induction parts as [|part parts IH]; intros seen names; cbn [parse_names].
  - intros [= <-]. split; [by apply Forall_nil|]. split; [apply NoDup_nil_2|]. intros x H. by apply not_elem_of_nil in H.
  - destruct (match ToLower (TrimSpace part) with [] => true | _ => _ end) eqn:E; [apply IH|]. destruct (registry _) as [b|] eqn:Er; [|done].
    destruct (parse_names _ parts) as [ns|] eqn:Ep; [|done]. intros [= <-]. destruct (IH _ _ Ep) as (H1 & H2 & H3).
    split; [apply Forall_cons_2; [by eapply registry_known|done]|]. split; [apply NoDup_cons_2; [|done]; intros Hin; apply (H3 _ Hin); left|].
    intros x [->|Hx]%elem_of_cons; [|intros Hs; apply (H3 x Hx); by right]. destruct (ToLower (TrimSpace part)); [done|]. by apply bool_decide_eq_false in E.
Qed.

Lemma ParseChain_known raw names : ParseChain raw = Ok names -> Forall known names /\ NoDup names /\ names <> [].
Proof.
  unfold ParseChain. destruct (match ToLower (TrimSpace raw) with [] => true | _ => _ end); [done|]. destruct (parse_names [] _) as [ns|] eqn:E; [|done].
  apply parse_names_known in E as (H1 & H2 & _). destruct ns as [|n ns]; [done|]. intros [= <-]. done.
Qed.

Definition edge_nets (names : list str) (sets : gmap str (list IPNet)) : option (list IPNet) :=
  if bool_decide (lit "cloudflare" ∈ names) then Some (nets_of sets (lit "cloudflare")) else None.

(** At most one header provider, then the fallbacks. *)
Definition chain_order (names : list str) (sets : gmap str (list IPNet)) : list Provider :=
  match edge_nets names sets with Some nets => [cloudflare nets] | None => [] end ++ fallback sets names (lit "direct") ++ fallback sets names (lit "none").

Lemma header_providers_known sets names : Forall known names -> NoDup names ->
  header_providers sets names = match edge_nets names sets with Some [] => Err (EmptyTrustSet (lit "cloudflare")) | Some nets => Ok [cloudflare nets] | None => Ok [] end.
Proof.
  unfold edge_nets. induction names as [|name names IH]; intros Hk Hd; [done|]. apply Forall_cons in Hk as [Hn Hk]. apply NoDup_cons in Hd as [Hnot Hd]. specialize (IH Hk Hd).
  cbn [header_providers]. destruct Hn as [->|[-> | ->]].
  - rewrite bool_decide_false in IH by done. rewrite bool_decide_true by left. change (registry (lit "cloudflare")) with (Some cloudflare). cbn [pv_HeaderTrust cloudflare].
    destruct (nets_of sets (lit "cloudflare")); [done|]. by rewrite IH.
  - change (registry (lit "direct")) with (Some direct). cbn [pv_HeaderTrust direct]. rewrite IH. by rewrite (bool_decide_ext _ (lit "cloudflare" ∈ lit "direct" :: names)) by (rewrite elem_of_cons; naive_solver).
  - change (registry (lit "none")) with (Some none). cbn [pv_HeaderTrust none]. rewrite IH. by rewrite (bool_decide_ext _ (lit "cloudflare" ∈ lit "none" :: names)) by (rewrite elem_of_cons; naive_solver).
Qed.

Lemma known_chain names sets : Forall known names -> NoDup names -> names <> [] ->
  NewChain names sets = match edge_nets names sets with Some [] => Err (EmptyTrustSet (lit "cloudflare")) | _ => Ok (mkChain (chain_order names sets) names) end.
Proof.
  intros Hk Hd Hn. unfold NewChain, chain_order. rewrite header_providers_known by done. destruct (edge_nets names sets) as [[|n nets]|] eqn:E; [done|done|].
  cbn [app]. destruct (fallback sets names (lit "direct") ++ fallback sets names (lit "none")) eqn:Ef; [|done]. exfalso. destruct names as [|name names]; [done|]. unfold edge_nets in E. case_bool_decide as Hc; [done|].
  apply app_eq_nil in Ef as [E1 E2]. unfold fallback in *. apply Forall_cons in Hk as [[->|[-> | ->]] _].
  - apply Hc. left.
  - rewrite bool_decide_true in E1 by left. done.
  - rewrite bool_decide_true in E2 by left. done.
Qed.

(** Any chain that was built has this order. *)
Lemma built_chain names sets c : Forall known names -> NoDup names -> NewChain names sets = Ok c -> ch_order c = chain_order names sets.
Proof.
  intros Hk Hd H. destruct (decide (names = [])) as [->|Hn]; [done|]. rewrite known_chain in H by done. destruct (edge_nets names sets) as [[|]|]; [done| |]; by injection H as <-.
Qed.

(** * Resolution *)

(** A fallback never reads the request. *)
Lemma fallback_resolve sets names r r' : remote_ip r = remote_ip r' ->
  resolve_in (fallback sets names (lit "direct") ++ fallback sets names (lit "none")) (remote_ip r) r =
  resolve_in (fallback sets names (lit "direct") ++ fallback sets names (lit "none")) (remote_ip r') r'.
Proof.
  intros <-. unfold fallback. change (registry (lit "direct")) with (Some direct). change (registry (lit "none")) with (Some none).
  destruct (bool_decide (lit "direct" ∈ names)), (bool_decide (lit "none" ∈ names)); cbn [app resolve_in direct none pv_Trusted pv_HeaderTrust negb]; done.
Qed.

Lemma fallback_untrusted sets names r : let o := resolve_in (fallback sets names (lit "direct") ++ fallback sets names (lit "none")) (remote_ip r) r in
  oc_Trusted o = false /\ oc_ClientIP o = (if oc_Reject o then [] else remote_ip r).
Proof.
  unfold fallback. change (registry (lit "direct")) with (Some direct). change (registry (lit "none")) with (Some none).
  destruct (bool_decide (lit "direct" ∈ names)), (bool_decide (lit "none" ∈ names)); cbn [app resolve_in direct none pv_Trusted pv_HeaderTrust negb]; try done.
  - by destruct (containsIP _ _).
  - by destruct (containsIP _ _).
Qed.

Definition from_edge (names : list str) (sets : gmap str (list IPNet)) (r : HTTPRequest) : bool :=
  match edge_nets names sets with Some nets => containsIP nets (remote_ip r) | None => false end.

Lemma resolve_off_edge names sets r : from_edge names sets r = false ->
  resolve_in (chain_order names sets) (remote_ip r) r = resolve_in (fallback sets names (lit "direct") ++ fallback sets names (lit "none")) (remote_ip r) r.
Proof.
  unfold from_edge, chain_order. destruct (edge_nets names sets); [|done]. intros H. cbn [app resolve_in cloudflare pv_Trusted]. by rewrite H.
Qed.

(** C13. A peer that is not one of the configured edge addresses cannot talk its way
    past the door: whatever forwarding headers it sends (all but the pass itself),
    the whole dial — blocklist, IPv4 rule, TLS rule, onion ingress, gate, rate and
    slots — decides exactly as it does for any other headers, on the address of the
    socket. *)
Theorem spoofed_headers_change_nothing raw names sets c np cfg now now2 clients r r' p :
  ParseChain raw = Ok names -> NewChain names sets = Ok c -> np_Chain np = Some c -> from_edge names sets r = false ->
  rq_RemoteAddr r' = rq_RemoteAddr r -> rq_Host r' = rq_Host r -> rq_TLS r' = rq_TLS r -> rq_Pass r' = rq_Pass r ->
  rq_Header r' (lit "X-V2v-Pass") = rq_Header r (lit "X-V2v-Pass") ->
  serve_request np cfg now now2 clients r p = serve_request np cfg now now2 clients r' p /\
  getClientIP (np_Chain np) r = (if rejectUntrustedProxy (np_Chain np) r then [] else remote_ip r).
Proof.
  intros Hraw Hc Hnp Hedge H1 H2 H3 H4 H5. apply ParseChain_known in Hraw as (Hk & Hd & _). pose proof (built_chain _ _ _ Hk Hd Hc) as Ho.
  assert (remote_ip r = remote_ip r') as Hr by (unfold remote_ip; by rewrite H1).
  assert (from_edge names sets r' = false) as Hedge' by (unfold from_edge in *; by rewrite <- Hr).
  pose proof (fallback_untrusted sets names r) as [Ht Hip].
  assert (resolveClientIP (np_Chain np) r = resolveClientIP (np_Chain np) r' /\ oc_Trusted (resolveClientIP (np_Chain np) r) = false /\
    oc_ClientIP (resolveClientIP (np_Chain np) r) = if oc_Reject (resolveClientIP (np_Chain np) r) then [] else remote_ip r) as (He & Hu & Hx).
  { rewrite Hnp. unfold resolveClientIP, Chain_Resolve. change (proxyChainOrDirect (Some c)) with c. rewrite Ho, !resolve_off_edge by done. rewrite <- (fallback_resolve _ _ r r') by done. done. }
  split; [|exact Hx]. unfold serve_request, dial_of. rewrite <- He. unfold ServeWS. cbn [dl_Reject dl_ClientIP dl_Blocked dl_IPv4].
  assert (onionRequest (np_OnionHosts np) r = onionRequest (np_OnionHosts np) r') as Hon by (unfold onionRequest; by rewrite H2).
  unfold attempted, pass_gate, IsSecuredConnect. cbn [dl_ClientIP dl_Trusted dl_Proto dl_TLS dl_Onion dl_OnionTrusted dl_Query dl_Header]. rewrite Hu, Hon, H3, H4, H5. done.
Qed.

(** The order of [PROXY_PROVIDER] is irrelevant, membership is not: two settings
    with the same members build chains that resolve every request alike, or are
    refused at boot for the same reason. *)
Theorem chain_order_is_irrelevant raw raw' names names' sets : ParseChain raw = Ok names -> ParseChain raw' = Ok names' ->
  (forall name, name ∈ names <-> name ∈ names') ->
  match NewChain names sets, NewChain names' sets with
  | Ok c, Ok c' => forall r, Chain_Resolve c r = Chain_Resolve c' r
  | Err e, Err e' => e = e'
  | _, _ => False
  end.
Proof.
  intros H H' He. apply ParseChain_known in H as (Hk & Hd & Hn). apply ParseChain_known in H' as (Hk' & Hd' & Hn'). rewrite !known_chain by done.
  assert (edge_nets names' sets = edge_nets names sets) as E by (unfold edge_nets; by rewrite (bool_decide_ext _ _ (He (lit "cloudflare")))).
  assert (chain_order names' sets = chain_order names sets) as Ec.
  { unfold chain_order, fallback. rewrite E. by rewrite (bool_decide_ext _ _ (He (lit "direct"))), (bool_decide_ext _ _ (He (lit "none"))). }
  rewrite E. destruct (edge_nets names sets) as [[|]|]; [done| |]; intros r; unfold Chain_Resolve; cbn [ch_order]; by rewrite Ec.
Qed.

(** * From the files to an address *)

Lemma load_sets_spec files required active : forall sets, load_sets files active required = Ok sets -> forall name, name ∈ active ->
  exists set, sets !! name = Some set /\ (loadTrustFile (files (txt name)) = Ok (ts_Nets set) \/ loadTrustFile (files (txt name)) = Err NotExist /\ name ∉ required).
Proof.
  induction active as [|x active IH]; intros sets; cbn [load_sets]; [intros _ name H; by apply not_elem_of_nil in H|]. cbv zeta.
  assert (forall set, (loadTrustFile (files (txt x)) = Ok (ts_Nets set) \/ loadTrustFile (files (txt x)) = Err NotExist /\ x ∉ required) ->
    match load_sets files active required with Ok sets => Ok (<[x := set]> sets) | Err e => Err e end = Ok sets -> forall name, name ∈ x :: active ->
    exists set, sets !! name = Some set /\ (loadTrustFile (files (txt name)) = Ok (ts_Nets set) \/ loadTrustFile (files (txt name)) = Err NotExist /\ name ∉ required)) as Hrest.
  { intros set Hset. destruct (load_sets files active required) as [ss|] eqn:E; [|done]. intros [= <-] name Hin. destruct (decide (name = x)) as [->|Hx].
    - exists set. by rewrite lookup_insert_eq.
    - rewrite lookup_insert_ne by done. apply (IH ss eq_refl). by apply elem_of_cons in Hin as [?|]. }
  destruct (loadTrustFile (files (txt x))) as [nets|[| | |]] eqn:E; try done.
  - apply Hrest. by left.
  - case_bool_decide; [done|]. apply Hrest. by right.
Qed.

Lemma edge_file dir files names info : LoadProxyChain dir files names = Ok info ->
  exists sets, NewChain names sets = Ok (pi_Chain info) /\
    (lit "cloudflare" ∈ names -> loadTrustFile (files (txt (lit "cloudflare"))) = Ok (nets_of sets (lit "cloudflare"))).
Proof.
  intros H. unfold LoadProxyChain in H. destruct (LoadTrustDir _ _ _ _) as [[sets w]|] eqn:E; [|done]. destruct (NewChain names (ts_Nets <$> sets)) as [c|] eqn:Ec; [|done].
  injection H as <-. cbn [pi_Chain]. exists (ts_Nets <$> sets). split; [done|]. intros Hin.
  assert (lit "cloudflare" ∈ (list_to_set (List.filter needs_file names) : gset str)) as Hreq.
  { apply elem_of_list_to_set, list_elem_of_In, filter_In. split; [by apply list_elem_of_In|reflexivity]. }
  unfold LoadTrustDir in E. destruct dir as [| |entries]; [|done|].
  - rewrite bool_decide_false in E by (intros He; rewrite He in Hreq; by apply not_elem_of_empty in Hreq). done.
  - destruct (load_sets files names _) as [ss|] eqn:El; [|done]. injection E as <- _. destruct (load_sets_spec _ _ _ _ El _ Hin) as (set & Hs & [Hl|[_ Hno]]); [|done].
    unfold nets_of. rewrite lookup_fmap, Hs. exact Hl.
Qed.

Lemma loaded_file f nets : loadTrustFile f = Ok nets -> exists perm data, f = File perm data /\ Z.land perm 18 = 0 /\ parse_trust data = Ok nets.
Proof.
  destruct f as [| |perm data]; [done|done|]. cbn [loadTrustFile]. destruct (Z.land perm 18 =? 0) eqn:E; [|done]. cbn [negb]. destruct (parse_trust data) eqn:Ep; [|done].
  intros [= <-]. exists perm, data. split; [done|]. split; [by apply Z.eqb_eq|done].
Qed.

(** C14. Trust never degrades silently: an address is taken from a header only when
    the edge's own file was there, not writable by others and readable to its last
    line, and lists the peer; and then the address is the header's, in its one
    canonical spelling, so that no two spellings make two clients. *)
Theorem header_address_is_backed_by_its_file raw names dir files info r : ParseChain raw = Ok names -> LoadProxyChain dir files names = Ok info ->
  oc_Trusted (Chain_Resolve (pi_Chain info) r) = true ->
  exists perm data nets ip, files (lit "cloudflare.txt") = File perm data /\ Z.land perm 18 = 0 /\ parse_trust data = Ok nets /\ containsIP nets (remote_ip r) = true /\
    ParseIP (TrimSpace (rq_Header r cf_header)) = Some ip /\ oc_ClientIP (Chain_Resolve (pi_Chain info) r) = IP_String ip /\ ParseIP (IP_String ip) = Some ip /\
    oc_Reject (Chain_Resolve (pi_Chain info) r) = false.
Proof.
  intros Hraw Hload. apply ParseChain_known in Hraw as (Hk & Hd & _). destruct (edge_file _ _ _ _ Hload) as (sets & Hc & Hfile).
  unfold Chain_Resolve. rewrite (built_chain _ _ _ Hk Hd Hc). intros Ht.
  destruct (from_edge names sets r) eqn:He; [|rewrite resolve_off_edge in Ht by done; pose proof (fallback_untrusted sets names r) as [Hu _]; by rewrite Hu in Ht].
  unfold from_edge in He. destruct (edge_nets names sets) as [nets|] eqn:Ee; [|done]. unfold chain_order in *. rewrite Ee in *. cbn [app resolve_in cloudflare pv_Trusted pv_HeaderTrust pv_ClientIP negb] in *.
  unfold edge_nets in Ee. case_bool_decide as Hin; [|done]. injection Ee as <-. destruct (loaded_file _ _ (Hfile Hin)) as (perm & data & Hf & Hp & Hparse).
  rewrite He in *. cbn [negb] in *. unfold cloudflare_ClientIP in *. destruct (TrimSpace (rq_Header r cf_header)) as [|c s] eqn:Eh; [done|].
  destruct (ParseIP (c :: s)) as [ip|] eqn:Ei; [|done]. cbn [fmap option_fmap option_map] in *. exists perm, data, (nets_of sets (lit "cloudflare")), ip.
  repeat (split; [done|]). split; [|done]. apply ParseIP_String. by apply ParseIP_spec in Ei as [? _].
Qed.
End laws.

(** * Witnesses *)

Definition demo_request (remote cf : string) : HTTPRequest :=
  mkHTTPRequest (lit remote) (lit "chat.example") true (fun h => if str_eqb h cf_header then lit cf else []) [].

Definition demo_files (name : str) : trust_file :=
  if str_eqb name (lit "cloudflare.txt") then File 384 (lit "# edge" ++ [nl] ++ lit "173.245.48.0/20" ++ [nl] ++ lit "2606:4700::/32" ++ [nl]) else NoFile.

Definition demo_sets : gmap str (list IPNet) :=
  {[ lit "cloudflare" := match loadTrustFile (demo_files (lit "cloudflare.txt")) with Ok nets => nets | Err _ => [] end ]}.

Definition demo_chain : Chain := match NewChain [lit "cloudflare"; lit "none"] demo_sets with Ok c => c | Err _ => mkChain [] [] end.

Definition demo_policy : NetPolicy := mkNetPolicy (Some demo_chain) [] [] [].

Lemma demo_chain_ok : NewChain [lit "cloudflare"; lit "none"] demo_sets = Ok demo_chain.
Proof.
  assert (is_ok (NewChain [lit "cloudflare"; lit "none"] demo_sets) = true) as H by (vm_compute; reflexivity).
  unfold demo_chain. destruct (NewChain _ _); [reflexivity|discriminate].
Qed.

Lemma spoofed_headers_change_nothing_witness :
  let r := demo_request "198.51.100.9:1234" "10.9.9.9" in let r' := demo_request "198.51.100.9:1234" "" in
  let cfg := mkDoorConfig true false Second 2 None in let p := mkPorch NewDoors None None in
  serve_request (U := sample_unicode) demo_policy cfg 0 0 0 r p = serve_request (U := sample_unicode) demo_policy cfg 0 0 0 r' p /\
  getClientIP (np_Chain demo_policy) r = (if rejectUntrustedProxy (np_Chain demo_policy) r then [] else remote_ip r).
Proof.
  cbv zeta. refine (spoofed_headers_change_nothing (U := sample_unicode) (lit "CloudFlare, none") [lit "cloudflare"; lit "none"] demo_sets demo_chain
    demo_policy _ _ _ _ _ _ _ _ demo_chain_ok eq_refl _ eq_refl eq_refl eq_refl eq_refl eq_refl); vm_compute; reflexivity.
Defined.

Lemma chain_order_is_irrelevant_witness :
  let names := [lit "none"; lit "cloudflare"] in let names' := [lit "cloudflare"; lit "none"] in
  ParseChain (U := sample_unicode) (lit "none,cloudflare") = Ok names /\
  match NewChain names demo_sets, NewChain names' demo_sets with Ok c, Ok c' => forall r, Chain_Resolve c r = Chain_Resolve c' r | Err e, Err e' => e = e' | _, _ => False end.
Proof.
  cbv zeta. split; [vm_compute; reflexivity|].
  apply (chain_order_is_irrelevant (U := sample_unicode) (lit "none,cloudflare") (lit "cloudflare,none")); [vm_compute; reflexivity|vm_compute; reflexivity|].
  intros name. rewrite !elem_of_cons. naive_solver.
Defined.

Lemma demo_info_ok : exists info, LoadProxyChain (Dir [(lit "cloudflare.txt", false)]) demo_files [lit "cloudflare"; lit "none"] = Ok info /\
  oc_Trusted (Chain_Resolve (pi_Chain info) (demo_request "[2606:4700::1]:443" "2001:DB8:0::9")) = true.
Proof.
  assert (match LoadProxyChain (Dir [(lit "cloudflare.txt", false)]) demo_files [lit "cloudflare"; lit "none"] with
          | Ok info => oc_Trusted (Chain_Resolve (pi_Chain info) (demo_request "[2606:4700::1]:443" "2001:DB8:0::9")) | Err _ => false end = true) as H by (vm_compute; reflexivity).
  destruct (LoadProxyChain _ _ _) as [info|]; [by exists info|discriminate].
Qed.

Lemma header_address_is_backed_by_its_file_witness :
  let r := demo_request "[2606:4700::1]:443" "2001:DB8:0::9" in
  exists info perm data nets ip, demo_files (lit "cloudflare.txt") = File perm data /\ Z.land perm 18 = 0 /\ parse_trust data = Ok nets /\ containsIP nets (remote_ip r) = true /\
    ParseIP (TrimSpace (rq_Header r cf_header)) = Some ip /\ oc_ClientIP (Chain_Resolve (pi_Chain info) r) = IP_String ip /\ ParseIP (IP_String ip) = Some ip /\
    oc_Reject (Chain_Resolve (pi_Chain info) r) = false.
Proof.
  cbv zeta. destruct demo_info_ok as (info & Hl & Ht). exists info.
  refine (header_address_is_backed_by_its_file (U := sample_unicode) (lit "cloudflare,none") [lit "cloudflare"; lit "none"] _ _ info _ _ Hl Ht). vm_compute; reflexivity.
Defined.

(** A client without a name: under [none], a peer whose address has no port is
    accepted with an empty client address. *)
Lemma none_accepts_no_address : let o := resolveClientIP None (demo_request "@" "") in oc_Reject o = false /\ oc_ClientIP o = [].
Proof. split; reflexivity. Qed.

(** A port keeps the trailing dot of a fully qualified onion name. *)
Lemma onion_dot_with_port : normalizeOnionHost (U := sample_unicode) (lit "abc.onion.") = lit "abc.onion" /\
  normalizeOnionHost (U := sample_unicode) (lit "abc.onion.:80") = lit "abc.onion.".
Proof. by vm_compute. Qed.

(** A list its group may write is refused too. *)
Lemma group_writable_refused d : loadTrustFile (File 432 d) = Err WritableByOthers.
Proof. reflexivity. Qed.
