(* ===== verification/Groups.v ===== *)
(** Subnet and geography keys of an address ([internal/behavior/group.go]): what
    the behavior engine aggregates by. *)

From S2P Require Import Prelude Bytes Utf8 NetIP.
Local Open Scope Z_scope.

Definition mask_string (ip : IP) (bits width : Z) : str :=
  match Mask ip (CIDRMask bits width) with Some m => IP_String m | None => lit "<nil>" end.

Definition GroupKeys (ip : str) : list str :=
  match ParseIP (TrimSpace ip) with
  | None => []
  | Some parsed =>
      match To4 parsed with
      | Some v4 => [lit "ip4/24:" ++ mask_string v4 24 32]
      | None => [lit "ip6/64:" ++ mask_string parsed 64 128; lit "ip6/48:" ++ mask_string parsed 48 128]
      end
  end.

Record GeoInfo := mkGeo { geo_ASN : Z; geo_Country : str; geo_Region : str }.

(** [strings.ToUpper]; [upper] is Unicode's table outside ASCII. *)
Definition upper_rune (upper : Z -> Z) (r : Z) : Z := if r <? 128 then (if (97 <=? r) && (r <=? 122) then r - 32 else r) else upper r.
Definition ToUpper (upper : Z -> Z) (s : str) : str := strings_map (upper_rune upper) s.

(** [lookup]: the resolver; [None] when there is none. *)
Definition GeoKeys (upper : Z -> Z) (lookup : option (str -> option GeoInfo)) (ip : str) : list str :=
  match lookup with
  | None => []
  | Some lookup =>
      match lookup ip with
      | None => []
      | Some g =>
          (if geo_ASN g =? 0 then [] else [lit "asn:" ++ utoa (geo_ASN g)]) ++
          (match geo_Country g with [] => [] | c => [lit "country:" ++ ToUpper upper c] end) ++
          (match geo_Region g with [] => [] | r => [lit "region:" ++ r] end)
      end
  end.

Example group_ex : map GroupKeys [lit " 203.0.113.77 "; lit "2001:db8:1:2:3::4"; lit "::ffff:10.1.2.3"; lit "x"]
  = [[lit "ip4/24:203.0.113.0"]; [lit "ip6/64:2001:db8:1:2::"; lit "ip6/48:2001:db8:1::"]; [lit "ip4/24:10.1.2.0"]; []].
Proof. vm_compute. reflexivity. Qed.

(** * Theorems *)

Lemma and_255 a : Forall is_byte a -> and_bytes a (replicate (length a) 255) = a.
Proof.
  induction 1 as [|x a Hx _ IH]; [done|]. cbn. unfold and_bytes in IH. rewrite IH. f_equal. change 255 with (Z.ones 8). rewrite Z.land_ones by lia. apply Z.mod_small. exact Hx.
Qed.

Lemma and_0 a : and_bytes a (replicate (length a) 0) = replicate (length a) 0.
Proof. induction a as [|x a IH]; [done|]. cbn. unfold and_bytes in IH. by rewrite IH, Z.land_0_r. Qed.

(** The first [k] bytes, the rest cleared. *)
Lemma masked ip k : Forall is_byte ip -> (k <= length ip)%nat ->
  and_bytes ip (replicate k 255 ++ replicate (length ip - k) 0) = take k ip ++ replicate (length ip - k) 0.
Proof.
  intros Hb Hk. assert (length (take k ip) = k /\ length (drop k ip) = (length ip - k)%nat) as [H1 H2] by (rewrite length_take, length_drop; lia).
  unfold and_bytes. rewrite <- (take_drop k ip) at 1. rewrite zip_with_app by (rewrite H1, length_replicate; done).
  f_equal; [rewrite <- H1 at 2; by apply and_255, Forall_take|]. rewrite <- H2. apply and_0.
Qed.

Lemma mask_string_v4 b : length b = 4%nat -> Forall is_byte b -> mask_string b 24 32 = IP_String (take 3 b ++ [0]).
Proof.
  intros Hl Hb. unfold mask_string, Mask. rewrite Hl. cbn [CIDRMask]. change (CIDRMask 24 32) with (replicate 3 255 ++ replicate (4 - 3) 0). cbn [length Nat.eqb andb replicate app Nat.sub].
  rewrite Hl. cbn [Nat.eqb]. pose proof (masked b 3 Hb ltac:(lia)) as H. rewrite Hl in H. cbn in H. by rewrite H.
Qed.

Definition v6_prefix (ip : IP) (k : nat) : IP := take k ip ++ replicate (16 - k) 0.

Lemma mask_string_v6 ip k : length ip = 16%nat -> Forall is_byte ip -> k = 6%nat \/ k = 8%nat -> mask_string ip (8 * Z.of_nat k) 128 = IP_String (v6_prefix ip k).
Proof.
  intros Hl Hb Hk. unfold mask_string, Mask, v6_prefix. pose proof (masked ip k Hb ltac:(destruct Hk; subst; lia)) as H. rewrite Hl in H.
  destruct Hk as [-> | ->].
  - change (CIDRMask (8 * Z.of_nat 6) 128) with (replicate 6 255 ++ replicate (16 - 6) 0). rewrite Hl. cbn [length Nat.eqb andb replicate app Nat.sub]. rewrite Hl. cbn [Nat.eqb]. cbn in H. by rewrite H.
  - change (CIDRMask (8 * Z.of_nat 8) 128) with (replicate 8 255 ++ replicate (16 - 8) 0). rewrite Hl. cbn [length Nat.eqb andb replicate app Nat.sub]. rewrite Hl. cbn [Nat.eqb]. cbn in H. by rewrite H.
Qed.

Lemma v6_prefix_ip ip k : is_ip ip -> (k <= 16)%nat -> is_ip (v6_prefix ip k).
Proof.
  intros [Hl Hb] Hk. unfold v6_prefix. split; [rewrite length_app, length_take, length_replicate; lia|]. apply Forall_app; split; [by apply Forall_take|].
  apply Forall_replicate. unfold is_byte. lia.
Qed.

Lemma v4_string_inj a b : length a = 4%nat -> length b = 4%nat -> Forall is_byte a -> Forall is_byte b -> IP_String a = IP_String b -> a = b.
Proof.
  intros Ha Hb Fa Fb. unfold IP_String, To4. rewrite Ha, Hb. cbn [Nat.eqb]. intros E. apply (f_equal parse4) in E. rewrite !parse4_dotted in E by done. by simplify_eq.
Qed.

(** Two addresses are neighbours when they share the widest key of their family. *)
Definition neighbours (ip ip' : IP) : Prop :=
  match To4 ip, To4 ip' with
  | Some a, Some b => take 3 a = take 3 b
  | None, None => take 6 ip = take 6 ip'
  | _, _ => False
  end.

Definition same_block (ip ip' : IP) : Prop :=
  match To4 ip, To4 ip' with
  | Some a, Some b => take 3 a = take 3 b
  | None, None => take 8 ip = take 8 ip'
  | _, _ => False
  end.

Lemma v4_block_inj a b : length a = 4%nat -> length b = 4%nat -> Forall is_byte a -> Forall is_byte b ->
  mask_string a 24 32 = mask_string b 24 32 <-> take 3 a = take 3 b.
Proof.
  intros Ha Hb Fa Fb. rewrite !mask_string_v4 by done. split; [|by intros ->].
  intros E. apply v4_string_inj in E; [by apply app_inj_2 in E as [? _]| | |apply Forall_app; split; [by apply Forall_take|apply Forall_singleton; unfold is_byte; lia]..]; rewrite length_app, length_take, ?Ha, ?Hb; reflexivity.
Qed.

Lemma v6_block_inj ip ip' k : is_ip ip -> is_ip ip' -> k = 6%nat \/ k = 8%nat ->
  mask_string ip (8 * Z.of_nat k) 128 = mask_string ip' (8 * Z.of_nat k) 128 <-> take k ip = take k ip'.
Proof.
  intros Hip Hip' Hk. pose proof Hip as [Hl Hb]. pose proof Hip' as [Hl' Hb']. rewrite !mask_string_v6 by assumption. split; [|unfold v6_prefix; by intros ->].
  intros E. apply IP_String_inj in E; [|apply v6_prefix_ip; [assumption|destruct Hk; lia]..]. unfold v6_prefix in E. apply app_inj_2 in E as [? _]; [assumption|reflexivity].
Qed.

(** The keys are subnets, whatever the spelling: two addresses share a key
    exactly when they are of one family and in one IPv4 /24 or one IPv6 /48, and
    carry the same keys exactly when that block is the same /24 or /64; a mapped
    IPv4 address counts as IPv4. *)
Theorem group_keys_are_subnets s s' ip ip' : ParseIP (TrimSpace s) = Some ip -> ParseIP (TrimSpace s') = Some ip' ->
  ((exists k, k ∈ GroupKeys s /\ k ∈ GroupKeys s') <-> neighbours ip ip') /\ (GroupKeys s = GroupKeys s' <-> same_block ip ip').
Proof.
  intros H H'. apply ParseIP_spec in H as Hip. apply ParseIP_spec in H' as Hip'. destruct Hip as [Hip _], Hip' as [Hip' _].
  unfold GroupKeys, neighbours, same_block. rewrite H, H'. destruct (To4 ip) as [a|] eqn:Ea, (To4 ip') as [b|] eqn:Eb.
  - destruct Hip as [Hl Hb], Hip' as [Hl' Hb']. apply To4_spec in Ea as [-> Ha]; [|done]. apply To4_spec in Eb as [-> Hb4]; [|done]. apply Forall_app in Hb as [_ Fa], Hb' as [_ Fb].
    pose proof (v4_block_inj a b Ha Hb4 Fa Fb) as Hinj. split.
    + rewrite <- Hinj. split; [|intros ->; eexists; split; by left]. intros (k & ->%list_elem_of_singleton & E%list_elem_of_singleton). by apply app_inv_head in E.
    + rewrite <- Hinj. split; [intros [= E]; by apply E|by intros ->].
  - split; [split; [|done]|split; done]. intros (k & ->%list_elem_of_singleton & Hk). repeat (apply elem_of_cons in Hk as [Hk|Hk]; [done|]). by apply not_elem_of_nil in Hk.
  - split; [split; [|done]|split; done]. intros (k & Hk & ->%list_elem_of_singleton). repeat (apply elem_of_cons in Hk as [Hk|Hk]; [done|]). by apply not_elem_of_nil in Hk.
  - pose proof (v6_block_inj ip ip' 8 Hip Hip' ltac:(by right)) as H8. pose proof (v6_block_inj ip ip' 6 Hip Hip' ltac:(by left)) as H6.
    change (8 * Z.of_nat 8) with 64 in H8. change (8 * Z.of_nat 6) with 48 in H6.
    assert (take 8 ip = take 8 ip' -> take 6 ip = take 6 ip') as Hw by (intros E; apply (f_equal (take 6)) in E; by rewrite !take_take in E).
    split.
    + split; [|intros E; exists (lit "ip6/48:" ++ mask_string ip 48 128); split; [right; left|rewrite (proj2 H6 E); right; left]].
      intros (k & Hk & Hk'). apply elem_of_cons in Hk as [-> | ->%list_elem_of_singleton]; apply elem_of_cons in Hk' as [E|E%list_elem_of_singleton]; try done.
      * apply app_inv_head in E. by apply Hw, H8.
      * apply app_inv_head in E. by apply H6.
    + split; [|intros E; by rewrite (proj2 H8 E), (proj2 H6 (Hw E))]. intros E. apply H8. injection E as E _. exact E.
Qed.

Lemma group_keys_are_subnets_witness :
  let s := lit "2001:DB8::1" in let s' := lit "2001:db8:0:0:ffff::2" in
  ((exists k, k ∈ GroupKeys s /\ k ∈ GroupKeys s') <-> neighbours ([32; 1; 13; 184] ++ replicate 11 0 ++ [1]) ([32; 1; 13; 184; 0; 0; 0; 0; 255; 255] ++ replicate 5 0 ++ [2])) /\
  (GroupKeys s = GroupKeys s' <-> same_block ([32; 1; 13; 184] ++ replicate 11 0 ++ [1]) ([32; 1; 13; 184; 0; 0; 0; 0; 255; 255] ++ replicate 5 0 ++ [2])).
Proof. cbv zeta. apply group_keys_are_subnets; vm_compute; reflexivity. Defined.
