(* ===== verification/UrlQuery.v ===== *)
(** Query strings (Go's [net/url]): escaping, [ParseQuery], [Values.Get] and
    [Values.Encode], the part the client's verify links and the server's
    handlers use.  What is encoded is read back. *)

From stdpp Require Import sorting.
From S2P Require Import Prelude Bytes Utf8 Wire Json EnvMerge NetIP TrustList Guard ProxyTrust.
Local Open Scope Z_scope.

(** * Escaping a component *)

Definition c_amp : ascii := "&"%char.
Definition c_eq : ascii := "="%char.
Definition c_plus : ascii := "+"%char.
Definition c_percent : ascii := "%"%char.

(** The bytes [shouldEscape] leaves alone in a query component. *)
Definition unreserved (c : ascii) : bool :=
  let v := byte_val c in
  ((97 <=? v) && (v <=? 122)) || ((65 <=? v) && (v <=? 90)) || is_digit c ||
  byte_eqb c "-"%char || byte_eqb c "_"%char || byte_eqb c "."%char || byte_eqb c "~"%char.

Definition upper_hex_digit (n : Z) : ascii := if n <? 10 then byte_of (48 + n) else byte_of (55 + n).

Definition escape_byte (c : ascii) : str :=
  if unreserved c then [c]
  else if byte_eqb c " "%char then [c_plus]
  else [c_percent; upper_hex_digit (byte_val c / 16); upper_hex_digit (byte_val c mod 16)].

Definition QueryEscape (s : str) : str := flat_map escape_byte s.

Fixpoint QueryUnescape (s : str) : option str :=
  match s with
  | [] => Some []
  | c :: s' =>
      if byte_eqb c c_percent then
        match s' with
        | a :: b :: s'' =>
            match hex_val a, hex_val b, QueryUnescape s'' with
            | Some x, Some y, Some t => Some (byte_of (16 * x + y) :: t)
            | _, _, _ => None
            end
        | _ => None
        end
      else (cons (if byte_eqb c c_plus then " "%char else c)) <$> QueryUnescape s'
  end.

(** * Queries *)

(** One [&]-separated part; [None] when it is empty or malformed, which
    [URL.Query] drops. *)
Definition parse_pair (part : str) : option (str * str) :=
  if has_byte ";"%char part then None
  else match part with
  | [] => None
  | _ =>
      let '(k, v) := match cut_byte c_eq part with Some kv => kv | None => (part, []) end in
      match QueryUnescape k, QueryUnescape v with Some k, Some v => Some (k, v) | _, _ => None end
  end.

(** The pairs of a query in their order. *)
Definition ParseQuery (query : str) : list (str * str) := omap parse_pair (split_on c_amp query).

(** [Values.Get]: the first value of a key. *)
Fixpoint query_Get (q : list (str * str)) (key : str) : str :=
  match q with [] => [] | (k, v) :: q' => if str_eqb k key then v else query_Get q' key end.

Fixpoint join_amp (ls : list str) : str :=
  match ls with [] => [] | [l] => l | l :: ls' => l ++ c_amp :: join_amp ls' end.

(** [Values.Encode] of values set once each: keys in byte order. *)
Definition Values := gmap str str.

Definition encode_pair (m : Values) (k : str) : str := QueryEscape k ++ c_eq :: QueryEscape (default [] (m !! k)).

Definition Values_Encode (m : Values) : str :=
  join_amp (map (encode_pair m) (sort_strings (map fst (map_to_list m)))).

(** * Lemmas *)

Definition query_safe (c : ascii) : bool :=
  unreserved c || byte_eqb c c_plus || byte_eqb c c_percent.

Lemma all_bytes_ok (p : ascii -> bool) : forallb (fun n => p (byte_of (Z.of_nat n))) (seq 0 256) = true -> forall c, p c = true.
Proof.
  intros H c. rewrite forallb_forall in H. pose proof (byte_val_range c).
  specialize (H (Z.to_nat (byte_val c))). rewrite Z2Nat.id, byte_of_val in H by lia. apply H, in_seq. lia.
Qed.

Lemma escape_byte_safe c : forallb query_safe (escape_byte c) = true.
Proof. apply (all_bytes_ok (fun c => forallb query_safe (escape_byte c))). vm_compute. reflexivity. Qed.

Lemma QueryEscape_safe s : forallb query_safe (QueryEscape s) = true.
Proof. induction s as [|c s IH]; [done|]. unfold QueryEscape in *. cbn [flat_map]. by rewrite forallb_app, escape_byte_safe. Qed.

Lemma safe_not_in x s : query_safe x = false -> forallb query_safe s = true -> x ∉ s.
Proof. intros Hx H Hin. rewrite forallb_forall in H. rewrite H in Hx; [done|]. by apply list_elem_of_In. Qed.

(** Undoing one byte. *)
Definition unescape_ok (c : ascii) : bool :=
  match escape_byte c with
  | [d] => negb (byte_eqb d c_percent) && byte_eqb (if byte_eqb d c_plus then " "%char else d) c
  | [p; a; b] =>
      byte_eqb p c_percent &&
      match hex_val a, hex_val b with Some x, Some y => byte_eqb (byte_of (16 * x + y)) c | _, _ => false end
  | _ => false
  end.

Lemma escape_undone c : unescape_ok c = true.
Proof. apply (all_bytes_ok unescape_ok). vm_compute. reflexivity. Qed.

Lemma Unescape_step c t : QueryUnescape (escape_byte c ++ t) = cons c <$> QueryUnescape t.
Proof.
  pose proof (escape_undone c) as H. unfold unescape_ok in H.
  destruct (escape_byte c) as [|d [|a [|b [|e l]]]]; try done; cbn [app QueryUnescape].
  - apply andb_true_iff in H as [H1 H2]. apply negb_true_iff in H1. rewrite H1. by apply byte_eqb_eq in H2 as ->.
  - apply andb_true_iff in H as [-> H]. destruct (hex_val a), (hex_val b); try done.
    apply byte_eqb_eq in H as ->. by destruct (QueryUnescape t).
Qed.

(** A component survives its escaping. *)
Lemma Unescape_Escape s : QueryUnescape (QueryEscape s) = Some s.
Proof. induction s as [|c s IH]; [done|]. unfold QueryEscape in *. cbn [flat_map]. by rewrite Unescape_step, IH. Qed.

Lemma escape_byte_length c : (length (escape_byte c) <= 3)%nat.
Proof. unfold escape_byte. repeat case_match; simpl; lia. Qed.

Lemma QueryEscape_length s : (length (QueryEscape s) <= 3 * length s)%nat.
Proof.
  induction s as [|c s IH]; [done|]. unfold QueryEscape in *. cbn [flat_map length]. rewrite length_app.
  pose proof (escape_byte_length c). lia.
Qed.

(** Text already safe is not lengthened. *)
Lemma QueryEscape_unreserved s : forallb unreserved s = true -> QueryEscape s = s.
Proof.
  induction s as [|c s IH]; [done|]. cbn [forallb]. intros [Hc Hs]%andb_true_iff. unfold QueryEscape in *.
  cbn [flat_map]. unfold escape_byte at 1. rewrite Hc. cbn [app]. by rewrite IH.
Qed.

Lemma split_on_app x a s : x ∉ a -> split_on x (a ++ x :: s) = a :: split_on x s.
Proof.
  induction a as [|c a IH]; intros Ha; cbn [app split_on].
  - by rewrite byte_eqb_refl.
  - rewrite not_elem_of_cons in Ha. destruct Ha as [Hc Ha]. rewrite (byte_eqb_neq c x) by done. by rewrite IH.
Qed.

Lemma split_on_none x a : x ∉ a -> split_on x a = [a].
Proof.
  induction a as [|c a IH]; intros Ha; [done|]. cbn [split_on]. rewrite not_elem_of_cons in Ha. destruct Ha as [Hc Ha].
  rewrite (byte_eqb_neq c x) by done. by rewrite IH.
Qed.

Lemma split_on_join ls : Forall (fun l => c_amp ∉ l) ls -> ls <> [] -> split_on c_amp (join_amp ls) = ls.
Proof.
  induction ls as [|l ls IH]; intros H Hne; [done|]. apply Forall_cons in H as [Hl H].
  destruct ls as [|l' ls]; [by apply split_on_none|]. cbn [join_amp]. rewrite split_on_app by done. f_equal. by apply IH.
Qed.

Lemma has_byte_not_in x s : x ∉ s -> has_byte x s = false.
Proof.
  unfold has_byte. intros H. destruct (cut_byte x s) as [[a b]|] eqn:E; [|done].
  apply cut_byte_Some in E as [-> _]. exfalso. apply H. apply list_elem_of_In. apply in_or_app. right. by left.
Qed.

Lemma cut_byte_at x p s : x ∉ p -> cut_byte x (p ++ x :: s) = Some (p, s).
Proof.
  induction p as [|c p IH]; intros Hp; cbn [app cut_byte].
  - by rewrite byte_eqb_refl.
  - rewrite not_elem_of_cons in Hp. destruct Hp as [Hc Hp]. rewrite (byte_eqb_neq c x) by done. by rewrite IH.
Qed.

Lemma not_in_pair x k v : query_safe x = false -> byte_eqb x c_eq = false -> x ∉ QueryEscape k ++ c_eq :: QueryEscape v.
Proof.
  intros Hx He Hin. apply elem_of_app in Hin as [Hin|[->|Hin]%elem_of_cons]; [| |].
  - by apply (safe_not_in x _ Hx (QueryEscape_safe k)).
  - by rewrite byte_eqb_refl in He.
  - by apply (safe_not_in x _ Hx (QueryEscape_safe v)).
Qed.

Lemma parse_encoded_pair k v : parse_pair (QueryEscape k ++ c_eq :: QueryEscape v) = Some (k, v).
Proof.
  unfold parse_pair. rewrite has_byte_not_in by by apply not_in_pair.
  rewrite cut_byte_at, !Unescape_Escape by (apply safe_not_in; [done|apply QueryEscape_safe]).
  by destruct (QueryEscape k).
Qed.

Lemma ParseQuery_Encode (m : Values) :
  ParseQuery (Values_Encode m) = map (fun k => (k, default [] (m !! k))) (sort_strings (map fst (map_to_list m))).
Proof.
  unfold ParseQuery, Values_Encode. set (ks := sort_strings _).
  destruct ks as [|k0 ks0] eqn:Ek; [done|]. rewrite <- Ek. rewrite split_on_join; [|apply Forall_map, Forall_true|by rewrite Ek].
  - clear. induction ks as [|k ks IH]; [done|]. cbn [map omap list_omap]. unfold encode_pair at 1. rewrite parse_encoded_pair. by f_equal.
  - intros k. by apply not_in_pair.
Qed.

Lemma query_Get_map (f : str -> str) ks key : query_Get (map (fun k => (k, f k)) ks) key = if bool_decide (key ∈ ks) then f key else [].
Proof.
  induction ks as [|k ks IH]; [done|]. cbn [map query_Get]. destruct (str_eqb k key) eqn:E.
  - apply str_eqb_eq in E as ->. by rewrite bool_decide_true by by left.
  - apply str_eqb_neq in E. rewrite IH. repeat case_bool_decide; set_solver.
Qed.

(** What was set is what is read. *)
Lemma Get_Encode (m : Values) key : query_Get (ParseQuery (Values_Encode m)) key = default [] (m !! key).
Proof.
  rewrite ParseQuery_Encode, query_Get_map. destruct (bool_decide _) eqn:E; [done|]. apply bool_decide_eq_false in E.
  destruct (m !! key) as [v|] eqn:Em; [|done]. exfalso. apply E. unfold sort_strings. rewrite merge_sort_Permutation.
  change (map fst) with (fmap (M := list) (@fst str str)). apply list_elem_of_fmap. exists (key, v). split; [done|]. by apply elem_of_map_to_list.
Qed.
