(* ===== verification/TripApi.v ===== *)
(** The verify endpoint ([server/trip_api.go], with its registration in
    [server/main.go]), the cross-origin headers of [server/cors.go], and the
    client's side of it: the badge a signed line shows and the link behind it
    ([client/render.go], [badgeForWire]). *)

From stdpp Require Import sorting.
From S2P Require Import Prelude Bytes Sha2 Utf8 Wire Json Filter Guard Crypto Trip ChainService TripChains Floats EnvMerge Behavior Abuse Attack Gate Admit NetIP ProxyTrust UrlQuery.
Local Open Scope Z_scope.

(** * Requests and replies *)

Record TripRequest := mkTripRequest {
  tq_Method : str;
  tq_RawQuery : str;
  tq_HTTP : HTTPRequest
}.

(** The JSON object of a decided request; [None] for a key the object lacks. *)
Record TripVerdict := mkTripVerdict {
  tv_Valid : bool;
  tv_SignatureValid : bool;
  tv_Badge : str;
  tv_BadgeColor : str;
  tv_Pub : str;
  tv_Seq : Z;
  tv_ServerPub : str;
  tv_Exposed : bool;
  tv_ExposedSeed : option str;
  tv_Error : option str
}.

Inductive TripReply :=
| UntrustedProxy
| MethodNotAllowed
| QueryTooLarge
| RateLimited (retry : Z)
| PassRequired
| VerifyPage (body : str)
| Refused (status : Z) (error : str)
| Verdict (v : TripVerdict).

(** What the handler reads and changes of the server. *)
Record TripDesk := mkTripDesk {
  td_Cooldown : CooldownMap;
  td_Gate : GateStore;
  td_Rejects : RejectStat;
  td_Exposed : gmap str exposedEntry
}.

Definition verifyCooldown : duration := 200 * Millisecond.
Definition maxRawQuery : Z := 2048.

Section api.
Context {U : Unicode} {E : Ed25519}.

(** * Content negotiation *)

Definition media_of (part : str) : str :=
  ToLower (TrimSpace (match cut_byte ";"%char part with Some (a, _) => a | None => part end)).

Definition is_html (media : str) : bool := str_eqb media (lit "text/html") || str_eqb media (lit "application/xhtml+xml").

Definition wantsVerifyPage (r : HTTPRequest) : bool :=
  existsb (fun part => is_html (media_of part)) (split_on ","%char (rq_Header r (lit "Accept"))).

(** * The decision *)

Definition query_uint (q : list (str * str)) (key : string) : Z := default 0 (parse_uint 64 (query_Get q (lit key))).
Definition query_hex (q : list (str * str)) (key : string) : str := canon (query_Get q (lit key)).

(** The reply for a query that parsed, and the registry after the look-up. *)
Definition verdict (now : time) (exposed : gmap str exposedEntry) (serverPub pubHex : str) (seq : Z)
    (pub sig prev mh displayName : str) (tmpID replyTo : Z) : TripReply * gmap str exposedEntry :=
  let signatureValid := ed_verify pub (CanonicalPayload serverPub seq prev mh pub displayName tmpID replyTo) sig in
  let '(proofSeed, exposed) := exposedSeedHex now exposed pubHex in
  let isExposed := negb (str_eqb proofSeed []) in
  let badge := badge_mark ++ take 8 (hex_encode (sha256 pub)) in
  (Verdict (mkTripVerdict (signatureValid && negb isExposed) signatureValid badge (BadgeColor badge) pubHex seq serverPub
     isExposed (if isExposed then Some proofSeed else None)
     (if isExposed && signatureValid then Some (lit "tripcode seed exposed") else None)), exposed).

Definition own_pub (serverID : option str) : str := match serverID with Some k => ToLower k | None => [] end.

(** The handler from the query parameters on. *)
Definition decideTripVerify (now : time) (serverID : option str) (exposed : gmap str exposedEntry) (q : list (str * str))
    : TripReply * gmap str exposedEntry :=
  let pubHex := query_hex q "pub" in
  let prevHex := query_hex q "prev" in
  let sigHex := query_hex q "sig" in
  let msgHashHex := query_hex q "msg_hash" in
  let queryServerPub := query_hex q "server_pub" in
  let displayName := query_Get q (lit "display_name") in
  let textParam := query_Get q (lit "text") in
  let tmpID := query_uint q "tmp_id" in
  let replyTo := query_uint q "reply_to" in
  let serverPub := own_pub serverID in
  if negb (str_eqb queryServerPub []) && negb (str_eqb queryServerPub serverPub) then (Refused 200 (lit "server_pub mismatch"), exposed)
  else if str_eqb pubHex [] || str_eqb sigHex [] || str_eqb prevHex [] || str_eqb msgHashHex []
  then (Refused 400 (lit "missing pub/seq/prev/sig/msg_hash"), exposed)
  else if negb (slen pubHex =? 64) || negb (slen sigHex =? 128) || negb (slen prevHex =? 64) || negb (slen msgHashHex =? 64)
  then (Refused 200 (lit "invalid hex length"), exposed)
  else if negb (slen serverPub =? 0) && negb (slen serverPub =? 64) then (Refused 200 (lit "invalid server_pub length"), exposed)
  else
  match parse_uint 32 (query_Get q (lit "seq")) with
  | None => (Refused 400 (lit "invalid seq"), exposed)
  | Some seq =>
      if negb (str_eqb textParam []) && negb (str_eqb (hex_encode (sha256 textParam)) msgHashHex)
      then (Refused 200 (lit "msg_hash does not match text"), exposed)
      else
      match decode_sized pubHex PublicKeySize, decode_sized sigHex SignatureSize, decode_sized prevHex 32, decode_sized msgHashHex 32 with
      | Some pub, Some sig, Some prev, Some mh => verdict now exposed serverPub pubHex seq pub sig prev mh displayName tmpID replyTo
      | _, _, _, _ => (Refused 200 (lit "invalid hex length"), exposed)
      end
  end.

(** * The handler *)

(** What is fixed while a request is served; [page] is the file at
    [verifyPagePath] if it can be read. *)
Record TripEnv := mkTripEnv {
  tn_Chain : option Chain;
  tn_Server : option str;
  tn_Abuse : option AbuseConfig;
  tn_Degraded : bool;
  tn_Tier : str -> option Z;
  tn_Page : option str
}.

Definition handleTripVerify (env : TripEnv) (now : time) (d : TripDesk) (r : TripRequest) : TripReply * TripDesk :=
  if negb (str_eqb (tq_Method r) (lit "GET")) then (MethodNotAllowed, d)
  else if maxRawQuery <? slen (tq_RawQuery r) then (QueryTooLarge, d)
  else
    let ip := getClientIP (tn_Chain env) (tq_HTTP r) in
    let '(ok, c) := cooldown_Allow (td_Cooldown d) now ip verifyCooldown in
    if negb ok then
      (RateLimited (setRetryAfter (RetryAfter c now ip verifyCooldown)), mkTripDesk c (td_Gate d) (td_Rejects d) (td_Exposed d))
    else
      let q := ParseQuery (tq_RawQuery r) in
      let '(pass, g, rej) := checkHTTPPass (td_Gate d) (td_Rejects d) now (tn_Abuse env) (tn_Degraded env) (tn_Tier env ip)
        (lit "trip_verify") ip (query_Get q (lit "pass")) (rq_Header (tq_HTTP r) (lit "X-V2v-Pass")) in
      let d := mkTripDesk c g rej (td_Exposed d) in
      if negb pass then (PassRequired, d)
      else match (if wantsVerifyPage (tq_HTTP r) then tn_Page env else None) with
      | Some data => (VerifyPage data, d)
      | None =>
          let '(reply, ex) := decideTripVerify now (tn_Server env) (td_Exposed d) q in
          (reply, mkTripDesk c g rej ex)
      end.

(** The route: refused proxies never reach the handler. *)
Definition serveTripVerify (env : TripEnv) (now : time) (d : TripDesk) (r : TripRequest) : TripReply * TripDesk :=
  if rejectUntrustedProxy (tn_Chain env) (tq_HTTP r) then (UntrustedProxy, d) else handleTripVerify env now d r.

(** * Cross-origin headers *)

Definition corsOrigin (allowed : list str) (r : HTTPRequest) : option str :=
  match TrimSpace (rq_Header r (lit "Origin")) with
  | [] => None
  | origin => if existsb (fun a => str_eqb origin (TrimSpace a)) allowed then Some origin else None
  end.

(** What the middleware does with a request: the origin it stamps, if any, and
    whether the wrapped handler runs. *)
Definition corsMiddleware (allowed : list str) (method : str) (r : HTTPRequest) : option str * bool :=
  match corsOrigin allowed r with
  | None => (None, true)
  | Some origin => (Some origin, negb (str_eqb method (lit "OPTIONS")))
  end.

(** * The client's badge and link *)

Inductive BadgeLook := LookExposed (plain : str) | LookVerified (badge : str) | LookFailed (plain : str) | LookPlain (plain : str).

Definition plain_badge (t : TripMeta) : str :=
  match TripBadgeFromPubHex (tm_Pub t) with
  | [] => badge_mark ++ take 8 (hex_encode (sha256 (tm_Pub t)))
  | b => b
  end.

Definition badgeForWire (w : WireMessage) (t : TripMeta) (av : bool) : BadgeLook :=
  let plain := plain_badge t in
  if tm_Exposed t then LookExposed plain
  else if av then
    match trip_Verify (mkVerify (wm_Text w) (wm_DisplayName w) (tm_ServerPub t) (tm_Pub t) (tm_Seq t) (tm_Prev t) (tm_Sig t)
                         (tm_MsgHash t) (tm_TmpID t) (tm_ReplyTo t) false) with
    | Ok res => LookVerified (vr_Badge res)
    | Err _ => LookFailed plain
    end
  else LookPlain plain.

(** The query of the link. *)
Definition link_values (w : WireMessage) (t : TripMeta) : Values :=
  let q := <[lit "reply_to" := utoa (tm_ReplyTo t)]> (<[lit "tmp_id" := utoa (tm_TmpID t)]>
          (<[lit "display_name" := wm_DisplayName w]> (<[lit "server_pub" := tm_ServerPub t]>
          (<[lit "msg_hash" := tm_MsgHash t]> (<[lit "sig" := tm_Sig t]> (<[lit "prev" := tm_Prev t]>
          (<[lit "seq" := utoa (tm_Seq t)]> (<[lit "pub" := tm_Pub t]> (∅ : Values))))))))) in
  let q := if 0 <? wm_ChainHeight w then <[lit "height" := utoa (wm_ChainHeight w)]> q else q in
  match wm_SentAt w with [] => q | sent => <[lit "sent_at" := sent]> q end.

(** [base] is [verifyLinkBase]. *)
Definition verify_link (base : str) (w : WireMessage) (t : TripMeta) : str :=
  match base with [] => [] | _ => base ++ lit "/api/trip/verify?" ++ Values_Encode (link_values w t) end.
End api.

(** * Theorems *)

(** ** The link *)

Section link.
Variables (w : WireMessage) (t : TripMeta).

Definition link_field (key : string) : str := default [] (link_values w t !! lit key).

(** The nine signed fields, whatever is added for display. *)
Lemma link_lookup :
  link_field "pub" = tm_Pub t /\ link_field "seq" = utoa (tm_Seq t) /\ link_field "prev" = tm_Prev t /\
  link_field "sig" = tm_Sig t /\ link_field "msg_hash" = tm_MsgHash t /\ link_field "server_pub" = tm_ServerPub t /\
  link_field "display_name" = wm_DisplayName w /\ link_field "tmp_id" = utoa (tm_TmpID t) /\
  link_field "reply_to" = utoa (tm_ReplyTo t) /\ link_field "text" = [] /\ link_field "pass" = [].
Proof.
  unfold link_field, link_values.
  generalize (utoa (tm_Seq t)), (utoa (tm_TmpID t)), (utoa (tm_ReplyTo t)), (utoa (wm_ChainHeight w)), (wm_DisplayName w).
  generalize (tm_Pub t), (tm_Prev t), (tm_Sig t), (tm_MsgHash t), (tm_ServerPub t). intros.
  destruct (0 <? wm_ChainHeight w), (wm_SentAt w); vm_compute; repeat split.
Qed.

(** The fields in the order they are sent. *)
Definition link_order : list string :=
  ["display_name"; "height"; "msg_hash"; "prev"; "pub"; "reply_to"; "sent_at"; "seq"; "server_pub"; "sig"; "tmp_id"]%string.

Lemma link_keys : exists p : string -> bool,
  sort_strings (map fst (map_to_list (link_values w t))) = map lit (List.filter p link_order).
Proof.
  unfold link_values.
  generalize (utoa (tm_Seq t)), (utoa (tm_TmpID t)), (utoa (tm_ReplyTo t)), (utoa (wm_ChainHeight w)), (wm_DisplayName w).
  generalize (tm_Pub t), (tm_Prev t), (tm_Sig t), (tm_MsgHash t), (tm_ServerPub t). intros.
  exists (fun k => negb (negb (0 <? wm_ChainHeight w) && String.eqb k "height") &&
                                negb (str_eqb (wm_SentAt w) [] && String.eqb k "sent_at")).
  destruct (0 <? wm_ChainHeight w), (wm_SentAt w); vm_compute; reflexivity.
Qed.

Definition field_size (key : string) : nat := (2 + length (QueryEscape (lit key)) + length (QueryEscape (link_field key)))%nat.

Lemma join_amp_length (ls : list str) : (length (join_amp ls) <= sum_list_with (fun l => S (length l)) ls)%nat.
Proof.
  induction ls as [|l ls IH]; [done|]. destruct ls as [|l' ls]; [cbn [join_amp map sum_list_with]; lia|].
  cbn [join_amp map sum_list_with] in *. rewrite length_app. cbn [length]. cbn [join_amp] in IH. lia.
Qed.

Lemma link_length : (length (Values_Encode (link_values w t)) <= sum_list_with field_size link_order)%nat.
Proof.
  destruct link_keys as [p Hp]. unfold Values_Encode. rewrite Hp, join_amp_length. clear Hp.
  induction link_order as [|k ks IH]; [done|]. cbn [List.filter]. destruct (p k); cbn [map sum_list_with].
  - unfold encode_pair at 1, field_size at 1, link_field at 1. rewrite length_app. cbn [length]. lia.
  - lia.
Qed.
End link.

Definition hex_of (n : Z) (s : str) : Prop := lower_hex s = true /\ slen s = n.

Lemma lower_hex_unreserved s : lower_hex s = true -> forallb unreserved s = true.
Proof.
  unfold lower_hex. rewrite !forallb_forall. intros H c Hc. specialize (H c Hc). unfold unreserved.
  apply orb_true_iff in H as [->| H]; [by rewrite orb_true_r|]. apply andb_true_iff in H as [H1 H2].
  by replace ((97 <=? byte_val c) && (byte_val c <=? 122)) with true by lia.
Qed.

Lemma utoa_unreserved n : 0 <= n -> forallb unreserved (utoa n) = true.
Proof.
  intros H. apply forallb_forall. intros c Hc%list_elem_of_In. pose proof (utoa_digits n H) as F.
  rewrite Forall_forall in F. specialize (F c Hc). unfold unreserved. by rewrite F, orb_true_r.
Qed.

Lemma dec_digits_length fuel : forall n acc k, 0 <= n < 10 ^ Z.of_nat (S k) ->
  (length (dec_digits fuel n acc) <= S k + length acc)%nat.
Proof.
  induction fuel as [|fuel IH]; intros n acc k Hn; cbn [dec_digits]; [lia|].
  destruct (n <? 10) eqn:E; [cbn [length]; lia|]. destruct k as [|k]; [lia|].
  rewrite (IH _ _ k); [cbn [length]; lia|].
  replace (Z.of_nat (S (S k))) with (1 + Z.of_nat (S k)) in Hn by lia. rewrite Z.pow_add_r in Hn by lia.
  split; [apply Z.div_pos; lia|apply Z.div_lt_upper_bound; lia].
Qed.

Lemma utoa_length n k : 0 <= n < 10 ^ Z.of_nat (S k) -> (length (utoa n) <= S k)%nat.
Proof. intros H. unfold utoa. rewrite (dec_digits_length _ _ _ k H). cbn [length]. lia. Qed.

(** The fields of a link stay under the endpoint's cap. *)
Definition link_bounded (w : WireMessage) (t : TripMeta) : Prop :=
  hex_of 64 (tm_Pub t) /\ hex_of 64 (tm_Prev t) /\ hex_of 128 (tm_Sig t) /\ hex_of 64 (tm_MsgHash t) /\
  lower_hex (tm_ServerPub t) = true /\ slen (tm_ServerPub t) <= 64 /\ is_u32 (tm_Seq t) /\
  is_u64 (tm_TmpID t) /\ is_u64 (tm_ReplyTo t) /\ is_u64 (wm_ChainHeight w) /\
  slen (wm_DisplayName w) <= 400 /\ slen (wm_SentAt w) <= 64.

Lemma link_display w t :
  link_field w t "height" = (if 0 <? wm_ChainHeight w then utoa (wm_ChainHeight w) else []) /\
  link_field w t "sent_at" = wm_SentAt w.
Proof.
  unfold link_field, link_values.
  generalize (utoa (tm_Seq t)), (utoa (tm_TmpID t)), (utoa (tm_ReplyTo t)), (utoa (wm_ChainHeight w)), (wm_DisplayName w).
  generalize (tm_Pub t), (tm_Prev t), (tm_Sig t), (tm_MsgHash t), (tm_ServerPub t). intros.
  destruct (0 <? wm_ChainHeight w), (wm_SentAt w); vm_compute; repeat split.
Qed.

Lemma escaped_hex n s : hex_of n s -> Z.of_nat (length (QueryEscape s)) = n.
Proof. intros [H <-]. by rewrite QueryEscape_unreserved by by apply lower_hex_unreserved. Qed.

Lemma escaped_utoa n k : 0 <= n < 10 ^ Z.of_nat (S k) -> (length (QueryEscape (utoa n)) <= S k)%nat.
Proof. intros H. rewrite QueryEscape_unreserved by (apply utoa_unreserved; lia). by apply utoa_length. Qed.

Lemma link_fits w t : link_bounded w t -> slen (Values_Encode (link_values w t)) <= maxRawQuery.
Proof.
  intros (Hp & Hpv & Hs & Hm & Hsp & Hspl & Hseq & Htid & Hrt & Hh & Hn & Hsent).
  pose proof (link_length w t) as H. destruct (link_lookup w t) as (E1 & E2 & E3 & E4 & E5 & E6 & E7 & E8 & E9 & _ & _).
  destruct (link_display w t) as (E10 & E11).
  apply escaped_hex in Hp, Hpv, Hs, Hm. pose proof (escaped_hex _ _ (conj Hsp eq_refl)) as Hsp'.
  unfold is_u32, is_u64 in *.
  pose proof (escaped_utoa (tm_Seq t) 9 ltac:(lia)). pose proof (escaped_utoa (tm_TmpID t) 19 ltac:(lia)).
  pose proof (escaped_utoa (tm_ReplyTo t) 19 ltac:(lia)). pose proof (escaped_utoa (wm_ChainHeight w) 19 ltac:(lia)).
  pose proof (QueryEscape_length (wm_DisplayName w)). pose proof (QueryEscape_length (wm_SentAt w)).
  assert (length (QueryEscape (link_field w t "height")) <= 20)%nat by (rewrite E10; destruct (0 <? wm_ChainHeight w); [lia|cbn; lia]).
  unfold link_order in H. cbn [sum_list_with] in H. unfold field_size in H. rewrite E1, E2, E3, E4, E5, E6, E7, E8, E9, E11 in H.
  repeat match type of H with context [length (QueryEscape (lit ?k))] =>
    let v := eval vm_compute in (length (QueryEscape (lit k))) in
    change (length (QueryEscape (lit k))) with v in H end.
  unfold slen, maxRawQuery in *. lia.
Qed.

(** ** What the endpoint answers *)

Section verdicts.
Context {U : Unicode} {E : Ed25519}.

(** A request that reaches the decision if its query is within the cap: a [GET]
    allowed by the cooldown, not gated, not asking for the page. *)
Definition plain_visit (env : TripEnv) (now : time) (d : TripDesk) (r : TripRequest) : Prop :=
  let ip := getClientIP (tn_Chain env) (tq_HTTP r) in
  rejectUntrustedProxy (tn_Chain env) (tq_HTTP r) = false /\
  tq_Method r = lit "GET" /\
  (cooldown_Allow (td_Cooldown d) now ip verifyCooldown).1 = true /\
  httpGateFor (tn_Abuse env) true (tn_Degraded env) (tn_Tier env ip) (lit "trip_verify") = false /\
  wantsVerifyPage (tq_HTTP r) = false.

Lemma visit_decides env now d r : plain_visit env now d r -> slen (tq_RawQuery r) <= maxRawQuery ->
  (serveTripVerify env now d r).1 = (decideTripVerify now (tn_Server env) (td_Exposed d) (ParseQuery (tq_RawQuery r))).1.
Proof.
  intros (H1 & H2 & H4 & H5 & H6) H3. unfold serveTripVerify, handleTripVerify. rewrite H1, H2, str_eqb_refl. cbn [negb].
  replace (maxRawQuery <? slen (tq_RawQuery r)) with false by lia.
  destruct (cooldown_Allow _ _ _ _) as [ok c]. cbn [fst] in H4. subst ok. cbn [negb].
  unfold checkHTTPPass. rewrite H5. cbn [negb]. rewrite H6. by destruct (decideTripVerify _ _ _ _).
Qed.

Lemma verify_badge p r : trip_Verify p = Ok r ->
  exists pub, hex_decode (canon (vp_PubHex p)) = Some pub /\ vr_Badge r = badge_mark ++ take 8 (hex_encode (sha256 pub)).
Proof.
  unfold trip_Verify. repeat (match goal with |- (if ?b then _ else _) = _ -> _ => destruct b end; [done|]).
  destruct (decode_sized (canon (vp_PubHex p)) _) as [pub|] eqn:Ep; [|done].
  repeat (match goal with |- match ?x with Some _ => _ | None => _ end = _ -> _ => destruct x end; [|done]).
  repeat (match goal with |- (if ?b then _ else _) = _ -> _ => destruct b end; [done|]).
  intros [= <-]. exists pub. by apply decode_sized_Some in Ep as [? _].
Qed.

(** The decision on the fields of a link. *)
Lemma decide_link now serverID exposed w t pub sig prev mh :
  link_bounded w t -> tm_ServerPub t = own_pub serverID -> own_pub serverID = [] \/ slen (own_pub serverID) = 64 ->
  decode_sized (tm_Pub t) PublicKeySize = Some pub -> decode_sized (tm_Sig t) SignatureSize = Some sig ->
  decode_sized (tm_Prev t) 32 = Some prev -> decode_sized (tm_MsgHash t) 32 = Some mh ->
  decideTripVerify now serverID exposed (ParseQuery (Values_Encode (link_values w t))) =
  verdict now exposed (own_pub serverID) (tm_Pub t) (tm_Seq t) pub sig prev mh (wm_DisplayName w) (tm_TmpID t) (tm_ReplyTo t).
Proof.
  intros (Hp & Hpv & Hs & Hm & Hsp & Hspl & Hseq & Htid & Hrt & _) Esp Hlen Dp Ds Dpv Dm.
  destruct (link_lookup w t) as (E1 & E2 & E3 & E4 & E5 & E6 & E7 & E8 & E9 & E10 & _). unfold link_field in *.
  unfold decideTripVerify, query_hex, query_uint. rewrite !Get_Encode, E1, E2, E3, E4, E5, E6, E7, E8, E9, E10.
  unfold is_u64, is_u32 in *. rewrite !parse_uint_utoa by lia. cbn [default from_option].
  rewrite !lower_hex_canon' by (apply Hp || apply Hpv || apply Hs || apply Hm || apply Hsp).
  rewrite Esp, str_eqb_refl, andb_false_r, Dp, Ds, Dpv, Dm.
  destruct Hp as [_ Lp], Hpv as [_ Lpv], Hs as [_ Ls], Hm as [_ Lm]. rewrite Lp, Lpv, Ls, Lm. cbn [negb Z.eqb Pos.eqb orb].
  assert (forall n s, slen s = n -> 0 < n -> str_eqb s [] = false) as Hne by (intros n [|c s] Hl Hpos; [unfold slen in Hl; cbn [length] in Hl; lia|done]).
  rewrite (Hne 64 _ Lp), (Hne 64 _ Lpv), (Hne 128 _ Ls), (Hne 64 _ Lm) by lia. cbn [orb].
  replace (negb (slen (own_pub serverID) =? 0) && negb (slen (own_pub serverID) =? 64)) with false
    by (destruct Hlen as [-> | ->]; done).
  done.
Qed.
End verdicts.


(** Where a verdict comes from: the decision on the query's fields. *)
Lemma verdict_source {U : Unicode} {E : Ed25519} env now d rq v : (serveTripVerify env now d rq).1 = Verdict v ->
  let q := ParseQuery (tq_RawQuery rq) in
  exists sq pub sig prev mh,
    (verdict now (td_Exposed d) (own_pub (tn_Server env)) (query_hex q "pub") sq pub sig prev mh (query_Get q (lit "display_name"))
       (query_uint q "tmp_id") (query_uint q "reply_to")).1 = Verdict v /\
    decode_sized (query_hex q "pub") PublicKeySize = Some pub /\ decode_sized (query_hex q "sig") SignatureSize = Some sig /\
    decode_sized (query_hex q "prev") 32 = Some prev /\ decode_sized (query_hex q "msg_hash") 32 = Some mh /\
    (query_Get q (lit "text") <> [] -> hex_encode (sha256 (query_Get q (lit "text"))) = query_hex q "msg_hash").
Proof.
  unfold serveTripVerify, handleTripVerify. destruct (rejectUntrustedProxy _ _); [intros [=]|].
  destruct (negb (str_eqb (tq_Method rq) _)); [intros [=]|]. destruct (maxRawQuery <? _); [intros [=]|].
  destruct (cooldown_Allow _ _ _ _) as [ok c]. destruct (negb ok); [intros [=]|].
  destruct (checkHTTPPass _ _ _ _ _ _ _ _ _ _) as [[pass g] rej]. destruct (negb pass); [intros [=]|].
  destruct (if wantsVerifyPage _ then _ else None); [intros [=]|]. cbn [td_Exposed].
  destruct (decideTripVerify _ _ _ _) as [reply ex] eqn:Ed. cbn [fst]. intros ->. cbv zeta. revert Ed.
  generalize (ParseQuery (tq_RawQuery rq)). intros q. unfold decideTripVerify.
  destruct (_ && _); [intros [=]|]. destruct (_ || _); [intros [=]|]. destruct (_ || _); [intros [=]|]. destruct (_ && _); [intros [=]|].
  destruct (parse_uint 32 _) as [sq|]; [|intros [=]]. destruct (negb (str_eqb (query_Get q (lit "text")) []) && _) eqn:Et; [intros [=]|].
  destruct (decode_sized (query_hex q "pub") _) as [pub|] eqn:D1; [|intros [=]].
  destruct (decode_sized (query_hex q "sig") _) as [sig|] eqn:D2; [|intros [=]].
  destruct (decode_sized (query_hex q "prev") _) as [prev|] eqn:D3; [|intros [=]].
  destruct (decode_sized (query_hex q "msg_hash") _) as [mh|] eqn:D4; [|intros [=]].
  intros Hv. exists sq, pub, sig, prev, mh. split; [by rewrite Hv|]. repeat (split; [done|]).
  intros Hne. apply str_eqb_neq in Hne. rewrite Hne in Et. cbn [negb andb] in Et. by apply negb_false_iff, str_eqb_eq in Et.
Qed.

(** C17. A badge the endpoint calls valid is backed by a signature: the query's
    key, under this server's own identity, signed the query's number, link, text
    hash, name and ids; a text shown with it is the signed one; and the key's
    seed has not been published. *)
Theorem valid_verdict_is_backed {U : Unicode} {E : Ed25519} env now d rq v :
  (serveTripVerify env now d rq).1 = Verdict v -> tv_Valid v = true ->
  let q := ParseQuery (tq_RawQuery rq) in
  exists pub sig prev mh, hex_decode (tv_Pub v) = Some pub /\ slen pub = 32 /\ tv_Pub v = query_hex q "pub" /\
    hex_decode (query_hex q "sig") = Some sig /\ hex_decode (query_hex q "prev") = Some prev /\
    hex_decode (query_hex q "msg_hash") = Some mh /\
    ed_verify pub (CanonicalPayload (own_pub (tn_Server env)) (tv_Seq v) prev mh pub (query_Get q (lit "display_name"))
                     (query_uint q "tmp_id") (query_uint q "reply_to")) sig = true /\
    (query_Get q (lit "text") <> [] -> mh = sha256 (query_Get q (lit "text"))) /\
    (exposedSeedHex now (td_Exposed d) (tv_Pub v)).1 = [].
Proof.
  intros H Hv. destruct (verdict_source _ _ _ _ _ H) as (sq & pub & sig & prev & mh & Hd & D1 & D2 & D3 & D4 & Ht). cbv zeta.
  revert Hd. unfold verdict. destruct (exposedSeedHex _ _ _) as [seed ex'] eqn:Ex. cbn [fst]. intros [= <-].
  cbn [tv_Valid tv_Pub tv_Seq] in *. apply andb_true_iff in Hv as [Hok Hseed]. rewrite negb_involutive in Hseed. apply str_eqb_eq in Hseed as ->.
  apply decode_sized_Some in D1 as [D1 L1], D2 as [D2 _], D3 as [D3 _], D4 as [D4 _].
  exists pub, sig, prev, mh. repeat (split; [done|]). split; [|by rewrite Ex].
  intros Hne. rewrite <- (Ht Hne), hex_decode_encode in D4. congruence.
Qed.


(** ** Cross-origin *)

(** Only a listed origin is ever stamped, and its preflight stops there. *)
Lemma cors_stamps_listed {U : Unicode} allowed method r origin : (corsMiddleware allowed method r).1 = Some origin ->
  origin = TrimSpace (rq_Header r (lit "Origin")) /\ (exists a, a ∈ allowed /\ TrimSpace a = origin) /\
  ((corsMiddleware allowed method r).2 = false <-> method = lit "OPTIONS").
Proof.
  unfold corsMiddleware, corsOrigin. destruct (TrimSpace (rq_Header r _)) as [|c s]; [done|].
  destruct (existsb _ allowed) eqn:Ex; [|done]. cbn [fst snd]. intros [= <-]. split; [done|]. split.
  - apply existsb_exists in Ex as (a & Ha & Heq). exists a. apply str_eqb_eq in Heq. by apply list_elem_of_In in Ha.
  - rewrite negb_false_iff. apply str_eqb_eq.
Qed.

(** * Concrete runs *)

Definition demo_visit (query : str) : TripRequest :=
  mkTripRequest (lit "GET") query (mkHTTPRequest (lit "198.51.100.9:1234") (lit "chat.example") true (fun _ => []) []).
Definition demo_trip_env : TripEnv := mkTripEnv None None None false (fun _ => None) None.
Definition demo_desk : TripDesk := mkTripDesk ∅ (NewGateStore []) zeroRejects ∅.
Definition demo_line (e : tripEnvelope) : WireMessage := chat_wire (lit "15:04") (lit "An") (te_Text e) None (te_TmpID e) (te_ReplyTo e) (lit "2025-06-15T15:06:40Z").

Definition demo_result (name : str) (e : tripEnvelope) : VerifyResult :=
  match accept_signed (U := sample_unicode) (E := toy_ed25519) 5 ∅ [] name None e with
  | Ok (_, r, _) => r | Err _ => mkVerified [] 0 [] [] [] [] [] [] end.

Definition demo_link_query (e : tripEnvelope) : str :=
  Values_Encode (link_values (demo_line e) (meta_of (lit "An") e (demo_result (lit "An") e) false)).

Definition demo_ask (query : str) : TripReply :=
  (serveTripVerify (U := sample_unicode) (E := toy_ed25519) demo_trip_env 9 demo_desk (demo_visit query)).1.

Definition toy_e : tripEnvelope := a_env (toy_attempt 1 zero32 (lit "hi")).

(** A line without ids is accepted live under the payload without ids, and the
    endpoint, which knows only the payload with ids, calls its signature bad. *)
Definition bare_e : tripEnvelope :=
  mkEnvelope (lit "hi") [] (te_Pub toy_e) 1 (te_Prev toy_e)
    (hex_encode (ed_sign (Ed25519 := toy_ed25519) toy_seed
      (CanonicalPayloadLegacy [] 1 zero32 (sha256 (lit "hi")) (ed_pub (Ed25519 := toy_ed25519) toy_seed) (lit "An")))) [] 0 0.

Definition signature_valid (r : TripReply) : option bool := match r with Verdict v => Some (tv_SignatureValid v) | _ => None end.

Example bare_line_diverges :
  (vr_Seq (demo_result (lit "An") bare_e), signature_valid (demo_ask (demo_link_query bare_e)), signature_valid (demo_ask (demo_link_query toy_e)))
  = (1, Some false, Some true).
Proof. vm_compute. reflexivity. Qed.

Definition toy_res : res signed_refusal (str * VerifyResult * gmap str TripChain) :=
  accept_signed (U := sample_unicode) (E := toy_ed25519) 5 ∅ [] (lit "An") None toy_e.


Lemma valid_verdict_is_backed_witness :
  exists v pub, demo_ask (demo_link_query toy_e) = Verdict v /\ tv_Valid v = true /\ hex_decode (tv_Pub v) = Some pub.
Proof.
  assert (exists v, demo_ask (demo_link_query toy_e) = Verdict v /\ tv_Valid v = true) as (v & Ev & Hv).
  { assert (match demo_ask (demo_link_query toy_e) with Verdict v => tv_Valid v | _ => false end = true) as H by (vm_compute; reflexivity).
    revert H. generalize (demo_ask (demo_link_query toy_e)). intros [| | | | | | |v] H; try by exfalso. by exists v. }
  destruct (valid_verdict_is_backed (U := sample_unicode) (E := toy_ed25519) demo_trip_env 9 demo_desk (demo_visit (demo_link_query toy_e)) v Ev Hv)
    as (pub & _ & _ & _ & Hp & _).
  exists v, pub. split; [exact Ev|split; [exact Hv|exact Hp]].
Defined.
