(* ===== verification/Console.v ===== *)
(** The client's input half ([client/client.go], [runInputLoop];
    [client/dispatch.go]; the commands of [client/vote.go] and [client/burn.go];
    the local lines of [client/display.go] and [client/send.go]): what a
    submitted line does to the session and what it sends. *)

From S2P Require Import Prelude Bytes Sha2 Utf8 Wire Json Filter Guard Crypto Trip Votes TripChains ClientView Outbox ClientChain ClientPump Notices NetIP.
Local Open Scope Z_scope.

(** * Parsing *)

(** [strings.TrimPrefix] and [strings.Fields]. *)
Definition TrimPrefix (s p : str) : str := if has_prefix s p then drop (length p) s else s.

Definition flush_field (cur : str) : list str := match cur with [] => [] | _ => [cur] end.
Fixpoint fields_from (cur : str) (gs : list seg) : list str :=
  match gs with
  | [] => flush_field cur
  | g :: gs' => if IsSpace (seg_rune g) then flush_field cur ++ fields_from [] gs' else fields_from (cur ++ seg_bytes g) gs'
  end.
Definition Fields (s : str) : list str := fields_from [] (segs s).

Inductive find_error := FindUsage | FindBareHash | FindNotHex.

Section unicode.
Context {U : Unicode}.

Definition parseFindArg (arg : str) : res find_error (Z * str) :=
  let t := TrimPrefix (TrimSpace arg) (lit "#") in
  match t with
  | [] => Err FindUsage
  | _ =>
      let '(heightStr, suffix) := match cut_byte ":"%char t with Some hs => hs | None => (t, []) end in
      match heightStr with
      | [] => Err FindBareHash
      | _ =>
          match parse_uint 64 heightStr with
          | None => Err FindUsage
          | Some height =>
              if height =? 0 then Err FindUsage
              else if negb (forallb (fun c => match hex_val c with Some _ => true | None => false end) suffix) then Err FindNotHex
              else Ok (height, ToLower suffix)
          end
      end
  end.

(** A command word alone or before a space. *)
Definition is_cmd (text : str) (word : string) : bool := str_eqb text (lit word).
Definition cmd_arg (text : str) (word : string) : bool := str_eqb text (lit word) || has_prefix text (lit word ++ lit " ").
Definition arg_of (text : str) (word : string) : str := TrimSpace (TrimPrefix text (lit word)).

Definition isUnknownSlashCommand (text : str) : bool := has_prefix text (lit "/").

(** * State *)

Definition TabChat : Z := 0.
Definition TabSystem : Z := 1.

(** A local line, by what it says; its wording is a parameter. *)
Inductive say :=
| SWhoami | SStatus (tripInfo : str) (proof : str) | SHelp
| SShowJoin (on : bool) | SAutoVerify (on : bool)
| SNotifyList (n : Notices) | SPowMinUsage | SPowMinNumber | SPowMin (tier : Z) | SNotifyUsage | SOnOff
| SNotifyAll (on : bool) | SNotifyTag (tag : str) (on : bool) | SNotifyUnknown (tag : str)
| SReplyOff | SReplyUsage | SReplyGone (height : Z)
| SMetaUsage | SMeta (on : bool)
| SFindError (e : find_error) | SFindNone (height : Z) | SFound (height : Z)
| SExpandUsage | SGone | SNotFolded | SExpanded (height : Z)
| SInfoUsage | SInfoGone (height : Z) | SInfoHash | SInfo (w : WireMessage) (proof : str) (vote : option VoteScore)
| SCopyUsage | SCopyGone (height : Z) | SCopyFailed | SCopied (height : Z) | SCopiedSys | SNothingSys | SNothingChat
| SHistoryCleared
| SOlderUsage | SOlderNone | SOlderFailed
| SVoteUsage | SVoteGone (height : Z) | SVoteFailed
| SNoTrip | SBurnWarn | SBurnSeed (seedHex pubHex badge : str) | SBurnSent | SBurnFailed
| SSeedUsage | SSeedMatches | SSeedDiffers
| SUnknown (text : str)
| SDraftCancelled | SCancelHint
| SRefusedChars (e : char_error) | STooFast (wait : duration) | STooLong (limit : Z).

Inductive wire_frame :=
| FLine (l : clientLine)
| FVote (target direction : Z)
| FReveal (seedHex sigHex : str)
| FOlder (before limit : Z)
| FClose.

Inductive effect :=
| EFrame (f : wire_frame)               (* written to the socket *)
| ERecall (line : str)             (* [Sink.RecordHistory] *)
| EForget                          (* [os.Remove(historyFile)] *)
| EClip (text : str)               (* the clipboard now holds [text] *)
| EClearLater (text : str)         (* [scheduleClipboardClear] *)
| EQuit.                           (* [Sink.Quit] *)

Inductive cmdAction := cmdPass | cmdDone | cmdReject | cmdQuit.

Record Console := mkConsole {
  co_Pump : Pump;                  (* the receive half: pending queue, index, votes, paging *)
  co_Username : str;
  co_ServerPub : str;
  co_Trip : option TripKey;        (* TripPriv with TripSeq and TripPrev *)
  co_TripBadge : str;
  co_Chat : tabBuffer;
  co_Sys : tabBuffer;
  co_ReplyDraft : Z;
  co_Prompt : option Z;            (* the height the prompt shows, [None] for the plain one *)
  co_ActiveTab : Z;
  co_Epoch : Z;
  co_AutoVerify : bool;
  co_ShowMeta : bool;
  co_Notices : Notices;
  co_BurnArmed : bool;
  co_Greeting : str;
  co_OlderInsert : Z;
  co_OlderInsertSys : Z;
  co_RevealProof : gmap str str;
  co_Quit : bool;
  co_Out : list effect
}.

(** What a call reads of its surroundings.  [ie_wording] is the text of a local
    line, [ie_block] is [buildChatBlock], [ie_placeholder] the pending block of
    [renderPlaceholder] for a text and a reply target, [ie_strip] is
    [ansi.Strip]. *)
Record InputEnv := mkInputEnv {
  ie_cfg : Settings;
  ie_limits : option Limits;
  ie_replyEnabled : bool;
  ie_saveMessages : bool;
  ie_sink : bool;
  ie_clipboard : bool;             (* [copyToClipboard] succeeds *)
  ie_clearAfter : Z;
  ie_banner : str;                 (* the line [/clear] leaves *)
  ie_wording : say -> str;
  ie_block : WireMessage -> bool -> bool -> entry;
  ie_placeholder : str -> Z -> entry;
  ie_strip : str -> str
}.

(** ** Updates *)

Definition pend (c : Console) : PendingState := cl_pending (pu_client (co_Pump c)).

Definition set_pump (c : Console) (p : Pump) : Console :=
  mkConsole p (co_Username c) (co_ServerPub c) (co_Trip c) (co_TripBadge c) (co_Chat c) (co_Sys c) (co_ReplyDraft c) (co_Prompt c)
    (co_ActiveTab c) (co_Epoch c) (co_AutoVerify c) (co_ShowMeta c) (co_Notices c) (co_BurnArmed c) (co_Greeting c)
    (co_OlderInsert c) (co_OlderInsertSys c) (co_RevealProof c) (co_Quit c) (co_Out c).
Definition set_tabs (c : Console) (chat sys : tabBuffer) : Console :=
  mkConsole (co_Pump c) (co_Username c) (co_ServerPub c) (co_Trip c) (co_TripBadge c) chat sys (co_ReplyDraft c) (co_Prompt c)
    (co_ActiveTab c) (co_Epoch c) (co_AutoVerify c) (co_ShowMeta c) (co_Notices c) (co_BurnArmed c) (co_Greeting c)
    (co_OlderInsert c) (co_OlderInsertSys c) (co_RevealProof c) (co_Quit c) (co_Out c).
Definition set_draft (c : Console) (draft : Z) (prompt : option Z) : Console :=
  mkConsole (co_Pump c) (co_Username c) (co_ServerPub c) (co_Trip c) (co_TripBadge c) (co_Chat c) (co_Sys c) draft prompt
    (co_ActiveTab c) (co_Epoch c) (co_AutoVerify c) (co_ShowMeta c) (co_Notices c) (co_BurnArmed c) (co_Greeting c)
    (co_OlderInsert c) (co_OlderInsertSys c) (co_RevealProof c) (co_Quit c) (co_Out c).
Definition set_tab (c : Console) (n : Z) : Console :=
  mkConsole (co_Pump c) (co_Username c) (co_ServerPub c) (co_Trip c) (co_TripBadge c) (co_Chat c) (co_Sys c) (co_ReplyDraft c) (co_Prompt c)
    n (i64 (co_Epoch c + 1)) (co_AutoVerify c) (co_ShowMeta c) (co_Notices c) (co_BurnArmed c) (co_Greeting c)
    (co_OlderInsert c) (co_OlderInsertSys c) (co_RevealProof c) (co_Quit c) (co_Out c).
Definition set_switches (c : Console) (autoVerify showMeta : bool) (n : Notices) : Console :=
  mkConsole (co_Pump c) (co_Username c) (co_ServerPub c) (co_Trip c) (co_TripBadge c) (co_Chat c) (co_Sys c) (co_ReplyDraft c) (co_Prompt c)
    (co_ActiveTab c) (co_Epoch c) autoVerify showMeta n (co_BurnArmed c) (co_Greeting c)
    (co_OlderInsert c) (co_OlderInsertSys c) (co_RevealProof c) (co_Quit c) (co_Out c).
Definition set_armed (c : Console) (b : bool) : Console :=
  mkConsole (co_Pump c) (co_Username c) (co_ServerPub c) (co_Trip c) (co_TripBadge c) (co_Chat c) (co_Sys c) (co_ReplyDraft c) (co_Prompt c)
    (co_ActiveTab c) (co_Epoch c) (co_AutoVerify c) (co_ShowMeta c) (co_Notices c) b (co_Greeting c)
    (co_OlderInsert c) (co_OlderInsertSys c) (co_RevealProof c) (co_Quit c) (co_Out c).
Definition set_greeting (c : Console) (g : str) : Console :=
  mkConsole (co_Pump c) (co_Username c) (co_ServerPub c) (co_Trip c) (co_TripBadge c) (co_Chat c) (co_Sys c) (co_ReplyDraft c) (co_Prompt c)
    (co_ActiveTab c) (co_Epoch c) (co_AutoVerify c) (co_ShowMeta c) (co_Notices c) (co_BurnArmed c) g
    (co_OlderInsert c) (co_OlderInsertSys c) (co_RevealProof c) (co_Quit c) (co_Out c).
Definition set_anchors (c : Console) (a b : Z) : Console :=
  mkConsole (co_Pump c) (co_Username c) (co_ServerPub c) (co_Trip c) (co_TripBadge c) (co_Chat c) (co_Sys c) (co_ReplyDraft c) (co_Prompt c)
    (co_ActiveTab c) (co_Epoch c) (co_AutoVerify c) (co_ShowMeta c) (co_Notices c) (co_BurnArmed c) (co_Greeting c)
    a b (co_RevealProof c) (co_Quit c) (co_Out c).
Definition set_key (c : Console) (k : option TripKey) (quit : bool) : Console :=
  mkConsole (co_Pump c) (co_Username c) (co_ServerPub c) k (co_TripBadge c) (co_Chat c) (co_Sys c) (co_ReplyDraft c) (co_Prompt c)
    (co_ActiveTab c) (co_Epoch c) (co_AutoVerify c) (co_ShowMeta c) (co_Notices c) (co_BurnArmed c) (co_Greeting c)
    (co_OlderInsert c) (co_OlderInsertSys c) (co_RevealProof c) quit (co_Out c).
Definition effect_of (c : Console) (e : effect) : Console :=
  mkConsole (co_Pump c) (co_Username c) (co_ServerPub c) (co_Trip c) (co_TripBadge c) (co_Chat c) (co_Sys c) (co_ReplyDraft c) (co_Prompt c)
    (co_ActiveTab c) (co_Epoch c) (co_AutoVerify c) (co_ShowMeta c) (co_Notices c) (co_BurnArmed c) (co_Greeting c)
    (co_OlderInsert c) (co_OlderInsertSys c) (co_RevealProof c) (co_Quit c) (co_Out c ++ [e]).

Definition set_pend (c : Console) (p : PendingState) : Console :=
  let cl := pu_client (co_Pump c) in
  set_pump c (set_client (co_Pump c) (mkClient (cl_tip cl) (cl_rec cl) (cl_sync cl) p (cl_out cl))).

(** [PendingReplyTo = h]. *)
Definition set_reply (c : Console) (h : Z) : Console :=
  let p := pend c in
  set_pend c (mkPendingState (TmpSeq p) h (LastMessageTime p) (PendingPlaceholders p) (PendingEchoes p) (SeenTmpIDs p) (EchoSlot p)).
End unicode.

(** * The local lines *)

Section unicode.
Context {U : Unicode} {E : Ed25519}.

Definition noticeEntry (line : str) : entry := mkEntry [] (trim_suffix_nl line) [] 0 [] false false [] false kindNotice 0 None false.
Definition as_status (e : entry) : entry :=
  mkEntry (en_quote e) (en_header e) (en_body e) (en_height e) (en_hashHex e) (en_collapsed e) (en_banner e) (en_day e) true (en_kind e)
    (en_quoteKind e) (en_quoteEntry e) (en_muted e).
Definition inputEchoEntry (text : str) : entry := mkEntry [] text [] 0 [] false false [] false kindLocal 0 None false.

Definition emitLocalEntry (c : Console) (e : entry) : Console := set_tabs c (tab_append (co_Chat c) e) (tab_append (co_Sys c) e).

Definition emitLocalFeedback (env : InputEnv) (c : Console) (m : say) : Console :=
  emitLocalEntry c (noticeEntry (ie_wording env m)).
Definition emitStatusLocked (env : InputEnv) (c : Console) (m : say) : Console :=
  emitLocalEntry c (as_status (noticeEntry (ie_wording env m))).

Definition in_older (c : Console) : bool := y_InOlder (sync (co_Pump c)).

(** [emitTabLive true TabChat]: above the older window while one is in flight. *)
Definition emitTab (c : Console) (e : entry) : Console :=
  if in_older c then
    set_anchors (set_tabs c (insertAt (co_Chat c) (co_OlderInsert c) [e]) (co_Sys c)) (co_OlderInsert c + 1) (co_OlderInsertSys c)
  else set_tabs c (tab_append (co_Chat c) e) (co_Sys c).

Definition last_slot (c : Console) (e : entry) : slotRef := mkSlot (Z.of_nat (length (tb_lines (co_Chat c))) - 1) e.

Definition echoInputLine (c : Console) (text : str) : slotRef * Console :=
  let e := inputEchoEntry text in let c := emitTab c e in (last_slot c e, c).

(** [strings.Trim(s, "\n")]. *)
Fixpoint trim_left_byte (x : ascii) (s : str) : str :=
  match s with d :: s' => if byte_eqb d x then trim_left_byte x s' else s | [] => [] end.
Definition trim_nl (s : str) : str := trim_right_byte nl (trim_left_byte nl s).

Definition catchup_held (c : Console) : bool := y_CatchupHold (sync (co_Pump c)).

Definition flushPendingGreeting (c : Console) : Console :=
  match co_Greeting c with
  | [] => c
  | g => if catchup_held c then c else emitLocalEntry (set_greeting c []) (noticeEntry (trim_nl g))
  end.

Definition release_catchup (c : Console) : Console :=
  if catchup_held c then
    let c := set_pump c (set_client (co_Pump c) (releaseCatchup (pu_client (co_Pump c)))) in flushPendingGreeting c
  else c.

(** * Commands

    Each answers [None] when the line is not its own. *)

Definition sent (env : InputEnv) : bool := e_sent (st_env (ie_cfg env)).
Definition send_frame (env : InputEnv) (c : Console) (f : wire_frame) : Console := if sent env then effect_of c (EFrame f) else c.

Definition wipe_key (k : TripKey) : TripKey := mkTripKey (zero32) (tk_Seq k) (tk_Prev k).

(** Once. *)
Definition gracefulQuit (env : InputEnv) (c : Console) : Console :=
  if co_Quit c then c
  else
    let cl := pu_client (co_Pump c) in
    let c := set_pump c (set_client (co_Pump c) (set_tip cl (flushChainTip (st_env (ie_cfg env)) (cl_tip cl)))) in
    let c := send_frame env c FClose in
    let c := set_key c (wipe_key <$> co_Trip c) true in
    let c := flushPendingGreeting (release_catchup c) in
    if ie_sink env then effect_of c EQuit else c.

Definition cmdWhoami (env : InputEnv) (c : Console) (text : str) : option Console :=
  if negb (is_cmd text "/whoami" || is_cmd text "/w") then None else Some (emitLocalFeedback env c SWhoami).

Definition trip_pub (c : Console) : str := match co_Trip c with Some k => key_hex k | None => [] end.

Definition cmdStatus (env : InputEnv) (c : Console) (text : str) : option Console :=
  if negb (is_cmd text "/status") then None
  else
    let pubHex := trip_pub c in
    let tripInfo := match co_Trip c with Some _ => TripBadgeFromPubHex pubHex | None => [] end in
    let proof := match co_Trip c with Some _ => default [] (co_RevealProof c !! ToLower pubHex) | None => [] end in
    Some (emitLocalFeedback env c (SStatus tripInfo proof)).

Definition cmdHelp (env : InputEnv) (c : Console) (text : str) : option Console :=
  if negb (is_cmd text "/help" || is_cmd text "/h") then None else Some (emitLocalFeedback env c SHelp).

Definition set_showJoin (p : Pump) (b : bool) : Pump :=
  mkPump (pu_client p) (pu_load p) (pu_older p) (pu_banner p) (pu_votes p) b (pu_saved p).

Definition cmdShowjoin (env : InputEnv) (c : Console) (text : str) : option Console :=
  if negb (is_cmd text "/showjoin" || is_cmd text "/sj") then None
  else let on := negb (pu_showJoin (co_Pump c)) in
       Some (emitLocalFeedback env (set_pump c (set_showJoin (co_Pump c) on)) (SShowJoin on)).

Definition cmdAutoverify (env : InputEnv) (c : Console) (text : str) : option Console :=
  if negb (is_cmd text "/autoverify" || is_cmd text "/av") then None
  else let on := negb (co_AutoVerify c) in
       Some (emitLocalFeedback env (set_switches c on (co_ShowMeta c) (co_Notices c)) (SAutoVerify on)).

Definition set_notices (c : Console) (n : Notices) : Console := set_switches c (co_AutoVerify c) (co_ShowMeta c) n.

(** [strconv.Atoi]: an optional sign and digits that fit an [int]. *)
Definition Atoi (s : str) : option Z :=
  match s with
  | c :: s' => if byte_eqb c "+"%char then parse_uint 63 s' else parse_int s
  | [] => None
  end.

Definition notify_rest (text : str) : str :=
  let rest := arg_of text "/notify" in if str_eqb rest text then arg_of text "/nt" else rest.

Definition cmdNotify (env : InputEnv) (c : Console) (text : str) : option Console :=
  if negb (cmd_arg text "/notify" || cmd_arg text "/nt") then None
  else
    let say := emitLocalFeedback env in
    Some (match Fields (notify_rest text) with
    | [] => say c (SNotifyList (co_Notices c))
    | f0 :: fields =>
        let f0 := ToLower f0 in
        if str_eqb f0 (lit "powmin") then
          match fields with
          | [f1] =>
              match Atoi f1 with
              | Some tier => if tier <? 1 then say c SPowMinNumber
                             else say (set_notices c (notifySetPowMinTier (co_Notices c) tier)) (SPowMin tier)
              | None => say c SPowMinNumber
              end
          | _ => say c SPowMinUsage
          end
        else match fields with
        | [f1] =>
            match parseOnOff f1 with
            | None => say c SOnOff
            | Some on =>
                if str_eqb f0 (lit "all") then say (set_notices c (notifySetAll (co_Notices c) on)) (SNotifyAll on)
                else let '(ok, n) := notifySetTag (co_Notices c) f0 on in
                     if ok then say (set_notices c n) (SNotifyTag f0 on) else say c (SNotifyUnknown f0)
            end
        | _ => say c SNotifyUsage
        end
    end).

(** [switchTab]. *)
Definition switchTab (c : Console) (n : Z) : Console :=
  if (negb (n =? TabChat) && negb (n =? TabSystem)) || (n =? co_ActiveTab c) then c else set_tab (release_catchup c) n.

Definition cmdTab (c : Console) (text : str) : option Console :=
  if negb (cmd_arg text "/tab" || cmd_arg text "/t") then None
  else
    let n := co_ActiveTab c in
    Some (switchTab c
      (if is_cmd text "/tab" || is_cmd text "/t" then (if n =? TabChat then TabSystem else TabChat)
       else
         let rest := if has_prefix text (lit "/tab ") then arg_of text "/tab" else arg_of text "/t" in
         if str_eqb rest (lit "1") then TabChat else if str_eqb rest (lit "2") then TabSystem else n)).

Definition cmdClear (env : InputEnv) (c : Console) (text : str) : option Console :=
  if negb (is_cmd text "/clear" || is_cmd text "/c") then None
  else
    let c := set_greeting (release_catchup c) [] in
    Some (set_tabs c (tab_append (tab_reset (co_Chat c)) (noticeEntry (ie_banner env))) (co_Sys c)).

(** ** Replies *)

Definition buffered (c : Console) (height : Z) (suffix : str) : bool :=
  (0 <=? entryIndexByHeight (tb_lines (co_Chat c)) height suffix) || (0 <=? entryIndexByHeight (tb_lines (co_Sys c)) height suffix).

(** The target and the body of a [/reply] line. *)
Definition reply_parts (text : str) : str * str :=
  let rest := arg_of text "/reply" in
  match Fields rest with [] => ([], []) | target :: _ => (target, TrimSpace (drop (length target) rest)) end.

(** The line dispatch goes on with, what it did, and whether it was a reply. *)
Definition cmdReply (env : InputEnv) (c : Console) (text : str) : option (str * cmdAction * Console) :=
  if negb (cmd_arg text "/reply") then None
  else if negb (ie_replyEnabled env) then Some (text, cmdDone, emitLocalFeedback env c SReplyOff)
  else
    let '(target, body) := reply_parts text in
    match parseFindArg target with
    | Err _ => Some (text, cmdDone, emitLocalFeedback env c SReplyUsage)
    | Ok (height, suffix) =>
        if negb (buffered c height suffix) then Some (text, cmdDone, emitLocalFeedback env c (SReplyGone height))
        else match body with
        | [] => Some (text, cmdDone, set_draft c height (Some height))
        | _ => Some (body, cmdPass, set_reply c height)
        end
    end.
End unicode.

Section commands.
Context {U : Unicode} {E : Ed25519}.

(** ** Reading the log *)

Definition arg_either (text : str) (long short : string) : str := if has_prefix text (lit long) then arg_of text long else arg_of text short.

Definition cmdMeta (env : InputEnv) (c : Console) (text : str) : option Console :=
  if negb (cmd_arg text "/meta" || cmd_arg text "/m") then None
  else
    let rest := arg_either text "/meta" "/m" in
    let show on := emitLocalFeedback env (set_switches c (co_AutoVerify c) on (co_Notices c)) (SMeta on) in
    Some (if str_eqb rest (lit "on") then show true
          else if str_eqb rest (lit "off") then show false
          else match rest with
          | [] => show (negb (co_ShowMeta c))
          | _ => emitLocalFeedback env c SMetaUsage
          end).

(** A block nested under a notice header. *)
Definition nested (env : InputEnv) (m : say) (inner : entry) : entry :=
  mkEntry [] (ie_wording env m) [] 0 [] false false [] false kindNotice 0 (Some inner) false.

Definition hit (b : tabBuffer) (height : Z) (suffix : str) : option entry :=
  let idx := entryIndexByHeight (tb_lines b) height suffix in
  if 0 <=? idx then tb_lines b !! Z.to_nat idx else None.

(** The hits of both buffers, a line in both counted once. *)
Definition hits (c : Console) (height : Z) (suffix : str) : list entry :=
  match hit (co_Chat c) height suffix, hit (co_Sys c) height suffix with
  | Some a, Some b => if entry_eqb a b then [a] else [a; b]
  | Some a, None => [a]
  | None, Some b => [b]
  | None, None => []
  end.

Definition cmdFind (env : InputEnv) (c : Console) (text : str) : option Console :=
  if negb (cmd_arg text "/find" || cmd_arg text "/f") then None
  else
    Some (match parseFindArg (arg_either text "/find" "/f") with
    | Err e => emitLocalFeedback env c (SFindError e)
    | Ok (height, suffix) =>
        match hits c height suffix with
        | [] => emitLocalFeedback env c (SFindNone height)
        | found => fold_left (fun c e => emitTab c (nested env (SFound height) e)) found c
        end
    end).

(** The slot and the full block of a folded entry. *)
Definition unfoldableBlock (env : InputEnv) (c : Console) (height : Z) : res say (Z * entry) :=
  match fifo_get (wireIdx (ie_cfg env) (co_Pump c)) height with
  | None => Err SGone
  | Some w =>
      let idx := collapsedIndex (tb_lines (co_Chat c)) height in
      if idx <? 0 then Err SNotFolded else Ok (idx, ie_block env w (co_AutoVerify c) (co_ShowMeta c))
  end.

Definition expandCollapsed (env : InputEnv) (c : Console) (height : Z) : Console :=
  match unfoldableBlock env c height with
  | Err m => emitLocalFeedback env c m
  | Ok (_, full) => emitTab c (nested env (SExpanded height) full)
  end.

(** A click on the trailer opens the block where it sits. *)
Definition expandInPlace (env : InputEnv) (c : Console) (height : Z) : Console :=
  match unfoldableBlock env c height with
  | Err m => emitLocalFeedback env c m
  | Ok (idx, full) => set_tabs c (insertAt (spliceOut (co_Chat c) idx (idx + 1)) idx [full]) (co_Sys c)
  end.

Definition cmdExpand (env : InputEnv) (c : Console) (text : str) : option Console :=
  if negb (cmd_arg text "/expand" || cmd_arg text "/xpan") then None
  else
    Some (match parseFindArg (TrimSpace (TrimPrefix (TrimPrefix text (lit "/expand")) (lit "/xpan"))) with
    | Err _ => emitLocalFeedback env c SExpandUsage
    | Ok (height, _) => expandCollapsed env c height
    end).

Definition revealProof (c : Console) (w : WireMessage) : str :=
  match wm_Trip w with
  | Some t => if tm_Exposed t then default [] (co_RevealProof c !! ToLower (tm_Pub t)) else []
  | None => []
  end.

Definition cmdInfo (env : InputEnv) (c : Console) (text : str) : option Console :=
  if negb (cmd_arg text "/info") then None
  else
    Some (match parseFindArg (arg_of text "/info") with
    | Err _ => emitLocalFeedback env c SInfoUsage
    | Ok (height, suffix) =>
        match fifo_get (wireIdx (ie_cfg env) (co_Pump c)) height with
        | None => emitLocalFeedback env c (SInfoGone height)
        | Some w =>
            if negb (str_eqb suffix []) && negb (has_prefix (ToLower (wm_ChainHash w)) suffix) then emitLocalFeedback env c SInfoHash
            else emitLocalFeedback env c (SInfo w (revealProof c w) (pu_votes (co_Pump c) !! height))
        end
    end).

(** ** Copying *)

Definition copy (env : InputEnv) (c : Console) (text : str) (put : Console -> say -> Console) (done_ : say) : Console :=
  if ie_clipboard env then
    let c := put (effect_of c (EClip text)) done_ in if ie_clearAfter env <=? 0 then c else effect_of c (EClearLater text)
  else put c SCopyFailed.

Definition blank (s : str) : bool := str_eqb (TrimSpace s) [].

(** The newest chat message, searched from the end of the buffer. *)
Fixpoint latest_chat (env : InputEnv) (idx : wireIndex) (rev_lines : list entry) : option (Z * str) :=
  match rev_lines with
  | [] => None
  | e :: rest =>
      if en_muted e || (en_height e =? 0) then latest_chat env idx rest
      else
        let txt := match fifo_get idx (en_height e) with
                   | Some w => wm_Text w
                   | None => ie_strip env (match en_body e with [] => en_header e | b => b end)
                   end in
        if blank txt then latest_chat env idx rest else Some (en_height e, txt)
  end.
Definition latestChatCopy (env : InputEnv) (c : Console) : option (Z * str) :=
  latest_chat env (wireIdx (ie_cfg env) (co_Pump c)) (reverse (tb_lines (co_Chat c))).

Definition system_text (env : InputEnv) (e : entry) : str :=
  let txt := ie_strip env (en_header e) in
  match en_body e with
  | [] => txt
  | b => match txt with [] => ie_strip env b | _ => txt ++ nl :: ie_strip env b end
  end.
Fixpoint latest_system (env : InputEnv) (rev_lines : list entry) : option str :=
  match rev_lines with
  | [] => None
  | e :: rest =>
      if en_banner e || en_status e then latest_system env rest
      else let txt := system_text env e in if blank txt then latest_system env rest else Some txt
  end.
Definition latestSystemCopy (env : InputEnv) (c : Console) : option str := latest_system env (reverse (tb_lines (co_Sys c))).

Definition copyLatest (env : InputEnv) (c : Console) : Console :=
  let put := emitStatusLocked env in
  if co_ActiveTab c =? TabSystem then
    match latestSystemCopy env c with
    | Some txt => copy env c txt put SCopiedSys
    | None => put c SNothingSys
    end
  else match latestChatCopy env c with
  | Some (height, txt) => copy env c txt put (SCopied height)
  | None => put c SNothingChat
  end.

Definition cmdCopy (env : InputEnv) (c : Console) (text : str) : option Console :=
  if negb (cmd_arg text "/copy") then None
  else
    let rest := arg_of text "/copy" in
    Some (match rest with
    | [] => copyLatest env c
    | _ =>
        match parseFindArg rest with
        | Err _ => emitLocalFeedback env c SCopyUsage
        | Ok (height, _) =>
            match fifo_get (wireIdx (ie_cfg env) (co_Pump c)) height with
            | None => emitLocalFeedback env c (SCopyGone height)
            | Some w => copy env c (wm_Text w) (emitLocalFeedback env) (SCopied height)
            end
        end
    end).

Definition cmdClearhistory (env : InputEnv) (c : Console) (text : str) : option Console :=
  if negb (is_cmd text "/clearhistory" || is_cmd text "/ch") then None
  else Some (emitLocalFeedback env (effect_of c EForget) SHistoryCleared).

(** ** Paging, votes and the seed *)

(** [requestOlder] of ClientPump, with the anchors it takes and its frame. *)
Definition request_older (env : InputEnv) (c : Console) (limit : Z) : bool * Console :=
  match oldest (wireIdx (ie_cfg env) (co_Pump c)) with
  | None => (false, c)
  | Some before =>
      let c := set_anchors c (olderAnchor (tb_lines (co_Chat c))) (olderAnchor (tb_lines (co_Sys c))) in
      (true, send_frame env (set_pump c (requestOlder (ie_cfg env) (co_Pump c) limit).2) (FOlder before limit))
  end.

Definition cmdOlder (env : InputEnv) (c : Console) (text : str) : option Console :=
  if negb (cmd_arg text "/older") then None
  else
    let limit := match arg_of text "/older" with [] => Some 50 | rest => n ← Atoi rest; if n <=? 0 then None else Some n end in
    Some (match limit with
    | None => emitLocalFeedback env c SOlderUsage
    | Some limit =>
        let '(ok, c) := request_older env c limit in
        if negb ok then emitLocalFeedback env c SOlderNone
        else if negb (sent env) then emitLocalFeedback env c SOlderFailed else c
    end).

Definition quotable (w : WireMessage) : bool := str_eqb (wm_Type w) (lit "chat") && (0 <? wm_ChainHeight w).

Definition sendVote (env : InputEnv) (c : Console) (height : Z) (suffix : str) (direction : Z) : bool * Console :=
  let known := match fifo_get (wireIdx (ie_cfg env) (co_Pump c)) height with Some w => quotable w | None => false end in
  if negb known || (entryIndexByHeight (tb_lines (co_Chat c)) height suffix <? 0) then (false, emitLocalFeedback env c (SVoteGone height))
  else if sent env then (true, effect_of c (EFrame (FVote height direction)))
  else (false, emitLocalFeedback env c SVoteFailed).

Definition vote_words : list (string * Z) :=
  [("/upvote", DirUpvote); ("/up", DirUpvote); ("/downvote", DirDownvote); ("/down", DirDownvote); ("/unvote", DirWithdraw)]%string.

Definition cmdVote (env : InputEnv) (c : Console) (text : str) : option Console :=
  match List.find (fun wd => cmd_arg text wd.1) vote_words with
  | None => None
  | Some (word, direction) =>
      Some (match parseFindArg (arg_of text word) with
      | Err _ => emitLocalFeedback env c SVoteUsage
      | Ok (height, suffix) => (sendVote env c height suffix direction).2
      end)
  end.

Definition cmdBurn (env : InputEnv) (c : Console) (text : str) : option Console :=
  if negb (is_cmd text "/burn") && negb (is_cmd text "/burn confirm") then None
  else
    Some (match co_Trip c with
    | None => emitLocalFeedback env c SNoTrip
    | Some k =>
        if is_cmd text "/burn" || negb (co_BurnArmed c) then emitLocalFeedback env (set_armed c true) SBurnWarn
        else
          let seedHex := hex_encode (tk_Seed k) in
          let pubHex := key_hex k in
          let sigHex := SignReveal (tk_Seed k ++ ed_pub (tk_Seed k)) pubHex in
          let c := emitLocalFeedback env (set_armed c false) (SBurnSeed seedHex pubHex (co_TripBadge c)) in
          if sent env then emitStatusLocked env (effect_of c (EFrame (FReveal seedHex sigHex))) SBurnSent
          else emitStatusLocked env c SBurnFailed
    end).

Definition cmdBurnVerify (env : InputEnv) (c : Console) (text : str) : option Console :=
  if negb (cmd_arg text "/burn-verify") then None
  else
    Some (emitLocalFeedback env c
      (match Fields (arg_of text "/burn-verify") with
       | [seed; pub] => if VerifySeed seed pub then SSeedMatches else SSeedDiffers
       | _ => SSeedUsage
       end)).
End commands.

Section loop.
Context {U : Unicode} {E : Ed25519}.

(** * Dispatch *)

(** The first command of a table that takes the line. *)
Fixpoint first_of (cmds : list (Console -> str -> option Console)) (c : Console) (text : str) : option Console :=
  match cmds with
  | [] => None
  | cmd :: cmds' => match cmd c text with Some c' => Some c' | None => first_of cmds' c text end
  end.

Definition early_commands (env : InputEnv) : list (Console -> str -> option Console) :=
  [cmdWhoami env; cmdStatus env; cmdHelp env; cmdShowjoin env; cmdAutoverify env; cmdNotify env; cmdTab; cmdClear env].
Definition late_commands (env : InputEnv) : list (Console -> str -> option Console) :=
  [cmdMeta env; cmdFind env; cmdExpand env; cmdInfo env; cmdCopy env; cmdClearhistory env; cmdOlder env; cmdVote env;
   cmdBurn env; cmdBurnVerify env].

(** The half after [cmdReply], on the line or on the body of a reply. *)
Definition dispatch_rest (env : InputEnv) (c : Console) (text : str) : str * cmdAction * Console :=
  match first_of (late_commands env) c text with
  | Some c => (text, cmdDone, set_reply c 0)
  | None =>
      if isUnknownSlashCommand text then (text, cmdReject, set_reply (emitLocalFeedback env c (SUnknown text)) 0)
      else (text, cmdPass, c)
  end.

Definition dispatch (env : InputEnv) (c : Console) (text : str) : str * cmdAction * Console :=
  if is_cmd text "/quit" || is_cmd text "/q" then (text, cmdQuit, gracefulQuit env c)
  else match first_of (early_commands env) c text with
  | Some c => (text, cmdDone, c)
  | None =>
      match cmdReply env c text with
      | Some (next, cmdPass, c) => dispatch_rest env c next
      | Some (next, act, c) => (next, act, c)
      | None => dispatch_rest env c text
      end
  end.

(** * The input loop *)

Definition handleDraftGate (c : Console) (text : str) : Console :=
  if has_prefix text (lit "/") then set_draft c 0 None
  else set_draft (set_reply c (co_ReplyDraft c)) 0 None.

Definition cancelReply (c : Console) : bool * Console :=
  if (co_ReplyDraft c =? 0) && (PendingReplyTo (pend c) =? 0) then (false, c)
  else (true, set_reply (set_draft c 0 (co_Prompt c)) 0).

(** A cancelled read; any other error ends the session. *)
Definition handleReadErr (env : InputEnv) (c : Console) (cancelled : bool) : cmdAction * Console :=
  if negb cancelled then (cmdQuit, gracefulQuit env c)
  else
    let c := set_reply c 0 in
    if 0 <? co_ReplyDraft c then (cmdDone, emitLocalFeedback env (set_draft c 0 None) SDraftCancelled)
    else (cmdDone, emitLocalFeedback env (set_draft c (co_ReplyDraft c) None) SCancelHint).

Definition recordHistory (env : InputEnv) (c : Console) (line : str) (isCommand : bool) : Console :=
  if negb (ie_sink env) || (negb isCommand && negb (ie_saveMessages env)) then c else effect_of c (ERecall line).

(** [checkSendGuards] of Outbox with its notices. *)
Definition refusal_say (env : InputEnv) (now : time) (c : Console) (text : str) : option say :=
  match ValidateMessage text with
  | Err e => Some (SRefusedChars e)
  | Ok _ =>
      match ie_limits env with
      | None => None
      | Some lim =>
          match ValidateMessageForSend now text (LastMessageTime (pend c)) (Some lim) false with
          | Err ErrTooFast => Some (STooFast (MessageCooldown lim))
          | Err ErrTooLong => Some (STooLong (MaxMessageLength lim))
          | _ => None
          end
      end
  end.

(** The pending block takes the slot of the echo, or is appended. *)
Definition renderPlaceholder (env : InputEnv) (c : Console) (text : str) (slot : slotRef) : slotRef * bool * Console :=
  let shown := co_ActiveTab c =? TabChat in
  let e := ie_placeholder env text (PendingReplyTo (pend c)) in
  let '(ok, chat) := replaceSlot (co_Chat c) slot e in
  if ok then (mkSlot (sl_index slot) e, shown, set_tabs c chat (co_Sys c))
  else let c := emitTab c e in (last_slot c e, shown, c).

(** The sender half of Outbox over this state. *)
Definition sender (c : Console) : Sender := mkSender (co_Username c) (co_ServerPub c) (co_Trip c) (pend c) (co_Chat c).
Definition with_sender (c : Console) (s : Sender) : Console :=
  set_tabs (set_key (set_pend c (sd_Pending s)) (sd_Trip s) (co_Quit c)) (sd_Chat s) (co_Sys c).

Definition send (env : InputEnv) (c : Console) (text : str) (slot : slotRef) : bool * Console :=
  let now := e_now (st_env (ie_cfg env)) in
  let '(slot, shown, c) := renderPlaceholder env c text slot in
  let '(line, s) := sendMessage now (sent env) (co_Epoch c) (sender c) text slot shown in
  let c := with_sender c s in
  (sent env, if sent env then effect_of c (EFrame (FLine line)) else c).

Inductive input :=
| ILine (raw : str)      (* a submitted line *)
| ICancel                (* [ErrInputCancel] *)
| IEnd                   (* any other read error *)
| IReset.                (* the application drops a pending reply *)

(** One turn: whether the loop goes on, and the state. *)
Definition input_step (env : InputEnv) (c : Console) (i : input) : bool * Console :=
  match i with
  | IReset => (true, (cancelReply c).2)
  | ICancel => (true, (handleReadErr env c true).2)
  | IEnd => (false, (handleReadErr env c false).2)
  | ILine raw =>
      match TrimSpace raw with
      | [] => (true, c)
      | submitted =>
          let '(slot, c) := echoInputLine c submitted in
          let c := handleDraftGate c submitted in
          let '(text, act, c) := dispatch env c submitted in
          let c := recordHistory env c submitted (match act with cmdDone | cmdQuit => true | _ => false end) in
          match act with
          | cmdQuit => (false, c)
          | cmdDone | cmdReject => (true, c)
          | cmdPass =>
              match refusal_say env (e_now (st_env (ie_cfg env))) c text with
              | Some m => (true, set_reply (emitLocalFeedback env c m) 0)
              | None => send env (recordHistory env c submitted false) text slot
              end
          end
      end
  end.

Fixpoint input_run (c : Console) (ins : list (InputEnv * input)) : Console :=
  match ins with
  | [] => c
  | (env, i) :: ins' => let '(go, c') := input_step env c i in if go then input_run c' ins' else c'
  end.
End loop.
