(* ===== verification/Replies.v ===== *)
(** What the input loop of file Console sends: every line and its reply target,
    turn by turn, against a specification that keeps one draft. *)

From S2P Require Import Prelude Bytes Sha2 Utf8 Wire Json Filter Guard Crypto Trip Votes TripChains ClientView Outbox ClientChain ClientTrack ClientPump Notices NetIP Console.
Local Open Scope Z_scope.

(** * Theorems *)

(** ** What leaves the session *)

Definition line_of (e : effect) : option clientLine := match e with EFrame (FLine l) => Some l | _ => None end.
Definition reveal_of (e : effect) : option (str * str) := match e with EFrame (FReveal s g) => Some (s, g) | _ => None end.
Definition lines_sent (c : Console) : list clientLine := omap line_of (co_Out c).
Definition reveals_sent (c : Console) : list (str * str) := omap reveal_of (co_Out c).

(** The text and the reply target of a line. *)
Definition line_says (l : clientLine) : str * Z :=
  match l with CTrip e => (te_Text e, te_ReplyTo e) | CPlain _ text reply => (text, reply) end.

(** Steps that touch neither the draft, the key nor what is sent. *)
Record calm (c c' : Console) : Prop := {
  calm_reply : PendingReplyTo (pend c') = PendingReplyTo (pend c);
  calm_draft : co_ReplyDraft c' = co_ReplyDraft c;
  calm_armed : co_BurnArmed c' = co_BurnArmed c;
  calm_trip : co_Trip c' = co_Trip c;
  calm_lines : lines_sent c' = lines_sent c;
  calm_reveals : reveals_sent c' = reveals_sent c
}.

Create HintDb calm.

#[export] Instance calm_preorder : PreOrder calm.
Proof.
  split; [by intros c; split|]. intros a b c [] []. split; congruence.
Qed.

Lemma calm_trans a b c : calm a b -> calm b c -> calm a c.
Proof. intros. by transitivity b. Qed.
Lemma calm_refl c : calm c c.
Proof. done. Qed.
#[export] Hint Resolve calm_refl : calm.

Section calm.
Context {U : Unicode} {E : Ed25519}.

Lemma calm_tabs c a b : calm c (set_tabs c a b).
Proof. done. Qed.
Lemma calm_anchors c a b : calm c (set_anchors c a b).
Proof. done. Qed.
Lemma calm_greeting c g : calm c (set_greeting c g).
Proof. done. Qed.
Lemma calm_tab c n : calm c (set_tab c n).
Proof. done. Qed.
Lemma calm_switches c a b n : calm c (set_switches c a b n).
Proof. done. Qed.
Lemma calm_pump c p : cl_pending (pu_client p) = pend c -> calm c (set_pump c p).
Proof. intros H. split; try done. by unfold pend; cbn; rewrite H. Qed.
Lemma calm_effect c e : line_of e = None -> reveal_of e = None -> calm c (effect_of c e).
Proof.
  intros H1 H2. split; try done; unfold lines_sent, reveals_sent; cbn [co_Out effect_of]; rewrite omap_app; cbn [omap list_omap];
    by rewrite ?H1, ?H2, app_nil_r.
Qed.
Lemma calm_entry c e : calm c (emitLocalEntry c e).
Proof. done. Qed.
Lemma calm_say env c m : calm c (emitLocalFeedback env c m).
Proof. done. Qed.
Lemma calm_status env c m : calm c (emitStatusLocked env c m).
Proof. done. Qed.
Lemma calm_emit c e : calm c (emitTab c e).
Proof. unfold emitTab. by case_match. Qed.
Lemma calm_flush c : calm c (flushPendingGreeting c).
Proof. unfold flushPendingGreeting. by repeat case_match. Qed.
Lemma calm_release c : calm c (release_catchup c).
Proof.
  unfold release_catchup. case_match; [|done]. eapply calm_trans; [|apply calm_flush]. apply calm_pump.
  unfold releaseCatchup, pend. cbn. by case_match.
Qed.
Lemma calm_notices c n : calm c (set_notices c n).
Proof. done. Qed.

(** A command does calm things. *)
Definition calm_cmd (cmd : Console -> str -> option Console) : Prop := forall c text c', cmd c text = Some c' -> calm c c'.

Ltac calm_go :=
  repeat first
    [ apply calm_refl | done
    | match goal with |- calm _ (emitLocalFeedback _ ?c _) => eapply calm_trans; [|apply calm_say] end
    | match goal with |- calm _ (emitStatusLocked _ ?c _) => eapply calm_trans; [|apply calm_status] end
    | match goal with |- calm _ (set_switches ?c _ _ _) => eapply calm_trans; [|apply calm_switches] end
    | match goal with |- calm _ (set_tabs ?c _ _) => eapply calm_trans; [|apply calm_tabs] end
    | match goal with |- calm _ (set_greeting ?c _) => eapply calm_trans; [|apply calm_greeting] end
    | match goal with |- calm _ (set_tab ?c _) => eapply calm_trans; [|apply calm_tab] end
    | match goal with |- calm _ (set_notices ?c _) => eapply calm_trans; [|apply calm_notices] end
    | match goal with |- calm _ (emitTab ?c _) => eapply calm_trans; [|apply calm_emit] end
    | match goal with |- calm _ (release_catchup ?c) => eapply calm_trans; [|apply calm_release] end
    | match goal with |- calm _ (effect_of ?c _) => eapply calm_trans; [|by apply calm_effect] end ].

Lemma early_calm env : Forall calm_cmd (early_commands env).
Proof.
  unfold early_commands. repeat apply Forall_cons_2; [..|apply Forall_nil_2]; intros c text c'.
  - unfold cmdWhoami. case_match; [done|]. intros [= <-]. calm_go.
  - unfold cmdStatus. case_match; [done|]. intros [= <-]. calm_go.
  - unfold cmdHelp. case_match; [done|]. intros [= <-]. calm_go.
  - unfold cmdShowjoin. case_match; [done|]. intros [= <-]. calm_go.
  - unfold cmdAutoverify. case_match; [done|]. intros [= <-]. calm_go.
  - unfold cmdNotify. case_match; [done|]. cbv zeta. repeat case_match; intros [= <-]; calm_go.
  - unfold cmdTab, switchTab. case_match; [done|]. cbv zeta. intros [= <-]. case_match; calm_go.
  - unfold cmdClear. case_match; [done|]. intros [= <-]. calm_go.
Qed.

Lemma calm_copy env c text put m : (forall c m, calm c (put c m)) -> calm c (copy env c text put m).
Proof.
  intros Hp. unfold copy. case_match; [|apply Hp]. cbv zeta.
  assert (calm c (put (effect_of c (EClip text)) m)) as H1 by (eapply calm_trans; [|apply Hp]; by apply calm_effect).
  case_match; [done|]. eapply calm_trans; [exact H1|]. by apply calm_effect.
Qed.

Lemma calm_older env c limit : calm c (request_older env c limit).2.
Proof.
  unfold request_older. case_match; [|done]. cbn [snd]. unfold send_frame.
  assert (calm c (set_pump (set_anchors c (olderAnchor (tb_lines (co_Chat c))) (olderAnchor (tb_lines (co_Sys c))))
    (requestOlder (ie_cfg env) (co_Pump c) limit).2)) as H1.
  { eapply calm_trans; [eapply calm_anchors|]. apply calm_pump. unfold requestOlder. by repeat case_match. }
  case_match; [|exact H1]. eapply calm_trans; [exact H1|]. by apply calm_effect.
Qed.

Lemma calm_expand env c height : calm c (expandCollapsed env c height).
Proof. unfold expandCollapsed. repeat case_match; calm_go. Qed.

(** The late commands but the burn. *)
Lemma late_calm env cmd : cmd ∈ late_commands env -> (forall c text, cmd c text = cmdBurn env c text) \/ calm_cmd cmd.
Proof.
  unfold late_commands. rewrite !elem_of_cons, elem_of_nil.
  intros [-> |[-> |[-> |[-> |[-> |[-> |[-> |[-> |[-> |[-> |[]]]]]]]]]]]; try (by left); right; intros c text c'.
  - unfold cmdMeta. case_match; [done|]. cbv zeta. intros [= <-]. repeat case_match; calm_go.
  - unfold cmdFind. case_match; [done|]. intros [= <-].
    destruct (parseFindArg _) as [[h s]|]; [|calm_go].
    assert (forall l c, calm c (fold_left (fun c e => emitTab c (nested env (SFound h) e)) l c)) as Hf.
    { intros l. induction l as [|e l IH]; intros c1; [done|]. cbn [fold_left]. eapply calm_trans; [|apply IH]. apply calm_emit. }
    destruct (hits c h s) as [|e l]; [calm_go|exact (Hf (e :: l) c)].
  - unfold cmdExpand. case_match; [done|]. intros [= <-]. repeat case_match; calm_go. apply calm_expand.
  - unfold cmdInfo. case_match; [done|]. intros [= <-]. repeat case_match; calm_go.
  - unfold cmdCopy. case_match; [done|]. cbv zeta. intros [= <-]. unfold copyLatest.
    repeat case_match; calm_go; apply calm_copy; intros; calm_go.
  - unfold cmdClearhistory. case_match; [done|]. intros [= <-]. calm_go.
  - unfold cmdOlder. case_match; [done|]. cbv zeta. intros [= <-]. destruct (match arg_of text "/older" with [] => Some 50 | _ => _ end) as [z|]; [|calm_go].
    pose proof (calm_older env c z) as Ho. destruct (request_older env c z) as [ok c1]. cbn [snd] in Ho. repeat case_match; calm_go; done.
  - unfold cmdVote. case_match; [|done]. destruct p as [w d]. intros [= <-]. repeat case_match; calm_go.
    unfold sendVote. repeat case_match; cbn [snd]; calm_go.
  - unfold cmdBurnVerify. case_match; [done|]. intros [= <-]. calm_go.
Qed.
End calm.

(** ** Which lines are commands *)

Lemma prefix_clash t p q : has_prefix t p = true -> has_prefix t q = true -> has_prefix p q = true \/ has_prefix q p = true.
Proof.
  revert p q. induction t as [|c t IH]; intros [|a p] [|b q]; cbn [has_prefix]; try (by auto); try done.
  intros [Ha Hp]%andb_true_iff [Hb Hq]%andb_true_iff. apply byte_eqb_eq in Ha as ->. apply byte_eqb_eq in Hb as ->.
  rewrite byte_eqb_refl. exact (IH p q Hp Hq).
Qed.

Lemma not_cmd t w p : has_prefix t p = true -> has_prefix (lit w) p = false -> is_cmd t w = false.
Proof. unfold is_cmd. intros Ht Hw. apply str_eqb_neq. intros ->. by rewrite Ht in Hw. Qed.

Lemma not_arg t w p : has_prefix t p = true -> has_prefix (lit w) p = false -> has_prefix (lit w ++ lit " ") p = false ->
  has_prefix p (lit w ++ lit " ") = false -> cmd_arg t w = false.
Proof.
  intros Ht H1 H2 H3. unfold cmd_arg. apply orb_false_iff. split; [exact (not_cmd t w p Ht H1)|].
  apply not_true_iff_false. intros H. destruct (prefix_clash _ _ _ Ht H) as [Hc|Hc]; congruence.
Qed.

Lemma arg_prefix t w : cmd_arg t w = true -> has_prefix t (lit w) = true.
Proof.
  unfold cmd_arg. rewrite orb_true_iff, str_eqb_eq. intros [-> |H]; [apply has_prefix_spec; exists []; by rewrite app_nil_r|].
  apply has_prefix_spec in H as [x ->]. apply has_prefix_spec. exists (lit " " ++ x). by rewrite app_assoc.
Qed.

Lemma plain_cmd t w : isUnknownSlashCommand t = false -> is_cmd t (String "/" w) = false.
Proof. unfold is_cmd, isUnknownSlashCommand. intros H. apply str_eqb_neq. intros ->. done. Qed.
Lemma plain_arg t w : isUnknownSlashCommand t = false -> cmd_arg t (String "/" w) = false.
Proof.
  intros H. apply not_true_iff_false. intros Ha%arg_prefix. apply has_prefix_spec in Ha as [x ->]. done.
Qed.

Section dispatch.
Context {U : Unicode} {E : Ed25519}.

Lemma first_of_none cmds (c : Console) t : (forall cmd, cmd ∈ cmds -> cmd c t = None) -> first_of cmds c t = None.
Proof.
  induction cmds as [|cmd cmds IH]; intros H; [done|]. cbn [first_of]. rewrite H by by left. apply IH. intros. apply H. by right.
Qed.

(** No command takes a plain line, and only [cmdReply] takes a reply. *)
Lemma plain_early env (c : Console) t : isUnknownSlashCommand t = false -> first_of (early_commands env) c t = None.
Proof.
  intros H. unfold early_commands, cmdWhoami, cmdStatus, cmdHelp, cmdShowjoin, cmdAutoverify, cmdNotify, cmdTab, cmdClear.
  cbn [first_of]. rewrite !plain_cmd, !plain_arg by done. reflexivity.
Qed.

Lemma plain_late env (c : Console) t : isUnknownSlashCommand t = false -> first_of (late_commands env) c t = None.
Proof.
  intros H. unfold late_commands, cmdMeta, cmdFind, cmdExpand, cmdInfo, cmdCopy, cmdClearhistory, cmdOlder, cmdVote, cmdBurn, cmdBurnVerify, vote_words.
  cbn [first_of List.find fst]. rewrite !plain_cmd, !plain_arg by done. reflexivity.
Qed.

Lemma plain_dispatch env (c : Console) t : isUnknownSlashCommand t = false -> dispatch env c t = (t, cmdPass, c).
Proof.
  intros H. unfold dispatch, cmdReply, dispatch_rest. rewrite !plain_cmd by done. cbn [orb]. rewrite plain_early by done.
  rewrite plain_arg by done. cbn [negb]. by rewrite plain_late, H.
Qed.

Lemma reply_early env (c : Console) t : has_prefix t (lit "/reply") = true -> first_of (early_commands env) c t = None.
Proof.
  intros H. unfold early_commands, cmdWhoami, cmdStatus, cmdHelp, cmdShowjoin, cmdAutoverify, cmdNotify, cmdTab, cmdClear.
  cbn [first_of]. rewrite !(not_cmd t _ _ H), !(not_arg t _ _ H) by reflexivity. reflexivity.
Qed.

(** A line let through is not a command. *)
Lemma rest_cases env (c : Console) t :
  (isUnknownSlashCommand t = false /\ dispatch_rest env c t = (t, cmdPass, c)) \/
  (isUnknownSlashCommand t = true /\ exists act c1, dispatch_rest env c t = (t, act, set_reply c1 0) /\ act <> cmdPass /\
    (first_of (late_commands env) c t = Some c1 \/ c1 = emitLocalFeedback env c (SUnknown t))).
Proof.
  destruct (isUnknownSlashCommand t) eqn:Es; [right; split; [done|]|left; split; [done|]]; unfold dispatch_rest.
  - destruct (first_of _ c t) as [c1|] eqn:Ef; [exists cmdDone, c1; split; [done|]; split; [done|by left]|].
    rewrite Es. exists cmdReject, (emitLocalFeedback env c (SUnknown t)). split; [done|]. split; [done|by right].
  - by rewrite plain_late, Es.
Qed.
End dispatch.

(** ** What a line says

    The specification keeps one number, the target of a reply draft, and reads
    what is sent off the line itself. *)

Section line_says.
Context {U : Unicode} {E : Ed25519}.

(** A [/reply] line whose target is in memory: the target and the body. *)
Definition replied (env : InputEnv) (c : Console) (t : str) : option (Z * str) :=
  if cmd_arg t "/reply" && ie_replyEnabled env then
    match parseFindArg (reply_parts t).1 with
    | Ok (h, suffix) => if buffered c h suffix then Some (h, (reply_parts t).2) else None
    | Err _ => None
    end
  else None.

(** The text a line asks to send, with its reply target, and the draft it
    leaves; [c] is the state with the line already echoed. *)
Definition said (env : InputEnv) (c : Console) (draft : Z) (t : str) : option (str * Z) * Z :=
  if negb (isUnknownSlashCommand t) then (Some (t, draft), 0)
  else match replied env c t with
  | Some (h, []) => (None, h)
  | Some (h, body) => (if isUnknownSlashCommand body then None else Some (body, h), 0)
  | None => (None, 0)
  end.

(** What one turn sends, and the draft after it. *)
Definition asked (env : InputEnv) (c : Console) (draft : Z) (i : input) : list (str * Z) * Z :=
  match i with
  | ILine raw =>
      match TrimSpace raw with
      | [] => ([], draft)
      | t =>
          let '(o, draft') := said env (echoInputLine c t).2 draft t in
          (match o with
           | Some (body, h) => if sent env && checkSendGuards (e_now (st_env (ie_cfg env))) (ie_limits env) (pend c) body then [(body, h)] else []
           | None => []
           end, draft')
      end
  | ICancel | IReset => ([], 0)
  | IEnd => ([], draft)
  end.

Fixpoint asked_run (draft : Z) (c : Console) (ins : list (InputEnv * input)) : list (str * Z) :=
  match ins with
  | [] => []
  | (env, i) :: ins' =>
      let '(out, draft') := asked env c draft i in
      let '(go, c') := input_step env c i in
      out ++ (if go then asked_run draft' c' ins' else [])
  end.

(** Between turns no target is armed. *)
Definition unarmed (c : Console) (draft : Z) : Prop := PendingReplyTo (pend c) = 0 /\ co_ReplyDraft c = draft /\ 0 <= draft.

(** Turns are compared on the targets and the lines. *)
Record same_sends (c c' : Console) : Prop := {
  kept_reply : PendingReplyTo (pend c') = PendingReplyTo (pend c);
  kept_draft : co_ReplyDraft c' = co_ReplyDraft c;
  kept_lines : lines_sent c' = lines_sent c
}.

#[export] Instance kept_preorder : PreOrder same_sends.
Proof. split; [by intros c; split|]. intros a b c [] []. split; congruence. Qed.

Lemma calm_kept c c' : calm c c' -> same_sends c c'.
Proof. intros []. by split. Qed.

Lemma burn_kept env c t c' : cmdBurn env c t = Some c' -> same_sends c c'.
Proof.
  unfold cmdBurn. case_match; [done|]. intros [= <-]. repeat case_match; try done.
  split; try done. unfold lines_sent. cbn. rewrite omap_app. cbn. by rewrite app_nil_r.
Qed.

Lemma first_of_some cmds (c : Console) t c' : first_of cmds c t = Some c' -> exists cmd, cmd ∈ cmds /\ cmd c t = Some c'.
Proof.
  induction cmds as [|cmd cmds IH]; [done|]. cbn [first_of]. destruct (cmd c t) as [c1|] eqn:Ec.
  - intros [= <-]. exists cmd. split; [by left|done].
  - intros (x & Hx & Hc)%IH. exists x. split; [by right|done].
Qed.

Lemma late_kept env c t c' : first_of (late_commands env) c t = Some c' -> same_sends c c'.
Proof.
  intros (cmd & Hin & Hc)%first_of_some. destruct (late_calm env cmd Hin) as [Hb|Hb].
  - rewrite Hb in Hc. by eapply burn_kept.
  - apply calm_kept. by eapply Hb.
Qed.

Lemma early_kept env c t c' : first_of (early_commands env) c t = Some c' -> same_sends c c'.
Proof.
  intros (cmd & Hin & Hc)%first_of_some. apply calm_kept. pose proof (early_calm env) as H. rewrite Forall_forall in H. by eapply (H cmd Hin).
Qed.

Lemma kept_effect c e : line_of e = None -> same_sends c (effect_of c e).
Proof. intros H. split; try done. unfold lines_sent. cbn. rewrite omap_app. cbn. by rewrite H, app_nil_r. Qed.

Lemma kept_record env c line b : same_sends c (recordHistory env c line b).
Proof. unfold recordHistory. case_match; [done|by apply kept_effect]. Qed.

Lemma quit_kept env c : same_sends c (gracefulQuit env c).
Proof.
  unfold gracefulQuit. case_match; [done|]. cbv zeta.
  set (c1 := set_pump c _). set (c2 := send_frame env c1 FClose). set (c3 := set_key c2 _ _).
  assert (same_sends c c1) as H1 by (by apply calm_kept, calm_pump).
  assert (same_sends c1 c2) as H2 by (unfold c2, send_frame; case_match; [by apply kept_effect|done]).
  assert (same_sends c2 c3) as H3 by done.
  assert (same_sends c3 (flushPendingGreeting (release_catchup c3))) as H4.
  { apply calm_kept. eapply calm_trans; [apply calm_release|apply calm_flush]. }
  assert (same_sends c (flushPendingGreeting (release_catchup c3))) as H5 by (etransitivity; [exact H1|]; etransitivity; [exact H2|]; by etransitivity).
  case_match; [|exact H5]. etransitivity; [exact H5|]. by apply kept_effect.
Qed.

(** ** One turn *)

Lemma guards_agree env now c text : refusal_say env now c text = None <-> checkSendGuards now (ie_limits env) (pend c) text = true.
Proof. unfold refusal_say, checkSendGuards. by repeat case_match. Qed.

Lemma track_reply p (now : time) pm : PendingReplyTo (track p now pm).2 = 0.
Proof. unfold track. destruct (takeStashedEcho _ _) as [es [w|]]; done. Qed.

Lemma send_says (now : time) ok epoch s text slot shown :
  let '(line, s') := sendMessage now ok epoch s text slot shown in
  line_says line = (text, PendingReplyTo (sd_Pending s)) /\ PendingReplyTo (sd_Pending s') = 0.
Proof.
  unfold sendMessage, sign_line. cbv zeta. destruct (sd_Trip s) as [k|].
  - destruct ok; [|done]. cbn [tk_Seq tk_Seed]. set (pm := mkPending _ _ _ _ _ _ _ _ _ _). set (p := mkPendingState _ _ _ _ _ _ _).
    pose proof (track_reply p now pm) as Ht. destruct (track p now pm) as [raced p']. by split.
  - destruct ok; [|done]. set (pm := mkPending _ _ _ _ _ _ _ _ _ _). set (p := mkPendingState _ _ _ _ _ _ _).
    pose proof (track_reply p now pm) as Ht. destruct (track p now pm) as [raced p']. by split.
Qed.

Lemma place_calm env c text slot : calm c (renderPlaceholder env c text slot).2.
Proof.
  unfold renderPlaceholder. destruct (replaceSlot _ _ _) as [ok chat]. destruct ok; cbn [snd]; [apply calm_tabs|apply calm_emit].
Qed.

(** A send: the line says the text and the armed target, which is spent. *)
Lemma send_turn env c text slot :
  let c' := (send env c text slot).2 in
  PendingReplyTo (pend c') = 0 /\ co_ReplyDraft c' = co_ReplyDraft c /\
  map line_says (lines_sent c') = map line_says (lines_sent c) ++ (if sent env then [(text, PendingReplyTo (pend c))] else []).
Proof.
  unfold send. pose proof (place_calm env c text slot) as Hp. destruct (renderPlaceholder env c text slot) as [[sl shown] c1]. cbn [snd] in Hp.
  destruct Hp as [P1 P2 _ _ P5 _].
  pose proof (send_says (e_now (st_env (ie_cfg env))) (sent env) (co_Epoch c1) (sender c1) text sl shown) as Hs.
  destruct (sendMessage _ _ _ _ _ _ _) as [line s]. destruct Hs as [S1 S2]. cbn [snd].
  assert (sd_Pending (sender c1) = pend c1) as Es by done. rewrite Es, P1 in S1.
  destruct (sent env); unfold lines_sent in *; cbn [effect_of with_sender set_tabs set_key set_pend set_pump pend co_Pump co_ReplyDraft co_Out];
    (split; [exact S2|split; [exact P2|]]).
  - rewrite omap_app, map_app. cbn [omap list_omap line_of map]. by rewrite P5, S1.
  - by rewrite P5, app_nil_r.
Qed.
End line_says.

Lemma parse_uint_range bits s n : parse_uint bits s = Some n -> 0 <= n < 2 ^ bits.
Proof.
  unfold parse_uint. destruct s as [|c s]; [done|]. destruct (forallb is_digit (c :: s)) eqn:Hd; [|done].
  destruct (digits_val (c :: s) <? 2 ^ bits) eqn:Hb; [|done]. intros [= <-]. split; [|lia]. unfold digits_val.
  assert (forall l a, forallb is_digit l = true -> 0 <= a -> 0 <= fold_left (fun a c => 10 * a + (byte_val c - 48)) l a) as H.
  { induction l as [|d l IH]; intros a; [done|]. cbn [forallb fold_left]. intros [H1 H2]%andb_true_iff Ha. apply IH; [done|].
    unfold is_digit in H1. lia. }
  by apply H.
Qed.

(** A parsed height is one of the log. *)
Lemma find_height `{Unicode} arg h suffix : parseFindArg arg = Ok (h, suffix) -> 0 < h < 2 ^ 64.
Proof.
  unfold parseFindArg. destruct (TrimPrefix _ _) as [|c t]; [done|]. destruct (match cut_byte _ _ with Some hs => hs | None => _ end) as [hs sf].
  destruct hs as [|d hs]; [done|]. destruct (parse_uint 64 (d :: hs)) as [n|] eqn:Ep; [|done]. apply parse_uint_range in Ep.
  destruct (n =? 0) eqn:En; [done|]. destruct (negb _); [done|]. intros [= <- _]. lia.
Qed.

Section turns.
Context {U : Unicode} {E : Ed25519}.

Definition last_sent (c : Console) : time := LastMessageTime (pend c).

Lemma guards_time now cfg p p' text : LastMessageTime p = LastMessageTime p' ->
  checkSendGuards now cfg p text = checkSendGuards now cfg p' text.
Proof. unfold checkSendGuards. by intros ->. Qed.

Lemma echo_calm c t : calm c (echoInputLine c t).2 /\ last_sent (echoInputLine c t).2 = last_sent c.
Proof. unfold echoInputLine, emitTab. cbn [snd]. by case_match. Qed.

Lemma record_pend env c line b : pend (recordHistory env c line b) = pend c /\ co_ReplyDraft (recordHistory env c line b) = co_ReplyDraft c.
Proof. unfold recordHistory. by case_match. Qed.

(** The end of a turn whose text was let through. *)
Definition deliver (env : InputEnv) (c : Console) (line text : str) (slot : slotRef) : bool * Console :=
  let c := recordHistory env c line false in
  match refusal_say env (e_now (st_env (ie_cfg env))) c text with
  | Some m => (true, set_reply (emitLocalFeedback env c m) 0)
  | None => send env (recordHistory env c line false) text slot
  end.

Lemma deliver_turn env c line text slot :
  let c' := (deliver env c line text slot).2 in
  PendingReplyTo (pend c') = 0 /\ co_ReplyDraft c' = co_ReplyDraft c /\
  map line_says (lines_sent c') = map line_says (lines_sent c) ++
    (if sent env && checkSendGuards (e_now (st_env (ie_cfg env))) (ie_limits env) (pend c) text then [(text, PendingReplyTo (pend c))] else []).
Proof.
  unfold deliver. set (c1 := recordHistory env c line false).
  assert (same_sends c c1) as [K1 K2 K3] by apply kept_record. destruct (record_pend env c line false) as [Rp Rd]. fold c1 in Rp, Rd.
  destruct (refusal_say _ _ c1 text) as [m|] eqn:Er.
  - assert (checkSendGuards (e_now (st_env (ie_cfg env))) (ie_limits env) (pend c) text = false) as ->.
    { apply not_true_iff_false. intros H. rewrite <- Rp in H. apply guards_agree in H. congruence. }
    rewrite andb_false_r, app_nil_r. cbn [snd]. split; [done|]. split; [exact K2|]. f_equal. exact K3.
  - apply guards_agree in Er. rewrite Rp in Er. rewrite Er, andb_true_r.
    set (c2 := recordHistory env c1 line false). destruct (kept_record env c1 line false) as [L1 L2 L3]. fold c2 in L1, L2, L3.
    destruct (send_turn env c2 text slot) as (S1 & S2 & S3). split; [exact S1|]. split; [congruence|]. by rewrite S3, L1, K1, L3, K3.
Qed.

(** The end of a turn the command table took. *)
Lemma taken_turn env c line act (c1 : Console) b : same_sends c c1 -> act <> cmdPass ->
  same_sends c (recordHistory env c1 line b).
Proof. intros H _. etransitivity; [exact H|]. apply kept_record. Qed.

(** Where dispatch ends for a line that starts with a slash. *)
Definition taken_off (env : InputEnv) (c : Console) (t : str) (draft : Z) : Prop :=
  exists text act c1, dispatch env c t = (text, act, c1) /\ act <> cmdPass /\
    PendingReplyTo (pend c1) = 0 /\ co_ReplyDraft c1 = draft /\ lines_sent c1 = lines_sent c.

Lemma rest_taken env c c0 t : isUnknownSlashCommand t = true -> lines_sent c = lines_sent c0 ->
  exists act c1, dispatch_rest env c t = (t, act, c1) /\ act <> cmdPass /\
    PendingReplyTo (pend c1) = 0 /\ co_ReplyDraft c1 = co_ReplyDraft c /\ lines_sent c1 = lines_sent c0.
Proof.
  intros Hs Hl. destruct (rest_cases env c t) as [[H _]|(_ & act & c1 & Hd & Hact & Hc)]; [congruence|].
  exists act, (set_reply c1 0). split; [exact Hd|]. split; [exact Hact|]. split; [done|].
  assert (same_sends c c1) as [K1 K2 K3] by (destruct Hc as [Hc| ->]; [by eapply late_kept|apply calm_kept, calm_say]).
  split; [exact K2|]. rewrite <- Hl, <- K3. reflexivity.
Qed.

Lemma slash_taken env c t : isUnknownSlashCommand t = true -> PendingReplyTo (pend c) = 0 ->
  cmd_arg t "/reply" = false -> taken_off env c t (co_ReplyDraft c).
Proof.
  intros Hs Hp Hr. unfold taken_off, dispatch. destruct (_ || _).
  { eexists _, _, _. split; [reflexivity|]. split; [done|]. destruct (quit_kept env c) as [K1 K2 K3]. split; [congruence|done]. }
  destruct (first_of (early_commands env) c t) as [c1|] eqn:Ef.
  { eexists _, _, _. split; [reflexivity|]. split; [done|]. destruct (early_kept _ _ _ _ Ef) as [K1 K2 K3]. split; [congruence|done]. }
  unfold cmdReply. rewrite Hr. cbn [negb]. destruct (rest_taken env c c t Hs eq_refl) as (act & c1 & Hd & H). by exists t, act, c1.
Qed.

Lemma slash_dispatch env c t : isUnknownSlashCommand t = true -> PendingReplyTo (pend c) = 0 -> co_ReplyDraft c = 0 ->
  match said env c 0 t with
  | (Some (body, h), _) => dispatch env c t = (body, cmdPass, set_reply c h)
  | (None, draft) => taken_off env c t draft
  end.
Proof.
  intros Hs Hp Hd. unfold said. rewrite Hs. cbn [negb]. unfold replied.
  destruct (cmd_arg t "/reply") eqn:Hr; cbn [andb]; [|rewrite <- Hd; by apply slash_taken].
  pose proof (arg_prefix _ _ Hr) as Hpre.
  assert (dispatch env c t = match cmdReply env c t with
    | Some (next, cmdPass, c) => dispatch_rest env c next | Some (next, act, c) => (next, act, c) | None => dispatch_rest env c t end) as Hdis.
  { unfold dispatch. rewrite !(not_cmd t _ _ Hpre) by reflexivity. cbn [orb]. by rewrite reply_early. }
  unfold cmdReply in Hdis. rewrite Hr in Hdis. cbn [negb] in Hdis. destruct (reply_parts t) as [target body]. cbn [fst snd].
  destruct (ie_replyEnabled env); cbn [negb andb] in *; [|exists t, cmdDone, (emitLocalFeedback env c SReplyOff); by rewrite Hdis].
  destruct (parseFindArg target) as [[h suffix]|]; [|exists t, cmdDone, (emitLocalFeedback env c SReplyUsage); by rewrite Hdis].
  destruct (buffered c h suffix); cbn [negb] in *; [|exists t, cmdDone, (emitLocalFeedback env c (SReplyGone h)); by rewrite Hdis].
  destruct body as [|x body]; [exists t, cmdDone, (set_draft c h (Some h)); by rewrite Hdis|].
  set (b := x :: body) in *. destruct (isUnknownSlashCommand b) eqn:Eb.
  - destruct (rest_taken env (set_reply c h) c b Eb eq_refl) as (act & c1 & Hdr & Hact & H1 & H2 & H3).
    exists b, act, c1. rewrite Hdis, Hdr. split; [done|]. split; [exact Hact|]. split; [exact H1|]. split; [|exact H3]. rewrite H2. exact Hd.
  - rewrite Hdis. destruct (rest_cases env (set_reply c h) b) as [[_ H]|[H _]]; [exact H|congruence].
Qed.

(** One turn refines the specification. *)
Lemma line_turn env c draft t slot_c : t <> [] -> unarmed c draft -> slot_c = echoInputLine c t ->
  let '(o, draft') := said env slot_c.2 draft t in
  let c2 := handleDraftGate slot_c.2 t in
  let '(text, act, c3) := dispatch env c2 t in
  match o with
  | Some (body, h) => act = cmdPass /\ text = body /\ PendingReplyTo (pend c3) = h /\ last_sent c3 = last_sent c
  | None => act <> cmdPass /\ PendingReplyTo (pend c3) = 0
  end /\ co_ReplyDraft c3 = draft' /\ lines_sent c3 = lines_sent c /\ 0 <= draft'.
Proof.
  intros Ht (H1 & H2 & H3) ->. cbv zeta. destruct (echo_calm c t) as [[E1 E2 _ _ E5 _] E7]. set (c1 := (echoInputLine c t).2) in *.
  destruct (isUnknownSlashCommand t) eqn:Es.
  - assert (handleDraftGate c1 t = set_draft c1 0 None) as -> by (unfold handleDraftGate; unfold isUnknownSlashCommand in Es; by rewrite Es).
    set (c2 := set_draft c1 0 None). assert (PendingReplyTo (pend c2) = 0) as P2 by (change (pend c2) with (pend c1); congruence).
    pose proof (slash_dispatch env c2 t Es P2 eq_refl) as Hd.
    assert (said env c1 draft t = said env c2 0 t) as Hsaid by (unfold said; by rewrite Es).
    rewrite Hsaid. assert (0 <= (said env c2 0 t).2) as Hn.
    { unfold said. rewrite Es. cbn [negb]. unfold replied. destruct (_ && _); [|done]. destruct (parseFindArg _) as [[h sfx]|] eqn:Ep; [|done].
      destruct (buffered _ _ _); [|done]. apply find_height in Ep. destruct (reply_parts t).2; [cbn [snd]; lia|done]. }
    destruct (said env c2 0 t) as [[[body h]|] d'] eqn:Esd.
    + rewrite Hd. split; [done|]. split; [|done]. unfold said in Esd. rewrite Es in Esd. cbn [negb] in Esd.
      destruct (replied env c2 t) as [[h' [|x b]]|]; [done| |done]. destruct (isUnknownSlashCommand (x :: b)); [done|]. by injection Esd as _ _ <-.
    + destruct Hd as (text & act & c3 & -> & Ha & R1 & R2 & R3). split; [done|]. split; [exact R2|]. split; [|exact Hn]. rewrite R3. exact E5.
  - assert (handleDraftGate c1 t = set_draft (set_reply c1 (co_ReplyDraft c1)) 0 None) as ->
      by (unfold handleDraftGate; unfold isUnknownSlashCommand in Es; by rewrite Es).
    unfold said. rewrite Es. cbn [negb]. rewrite plain_dispatch by done.
    split; [|done]. split; [done|]. split; [done|]. split; [|exact E7]. change (co_ReplyDraft c1 = draft). congruence.
Qed.
End turns.

Section run.
Context {U : Unicode} {E : Ed25519}.

(** Every turn sends what was asked, and settles. *)
Lemma turn_says env c draft i : unarmed c draft ->
  let '(out, draft') := asked env c draft i in
  let '(go, c') := input_step env c i in
  map line_says (lines_sent c') = map line_says (lines_sent c) ++ out /\ (go = true -> unarmed c' draft').
Proof.
  intros Hset. pose proof Hset as (H1 & H2 & H3). destruct i as [raw| | |]; cbn [asked input_step].
  - destruct (TrimSpace raw) as [|x l] eqn:Et; [by rewrite app_nil_r|]. set (t := x :: l) in *.
    pose proof (line_turn env c draft t _ ltac:(done) Hset eq_refl) as Hl. cbv zeta in Hl.
    destruct (echoInputLine c t) as [slot c1]. cbn [snd] in Hl |- *. destruct (said env c1 draft t) as [o draft'].
    destruct (dispatch env (handleDraftGate c1 t) t) as [[text act] c3]. destruct Hl as (Ho & Hd & Hls & Hn).
    destruct o as [[body h]|].
    + destruct Ho as (-> & -> & Hr & Hlast).
      pose proof (deliver_turn env c3 t body slot) as (T1 & T2 & T3).
      rewrite (guards_time _ _ (pend c3) (pend c)) in T3 by exact Hlast. rewrite Hr, Hls in T3.
      assert (input_goal : let '(go, c') := deliver env c3 t body slot in
        map line_says (lines_sent c') = map line_says (lines_sent c) ++
          (if sent env && checkSendGuards (e_now (st_env (ie_cfg env))) (ie_limits env) (pend c) body then [(body, h)] else []) /\
        (go = true -> unarmed c' draft')).
      { destruct (deliver env c3 t body slot) as [go c']. cbn [snd] in *. split; [exact T3|]. intros _. split; [exact T1|]. split; [congruence|done]. }
      exact input_goal.
    + destruct Ho as [Ha Hr]. rewrite app_nil_r.
      assert (forall b, same_sends c3 (recordHistory env c3 t b)) as Hk by (intros b; apply kept_record).
      destruct act; [done| | |];
      match goal with |- map line_says (lines_sent (recordHistory _ _ _ ?b)) = _ /\ _ => destruct (Hk b) as [K1 K2 K3] end;
      (split; [by rewrite K3, Hls|]; intros Hgo; first [done | split; [congruence|split; [congruence|done]]]).
  - rewrite app_nil_r. unfold handleReadErr. cbn [negb]. change (co_ReplyDraft (set_reply c 0)) with (co_ReplyDraft c).
    destruct (0 <? co_ReplyDraft c) eqn:Ed; (split; [done|]; intros _; split; [done|]; split; [|done]).
    + done.
    + change (co_ReplyDraft c = 0). lia.
  - rewrite app_nil_r. unfold handleReadErr. cbn [negb snd]. destruct (quit_kept env c) as [K1 K2 K3]. split; [by rewrite K3|done].
  - rewrite app_nil_r. unfold cancelReply. destruct (_ && _) eqn:Ec; cbn [snd]; (split; [done|]; intros _; split; [|split]); try done.
    apply andb_true_iff in Ec as [Ec _]. lia.
Qed.

(** C27. Reply targets never leak.  Whatever is typed, cancelled or reset, the
    lines of a session are exactly those asked for: a plain line with the target
    of the draft typed right before it (or none), or the body of a [/reply] with
    that target, if the target was in memory, the guards accept the text and the
    socket takes it; a line that starts with a slash is never sent. *)
Theorem replies_never_leak c ins draft : unarmed c draft ->
  map line_says (lines_sent (input_run c ins)) = map line_says (lines_sent c) ++ asked_run draft c ins.
Proof.
  revert c draft. induction ins as [|[env i] ins IH]; intros c draft Hs; cbn [input_run asked_run]; [by rewrite app_nil_r|].
  pose proof (turn_says env c draft i Hs) as Ht. destruct (asked env c draft i) as [out draft']. destruct (input_step env c i) as [go c'].
  destruct Ht as [Hl Hgo]. destruct go; [|by rewrite app_nil_r]. rewrite (IH c' draft' (Hgo eq_refl)), Hl. by rewrite app_assoc.
Qed.
End run.

(** * Concrete runs *)

Definition demo_entry (h : Z) : entry := mkEntry [] (lit "An") (lit "hi") h (lit "abcd") false false [] false kindChat 0 None false.
Definition demo_wording (m : say) : str := match m with SBurnSeed s _ _ => s | _ => lit "note" end.
Definition demo_input : InputEnv :=
  mkInputEnv toy_settings None true true true true 30 (lit "banner") demo_wording (fun _ _ _ => demo_entry 1)
    (fun text h => mkEntry [] (lit "Ban") text 0 [] false false [] false kindLocal 0 None false) id.
Definition demo_console : Console :=
  mkConsole toy_pump (lit "An") [] (Some toy_key) (lit "badge") (tab_append (newTabBuffer 0 0) (demo_entry 5)) (newTabBuffer 0 0)
    0 None TabChat 0 true true (mkNotices ∅ 1) false [] 0 0 ∅ false [].

Definition typed (lines : list string) : list (InputEnv * input) := map (fun l => (demo_input, ILine (lit l))) lines.

Definition demo_typing : list (InputEnv * input) :=
  typed ["/reply 5"; "hello"; "plain"; "/reply 5:ab quick"; "/reply 6 lost"; "/nope"; "/reply 5 /nope"; "after"; "/reply 5"]%string ++
  [(demo_input, ICancel)] ++ typed ["again"; "/reply 5"; "/whoami"; "last"]%string.

Lemma replies_never_leak_witness :
  map line_says (lines_sent (input_run (U := sample_unicode) (E := toy_ed25519) demo_console demo_typing)) =
  [(lit "hello", 5); (lit "plain", 0); (lit "quick", 5); (lit "after", 0); (lit "again", 0); (lit "last", 0)].
Proof.
  rewrite (replies_never_leak (U := sample_unicode) (E := toy_ed25519) demo_console demo_typing 0).
  - vm_compute. reflexivity.
  - split; [reflexivity|split; [reflexivity|]]. vm_compute. intros [=].
Defined.

(** With message saving on, the recall list keeps what was refused: the mistyped
    command and the message the guards stopped. *)
Definition recalled (e : effect) : option str := match e with ERecall l => Some l | _ => None end.

Example refused_lines_are_recalled :
  omap recalled (co_Out (input_run (U := sample_unicode) (E := toy_ed25519) demo_console
    (typed ["/nope"]%string ++ [(demo_input, ILine [byte_of 97; byte_of 27; byte_of 98])]))) =
  [lit "/nope"; [byte_of 97; byte_of 27; byte_of 98]].
Proof. vm_compute. reflexivity. Qed.

(** A message typed while an older window loads is spliced above that window,
    and the slot its echo will look for holds another entry. *)
Definition paging_console : Console :=
  let c := set_tabs demo_console (tab_append (tab_append (co_Chat demo_console) (demo_entry 6)) (demo_entry 7)) (co_Sys demo_console) in
  set_pump c (set_inOlder (co_Pump c) true).

Example paging_splits_the_slot :
  let c := (input_step (U := sample_unicode) (E := toy_ed25519) demo_input paging_console (ILine (lit "typed"))).2 in
  map en_body (tb_lines (co_Chat c)) = [[]; lit "typed"; lit "hi"; lit "hi"; lit "hi"] /\
  map (fun pm => slot_holds (co_Chat c) (pm_slot pm)) (PendingPlaceholders (pend c)) = [false].
Proof. vm_compute. split; reflexivity. Qed.
