(* ===== verification/Burn.v ===== *)
(** Publishing a seed from end to end: the [/burn] command of file Console, the
    reveal handler of TripChains, and the answer of the verify endpoint. *)

From S2P Require Import Prelude Bytes Sha2 Utf8 Wire Json Filter Guard Crypto Trip Votes TripChains ClientView Outbox ClientChain ClientTrack ClientPump Notices ProxyTrust TripApi Console Replies.
Local Open Scope Z_scope.

Section burn.
Context {U : Unicode} {E : Ed25519}.

(** What the session's key publishes. *)
Definition seed_frame (seed : str) : str * str :=
  (hex_encode seed, SignReveal (seed ++ ed_pub seed) (hex_encode (ed_pub seed))).

(** ** One turn

    A turn publishes at most once, from an armed state, and disarms; a turn that
    arms publishes nothing. *)

Definition seed_of (c : Console) : option str := tk_Seed <$> co_Trip c.

Record same_arms (c c' : Console) : Prop := {
  arms_armed : co_BurnArmed c' = co_BurnArmed c;
  arms_key : seed_of c' = seed_of c;
  arms_reveals : reveals_sent c' = reveals_sent c
}.

#[export] Instance same_arms_preorder : PreOrder same_arms.
Proof. split; [by intros c; split|]. intros a b c [] []. split; congruence. Qed.

Lemma calm_arms c c' : calm c c' -> same_arms c c'.
Proof. intros []. split; try done. unfold seed_of. congruence. Qed.

Definition fires (c c' : Console) : Prop :=
  exists k, co_Trip c = Some k /\ co_BurnArmed c = true /\ co_BurnArmed c' = false /\ seed_of c' = seed_of c /\
    (reveals_sent c' = reveals_sent c ++ [seed_frame (tk_Seed k)] \/ reveals_sent c' = reveals_sent c).

Definition arms (c c' : Console) : Prop := co_BurnArmed c' = true /\ seed_of c' = seed_of c /\ reveals_sent c' = reveals_sent c.

Definition moves (c c' : Console) : Prop := same_arms c c' \/ fires c c' \/ arms c c'.

Lemma moves_after c c1 c' : moves c c1 -> same_arms c1 c' -> moves c c'.
Proof.
  intros [H|[(k & K1 & K2 & K3 & K4 & K5)|(A1 & A2 & A3)]] [S1 S2 S3].
  - left. destruct H. split; congruence.
  - right; left. exists k. split; [done|]. split; [done|]. split; [congruence|]. split; [congruence|].
    destruct K5 as [K5|K5]; [left|right]; congruence.
  - right; right. split; [congruence|]. split; congruence.
Qed.

Lemma moves_before c c1 c' : same_arms c c1 -> co_Trip c1 = co_Trip c -> moves c1 c' -> moves c c'.
Proof.
  intros [S1 S2 S3] St [H|[(k & K1 & K2 & K3 & K4 & K5)|(A1 & A2 & A3)]].
  - left. destruct H. split; congruence.
  - right; left. exists k. split; [congruence|]. split; [congruence|]. split; [done|]. split; [congruence|].
    destruct K5 as [K5|K5]; [left|right]; congruence.
  - right; right. split; [done|]. split; congruence.
Qed.

Lemma burn_moves env c t c' : cmdBurn env c t = Some c' -> moves c c'.
Proof.
  unfold cmdBurn. destruct (_ && _); [done|]. intros [= <-]. destruct (co_Trip c) as [k|] eqn:Ek; [|left; by apply calm_arms, calm_say].
  destruct (is_cmd t "/burn" || negb (co_BurnArmed c)) eqn:Ea; [by right; right|].
  apply orb_false_iff in Ea as [_ Ea]. apply negb_false_iff in Ea. right; left. exists k. split; [done|]. split; [done|].
  destruct (sent env); (split; [done|]; split; [done|]); [left|by right].
  unfold reveals_sent. cbn. by rewrite omap_app.
Qed.

Lemma late_moves env c t c' : first_of (late_commands env) c t = Some c' -> moves c c'.
Proof.
  intros (cmd & Hin & Hc)%first_of_some. destruct (late_calm env cmd Hin) as [Hb|Hb].
  - rewrite Hb in Hc. by eapply burn_moves.
  - left. apply calm_arms. by eapply Hb.
Qed.

Lemma effect_arms c e : reveal_of e = None -> same_arms c (effect_of c e).
Proof. intros H. split; try done. unfold reveals_sent. cbn. rewrite omap_app. cbn. by rewrite H, app_nil_r. Qed.

Lemma record_arms env c line b : same_arms c (recordHistory env c line b).
Proof. unfold recordHistory. case_match; [done|by apply effect_arms]. Qed.

Lemma rest_moves env c t : moves c (dispatch_rest env c t).2.
Proof.
  unfold dispatch_rest. destruct (first_of (late_commands env) c t) as [c1|] eqn:Ef; cbn [snd].
  - eapply moves_after; [by eapply late_moves|]. done.
  - case_match; by left.
Qed.

Lemma dispatch_moves env c t : is_cmd t "/quit" || is_cmd t "/q" = false -> moves c (dispatch env c t).2.
Proof.
  intros Hq. unfold dispatch. rewrite Hq. destruct (first_of (early_commands env) c t) as [c1|] eqn:Ef; cbn [snd].
  { apply first_of_some in Ef as (cmd & Hin & Hc). left. apply calm_arms. pose proof (early_calm env) as H.
    rewrite Forall_forall in H. by eapply (H cmd Hin). }
  unfold cmdReply. destruct (negb _); [apply rest_moves|]. destruct (negb _); [by left|].
  destruct (reply_parts t) as [target body]. destruct (parseFindArg target) as [[h sfx]|]; [|by left].
  destruct (negb _); [by left|]. destruct body as [|x b]; [by left|].
  eapply moves_before; [| |apply rest_moves]; done.
Qed.

Lemma send_arms env c text slot : same_arms c (send env c text slot).2.
Proof.
  unfold send. pose proof (place_calm env c text slot) as Hp. destruct (renderPlaceholder env c text slot) as [[sl shown] c1]. cbn [snd] in Hp.
  assert (same_arms c c1) as Hc by by apply calm_arms.
  destruct (sendMessage _ _ _ _ _ _ _) as [line s] eqn:Es. cbn [snd].
  assert (tk_Seed <$> sd_Trip s = seed_of c1) as Hk.
  { unfold seed_of. revert Es. unfold sendMessage, sign_line. change (sd_Trip (sender c1)) with (co_Trip c1).
    destruct (co_Trip c1) as [k|]; destruct (sent env); try destruct (track _ _ _) as [raced p]; by intros [= _ <-]. }
  assert (same_arms c1 (with_sender c1 s)) as H1 by by split.
  etransitivity; [exact Hc|]. etransitivity; [exact H1|]. destruct (sent env); [by apply effect_arms|done].
Qed.

Lemma quit_reveals env c : reveals_sent (gracefulQuit env c) = reveals_sent c.
Proof.
  unfold gracefulQuit. case_match; [done|]. cbv zeta. set (c3 := set_key _ _ _).
  assert (reveals_sent c3 = reveals_sent c) as H3.
  { unfold c3, send_frame. case_match; [|done]. unfold reveals_sent. cbn. by rewrite omap_app, app_nil_r. }
  assert (calm c3 (flushPendingGreeting (release_catchup c3))) as [_ _ _ _ _ H4] by (eapply calm_trans; [apply calm_release|apply calm_flush]).
  case_match; [|congruence]. unfold reveals_sent in *. cbn. rewrite omap_app. cbn. rewrite app_nil_r. congruence.
Qed.

Lemma turn_moves env c i : let '(go, c') := input_step env c i in
  (go = true -> moves c c') /\ (reveals_sent c' = reveals_sent c \/ moves c c').
Proof.
  destruct i as [raw| | |]; cbn [input_step].
  - destruct (TrimSpace raw) as [|x l]; [split; [|by left]; intros _; by left|]. set (t := x :: l).
    destruct (echo_calm c t) as [He _]. destruct (echoInputLine c t) as [slot c1]. cbn [snd] in He.
    set (c2 := handleDraftGate c1 t).
    assert (same_arms c c2 /\ co_Trip c2 = co_Trip c) as [Hc2 Ht2].
    { destruct He. unfold c2, handleDraftGate, seed_of. case_match; (split; [split|]); unfold seed_of; cbn; try done; congruence. }
    destruct (is_cmd t "/quit" || is_cmd t "/q") eqn:Hq.
    + unfold dispatch. rewrite Hq. cbv iota. split; [done|]. left.
      pose proof (quit_reveals env c2) as Hr.
      destruct (record_arms env (gracefulQuit env c2) t true) as [_ _ R]. destruct Hc2 as [_ _ Rc]. congruence.
    + pose proof (dispatch_moves env c2 t Hq) as Hd. destruct (dispatch env c2 t) as [[text act] c3]. cbn [snd] in Hd.
      assert (moves c c3) as Hm by (by eapply moves_before).
      destruct act.
      * set (c4 := recordHistory env c3 t false). assert (moves c c4) as H4 by (eapply moves_after; [exact Hm|apply record_arms]).
        destruct (refusal_say _ _ _ _); [split; [intros _|right]; (eapply moves_after; [exact H4|done])|].
        set (c5 := recordHistory env c4 t false). pose proof (send_arms env c5 text slot) as Hs.
        assert (moves c c5) as H5 by (eapply moves_after; [exact H4|apply record_arms]).
        destruct (send env c5 text slot) as [go c']. cbn [snd] in Hs. split; [intros _|right]; by eapply moves_after.
      * split; [intros _|right]; (eapply moves_after; [exact Hm|apply record_arms]).
      * split; [intros _|right]; (eapply moves_after; [exact Hm|apply record_arms]).
      * split; [done|right]. eapply moves_after; [exact Hm|apply record_arms].
  - unfold handleReadErr. cbn [negb]. split; [intros _|right]; left; cbn [snd]; by case_match.
  - split; [done|]. left. apply quit_reveals.
  - split; [intros _|right]; left; unfold cancelReply; by case_match.
Qed.

(** ** Whole sessions *)

(** The turns that arm the command, which show the warning. *)
Fixpoint armings (c : Console) (ins : list (InputEnv * input)) : nat :=
  match ins with
  | [] => 0
  | (env, i) :: ins' =>
      let '(go, c') := input_step env c i in
      ((if negb (co_BurnArmed c) && co_BurnArmed c' then 1 else 0) + (if go then armings c' ins' else 0))%nat
  end.

Definition loaded (c : Console) : nat := if co_BurnArmed c then 1%nat else 0%nat.

Lemma run_reveals ins : forall c seed, seed_of c = Some seed ->
  exists n, reveals_sent (input_run c ins) = reveals_sent c ++ repeat (seed_frame seed) n /\ (n <= loaded c + armings c ins)%nat.
Proof.
  induction ins as [|[env i] ins IH]; intros c seed Hs; cbn [input_run armings]; [exists 0%nat; rewrite app_nil_r; split; [done|lia]|].
  pose proof (turn_moves env c i) as Ht. destruct (input_step env c i) as [go c']. destruct Ht as [Hgo Hany].
  assert (forall k, co_Trip c = Some k -> tk_Seed k = seed) as Hkey by (intros k Ek; unfold seed_of in Hs; rewrite Ek in Hs; by injection Hs).
  destruct go.
  - destruct (Hgo eq_refl) as [[A1 A2 A3]|[(k & K1 & K2 & K3 & K4 & K5)|(A1 & A2 & A3)]];
      destruct (IH c' seed ltac:(congruence)) as (n & Hn & Hle); unfold loaded in *.
    + exists n. rewrite Hn, A3. split; [done|]. rewrite A1 in *. destruct (co_BurnArmed c); cbn in *; lia.
    + rewrite (Hkey k K1) in K5. rewrite K2, K3 in *. cbn in *. destruct K5 as [K5|K5]; rewrite Hn, K5.
      * exists (S n). split; [by rewrite <- app_assoc|lia].
      * exists n. split; [done|lia].
    + exists n. rewrite Hn, A3. split; [done|]. rewrite A1 in *. destruct (co_BurnArmed c); cbn in *; lia.
  - unfold loaded. destruct Hany as [Hr|[[A1 A2 A3]|[(k & K1 & K2 & K3 & K4 & K5)|(A1 & A2 & A3)]]].
    + exists 0%nat. cbn [repeat]. rewrite app_nil_r, Hr. split; [done|lia].
    + exists 0%nat. cbn [repeat]. rewrite app_nil_r, A3. split; [done|lia].
    + rewrite (Hkey k K1) in K5. rewrite K2. destruct K5 as [K5|K5]; [exists 1%nat|exists 0%nat; cbn [repeat]; rewrite app_nil_r]; (split; [done|lia]).
    + exists 0%nat. cbn [repeat]. rewrite app_nil_r, A3. split; [done|lia].
Qed.

(** ** At the server *)

Lemma marked_entry (now : time) m k seed : (size m < maxExposedTrips)%nat -> ToLower seed = seed ->
  markTripExposed now m k seed !! k = Some (mkExposed now seed).
Proof.
  intros Hsz Hlow. assert (Sub now now = 0) as Hsub by (unfold Sub; rewrite Z.sub_diag; reflexivity).
  unfold markTripExposed, markTripExposedAt. replace (if IsZero now then now else now) with now by by case_match.
  rewrite Hsub, Hlow. change (exposedTripsTTL <? 0) with false. cbv iota. unfold pruneExposedTrips.
  set (m1 := <[k := mkExposed now seed]> m).
  destruct (prune_facts ex_At exposedTripsTTL maxExposedTrips now m1) as (_ & _ & Hkeep & _).
  rewrite Hkeep.
  - apply map_lookup_filter_Some. split; [apply lookup_insert_eq|]. unfold idle. cbn [ex_At snd]. rewrite Hsub. apply andb_false_r.
  - pose proof (map_size_filter (fun kv : str * exposedEntry => idle ex_At exposedTripsTTL now kv.2 = false) m1) as H1.
    pose proof (map_size_insert k (mkExposed now seed) m) as H2. fold m1 in H2. destruct (m !! k); unfold id in H2; lia.
Qed.

Lemma hex_key_cons seed : length seed = 32%nat -> hex_encode seed <> [].
Proof. intros Hlen He. pose proof (length_hex_encode seed) as Hl. rewrite He, Hlen in Hl. done. Qed.

Lemma revealed_registry (L : Ed25519Laws) (now : time) clock badge seed m :
  let pub := hex_encode (ed_pub seed) in
  length seed = 32%nat -> m !! pub = None -> (size m < maxExposedTrips)%nat ->
  exists notice m', handleTripReveal now clock false true m pub badge (seed_frame seed).1 (seed_frame seed).2 = (Revealed notice, m') /\
    m' !! pub = Some (mkExposed now (hex_encode seed)).
Proof.
  intros pub Hlen Hm Hsz. destruct (reveal_roundtrip L seed pub Hlen) as [Hv1 Hv2].
  assert (canon pub = pub) as Hcan by apply lower_hex_canon, hex_encode_lower.
  assert (ToLower pub = pub) as Hlow by apply lower_hex_ToLower, hex_encode_lower.
  assert (VerifySeed (hex_encode seed) pub = true) as Hvs by by apply Hv1.
  pose proof (hex_key_cons (ed_pub seed) (ed_pub_size seed Hlen)) as Hne. fold pub in Hne.
  assert (m !! pub = None -> handleTripReveal now clock false true m pub badge (seed_frame seed).1 (seed_frame seed).2 =
    (Revealed (reveal_notice clock pub (match badge with [] => TripBadgeFromPubHex pub | b => b end) (seed_frame seed).2 (hex_encode seed)),
     markTripExposed now m pub (hex_encode seed))) as Hh.
  { intros Hn. unfold handleTripReveal.
    assert (forall A (p : str) (a b : A), p <> [] -> match p with [] => a | _ :: _ => b end = b) as Hmatch by (by intros A [|x y] a b Hp).
    rewrite Hmatch by done. rewrite Hlow. unfold seed_frame. cbn [fst snd]. fold pub in Hv2 |- *. rewrite Hvs, Hv2. cbn [negb].
    unfold isTripExposed, isTripExposedAt, loadExposedEntry. by rewrite Hn. }
  eexists _, _. split; [exact (Hh Hm)|]. apply marked_entry; [done|]. apply lower_hex_ToLower, hex_encode_lower.
Qed.

Lemma held_seed (now now' : time) m k seed : seed <> [] -> m !! k = Some (mkExposed now seed) -> Sub now' now <= exposedTripsTTL ->
  (exposedSeedHex now' m k).1 = seed.
Proof.
  intros Hne Hm Ht. unfold exposedSeedHex, loadExposedEntry. rewrite Hm. cbn [ex_Seed ex_At].
  rewrite (proj2 (str_eqb_neq seed [])) by done. replace (exposedTripsTTL <? Sub now' now) with false by lia. cbv zeta. by destruct (_ && _).
Qed.

End burn.

(** A session that burns its key: the first [/burn confirm] only warns. *)
Definition burn_typing : list (InputEnv * input) := typed ["/burn confirm"; "hi"; "/burn confirm"; "/burn confirm"]%string.

