(* ===== verification/InChat.v ===== *)
(** The client's half of the in-chat screening ([client/powclient.go]
    [handlePowOffer], [client/argon2_other.go] [platformSolvePoW]) and its
    conversation with Screener.  The receive loop hands each offer to a goroutine
    of its own: the goroutines' turns interleave in any order, and share the
    in-flight guard, the tier the status line shows, the chat and the socket. *)

From S2P Require Import Prelude Bytes Sha2 Utf8 Wire Floats Crypto Filter Guard Json Trip Pow Clock Behavior Abuse Engine Attack Gate Screener Votes TripChains Hub ReadPump ClientView Outbox ClientChain ClientPump Notices ClientGate GateSession Console.
Local Open Scope Z_scope.

(** * The offer on the wire *)

(** [wire.PowOffer] as [issueScreenChallenge] marshals it. *)
Definition offer_json (o : Offer) (sig serverPub : str) : json :=
  JObj (fstr "type" (lit "pow_offer") ++ oint "tier" (o_Tier o) ++
        oint "t" (p_Time (o_Preset o)) ++ oint "m" (p_Memory (o_Preset o)) ++ oint "p" (p_Threads (o_Preset o)) ++
        oint "difficulty" (p_Difficulty (o_Preset o)) ++ ostr "salt" (o_Salt o) ++ oint "expires" (o_Expires o) ++
        ostr "challenge_id" (o_ChallengeID o) ++ ostr "offer_sig" sig ++ ostr "server_pub" serverPub).

(** [priv] is the server's signing seed, when it has an identity. *)
Definition offer_sig {E : Ed25519} (priv : option str) (o : Offer) : str :=
  match priv with Some seed => hex_encode (SignOffer seed o) | None => [] end.

Definition offer_frame {E : Ed25519} (priv : option str) (serverPub : str) (o : Offer) : str :=
  print (offer_json o (offer_sig priv o) serverPub).

(** The struct the client decodes, its type first. *)
Definition offer_field (st : option (str * PowOffer)) (kv : str * json) : option (str * PowOffer) :=
  match st with
  | None => None
  | Some (ty, mkPowOffer a (mkPreset t m p d) b c e f g) =>
      let '(key, v) := kv in
      if key_is key "type" then x ← dstr v ty; Some (x, mkPowOffer a (mkPreset t m p d) b c e f g)
      else if key_is key "tier" then x ← dint v a; Some (ty, mkPowOffer x (mkPreset t m p d) b c e f g)
      else if key_is key "t" then x ← dint v t; Some (ty, mkPowOffer a (mkPreset x m p d) b c e f g)
      else if key_is key "m" then x ← dint v m; Some (ty, mkPowOffer a (mkPreset t x p d) b c e f g)
      else if key_is key "p" then x ← dint v p; Some (ty, mkPowOffer a (mkPreset t m x d) b c e f g)
      else if key_is key "difficulty" then x ← duint 64 v d; Some (ty, mkPowOffer a (mkPreset t m p x) b c e f g)
      else if key_is key "salt" then x ← dstr v b; Some (ty, mkPowOffer a (mkPreset t m p d) x c e f g)
      else if key_is key "expires" then x ← dint v c; Some (ty, mkPowOffer a (mkPreset t m p d) b x e f g)
      else if key_is key "challenge_id" then x ← dstr v e; Some (ty, mkPowOffer a (mkPreset t m p d) b c x f g)
      else if key_is key "offer_sig" then x ← dstr v f; Some (ty, mkPowOffer a (mkPreset t m p d) b c e x g)
      else if key_is key "server_pub" then x ← dstr v g; Some (ty, mkPowOffer a (mkPreset t m p d) b c e f x)
      else st
  end.

Definition zeroOffer : PowOffer := mkPowOffer 0 (mkPreset 0 0 0 0) [] 0 [] [] [].

(** The pump's test: the frame is an offer. *)
Definition read_offer (msg : str) : option PowOffer :=
  match read_json offer_field ([], zeroOffer) msg with
  | Some (ty, o) => if str_eqb ty (lit "pow_offer") then Some o else None
  | None => None
  end.

(** * The answers *)

Inductive pow_answer :=
| AResult (id : str) (nonce : Z)
| ADecline (id : str).

Definition answer_id (a : pow_answer) : str := match a with AResult id _ | ADecline id => id end.

Definition answer_json (a : pow_answer) : json :=
  match a with
  | AResult id nonce => JObj (fstr "type" (lit "pow_result") ++ ostr "challenge_id" id ++ oint "nonce" nonce)
  | ADecline id => JObj (fstr "type" (lit "pow_decline") ++ ostr "challenge_id" id)
  end.

(** [WriteJSON] ends the line. *)
Definition answer_frame (a : pow_answer) : str := encoded_line (answer_json a).

(** * The native solver

    [tried] is how many nonces the search has tested when the timer fires. *)
Definition platformSolvePoW {A2 : Argon2} (fuel : nat) (tried : nat) (p : Preset) (salt : str) (maxCostMs : Z) : option Z :=
  match Solve (if maxCostMs <=? 0 then fuel else tried) p salt (fun _ => false) with
  | Some (Ok nonce) => Some nonce
  | _ => None
  end.

(** * The handler *)

Inductive pow_say :=
| PInvalid (e : offer_error)
| PRefused (tier cap : Z)
| PDropped
| PUnsent.

(** Where one goroutine stands. *)
Inductive pow_phase :=
| Spawned (o : PowOffer)                    (* before the guard *)
| Checking (o : PowOffer)                   (* the guard is held from here on *)
| Declining (o : PowOffer)
| Solving (o : PowOffer) (preset : Preset)
| Answering (o : PowOffer) (nonce : Z)
| Leaving (o : PowOffer).                   (* the deferred release is left *)

Record Solver := mkSolver {
  sv_busy : bool;                           (* [powBusy] *)
  sv_tier : Z;                              (* [Verify.PowTier] *)
  sv_console : Console;
  sv_sent : list pow_answer;
  sv_jobs : list pow_phase
}.

Section handler.
Context {U : Unicode} {E : Ed25519}.
(** The local budget, the runtime, the platform's solver (its answer may depend on
    the moment) and the wording of the local lines. *)
Variables (cap : Z * Z) (wasm : bool) (solve : nat -> Preset -> str -> Z -> option Z) (wording : pow_say -> str).

Definition pow_feedback (s : Solver) (m : pow_say) : Solver :=
  mkSolver (sv_busy s) (sv_tier s) (emitLocalEntry (sv_console s) (noticeEntry (wording m))) (sv_sent s) (sv_jobs s).
Definition set_busy (s : Solver) (b : bool) : Solver := mkSolver b (sv_tier s) (sv_console s) (sv_sent s) (sv_jobs s).
Definition set_tier (s : Solver) (n : Z) : Solver := mkSolver (sv_busy s) n (sv_console s) (sv_sent s) (sv_jobs s).
Definition set_jobs (s : Solver) (l : list pow_phase) : Solver := mkSolver (sv_busy s) (sv_tier s) (sv_console s) (sv_sent s) l.

(** [sendJSON]: [ok] tells whether the socket took the frame. *)
Definition sendJSON (ok : bool) (s : Solver) (a : pow_answer) : Solver :=
  if ok then mkSolver (sv_busy s) (sv_tier s) (sv_console s) (sv_sent s ++ [a]) (sv_jobs s) else s.

(** [handlePowOffer], one turn at a time: what the goroutine does up to the next
    point where others may run, and where it then stands. *)
Definition handlePowOffer (moment : nat) (ok : bool) (s : Solver) (p : pow_phase) : Solver * option pow_phase :=
  match p with
  | Spawned o => if sv_busy s then (s, None) else (set_busy s true, Some (Checking o))
  | Checking o =>
      match VerifyPowOffer o (co_ServerPub (sv_console s)) wasm with
      | Err e => (pow_feedback s (PInvalid e), Some (Leaving o))
      | Ok preset =>
          if negb (DecideOffer (po_Tier o) cap.1) then (pow_feedback s (PRefused (po_Tier o) cap.1), Some (Declining o))
          else (set_tier s (po_Tier o), Some (Solving o preset))
      end
  | Declining o => (sendJSON ok s (ADecline (po_ChallengeID o)), Some (Leaving o))
  | Solving o preset =>
      let s := set_tier s 0 in
      match solve moment preset (po_Salt o) cap.2 with
      | None => (pow_feedback s PDropped, Some (Declining o))
      | Some nonce => (s, Some (Answering o nonce))
      end
  | Answering o nonce =>
      let s' := sendJSON ok s (AResult (po_ChallengeID o) nonce) in
      (if ok then s' else pow_feedback s' PUnsent, Some (Leaving o))
  | Leaving _ => (set_busy s false, None)
  end.

(** The pump starts a goroutine; the scheduler gives the [i]-th one a turn; the
    rest of the client changes the console between turns, but not the server it is
    talking to. *)
Inductive pow_event :=
| Offered (o : PowOffer)
| Turn (i : nat) (moment : nat) (ok : bool)
| Elsewhere (c : Console).

Definition pow_step (s : Solver) (ev : pow_event) : Solver :=
  match ev with
  | Offered o => set_jobs s (sv_jobs s ++ [Spawned o])
  | Turn i moment ok =>
      match sv_jobs s !! i with
      | None => s
      | Some p =>
          let '(s', next) := handlePowOffer moment ok s p in
          set_jobs s' (match next with Some p' => <[i := p']> (sv_jobs s) | None => delete i (sv_jobs s) end)
      end
  | Elsewhere c =>
      if str_eqb (co_ServerPub c) (co_ServerPub (sv_console s))
      then mkSolver (sv_busy s) (sv_tier s) c (sv_sent s) (sv_jobs s) else s
  end.

Definition pow_run (s : Solver) (evs : list pow_event) : Solver := fold_left pow_step evs s.
End handler.

Definition fresh_solver (c : Console) : Solver := mkSolver false 0 c [] [].

(** * One solve at a time *)

Section safety.
Context {U : Unicode} {E : Ed25519}.
Variables (cap : Z * Z) (wasm : bool) (solve : nat -> Preset -> str -> Z -> option Z) (wording : pow_say -> str).
Abbreviation step := (pow_step cap wasm solve wording).
Abbreviation run := (pow_run cap wasm solve wording).
Abbreviation turn := (handlePowOffer cap wasm solve wording).

Definition offer_of_phase (p : pow_phase) : PowOffer :=
  match p with Spawned o | Checking o | Declining o | Solving o _ | Answering o _ | Leaving o => o end.

(** The goroutine holds the guard; it may still answer; it is solving. *)
Definition guarded (p : pow_phase) : bool := match p with Spawned _ => false | _ => true end.
Definition unanswered (p : pow_phase) : bool := match p with Leaving _ => false | _ => true end.
Definition solving (p : pow_phase) : bool := match p with Solving _ _ => true | _ => false end.

Definition tally {A} (f : A -> bool) (l : list A) : nat := sum_list_with (fun x => if f x then 1%nat else 0%nat) l.

Lemma tally_app {A} (f : A -> bool) l k : tally f (l ++ k) = (tally f l + tally f k)%nat.
Proof. apply sum_list_with_app. Qed.
Lemma tally_cons {A} (f : A -> bool) x l : tally f (x :: l) = ((if f x then 1 else 0) + tally f l)%nat.
Proof. done. Qed.
Lemma tally_in {A} (f : A -> bool) x l : x ∈ l -> f x = true -> (1 <= tally f l)%nat.
Proof. intros (l1 & l2 & ->)%list_elem_of_split Hf. rewrite tally_app, tally_cons, Hf. lia. Qed.

Lemma tally_none {A} (f : A -> bool) l : (forall x, x ∈ l -> f x = false) -> tally f l = 0%nat.
Proof.
  induction l as [|x l IH]; intros H; [done|]. rewrite tally_cons, H, IH; [done| |by left]. intros y Hy. apply H. by right.
Qed.

(** What a goroutine knows of the run so far. *)
Definition answer_backed (pin : str) (o : PowOffer) (n : Z) : Prop :=
  exists moment p, VerifyPowOffer o pin wasm = Ok p /\ po_Tier o <= cap.1 /\ solve moment p (po_Salt o) cap.2 = Some n.

Definition phase_ok (pin : str) (p : pow_phase) : Prop :=
  match p with
  | Solving o preset => VerifyPowOffer o pin wasm = Ok preset /\ po_Tier o <= cap.1
  | Answering o n => answer_backed pin o n
  | _ => True
  end.

Definition sent_ok (pin : str) (offers : list PowOffer) (a : pow_answer) : Prop :=
  exists o, o ∈ offers /\ answer_id a = po_ChallengeID o /\ match a with AResult _ n => answer_backed pin o n | ADecline _ => True end.

Definition about (id : str) (o : PowOffer) : bool := str_eqb (po_ChallengeID o) id.

Record solver_ok (offers : list PowOffer) (s : Solver) : Prop := {
  ok_guard : tally guarded (sv_jobs s) = (if sv_busy s then 1 else 0)%nat;
  ok_idle : tally solving (sv_jobs s) = 0%nat -> sv_tier s = 0;
  ok_tier p : p ∈ sv_jobs s -> solving p = true -> sv_tier s = po_Tier (offer_of_phase p);
  ok_jobs p : p ∈ sv_jobs s -> offer_of_phase p ∈ offers /\ phase_ok (co_ServerPub (sv_console s)) p;
  ok_sent a : a ∈ sv_sent s -> sent_ok (co_ServerPub (sv_console s)) offers a;
  ok_count id : (tally (fun a => str_eqb (answer_id a) id) (sv_sent s) +
                 tally (fun p => unanswered p && about id (offer_of_phase p)) (sv_jobs s) <= tally (about id) offers)%nat
}.

Definition offered (evs : list pow_event) : list PowOffer := omap (fun ev => match ev with Offered o => Some o | _ => None end) evs.

(** Solving goroutines hold the guard. *)
Lemma solving_guarded l : (tally solving l <= tally guarded l)%nat.
Proof. induction l as [|p l IH]; [done|]. rewrite !tally_cons. destruct p; cbn; lia. Qed.

Lemma unguarded_quiet l p : tally guarded l = 0%nat -> p ∈ l -> guarded p = false.
Proof. intros H Hp. destruct (guarded p) eqn:Eg; [|done]. pose proof (tally_in guarded p l Hp Eg). lia. Qed.

Lemma unguarded_solving p : guarded p = false -> solving p = false.
Proof. by destruct p. Qed.

(** A turn of the goroutine that stands between [l1] and [l2]. *)
Definition after (l1 l2 : list pow_phase) (r : Solver * option pow_phase) : Solver := set_jobs r.1 (l1 ++ from_option (fun p => [p]) [] r.2 ++ l2).

Lemma turn_splits s i moment ok p : sv_jobs s !! i = Some p ->
  exists l1 l2, sv_jobs s = l1 ++ p :: l2 /\ step s (Turn i moment ok) = after l1 l2 (turn moment ok s p).
Proof.
  intros Hp. exists (take i (sv_jobs s)), (drop (S i) (sv_jobs s)). split; [symmetry; by apply take_drop_middle|].
  cbn [pow_step]. rewrite Hp. unfold after. destruct (turn moment ok s p) as [s' [p'|]]; cbn [fst snd from_option app].
  - rewrite insert_take_drop; [done|by eapply lookup_lt_Some].
  - by rewrite delete_take_drop.
Qed.

(** What a turn under the guard has to leave. *)
Definition opt_tally (f : pow_phase -> bool) (next : option pow_phase) : nat := tally f (from_option (fun p => [p]) [] next).
Abbreviation answered id := (fun a => str_eqb (answer_id a) id).
Abbreviation waiting id := (fun p => unanswered p && about id (offer_of_phase p)).

Record turn_ok (offers : list PowOffer) (s : Solver) (p : pow_phase) (s' : Solver) (next : option pow_phase) : Prop := {
  tk_pub : co_ServerPub (sv_console s') = co_ServerPub (sv_console s);
  tk_busy : opt_tally guarded next = (if sv_busy s' then 1 else 0)%nat;
  tk_tier : match next with Some (Solving o _) => sv_tier s' = po_Tier o | _ => sv_tier s' = 0 end;
  tk_next p' : next = Some p' -> offer_of_phase p' = offer_of_phase p /\ phase_ok (co_ServerPub (sv_console s)) p';
  tk_sent a : a ∈ sv_sent s' -> a ∈ sv_sent s \/ sent_ok (co_ServerPub (sv_console s)) offers a;
  tk_count id : (tally (answered id) (sv_sent s') + opt_tally (waiting id) next <= tally (answered id) (sv_sent s) + opt_tally (waiting id) (Some p))%nat
}.

Lemma guarded_turn offers s l1 l2 p r : solver_ok offers s -> sv_jobs s = l1 ++ p :: l2 -> tally guarded (l1 ++ l2) = 0%nat ->
  turn_ok offers s p r.1 r.2 -> solver_ok offers (after l1 l2 r).
Proof.
  intros [G I T J S C] Hl Hq [P B R N W D]. destruct r as [s' next]. unfold after in *. cbn [fst snd] in *.
  assert (forall q, q ∈ l1 ++ from_option (fun p => [p]) [] next ++ l2 -> next = Some q \/ (q ∈ l1 ++ l2 /\ q ∈ sv_jobs s)) as Hin.
  { intros q. rewrite Hl, !elem_of_app, elem_of_cons. destruct next as [p'|]; cbn [from_option]; rewrite ?list_elem_of_singleton, ?elem_of_nil; naive_solver. }
  assert (forall f, tally f (l1 ++ from_option (fun p => [p]) [] next ++ l2) = (opt_tally f next + tally f (l1 ++ l2))%nat) as Ht.
  { intros f. unfold opt_tally. rewrite !tally_app. lia. }
  pose proof (solving_guarded (l1 ++ l2)) as Hsg.
  split; cbn [sv_jobs sv_busy sv_tier sv_sent sv_console set_jobs].
  - rewrite Ht, Hq, B. lia.
  - rewrite Ht. intros H0. by destruct next as [[]|].
  - intros q Hq' Hs. destruct (Hin q Hq') as [->|[Hr _]]; [by destruct q|].
    pose proof (tally_in solving _ _ Hr Hs). lia.
  - intros q Hq'. rewrite P. destruct (Hin q Hq') as [Hn|[_ Hr]]; [|by apply J].
    destruct (N q Hn) as [-> H2]. split; [|done]. apply (J p). rewrite Hl. set_solver.
  - intros a Ha. rewrite P. destruct (W a Ha) as [H|H]; [by apply S|done].
  - intros id. rewrite Ht. specialize (C id). specialize (D id). rewrite Hl, tally_app, tally_cons in C. rewrite tally_app.
    unfold opt_tally in *. cbn [from_option] in *. rewrite (tally_cons _ p []) in D. cbn [tally sum_list_with] in D. lia.
Qed.

Ltac solve_turn Hb Hz :=
  split; cbn [fst snd pow_feedback set_busy set_tier sv_busy sv_tier sv_sent sv_console];
  [ reflexivity
  | unfold opt_tally; cbn; rewrite ?Hb; reflexivity
  | first [reflexivity | by apply Hz]
  | intros ? [= <-]; cbn [offer_of_phase phase_ok]; try (split; [done|first [done|split; [done|lia]]])
  | first [by left | idtac]
  | intros id; unfold opt_tally, about; cbn; rewrite ?tally_app; cbn; repeat case_match; try lia ].

Lemma step_turn_ok offers s i moment ok : solver_ok offers s -> solver_ok offers (step s (Turn i moment ok)).
Proof.
  intros Hok. destruct (sv_jobs s !! i) as [p|] eqn:Hp; [|cbn [pow_step]; by rewrite Hp].
  destruct (turn_splits s i moment ok p Hp) as (l1 & l2 & Hl & ->). pose proof Hok as [G I T J S C].
  assert (p ∈ sv_jobs s) as Hpin by (rewrite Hl; set_solver). destruct (J p Hpin) as [Jo Jp].
  rewrite Hl, tally_app, tally_cons in G.
  assert (sv_busy s = true -> guarded p = false -> solver_ok offers (after l1 l2 (s, None))) as Hleave.
  { intros _ Eg. unfold after. cbn [fst snd from_option app]. pose proof (unguarded_solving p Eg) as Es.
    split; cbn [sv_jobs sv_busy sv_tier sv_sent sv_console set_jobs].
    - rewrite tally_app. rewrite Eg in G. lia.
    - intros H0. apply I. rewrite Hl, tally_app, tally_cons, Es. rewrite tally_app in H0. lia.
    - intros q Hq. apply T. rewrite Hl. set_solver.
    - intros q Hq. apply J. rewrite Hl. set_solver.
    - done.
    - intros id. specialize (C id). rewrite Hl, tally_app, tally_cons in C. rewrite tally_app. lia. }
  destruct (decide (sv_busy s = true /\ guarded p = false)) as [[Hb Eg]|Hn].
  { destruct p; try done. cbn [handlePowOffer]. rewrite Hb. by apply Hleave. }
  assert (tally guarded (l1 ++ l2) = 0%nat) as H0.
  { rewrite tally_app. destruct (sv_busy s), (guarded p); lia. }
  apply (guarded_turn offers s l1 l2 p); [done..|].
  assert (solving p = false -> sv_tier s = 0) as Hz.
  { intros Es. apply I. rewrite Hl, tally_app, tally_cons, Es. pose proof (solving_guarded (l1 ++ l2)) as Hs. rewrite tally_app in Hs. lia. }
  assert (forall o nonce, p = Answering o nonce \/ p = Declining o ->
    forall a, answer_id a = po_ChallengeID o -> (match a with AResult _ n => answer_backed (co_ServerPub (sv_console s)) o n | _ => True end) ->
    forall b, b ∈ sv_sent (sendJSON ok s a) -> b ∈ sv_sent s \/ sent_ok (co_ServerPub (sv_console s)) offers b) as Hsend.
  { intros o nonce Hpo a Ha Hb b. destruct ok; cbn [sendJSON sv_sent]; [|by left]. intros [H|H]%elem_of_app; [by left|].
    apply list_elem_of_singleton in H as ->. right. exists o. destruct Hpo; subst p; done. }
  assert (sv_busy s = guarded p) as Hb by (destruct (sv_busy s), (guarded p); try done; [by destruct Hn|cbn in G; lia]).
  destruct p as [o|o|o|o preset|o nonce|o]; cbn [handlePowOffer guarded] in *.
  - rewrite Hb. solve_turn Hb Hz.
  - destruct (VerifyPowOffer o _ wasm) as [preset|e] eqn:Ev; [|solve_turn Hb Hz].
    unfold DecideOffer. destruct (po_Tier o <=? cap.1) eqn:Et; cbn [negb]; solve_turn Hb Hz.
  - destruct ok; cbn [sendJSON] in *; solve_turn Hb Hz. by apply (Hsend o 0); [right|..].
  - destruct (solve moment preset (po_Salt o) cap.2) as [nonce|] eqn:Es; solve_turn Hb Hz.
    split; [done|]. exists moment, preset. by destruct Jp.
  - destruct ok; cbn [sendJSON] in *; solve_turn Hb Hz. apply (Hsend o nonce); [by left|done|exact Jp].
  - solve_turn Hb Hz.
Qed.

Lemma step_ok offers s ev : solver_ok offers s -> solver_ok (offers ++ offered [ev]) (step s ev).
Proof.
  intros Hok. destruct ev as [o|i moment ok|c].
  - destruct Hok as [G I T J S C]. cbn [pow_step offered omap list_omap].
    split; cbn [sv_jobs sv_busy sv_tier sv_sent sv_console set_jobs].
    + rewrite tally_app. cbn. lia.
    + rewrite tally_app. cbn. rewrite Nat.add_0_r. done.
    + intros p [Hp|Hp]%elem_of_app; [by apply T|]. by apply list_elem_of_singleton in Hp as ->.
    + intros p [Hp|Hp]%elem_of_app; [destruct (J p Hp); set_solver|]. apply list_elem_of_singleton in Hp as ->. set_solver.
    + intros a Ha. destruct (S a Ha) as (o' & Ho & H). exists o'. set_solver.
    + intros id. specialize (C id). rewrite !tally_app. cbn. lia.
  - cbn [offered omap list_omap]. rewrite app_nil_r. by apply step_turn_ok.
  - cbn [offered omap list_omap pow_step]. rewrite app_nil_r. destruct (str_eqb _ _) eqn:Ec; [|done].
    apply str_eqb_eq in Ec. destruct Hok as [G I T J S C].
    split; cbn [sv_jobs sv_busy sv_tier sv_sent sv_console]; rewrite ?Ec; done.
Qed.

Lemma run_ok c evs : solver_ok (offered evs) (run (fresh_solver c) evs).
Proof.
  induction evs as [|ev evs IH] using rev_ind; [split; cbn; [done|done|set_solver|set_solver|set_solver|lia]|].
  unfold pow_run. rewrite fold_left_app. cbn [fold_left]. unfold offered. rewrite omap_app. by apply step_ok.
Qed.

Lemma run_pub c evs : co_ServerPub (sv_console (run (fresh_solver c) evs)) = co_ServerPub c.
Proof.
  induction evs as [|ev evs IH] using rev_ind; [done|]. unfold pow_run. rewrite fold_left_app. cbn [fold_left].
  fold (run (fresh_solver c) evs). rewrite <- IH. destruct ev as [o|i moment ok|c']; cbn [pow_step].
  - done.
  - destruct (sv_jobs _ !! i) as [p|]; [|done]. destruct (turn moment ok _ p) as [s' next] eqn:Et.
    cbn [set_jobs sv_console]. change s' with (s', next).1. rewrite <- Et.
    destruct p; cbn [handlePowOffer]; repeat case_match; try done; by destruct ok.
  - destruct (str_eqb _ _) eqn:Ec; [|done]. by apply str_eqb_eq in Ec.
Qed.

End safety.

(** * Every offer is settled *)

Section drain.
Context {U : Unicode} {E : Ed25519}.
Variables (cap : Z * Z) (wasm : bool) (solve : nat -> Preset -> str -> Z -> option Z) (wording : pow_say -> str).
Abbreviation step := (pow_step cap wasm solve wording).
Abbreviation run := (pow_run cap wasm solve wording).
Abbreviation turn := (handlePowOffer cap wasm solve wording).

(** The turns a goroutine has left at most. *)
Definition turns_left (p : pow_phase) : nat :=
  match p with Spawned _ => 5 | Checking _ => 4 | Solving _ _ => 3 | Declining _ | Answering _ _ => 2 | Leaving _ => 1 end.
Definition work (s : Solver) : nat := sum_list_with turns_left (sv_jobs s).

(** The turns that go to a goroutine that is there. *)
Fixpoint turns_taken (s : Solver) (evs : list pow_event) : nat :=
  match evs with
  | [] => 0
  | ev :: evs' =>
      ((match ev with Turn i _ _ => match sv_jobs s !! i with Some _ => 1 | None => 0 end | _ => 0 end) + turns_taken (step s ev) evs')%nat
  end.

Lemma turn_works moment ok s p : (1 + from_option turns_left 0 (turn moment ok s p).2 <= turns_left p)%nat.
Proof. destruct p; cbn [handlePowOffer]; repeat case_match; cbn; lia. Qed.

Lemma turn_work s i moment ok p : sv_jobs s !! i = Some p -> (1 + work (step s (Turn i moment ok)) <= work s)%nat.
Proof.
  intros Hp. destruct (turn_splits cap wasm solve wording s i moment ok p Hp) as (l1 & l2 & Hl & ->). unfold work, after.
  cbn [sv_jobs set_jobs]. rewrite Hl, !sum_list_with_app. cbn [sum_list_with]. pose proof (turn_works moment ok s p).
  destruct (turn moment ok s p).2; cbn [from_option] in *; cbn [sum_list_with]; lia.
Qed.

Lemma other_work s ev : (match ev with Turn _ _ _ => False | _ => True end) -> work (step s ev) = (work s + 5 * length (offered [ev]))%nat.
Proof.
  unfold work. destruct ev as [o| |c]; [intros _|done|intros _]; cbn [pow_step].
  - cbn [set_jobs sv_jobs]. rewrite sum_list_with_app. cbn. lia.
  - case_match; cbn; lia.
Qed.

Lemma taken_bound s evs : (turns_taken s evs + work (run s evs) <= work s + 5 * length (offered evs))%nat.
Proof.
  revert s. induction evs as [|ev evs IH]; intros s; [cbn; lia|].
  cbn [turns_taken]. change (run s (ev :: evs)) with (run (step s ev) evs). specialize (IH (step s ev)).
  change (ev :: evs) with ([ev] ++ evs). unfold offered in *. rewrite omap_app, length_app. fold (offered [ev]) in *.
  destruct ev as [o|i moment ok|c].
  - rewrite (other_work s (Offered o)) in IH by done. unfold offered in *. lia.
  - destruct (sv_jobs s !! i) as [p|] eqn:Hp; [pose proof (turn_work s i moment ok p Hp); lia|].
    assert (step s (Turn i moment ok) = s) as Hs by (cbn [pow_step]; by rewrite Hp). rewrite Hs in *. lia.
  - rewrite (other_work s (Elsewhere c)) in IH by done. unfold offered in *. lia.
Qed.

Lemma round_robin n moment ok s : (work s <= n)%nat -> sv_jobs (run s (replicate n (Turn 0 moment ok))) = [].
Proof.
  revert s. induction n as [|n IH]; intros s Hw.
  - unfold work in Hw. cbn. destruct (sv_jobs s) as [|p l]; [done|]. destruct p; cbn in Hw; lia.
  - cbn [replicate]. change (run s (?e :: ?l)) with (run (step s e) l). apply IH.
    destruct (sv_jobs s) as [|p l] eqn:Hj.
    + assert (step s (Turn 0 moment ok) = s) as -> by (cbn [pow_step]; by rewrite Hj). unfold work. rewrite Hj. cbn. lia.
    + pose proof (turn_work s 0 moment ok p ltac:(by rewrite Hj)). lia.
Qed.

End drain.

(** * One challenge, from the scheduler to the answer *)

Section screened.
Context {U : Unicode} {E : Ed25519} {A2 : Argon2}.

Lemma solve_from_found fuel key d stop n m : is_u64 n -> solve_from fuel key d stop n = Some (Ok m) -> d <= LeadingZeros (candidate key m) /\ is_u64 m.
Proof.
  revert n. induction fuel as [|fuel IH]; intros n Hn; [done|]. cbn [solve_from]. destruct (stop n); [done|].
  destruct (d <=? LeadingZeros (candidate key n)) eqn:E1; [|apply IH, u64_range]. intros [= <-]. split; [lia|done].
Qed.

(** What the native solver finds verifies. *)
Lemma native_solver_sound fuel tried p salt cost n : platformSolvePoW fuel tried p salt cost = Some n -> Verify p salt n = true /\ is_u64 n.
Proof.
  unfold platformSolvePoW, Solve, Verify. destruct (solve_from _ _ _ _ _) as [[k|]|] eqn:Es; try done. intros [= <-].
  apply solve_from_found in Es as [H1 H2]; [|done]. split; [lia|done].
Qed.

(** ** Frames *)

Definition offer_ranges (o : Offer) : Prop := is_i64 (o_Tier o) /\ preset_ranges (o_Preset o) /\ is_i64 (o_Expires o).

Lemma read_printed {A} (field : option A -> str * json -> option A) zero l n x :
  fields_printable l = true -> 0 <= n < maxNestingDepth -> depth_le n l -> fold_left field l (Some zero) = Some x ->
  read_json field zero (print (JObj l)) = Some x.
Proof.
  intros Hp Hn Hd Hf. pose proof (depth_le_obj n l ltac:(lia) Hd). unfold read_json. by rewrite parse_print by (first [exact Hp|lia]).
Qed.

Lemma offer_reads priv pub o : offer_ranges o -> ValidString (o_Salt o) = true -> ValidString (o_ChallengeID o) = true -> ValidString pub = true ->
  read_offer (offer_frame priv pub o) =
    Some (mkPowOffer (o_Tier o) (o_Preset o) (o_Salt o) (o_Expires o) (o_ChallengeID o) (offer_sig priv o) pub).
Proof.
  intros (R1 & (R2 & R3 & R4 & R5) & R6) V1 V2 V3. unfold offer_frame. set (sig := offer_sig priv o).
  assert (ValidString sig = true) as V4 by (unfold sig, offer_sig; destruct priv; [apply ChainService.hex_valid|done]).
  clearbody sig. destruct o as [tier [t m p d] salt exp id]. cbn [o_Tier o_Preset p_Time p_Memory p_Threads p_Difficulty o_Salt o_Expires o_ChallengeID] in *.
  unfold is_u64 in R5. unfold read_offer, offer_json.
  rewrite (read_printed _ _ _ 0 (lit "pow_offer", mkPowOffer tier (mkPreset t m p d) salt exp id sig pub)); [done|solve_printable|done|unfold depth_le; solve_depth|].
  rewrite !fold_left_app. unfold zeroOffer. set (ty := lit "pow_offer").
  rewrite (fold_field (fun y => (y, mkPowOffer 0 (mkPreset 0 0 0 0) [] 0 [] [] [])) "type" (fstr "type") dstr []) by solve_field.
  rewrite (fold_field (fun y => (ty, mkPowOffer y (mkPreset 0 0 0 0) [] 0 [] [] [])) "tier" (oint "tier") dint 0) by solve_field.
  rewrite (fold_field (fun y => (ty, mkPowOffer tier (mkPreset y 0 0 0) [] 0 [] [] [])) "t" (oint "t") dint 0) by solve_field.
  rewrite (fold_field (fun y => (ty, mkPowOffer tier (mkPreset t y 0 0) [] 0 [] [] [])) "m" (oint "m") dint 0) by solve_field.
  rewrite (fold_field (fun y => (ty, mkPowOffer tier (mkPreset t m y 0) [] 0 [] [] [])) "p" (oint "p") dint 0) by solve_field.
  rewrite (fold_field (fun y => (ty, mkPowOffer tier (mkPreset t m p y) [] 0 [] [] [])) "difficulty" (oint "difficulty") (duint 64) 0) by solve_field.
  rewrite (fold_field (fun y => (ty, mkPowOffer tier (mkPreset t m p d) y 0 [] [] [])) "salt" (ostr "salt") dstr []) by solve_field.
  rewrite (fold_field (fun y => (ty, mkPowOffer tier (mkPreset t m p d) salt y [] [] [])) "expires" (oint "expires") dint 0) by solve_field.
  rewrite (fold_field (fun y => (ty, mkPowOffer tier (mkPreset t m p d) salt exp y [] [])) "challenge_id" (ostr "challenge_id") dstr []) by solve_field.
  rewrite (fold_field (fun y => (ty, mkPowOffer tier (mkPreset t m p d) salt exp id y [])) "offer_sig" (ostr "offer_sig") dstr []) by solve_field.
  by rewrite (fold_field (fun y => (ty, mkPowOffer tier (mkPreset t m p d) salt exp id sig y)) "server_pub" (ostr "server_pub") dstr []) by solve_field.
Qed.

Lemma result_reads id nonce : ValidString id = true -> is_u64 nonce ->
  read_json result_field (mkPowResult [] [] 0) (answer_frame (AResult id nonce)) = Some (mkPowResult (lit "pow_result") id nonce).
Proof.
  intros V R. unfold is_u64 in R. unfold answer_frame. unfold answer_json.
  apply (read_encoded _ _ _ 0); [solve_printable|done|unfold depth_le; solve_depth|].
  rewrite !fold_left_app.
  rewrite (fold_field (fun y => mkPowResult y [] 0) "type" (fstr "type") dstr []) by solve_field.
  rewrite (fold_field (fun y => mkPowResult (lit "pow_result") y 0) "challenge_id" (ostr "challenge_id") dstr []) by solve_field.
  by rewrite (fold_field (fun y => mkPowResult (lit "pow_result") id y) "nonce" (oint "nonce") (duint 64) 0) by solve_field.
Qed.

Lemma decline_reads id : ValidString id = true ->
  read_json decline_field (mkPowDecline [] []) (answer_frame (ADecline id)) = Some (mkPowDecline (lit "pow_decline") id).
Proof.
  intros V. unfold answer_frame. unfold answer_json.
  apply (read_encoded _ _ _ 0); [solve_printable|done|unfold depth_le; solve_depth|].
  rewrite !fold_left_app.
  rewrite (fold_field (fun y => mkPowDecline y []) "type" (fstr "type") dstr []) by solve_field.
  by rewrite (fold_field (fun y => mkPowDecline (lit "pow_decline") y) "challenge_id" (ostr "challenge_id") dstr []) by solve_field.
Qed.

Lemma probe_reads ans : ValidString (answer_id ans) = true ->
  read_probe (answer_frame ans) = Some (mkProbe (match ans with AResult _ _ => lit "pow_result" | ADecline _ => lit "pow_decline" end) 0 0 None None [] 0 0 [] []).
Proof.
  intros V. unfold answer_frame. destruct ans as [id n|id]; cbn [answer_id answer_json] in *.
  all: apply (read_encoded _ _ _ 0); [solve_printable|done|unfold depth_le; solve_depth|].
  all: unfold ostr, oint; destruct id; try destruct (n =? 0); reflexivity.
Qed.

Lemma contains_skip s t pat : forallb (fun c => negb (byte_eqb c quote_b)) s = true -> head pat = Some quote_b -> contains (s ++ t) pat = contains t pat.
Proof.
  intros Hs Hp. induction s as [|c s IH]; [done|]. cbn [forallb] in Hs. apply andb_true_iff in Hs as [Hc Hs].
  cbn [app contains]. rewrite (IH Hs). destruct pat as [|q pat]; [done|]. injection Hp as ->.
  cbn [has_prefix]. rewrite byte_eqb_neq; [done|]. intros <-. by unfold byte_eqb in Hc; rewrite bool_decide_true in Hc.
Qed.

Definition quoted_name (t : string) : str := quote_b :: lit t ++ [quote_b].

Lemma hex_plain b c : c ∈ hex_encode b -> html_safe (byte_val c) = true /\ is_ascii c = true /\ c <> "p"%char.
Proof.
  intros Hc. pose proof (hex_encode_lower b) as Hh. unfold lower_hex, is_digit in Hh. rewrite forallb_forall in Hh.
  specialize (Hh c ltac:(by apply list_elem_of_In)). unfold html_safe, is_ascii. split_and!; [lia|lia|].
  intros ->. by vm_compute in Hh.
Qed.

Lemma escape_hex b : flat_map escape_seg (segs (hex_encode b)) = hex_encode b.
Proof.
  pose proof (hex_plain b) as Hp. rewrite segs_ascii by apply hex_ascii. induction (hex_encode b) as [|c s IH]; [done|].
  cbn [map flat_map]. rewrite IH by (intros d Hd; apply Hp; by right). destruct (Hp c ltac:(by left)) as (Hs & Ha & _).
  unfold escape_seg, seg_valid. cbn [seg_rune seg_bytes]. unfold is_ascii in Ha. rewrite Hs.
  assert ((byte_val c =? RuneError) = false) as -> by (unfold RuneError; lia). cbn [andb negb].
  assert ((byte_val c <? 128) = true) as -> by lia. done.
Qed.

Lemma has_prefix_app a b p : has_prefix a p = true -> has_prefix (a ++ b) p = true.
Proof.
  revert a. induction p as [|c p IH]; intros [|d a]; try done. cbn. rewrite !andb_true_iff. intros [? ?]. split; [done|by apply IH].
Qed.

Lemma contains_app a b p : contains a p = true -> contains (a ++ b) p = true.
Proof.
  induction a as [|c a IH]; cbn [contains app]; rewrite orb_true_iff.
  - intros [H|H]; [|done]. destruct p; [|done]. by destruct b.
  - intros [H|H]; apply orb_true_iff; [left; by apply (has_prefix_app (c :: a))|right; by apply IH].
Qed.

Lemma answer_shape ans : exists rest, answer_frame ans =
  ("{"%char :: print_member (lit "type", JStr (match ans with AResult _ _ => lit "pow_result" | ADecline _ => lit "pow_decline" end))) ++ rest.
Proof.
  unfold answer_frame, encoded_line. destruct ans; cbn [answer_json]; rewrite print_obj; unfold fstr; cbn [app map join];
    destruct (map print_member _); eexists; cbn [app]; rewrite <- !app_assoc; reflexivity.
Qed.

Lemma result_named id nonce : contains (answer_frame (AResult id nonce)) (quoted_name "pow_result") = true.
Proof. destruct (answer_shape (AResult id nonce)) as [rest ->]. by apply contains_app. Qed.

Definition decline_head : str :=
  "{"%char :: print_str (lit "type") ++ colon :: print_str (lit "pow_decline") ++ comma :: print_str (lit "challenge_id") ++ [colon].
Definition quoted_end : str := quote_b :: lit "}" ++ [Json.nl].

Lemma decline_named b : b <> [] -> contains (answer_frame (ADecline (hex_encode b))) (quoted_name "pow_result") = false /\
  contains (answer_frame (ADecline (hex_encode b))) (quoted_name "pow_decline") = true.
Proof.
  intros Hb. split; [|destruct (answer_shape (ADecline (hex_encode b))) as [rest ->]; by apply contains_app].
  assert (exists c t, hex_encode b = c :: t) as (c & t & Hc) by (destruct b; [done|by do 2 eexists]).
  unfold answer_frame, encoded_line, answer_json, ostr, fstr. rewrite Hc, <- Hc. cbn [app].
  rewrite print_obj. cbn [map join]. unfold print_member. cbn [fst snd print]. unfold print_str at 4. rewrite escape_hex.
  set (tl := hex_encode b ++ quoted_end).
  transitivity (has_prefix tl (lit "pow_result" ++ [quote_b]) || contains tl (quoted_name "pow_result")).
  { transitivity (contains (decline_head ++ quote_b :: tl) (quoted_name "pow_result")); [|reflexivity].
    f_equal. unfold tl, decline_head, quoted_end. repeat (progress (rewrite <- ?app_assoc; cbn [app])). reflexivity. }
  apply orb_false_iff. split.
  - unfold tl. rewrite Hc. change (lit "pow_result" ++ [quote_b]) with ("p"%char :: (lit "ow_result" ++ [quote_b])). cbn [app has_prefix]. rewrite byte_eqb_neq; [done|]. intros <-. by destruct (hex_plain b "p"%char ltac:(rewrite Hc; by left)) as (_ & _ & ?).
  - unfold tl. rewrite contains_skip; [done| |done]. apply forallb_forall. intros d Hd%list_elem_of_In. destruct (hex_plain b d Hd) as (Hs & _ & _).
    rewrite byte_eqb_neq; [done|]. intros ->. done.
Qed.

Lemma drop_spaces_last l g : IsSpace (seg_rune g) = false -> exists k, drop_spaces (l ++ [g]) = k ++ [g].
Proof.
  intros Hg. induction l as [|x l [k IH]]; [exists []; cbn; by rewrite Hg|]. cbn [app drop_spaces].
  destruct (IsSpace (seg_rune x)); [by exists k|]. by exists (x :: l).
Qed.

Lemma TrimSpace_brace rest : exists c s, TrimSpace ("{"%char :: rest) = c :: s.
Proof.
  unfold TrimSpace. rewrite (segs_cons _ 123 1) by (first [done|reflexivity]). cbn [take drop drop_spaces seg_rune].
  change (IsSpace 123) with false. cbv iota. rewrite reverse_cons.
  match goal with |- context [drop_spaces (?l ++ [?g])] => destruct (drop_spaces_last l g eq_refl) as [k ->] end.
  rewrite reverse_app. cbn [reverse app flat_map seg_bytes]. by do 2 eexists.
Qed.

(** An answer reaches [handlePowFrame] through the loop's dispatch. *)
Lemma answer_dispatched env ans l r : ValidString (answer_id ans) = true ->
  read_frame env (answer_frame ans) (l, r) = then_deadline env l (pow_frame env l (answer_frame ans) r).
Proof.
  intros V. unfold read_frame. rewrite (probe_reads _ V). destruct (answer_shape ans) as [rest Hr].
  destruct (TrimSpace_brace (print_member (lit "type", JStr (match ans with AResult _ _ => lit "pow_result" | ADecline _ => lit "pow_decline" end)) ++ rest)) as (c & s & Hs).
  rewrite Hr in *. cbn [app] in *. rewrite Hs. by destruct ans.
Qed.

(** ** The two ends *)

(** The client's decision on an offer it verified to [preset]. *)
Definition decision (cap : Z * Z) (solve : nat -> Preset -> str -> Z -> option Z) (moment : nat) (o : Offer) (preset : Preset) : pow_answer :=
  if o_Tier o <=? cap.1 then
    match solve moment preset (o_Salt o) cap.2 with Some n => AResult (o_ChallengeID o) n | None => ADecline (o_ChallengeID o) end
  else ADecline (o_ChallengeID o).

Lemma client_settles cap wasm solve wording c po moment preset : VerifyPowOffer po (co_ServerPub c) wasm = Ok preset ->
  let s := pow_run cap wasm solve wording (fresh_solver c) (Offered po :: replicate 5 (Turn 0 moment true)) in
  sv_jobs s = [] /\ sv_busy s = false /\ sv_sent s = [decision cap solve moment (signed_part po) preset].
Proof.
  intros Hv. cbn [pow_run replicate fold_left pow_step fresh_solver sv_jobs set_jobs app lookup list_lookup handlePowOffer sv_busy set_busy insert list_insert sv_console].
  rewrite Hv. unfold decision, DecideOffer. cbn [signed_part o_Tier o_Salt o_ChallengeID]. destruct (po_Tier po <=? cap.1); cbn.
  - by destruct (solve moment preset (po_Salt po) cap.2).
  - done.
Qed.

Lemma server_settles env l r sc ch ans : rm_Screener r = Some sc -> Get sc (Z.of_nat (ev_conn env)) = Some ch ->
  ps_byID sc !! sc_ID ch = Some (Z.of_nat (ev_conn env)) -> After (ev_now env) (sc_Expires ch) = false ->
  (exists b, b <> [] /\ sc_ID ch = hex_encode b) -> answer_id ans = sc_ID ch ->
  (forall n, ans = AResult (sc_ID ch) n -> Verify (sc_Preset ch) (sc_Salt ch) n = true /\ is_u64 n) ->
  let declined := match ans with ADecline _ => true | AResult _ _ => false end in
  exists r', read_frame env (answer_frame ans) (l, r) = (EvPow (if declined then FrameDeclined else FramePassed), updateReadDeadline env (l, r')) /\
    is_muted env r' = declined /\ exists sc', rm_Screener r' = Some sc' /\ Get sc' (Z.of_nat (ev_conn env)) = None.
Proof.
  intros Hr Hg Hid Hx (b & Hb & Hc) Ha Hn declined. rewrite answer_dispatched by (rewrite Ha, Hc; apply ChainService.hex_valid).
  unfold pow_frame. rewrite Hr. change (quote_b :: lit "pow_result" ++ [quote_b]) with (quoted_name "pow_result").
  change (quote_b :: lit "pow_decline" ++ [quote_b]) with (quoted_name "pow_decline"). destruct ans as [id n|id]; cbn [answer_id] in Ha; subst id.
  - destruct (Hn n eq_refl) as [Hv Hu]. rewrite result_named, result_reads by (first [rewrite Hc; apply ChainService.hex_valid|done]).
    unfold handlePowFrame, Resolve. cbn [pr_Type pr_ChallengeID pr_Nonce]. rewrite str_eqb_refl. cbn [negb]. rewrite Hid.
    unfold Get in Hg. rewrite Hg, Hx, Hv. cbn [negb]. rewrite Z.eqb_refl. unfold then_deadline. cbn [fst snd].
    eexists. split; [reflexivity|]. unfold is_muted, tell, set_hub, set_screener. cbn [rm_Screener ps_muted drop_screen]. split.
    + unfold IsMuted, declined. cbn [ps_muted]. apply bool_decide_eq_false. set_solver.
    + eexists. split; [done|]. unfold Get. cbn [ps_screens drop_screen]. by rewrite lookup_delete_eq.
  - destruct (decline_named b Hb) as [D1 D2]. rewrite Hc in *. rewrite D1, D2, decline_reads by apply ChainService.hex_valid.
    unfold handlePowFrame, Decline. cbn [pd_Type pd_ChallengeID]. rewrite str_eqb_refl. cbn [negb]. rewrite Hid.
    unfold then_deadline. cbn [fst snd].
    eexists. split; [reflexivity|].
    match goal with |- is_muted _ ?r' = _ /\ _ => assert (rm_Screener r' = rm_Screener (set_screener r (Decline sc (hex_encode b)).2)) as Hs end.
    { unfold Decline. rewrite Hid. unfold tell, observeChallenge, observe_with. cbn [snd]. by destruct (rm_Behavior _). }
    unfold is_muted. rewrite Hs. unfold Decline. rewrite Hid. cbn [snd set_screener rm_Screener]. split.
    + unfold IsMuted, declined. cbn [ps_muted]. apply bool_decide_eq_true. set_solver.
    + eexists. split; [done|]. unfold Get. cbn [ps_screens drop_screen]. by rewrite lookup_delete_eq.
Qed.

(** The server's signing seed and the key its clients pin. *)
Definition server_key (priv : option str) (pub : str) : Prop :=
  match priv with Some seed => length seed = 32%nat /\ pub = hex_encode (ed_pub seed) | None => pub = [] end.

Lemma server_key_valid priv pub : server_key priv pub -> ValidString pub = true.
Proof. destruct priv; cbn; [intros [_ ->]; apply ChainService.hex_valid|by intros ->]. Qed.

Lemma valid_join s t : ValidString s = true -> ValidString t = true -> ValidString (s ++ t) = true.
Proof.
  intros [Hs <-]%ValidString_encode [Ht <-]%ValidString_encode. unfold encode. rewrite <- flat_map_app. apply encode_ValidString. by rewrite forallb_app, Hs, Ht.
Qed.

(** A clamped preset fits its fields and stays clamped on a client that is at most as
    narrow. *)
Lemma clamped_fits raw web wasm : 0 <= p_Difficulty raw -> (wasm = true -> web = true) ->
  let p := (Clamp raw web).1 in preset_ranges p /\ in_envelope p wasm.
Proof.
  intros Hd Hw. cbv zeta. pose proof (Clamp_spec raw web) as Hc. assert (0 <= p_Difficulty (Clamp raw web).1) as H0.
  { unfold Clamp. destruct (clamp_set _ _ _) as [a1 b1], (clamp_set _ _ _) as [a2 b2], (clamp_set _ _ _) as [a3 b3].
    destruct (if _ && _ then _ else _) as [a4 b4]. unfold MaxDifficulty. by destruct (64 <? p_Difficulty raw). }
  destruct (Clamp raw web) as [p ch]. destruct Hc as ((E1 & E2 & E3 & E4 & E5) & _). cbn [fst] in *.
  unfold MinTime, MaxTime, MinMemoryKiB, MaxMemoryKiB, MinThreads, MaxThreads, MaxDifficulty in *.
  split; [unfold preset_ranges, is_i64, is_u64; lia|]. unfold in_envelope, MinTime, MaxTime, MinMemoryKiB, MaxMemoryKiB, MinThreads, MaxThreads, MaxDifficulty.
  split_and!; lia.
Qed.

Lemma server_offer_verifies `{!Ed25519Laws} priv pub o wasm : server_key priv pub -> in_envelope (o_Preset o) wasm ->
  VerifyPowOffer (mkPowOffer (o_Tier o) (o_Preset o) (o_Salt o) (o_Expires o) (o_ChallengeID o) (offer_sig priv o) pub) pub wasm = Ok (o_Preset o).
Proof.
  intros Hk He. assert ((Clamp (o_Preset o) wasm).1 = o_Preset o) as Hc.
  { pose proof (Clamp_spec (o_Preset o) wasm) as Hcs. destruct (Clamp (o_Preset o) wasm) as [q ch]. destruct Hcs as (_ & _ & Hfix & _). by apply Hfix. }
  unfold VerifyPowOffer. cbn [po_Preset po_OfferSig]. rewrite Hc. destruct priv as [seed|]; cbn [server_key] in Hk; [|by subst pub].
  destruct Hk as [Hl ->]. pose proof (ed_pub_size seed Hl) as Hs. destruct (hex_encode (ed_pub seed)) as [|x h] eqn:Ee.
  { apply (f_equal length) in Ee. rewrite length_hex_encode in Ee. cbn in Ee. lia. }
  rewrite <- Ee, hex_decode_encode. unfold slen. rewrite Hs. change (Z.of_nat 32 =? PublicKeySize) with true. cbn [negb offer_sig].
  rewrite hex_decode_encode. unfold VerifyOffer, SignOffer, signed_part. cbn [po_Tier po_Preset po_Salt po_Expires po_ChallengeID].
  destruct o. rewrite ed_verify_sign; done.
Qed.

Lemma issued_books sc sess tier now a pub bytes o sc1 : issueScreenChallenge sc sess tier now a pub (Some bytes) = (Some o, sc1) ->
  ps_byID sc1 !! o_ChallengeID o = Some (ses_Conn sess) /\ o_Tier o = tier.
Proof.
  unfold issueScreenChallenge. cbv zeta. intros Hi. pose proof (f_equal fst Hi) as Ho. pose proof (f_equal snd Hi) as Hs. cbn [fst snd] in Ho, Hs.
  injection Ho as <-. rewrite <- Hs. unfold Issue. cbn [ps_byID o_ChallengeID o_Tier]. by rewrite lookup_insert_eq.
Qed.

(** C20. One challenge from end to end: the offer the scheduler issues to a session is
    read by its client, verifies there against the server's key, and takes its one
    goroutine five turns; the one answer it gives is read by the session's loop as a
    pass, when the tier is within the client's cap and its solver found a nonce in
    time, and otherwise as a refusal, which mutes; never as a wrong answer.  Either
    way the challenge is gone. *)
Theorem screened_client_is_understood `{!Ed25519Laws} priv pub sc sess tier now a bytes o sc1 cap wasm solve wording c moment env l r sc2 :
  server_key priv pub -> ValidString (ses_IP sess) = true -> is_i64 tier -> bytes <> [] ->
  0 <= pt_Difficulty (nth (Z.to_nat tier) (ac_PowTiers a) (mkPowTier 0 0 0 0 0)) -> (wasm = true -> ses_Web sess = true) ->
  issueScreenChallenge sc sess tier now a pub (Some bytes) = (Some o, sc1) ->
  co_ServerPub c = pub -> (forall m p salt cost n, solve m p salt cost = Some n -> Verify p salt n = true /\ is_u64 n) ->
  ses_Conn sess = Z.of_nat (ev_conn env) -> rm_Screener r = Some sc2 -> Get sc2 (ses_Conn sess) = Get sc1 (ses_Conn sess) ->
  ps_byID sc2 !! o_ChallengeID o = Some (ses_Conn sess) -> After (ev_now env) (Add now (ac_ScreenDeadline a)) = false ->
  exists po, read_offer (offer_frame priv pub o) = Some po /\
    let s := pow_run cap wasm solve wording (fresh_solver c) (Offered po :: replicate 5 (Turn 0 moment true)) in
    let solved := (tier <=? cap.1) && bool_decide (is_Some (solve moment (o_Preset o) (o_Salt o) cap.2)) in
    sv_jobs s = [] /\ sv_busy s = false /\ exists ans, sv_sent s = [ans] /\
      exists r', read_frame env (answer_frame ans) (l, r) = (EvPow (if solved then FramePassed else FrameDeclined), updateReadDeadline env (l, r')) /\
        is_muted env r' = negb solved /\ exists sc', rm_Screener r' = Some sc' /\ Get sc' (ses_Conn sess) = None.
Proof.
  intros Hk Hip Htier Hb Hd Hw Hi Hc Hsound Hconn Hr Hg Hid Hx. unfold issueScreenChallenge in Hi. cbv zeta in Hi.
  set (raw := mkPreset _ _ _ _) in *. destruct (clamped_fits raw (ses_Web sess) wasm Hd Hw) as [Hrange Henv].
  set (p := (Clamp raw (ses_Web sess)).1) in *. clearbody p.
  set (salt := lit "chat|" ++ pub ++ "|"%char :: ses_IP sess ++ "|"%char :: hex_encode bytes) in *.
  pose proof (ChainService.hex_valid bytes) as Hhex. pose proof (server_key_valid priv pub Hk) as Hpub.
  assert (ValidString salt = true) as Hsalt.
  { unfold salt. apply valid_join; [done|]. apply valid_join; [done|]. apply (valid_join [_]); [done|]. apply valid_join; [done|]. by apply (valid_join [_]). }
  clearbody salt. injection Hi as <- <-. set (o := mkOffer _ _ _ _ _) in *.
  eexists. split; [apply offer_reads; [|done..]; unfold offer_ranges; split; [done|]; split; [done|]; apply i64_range|].
  pose proof (server_offer_verifies priv pub o wasm Hk Henv) as Hver. rewrite <- Hc in Hver at 2.
  destruct (client_settles cap wasm solve wording c _ moment _ Hver) as (S1 & S2 & S3). split; [exact S1|]. split; [exact S2|]. eexists. split; [exact S3|].
  rewrite Hconn in *. unfold Get at 2, Issue in Hg. cbn [ps_screens] in Hg. rewrite lookup_insert_eq in Hg.
  change (signed_part _) with o. set (ans := decision cap solve moment o p).
  destruct (server_settles env l r sc2 _ ans Hr Hg Hid Hx) as (r' & R1 & R2 & R3).
  - by exists bytes.
  - unfold ans, decision. destruct (_ <=? _); [destruct (solve _ _ _ _)|]; done.
  - intros n. unfold ans, decision. destruct (_ <=? _); [destruct (solve _ _ _ _) eqn:Es|]; intros [= <-]. by apply (Hsound _ _ _ _ _ Es).
  - assert ((match ans with ADecline _ => true | AResult _ _ => false end) =
      negb ((tier <=? cap.1) && bool_decide (is_Some (solve moment (o_Preset o) (o_Salt o) cap.2)))) as Hs.
    { unfold ans, decision. cbn [o_Tier o_Preset o_Salt o]. destruct (tier <=? cap.1); [|done]. by destruct (solve moment p salt cap.2). }
    rewrite Hs in R1, R2. exists r'. split; [etransitivity; [exact R1|]; by destruct (_ && _)|]. by split.
Qed.
End screened.

(** * Concrete runs *)

Section witnesses.
Let U := sample_unicode.
Let E := toy_ed25519.
Let A2 := toy_argon2.

Definition demo_seed : str := take 32 (sha512 (lit "gate")).
Definition demo_pub : str := hex_encode (sha256 demo_seed).
Definition demo_client (pub : str) : Console := mkConsole toy_pump (lit "An") pub None [] (newTabBuffer 0 0) (newTabBuffer 0 0)
  0 None TabChat 0 true true (mkNotices ∅ 1) false [] 0 0 ∅ false [].
Definition demo_visitor : Session := mkSession 1 (lit "10.0.0.1") false.
Definition demo_issued : option Offer * PowScreener :=
  issueScreenChallenge NewPowScreener demo_visitor 1 (100 * Second) (gs_abuse demo_server) demo_pub (Some (lit "0123456789abcdef")).
Definition demo_native : nat -> Preset -> str -> Z -> option Z := fun tried => platformSolvePoW (A2 := A2) 200 tried.

Definition demo_screened (po : PowOffer) : Solver :=
  pow_run (E := E) (3, 1000) false demo_native (fun _ => lit "note") (fresh_solver (demo_client demo_pub)) (Offered po :: replicate 5 (Turn 0 200 true)).

Lemma demo_solved : match demo_issued.1 with
  | Some o => bool_decide (is_Some (demo_native 200 (o_Preset o) (o_Salt o) 1000))
  | None => false end = true.
Proof. vm_compute. reflexivity. Qed.

(** A tier-1 challenge, on a client whose cap is three. *)
Lemma screened_client_is_understood_witness : exists o po ans d,
  demo_issued.1 = Some o /\ read_offer (offer_frame (E := E) (Some demo_seed) demo_pub o) = Some po /\ sv_sent (demo_screened po) = [ans] /\
  read_frame (U := U) (E := E) (A2 := A2) (demo_frame (101 * Second)) (answer_frame ans) (demo_loop, set_screener demo_room demo_issued.2) = (EvPow FramePassed, d).
Proof.
  pose proof demo_solved as Hsol. destruct demo_issued as [[o|] sc1] eqn:Hi; [|done]. cbn [fst snd] in *.
  destruct (issued_books _ _ _ _ _ _ _ _ _ Hi) as [Hb Ht]. pose proof toy_laws as L.
  destruct (screened_client_is_understood (U := U) (E := E) (A2 := A2) (Some demo_seed) demo_pub NewPowScreener demo_visitor 1 (100 * Second) (gs_abuse demo_server)
    (lit "0123456789abcdef") o sc1 (3, 1000) false demo_native (fun _ => lit "note") (demo_client demo_pub) 200 (demo_frame (101 * Second)) demo_loop
    (set_screener demo_room sc1) sc1) as (po & H1 & _ & _ & ans & H4 & r' & H5 & _).
  - split; vm_compute; reflexivity.
  - reflexivity.
  - unfold is_i64. lia.
  - intros [=].
  - vm_compute. intros [=].
  - intros [=].
  - exact Hi.
  - reflexivity.
  - intros m p salt cost n Hn. exact (native_solver_sound 200 m p salt cost n Hn).
  - reflexivity.
  - reflexivity.
  - reflexivity.
  - exact Hb.
  - vm_compute. reflexivity.
  - cbn [fst snd] in H5. rewrite Hsol in H5. exists o, po, ans. eexists. split; [reflexivity|]. split; [exact H1|]. split; [exact H4|exact H5].
Defined.

(** Two offers at once: the second goroutine leaves at the guard. *)
Definition demo_offer (id : string) : PowOffer := mkPowOffer 1 (mkPreset 1 8192 1 4) (lit "salt") 0 (lit id) [] [].
Definition demo_flood : list pow_event :=
  [Offered (demo_offer "a"); Offered (demo_offer "b"); Turn 1 200 true; Turn 0 200 true; Turn 0 200 true; Turn 0 200 true; Turn 0 200 true; Turn 0 200 true].

Example flood_answers_one :
  let s := pow_run (E := E) (3, 1000) false demo_native (fun _ => lit "note") (fresh_solver (demo_client [])) demo_flood in
  map answer_id (sv_sent s) = [lit "b"] /\ sv_busy s = false.
Proof. vm_compute. split; reflexivity. Qed.
End witnesses.
