(* ===== verification/Pretty.v ===== *)
(** [json.MarshalIndent] with the two-space indent the program's files use, and the
    proof that the reader gets the same value back. *)

From S2P Require Import Prelude Bytes Utf8 Wire Json.
Local Open Scope Z_scope.

(** A line break and the indent of level [n]. *)
Definition line_pad (n : nat) : str := nl :: concat (replicate n (lit "  ")).

Fixpoint joins (sep : str) (l : list str) : str :=
  match l with
  | [] => []
  | [x] => x
  | x :: l' => x ++ sep ++ joins sep l'
  end.

Fixpoint pretty (n : nat) (j : json) : str :=
  match j with
  | JArr [] => lit "[]"
  | JArr l => "["%char :: line_pad (S n) ++ joins (comma :: line_pad (S n)) (map (pretty (S n)) l) ++ line_pad n ++ lit "]"
  | JObj [] => lit "{}"
  | JObj l =>
      "{"%char :: line_pad (S n) ++ joins (comma :: line_pad (S n)) (map (fun kv => print_str kv.1 ++ colon :: " "%char :: pretty (S n) kv.2) l) ++
      line_pad n ++ lit "}"
  | _ => print j
  end.

Definition MarshalIndent (j : json) : str := pretty 0 j.

Example indent_ex : MarshalIndent (JObj (fint "version" 3 ++ [(lit "k", JObj (fstr "a" (lit "b") ++ fstr "c" [])); (lit "l", JArr [])])) =
  lit "{" ++ line_pad 1 ++ jlit "`version`: 3," ++ line_pad 1 ++ jlit "`k`: {" ++ line_pad 2 ++ jlit "`a`: `b`," ++ line_pad 2 ++ jlit "`c`: ``" ++ line_pad 1 ++ lit "}," ++
  line_pad 1 ++ jlit "`l`: []" ++ line_pad 0 ++ lit "}".
Proof. vm_compute. reflexivity. Qed.

(** * Reading it back *)

Lemma skip_pad n s : skip_ws (line_pad n ++ s) = skip_ws s.
Proof. unfold line_pad. cbn [app skip_ws]. change (is_ws nl) with true. cbv iota. induction n as [|n IH]; [done|]. exact IH. Qed.

Lemma read_padded fuel d n s : read_value fuel d (line_pad n ++ s) = read_value fuel d s.
Proof. destruct fuel; [done|]. cbn [read_value]. by rewrite skip_pad. Qed.

Lemma elems_padded fuel d n s : read_elems fuel d (line_pad n ++ s) = read_elems fuel d s.
Proof. destruct fuel; [done|]. cbn [read_elems]. by rewrite read_padded. Qed.

Lemma members_padded fuel d n s : read_members fuel d (line_pad n ++ s) = read_members fuel d s.
Proof. destruct fuel; [done|]. cbn [read_members]. by rewrite skip_pad. Qed.

Lemma joins_cons sep x y l : joins sep (x :: y :: l) = x ++ sep ++ joins sep (y :: l).
Proof. done. Qed.

Definition preads (fuel : nat) (j : json) : Prop := forall n d rest,
  printable j = true -> d + jdepth j <= maxNestingDepth -> num_end rest ->
  (length (pretty n j) < fuel)%nat -> read_value fuel d (pretty n j ++ rest) = Some (j, rest).

Lemma elems_pretty l : l <> [] -> Forall (fun j => forall fuel, preads fuel j) l ->
  forall fuel n m d rest,
  forallb printable l = true -> d + fold_right Z.max 0 (map jdepth l) <= maxNestingDepth ->
  (length (joins (comma :: line_pad n) (map (pretty n) l)) + 1 < fuel)%nat ->
  read_elems fuel d (joins (comma :: line_pad n) (map (pretty n) l) ++ line_pad m ++ "]"%char :: rest) = Some (l, rest).
Proof.
  induction l as [|j l IH]; [done|]. intros _ HF fuel n m d rest Hp Hd Hf.
  inversion HF as [|?? Hj HF']; subst. simpl in Hp, Hd. apply andb_true_iff in Hp as [Hpj Hpl].
  destruct fuel as [|fuel]; [lia|]. cbn [read_elems]. destruct l as [|j' l].
  - cbn [map joins] in *. rewrite Hj; [|done|lia|done|lia]. by rewrite skip_pad.
  - cbn [map] in *. rewrite joins_cons in *. rewrite !length_app, length_cons in Hf.
    rewrite <- !app_assoc. rewrite Hj; [|done|lia|done|lia].
    cbn [app skip_ws]. change (is_ws comma) with false. cbv iota.
    change (byte_eqb comma comma) with true. cbv iota. rewrite elems_padded.
    rewrite IH; [done|done|done|done| |simpl in *; lia]. lia.
Qed.

Definition pretty_member (n : nat) (kv : str * json) : str := print_str kv.1 ++ colon :: " "%char :: pretty n kv.2.

Lemma read_spaced fuel d s : read_value fuel d (" "%char :: s) = read_value fuel d s.
Proof. by destruct fuel. Qed.

Lemma member_pretty fuel n d k v tl : ValidString k = true -> printable v = true -> d + jdepth v <= maxNestingDepth ->
  (forall fuel, preads fuel v) -> num_end tl -> (length (pretty_member n (k, v)) < fuel)%nat ->
  read_members (S fuel) d (pretty_member n (k, v) ++ tl) =
    match skip_ws tl with
    | c :: rest =>
        if byte_eqb c comma then match read_members fuel d rest with Some (l, s6) => Some ((k, v) :: l, s6) | None => None end
        else if byte_eqb c "}"%char then Some ([(k, v)], rest) else None
    | [] => None
    end.
Proof.
  intros Hk Hv Hd Hj Ht Hf. unfold pretty_member in *. simpl fst in *. simpl snd in *.
  rewrite length_app in Hf. simpl in Hf. rewrite <- app_assoc.
  destruct (read_print_str k ((colon :: " "%char :: pretty n v) ++ tl) Hk) as (t & -> & Hb).
  cbn [read_members skip_ws]. change (is_ws quote_b) with false. cbv iota.
  change (byte_eqb quote_b quote_b) with true. cbv iota. rewrite Hb.
  cbn [app skip_ws]. change (is_ws colon) with false. cbv iota.
  change (byte_eqb colon colon) with true. cbv iota.
  rewrite read_spaced, Hj; [done|done|lia|done|lia].
Qed.

Lemma members_pretty l : l <> [] -> Forall (fun kv => forall fuel, preads fuel kv.2) l ->
  forall fuel n m d rest,
  forallb (fun kv => ValidString kv.1 && printable kv.2) l = true ->
  d + fold_right Z.max 0 (map (fun kv => jdepth kv.2) l) <= maxNestingDepth ->
  (length (joins (comma :: line_pad n) (map (pretty_member n) l)) + 1 < fuel)%nat ->
  read_members fuel d (joins (comma :: line_pad n) (map (pretty_member n) l) ++ line_pad m ++ "}"%char :: rest) = Some (l, rest).
Proof.
  induction l as [|[k v] l IH]; [done|]. intros _ HF fuel n m d rest Hp Hd Hf.
  inversion HF as [|?? Hj HF']; subst. simpl in Hp, Hd, Hj.
  rewrite !andb_true_iff in Hp. destruct Hp as [[Hk Hv] Hpl].
  destruct fuel as [|fuel]; [lia|]. destruct l as [|kv' l].
  - cbn [map joins] in *. rewrite member_pretty; [|done|done|lia|done|done|lia]. by rewrite skip_pad.
  - cbn [map] in *. rewrite joins_cons in *. rewrite !length_app, length_cons in Hf.
    rewrite <- !app_assoc. rewrite member_pretty; [|done|done|simpl in *; lia|done|done|lia].
    cbn [app skip_ws]. change (is_ws comma) with false. cbv iota.
    change (byte_eqb comma comma) with true. cbv iota. rewrite members_padded.
    rewrite IH; [done|done|done|done| |simpl in *; lia]. simpl in *. lia.
Qed.

Lemma pretty_obj n l : l <> [] -> pretty n (JObj l) =
  "{"%char :: line_pad (S n) ++ joins (comma :: line_pad (S n)) (map (pretty_member (S n)) l) ++ line_pad n ++ lit "}".
Proof. by destruct l. Qed.
Lemma pretty_arr n l : l <> [] -> pretty n (JArr l) =
  "["%char :: line_pad (S n) ++ joins (comma :: line_pad (S n)) (map (pretty (S n)) l) ++ line_pad n ++ lit "]".
Proof. by destruct l. Qed.

Arguments pretty_member : simpl never.

(** The first byte of a value is no white space and no closing bracket. *)
Lemma pretty_start n j : printable j = true -> exists c t, pretty n j = c :: t /\ is_ws c = false /\ byte_eqb c "]"%char = false.
Proof.
  intros H. destruct j as [|b|s|s|l|l]; try exact (print_start _ H); destruct l; eexists _, _; (split; [reflexivity|split; reflexivity]).
Qed.

Lemma skip_joined (f : nat -> json -> str) sep n j l rest : (forall n j, printable j = true -> exists c t, f n j = c :: t /\ is_ws c = false /\ byte_eqb c "]"%char = false) ->
  printable j = true -> exists c t, skip_ws (joins sep (map (f n) (j :: l)) ++ rest) = c :: t /\ byte_eqb c "]"%char = false.
Proof.
  intros Hf Hj. destruct (Hf n j Hj) as (c & t & Hp & Hws & Hc). destruct l as [|j' l]; cbn [map]; [cbn [joins]|rewrite joins_cons, <- app_assoc];
    rewrite Hp; cbn [app skip_ws]; rewrite Hws; eexists _, _; (split; [reflexivity|done]).
Qed.

Lemma read_value_pretty j fuel : preads fuel j.
Proof.
  revert fuel. induction j as [|b|l|s|l IH|l IH] using json_ind'; intros fuel n d rest Hp Hd Hr Hf;
    try exact (read_value_print _ fuel d rest Hp Hd Hr Hf); (destruct fuel as [|fuel]; [lia|]).
  - destruct (decide (l = [])) as [->|Hl]; [exact (read_value_print _ _ d rest Hp Hd Hr Hf)|]. cbn [jdepth] in Hd.
    assert (0 <= fold_right Z.max 0 (map jdepth l)) as H0 by (clear; induction l; simpl; lia).
    rewrite pretty_arr in * by done. rewrite length_cons, !length_app in Hf. change (length (lit "]")) with 1%nat in Hf. simpl in Hp.
    cbn [app read_value skip_ws]. change (is_ws "["%char) with false. cbv iota.
    change (byte_eqb "["%char "{"%char) with false. change (byte_eqb "["%char "["%char) with true. cbv iota.
    replace (maxNestingDepth <? d + 1) with false by lia. rewrite <- !app_assoc, skip_pad, elems_padded.
    change (lit "]" ++ rest) with ("]"%char :: rest). rewrite elems_pretty; [|done|done|done|lia|lia].
    destruct l as [|j l]; [done|]. simpl in Hp. apply andb_true_iff in Hp as [Hj _].
    destruct (skip_joined pretty (comma :: line_pad (S n)) (S n) j l (line_pad n ++ "]"%char :: rest) pretty_start Hj) as (c & t & -> & ->). done.
  - destruct (decide (l = [])) as [->|Hl]; [exact (read_value_print _ _ d rest Hp Hd Hr Hf)|]. cbn [jdepth] in Hd.
    assert (0 <= fold_right Z.max 0 (map (fun kv : str * json => jdepth kv.2) l)) as H0 by (clear; induction l; simpl; lia).
    rewrite pretty_obj in * by done. rewrite length_cons, !length_app in Hf. change (length (lit "}")) with 1%nat in Hf. simpl in Hp.
    cbn [app read_value skip_ws]. change (is_ws "{"%char) with false. cbv iota.
    change (byte_eqb "{"%char "{"%char) with true. cbv iota.
    replace (maxNestingDepth <? d + 1) with false by lia. rewrite <- !app_assoc, skip_pad, members_padded.
    change (lit "}" ++ rest) with ("}"%char :: rest). rewrite members_pretty; [|done|done|done|lia|lia].
    destruct l as [|[k v] l]; [done|]. destruct (print_str_cons k) as [t Hk].
    destruct l as [|kv' l]; cbn [map]; [cbn [joins]|rewrite joins_cons, <- app_assoc]; unfold pretty_member; cbn [fst]; rewrite Hk; reflexivity.
Qed.

(** What the program writes to a file it reads back, with or without a final line
    break. *)
Lemma parse_indented j : printable j = true -> jdepth j <= maxNestingDepth -> parse (MarshalIndent j) = Some j.
Proof.
  intros Hp Hd. unfold parse, MarshalIndent.
  pose proof (read_value_pretty j (S (length (pretty 0 j))) 0%nat 0 [] Hp ltac:(lia) I ltac:(lia)) as H.
  rewrite app_nil_r in H. by rewrite H.
Qed.
