(* ===== verification/Vault.v ===== *)
(** The secrets on disk ([lib/identity], [lib/clientcore/identity.go],
    [client/identity.go], [client/tripcode.go], [client/tripchain.go],
    [server/server_identity.go]): the sealed envelope, key files, the tripcode file
    and the key derived from it, the server's own key, and the modes and owners their
    files end up with.  A file is its content, its mode and its owner; the cipher is
    an interface; piped input is a text that is read line by line. *)

From S2P Require Import Prelude Bytes Sha2 Utf8 Wire Json Crypto ReadPump Passkeys Pretty.
Local Open Scope Z_scope.

(** * The cipher

    [chacha20poly1305.NewX]: sealing and opening under a 32-byte key and a 24-byte
    nonce.  Both panic on a nonce of another size; the callers below decide. *)
Class AEAD := {
  aead_seal : str -> str -> str -> str;            (* key, nonce, plaintext *)
  aead_open : str -> str -> str -> option str      (* key, nonce, ciphertext *)
}.

(** Documented behaviour: what was sealed opens under the same key and nonce, and a
    ciphertext carries a tag. *)
Class AEADLaws `{AEAD} : Prop := {
  aead_open_seal key nonce plain : length key = 32%nat -> length nonce = 24%nat -> aead_open key nonce (aead_seal key nonce plain) = Some plain;
  aead_seal_tag key nonce plain : (16 <= length (aead_seal key nonce plain))%nat
}.

Definition NonceSizeX : nat := 24.
Definition KeySize : nat := 32.

(** [argon2.IDKey] returns as many bytes as asked for. *)
Class Argon2Laws {A2 : Argon2} : Prop := { IDKey_size pass salt t m p : length (IDKey pass salt t m p KeySize) = KeySize }.

(** * The envelope (encrypt.go) *)

Record Params := mkParams { pm_Time : Z; pm_Memory : Z; pm_Threads : Z }.

Definition PresetWASM : Params := mkParams 1 (32 * 1024) 1.
Definition PresetNative : Params := mkParams 3 (64 * 1024) 4.
Definition defaultParams : Params := PresetWASM.

Record sealed := mkSealed {
  sl_KDF : str; sl_Time : Z; sl_Memory : Z; sl_Threads : Z; sl_Salt : str; sl_Nonce : str; sl_Cipher : str; sl_Ciphertext : str
}.
Record encryptEnvelope := mkVault { ee_Version : Z; ee_Encrypted : sealed }.

Definition zeroSealed : sealed := mkSealed [] 0 0 0 [] [] [] [].

Definition sealed_fields (s : sealed) : list (str * json) :=
  fstr "kdf" (sl_KDF s) ++ fint "t" (sl_Time s) ++ fint "m" (sl_Memory s) ++ fint "p" (sl_Threads s) ++ fstr "salt" (sl_Salt s) ++
  fstr "nonce" (sl_Nonce s) ++ fstr "cipher" (sl_Cipher s) ++ fstr "ciphertext" (sl_Ciphertext s).
Definition vault_fields (e : encryptEnvelope) : list (str * json) :=
  fint "version" (ee_Version e) ++ [(lit "encrypted", JObj (sealed_fields (ee_Encrypted e)))].

Definition sealed_field (st : option sealed) (kv : str * json) : option sealed :=
  match st with
  | None => None
  | Some (mkSealed a b c d e f g h) =>
      let '(key, v) := kv in
      if key_is key "kdf" then x ← dstr v a; Some (mkSealed x b c d e f g h)
      else if key_is key "t" then x ← duint 32 v b; Some (mkSealed a x c d e f g h)
      else if key_is key "m" then x ← duint 32 v c; Some (mkSealed a b x d e f g h)
      else if key_is key "p" then x ← duint 8 v d; Some (mkSealed a b c x e f g h)
      else if key_is key "salt" then x ← dstr v e; Some (mkSealed a b c d x f g h)
      else if key_is key "nonce" then x ← dstr v f; Some (mkSealed a b c d e x g h)
      else if key_is key "cipher" then x ← dstr v g; Some (mkSealed a b c d e f x h)
      else if key_is key "ciphertext" then x ← dstr v h; Some (mkSealed a b c d e f g x)
      else st
  end.

Definition vault_field (st : option encryptEnvelope) (kv : str * json) : option encryptEnvelope :=
  match st with
  | None => None
  | Some (mkVault a b) =>
      let '(key, v) := kv in
      if key_is key "version" then x ← dint v a; Some (mkVault x b)
      else if key_is key "encrypted" then x ← dobj sealed_field v b; Some (mkVault a x)
      else st
  end.

Inductive vault_error :=
| EmptyPassphrase | NoEntropy
| BadEnvelopeJSON | UnsupportedEnvelope | NotEncrypted | BadSalt | BadNonce | BadCiphertext | CostOutOfRange | WrongPassphrase.

(** A call may also panic. *)
Inductive outcome (E A : Type) := Ret (x : A) | Fails (e : E) | Panics.
Arguments Ret {E A}.
Arguments Fails {E A}.
Arguments Panics {E A}.

Definition and_then {E A B} (o : outcome E A) (f : A -> outcome E B) : outcome E B :=
  match o with Ret x => f x | Fails e => Fails e | Panics => Panics end.
Definition relabel {E E' A} (g : E -> E') (o : outcome E A) : outcome E' A :=
  match o with Ret x => Ret x | Fails e => Fails (g e) | Panics => Panics end.

(** Clamp of the cost a file names. *)
Definition cost_ok (p : Params) : bool :=
  negb ((pm_Time p <? 1) || (10 <? pm_Time p) || (pm_Memory p <? 8 * 1024) || (256 * 1024 <? pm_Memory p) ||
        (pm_Threads p <? 1) || (8 <? pm_Threads p)).

Section vault.
Context {A2 : Argon2} {C : AEAD}.

Definition vault_key (pass salt : str) (p : Params) : str := IDKey pass salt (pm_Time p) (pm_Memory p) (pm_Threads p) KeySize.

(** [salt] and [nonce] are the random bytes. *)
Definition encryptJSON (salt nonce : option str) (plain pass : str) (p : Params) : res vault_error str :=
  match pass with
  | [] => Err EmptyPassphrase
  | _ =>
      match salt, nonce with
      | Some salt, Some nonce =>
          let ct := aead_seal (vault_key pass salt p) nonce plain in
          Ok (MarshalIndent (JObj (vault_fields (mkVault 3
            (mkSealed (lit "argon2id") (pm_Time p) (pm_Memory p) (pm_Threads p) (b64_encode salt) (b64_encode nonce)
               (lit "xchacha20poly1305") (b64_encode ct))))))
      | _, _ => Err NoEntropy
      end
  end.

Definition decryptJSON (data pass : str) : outcome vault_error str :=
  match read_json vault_field (mkVault 0 zeroSealed) data with
  | None => Fails BadEnvelopeJSON
  | Some env =>
      let s := ee_Encrypted env in
      if negb (ee_Version env =? 3) || negb (str_eqb (sl_KDF s) (lit "argon2id")) || negb (str_eqb (sl_Cipher s) (lit "xchacha20poly1305"))
      then Fails UnsupportedEnvelope
      else if str_eqb (sl_Ciphertext s) [] then Fails NotEncrypted
      else match b64_decode (sl_Salt s) with
      | None => Fails BadSalt
      | Some salt =>
          match b64_decode (sl_Nonce s) with
          | None => Fails BadNonce
          | Some nonce =>
              match b64_decode (sl_Ciphertext s) with
              | None => Fails BadCiphertext
              | Some ct =>
                  let p := if sl_Time s =? 0 then defaultParams else mkParams (sl_Time s) (sl_Memory s) (sl_Threads s) in
                  if negb (cost_ok p) then Fails CostOutOfRange
                  else
                    let key := vault_key pass salt p in
                    if negb (Nat.eqb (length nonce) NonceSizeX) then Panics
                    else if (length ct <? 16)%nat then Fails WrongPassphrase
                    else match aead_open key nonce ct with Some plain => Ret plain | None => Fails WrongPassphrase end
              end
          end
      end
  end.

Definition EncryptData (salt nonce : option str) (plain pass : str) : res vault_error str := encryptJSON salt nonce plain pass defaultParams.
Definition DecryptData : str -> str -> outcome vault_error str := decryptJSON.
End vault.

(** ** Probing

    [json.Unmarshal] into a [map[string]any]: a number must fit a float64. *)

(** The digits of a literal as an integer, and the power of ten that scales it. *)
Definition num_scale (l : str) : Z * Z :=
  let l := match l with c :: l' => if byte_eqb c "-"%char then l' else l | [] => [] end in
  let '(int, rest) := span is_digit l in
  let '(frac, rest) := match rest with c :: r => if byte_eqb c "."%char then span is_digit r else ([], rest) | [] => ([], []) end in
  let exp := match rest with
             | c :: r => match r with
                         | d :: r' => if byte_eqb d "-"%char then - digits_val r' else if byte_eqb d "+"%char then digits_val r' else digits_val r
                         | [] => 0
                         end
             | [] => 0
             end in
  (digits_val (int ++ frac), exp - slen frac).

(** [ParseFloat] reports a range error from half a unit above the largest float. *)
Definition float_limit : Z := 2 ^ 1024 - 2 ^ 970.
Definition float_fits (l : str) : bool :=
  let '(m, e) := num_scale l in
  if m =? 0 then true else if 0 <=? e then m * 10 ^ e <? float_limit else m <? float_limit * 10 ^ (- e).

Fixpoint any_ok (j : json) : bool :=
  match j with
  | JNum l => float_fits l
  | JArr l => forallb any_ok l
  | JObj l => forallb (fun kv => any_ok kv.2) l
  | _ => true
  end.

(** The members of the map; [null] leaves it empty.  The last of two equal keys
    wins. *)
Definition probe_map (data : str) : option (list (str * json)) :=
  match parse data with
  | Some (JObj l) => if any_ok (JObj l) then Some l else None
  | Some JNull => Some []
  | _ => None
  end.
Definition member (l : list (str * json)) (k : string) : option json :=
  fold_left (fun acc kv => if str_eqb kv.1 (lit k) then Some kv.2 else acc) l None.

Definition isEncrypted (data : str) : bool :=
  match probe_map data with Some l => bool_decide (is_Some (member l "encrypted")) | None => false end.

Example float_ex : map (fun s => float_fits (lit s)) ["0"; "3"; "1.5e-3"; "1.7976931348623157e308"; "1e309"; "-17976931348623158000e289"]%string
  = [true; true; true; true; false; true].
Proof. vm_compute. reflexivity. Qed.

(** * Key files (identity.go) *)

Definition IdVersion : Z := 3.

Record Ed25519Identity := mkEdIdentity { ei_Role : str; ei_PrivateKey : str; ei_HmacShield : str; ei_ServerPubKey : str }.
Record IdentityFile := mkIdentityFile { if_Version : Z; if_Ed25519 : option Ed25519Identity }.

Definition zeroEd : Ed25519Identity := mkEdIdentity [] [] [] [].

Definition ed_fields (e : Ed25519Identity) : list (str * json) :=
  fstr "role" (ei_Role e) ++ fstr "private_key" (ei_PrivateKey e) ++ fstr "hmac_shield" (ei_HmacShield e) ++ ostr "server_pubkey" (ei_ServerPubKey e).
Definition oed (k : string) (e : option Ed25519Identity) : list (str * json) :=
  match e with Some e => [(lit k, JObj (ed_fields e))] | None => [] end.
Definition identity_fields (f : IdentityFile) : list (str * json) := fint "version" (if_Version f) ++ oed "ed25519" (if_Ed25519 f).

Definition ed_field (st : option Ed25519Identity) (kv : str * json) : option Ed25519Identity :=
  match st with
  | None => None
  | Some (mkEdIdentity a b c d) =>
      let '(key, v) := kv in
      if key_is key "role" then x ← dstr v a; Some (mkEdIdentity x b c d)
      else if key_is key "private_key" then x ← dstr v b; Some (mkEdIdentity a x c d)
      else if key_is key "hmac_shield" then x ← dstr v c; Some (mkEdIdentity a b x d)
      else if key_is key "server_pubkey" then x ← dstr v d; Some (mkEdIdentity a b c x)
      else st
  end.

(** A pointer to a struct: [null] clears it, an object fills what is there. *)
Definition ded (v : json) (cur : option Ed25519Identity) : option (option Ed25519Identity) :=
  match v with JNull => Some None | _ => Some <$> dobj ed_field v (default zeroEd cur) end.

Definition identity_field (st : option IdentityFile) (kv : str * json) : option IdentityFile :=
  match st with
  | None => None
  | Some (mkIdentityFile a b) =>
      let '(key, v) := kv in
      if key_is key "version" then x ← dint v a; Some (mkIdentityFile x b)
      else if key_is key "ed25519" then x ← ded v b; Some (mkIdentityFile a x)
      else st
  end.

Inductive key_error :=
| Unreadable | FileEncrypted | NotValidJSON | OldHostPinning | BadContainer | TooOld | UnknownShape | MissingFields
| Sealed (e : vault_error).

Definition has_host (l : list (str * json)) : bool :=
  match member l "ed25519" with Some (JObj ed) => bool_decide (is_Some (member ed "host")) | _ => false end.

(** [data] is [None] when the file cannot be read. *)
Definition Load (data : option str) : outcome key_error IdentityFile :=
  match data with
  | None => Fails Unreadable
  | Some data =>
      if isEncrypted data then Fails FileEncrypted
      else match probe_map data with
      | None => Fails NotValidJSON
      | Some probe =>
          if has_host probe then Fails OldHostPinning
          else if bool_decide (is_Some (member probe "version")) then
            match read_json identity_field (mkIdentityFile 0 None) data with
            | None => Fails BadContainer
            | Some f => if if_Version f <? IdVersion then Fails TooOld else Ret (mkIdentityFile IdVersion (if_Ed25519 f))
            end
          else match read_json ed_field zeroEd data with
          | None => Fails UnknownShape
          | Some e =>
              if str_eqb (ei_Role e) [] || str_eqb (ei_PrivateKey e) [] || str_eqb (ei_HmacShield e) [] then Fails MissingFields
              else Ret (mkIdentityFile IdVersion (Some e))
          end
      end
  end.

Section keyfiles.
Context {A2 : Argon2} {C : AEAD}.

Definition LoadEncrypted (data : option str) (pass : str) : outcome key_error IdentityFile :=
  match data with
  | None => Fails Unreadable
  | Some d =>
      if negb (isEncrypted d) then Load data
      else and_then (relabel Sealed (decryptJSON d pass)) (fun plain =>
        match read_json identity_field (mkIdentityFile 0 None) plain with
        | None => Fails BadContainer
        | Some f => Ret (mkIdentityFile IdVersion (if_Ed25519 f))
        end)
  end.

(** The bytes [Save] and [SaveEncrypted] write. *)
Definition identity_text (f : IdentityFile) : str := MarshalIndent (JObj (identity_fields (mkIdentityFile IdVersion (if_Ed25519 f)))).
Definition sealed_text (salt nonce : option str) (f : IdentityFile) (pass : str) (p : option Params) : res vault_error str :=
  encryptJSON salt nonce (identity_text f) pass (default defaultParams p).

(** ** Unlocking (lib/clientcore/identity.go, client/identity.go) *)

(** [env_pass] is V2V_PASSPHRASE, [prompt] the answer of the Prompter; the
    passphrase that unlocked the file comes back with it. *)
Definition LoadIdentityFile (data : option str) (env_pass : str) (prompt : option str) : outcome key_error (IdentityFile * option str) :=
  if match data with Some d => isEncrypted d | None => false end then
    match (match env_pass with [] => prompt | _ => Some env_pass end) with
    | None => Fails Unreadable
    | Some pw => and_then (LoadEncrypted data pw) (fun f => Ret (f, Some pw))
    end
  else and_then (Load data) (fun f => Ret (f, None)).

(** What the client remembers: [loadedPassphrase] with [loadedWasEncrypted]. *)
Record Remembered := mkRemembered { rb_pass : str; rb_encrypted : bool }.

Definition ClearLoadedPassphrase : Remembered := mkRemembered [] false.
Definition rememberLoadedPassphrase (pw : str) : Remembered := mkRemembered pw true.

Definition client_LoadIdentityFile (m : Remembered) (data : option str) (env_pass : str) (prompt : option str)
    : outcome key_error IdentityFile * Remembered :=
  match LoadIdentityFile data env_pass prompt with
  | Ret (f, pw) => (Ret f, match pw with Some ((_ :: _) as p) => rememberLoadedPassphrase p | _ => m end)
  | Fails e => (Fails e, m)
  | Panics => (Panics, m)
  end.

Definition SaveIdentityFileEncrypted (m : Remembered) (salt nonce : option str) (f : IdentityFile) : res vault_error str :=
  if rb_encrypted m && negb (str_eqb (rb_pass m) []) then sealed_text salt nonce f (rb_pass m) None else Ok (identity_text f).
End keyfiles.

(** ** Modes and owners (atomicwrite_unix.go) *)

Record file := mkFile { fl_data : str; fl_mode : Z; fl_owner : Z }.

(** The writing process and the directory: user 0 may change owners. *)
Record writer := mkWriter { wr_uid : Z; wr_umask : Z; wr_dir_owner : Z }.

Definition ownerFor (w : writer) (old : option file) : Z := match old with Some f => fl_owner f | None => wr_dir_owner w end.

(** [renameio] gives a replacement the mode of the file it replaces, and a new file
    the wanted mode under the umask; a chown that is not permitted is ignored.
    [ok] tells whether the replacement went through: it is all or nothing. *)
Definition writeFileAtomic (ok : bool) (w : writer) (old : option file) (data : str) (perm : Z) : option file :=
  if ok then
    let mode := match old with Some f => fl_mode f | None => Z.land perm (Z.lnot (wr_umask w)) end in
    let owner := if wr_uid w =? 0 then ownerFor w old else wr_uid w in
    Some (mkFile data mode owner)
  else old.

Definition set_mode (f : option file) (perm : Z) : option file := (fun f => mkFile (fl_data f) perm (fl_owner f)) <$> f.

(** A [Chmod] follows the write; [chmod] tells whether it was permitted. *)
Definition WriteConfigFile (ok chmod : bool) (w : writer) (old : option file) (data : str) : option file :=
  let f := writeFileAtomic ok w old data 420 in if ok && chmod then set_mode f 420 else f.
Definition WriteSecretConfigFile (ok chmod : bool) (w : writer) (old : option file) (data : str) : option file :=
  let f := writeFileAtomic ok w old data 384 in if ok && chmod then set_mode f 384 else f.
Definition Save (ok : bool) (w : writer) (old : option file) (f : IdentityFile) : option file := writeFileAtomic ok w old (identity_text f) 384.

(** * The tripcode and its key (client/tripcode.go, client/tripchain.go) *)

Record tripcodeFile := mkTripcodeFile { tf_Version : Z; tf_Tripcode : str; tf_Salt : str }.

Definition tripcode_fields (f : tripcodeFile) : list (str * json) :=
  fint "version" (tf_Version f) ++ fstr "tripcode" (tf_Tripcode f) ++ ostr "salt" (tf_Salt f).
Definition tripcode_field (st : option tripcodeFile) (kv : str * json) : option tripcodeFile :=
  match st with
  | None => None
  | Some (mkTripcodeFile a b c) =>
      let '(key, v) := kv in
      if key_is key "version" then x ← dint v a; Some (mkTripcodeFile x b c)
      else if key_is key "tripcode" then x ← dstr v b; Some (mkTripcodeFile a x c)
      else if key_is key "salt" then x ← dstr v c; Some (mkTripcodeFile a b x)
      else st
  end.

(** The environment variables, the client configuration and the page's value. *)
Record SecretEnv := mkSecretEnv {
  tv_Tripcode : str;
  tv_TripSalt : str;
  tv_Passphrase : str;
  tv_configSalt : str;        (* [ClientCfg.Crypto.Salt] *)
  tv_saltFallback : str;      (* [ClientCfg.Crypto.SaltFallback] *)
  tv_wasm : bool;
  tv_cli : str                (* [CLI.Tripcode], set by the page *)
}.

Inductive salt_source := FromEnv | FromFile | FromConfig | FromServer.

Definition customSaltWithSource (e : SecretEnv) : str * salt_source :=
  match tv_TripSalt e with
  | [] => match tv_configSalt e with [] => ([], FromServer) | s => (s, FromConfig) end
  | v => (v, FromEnv)
  end.
Definition tripCustomSalt (e : SecretEnv) : str := (customSaltWithSource e).1.

(** ** Piped answers (internal/tui/tui.go) *)

Fixpoint trim_cr (s : str) : str :=
  match s with
  | [] => []
  | c :: s' => match trim_cr s' with [] => if byte_val c =? 13 then [] else [c] | r => c :: r end
  end.

(** One line and what is left; [None] at the end of the input. *)
Definition ReadLine (input : str) : option str * str :=
  let '(line, rest) := span (fun c => negb (byte_eqb c nl)) input in
  match rest with
  | _ :: rest' => (Some (trim_cr line), rest')
  | [] => match line with [] => (None, []) | _ => (Some (trim_cr line), []) end
  end.

Definition confirmYes {U : Unicode} (line : str) : bool :=
  let l := ToLower (TrimSpace line) in existsb (str_eqb l) [lit "y"; lit "yes"; lit "có"; lit "co"].
Definition ConfirmPiped {U : Unicode} (input : str) : bool * str :=
  match ReadLine input with (Some line, rest) => (confirmYes line, rest) | (None, rest) => (false, rest) end.

Inductive trip_error :=
| NoInput | Mismatch | EmptyTripcode | TooLongTripcode | WeakRefused
| TripUnreadable | TripPlaintext | TripSealed (e : vault_error) | TripBroken | TripEmpty.

Definition maxEntryAttempts : nat := 3.

(** Two lines per round. *)
Fixpoint readDoubleEntry (rounds : nat) (last : trip_error) (input : str) : res trip_error str * str :=
  match rounds with
  | O => (Err last, input)
  | S rounds' =>
      match ReadLine input with
      | (None, rest) => (Err NoInput, rest)
      | (Some first, rest) =>
          match ReadLine rest with
          | (None, rest) => (Err NoInput, rest)
          | (Some second, rest) =>
              if negb (str_eqb first second) then readDoubleEntry rounds' Mismatch rest
              else if str_eqb (TrimSpace first) [] then readDoubleEntry rounds' EmptyTripcode rest
              else (Ok first, rest)
          end
      end
  end.

Section tripcode.
Context {U : Unicode} {E : Ed25519} {A2 : Argon2} {C : AEAD}.
(** The strength meter calls a passphrase weak in a context of known words. *)
Variable weak : str -> list str -> bool.

Definition userInputs (username serverHost : str) : list str :=
  (match TrimSpace username with [] => [] | u => [u] end) ++ (match TrimSpace serverHost with [] => [] | h => [h] end).

(** [data] is the file: absent, unreadable or its content. *)
Definition loadTripcodeFile (e : SecretEnv) (data : option (option str)) (input : str)
    : outcome trip_error (option (str * str)) * str :=
  match data with
  | None => (Ret None, input)
  | Some None => (Fails TripUnreadable, input)
  | Some (Some d) =>
      if negb (isEncrypted d) then (Fails TripPlaintext, input)
      else
        let '(unlock, input) := match tv_Passphrase e with [] => ReadLine input | p => (Some p, input) end in
        match unlock with
        | None => (Fails NoInput, input)
        | Some unlock =>
            (and_then (relabel TripSealed (DecryptData d unlock)) (fun plain =>
               match read_json tripcode_field (mkTripcodeFile 0 [] []) plain with
               | None => Fails TripBroken
               | Some f => if str_eqb (tf_Tripcode f) [] then Fails TripEmpty else Ret (Some (tf_Tripcode f, tf_Salt f))
               end), input)
        end
  end.

(** The bytes of the file, when they could be made. *)
Definition saveTripcodeFile (salt nonce : option str) (tripcode tripSalt unlock : str) : res vault_error str :=
  match unlock with
  | [] => Err EmptyPassphrase
  | _ => EncryptData salt nonce (print (JObj (tripcode_fields (mkTripcodeFile 3 tripcode tripSalt)))) unlock
  end.

(** The piped prompt: a weak unlock passphrase only warns. *)
Definition saveTripcodePrompt (e : SecretEnv) (salt nonce : option str) (tripcode input : str) : option str * str :=
  match ReadLine input with
  | (Some ((_ :: _) as unlock), rest) =>
      (match saveTripcodeFile salt nonce tripcode (tripCustomSalt e) unlock with Ok text => Some text | Err _ => None end, rest)
  | (_, rest) => (None, rest)
  end.

(** The passphrase, its salt and where the salt comes from; the text to store, when
    the user asked for it; and the input left. *)
Definition resolveTripcode (e : SecretEnv) (useFlag : bool) (username serverHost : str) (data : option (option str)) (salt nonce : option str) (input : str)
    : outcome trip_error (str * str * option salt_source) * option str * str :=
  if tv_wasm e then let '(s, src) := customSaltWithSource e in (Ret (tv_cli e, s, Some src), None, input)
  else if negb useFlag then (Ret ([], [], None), None, input)
  else
    let ctx := userInputs username serverHost in
    match tv_Tripcode e with
    | _ :: _ => let '(s, src) := customSaltWithSource e in (Ret (tv_Tripcode e, s, Some src), None, input)
    | [] =>
        match loadTripcodeFile e data input with
        | (Fails err, input) => (Fails err, None, input)
        | (Panics, input) => (Panics, None, input)
        | (Ret (Some (tc, fileSalt)), input) =>
            let '(s, src) :=
              match tv_TripSalt e with
              | [] => match fileSalt with [] => customSaltWithSource e | _ => (fileSalt, FromFile) end
              | v => (v, FromEnv)
              end in
            (Ret (tc, s, Some src), None, input)
        | (Ret None, input) =>
            match readDoubleEntry maxEntryAttempts Mismatch input with
            | (Err err, input) => (Fails err, None, input)
            | (Ok tc, input) =>
                if 64 <? slen tc then (Fails TooLongTripcode, None, input)
                else
                  let '(go, input) := if weak tc ctx then ConfirmPiped input else (true, input) in
                  if negb go then (Fails WeakRefused, None, input)
                  else
                    let '(offer, input) := ConfirmPiped input in
                    let '(saved, input) := if offer then saveTripcodePrompt e salt nonce tc input else (None, input) in
                    let '(s, src) := customSaltWithSource e in
                    (Ret (tc, s, Some src), saved, input)
            end
        end
    end.

(** ** The key *)

Definition tripSaltDomain (e : SecretEnv) : str := match tv_saltFallback e with [] => lit "V2V-trip-v1" | s => s end.

(** The challenge's TRIP_SALT and server key. *)
Definition tripServerDefault (e : SecretEnv) (tripSalt serverPub : str) : str :=
  match TrimSpace tripSalt with
  | [] =>
      match hex_decode (TrimSpace serverPub) with
      | Some ((_ :: _) as b) => take 16 (sha256 b)
      | _ => take 16 (sha256 (tripSaltDomain e))
      end
  | s => take 16 (sha256 s)
  end.

Definition resolveTripSalt (customSalt serverDefault : str) : str :=
  match customSalt with [] => serverDefault | _ => take 16 (sha256 customSalt) end.

(** The seed, the public key and the badge. *)
Definition deriveTripKey (e : SecretEnv) (passphrase salt : str) : str * str * str :=
  let p := if tv_wasm e then PresetWASM else PresetNative in
  let seed := IDKey passphrase salt (pm_Time p) (pm_Memory p) (pm_Threads p) 32 in
  let pub := ed_pub seed in
  (seed, pub, take 8 (hex_encode (sha256 pub))).

(** What a session derives ([client/session.go]). *)
Definition session_key (e : SecretEnv) (tripcode tripSalt challengeSalt serverPub : str) : option (str * str * str) :=
  match tripcode with
  | [] => None
  | _ => Some (deriveTripKey e tripcode (resolveTripSalt tripSalt (tripServerDefault e challengeSalt serverPub)))
  end.
End tripcode.

(** * The server's key (server/server_identity.go) *)

Record StoredIdentity := mkStoredIdentity { si_PublicKey : str; si_PrivateKey : str }.

Definition server_identity_fields (s : StoredIdentity) : list (str * json) :=
  fstr "public_key" (si_PublicKey s) ++ fstr "private_key" (si_PrivateKey s).
Definition server_identity_field (st : option StoredIdentity) (kv : str * json) : option StoredIdentity :=
  match st with
  | None => None
  | Some (mkStoredIdentity a b) =>
      let '(key, v) := kv in
      if key_is key "public_key" then x ← dstr v a; Some (mkStoredIdentity x b)
      else if key_is key "private_key" then x ← dstr v b; Some (mkStoredIdentity a x)
      else st
  end.

(** The stored pair is usable: the second half of the private key is the public one. *)
Definition identity_usable (s : StoredIdentity) : bool :=
  match hex_decode (si_PrivateKey s), hex_decode (si_PublicKey s) with
  | Some priv, Some pub => (slen priv =? 64) && (slen pub =? PublicKeySize) && str_eqb pub (drop 32 priv)
  | _, _ => false
  end.

(** [seed] is the fresh random seed, [ok] whether the new file could be written.  The
    file is rewritten only when its key is not usable. *)
Definition LoadOrCreateServerIdentity {E : Ed25519} (data seed : option str) (ok : bool) : option (StoredIdentity * option str) :=
  let stored :=
    match data with
    | Some ((_ :: _) as d) =>
        match read_json server_identity_field (mkStoredIdentity [] []) d with
        | Some s => if negb (str_eqb (si_PrivateKey s) []) && negb (str_eqb (si_PublicKey s) []) && identity_usable s then Some s else None
        | None => None
        end
    | _ => None
    end in
  match stored with
  | Some s => Some (s, None)
  | None =>
      seed ← seed;
      let s := mkStoredIdentity (hex_encode (ed_pub seed)) (hex_encode (seed ++ ed_pub seed)) in
      if ok then Some (s, Some (MarshalIndent (JObj (server_identity_fields s)))) else None
  end.

(** * Theorems *)

(** ** Reading what was written *)

Lemma read_indented {A} (field : option A -> str * json -> option A) zero l n x :
  fields_printable l = true -> 0 <= n < maxNestingDepth -> depth_le n l -> fold_left field l (Some zero) = Some x ->
  read_json field zero (MarshalIndent (JObj l)) = Some x.
Proof.
  intros Hp Hn Hd Hf. pose proof (depth_le_obj n l ltac:(lia) Hd). unfold read_json. by rewrite parse_indented by (first [exact Hp|lia]).
Qed.

Lemma b64_ascii s : forallb is_ascii (b64_encode s) = true.
Proof.
  assert (forall n, 0 <= n < 64 -> is_ascii (b64_char n) = true) as Hc.
  { intros n Hn. unfold b64_char, is_ascii. repeat case_match; try reflexivity; rewrite byte_val_of; lia. }
  induction s as [|a|a b|a b c t IH] using three_ind; cbn [b64_encode forallb]; [done|..];
    pose proof (byte_val_range a); try pose proof (byte_val_range b); try pose proof (byte_val_range c);
    rewrite !Hc by (Z.to_euclidean_division_equations; lia); done.
Qed.

Lemma b64_valid s : ValidString (b64_encode s) = true.
Proof. apply ascii_valid, b64_ascii. Qed.

Lemma span_whole f (l : str) : forallb f l = true -> span f l = (l, []).
Proof. induction l as [|c l IH]; [done|]. cbn. intros [-> H]%andb_true_iff. by rewrite IH. Qed.

Lemma float_fits_int n : 0 <= n < 2 ^ 64 -> float_fits (itoa n) = true.
Proof.
  intros Hn. unfold itoa. replace (n <? 0) with false by lia.
  assert (num_scale (utoa n) = (n, 0)) as Hs.
  { assert (forallb is_digit (utoa n) = true) as Hd.
    { apply forallb_forall. intros c Hc. pose proof (utoa_digits n ltac:(lia)) as F. rewrite Forall_forall in F. apply F. by apply list_elem_of_In. }
    unfold num_scale. destruct (utoa n) as [|c l] eqn:E; [by destruct (utoa_nonempty n)|].
    assert (byte_eqb c "-"%char = false) as Hc.
    { apply byte_eqb_neq. intros ->. cbn in Hd. done. }
    rewrite Hc, span_whole by done. cbn [app]. rewrite app_nil_r, <- E, digits_val_utoa by lia. done. }
  unfold float_fits. rewrite Hs. destruct (n =? 0); [done|]. change (0 <=? 0) with true. cbv iota.
  assert (2 ^ 64 < float_limit) as Hl by (by vm_compute). rewrite Z.pow_0_r, Z.mul_1_r. lia.
Qed.

Definition params_u (p : Params) : Prop := 0 <= pm_Time p < 2 ^ 32 /\ 0 <= pm_Memory p < 2 ^ 32 /\ 0 <= pm_Threads p < 2 ^ 8.

Lemma cost_ok_u p : cost_ok p = true -> params_u p /\ pm_Time p <> 0.
Proof. unfold cost_ok, params_u. rewrite negb_true_iff, !orb_false_iff. lia. Qed.

Definition sealed_u (s : sealed) : Prop := 0 <= sl_Time s < 2 ^ 32 /\ 0 <= sl_Memory s < 2 ^ 32 /\ 0 <= sl_Threads s < 2 ^ 8.
Definition sealed_text_ok (s : sealed) : bool :=
  ValidString (sl_KDF s) && ValidString (sl_Salt s) && ValidString (sl_Nonce s) && ValidString (sl_Cipher s) && ValidString (sl_Ciphertext s).

Lemma sealed_reads s : sealed_u s -> dobj sealed_field (JObj (sealed_fields s)) zeroSealed = Some s.
Proof.
  destruct s as [a b c d e f g h]. intros (H1 & H2 & H3). cbn [dobj]. unfold sealed_fields, zeroSealed.
  cbn [sl_KDF sl_Time sl_Memory sl_Threads sl_Salt sl_Nonce sl_Cipher sl_Ciphertext] in *. rewrite !fold_left_app.
  rewrite (fold_field (fun y => mkSealed y 0 0 0 [] [] [] []) "kdf" (fstr "kdf") dstr []) by solve_field.
  rewrite (fold_field (fun y => mkSealed a y 0 0 [] [] [] []) "t" (fint "t") (duint 32) 0) by solve_field.
  rewrite (fold_field (fun y => mkSealed a b y 0 [] [] [] []) "m" (fint "m") (duint 32) 0) by solve_field.
  rewrite (fold_field (fun y => mkSealed a b c y [] [] [] []) "p" (fint "p") (duint 8) 0) by solve_field.
  rewrite (fold_field (fun y => mkSealed a b c d y [] [] []) "salt" (fstr "salt") dstr []) by solve_field.
  rewrite (fold_field (fun y => mkSealed a b c d e y [] []) "nonce" (fstr "nonce") dstr []) by solve_field.
  rewrite (fold_field (fun y => mkSealed a b c d e f y []) "cipher" (fstr "cipher") dstr []) by solve_field.
  by rewrite (fold_field (fun y => mkSealed a b c d e f g y) "ciphertext" (fstr "ciphertext") dstr []) by solve_field.
Qed.

Lemma fp_obj k l : fields_printable l = true -> ValidString (lit k) = true -> fields_printable [(lit k, JObj l)] = true.
Proof. intros Hl Hk. by apply fp_one. Qed.

Lemma sealed_printable s : sealed_text_ok s = true -> fields_printable (sealed_fields s) = true.
Proof.
  unfold sealed_text_ok. rewrite !andb_true_iff. intros ((((V1 & V2) & V3) & V4) & V5). unfold sealed_fields. solve_printable.
Qed.

Lemma vault_printable e : sealed_text_ok (ee_Encrypted e) = true -> fields_printable (vault_fields e) = true.
Proof.
  intros H. unfold vault_fields. rewrite fields_app. apply andb_true_iff. split; [apply fp_int; reflexivity|].
  apply fp_obj; [by apply sealed_printable|reflexivity].
Qed.

Lemma sealed_depth s : jdepth (JObj (sealed_fields s)) <= 1.
Proof. apply (depth_le_obj 0); [lia|]. unfold sealed_fields, depth_le. solve_depth. Qed.

Lemma vault_depth e : depth_le 1 (vault_fields e).
Proof.
  unfold vault_fields, depth_le, fint. constructor; [cbn; lia|]. constructor; [|constructor]. apply (sealed_depth (ee_Encrypted e)).
Qed.

Lemma vault_parses e : sealed_text_ok (ee_Encrypted e) = true ->
  parse (MarshalIndent (JObj (vault_fields e))) = Some (JObj (vault_fields e)).
Proof.
  intros H. apply parse_indented; [by apply vault_printable|]. pose proof (depth_le_obj 1 _ ltac:(lia) (vault_depth e)). unfold maxNestingDepth. lia.
Qed.

Lemma vault_reads e : is_i64 (ee_Version e) -> sealed_u (ee_Encrypted e) -> sealed_text_ok (ee_Encrypted e) = true ->
  read_json vault_field (mkVault 0 zeroSealed) (MarshalIndent (JObj (vault_fields e))) = Some e.
Proof.
  intros Hv Hu Ht. apply (read_indented _ _ _ 1); [by apply vault_printable|done|apply vault_depth|].
  destruct e as [v s]. cbn [ee_Version ee_Encrypted] in *. unfold vault_fields. rewrite fold_left_app. cbn [ee_Version ee_Encrypted].
  rewrite (fold_field (fun y => mkVault y zeroSealed) "version" (fint "version") dint 0)
    by (first [right; eexists; split; [done|by apply dint_itoa]|intros; reflexivity]).
  cbn [fold_left]. unfold vault_field. change (key_is (lit "encrypted") "version") with false. change (key_is (lit "encrypted") "encrypted") with true.
  cbv iota. by rewrite sealed_reads.
Qed.

Lemma small_numbers k n : 0 <= n < 2 ^ 64 -> forallb (fun kv : str * json => any_ok kv.2) (fint k n) = true.
Proof. intros H. unfold fint. cbn [forallb snd any_ok]. by rewrite float_fits_int. Qed.

Lemma texts_any k s : forallb (fun kv : str * json => any_ok kv.2) (fstr k s) = true.
Proof. done. Qed.
Lemma otexts_any k s : forallb (fun kv : str * json => any_ok kv.2) (ostr k s) = true.
Proof. by destruct s. Qed.

Lemma vault_any e : 0 <= ee_Version e < 2 ^ 64 -> sealed_u (ee_Encrypted e) -> any_ok (JObj (vault_fields e)) = true.
Proof.
  intros Hv (H1 & H2 & H3). assert (any_ok (JObj (sealed_fields (ee_Encrypted e))) = true) as Hs.
  { cbn [any_ok]. unfold sealed_fields. rewrite !forallb_app, !small_numbers by lia. by rewrite !texts_any. }
  change (any_ok (JObj (vault_fields e))) with (forallb (fun kv : str * json => any_ok kv.2) (vault_fields e)). unfold vault_fields.
  rewrite forallb_app, small_numbers by done. cbn [forallb snd]. by rewrite Hs.
Qed.

Lemma vault_is_encrypted e : 0 <= ee_Version e < 2 ^ 64 -> sealed_u (ee_Encrypted e) -> sealed_text_ok (ee_Encrypted e) = true ->
  isEncrypted (MarshalIndent (JObj (vault_fields e))) = true.
Proof.
  intros Hv Hu Ht. unfold isEncrypted, probe_map. by rewrite vault_parses, vault_any.
Qed.

(** ** Sealing and opening *)

Section seal.
Context {A2 : Argon2} {C : AEAD} {L2 : Argon2Laws} {LC : AEADLaws}.

(** What was sealed is recognised, and opens under its passphrase. *)
Lemma sealed_opens salt nonce plain pass p text : length nonce = NonceSizeX -> cost_ok p = true ->
  encryptJSON (Some salt) (Some nonce) plain pass p = Ok text -> isEncrypted text = true /\ decryptJSON text pass = Ret plain.
Proof.
  intros Hn Hp. unfold encryptJSON. destruct pass as [|x pass]; [done|]. set (pw := x :: pass). intros [= <-].
  destruct (cost_ok_u p Hp) as [Hu Ht0]. set (key := vault_key pw salt p). set (ct := aead_seal key nonce plain).
  set (e := mkVault 3 _). assert (sealed_u (ee_Encrypted e)) as Hs by exact Hu.
  assert (sealed_text_ok (ee_Encrypted e) = true) as Ht by (unfold sealed_text_ok, e; cbn [ee_Encrypted sl_KDF sl_Salt sl_Nonce sl_Cipher sl_Ciphertext]; by rewrite !b64_valid).
  split; [apply vault_is_encrypted; [cbn; lia|done|done]|].
  unfold decryptJSON. rewrite vault_reads; [|cbn; unfold is_i64; lia|done|done].
  assert (length key = KeySize) as Hk by apply IDKey_size. pose proof (aead_seal_tag key nonce plain) as Htag.
  assert (str_eqb (b64_encode ct) [] = false) as Hne.
  { unfold ct. destruct (aead_seal key nonce plain) as [|a [|b [|c t]]]; cbn in Htag; try lia. cbn [b64_encode]. by unfold str_eqb. }
  cbn [e ee_Version ee_Encrypted sl_KDF sl_Cipher sl_Salt sl_Nonce sl_Ciphertext sl_Time sl_Memory sl_Threads]. rewrite !str_eqb_refl, Hne, !b64_decode_encode.
  cbn [negb orb Z.eqb Pos.eqb]. replace (pm_Time p =? 0) with false by lia.
  assert (mkParams (pm_Time p) (pm_Memory p) (pm_Threads p) = p) as -> by (by destruct p). rewrite Hp. cbn [negb].
  rewrite Hn, Nat.eqb_refl. cbn [negb]. fold key. fold ct. destruct (length ct <? 16)%nat eqn:El; [apply Nat.ltb_lt in El; unfold ct in El; lia|].
  unfold ct. by rewrite aead_open_seal.
Qed.
End seal.

(** ** Cost *)

(** C37. Whatever a file claims, the key derivation is only put to work within ten
    passes, 8 to 256 MiB and eight threads: two derivations that agree there open
    every file alike, so a crafted envelope can neither exhaust the memory nor crash
    the derivation. *)
Theorem envelope_cost_is_bounded {C : AEAD} (a b : Argon2) data pass :
  (forall salt t m p, 1 <= t <= 10 -> 8 * 1024 <= m <= 256 * 1024 -> 1 <= p <= 8 ->
     IDKey (Argon2 := a) pass salt t m p KeySize = IDKey (Argon2 := b) pass salt t m p KeySize) ->
  decryptJSON (A2 := a) data pass = decryptJSON (A2 := b) data pass.
Proof.
  intros Hab. unfold decryptJSON. destruct (read_json _ _ _) as [env|]; [|done]. destruct (_ || _); [done|]. destruct (str_eqb _ _); [done|].
  destruct (b64_decode _) as [salt|]; [|done]. destruct (b64_decode _) as [nonce|]; [|done]. destruct (b64_decode _) as [ct|]; [|done].
  set (p := if sl_Time _ =? 0 then _ else _). destruct (cost_ok p) eqn:Hp; cbn [negb]; [|done].
  unfold vault_key. rewrite Hab; [done|..]; unfold cost_ok in Hp; rewrite negb_true_iff, !orb_false_iff in Hp; lia.
Qed.

(** ** Key files *)

Definition ed_text_ok (e : Ed25519Identity) : bool :=
  ValidString (ei_Role e) && ValidString (ei_PrivateKey e) && ValidString (ei_HmacShield e) && ValidString (ei_ServerPubKey e).
Definition identity_ok (f : IdentityFile) : bool := match if_Ed25519 f with Some e => ed_text_ok e | None => true end.

Lemma ed_reads e : dobj ed_field (JObj (ed_fields e)) zeroEd = Some e.
Proof.
  destruct e as [a b c d]. cbn [dobj]. unfold ed_fields, zeroEd. cbn [ei_Role ei_PrivateKey ei_HmacShield ei_ServerPubKey]. rewrite !fold_left_app.
  rewrite (fold_field (fun y => mkEdIdentity y [] [] []) "role" (fstr "role") dstr []) by solve_field.
  rewrite (fold_field (fun y => mkEdIdentity a y [] []) "private_key" (fstr "private_key") dstr []) by solve_field.
  rewrite (fold_field (fun y => mkEdIdentity a b y []) "hmac_shield" (fstr "hmac_shield") dstr []) by solve_field.
  by rewrite (fold_field (fun y => mkEdIdentity a b c y) "server_pubkey" (ostr "server_pubkey") dstr []) by solve_field.
Qed.

Lemma identity_shape f : identity_ok f = true ->
  fields_printable (identity_fields f) = true /\ depth_le 1 (identity_fields f).
Proof.
  intros H. unfold identity_ok, ed_text_ok in H. unfold identity_fields, oed, depth_le. destruct (if_Ed25519 f) as [e|].
  - rewrite !andb_true_iff in H. destruct H as (((V1 & V2) & V3) & V4). split.
    + rewrite fields_app. apply andb_true_iff. split; [apply fp_int; reflexivity|]. apply fp_obj; [|reflexivity]. unfold ed_fields. solve_printable.
    + unfold fint. constructor; [cbn; lia|]. constructor; [|constructor]. cbn [snd]. apply (depth_le_obj 0); [lia|].
      unfold ed_fields, depth_le. solve_depth.
  - rewrite app_nil_r. split; [apply fp_int; reflexivity|]. unfold fint. constructor; [cbn; lia|constructor].
Qed.

Lemma identity_reads f text : identity_ok f = true -> is_i64 (if_Version f) -> text = MarshalIndent (JObj (identity_fields f)) ->
  read_json identity_field (mkIdentityFile 0 None) text = Some f.
Proof.
  intros Hf Hv ->. destruct (identity_shape f Hf) as [Hp Hd]. apply (read_indented _ _ _ 1); [done|done|done|].
  destruct f as [v e]. cbn [if_Version] in Hv. unfold identity_fields. rewrite fold_left_app. cbn [if_Version if_Ed25519].
  rewrite (fold_field (fun y => mkIdentityFile y None) "version" (fint "version") dint 0)
    by (first [right; eexists; split; [done|by apply dint_itoa]|intros; reflexivity]).
  destruct e as [e|]; [|done]. cbn [oed fold_left]. unfold identity_field. change (key_is (lit "ed25519") "version") with false.
  change (key_is (lit "ed25519") "ed25519") with true. cbv iota. unfold ded. cbn [default]. by rewrite ed_reads.
Qed.

Lemma identity_parses f : identity_ok f = true -> parse (identity_text f) = Some (JObj (identity_fields (mkIdentityFile IdVersion (if_Ed25519 f)))).
Proof.
  intros Hf. unfold identity_text. set (g := mkIdentityFile IdVersion (if_Ed25519 f)). destruct (identity_shape g Hf) as [Hp Hd].
  apply parse_indented; [done|]. pose proof (depth_le_obj 1 _ ltac:(lia) Hd). unfold maxNestingDepth. lia.
Qed.

Lemma identity_any v e : 0 <= v < 2 ^ 64 -> any_ok (JObj (identity_fields (mkIdentityFile v e))) = true.
Proof.
  intros Hv. change (any_ok (JObj ?l)) with (forallb (fun kv : str * json => any_ok kv.2) l). unfold identity_fields. cbn [if_Version if_Ed25519].
  rewrite forallb_app, small_numbers by done. destruct e as [e|]; [|done]. cbn [oed forallb snd].
  assert (any_ok (JObj (ed_fields e)) = true) as ->; [|done].
  cbn [any_ok]. unfold ed_fields. by rewrite !forallb_app, !texts_any, otexts_any.
Qed.

(** A plain key file loads as what was saved, and is never taken for a sealed one. *)
Lemma saved_loads f : identity_ok f = true ->
  isEncrypted (identity_text f) = false /\ Load (Some (identity_text f)) = Ret (mkIdentityFile IdVersion (if_Ed25519 f)).
Proof.
  intros Hf. set (g := mkIdentityFile IdVersion (if_Ed25519 f)).
  assert (probe_map (identity_text f) = Some (identity_fields g)) as Hp.
  { unfold probe_map. rewrite identity_parses by done. by rewrite identity_any. }
  assert (isEncrypted (identity_text f) = false) as He.
  { unfold isEncrypted. rewrite Hp. unfold identity_fields, g. cbn [if_Version if_Ed25519]. by destruct (if_Ed25519 f). }
  split; [done|]. unfold Load. rewrite He, Hp.
  assert (has_host (identity_fields g) = false) as ->.
  { unfold has_host, identity_fields, g. cbn [if_Version if_Ed25519]. destruct (if_Ed25519 f) as [[a b c d]|]; [|done]. by destruct d. }
  assert (is_Some (member (identity_fields g) "version")) as Hv.
  { unfold identity_fields, g. cbn [if_Version if_Ed25519]. by destruct (if_Ed25519 f); eexists. }
  rewrite bool_decide_true by done. rewrite (identity_reads g); [done|exact Hf|unfold is_i64, g, IdVersion; cbn; lia|done].
Qed.

Section sessions.
Context {A2 : Argon2} {C : AEAD} {L2 : Argon2Laws} {LC : AEADLaws}.

Lemma sealed_identity_opens f salt nonce pass p text : identity_ok f = true -> length nonce = NonceSizeX -> cost_ok (default defaultParams p) = true ->
  sealed_text (Some salt) (Some nonce) f pass p = Ok text ->
  isEncrypted text = true /\ LoadEncrypted (Some text) pass = Ret (mkIdentityFile IdVersion (if_Ed25519 f)) /\ Load (Some text) = Fails FileEncrypted.
Proof.
  intros Hf Hn Hp Hs. destruct (sealed_opens _ _ _ _ _ _ Hn Hp Hs) as [He Ho]. split; [done|]. unfold LoadEncrypted, Load. rewrite He. cbn [negb].
  split; [|done]. rewrite Ho. cbn [relabel and_then].
  rewrite (identity_reads (mkIdentityFile IdVersion (if_Ed25519 f))); [done|exact Hf|unfold is_i64, IdVersion; cbn; lia|done].
Qed.

(** C36. A session that unlocked a sealed key file never writes it back in the open:
    whatever identity it saves later is sealed again under the passphrase that
    unlocked the file, opens with it as what was saved, and the plain loader refuses
    it. *)
Theorem session_saves_stay_sealed m data env_pass prompt f m' g salt nonce text :
  isEncrypted data = true -> client_LoadIdentityFile m (Some data) env_pass prompt = (Ret f, m') ->
  match env_pass with [] => prompt <> Some [] | _ => True end -> identity_ok g = true -> length nonce = NonceSizeX ->
  SaveIdentityFileEncrypted m' (Some salt) (Some nonce) g = Ok text ->
  isEncrypted text = true /\ Load (Some text) = Fails FileEncrypted /\
  exists pw, (match env_pass with [] => prompt | _ => Some env_pass end) = Some pw /\
    LoadEncrypted (Some data) pw = Ret f /\ LoadEncrypted (Some text) pw = Ret (mkIdentityFile IdVersion (if_Ed25519 g)).
Proof.
  intros He Hl Hne Hg Hn Hs. unfold client_LoadIdentityFile, LoadIdentityFile in Hl. rewrite He in Hl.
  destruct (match env_pass with [] => prompt | _ => Some env_pass end) as [pw|] eqn:Hpw; [|done].
  destruct (LoadEncrypted (Some data) pw) as [f'| |] eqn:Hle; cbn [and_then] in Hl; try done. injection Hl as <- <-.
  destruct pw as [|x pw]; [destruct env_pass; [by destruct Hne|done]|].
  unfold SaveIdentityFileEncrypted in Hs. cbn [rememberLoadedPassphrase rb_encrypted rb_pass andb] in Hs.
  change (str_eqb (x :: pw) []) with false in Hs. cbn [negb] in Hs.
  destruct (sealed_identity_opens g salt nonce (x :: pw) None text Hg Hn eq_refl Hs) as (T1 & T2 & T3).
  split; [done|]. split; [done|]. by exists (x :: pw).
Qed.

(** A session that read a plain file remembers nothing new. *)
Lemma plain_load_remembers_nothing m data env_pass prompt : isEncrypted data = false ->
  (client_LoadIdentityFile m (Some data) env_pass prompt).2 = m.
Proof.
  intros He. unfold client_LoadIdentityFile, LoadIdentityFile. rewrite He. by destruct (Load (Some data)).
Qed.
End sessions.

(** ** The tripcode *)

Lemma tripcode_reads f : is_i64 (tf_Version f) -> ValidString (tf_Tripcode f) = true -> ValidString (tf_Salt f) = true ->
  read_json tripcode_field (mkTripcodeFile 0 [] []) (print (JObj (tripcode_fields f))) = Some f.
Proof.
  destruct f as [v t s]. cbn [tf_Version tf_Tripcode tf_Salt]. intros Hv Ht Hs. unfold read_json. rewrite parse_print.
  - cbn [dobj]. unfold tripcode_fields. cbn [tf_Version tf_Tripcode tf_Salt]. rewrite !fold_left_app.
    rewrite (fold_field (fun y => mkTripcodeFile y [] []) "version" (fint "version") dint 0)
      by (first [right; eexists; split; [done|by apply dint_itoa]|intros; reflexivity]).
    rewrite (fold_field (fun y => mkTripcodeFile v y []) "tripcode" (fstr "tripcode") dstr []) by solve_field.
    by rewrite (fold_field (fun y => mkTripcodeFile v t y) "salt" (ostr "salt") dstr []) by solve_field.
  - change (fields_printable (tripcode_fields (mkTripcodeFile v t s)) = true). unfold tripcode_fields. cbn [tf_Version tf_Tripcode tf_Salt]. solve_printable.
  - assert (depth_le 0 (tripcode_fields (mkTripcodeFile v t s))) as Hd by (unfold tripcode_fields, depth_le; solve_depth).
    pose proof (depth_le_obj 0 _ ltac:(lia) Hd). unfold maxNestingDepth. lia.
Qed.

Section rederive.
Context {U : Unicode} {E : Ed25519} {A2 : Argon2} {C : AEAD} {L2 : Argon2Laws} {LC : AEADLaws}.

(** The salt a session ends up with when its tripcode comes from a file. *)
Definition file_salt (e : SecretEnv) (stored : str) : str * salt_source :=
  match tv_TripSalt e with
  | [] => match stored with [] => customSaltWithSource e | _ => (stored, FromFile) end
  | v => (v, FromEnv)
  end.

Lemma stored_tripcode_resolves weak e username host tc tripSalt unlock salt nonce text salt' nonce' input :
  tv_wasm e = false -> tv_Tripcode e = [] -> tv_Passphrase e = unlock -> tc <> [] -> ValidString tc = true -> ValidString tripSalt = true ->
  length nonce = NonceSizeX -> saveTripcodeFile (Some salt) (Some nonce) tc tripSalt unlock = Ok text ->
  resolveTripcode weak e true username host (Some (Some text)) salt' nonce' input =
    (Ret (tc, (file_salt e tripSalt).1, Some (file_salt e tripSalt).2), None, input).
Proof.
  intros Hw Ht Hp Hne Vt Vs Hn Hs. unfold resolveTripcode. rewrite Hw, Ht. cbn [negb].
  unfold saveTripcodeFile in Hs. destruct unlock as [|x unlock]; [done|]. unfold EncryptData in Hs.
  destruct (sealed_opens _ _ _ _ defaultParams _ Hn eq_refl Hs) as [He Ho]. unfold loadTripcodeFile. rewrite He. cbn [negb]. rewrite Hp. cbv iota beta.
  unfold DecryptData. rewrite Ho. cbn [relabel and_then]. rewrite tripcode_reads by (first [done|unfold is_i64; cbn; lia]).
  cbn [tf_Tripcode tf_Salt]. destruct tc as [|y tc]; [done|]. change (str_eqb (y :: tc) []) with false. cbv iota.
  unfold file_salt. destruct (tv_TripSalt e) as [|v vs]; [|done]. destruct tripSalt as [|z zs]; [|done]. by destruct (customSaltWithSource e).
Qed.

(** A stored tripcode is portable: saved with a salt of its own it gives every
    later session that unlocks the file the same key pair and badge, on every server
    and under every configuration, unless V2V_TRIP_SALT overrides the salt, and no
    prompt is shown.  Two machines of one kind derive what the saving session
    derived. *)
Theorem saved_tripcode_rederives weak e e' username host tc tripSalt unlock salt nonce text salt' nonce' input challenge pub challenge' pub' :
  tv_wasm e = false -> tv_wasm e' = false -> tv_Tripcode e' = [] -> tv_Passphrase e' = unlock -> tv_TripSalt e' = [] ->
  tc <> [] -> ValidString tc = true -> tripSalt <> [] -> ValidString tripSalt = true -> length nonce = NonceSizeX ->
  tripCustomSalt e = tripSalt -> saveTripcodeFile (Some salt) (Some nonce) tc (tripCustomSalt e) unlock = Ok text ->
  exists s src, resolveTripcode weak e' true username host (Some (Some text)) salt' nonce' input = (Ret (tc, s, Some src), None, input) /\
    session_key e' tc s challenge' pub' = session_key e tc (tripCustomSalt e) challenge pub.
Proof.
  intros W W' Ht Hp Hts Hne Vt Hse Vs Hn Hc Hs. rewrite Hc in *.
  rewrite (stored_tripcode_resolves weak e' username host tc tripSalt unlock salt nonce text salt' nonce' input); [|done..].
  do 2 eexists. split; [reflexivity|]. unfold file_salt. rewrite Hts. destruct tripSalt as [|z zs]; [done|]. cbn [fst].
  unfold session_key, resolveTripSalt, deriveTripKey. destruct tc; [done|]. by rewrite W, W'.
Qed.
End rederive.

(** ** The server's key *)

(** The key a server creates is the key it has after every restart: the file it
    wrote is read back and kept, whatever fresh randomness the restart has, and is
    not rewritten. *)
Theorem server_identity_survives_restart {E : Ed25519} {L : Ed25519Laws} data seed s text seed' ok' : length seed = 32%nat ->
  LoadOrCreateServerIdentity data (Some seed) true = Some (s, Some text) ->
  LoadOrCreateServerIdentity (Some text) seed' ok' = Some (s, None) /\
  hex_decode (si_PublicKey s) = Some (ed_pub seed) /\ hex_decode (si_PrivateKey s) = Some (seed ++ ed_pub seed).
Proof.
  intros Hl Hc. assert (s = mkStoredIdentity (hex_encode (ed_pub seed)) (hex_encode (seed ++ ed_pub seed)) /\
    text = MarshalIndent (JObj (server_identity_fields s))) as [-> ->].
  { unfold LoadOrCreateServerIdentity in Hc. cbv zeta in Hc.
    match type of Hc with match ?st with _ => _ end = _ => destruct st; [done|] end. cbn [mbind option_bind] in Hc. by injection Hc as <- <-. }
  cbn [si_PublicKey si_PrivateKey]. rewrite !hex_decode_encode. split; [|done].
  set (pub := hex_encode (ed_pub seed)). set (priv := hex_encode (seed ++ ed_pub seed)). pose proof (ed_pub_size seed Hl) as Hp.
  unfold LoadOrCreateServerIdentity.
  assert (read_json server_identity_field (mkStoredIdentity [] []) (MarshalIndent (JObj (server_identity_fields (mkStoredIdentity pub priv)))) =
    Some (mkStoredIdentity pub priv)) as Hr.
  { assert (ValidString pub = true /\ ValidString priv = true) as [V1 V2] by (split; apply ChainService.hex_valid).
    apply (read_indented _ _ _ 0); [unfold server_identity_fields; cbn [si_PublicKey si_PrivateKey]; solve_printable|done|
      unfold server_identity_fields, depth_le; solve_depth|].
    unfold server_identity_fields. cbn [si_PublicKey si_PrivateKey]. rewrite !fold_left_app.
    rewrite (fold_field (fun y => mkStoredIdentity y []) "public_key" (fstr "public_key") dstr []) by solve_field.
    by rewrite (fold_field (fun y => mkStoredIdentity pub y) "private_key" (fstr "private_key") dstr []) by solve_field. }
  assert (exists c t, MarshalIndent (JObj (server_identity_fields (mkStoredIdentity pub priv))) = c :: t) as (c & t & Ht) by (do 2 eexists; reflexivity).
  rewrite Ht in *. rewrite Hr. cbn [si_PrivateKey si_PublicKey].
  assert (str_eqb priv [] = false /\ str_eqb pub [] = false) as [-> ->].
  { split; apply bool_decide_eq_false; intros H; apply (f_equal length) in H; unfold priv, pub in H; rewrite length_hex_encode in H; cbn in H;
      rewrite ?length_app in H; lia. }
  assert (identity_usable (mkStoredIdentity pub priv) = true) as ->; [|done].
  unfold identity_usable. cbn [si_PrivateKey si_PublicKey]. unfold pub, priv. rewrite !hex_decode_encode. unfold slen. rewrite length_app, Hl, Hp.
  change (Z.of_nat (32 + 32) =? 64) with true. change (Z.of_nat 32 =? PublicKeySize) with true. rewrite drop_app_length' by done. apply str_eqb_refl.
Qed.

(** ** Modes and owners *)

(** A secret configuration file ends owner-only whatever it was; a replacement by
    root keeps the owner; a failed write leaves the old file. *)
Lemma secret_config_is_private w old data f : WriteSecretConfigFile true true w old data = Some f -> fl_mode f = 384 /\ fl_data f = data.
Proof. unfold WriteSecretConfigFile, set_mode, writeFileAtomic. cbn. by intros [= <-]. Qed.

Lemma root_keeps_owner w old data perm f g : wr_uid w = 0 -> old = Some g -> writeFileAtomic true w old data perm = Some f -> fl_owner f = fl_owner g.
Proof. intros Hw ->. unfold writeFileAtomic. rewrite Hw. cbn. by intros [= <-]. Qed.

Lemma failed_write_keeps w old data perm : writeFileAtomic false w old data perm = old.
Proof. done. Qed.

(** * Concrete runs *)

Definition toy_tag (key nonce plain : str) : str := take 16 (sha256 (key ++ nonce ++ plain)).
Definition toy_aead : AEAD := {|
  aead_seal key nonce plain := plain ++ toy_tag key nonce plain;
  aead_open key nonce ct :=
    let plain := take (length ct - 16) ct in
    if str_eqb (drop (length ct - 16) ct) (toy_tag key nonce plain) then Some plain else None
|}.

Lemma toy_tag_size key nonce plain : length (toy_tag key nonce plain) = 16%nat.
Proof. unfold toy_tag. by rewrite length_take, length_sha256. Qed.

Lemma toy_aead_laws : AEADLaws (H := toy_aead).
Proof.
  split; intros key nonce plain; [intros _ _|]; cbn [aead_open aead_seal toy_aead].
  - rewrite length_app, toy_tag_size. replace (length plain + 16 - 16)%nat with (length plain) by lia.
    by rewrite take_app_length, drop_app_length, str_eqb_refl.
  - rewrite length_app, toy_tag_size. lia.
Qed.

Lemma toy_argon2_laws : Argon2Laws (A2 := toy_argon2).
Proof. split. intros. cbn [IDKey toy_argon2]. unfold KeySize. by rewrite length_take, length_sha512. Qed.

Section witnesses.
Let U := sample_unicode.
Let E := toy_ed25519.
Let A2 := toy_argon2.
Let C := toy_aead.

(** A file that asks for 255 passes over four terabytes. *)
Definition evil_file : str :=
  jlit "{`version`:3,`encrypted`:{`kdf`:`argon2id`,`t`:255,`m`:4294967295,`p`:255,`salt`:`AAAA`,`nonce`:`AAAA`,`cipher`:`xchacha20poly1305`,`ciphertext`:`AA`}}".
Definition frugal_argon2 : Argon2 := {| IDKey pw salt t m p n := if 10 <? t then [] else IDKey (Argon2 := toy_argon2) pw salt t m p n |}.

Lemma envelope_cost_is_bounded_witness :
  decryptJSON (A2 := A2) (C := C) evil_file (lit "x") = decryptJSON (A2 := frugal_argon2) (C := C) evil_file (lit "x") /\
  decryptJSON (A2 := A2) (C := C) evil_file (lit "x") = Fails CostOutOfRange.
Proof.
  split; [|vm_compute; reflexivity]. apply (envelope_cost_is_bounded (C := C) A2 frugal_argon2).
  intros salt t m p Ht _ _. unfold frugal_argon2. cbn [IDKey]. replace (10 <? t) with false by lia. reflexivity.
Defined.

(** A nonce of the wrong size is not an error but a panic. *)
Example short_nonce_panics :
  decryptJSON (A2 := A2) (C := C)
    (jlit "{`version`:3,`encrypted`:{`kdf`:`argon2id`,`t`:1,`m`:32768,`p`:1,`salt`:`AAAA`,`nonce`:`AAAA`,`cipher`:`xchacha20poly1305`,`ciphertext`:`AA`}}")
    (lit "x") = Panics.
Proof. vm_compute. reflexivity. Qed.

(** A key file that was readable by others stays so. *)
Example save_keeps_a_loose_mode f : option_map fl_mode (Save true (mkWriter 1000 18 1000) (Some (mkFile [] 420 1000)) f) = Some 420.
Proof. reflexivity. Qed.

(** A tripcode saved without a salt takes the configuration's, not the server's. *)
Example saltless_file_takes_the_config : file_salt (mkSecretEnv [] [] [] (lit "home") [] false []) [] = (lit "home", FromConfig).
Proof. reflexivity. Qed.

Definition demo_identity : IdentityFile := mkIdentityFile 3 (Some (mkEdIdentity (lit "admin") (lit "aa") (lit "bb") [])).
Definition demo_salt : str := lit "0123456789abcdef".
Definition demo_nonce : str := lit "0123456789abcdef01234567".
Definition demo_sealed : str := match sealed_text (A2 := A2) (C := C) (Some demo_salt) (Some demo_nonce) demo_identity (lit "open sesame") None with Ok t => t | Err _ => [] end.

Lemma session_saves_stay_sealed_witness : exists f m' text,
  client_LoadIdentityFile (A2 := A2) (C := C) ClearLoadedPassphrase (Some demo_sealed) [] (Some (lit "open sesame")) = (Ret f, m') /\
  SaveIdentityFileEncrypted (A2 := A2) (C := C) m' (Some demo_salt) (Some demo_nonce) demo_identity = Ok text /\ Load (Some text) = Fails FileEncrypted.
Proof.
  pose proof toy_argon2_laws as L2. pose proof toy_aead_laws as LC.
  destruct (client_LoadIdentityFile (A2 := A2) (C := C) ClearLoadedPassphrase (Some demo_sealed) [] (Some (lit "open sesame"))) as [[f|e|] m'] eqn:Hl;
    [|by apply (f_equal (fun x => match x.1 with Ret _ => true | _ => false end)) in Hl; vm_compute in Hl..].
  destruct (SaveIdentityFileEncrypted (A2 := A2) (C := C) m' (Some demo_salt) (Some demo_nonce) demo_identity) as [text|e] eqn:Hs.
  - exists f, m', text. split; [reflexivity|]. split; [exact Hs|].
    exact (proj1 (proj2 (session_saves_stay_sealed (A2 := A2) (C := C) ClearLoadedPassphrase demo_sealed [] (Some (lit "open sesame")) f m' demo_identity
      demo_salt demo_nonce text ltac:(vm_compute; reflexivity) Hl ltac:(intros [=]) eq_refl eq_refl Hs))).
  - exfalso. unfold SaveIdentityFileEncrypted in Hs. destruct (rb_encrypted m' && negb (str_eqb (rb_pass m') [])) eqn:Hb; [|discriminate Hs].
    unfold sealed_text, encryptJSON in Hs. destruct (rb_pass m') eqn:Hp; [|discriminate Hs]. rewrite andb_false_r in Hb. discriminate Hb.
Defined.

Definition saving_env : SecretEnv := mkSecretEnv [] (lit "my salt") [] [] [] false [].
Definition later_env : SecretEnv := mkSecretEnv [] [] (lit "unlock me") (lit "other") (lit "fallback") false [].

Lemma saved_tripcode_rederives_witness : exists text s src,
  saveTripcodeFile (A2 := A2) (C := C) (Some demo_salt) (Some demo_nonce) (lit "horse battery") (lit "my salt") (lit "unlock me") = Ok text /\
  resolveTripcode (U := U) (A2 := A2) (C := C) (fun _ _ => true) later_env true [] [] (Some (Some text)) None None [] = (Ret (lit "horse battery", s, Some src), None, []) /\
  session_key (E := E) (A2 := A2) later_env (lit "horse battery") s (lit "there") (lit "ab") = session_key (E := E) (A2 := A2) saving_env (lit "horse battery") (lit "my salt") [] [].
Proof.
  pose proof toy_argon2_laws as L2. pose proof toy_aead_laws as LC.
  destruct (saveTripcodeFile (A2 := A2) (C := C) (Some demo_salt) (Some demo_nonce) (lit "horse battery") (lit "my salt") (lit "unlock me")) as [text|e] eqn:Hs; [|discriminate Hs].
  destruct (saved_tripcode_rederives (U := U) (E := E) (A2 := A2) (C := C) (fun _ _ => true) saving_env later_env [] [] (lit "horse battery") (lit "my salt") (lit "unlock me")
    demo_salt demo_nonce text None None [] [] [] (lit "there") (lit "ab") eq_refl eq_refl eq_refl eq_refl eq_refl ltac:(intros [=]) eq_refl ltac:(intros [=]) eq_refl eq_refl eq_refl Hs)
    as (s & src & H1 & H2).
  exists text, s, src. split; [reflexivity|]. split; [exact H1|exact H2].
Defined.

Definition server_seed : str := take 32 (sha512 (lit "server")).

Lemma server_identity_survives_restart_witness : exists s text,
  LoadOrCreateServerIdentity (E := E) None (Some server_seed) true = Some (s, Some text) /\
  LoadOrCreateServerIdentity (E := E) (Some text) None true = Some (s, None).
Proof.
  destruct (LoadOrCreateServerIdentity (E := E) None (Some server_seed) true) as [[s [text|]]|] eqn:Hc;
    [|apply (f_equal (fun x => match x with Some (_, Some _) => true | _ => false end)) in Hc; vm_compute in Hc; discriminate Hc..].
  exists s, text. split; [reflexivity|].
  exact (proj1 (server_identity_survives_restart (E := E) (L := toy_laws) None server_seed s text None true ltac:(vm_compute; reflexivity) Hc)).
Defined.
End witnesses.
